(* ===== verification/_CoqProject ===== *)
-Q . S2P
Prelude.v
GoError.v
GoStrings.v
GoRun.v
BaseStream.v
StreamConc.v
BaseChannel.v
ClientStream.v
ServerStream.v
Channels.v
UnaryCall.v
StreamCall.v
Examples.v
CallQueueMemory.v
Dialer.v
Dial.v
DialLayers.v
ManagedProcess.v
ProcessManager.v
ServerAuth.v
ClientAuth.v
StoppableWorkers.v
ArtifactTree.v
ArtifactCache.v
ArtifactSync.v
CallQueueMongo.v
MongoOffers.v
MongoWorkers.v
SignalingServer.v
Signaling.v
Peer.v
Answerer.v
Caller.v
MongoHelpers.v
Web.v
MongoSetup.v
ServerOptions.v
ExampleServers.v
RpcServer.v
ProcessConfig.v
Flags.v
Runtime.v
RuntimeMain.v
TestUtils.v
Helpers.v
Protoutils.v
Statz.v
Perf.v
Exporters.v
Tracing.v
WebServing.v
Devices.v
ArtifactConfig.v
Keys.v
ProcessKill.v
Coverage.v
TestResults.v
