(* ===== verification/Prelude.v ===== *)
(** * Verification of go.viam.com/utils

    The library is a set of Go packages around one core: gRPC calls that are
    carried over a WebRTC data channel ([rpc/]), and the pieces that an
    application needs to dial, to authenticate, to signal, to run other
    programs, to keep large files and to observe itself. This development models
    these packages and proves what makes them correct. It reads along the code:
    every definition names the function that it translates, keeps its name where
    possible, and its branches are in the order of the code.

    ** Parts

    Bottom up, one file per part; each requires the ones it calls.

    Foundations:
    - [Prelude] (this file): notations, tactics, lemmas on lists, strings and
      maps, and the notion of reachability that all step relations share.
    - [GoError]: Go's error values as the inductive [goerror]; errors.Is;
      [error.go]; the classification of errors by the streams. multierr and
      grpc/status are the classes [Multierr] and [GrpcStatus] with laws.
    - [GoStrings], [GoRun]: what the code uses of strings, strconv and fmt; and
      of panics and loops, as a monad of results.

    Calls over a data channel:
    - [BaseStream]: [rpc/wrtc_base_stream.go]. The record [baseStream] has the
      fields of webrtcBaseStream; packet reassembly ([processMessage]), the
      hand-over to the consumer ([enter_sender], [deliver]), closing, RecvMsg.
      A call that may wait or panic has an [outcome].
    - [StreamConc]: the goroutines around one base stream as a step relation.
    - [BaseChannel]: [rpc/wrtc_base_channel.go]. Life cycle of a data channel,
      connection states, and the flow-controlled write.
    - [ClientStream]: [rpc/wrtc_client_stream.go]; the wire messages.
    - [ServerStream]: [rpc/wrtc_server_stream.go] and [rpc/wrtc_server.go]:
      the response protocol, admission of calls, services, Stop.
    - [Channels]: [rpc/wrtc_client_channel.go], [rpc/wrtc_server_channel.go]:
      the registry of active streams, behind the interface [StreamLike].
    - [UnaryCall], [StreamCall]: client channel and server channel connected:
      a whole call of either kind from the stub to the handler and back.
    - [Examples]: the services of [rpc/examples/], as written and as handlers of
      such calls. [ExampleServers]: the commands around them.

    Dialing and connections:
    - [Dialer]: [ref.go] and the cached dialer of [rpc/dialer.go], sequentially
      and interleaved. [DialLayers]: what lies between it and its callers.
    - [Dial]: [rpc/dial.go], [rpc/dial_options.go] and the direct dial of
      [rpc/dialer.go]; every connection opened or closed is an event.
    - [Peer]: [rpc/wrtc_peer.go]; pion's connection is the class [PionPeer].
    - [Caller]: [rpc/wrtc_client.go]: the goroutines of dialWebRTC, and the
      chain caller, signaling server, queue, answerer in one theorem.
    - [Answerer]: [rpc/wrtc_signaling_answerer.go]: the life cycle of an
      answerer and the goroutines of one attempt, two step relations.
    - [SignalingServer], [Signaling]: [rpc/wrtc_signaling_server.go],
      [rpc/wrtc_signaling.go]: the loops of Call and Answer over a queue, and
      the composition of the server with the MongoDB queue.
    - [CallQueueMemory]: [rpc/wrtc_call_queue_memory.go]: the signaling queue
      with its heap of exchanges and host queues.
    - [CallQueueMongo], [MongoOffers], [MongoWorkers]:
      [rpc/wrtc_call_queue_mongodb.go]. The database is the class [CallsColl]
      with the documented laws of its operations ([CallsCollLaws]), the
      operator's state the record [mongoQueue]; the second file holds the
      theorems about offers, the third the constructor and the background
      goroutines as a step relation.

    Servers and authentication:
    - [ServerAuth]: [rpc/server_auth.go], [rpc/auth.go], [rpc/context.go];
      the JWT library is the class [Jwt] with its laws [JwtLaws].
    - [ClientAuth]: the per-call credentials of [rpc/dialer.go] and the
      interceptor of [rpc/client_interceptors.go], interleaved.
    - [ServerOptions]: [rpc/server_options.go], each option a partial function
      on the record [serverOptions].
    - [RpcServer]: [rpc/server.go]. NewServer is a computation in a small monad
      that keeps what is held when it fails; it makes the state of
      [ServerAuth], the signaling server and the answerers of the parts above.
    - [Keys]: [jwks/], [secrets/] and the installation of [web/auth0.go].
    - [Tracing]: the interceptors of tracing of client and server.
    - [Web], [WebServing]: [web/sessions.go], [web/user.go], [web/error.go] and
      the login flow of [web/auth0.go]; both stores are instances of
      [SessionStore]. Then [web/api.go], [web/templates.go] and
      [web/protojson/] over the response writer of net/http.
    - [MongoHelpers], [MongoSetup]: [mongo/].

    Processes and the program itself:
    - [ManagedProcess], [ProcessManager], [ProcessConfig], [ProcessKill]:
      [pexec/].
    - [StoppableWorkers]: [stoppable_workers.go].
    - [Runtime], [RuntimeMain]: [runtime.go], [context.go], [leak.go].
    - [Flags]: [flag.go] with the parser of the standard library.
    - [Helpers]: [net.go], [http2.go], [string.go], [io.go].
    - [Protoutils]: [protoutils/]; reflection is an inductive type of values.
    - [Devices]: [usb/] and [serial/].

    Artifacts and observation:
    - [ArtifactTree], [ArtifactCache], [ArtifactSync], [ArtifactConfig]:
      [artifact/]: the tree and its specification [manifest]; the cache over a
      store (class [Store]) and the user's directory; the theorems about the
      cache; the search for configurations and the store in the cloud.
    - [Statz]: [perf/statz/]; [Perf], [Exporters]: the rest of [perf/], the
      exporters behind their interface (class [Exporter]).
    - [Coverage], [TestResults]: [etc/analyzecoverage], [etc/analyzetests].
    - [TestUtils]: [testutils/]: a main function under a test as two step
      relations, waiting for an assertion, the shared client of MongoDB.

    ** What the theorems show

    - Transport: a message survives being cut into packets and reassembled,
      at the client and at the server; a server only ever sends headers, then
      messages, then trailers; a client that receives such a conversation gets
      its messages, its status, its headers and trailers and is done once;
      after the sending side is closed nothing but resets is sent.
    - Whole calls: a unary call returns what the handler returns for its
      argument ([unary_call_delivers]); a streaming call refines running its
      handler alone, as a machine from messages to messages
      ([stream_call_delivers]), which the example services instantiate; a call
      that is refused returns the status of the refusal ([refused_call_fails]).
    - Concurrency of a stream: no interleaving sends on a closed channel or
      closes one twice, messages are consumed in order, the end is reported
      once, and closing can finish once the context is done. Closing before
      that can wait for ever ([server_close_deadlock]).
    - Channels: identifiers are not reused below 2^64, the limit of streams
      holds, a response changes only the stream it names; the first close of a
      data channel wins; writes obey the buffer threshold.
    - Server: at most as many handlers as tickets run; what Stop waits for.
    - Call queues: the heap of the one in memory stays consistent under all
      operations, offers reach answerers, an error ends an offer; an offer of
      the database is taken once, the offer that is received is one that was
      taken, a host is full exactly at its limit, each side hears the other's
      candidates in order, and where it does not; a reader gets a change stream
      that is open, and closing ends unless a stream is just being opened.
    - Signaling, end to end: whatever the interleaving of its goroutines, an
      attempt of an answerer speaks the protocol of the signaling server
      ([attempt_speaks_protocol]); what Answer receives the caller gets from
      Call ([answer_reaches_caller]), so that pion at the caller is given the
      answer and candidates of pion at the answerer ([caller_applies_answer]);
      attempts, answerers and dials can always end and leave nothing behind.
    - Peers: session descriptions and base64 survive their encoding; a
      renegotiation ends after one offer and one answer in agreement.
    - Dialing: nothing that is opened is left open, credentials are sent in
      plaintext only when the options say so, the cached dialer closes each
      connection once and not before its last user, and shares one only among
      dials of the same protocol, target and hash of options.
    - Authentication: a protected method is reached only with an entity that
      the call has shown; an issued token is accepted; a call only carries a
      token issued for its credentials; no caller waits for ever for one; with
      a key set only tokens of its keys are accepted.
    - Server assembly: on the chain of interceptors that NewServer builds the
      check of [ServerAuth] decides about every call; the internal answerer's
      credentials work and nobody else's do; options keep the record
      consistent; Stop releases everything in order and is final.
    - Web: without the state of the redirect and a verified token a callback
      changes no session; a whole login ends with the user in the session; the
      API middleware answers as a reference definition says.
    - Artifacts: the tree refines a flat map of paths, survives its file, and
      writing through computes the tree of a reference definition; cleaning
      removes exactly what the tree does not have; the search finds the
      configuration that is nearest upwards.
    - MongoDB helpers: when a background of a change stream returns, what it
      delivers; restoring undoes the randomisation of names; the global options
      are those of the last call that set them.
    - Processes and workers: one process alive, one close of its channel, no
      restart after Stop; killing escalates within its bounds; a manager stops
      all it has; workers end before Stop returns; configurations survive their
      JSON.
    - The program: arguments that render settings set exactly those fields and
      no argument makes parsing panic; a managed goroutine completes once; the
      main function ends after the goroutine that watches for signals; merged
      contexts and watchers leave no goroutine behind.
    - Observation: metrics record under the labels they were given; the spans
      of MongoDB end once; a tree of spans is printed whole and forgotten; a
      stopped exporter leaves nothing registered; a trace crosses a channel in
      the metadata; coverage counts statements within their bounds.
    - Tests and examples: a test case waits for its main function and can end
      once that has returned, and where it hangs; one client of MongoDB is
      connected at a time; results are written once; which API keys the example
      servers accept, and when they return.

    Some theorems state behaviour that the code does not seem to mean: their
    comments say so.

    ** Conventions

    Sequential code is a function from state to state and result. Code that
    several goroutines run is cut at its locks and waits: every section in
    between is such a function, and a step relation interleaves the sections.
    A pointer is a number into a heap (exchanges, connections, streams, the
    arrays of slices where they are shared).
    A channel is the list of what it buffers or of who waits to send on it.
    What the network, the operating system, the clock and third-party packages
    answer is an argument, or chosen by the step; no law is assumed of it but
    those of the classes named above. Logging is left out, and metrics where
    they are only recorded. Stream identifiers are 64-bit and wrap; other
    integers of the code stay small and are [nat] or [Z].

    Fuel: [filter_fuel] and [direct_fuel] are 2. FilterOutError calls itself
    on the parts of a combined error, which are not combined themselves, and
    the direct dial calls itself with options without an external
    authenticator: two levels suffice for both. [format_fuel] is 20, the digits
    of a 64-bit number. The packets of a message are written with its length as
    fuel, since each takes at least one byte. A renegotiation
    ([Peer.exchange]) takes the number of messages it may exchange; two are
    enough, and [renegotiation_reaches_agreement] says so for every larger
    number. A handler of a streaming call takes at most the messages that wait,
    and one more step to find that there is none. The loop around runtime.Stack
    and the printing of a tree of spans take fuel that their theorems show to be
    enough ([dump_is_complete]; the depth of the tree). The coverage analyzer
    looks at five earlier commits at most ([look_back_limit]), as the code does;
    the search for a configuration recurses on the path. Loops over the
    answers of the network (the change stream, RecvOffer, exchangeCandidates)
    recurse on the list of those answers, which may have any length.

    Assumptions: the counter of requests of the MongoDB queue has 64 bits and
    the theorems about its workers hold below its wrap-around. The laws of
    [Store] hold for the store in the cloud only under names that are hashes of
    their contents.

    ** Not modelled

    - Logging ([logger.go], [rpc/wrtc_logger.go], the logging interceptors), the
      search for leaks itself, which is goleak's, and the handlers that the HTTP
      gateway and gRPC install.
    - [slice.go], which reads the memory of a slice through unsafe pointers.
    - The rounding of percentages in [Coverage], which are exact here.
    - Generated code under [proto/]; the temporary files, listeners and
      certificates of [testutils/]; the pages that the examples serve. *)

From stdpp Require Export base tactics list strings gmap fin_maps relations.
From Stdlib Require Export ZArith Lia.
From Stdlib Require Strings.Byte.

#[global] Set Default Goal Selector "!".

(** ** Scope and notations *)

Declare Scope go_scope.
Delimit Scope go_scope with go.

(** Bytes and byte slices. *)
Abbreviation byte := Byte.byte.
Abbreviation bytes := (list Byte.byte).

(** [len s] is Go's [len], an [int]; slices are lists. *)
Notation "'len' s" := (Z.of_nat (length s)) (at level 9, s at level 9) : go_scope.

(** ** Automation shared by the components *)

(** Split a boolean conjunction or disjunction hypothesis and reflect tests on
    integers. *)
Ltac breflect :=
  repeat match goal with
  | H : (_ && _) = true |- _ => apply andb_true_iff in H; destruct H
  | H : (_ || _) = false |- _ => apply orb_false_iff in H; destruct H
  | H : negb _ = true |- _ => apply negb_true_iff in H
  | H : negb _ = false |- _ => apply negb_false_iff in H
  | H : (_ =? _)%Z = true |- _ => apply Z.eqb_eq in H
  | H : (_ =? _)%Z = false |- _ => apply Z.eqb_neq in H
  | H : (_ <? _)%Z = true |- _ => apply Z.ltb_lt in H
  | H : (_ <? _)%Z = false |- _ => apply Z.ltb_ge in H
  | H : (_ <=? _)%Z = true |- _ => apply Z.leb_le in H
  | H : (_ <=? _)%Z = false |- _ => apply Z.leb_gt in H
  | H : (_ >? _)%Z = _ |- _ => rewrite Z.gtb_ltb in H
  | H : (_ >=? _)%Z = _ |- _ => rewrite Z.geb_leb in H
  | H : bool_decide _ = true |- _ => apply bool_decide_eq_true in H
  | H : bool_decide _ = false |- _ => apply bool_decide_eq_false in H
  end.

(** Case split on every [match] and [if] of the goal, remembering the tests. *)
Ltac split_match :=
  repeat match goal with
  | |- context [match ?x with _ => _ end] =>
      lazymatch x with
      | context [match _ with _ => _ end] => fail
      | _ => destruct x eqn:?; simpl in *
      end
  end.

(** The same in the hypotheses that equate a computation with a result. *)
Ltac split_match_in H :=
  repeat match type of H with
  | context [match ?x with _ => _ end] =>
      lazymatch x with
      | context [match _ with _ => _ end] => fail
      | _ => destruct x eqn:?; simpl in *
      end
  end.

(** Evaluate the state that a concrete run has reached. *)
Ltac eval_state :=
  lazymatch goal with
  | |- rtc ?R ?x ?y => let x' := eval vm_compute in x in change (rtc R x' y)
  end.

Create HintDb goutils.

(** ** Machine integers *)

(** A 64-bit unsigned integer wraps around. *)
Definition wrap64 (z : Z) : Z := (z mod 2 ^ 64)%Z.

Lemma wrap64_small z : (0 <= z < 2 ^ 64)%Z -> wrap64 z = z.
Proof. apply Z.mod_small. Qed.

Lemma wrap64_range z : (0 <= wrap64 z < 2 ^ 64)%Z.
Proof. apply Z.mod_pos_bound. reflexivity. Qed.

(** ** Decidable equality *)

#[export] Instance byte_eq_dec : EqDecision byte := Byte.byte_eq_dec.

(** ** Strings *)

Lemma str_app_cons c (s s' : string) : (String c s +:+ s' = String c (s +:+ s'))%string.
Proof. done. Qed.

Lemma str_app_nil_r (s : string) : (s +:+ EmptyString = s)%string.
Proof. induction s as [|c s IH]; [done|]. by rewrite str_app_cons, IH. Qed.

Lemma str_app_assoc (a b c : string) : (a +:+ (b +:+ c) = (a +:+ b) +:+ c)%string.
Proof. induction a as [|x a IH]; [done|]. by rewrite !str_app_cons, IH. Qed.

(** ** Lists *)

Lemma take_drop_length_lt {A} (l : list A) n :
  l <> [] -> 0 < n -> length (drop n l) < length l.
Proof. intros ??. rewrite length_drop. destruct l; [done | simpl; lia]. Qed.

#[export] Hint Resolve take_drop_length_lt wrap64_range : goutils.

(** ** Finite maps *)

Section Maps.
Context `{Countable K} {V : Type}.
Implicit Types m : gmap K V.

(** Inserting the same value under several keys. *)
Lemma foldl_insert_lookup {X} (f : X -> K) (v : V) (l : list X) m k :
  foldl (fun m x => <[f x := v]> m) m l !! k =
  if decide (k ∈ f <$> l) then Some v else m !! k.
Proof.
  revert m. induction l as [|x l IH]; intros m; cbn [foldl fmap list_fmap].
  { case_decide as Hd; [by apply elem_of_nil in Hd | done]. }
  rewrite IH. destruct (decide (k ∈ f <$> l)) as [Hin|Hin].
  { rewrite decide_True; [done | by right]. }
  destruct (decide (k = f x)) as [->|Hne].
  - rewrite lookup_insert_eq, decide_True; [done | by left].
  - rewrite lookup_insert_ne by done. rewrite decide_False; [done|].
    by intros [?|?]%elem_of_cons.
Qed.
End Maps.

(** ** Reachability

    A component that several goroutines drive is a step relation; what holds
    in every reachable state is proved by rule induction. *)

Section Invariants.
Context {State : Type} (init : State -> Prop) (step : State -> State -> Prop).

Definition reachable (s : State) : Prop := exists s0, init s0 /\ rtc step s0 s.

Lemma rtc_invariant (P : State -> Prop) :
  (forall s s', P s -> step s s' -> P s') ->
  forall s s', rtc step s s' -> P s -> P s'.
Proof. intros Hstep s s' Hr. induction Hr; eauto. Qed.

Lemma invariant_reachable (P : State -> Prop) :
  (forall s, init s -> P s) ->
  (forall s s', P s -> step s s' -> P s') ->
  forall s, reachable s -> P s.
Proof. intros Hi Hs s (s0 & H0 & Hr). apply (rtc_invariant P Hs s0 s Hr), Hi, H0. Qed.
End Invariants.

(** Running a list of operations from left to right. *)
Fixpoint run_ops {S O : Type} (f : O -> S -> S) (ops : list O) (s : S) : S :=
  match ops with
  | [] => s
  | o :: ops' => run_ops f ops' (f o s)
  end.

Lemma run_ops_snoc {S O : Type} (f : O -> S -> S) ops o s : run_ops f (ops ++ [o]) s = f o (run_ops f ops s).
Proof. revert s. induction ops as [|o' ops IH]; intros s; [done|]. apply IH. Qed.

Lemma run_ops_invariant {S O : Type} (f : O -> S -> S) (P : S -> Prop) :
  (forall o s, P s -> P (f o s)) -> forall ops s, P s -> P (run_ops f ops s).
Proof. intros Hf ops. induction ops as [|o ops IH]; simpl; auto. Qed.
