(* ===== verification/GoError.v ===== *)
(** * Errors

    The error values that the packages compare and convert, and the functions
    that classify them: [error.go] (FilterOutError and the validation errors),
    and the helpers of the stream layer that decide what an error means
    ([checkWriteErrForStreamClose], [isContextCanceled], [ErrorToStatus],
    [isUserInitiatedAbortChunkErr]).

    go.uber.org/multierr and google.golang.org/grpc/status are not part of the
    repository: they are the classes [Multierr] and [GrpcStatus], whose laws
    are the documented behaviour that the code relies on; [SimpleErrors] gives
    a concrete instance of both. *)

From S2P Require Import Prelude.

(** ** Text *)

(** [strings.Contains(s, sub)]. *)
Fixpoint str_contains (s sub : string) : bool :=
  String.prefix sub s ||
  match s with
  | EmptyString => false
  | String _ s' => str_contains s' sub
  end.

Lemma prefix_spec sub s : String.prefix sub s = true <-> exists t, s = (sub +:+ t)%string.
Proof.
  revert s. induction sub as [|c sub IH]; intros [|d s]; simpl.
  - split; eauto.
  - split; eauto.
  - split; [done | intros [t [=]]].
  - destruct (Ascii.ascii_dec c d) as [->|Hne].
    + rewrite IH. split; intros [t Ht]; exists t; [by rewrite Ht | by injection Ht].
    + split; [done | intros [t [=]]; done].
Qed.

Lemma str_contains_spec s sub :
  str_contains s sub = true <-> exists pre post, s = (pre +:+ sub +:+ post)%string.
Proof.
  induction s as [|c s IH]; cbn [str_contains]; rewrite orb_true_iff, prefix_spec.
  - split.
    + intros [[t Ht]|?]; [by exists EmptyString, t | done].
    + intros (pre & post & E). left. destruct pre; [by exists post | done].
  - rewrite IH. split.
    + intros [[t Ht] | (pre & post & ->)]; [by exists EmptyString, t|].
      by exists (String c pre), post.
    + intros ([|d pre] & post & E); [left; by exists post|].
      right. exists pre, post. by injection E.
Qed.

(** ** Error values *)

(** Package-level error values: they are compared by identity. *)
Inductive sentinel :=
  | EOF                               (* io.EOF *)
  | ErrClosedPipe                     (* io.ErrClosedPipe *)
  | Canceled                          (* context.Canceled *)
  | DeadlineExceeded                  (* context.DeadlineExceeded *)
  | errExpectedClosure                (* rpc/wrtc_base_stream.go *)
  | errDataChannelClosed              (* rpc/wrtc_base_channel.go *)
  | errWebRTCMaxStreams               (* rpc/wrtc_client_channel.go *)
  | ErrIllegalHeaderWrite             (* rpc/wrtc_server_stream.go *)
  | errNotTLSAuthed                   (* rpc/server_auth.go *)
  | ErrSctpStreamClosed               (* sctp.ErrStreamClosed *)
  | ErrSctpChunk                      (* sctp.ErrChunk *)
  | ErrSctpResetPacketInStateNotExist (* sctp.ErrResetPacketInStateNotExist *)
  | ErrDtlsConnClosed                 (* dtls.ErrConnClosed *)
  | ErrChangeStreamInvalidateEvent.   (* mongo/change_stream.go *)

#[export] Instance sentinel_eq_dec : EqDecision sentinel.
Proof. solve_decision. Defined.

(** gRPC status codes. *)
Inductive code :=
  | OK | CodeCanceled | Unknown | InvalidArgument | CodeDeadlineExceeded
  | NotFound | AlreadyExists | PermissionDenied | ResourceExhausted
  | FailedPrecondition | Aborted | OutOfRange | Unimplemented | Internal
  | Unavailable | DataLoss | Unauthenticated.

#[export] Instance code_eq_dec : EqDecision code.
Proof. solve_decision. Defined.

(** A non-nil [error]; a Go [error] is an [option goerror], [None] for nil.
    [EJoin] is a multierr of the errors of its two sides. *)
Inductive goerror :=
  | EIs (s : sentinel)
  | ENew (msg : string)
  | EStatus (c : code) (msg : string)
  | EWrap (msg : string) (e : goerror)
  | EJoin (e1 e2 : goerror).

#[export] Instance goerror_eq_dec : EqDecision goerror.
Proof. solve_decision. Defined.

Coercion EIs : sentinel >-> goerror.

(** [errors.Is]: the error or one that it wraps is the target. *)
Fixpoint errors_Is (e target : goerror) : bool :=
  bool_decide (e = target) ||
  match e with
  | EWrap _ e' => errors_Is e' target
  | EJoin a b => errors_Is a target || errors_Is b target
  | _ => false
  end.

(** [errors.Is] on an [error] that may be nil, with a non-nil target. *)
Definition errors_Is_opt (e : option goerror) (target : goerror) : bool :=
  match e with Some e => errors_Is e target | None => false end.

Lemma errors_Is_refl e : errors_Is e e = true.
Proof. destruct e; simpl; by rewrite bool_decide_eq_true_2. Qed.

#[export] Hint Resolve errors_Is_refl : goutils.

(** ** FilterOutError over any error type *)

(** What the code uses of an error value and of go.uber.org/multierr. *)
Class Multierr (E : Type) := {
  Error : E -> string;
  Is : E -> E -> bool;
  multierr_Errors : E -> list E;
  multierr_Combine : list E -> option E;
}.

(** The documented behaviour of multierr: [Errors] of an error that is not
    composed returns just that error and never returns an empty slice, composed
    errors are flat, [Combine] of flat errors is nil for none of them, the
    error itself for one, and otherwise composed of exactly those errors. *)
Class MultierrLaws (E : Type) `{Multierr E} := {
  Errors_nonempty (e : E) : multierr_Errors e <> [];
  Errors_single (e e' : E) : multierr_Errors e = [e'] -> e' = e;
  Errors_flat (e e' : E) : e' ∈ multierr_Errors e -> multierr_Errors e' = [e'];
  Combine_nil : multierr_Combine [] = None;
  Combine_errors (es : list E) :
    es <> [] -> Forall (fun e => multierr_Errors e = [e]) es ->
    exists e, multierr_Combine es = Some e /\ multierr_Errors e = es;
}.

Section FilterOut.
Context {E : Type} `{MultierrLaws E}.

(** The errors an [error] is composed of, none for nil. *)
Definition errors_of (e : option E) : list E :=
  match e with Some e => multierr_Errors e | None => [] end.

(** The test of FilterOutError on an error that is not composed. *)
Definition matches_target (target e : E) : bool :=
  Is e target || str_contains (Error e) (Error target).
End FilterOut.

(** The loop of FilterOutError over the composed errors: keep those that the
    recursive call [rec] does not filter out. [None]: the call did not return. *)
Fixpoint filter_loop {E} (rec : E -> option (option E)) (errs : list E) : option (list E) :=
  match errs with
  | [] => Some []
  | e :: errs' =>
      match rec e with
      | None => None
      | Some None => filter_loop rec errs'
      | Some (Some _) => option_map (cons e) (filter_loop rec errs')
      end
  end.

(** [FilterOutError], with fuel for its recursion: [None] when the fuel runs
    out before the call returns. *)
Fixpoint FilterOutError {E} `{Multierr E} (fuel : nat) (err target : option E)
    : option (option E) :=
  match fuel with
  | O => None
  | S fuel' =>
      match err, target with
      | None, _ => Some None
      | Some _, None => Some err
      | Some e, Some t =>
          let errs := multierr_Errors e in
          if (Z.of_nat (length errs) =? 1)%Z then
            if Is e t || str_contains (Error e) (Error t) then Some None else Some err
          else
            match filter_loop (fun e' => FilterOutError fuel' (Some e') target) errs with
            | None => None
            | Some newErrs => Some (multierr_Combine newErrs)
            end
      end
  end.

Section FilterOutProofs.
Context {E : Type} `{MultierrLaws E}.
Implicit Types (e t : E).

Lemma Errors_length1 e : length (multierr_Errors e) = 1 -> multierr_Errors e = [e].
Proof.
  destruct (multierr_Errors e) as [|x [|]] eqn:Heq; try done. intros _.
  f_equal. by apply Errors_single.
Qed.

Lemma filter_loop_spec (p : E -> bool) (rec : E -> option (option E)) errs :
  (forall e, e ∈ errs -> exists r, rec e = Some r /\ (r = None <-> p e = true)) ->
  filter_loop rec errs = Some (filter (fun e => p e = false) errs).
Proof.
  induction errs as [|e errs IH]; intros Hrec; [done|].
  simpl. destruct (Hrec e) as (r & -> & Hr); [by left|].
  rewrite IH by (intros; apply Hrec; by right).
  rewrite filter_cons. destruct r as [e'|]; simpl.
  - rewrite decide_True; [done|]. destruct (p e); [|done]. destruct Hr as [_ Hr].
    by discriminate Hr.
  - rewrite decide_False; [done|]. by rewrite (proj1 Hr).
Qed.

(** The call on an error that is not composed. *)
Lemma FilterOutError_single fuel e t :
  multierr_Errors e = [e] ->
  FilterOutError (S fuel) (Some e) (Some t)
  = Some (if matches_target t e then None else Some e).
Proof. intros He. simpl. rewrite He. simpl. by unfold matches_target; case_match. Qed.

Lemma FilterOutError_spec fuel err t :
  2 <= fuel ->
  exists r, FilterOutError fuel (Some err) (Some t) = Some r /\
    errors_of r = filter (fun e => matches_target t e = false) (multierr_Errors err).
Proof.
  intros Hf. destruct fuel as [|fuel]; [lia|]. destruct fuel as [|fuel]; [lia|].
  destruct (decide (length (multierr_Errors err) = 1)) as [H1|H1].
  { apply Errors_length1 in H1. rewrite FilterOutError_single by done.
    eexists. split; [done|]. rewrite H1, filter_cons, filter_nil.
    destruct (matches_target t err) eqn:Hm; simpl; [done | by rewrite H1]. }
  cbn [FilterOutError]. case_match; [breflect; lia|].
  rewrite (filter_loop_spec (matches_target t)).
  2: { intros e He. pose proof (FilterOutError_single fuel e t (Errors_flat _ _ He)) as Hs.
       cbn [FilterOutError] in Hs. rewrite Hs. eexists. split; [done|].
       by destruct (matches_target t e). }
  eexists. split; [done|].
  set (l := filter _ _). destruct (decide (l = [])) as [->|Hl].
  { by rewrite Combine_nil. }
  destruct (Combine_errors l Hl) as (c & -> & Hc); [|done].
  apply Forall_forall. intros e He. subst l. apply list_elem_of_filter in He.
  eapply Errors_flat. apply He.
Qed.
End FilterOutProofs.

(** ** Classification of errors in the stream layer *)

(** A [*status.Status]: nil is [None]. *)
Abbreviation status := (option (code * string)).

Definition status_Code (s : status) : code :=
  match s with Some (c, _) => c | None => OK end.

(** [status.Err()]: nil for an OK status. *)
Definition status_Err (s : status) : option goerror :=
  match s with
  | Some (OK, _) | None => None
  | Some (c, msg) => Some (EStatus c msg)
  end.

(** What the code uses of google.golang.org/grpc/status. *)
Class GrpcStatus := {
  status_FromContextError : option goerror -> status;
  status_Convert : option goerror -> status;
  status_FromError : option goerror -> status * bool;
}.

(** Documented behaviour: a context error (possibly wrapped) converts to its
    code, nil to OK, any other error to Unknown; [FromError] and [Convert] of
    a status error give back that status. *)
Class GrpcStatusLaws `{GrpcStatus} := {
  FromContextError_nil : status_Code (status_FromContextError None) = OK;
  FromContextError_deadline e :
    errors_Is e DeadlineExceeded = true ->
    status_Code (status_FromContextError (Some e)) = CodeDeadlineExceeded;
  FromContextError_canceled e :
    errors_Is e DeadlineExceeded = false -> errors_Is e Canceled = true ->
    status_Code (status_FromContextError (Some e)) = CodeCanceled;
  FromContextError_other e :
    errors_Is e DeadlineExceeded = false -> errors_Is e Canceled = false ->
    status_Code (status_FromContextError (Some e)) = Unknown;
  Convert_status c m : c <> OK -> status_Convert (Some (EStatus c m)) = Some (c, m);
  FromError_status c m : c <> OK -> status_FromError (Some (EStatus c m)) = (Some (c, m), true);
}.

(** [ErrorToStatus]. *)
Definition ErrorToStatus `{GrpcStatus} (err : option goerror) : status :=
  let respStatus := status_FromContextError err in
  if bool_decide (status_Code respStatus = Unknown) then
    match status_Convert err with
    | None => Some (OK, EmptyString)
    | Some s => Some s
    end
  else respStatus.

(** [checkWriteErrForStreamClose]. *)
Definition checkWriteErrForStreamClose (err : option goerror) : option goerror :=
  match err with
  | None => None
  | Some e => if errors_Is e ErrClosedPipe then None else Some e
  end.

(** Fuel for [FilterOutError] on composed errors, which are flat. *)
Definition filter_fuel : nat := 2.

(** [isContextCanceled]. *)
Definition isContextCanceled `{Multierr goerror, GrpcStatus} (err : option goerror) : bool :=
  match err with
  | None => false
  | Some _ =>
      match FilterOutError filter_fuel err (Some (EIs Canceled)) with
      | Some None => true
      | _ =>
          let '(gStatus, isGRPCErr) := status_FromError err in
          isGRPCErr && bool_decide (status_Code gStatus = CodeCanceled)
      end
  end.

(** [isUserInitiatedAbortChunkErr]. *)
Definition isUserInitiatedAbortChunkErr `{Multierr goerror} (err : option goerror) : bool :=
  match err with
  | None => false
  | Some e =>
      errors_Is e ErrSctpChunk &&
      str_contains (Error e) "User Initiated Abort: Close called"
  end.

(** [NewConfigValidationError] and [NewConfigValidationFieldRequiredError];
    [quote] is the [%q] verb of fmt. *)
Definition NewConfigValidationError (quote : string -> string) (path : string) (err : goerror)
    : goerror :=
  EWrap ("error validating " +:+ quote path)%string err.

Definition NewConfigValidationFieldRequiredError (quote : string -> string) (path field : string)
    : goerror :=
  NewConfigValidationError quote path (ENew (quote field +:+ " is required")%string).

(** ** A concrete instance *)

(** The representation [goerror] itself, with the texts of the errors. *)
Module SimpleErrors.
Definition sentinel_text (s : sentinel) : string :=
  match s with
  | EOF => "EOF"
  | ErrClosedPipe => "io: read/write on closed pipe"
  | Canceled => "context canceled"
  | DeadlineExceeded => "context deadline exceeded"
  | errExpectedClosure => "internal: closed via normal flow of operations"
  | errDataChannelClosed => "data channel closed"
  | errWebRTCMaxStreams => "stream limit hit"
  | ErrIllegalHeaderWrite =>
      "transport: the stream is done or WriteHeader was already called"
  | errNotTLSAuthed => "not authenticated via TLS"
  | ErrSctpStreamClosed => "stream closed"
  | ErrSctpChunk => "abort chunk"
  | ErrSctpResetPacketInStateNotExist => "reset packet in state not exist"
  | ErrDtlsConnClosed => "conn is closed"
  | ErrChangeStreamInvalidateEvent => "change stream invalidated"
  end.

Fixpoint text (e : goerror) : string :=
  match e with
  | EIs s => sentinel_text s
  | ENew m => m
  | EStatus _ m => "rpc error: desc = " +:+ m
  | EWrap m e => m +:+ ": " +:+ text e
  | EJoin a b => text a +:+ "; " +:+ text b
  end.

Fixpoint flatten (e : goerror) : list goerror :=
  match e with
  | EJoin a b => flatten a ++ flatten b
  | _ => [e]
  end.

Fixpoint combine (es : list goerror) : option goerror :=
  match es with
  | [] => None
  | e :: es' =>
      match combine es' with
      | None => Some e
      | Some r => Some (EJoin e r)
      end
  end.

#[export] Instance simple_multierr : Multierr goerror := {|
  Error := text;
  Is := errors_Is;
  multierr_Errors := flatten;
  multierr_Combine := combine;
|}.

Lemma flatten_nonempty e : flatten e <> [].
Proof. induction e; simpl; try done. by destruct (flatten e1). Qed.

#[export] Instance simple_multierr_laws : MultierrLaws goerror.
Proof.
  constructor; simpl.
  - apply flatten_nonempty.
  - intros e e'. destruct e as [| | | |a b]; simpl; try congruence.
    pose proof (flatten_nonempty a). pose proof (flatten_nonempty b).
    destruct (flatten a) as [|? [|]], (flatten b); done.
  - intros e e'. induction e as [| | | |a IHa b IHb]; simpl;
      try (intros ->%list_elem_of_singleton; done).
    intros [?|?]%elem_of_app; auto.
  - done.
  - intros es. induction es as [|e es IH]; [done|]. intros _ Hf. simpl.
    apply Forall_cons in Hf as [He Hf]. destruct es as [|e2 es].
    { exists e. done. }
    destruct IH as (r & Hc & Hr); [done | done |].
    exists (EJoin e r). simpl in Hc |- *. rewrite Hc. simpl. by rewrite He, Hr.
Qed.

Definition from_context_error (e : option goerror) : status :=
  match e with
  | None => None
  | Some e =>
      if errors_Is e DeadlineExceeded then Some (CodeDeadlineExceeded, text e)
      else if errors_Is e Canceled then Some (CodeCanceled, text e)
      else Some (Unknown, text e)
  end.

Definition from_error (e : option goerror) : status * bool :=
  match e with
  | None => (None, true)
  | Some (EStatus c m) => (Some (c, m), true)
  | Some e => (Some (Unknown, text e), false)
  end.

#[export] Instance simple_status : GrpcStatus := {|
  status_FromContextError := from_context_error;
  status_Convert := fun e => fst (from_error e);
  status_FromError := from_error;
|}.

#[export] Instance simple_status_laws : GrpcStatusLaws.
Proof. constructor; simpl; intros; repeat case_match; congruence || done. Qed.
End SimpleErrors.

(** ** Properties *)

(** FilterOutError returns on every error, and what it returns is composed of
    exactly the errors of its argument that neither are the target nor have the
    target's text in their text. *)
Theorem FilterOutError_keeps_exactly_the_others
    {E} `{MultierrLaws E} (err target : E) :
  exists r, FilterOutError filter_fuel (Some err) (Some target) = Some r /\
    errors_of r = filter (fun e => matches_target target e = false) (multierr_Errors err).
Proof. apply FilterOutError_spec. unfold filter_fuel. lia. Qed.

Section W_FilterOutError_keeps_exactly_the_others_witness.
Import SimpleErrors.
Lemma FilterOutError_keeps_exactly_the_others_witness :
  exists r, FilterOutError filter_fuel
      (Some (EJoin (EIs EOF) (EJoin (EWrap "recv" (EIs Canceled)) (ENew "boom"))))
      (Some (EIs Canceled)) = Some r /\
    errors_of r = [EIs EOF; ENew "boom"].
Proof.
  exact (FilterOutError_keeps_exactly_the_others
    (EJoin (EIs EOF) (EJoin (EWrap "recv" (EIs Canceled)) (ENew "boom"))) (EIs Canceled)).
Defined.
End W_FilterOutError_keeps_exactly_the_others_witness.

Lemma ErrorToStatus_nil `{GrpcStatusLaws} : status_Err (ErrorToStatus None) = None.
Proof.
  unfold ErrorToStatus. case_bool_decide as Hu.
  - pose proof FromContextError_nil. congruence.
  - pose proof FromContextError_nil as H1.
    destruct (status_FromContextError None) as [[c m]|]; simpl in *; [|done].
    by rewrite H1.
Qed.

Lemma ErrorToStatus_status `{GrpcStatusLaws} c m :
  c <> OK -> ErrorToStatus (Some (EStatus c m)) = Some (c, m).
Proof.
  intros Hc. unfold ErrorToStatus.
  rewrite FromContextError_other by done.
  case_bool_decide; [|done]. by rewrite Convert_status.
Qed.
