(* ===== verification/GoStrings.v ===== *)
(** * Go's strings and strconv

    What the packages use of the standard library's [strings] and [strconv]:
    cutting and splitting at a character, prefixes and suffixes, reading and
    writing integers and booleans. Integers have a width: what does not fit is
    an error of reading. *)

From S2P Require Import Prelude GoError.
From Stdlib Require Import Ascii.
Open Scope Z_scope.

(** ** Cutting *)

(** [strings.Split(s, c)] for a separator of one character. *)
Fixpoint split_char (c : ascii) (s : string) : list string :=
  match s with
  | EmptyString => [EmptyString]
  | String d s' =>
      if Ascii.eqb d c then EmptyString :: split_char c s'
      else match split_char c s' with
           | [] => [String d EmptyString]
           | part :: parts => String d part :: parts
           end
  end.

(** [strings.SplitN(s, c, 2)]: the first part, and what follows the first
    separator if there is one. *)
Fixpoint split2 (c : ascii) (s : string) : string * option string :=
  match s with
  | EmptyString => (EmptyString, None)
  | String d s' =>
      if Ascii.eqb d c then (EmptyString, Some s')
      else let '(a, b) := split2 c s' in (String d a, b)
  end.

Fixpoint str_mem (c : ascii) (s : string) : bool :=
  match s with EmptyString => false | String d s' => Ascii.eqb d c || str_mem c s' end.

(** [strings.TrimPrefix] and [strings.TrimSuffix]. *)
Fixpoint drop_str (n : nat) (s : string) : string :=
  match n, s with S n', String _ s' => drop_str n' s' | _, _ => s end.
Definition trim_prefix (p s : string) : string := if String.prefix p s then drop_str (String.length p) s else s.
Fixpoint rev_str (s : string) (acc : string) : string :=
  match s with EmptyString => acc | String c s' => rev_str s' (String c acc) end.
Definition trim_suffix (p s : string) : string :=
  rev_str (trim_prefix (rev_str p EmptyString) (rev_str s EmptyString)) EmptyString.

Lemma split_char_ne c s : split_char c s <> [].
Proof. destruct s as [|d s]; simpl; [done|]. destruct (Ascii.eqb d c); [done|]. by destruct (split_char c s). Qed.

Lemma split_char_none c s : str_mem c s = false -> split_char c s = [s].
Proof.
  induction s as [|d s IH]; simpl; [done|]. intros [Hd Hs]%orb_false_iff. by rewrite Hd, IH.
Qed.

Lemma split_char_app c s t :
  str_mem c s = false -> split_char c (s +:+ String c t)%string = s :: split_char c t.
Proof.
  induction s as [|d s IH]; simpl; [by rewrite Ascii.eqb_refl|].
  intros [Hd Hs]%orb_false_iff. by rewrite Hd, (IH Hs).
Qed.

Lemma split2_none c s : str_mem c s = false -> split2 c s = (s, None).
Proof. induction s as [|d s IH]; simpl; [done|]. intros [Hd Hs]%orb_false_iff. by rewrite Hd, IH. Qed.

Lemma split2_app c s t : str_mem c s = false -> split2 c (s +:+ String c t)%string = (s, Some t).
Proof.
  induction s as [|d s IH]; simpl; [by rewrite Ascii.eqb_refl|].
  intros [Hd Hs]%orb_false_iff. by rewrite Hd, (IH Hs).
Qed.

Lemma str_mem_app c s t : str_mem c (s +:+ t)%string = str_mem c s || str_mem c t.
Proof. induction s as [|d s IH]; [done|]. rewrite str_app_cons. simpl. by rewrite IH, orb_assoc. Qed.

(** ** Integers and booleans *)

Inductive numError := ErrSyntax | ErrRange.

Definition code_of (c : ascii) : Z := Z.of_nat (nat_of_ascii c).
Definition between (lo hi : ascii) (c : ascii) : bool := (code_of lo <=? code_of c) && (code_of c <=? code_of hi).
Definition lower (c : ascii) : ascii := if between "A" "Z" c then ascii_of_nat (nat_of_ascii c + 32) else c.

(** The value of a digit in the bases up to 36. *)
Definition digit_val (c : ascii) : option Z :=
  if between "0" "9" c then Some (code_of c - 48)
  else if between "a" "z" (lower c) then Some (code_of (lower c) - 87)
  else None.

(** The loop of [strconv.ParseUint]; with [base0] underscores are skipped. *)
Fixpoint parse_digits (base0 : bool) (base maxVal : Z) (s : string) (n : Z) : Z + numError :=
  match s with
  | EmptyString => inl n
  | String c s' =>
      if base0 && Ascii.eqb c "_" then parse_digits base0 base maxVal s' n
      else match digit_val c with
           | None => inr ErrSyntax
           | Some d =>
               if base <=? d then inr ErrSyntax
               else if maxVal <? n * base + d then inr ErrRange
               else parse_digits base0 base maxVal s' (n * base + d)
           end
  end.

(** [underscoreOK]: underscores separate digits; a base prefix counts as one. *)
Inductive lastSeen := SeenStart | SeenDigit | SeenUnderscore | SeenOther.
Fixpoint underscore_loop (hex : bool) (i : lastSeen) (s : string) : bool :=
  match s with
  | EmptyString => match i with SeenUnderscore => false | _ => true end
  | String c s' =>
      if between "0" "9" c || (hex && between "a" "f" (lower c)) then underscore_loop hex SeenDigit s'
      else if Ascii.eqb c "_" then
        match i with SeenDigit => underscore_loop hex SeenUnderscore s' | _ => false end
      else match i with SeenUnderscore => false | _ => underscore_loop hex SeenOther s' end
  end.
Definition underscoreOK (s : string) : bool :=
  let s := match s with
           | String c s' => if Ascii.eqb c "-" || Ascii.eqb c "+" then s' else s
           | _ => s
           end in
  match s with
  | String "0" (String c s') =>
      if Ascii.eqb (lower c) "b" || Ascii.eqb (lower c) "o" || Ascii.eqb (lower c) "x"
      then underscore_loop (Ascii.eqb (lower c) "x") SeenDigit s'
      else underscore_loop false SeenStart s
  | _ => underscore_loop false SeenStart s
  end.

(** The base that a prefix of the text stands for, and the text without it. *)
Definition base_of (s : string) : Z * string :=
  match s with
  | String "0" s' =>
      match s' with
      | String c (String d r) =>
          if Ascii.eqb (lower c) "b" then (2, String d r)
          else if Ascii.eqb (lower c) "o" then (8, String d r)
          else if Ascii.eqb (lower c) "x" then (16, String d r)
          else (8, s')
      | _ => (8, s')
      end
  | _ => (10, s)
  end.

(** [strconv.ParseUint(s, base, bits)]. *)
Definition ParseUint (base bits : Z) (s : string) : Z + numError :=
  match s with
  | EmptyString => inr ErrSyntax
  | _ =>
      let base0 := base =? 0 in
      let '(b, digits) := if base0 then base_of s else (base, s) in
      match parse_digits base0 b (2 ^ bits - 1) digits 0 with
      | inr err => inr err
      | inl n => if base0 && str_mem "_" digits && negb (underscoreOK s) then inr ErrSyntax else inl n
      end
  end.

(** [strconv.ParseInt(s, base, bits)]. *)
Definition ParseInt (base bits : Z) (s : string) : Z + numError :=
  match s with
  | EmptyString => inr ErrSyntax
  | String c s' =>
      let '(neg, s) := if Ascii.eqb c "+" then (false, s') else if Ascii.eqb c "-" then (true, s') else (false, s) in
      let cutoff := 2 ^ (bits - 1) in
      match ParseUint base bits s with
      | inr err => inr err
      | inl un =>
          if negb neg && (cutoff <=? un) then inr ErrRange
          else if neg && (cutoff <? un) then inr ErrRange
          else inl (if neg then - un else un)
      end
  end.

(** [strconv.ParseBool]. *)
Definition ParseBool (s : string) : bool + numError :=
  if bool_decide (s ∈ ["1"; "t"; "T"; "true"; "TRUE"; "True"]%string) then inl true
  else if bool_decide (s ∈ ["0"; "f"; "F"; "false"; "FALSE"; "False"]%string) then inl false
  else inr ErrSyntax.
Definition FormatBool (b : bool) : string := if b then "true" else "false".

(** [strconv.FormatUint(n, 10)] and [strconv.FormatInt(n, 10)]: the digits from
    the last to the first; a number below 2^64 has at most twenty. *)
Definition digit_char (d : Z) : ascii := ascii_of_nat (48 + Z.to_nat d).
Fixpoint format_digits (fuel : nat) (n : Z) (acc : string) : string :=
  match fuel with
  | O => acc
  | S f => if n <? 10 then String (digit_char n) acc
           else format_digits f (n / 10) (String (digit_char (n mod 10)) acc)
  end.
Definition format_fuel : nat := 20.
Definition FormatUint (n : Z) : string := format_digits format_fuel n EmptyString.
Definition FormatInt (n : Z) : string := if n <? 0 then String "-" (FormatUint (- n)) else FormatUint n.

(** ** What is written is read back *)

Lemma digit_char_spec d : 0 <= d < 10 ->
  digit_val (digit_char d) = Some d /\ digit_char d <> "_"%char /\ digit_char d <> "+"%char /\ digit_char d <> "-"%char.
Proof.
  intros Hd. assert (d = 0 \/ d = 1 \/ d = 2 \/ d = 3 \/ d = 4 \/ d = 5 \/ d = 6 \/ d = 7 \/ d = 8 \/ d = 9) as H by lia.
  destruct_or! H; subst d; by vm_compute.
Qed.

(** Reading the digits of [n] after those of [k] gives the digits of both. *)
Lemma parse_format_digits fuel : forall n k acc maxVal,
  0 <= n < 10 ^ Z.of_nat fuel -> 0 <= k ->
  exists w, 10 ^ w > n /\ 0 <= w /\ (k * 10 ^ w + n <= maxVal ->
    parse_digits false 10 maxVal (format_digits fuel n acc) k = parse_digits false 10 maxVal acc (k * 10 ^ w + n)).
Proof.
  induction fuel as [|f IH]; intros n k acc maxVal Hn Hk.
  { cbn in Hn. exists 0. split_and!; [lia|lia|]. intros _. simpl. do 2 f_equal; lia. }
  cbn [format_digits]. destruct (Z.ltb_spec n 10) as [Hlt|Hge].
  - exists 1. split_and!; [lia|lia|]. intros Hmax. cbn [parse_digits andb].
    destruct (digit_char_spec n) as (-> & _); [lia|].
    rewrite (proj2 (Z.leb_gt _ _)) by lia. rewrite (proj2 (Z.ltb_ge _ _)) by lia. f_equal; lia.
  - pose proof (Z.mod_pos_bound n 10). pose proof (Z.div_mod n 10).
    destruct (IH (n / 10) k (String (digit_char (n mod 10)) acc) maxVal) as (w & Hw & Hw0 & Hp); [|done|].
    { split; [apply Z.div_pos; lia|]. apply Z.div_lt_upper_bound; [lia|].
      replace (10 * 10 ^ Z.of_nat f) with (10 ^ Z.of_nat (S f)); [lia|].
      rewrite Nat2Z.inj_succ, Z.pow_succ_r by lia. done. }
    exists (w + 1). rewrite Z.pow_add_r by lia. change (10 ^ 1) with 10.
    split_and!; [lia|lia|]. intros Hmax. rewrite Hp by nia. cbn [parse_digits andb].
    destruct (digit_char_spec (n mod 10)) as (-> & _); [lia|].
    rewrite (proj2 (Z.leb_gt _ _)) by lia. rewrite (proj2 (Z.ltb_ge _ _)) by nia. f_equal; lia.
Qed.

Lemma FormatUint_ne n : exists c s, FormatUint n = String c s.
Proof.
  unfold FormatUint, format_fuel. cbn [format_digits].
  assert (forall fuel m c acc, exists d s, format_digits fuel m (String c acc) = String d s) as H.
  { induction fuel as [|f IH]; intros m c acc; cbn [format_digits]; [eauto|].
    destruct (m <? 10); eauto. }
  destruct (n <? 10); [eauto|]. apply (H 19%nat).
Qed.

(** The characters that are written are digits. *)
Fixpoint all_chars (p : ascii -> bool) (s : string) : bool :=
  match s with EmptyString => true | String c s' => p c && all_chars p s' end.

Lemma format_digits_chars fuel n acc p :
  0 <= n -> (forall d, 0 <= d < 10 -> p (digit_char d) = true) -> all_chars p acc = true ->
  all_chars p (format_digits fuel n acc) = true.
Proof.
  intros Hn Hp. revert n acc Hn. induction fuel as [|f IH]; intros n acc Hn Ha; cbn [format_digits]; [done|].
  destruct (Z.ltb_spec n 10); [cbn [all_chars]; rewrite Hp by lia; done|].
  apply IH; [apply Z.div_pos; lia|]. cbn [all_chars]. rewrite Hp by (apply Z.mod_pos_bound; lia). done.
Qed.

Lemma FormatUint_chars n p :
  0 <= n -> (forall d, 0 <= d < 10 -> p (digit_char d) = true) -> all_chars p (FormatUint n) = true.
Proof. intros. by apply format_digits_chars. Qed.

Lemma all_chars_mem c p s : p c = false -> all_chars p s = true -> str_mem c s = false.
Proof.
  intros Hc. induction s as [|d s IH]; simpl; [done|]. intros [Hd Hs]%andb_true_iff.
  rewrite (IH Hs), orb_false_r. destruct (Ascii.eqb_spec d c) as [->|]; [congruence|done].
Qed.

Lemma ParseUint_FormatUint bits n : 0 <= n < 2 ^ bits -> bits <= 64 -> ParseUint 10 bits (FormatUint n) = inl n.
Proof.
  intros Hn Hb. destruct (FormatUint_ne n) as (c & s & Hs). unfold ParseUint. rewrite Hs.
  change (10 =? 0) with false. cbn [andb]. cbv iota beta.
  assert (2 ^ bits <= 2 ^ 64) by (apply Z.pow_le_mono_r; lia).
  destruct (parse_format_digits format_fuel n 0 EmptyString (2 ^ bits - 1)) as (w & Hw & Hw0 & Hp); [|lia|].
  { unfold format_fuel. split; [lia|]. change (10 ^ Z.of_nat 20) with 100000000000000000000.
    change (2 ^ 64) with 18446744073709551616 in *. lia. }
  unfold FormatUint in Hs. rewrite Hs in Hp. rewrite Hp by lia. simpl. f_equal; lia.
Qed.

Lemma ParseInt_FormatInt bits n : 1 <= bits <= 64 -> - 2 ^ (bits - 1) <= n < 2 ^ (bits - 1) -> ParseInt 10 bits (FormatInt n) = inl n.
Proof.
  intros Hb Hn. assert (2 ^ bits = 2 * 2 ^ (bits - 1)) as Hpow.
  { rewrite <-(Z.pow_succ_r 2) by lia. f_equal; lia. }
  unfold FormatInt. destruct (Z.ltb_spec n 0).
  - cbn [ParseInt]. change (Ascii.eqb "-" "+") with false. change (Ascii.eqb "-" "-") with true. cbv iota beta.
    rewrite ParseUint_FormatUint by lia. cbn [negb andb]. rewrite (proj2 (Z.ltb_ge _ _)) by lia. f_equal; lia.
  - destruct (FormatUint_ne n) as (c & s & Hs).
    assert (all_chars (fun c => negb (Ascii.eqb c "+") && negb (Ascii.eqb c "-")) (FormatUint n) = true) as Hc.
    { apply FormatUint_chars; [lia|]. intros d Hd. destruct (digit_char_spec d Hd) as (_ & _ & H1 & H2).
      by rewrite (proj2 (Ascii.eqb_neq _ _) H1), (proj2 (Ascii.eqb_neq _ _) H2). }
    pose proof (ParseUint_FormatUint bits n) as Hp. rewrite Hs in *. cbn [all_chars] in Hc.
    apply andb_true_iff in Hc as [[Hc1 Hc2]%andb_true_iff _]. apply negb_true_iff in Hc1, Hc2.
    unfold ParseInt. rewrite Hc1, Hc2, Hp by lia. cbn [negb andb].
    rewrite (proj2 (Z.leb_gt _ _)) by lia. done.
Qed.

Lemma ParseBool_FormatBool b : ParseBool (FormatBool b) = inl b.
Proof. by destruct b. Qed.

(** Reading never leaves the width. *)
Lemma parse_digits_range base0 base maxVal s n m :
  0 <= base -> 0 <= n <= maxVal -> parse_digits base0 base maxVal s n = inl m -> 0 <= m <= maxVal.
Proof.
  intros Hb. revert n. induction s as [|c s IH]; intros n Hn; cbn [parse_digits]; [by intros [= <-]|].
  destruct (base0 && _); [by apply IH|]. destruct (digit_val c) as [d|] eqn:Hd; [|done].
  destruct (base <=? d) eqn:Hbd; [done|]. destruct (maxVal <? n * base + d) eqn:Hmax; [done|].
  breflect. apply IH. assert (0 <= d); [|nia]. unfold digit_val, between in Hd.
  change (code_of "0") with 48 in Hd. change (code_of "9") with 57 in Hd.
  change (code_of "a") with 97 in Hd. change (code_of "z") with 122 in Hd.
  split_match_in Hd; try discriminate; injection Hd as <-; breflect; lia.
Qed.

Lemma ParseUint_range base bits s n : 0 <= base -> 0 <= bits -> ParseUint base bits s = inl n -> 0 <= n < 2 ^ bits.
Proof.
  intros Hb Hbits. unfold ParseUint. destruct s as [|c s]; [done|].
  destruct (if base =? 0 then base_of (String c s) else (base, String c s)) as [b digits] eqn:E.
  assert (0 <= b).
  { destruct (base =? 0); [|by injection E as <- _]. unfold base_of in E. split_match_in E; injection E as <- _; lia. }
  destruct (parse_digits _ _ _ _ _) as [m|] eqn:Hp; [|done].
  assert (0 < 2 ^ bits) by (apply Z.pow_pos_nonneg; lia).
  apply parse_digits_range in Hp; [|lia..]. destruct (_ && negb _); [done|]. intros [= <-]. lia.
Qed.

Lemma ParseInt_range base bits s n :
  0 <= base -> 1 <= bits -> ParseInt base bits s = inl n -> - 2 ^ (bits - 1) <= n < 2 ^ (bits - 1).
Proof.
  intros Hb Hbits. unfold ParseInt. destruct s as [|c s]; [done|].
  destruct (if Ascii.eqb c "+" then _ else _) as [neg t] eqn:E.
  destruct (ParseUint base bits t) as [un|] eqn:Hp; [|done]. apply ParseUint_range in Hp; [|done|lia].
  assert (0 < 2 ^ (bits - 1)) by (apply Z.pow_pos_nonneg; lia).
  destruct neg; cbn [negb andb].
  - destruct (Z.ltb_spec (2 ^ (bits - 1)) un); [done|]. intros [= <-]. lia.
  - destruct (Z.leb_spec (2 ^ (bits - 1)) un); [done|]. intros [= <-]. lia.
Qed.
