(* ===== verification/GoRun.v ===== *)
(** * Go functions that change state, fail or panic

    A call ends with a result, with an error, or with a panic, and has changed
    the state in each case: errors do not undo anything. [triple] says what holds
    before and after a call that does not panic; its rules are those of a Hoare
    logic. *)

From S2P Require Import Prelude.

Inductive ended (E A : Type) := Ret (a : A) | Err (e : E) | Panicking.
Arguments Ret {E A} a.
Arguments Err {E A} e.
Arguments Panicking {E A}.

Definition prog (S E A : Type) : Type := S -> S * ended E A.

Section Prog.
Context {S E : Type}.

#[export] Instance prog_ret : MRet (prog S E) := fun A a s => (s, Ret a).
#[export] Instance prog_bind : MBind (prog S E) := fun A B k m s =>
  match m s with
  | (s', Ret a) => k a s'
  | (s', Err e) => (s', Err e)
  | (s', Panicking) => (s', Panicking)
  end.
Definition fails {A} (e : E) : prog S E A := fun s => (s, Err e).
Definition panics {A} : prog S E A := fun s => (s, Panicking).
Definition get : prog S E S := fun s => (s, Ret s).
Definition modify (f : S -> S) : prog S E unit := fun s => (f s, Ret tt).
Definition ok_or {A} (r : A + E) : prog S E A := match r with inl a => mret a | inr e => fails e end.

(** A loop over a slice that stops at an error. *)
Fixpoint for_each {X} (f : X -> prog S E unit) (xs : list X) : prog S E unit :=
  match xs with
  | [] => mret tt
  | x :: xs' => _ ← f x; for_each f xs'
  end.

(** The call does not panic; it ends in [Q] with a result and in [R] with an
    error. *)
Definition triple {A} (P : S -> Prop) (m : prog S E A) (Q : A -> S -> Prop) (R : E -> S -> Prop) : Prop :=
  forall s, P s -> match m s with
                   | (s', Ret a) => Q a s'
                   | (s', Err e) => R e s'
                   | (_, Panicking) => False
                   end.

Lemma triple_ret {A} (a : A) (Q : A -> S -> Prop) R : triple (Q a) (mret a) Q R.
Proof. intros s Hs. exact Hs. Qed.
Lemma triple_fails {A} e (Q : A -> S -> Prop) (R : E -> S -> Prop) : triple (R e) (fails e) Q R.
Proof. intros s Hs. exact Hs. Qed.
Lemma triple_modify f (Q : unit -> S -> Prop) R : triple (fun s => Q tt (f s)) (modify f) Q R.
Proof. intros s Hs. exact Hs. Qed.
Lemma triple_bind {A B} P (m : prog S E A) M (k : A -> prog S E B) Q R :
  triple P m M R -> (forall a, triple (M a) (k a) Q R) -> triple P (m ≫= k) Q R.
Proof.
  intros Hm Hk s Hs. specialize (Hm s Hs). unfold mbind, prog_bind.
  destruct (m s) as [s' [a|e|]]; [apply (Hk a s' Hm)|exact Hm|exact Hm].
Qed.
Lemma triple_weaken {A} (P P' : S -> Prop) (m : prog S E A) (Q Q' : A -> S -> Prop) (R R' : E -> S -> Prop) :
  triple P m Q R -> (forall s, P' s -> P s) -> (forall a s, Q a s -> Q' a s) -> (forall e s, R e s -> R' e s) ->
  triple P' m Q' R'.
Proof.
  intros Hm HP HQ HR s Hs. specialize (Hm s (HP s Hs)). destruct (m s) as [s' [a|e|]]; [by apply HQ|by apply HR|done].
Qed.
Lemma triple_ok_or {A} (r : A + E) (Q : A -> S -> Prop) (R : E -> S -> Prop) :
  triple (fun s => match r with inl a => Q a s | inr e => R e s end) (ok_or r) Q R.
Proof. intros s Hs. destruct r; exact Hs. Qed.

(** A loop keeps what each round keeps. *)
Lemma triple_for_each {X} (I : S -> Prop) (f : X -> prog S E unit) R xs :
  (forall x, x ∈ xs -> triple I (f x) (fun _ => I) R) -> triple I (for_each f xs) (fun _ => I) R.
Proof.
  induction xs as [|x xs IH]; intros Hf; [exact (triple_ret tt (fun _ => I) R)|]. cbn [for_each].
  apply (triple_bind _ _ (fun _ => I)); [apply Hf; by left|]. intros _. apply IH. intros y Hy. apply Hf. by right.
Qed.

(** What a call that returned has done. *)
Lemma bind_returned {A B} (m : prog S E A) (k : A -> prog S E B) s s' b :
  (m ≫= k) s = (s', Ret b) -> exists s1 a, m s = (s1, Ret a) /\ k a s1 = (s', Ret b).
Proof.
  unfold mbind, prog_bind. destruct (m s) as [s1 [a|e|]] eqn:Hm; intros H; [|done..]. by exists s1, a.
Qed.
Lemma ok_or_returned {A} (r : A + E) s s' a : ok_or r s = (s', Ret a) -> r = inl a /\ s' = s.
Proof. destruct r; [intros [= -> ->]; done|done]. Qed.
Lemma for_each_app {X} (f : X -> prog S E unit) xs ys s s1 :
  for_each f xs s = (s1, Ret tt) -> for_each f (xs ++ ys) s = for_each f ys s1.
Proof.
  revert s. induction xs as [|x xs IH]; intros s; cbn [for_each app].
  - by intros [= ->].
  - intros (s2 & [] & H1 & H2)%bind_returned. unfold mbind, prog_bind. rewrite H1. by apply IH.
Qed.
End Prog.

#[export] Hint Resolve triple_ret triple_fails : goutils.
