(* ===== verification/BaseStream.v ===== *)
(** * The base stream of the WebRTC transport: [rpc/wrtc_base_stream.go]

    One direction-agnostic half of a gRPC stream over a data channel: the
    bounded message channel between the data channel's reader and [RecvMsg],
    the reassembly of packets into messages, the closing protocol, and the
    conversion of metadata. The record keeps the fields of [webrtcBaseStream];
    the channel [msgCh] is its buffer and whether it is closed. *)

From S2P Require Import Prelude GoError.
Local Open Scope go_scope.

(** ** State *)

Record baseStream := mkBaseStream {
  bs_ctxErr : option goerror;   (* s.ctx.Err() *)
  bs_id : Z;                    (* s.stream.Id *)
  bs_msgs : list bytes;         (* what is buffered in s.msgCh *)
  bs_msgChClosed : bool;        (* s.msgCh was closed *)
  bs_err : option goerror;      (* s.err *)
  bs_recvClosed : bool;
  bs_closed : bool;
  bs_packetBuf : bytes;
  bs_activeSenders : nat;       (* the wait group's counter *)
  bs_done : list Z;             (* calls of s.onDone, oldest first *)
}.

#[export] Instance baseStream_eq_dec : EqDecision baseStream.
Proof. solve_decision. Defined.

Definition set_ctxErr v s := mkBaseStream v (bs_id s) (bs_msgs s) (bs_msgChClosed s) (bs_err s)
  (bs_recvClosed s) (bs_closed s) (bs_packetBuf s) (bs_activeSenders s) (bs_done s).
Definition set_msgs v s := mkBaseStream (bs_ctxErr s) (bs_id s) v (bs_msgChClosed s) (bs_err s)
  (bs_recvClosed s) (bs_closed s) (bs_packetBuf s) (bs_activeSenders s) (bs_done s).
Definition set_msgChClosed v s := mkBaseStream (bs_ctxErr s) (bs_id s) (bs_msgs s) v (bs_err s)
  (bs_recvClosed s) (bs_closed s) (bs_packetBuf s) (bs_activeSenders s) (bs_done s).
Definition set_err v s := mkBaseStream (bs_ctxErr s) (bs_id s) (bs_msgs s) (bs_msgChClosed s) v
  (bs_recvClosed s) (bs_closed s) (bs_packetBuf s) (bs_activeSenders s) (bs_done s).
Definition set_recvClosed v s := mkBaseStream (bs_ctxErr s) (bs_id s) (bs_msgs s)
  (bs_msgChClosed s) (bs_err s) v (bs_closed s) (bs_packetBuf s) (bs_activeSenders s) (bs_done s).
Definition set_closed v s := mkBaseStream (bs_ctxErr s) (bs_id s) (bs_msgs s) (bs_msgChClosed s)
  (bs_err s) (bs_recvClosed s) v (bs_packetBuf s) (bs_activeSenders s) (bs_done s).
Definition set_packetBuf v s := mkBaseStream (bs_ctxErr s) (bs_id s) (bs_msgs s)
  (bs_msgChClosed s) (bs_err s) (bs_recvClosed s) (bs_closed s) v (bs_activeSenders s) (bs_done s).
Definition set_activeSenders v s := mkBaseStream (bs_ctxErr s) (bs_id s) (bs_msgs s)
  (bs_msgChClosed s) (bs_err s) (bs_recvClosed s) (bs_closed s) (bs_packetBuf s) v (bs_done s).
Definition set_done v s := mkBaseStream (bs_ctxErr s) (bs_id s) (bs_msgs s) (bs_msgChClosed s)
  (bs_err s) (bs_recvClosed s) (bs_closed s) (bs_packetBuf s) (bs_activeSenders s) v.

(** [newWebRTCBaseStream]; the channel has room for one message. *)
Definition newWebRTCBaseStream (ctxErr : option goerror) (id : Z) : baseStream :=
  mkBaseStream ctxErr id [] false None false false [] 0 [].

Definition msgCh_cap : nat := 1.

(** Where a call of the stream ends up: it returns, it blocks in a state, or
    the Go runtime panics. *)
Inductive outcome (A : Type) :=
  | Returns (a : A)
  | Blocks (a : A)
  | Panics.
Arguments Returns {A} a.
Arguments Blocks {A} a.
Arguments Panics {A}.

Definition outcome_bind {A B} (o : outcome A) (blocked : A -> B) (k : A -> outcome B) : outcome B :=
  match o with
  | Returns a => k a
  | Blocks a => Blocks (blocked a)
  | Panics => Panics
  end.

(** ** Packets and messages *)

(** webrtcpb.PacketMessage. *)
Record packetMessage := mkPacket {
  pm_Data : bytes;
  pm_Eom : bool;
}.

(** [processMessage] of the base stream: append the packet to the buffer and
    hand out the message when the packet ends it. *)
Definition processMessage (MaxMessageSize : Z) (msg : packetMessage) (s : baseStream)
    : baseStream * (bytes * bool) :=
  if (len (pm_Data msg) =? 0)%Z && pm_Eom msg then (s, ([], true))
  else if (len (pm_Data msg) + len (bs_packetBuf s) >? MaxMessageSize)%Z then
    (set_packetBuf [] s, ([], false))
  else
    let buf := bs_packetBuf s ++ pm_Data msg in
    if pm_Eom msg then (set_packetBuf [] s, (buf, true))
    else (set_packetBuf buf s, ([], false)).

(** The loops of [webrtcClientStream.writeMessage] and
    [webrtcServerStream.SendMsg] over the data of one message: cut off at most
    [maxPacket] bytes, mark the last packet, write it with [write], stop at the
    first error. Each iteration drops at least one byte, so [length data] is
    enough fuel. *)
Fixpoint write_packets {St : Type} (fuel maxPacket : nat)
    (write : packetMessage -> St -> St * option goerror) (data : bytes) (st : St)
    : St * option goerror :=
  match fuel with
  | O => (st, None)
  | S fuel' =>
      if (len data =? 0)%Z then (st, None)
      else
        let amountToSend := if (len data <? Z.of_nat maxPacket)%Z then length data else maxPacket in
        let data' := drop amountToSend data in
        let packet := mkPacket (take amountToSend data) (len data' =? 0)%Z in
        match write packet st with
        | (st', Some e) => (st', Some e)
        | (st', None) => write_packets fuel' maxPacket write data' st'
        end
  end.

(** ** Closing *)

(** [closeRecv]: only the caller that wins the swap waits for the senders and
    closes the channel. *)
Definition closeRecv (s : baseStream) : outcome baseStream :=
  if bs_recvClosed s then Returns s
  else
    let s1 := set_recvClosed true s in
    if decide (bs_activeSenders s1 = 0) then
      if bs_msgChClosed s1 then Panics else Returns (set_msgChClosed true s1)
    else Blocks s1.

(** [CloseRecv]. *)
Definition CloseRecv (s : baseStream) : outcome baseStream := closeRecv s.

(** [s.cancel()] on the stream's context: the first error stays. *)
Definition cancel_ctx (s : baseStream) : baseStream :=
  match bs_ctxErr s with
  | Some _ => s
  | None => set_ctxErr (Some (EIs Canceled)) s
  end.

(** The end of [closeWithError], after the receiving side is closed. *)
Definition closeWithError_finish (err : option goerror) (expected : bool) (s : baseStream)
    : baseStream :=
  let s1 := match err with
            | Some _ => set_err err s
            | None => if expected then set_err (Some (EIs errExpectedClosure)) s else s
            end in
  let s2 := cancel_ctx s1 in
  set_done (bs_done s2 ++ [bs_id s2]) s2.

(** [closeWithError]. *)
Definition closeWithError (err : option goerror) (expected : bool) (s : baseStream)
    : outcome baseStream :=
  if bs_closed s then Returns s
  else
    outcome_bind (closeRecv (set_closed true s)) id
      (fun s2 => Returns (closeWithError_finish err expected s2)).

(** [close]. *)
Definition close (s : baseStream) : outcome baseStream := closeWithError None false s.

(** [Closed]. *)
Definition Closed (s : baseStream) : bool := bs_closed s.

(** [closeFromTrailers]. *)
Definition closeFromTrailers (err : option goerror) (s : baseStream) : outcome baseStream :=
  closeWithError err (match err with None => true | Some _ => false end) s.

(** ** Delivering and receiving *)

(** The hand-over of a complete message, shared by [processMessage] of the
    client and of the server stream: register as a sender unless the receiving
    side is closed. *)
Definition enter_sender (s : baseStream) : option baseStream :=
  if bs_recvClosed s then None
  else Some (set_activeSenders (S (bs_activeSenders s)) s).

(** Its [select]: put the message into the channel or, once the context is
    done, drop it; [preferCtx] is the choice of the runtime when both are
    possible. Sending on a closed channel panics. *)
Definition deliver (preferCtx : bool) (data : bytes) (s : baseStream) : outcome baseStream :=
  let s' := set_activeSenders (pred (bs_activeSenders s)) s in
  let ctxDone := bool_decide (bs_ctxErr s <> None) in
  if ctxDone && preferCtx then Returns s'
  else if bs_msgChClosed s then Panics
  else if decide (length (bs_msgs s) < msgCh_cap) then
    Returns (set_msgs (bs_msgs s ++ [data]) s')
  else if ctxDone then Returns s'
  else Blocks s.

Inductive recvResult :=
  | RecvBytes (b : bytes)              (* handed to proto.Unmarshal *)
  | RecvErr (e : option goerror).      (* returned as it is *)

(** The closure [checkLastOrErr] of [RecvMsg]. *)
Definition checkLastOrErr (origErr : option goerror) (s : baseStream)
    : baseStream * (option bytes * option goerror) :=
  match bs_msgs s with
  | m :: ms => (set_msgs ms s, (Some m, None))
  | [] =>
      if bs_msgChClosed s then
        match bs_err s with
        | Some e =>
            if errors_Is e errExpectedClosure then (s, (None, Some (EIs EOF)))
            else (s, (None, Some e))
        | None =>
            match origErr with
            | None => (s, (None, Some (EIs EOF)))
            | Some e => (s, (None, Some e))
            end
        end
      else (s, (None, None))
  end.

(** [RecvMsg]; [preferCtx] is the choice of the runtime when the context is
    done and the channel is ready. *)
Definition RecvMsg (preferCtx : bool) (s : baseStream) : outcome (baseStream * recvResult) :=
  let ctxReady := bool_decide (bs_ctxErr s <> None) in
  let chReady := bs_msgChClosed s || bool_decide (bs_msgs s <> []) in
  if ctxReady && (preferCtx || negb chReady) then
    let '(s', (m, e)) := checkLastOrErr (bs_ctxErr s) s in
    match e, m with
    | Some e, _ => Returns (s', RecvErr (Some e))
    | None, Some b => Returns (s', RecvBytes b)
    | None, None => Returns (s', RecvErr (bs_ctxErr s'))
    end
  else if chReady then
    match bs_msgs s with
    | m :: ms => Returns (set_msgs ms s, RecvBytes m)
    | [] => let '(s', (_, e)) := checkLastOrErr None s in Returns (s', RecvErr e)
    end
  else Blocks (s, RecvErr None).

(** ** Metadata *)

(** metadata.MD and the map of webrtcpb.Metadata; a nil map is [None]. *)
Abbreviation MD := (option (gmap string (list string))).

(** [metadataToProto]: nil or the message's map. *)
Definition metadataToProto (md : MD) : option MD :=
  match md with
  | None => None
  | Some m => if decide (size m = 0) then None else Some (Some m)
  end.

(** [metadataFromProto]. *)
Definition metadataFromProto (p : option MD) : MD :=
  match p with
  | None | Some None => None
  | Some (Some m) => if decide (size m = 0) then None else Some m
  end.

(** ** What the operations leave alone *)

Lemma processMessage_only_buf Max msg s s' r :
  processMessage Max msg s = (s', r) -> exists b, s' = set_packetBuf b s.
Proof.
  unfold processMessage. intros H. split_match_in H; simplify_eq; eauto.
  exists (bs_packetBuf s'). by destruct s'.
Qed.

(** The message channel is closed only by who closed the receiving side. *)
Definition ch_ok (b : baseStream) : Prop := bs_msgChClosed b = true -> bs_recvClosed b = true.

Lemma closeWithError_no_panic err expected b : ch_ok b -> closeWithError err expected b <> Panics.
Proof.
  unfold ch_ok, closeWithError, closeRecv. intros Hok. simpl.
  destruct (bs_closed b); [done|]. destruct (bs_recvClosed b); [done|].
  destruct (bs_msgChClosed b); [by discriminate Hok|]. by case_decide.
Qed.

Lemma handover_no_panic Max p b b1 d b2 preferCtx :
  ch_ok b -> processMessage Max p b = (b1, (d, true)) -> enter_sender b1 = Some b2 ->
  deliver preferCtx d b2 <> Panics.
Proof.
  intros Hok [buf ->]%processMessage_only_buf. unfold enter_sender. simpl.
  destruct (bs_recvClosed b) eqn:Hr; [done|]. intros [= <-].
  unfold deliver. simpl. unfold ch_ok in Hok.
  destruct (bs_msgChClosed b); [rewrite Hr in Hok; by discriminate Hok|].
  destruct (_ && _); [done|]. case_decide; [done|]. by case_bool_decide.
Qed.

#[export] Hint Resolve closeWithError_no_panic handover_no_panic : goutils.

(** A property of the state in which a call returns or blocks. *)
Definition outcome_all {A} (P : A -> Prop) (o : outcome A) : Prop :=
  match o with Returns a | Blocks a => P a | Panics => True end.

Lemma closeWithError_id err expected b :
  outcome_all (fun b' => bs_id b' = bs_id b) (closeWithError err expected b).
Proof.
  unfold closeWithError, closeRecv, closeWithError_finish, cancel_ctx.
  by repeat (case_match; simpl in *; simplify_eq).
Qed.

Lemma handover_id Max p b b1 r b2 preferCtx d :
  processMessage Max p b = (b1, r) -> enter_sender b1 = Some b2 ->
  outcome_all (fun b' => bs_id b' = bs_id b) (deliver preferCtx d b2).
Proof.
  intros [buf ->]%processMessage_only_buf. unfold enter_sender, deliver. simpl.
  destruct (bs_recvClosed b); [done|]. intros [= <-]. simpl.
  by repeat (case_match; simpl in *; simplify_eq).
Qed.

#[export] Hint Resolve closeWithError_id handover_id : goutils.

(** ** Packets: sending and reassembling *)

(** The packets that the loop writes when no write fails. *)
Fixpoint packets (fuel maxPacket : nat) (data : bytes) : list packetMessage :=
  match fuel with
  | O => []
  | S fuel' =>
      match data with
      | [] => []
      | _ => let rest := drop maxPacket data in
             mkPacket (take maxPacket data) (bool_decide (rest = [])) :: packets fuel' maxPacket rest
      end
  end.

(** The packets of one message: an empty message is one empty packet. *)
Definition message_packets (maxPacket : nat) (data : bytes) : list packetMessage :=
  match data with
  | [] => [mkPacket [] true]
  | _ => packets (length data) maxPacket data
  end.

(** Write packets in order up to the first error. *)
Fixpoint write_all {St : Type} (write : packetMessage -> St -> St * option goerror)
    (ps : list packetMessage) (st : St) : St * option goerror :=
  match ps with
  | [] => (st, None)
  | p :: ps' =>
      match write p st with
      | (st', Some e) => (st', Some e)
      | (st', None) => write_all write ps' st'
      end
  end.

(** Hand packets to the receiving stream in order; the messages it completes. *)
Fixpoint feed (MaxMessageSize : Z) (ps : list packetMessage) (s : baseStream)
    : baseStream * list bytes :=
  match ps with
  | [] => (s, [])
  | p :: ps' =>
      let '(s1, (data, eop)) := processMessage MaxMessageSize p s in
      let '(s2, out) := feed MaxMessageSize ps' s1 in
      (s2, if eop then data :: out else out)
  end.

Section Packets.
Context (maxPacket : nat) (HmaxPacket : 0 < maxPacket).
Implicit Types (data buf : bytes) (s : baseStream).

Lemma packets_fuel data fuel fuel' :
  length data <= fuel -> length data <= fuel' ->
  packets fuel maxPacket data = packets fuel' maxPacket data.
Proof using HmaxPacket.
  revert data fuel'. induction fuel as [|fuel IH]; intros data fuel' H1 H2.
  { destruct data; [by destruct fuel' | simpl in H1; lia]. }
  destruct data as [|b data]; [by destruct fuel'|]. destruct fuel' as [|fuel']; [simpl in H2; lia|].
  simpl in H1, H2. cbn [packets]. f_equal. apply IH; rewrite length_drop; simpl; lia.
Qed.

Lemma packets_unfold data :
  data <> [] ->
  packets (length data) maxPacket data
  = mkPacket (take maxPacket data) (bool_decide (drop maxPacket data = []))
      :: packets (length (drop maxPacket data)) maxPacket (drop maxPacket data).
Proof using HmaxPacket.
  intros Hd. destruct data as [|b data]; [done|]. cbn [packets length]. f_equal.
  apply packets_fuel; rewrite length_drop; simpl; lia.
Qed.

Lemma message_packets_nonempty data :
  data <> [] -> message_packets maxPacket data = packets (length data) maxPacket data.
Proof. by destruct data. Qed.

(** The loop of the code writes exactly those packets. *)
Lemma write_packets_spec {St} write data fuel (st : St) :
  length data <= fuel ->
  write_packets fuel maxPacket write data st
  = write_all write (packets fuel maxPacket data) st.
Proof using HmaxPacket.
  revert data st. induction fuel as [|fuel IH]; intros data st Hf; [done|].
  destruct data as [|b data]; [done|]. cbn [write_packets packets write_all].
  destruct (len (b :: data) =? 0)%Z eqn:E0; [breflect; simpl in E0; lia|].
  set (n := if (_ <? _)%Z then _ else _).
  assert (take n (b :: data) = take maxPacket (b :: data) /\
          drop n (b :: data) = drop maxPacket (b :: data)) as [-> ->].
  { subst n. case_match eqn:E; [|done]. breflect.
    by rewrite !take_ge, !drop_ge by lia. }
  replace (len (drop maxPacket (b :: data)) =? 0)%Z
    with (bool_decide (drop maxPacket (b :: data) = [])).
  2: { case_bool_decide as E; [by rewrite E|]. symmetry. apply Z.eqb_neq.
       by destruct (drop maxPacket (b :: data)). }
  destruct (write _ st) as [st' [e|]]; [done|]. apply IH.
  rewrite length_drop. simpl in *. lia.
Qed.

(** Every packet but an empty message's carries between one and [maxPacket]
    bytes. *)
Lemma packets_sizes data fuel p :
  p ∈ packets fuel maxPacket data -> 0 < length (pm_Data p) <= maxPacket.
Proof using HmaxPacket.
  revert data. induction fuel as [|fuel IH]; intros data; simpl; [by intros ?%elem_of_nil|].
  destruct data as [|b data]; [by intros ?%elem_of_nil|].
  intros [->|Hp]%elem_of_cons; [|eauto]. cbn [pm_Data].
  rewrite length_take. simpl. lia.
Qed.

(** One step of the reassembly on a packet of data. *)
Lemma processMessage_packet Max s d eom :
  d <> [] ->
  processMessage Max (mkPacket d eom) s =
  if (len d + len (bs_packetBuf s) >? Max)%Z then (set_packetBuf [] s, ([], false))
  else if eom then (set_packetBuf [] s, (bs_packetBuf s ++ d, true))
  else (set_packetBuf (bs_packetBuf s ++ d) s, ([], false)).
Proof.
  intros Hd. unfold processMessage. cbn [pm_Data pm_Eom].
  replace (len d =? 0)%Z with false; [done|].
  symmetry. apply Z.eqb_neq. by destruct d.
Qed.

(** What the reassembly of one message's packets can give: the whole message
    behind what was buffered when it fits, and otherwise nothing or a proper
    suffix of the message. *)
Lemma feed_packets_cases Max data s :
  data <> [] -> (len (bs_packetBuf s) <= Max)%Z ->
  let '(s', out) := feed Max (packets (length data) maxPacket data) s in
  s' = set_packetBuf [] s /\
  (if (len (bs_packetBuf s) + len data <=? Max)%Z then out = [bs_packetBuf s ++ data]
   else out = [] \/ exists pre tail, pre <> [] /\ tail <> [] /\ data = pre ++ tail /\ out = [tail]).
Proof using HmaxPacket.
  remember (length data) as n eqn:Hn. revert data s Hn.
  induction n as [n IH] using lt_wf_ind. intros data s -> Hd Hs.
  rewrite packets_unfold by done. cbn [feed].
  assert (Ht : take maxPacket data <> []) by (destruct data, maxPacket; done || lia).
  assert (Hlen : (len data = len (take maxPacket data) + len (drop maxPacket data))%Z).
  { rewrite <- (take_drop maxPacket data) at 1. rewrite length_app. lia. }
  rewrite processMessage_packet by done.
  destruct (decide (drop maxPacket data = [])) as [Hr|Hr].
  - assert (take maxPacket data = data) as ->.
    { rewrite <- (take_drop maxPacket data) at 2. by rewrite Hr, app_nil_r. }
    rewrite Hr, bool_decide_eq_true_2 by done. simpl.
    destruct (_ >? _)%Z eqn:Eb; destruct (_ <=? _)%Z eqn:El; breflect; simpl; try lia; auto.
  - rewrite bool_decide_eq_false_2 by done.
    assert (Hlt : length (drop maxPacket data) < length data) by auto with goutils.
    destruct (_ >? _)%Z eqn:Eb.
    + specialize (IH _ Hlt (drop maxPacket data) (set_packetBuf [] s) eq_refl Hr).
      cbn [bs_packetBuf set_packetBuf] in IH. specialize (IH ltac:(simpl; lia)).
      destruct (feed _ _ _) as [s' out]. destruct IH as [-> IH]. split; [done|].
      breflect. destruct (_ + len data <=? _)%Z eqn:El; [breflect; lia|].
      destruct (_ <=? _)%Z in IH.
      * right. exists (take maxPacket data), (drop maxPacket data).
        by rewrite take_drop.
      * destruct IH as [->|(pre & tail & ? & ? & Hpt & ->)]; [by left|]. right.
        exists (take maxPacket data ++ pre), tail. rewrite <- app_assoc, <- Hpt, take_drop.
        split_and!; try done. by destruct (take maxPacket data).
    + breflect.
      specialize (IH _ Hlt (drop maxPacket data)
        (set_packetBuf (bs_packetBuf s ++ take maxPacket data) s) eq_refl Hr).
      cbn [bs_packetBuf set_packetBuf] in IH. rewrite length_app, Nat2Z.inj_add in IH.
      specialize (IH ltac:(lia)). destruct (feed _ _ _) as [s' out].
      destruct IH as [-> IH]. split; [done|].
      rewrite <- app_assoc, take_drop in IH.
      replace (len (bs_packetBuf s) + len data)%Z with
        (len (bs_packetBuf s) + len (take maxPacket data) + len (drop maxPacket data))%Z by lia.
      destruct (_ <=? _)%Z; [done|].
      destruct IH as [->|(pre & tail & ? & ? & Hpt & ->)]; [by left|]. right.
      exists (take maxPacket data ++ pre), tail. rewrite <- app_assoc, <- Hpt, take_drop.
      split_and!; try done. by destruct (take maxPacket data).
Qed.

(** Full packets that fit are buffered. *)
Lemma feed_full_packets Max k rest s b :
  rest <> [] -> (len (bs_packetBuf s) + Z.of_nat (k * maxPacket) <= Max)%Z ->
  let data := replicate (k * maxPacket) b ++ rest in
  feed Max (packets (length data) maxPacket data) s
  = feed Max (packets (length rest) maxPacket rest)
      (set_packetBuf (bs_packetBuf s ++ replicate (k * maxPacket) b) s).
Proof using HmaxPacket.
  revert s. induction k as [|k IH]; intros s Hr Hk; simpl.
  { rewrite app_nil_r. by destruct s. }
  rewrite replicate_add, <- !app_assoc.
  rewrite packets_unfold by (destruct maxPacket; [lia | done]).
  rewrite take_app_length', drop_app_length' by (by rewrite length_replicate).
  rewrite bool_decide_eq_false_2 by (destruct rest; [done|]; by destruct (replicate _ b)).
  cbn [feed]. rewrite processMessage_packet by (destruct maxPacket; [lia | done]).
  rewrite length_replicate. destruct (_ >? _)%Z eqn:Eb; [breflect; lia|].
  rewrite IH; [| done | cbn [bs_packetBuf set_packetBuf]; rewrite length_app, length_replicate; lia].
  cbn [bs_packetBuf set_packetBuf]. rewrite <- app_assoc. by destruct (feed _ _ _).
Qed.
End Packets.

(** The packets of a message that fits give that message. *)
Lemma feed_message (maxPacket : nat) (MaxMessageSize : Z) (data : bytes) (s : baseStream) :
  0 < maxPacket -> (len data <= MaxMessageSize)%Z -> bs_packetBuf s = [] ->
  feed MaxMessageSize (message_packets maxPacket data) s = (s, [data]).
Proof.
  intros Hpos Hfit Hbuf.
  assert (Hs : set_packetBuf [] s = s) by (destruct s; simpl in *; by subst).
  destruct (decide (data = [])) as [->|Hd]; [done|].
  rewrite message_packets_nonempty by done.
  pose proof (feed_packets_cases maxPacket Hpos MaxMessageSize data s Hd) as Hc.
  rewrite Hbuf in Hc. simpl in Hc. specialize (Hc ltac:(lia)).
  destruct (feed _ _ _) as [s' out]. destruct Hc as [-> Hout].
  rewrite (proj2 (Z.leb_le _ _)) in Hout by lia. by rewrite Hout, Hs.
Qed.

(** A write that succeeds and keeps what is written. *)
Definition record_write (p : packetMessage) (log : list packetMessage)
    : list packetMessage * option goerror := (log ++ [p], None).

Lemma write_all_record ps log : write_all record_write ps log = (log ++ ps, None).
Proof.
  revert log. induction ps as [|p ps IH]; intros log; simpl; [by rewrite app_nil_r|].
  by rewrite IH, <- app_assoc.
Qed.

(** ** Properties of packets *)

(** C1: The packets that the sending loop writes for a message of at most
    MaxMessageSize bytes, none of them larger than a packet may be, make the
    other end hand out that message, once, and leave its buffer empty. *)
Theorem message_roundtrip (maxPacket : nat) (MaxMessageSize : Z) (data : bytes) (s : baseStream)
    (Hpos : 0 < maxPacket) (Hne : data <> []) (Hfit : (len data <= MaxMessageSize)%Z)
    (Hbuf : bs_packetBuf s = []) :
  exists ps, write_packets (length data) maxPacket record_write data [] = (ps, None) /\
    Forall (fun p => 0 < length (pm_Data p) <= maxPacket) ps /\
    feed MaxMessageSize ps s = (s, [data]).
Proof.
  exists (packets (length data) maxPacket data).
  rewrite write_packets_spec, write_all_record by done. split_and!; [done | |].
  - apply Forall_forall. intros p. by apply packets_sizes.
  - rewrite <- message_packets_nonempty by done. by apply feed_message.
Qed.

Lemma message_roundtrip_witness :
  let data := [Byte.x61; Byte.x62; Byte.x63; Byte.x64; Byte.x65] in
  exists ps, write_packets 5 2 record_write data [] = (ps, None) /\
    Forall (fun p => 0 < length (pm_Data p) <= 2) ps /\
    feed 5 ps (newWebRTCBaseStream None 7) = (newWebRTCBaseStream None 7, [data]).
Proof.
  apply (message_roundtrip 2 5 [Byte.x61; Byte.x62; Byte.x63; Byte.x64; Byte.x65]
           (newWebRTCBaseStream None 7)); [lia | done | simpl; lia | reflexivity].
Defined.

(** The packets of a message that is too large never give that message: the
    other end hands out nothing or a proper, non-empty suffix of it, and its
    buffer is empty again. *)
Theorem oversize_message_not_whole (maxPacket : nat) (MaxMessageSize : Z) (data : bytes)
    (s : baseStream) (Hpos : 0 < maxPacket) (Hmax : (0 <= MaxMessageSize)%Z)
    (Hbig : (MaxMessageSize < len data)%Z) (Hbuf : bs_packetBuf s = []) :
  let '(s', out) := feed MaxMessageSize (message_packets maxPacket data) s in
  s' = s /\
  (out = [] \/
   exists pre tail, pre <> [] /\ tail <> [] /\ data = pre ++ tail /\ out = [tail]).
Proof.
  assert (Hd : data <> []) by (intros ->; simpl in Hbig; lia).
  assert (Hs : set_packetBuf [] s = s) by (destruct s; simpl in *; by subst).
  rewrite message_packets_nonempty by done.
  pose proof (feed_packets_cases maxPacket Hpos MaxMessageSize data s Hd) as Hc.
  rewrite Hbuf in Hc. simpl in Hc. specialize (Hc Hmax).
  destruct (feed _ _ _) as [s' out]. destruct Hc as [-> Hout]. split; [done|].
  by rewrite (proj2 (Z.leb_gt _ _)) in Hout by lia.
Qed.

Lemma oversize_message_not_whole_witness :
  let '(s', out) :=
    feed 4 (message_packets 3 (replicate 7 Byte.x61)) (newWebRTCBaseStream None 7) in
  s' = newWebRTCBaseStream None 7 /\
  (out = [] \/ exists pre tail, pre <> [] /\ tail <> [] /\
                 replicate 7 Byte.x61 = pre ++ tail /\ out = [tail]).
Proof.
  apply (oversize_message_not_whole 3 4 (replicate 7 Byte.x61)); simpl; try lia. reflexivity.
Defined.

(** The discarding of a message that is too large forgets only what was
    buffered so far: for every packet size and limit there is a message whose
    last bytes alone are handed out as if they were a message. *)
Theorem oversize_message_tail_delivered (maxPacket : nat) (MaxMessageSize : Z) (id : Z)
    (Hpos : 0 < maxPacket) (Hmax : (Z.of_nat maxPacket <= MaxMessageSize)%Z) :
  exists data tail,
    (MaxMessageSize < len data)%Z /\ tail <> [] /\ tail <> data /\
    feed MaxMessageSize (message_packets maxPacket data) (newWebRTCBaseStream None id)
    = (newWebRTCBaseStream None id, [tail]).
Proof.
  set (q := Z.to_nat (MaxMessageSize / Z.of_nat maxPacket)).
  assert (Hq : (Z.of_nat (q * maxPacket) <= MaxMessageSize < Z.of_nat (S q * maxPacket))%Z).
  { pose proof (Z.div_mod MaxMessageSize (Z.of_nat maxPacket) ltac:(lia)).
    pose proof (Z.mod_pos_bound MaxMessageSize (Z.of_nat maxPacket) ltac:(lia)).
    pose proof (Z.div_pos MaxMessageSize (Z.of_nat maxPacket) ltac:(lia) ltac:(lia)).
    subst q. rewrite !Nat2Z.inj_mul, Nat2Z.inj_succ, Z2Nat.id by lia. nia. }
  set (rest := replicate maxPacket Byte.x00 ++ [Byte.x01]).
  exists (replicate (q * maxPacket) Byte.x00 ++ rest), [Byte.x01].
  assert (Hlong : forall n, length (replicate n Byte.x00 ++ rest) = n + maxPacket + 1).
  { intros n. unfold rest. rewrite !length_app, !length_replicate. simpl. lia. }
  split_and!; [rewrite Hlong; lia | done | |].
  { intros Heq. apply (f_equal length) in Heq. rewrite Hlong in Heq. simpl in Heq. lia. }
  assert (Hr : rest <> []) by (unfold rest; by destruct (replicate maxPacket Byte.x00)).
  rewrite message_packets_nonempty by (intros [_ E]%app_eq_nil; by apply Hr).
  rewrite (feed_full_packets maxPacket Hpos MaxMessageSize q rest _ Byte.x00 Hr) by (simpl; lia).
  rewrite packets_unfold by done.
  unfold rest. rewrite take_app_length', drop_app_length' by (by rewrite length_replicate).
  cbn [feed]. rewrite bool_decide_eq_false_2 by done.
  rewrite processMessage_packet by (destruct maxPacket; [lia | done]).
  cbn [bs_packetBuf set_packetBuf newWebRTCBaseStream app]. rewrite !length_replicate.
  destruct (_ >? _)%Z eqn:Eb; [|breflect; lia].
  rewrite packets_unfold, take_ge, drop_ge by (done || simpl; lia). cbn [feed].
  rewrite processMessage_packet by done. cbn -[Z.of_nat].
  destruct (_ >? MaxMessageSize)%Z eqn:E1 in |- *; [breflect; lia | done].
Qed.

Lemma oversize_message_tail_delivered_witness :
  exists data tail,
    (4 < len data)%Z /\ tail <> [] /\ tail <> data /\
    feed 4 (message_packets 3 data) (newWebRTCBaseStream None 9)
    = (newWebRTCBaseStream None 9, [tail]).
Proof. apply (oversize_message_tail_delivered 3 4 9); lia. Defined.
