(* ===== verification/StreamConc.v ===== *)
(** * The goroutines around one base stream

    [rpc/wrtc_base_stream.go] guards the message channel with a mutex, two
    atomic flags and a wait group of senders. Here every goroutine that touches
    the channel is a program counter and every atomic section of the code is
    one step:

    - the reader of the data channel, which runs [processMessage] of the client
      or the server stream and, on a protocol error, [closeWithError] without
      the mutex;
    - a closer that holds the mutex and runs [closeWithError] or [CloseRecv];
    - the consumer that runs [RecvMsg];
    - the environment, which may cancel the stream's context.

    The properties: no send on a closed channel and no double close in any
    interleaving, [onDone] is called at most once, messages come out in the
    order they went in, closing always finishes once the context is done, and
    the reachable state in which the server's closing waits for a sender that
    waits for the context that only the closing would cancel. *)

From S2P Require Import Prelude GoError BaseStream.

(** ** Program counters *)

(** A goroutine inside [closeRecv] or [closeWithError]. The argument says what
    is left to do after the receiving side is closed: nothing for [CloseRecv],
    the end of [closeWithError] with its arguments otherwise. *)
Inductive cpc :=
  | CSwapRecv (k : option (option goerror * bool))  (* before the swap of recvClosed *)
  | CWait (k : option (option goerror * bool))      (* in activeSenders.Wait() *)
  | CFinish (err : option goerror) (expected : bool).

Definition after_recv (k : option (option goerror * bool)) : option cpc :=
  match k with
  | None => None
  | Some (err, expected) => Some (CFinish err expected)
  end.

(** The reader of the data channel. *)
Inductive readerpc :=
  | RIdle                                (* waiting for a packet *)
  | RSending (data : bytes) (eos : bool) (* in the select of processMessage *)
  | REos                                 (* about to call CloseRecv *)
  | RInCloser                            (* its CloseRecv holds the mutex *)
  | RClosing (c : cpc).                  (* in closeWithError without the mutex *)

Record conc := mkConc {
  c_s : baseStream;
  c_reader : readerpc;
  c_locked : option cpc;       (* the goroutine that holds s.mu while closing *)
  c_panic : bool;              (* the runtime panicked *)
  c_accepted : list bytes;     (* messages whose hand-over began *)
  c_dropped : list bytes;      (* messages given up because the context is done *)
  c_consumed : list bytes;     (* messages RecvMsg took out *)
}.

Definition conc_init (id : Z) : conc :=
  mkConc (newWebRTCBaseStream None id) RIdle None false [] [] [].

(** One step of a closing goroutine: its next program counter, the stream and
    whether it panics. *)
Inductive close_step : cpc -> baseStream -> option cpc -> baseStream -> bool -> Prop :=
  | close_swap_lost k s :
      bs_recvClosed s = true -> close_step (CSwapRecv k) s (after_recv k) s false
  | close_swap_won k s :
      bs_recvClosed s = false ->
      close_step (CSwapRecv k) s (Some (CWait k)) (set_recvClosed true s) false
  | close_wait k s :
      bs_activeSenders s = 0 ->
      close_step (CWait k) s (after_recv k) (set_msgChClosed true s) (bs_msgChClosed s)
  | close_finish err expected s :
      close_step (CFinish err expected) s None (closeWithError_finish err expected s) false.

Definition after_send (eos : bool) : readerpc := if eos then REos else RIdle.

Inductive actor := Reader | Closer | Consumer | Env.

Section Steps.
Context (MaxMessageSize : Z).

Inductive step : actor -> conc -> conc -> Prop :=
(* the reader *)
| step_partial msg s s' d l p acc dr con :
    processMessage MaxMessageSize msg s = (s', (d, false)) ->
    step Reader (mkConc s RIdle l p acc dr con) (mkConc s' RIdle l p acc dr con)
| step_enter msg eos s s' s'' d p acc dr con :
    processMessage MaxMessageSize msg s = (s', (d, true)) ->
    enter_sender s' = Some s'' ->
    step Reader (mkConc s RIdle None p acc dr con)
      (mkConc s'' (RSending d eos) None p (acc ++ [d]) dr con)
| step_late msg s s' d p acc dr con :
    processMessage MaxMessageSize msg s = (s', (d, true)) ->
    enter_sender s' = None ->
    step Reader (mkConc s RIdle None p acc dr con) (mkConc s' RIdle None p acc dr con)
| step_send d eos s s' l acc dr con :
    deliver false d s = Returns s' -> length (bs_msgs s) < msgCh_cap ->
    step Reader (mkConc s (RSending d eos) l false acc dr con)
      (mkConc s' (after_send eos) l false acc dr con)
| step_send_panic d eos s l acc dr con :
    bs_msgChClosed s = true ->
    step Reader (mkConc s (RSending d eos) l false acc dr con)
      (mkConc s (RSending d eos) l true acc dr con)
| step_drop d eos s s' l acc dr con :
    deliver true d s = Returns s' -> bs_ctxErr s <> None ->
    step Reader (mkConc s (RSending d eos) l false acc dr con)
      (mkConc s' (after_send eos) l false acc (dr ++ [d]) con)
| step_eos s p acc dr con :
    step Reader (mkConc s RIdle None p acc dr con) (mkConc s REos None p acc dr con)
| step_eos_lock s p acc dr con :
    step Reader (mkConc s REos None p acc dr con)
      (mkConc s RInCloser (Some (CSwapRecv None)) p acc dr con)
| step_reader_close err expected s l p acc dr con :
    bs_closed s = false ->
    step Reader (mkConc s RIdle l p acc dr con)
      (mkConc (set_closed true s) (RClosing (CSwapRecv (Some (err, expected)))) l p acc dr con)
| step_reader_closing c c' b s s' l acc dr con :
    close_step c s c' s' b ->
    step Reader (mkConc s (RClosing c) l false acc dr con)
      (mkConc s' (match c' with Some c' => RClosing c' | None => RIdle end) l b acc dr con)
(* a closer with the mutex *)
| step_close err expected s r p acc dr con :
    bs_closed s = false ->
    step Closer (mkConc s r None p acc dr con)
      (mkConc (set_closed true s) r (Some (CSwapRecv (Some (err, expected)))) p acc dr con)
| step_closing c c' b s s' r acc dr con :
    close_step c s c' s' b ->
    step Closer (mkConc s r (Some c) false acc dr con)
      (mkConc s' (match c', r with None, RInCloser => RIdle | _, _ => r end) c' b acc dr con)
(* RecvMsg *)
| step_recv m ms s r l p acc dr con :
    bs_msgs s = m :: ms ->
    step Consumer (mkConc s r l p acc dr con)
      (mkConc (set_msgs ms s) r l p acc dr (con ++ [m]))
(* the context *)
| step_cancel e s r l p acc dr con :
    bs_ctxErr s = None ->
    step Env (mkConc s r l p acc dr con) (mkConc (set_ctxErr (Some e) s) r l p acc dr con).

Definition any_step (c c' : conc) : Prop := exists a, step a c c'.

(** A step of the reader or of a closer: what the stream does by itself. *)
Definition own_step (c c' : conc) : Prop := step Reader c c' \/ step Closer c c'.

Definition reachable_from (id : Z) : conc -> Prop :=
  reachable (fun c => c = conc_init id) any_step.
End Steps.

(** ** The invariant *)

Definition sending (r : readerpc) : list bytes :=
  match r with RSending d _ => [d] | _ => [] end.

Definition waiting (c : option cpc) : nat :=
  match c with Some (CWait _) => 1 | _ => 0 end.

(** Whether the end of [closeWithError] is still ahead. *)
Definition finishing (c : option cpc) : nat :=
  match c with
  | Some (CSwapRecv (Some _)) | Some (CWait (Some _)) | Some (CFinish _ _) => 1
  | _ => 0
  end.

Definition reader_closer (r : readerpc) : option cpc :=
  match r with RClosing c => Some c | _ => None end.

Record conc_inv (c : conc) : Prop := {
  inv_panic : c_panic c = false;
  inv_senders : bs_activeSenders (c_s c) = length (sending (c_reader c));
  inv_waiters :
    waiting (c_locked c) + waiting (reader_closer (c_reader c)) =
    if bs_recvClosed (c_s c) && negb (bs_msgChClosed (c_s c)) then 1 else 0;
  inv_chClosed : bs_msgChClosed (c_s c) = true -> bs_recvClosed (c_s c) = true;
  inv_sending : sending (c_reader c) <> [] -> bs_msgChClosed (c_s c) = false;
  inv_done :
    length (bs_done (c_s c)) + finishing (c_locked c) + finishing (reader_closer (c_reader c)) =
    if bs_closed (c_s c) then 1 else 0;
  inv_incloser : c_reader c = RInCloser -> c_locked c <> None;
  inv_cap : length (bs_msgs (c_s c)) <= msgCh_cap;
  inv_fifo : sublist ((c_consumed c ++ bs_msgs (c_s c)) ++ sending (c_reader c)) (c_accepted c);
  inv_exact : c_dropped c = [] ->
    (c_consumed c ++ bs_msgs (c_s c)) ++ sending (c_reader c) = c_accepted c;
}.

Lemma conc_init_inv id : conc_inv (conc_init id).
Proof. constructor; simpl; try done; unfold msgCh_cap; lia. Qed.

Lemma deliver_send d s s' :
  bs_msgChClosed s = false -> length (bs_msgs s) < msgCh_cap -> deliver false d s = Returns s' ->
  s' = set_msgs (bs_msgs s ++ [d]) (set_activeSenders (pred (bs_activeSenders s)) s).
Proof.
  intros Hc Hl. unfold deliver. rewrite andb_false_r, Hc, decide_True by done. by intros [= <-].
Qed.

Lemma deliver_drop d s s' :
  bs_ctxErr s <> None -> deliver true d s = Returns s' ->
  s' = set_activeSenders (pred (bs_activeSenders s)) s.
Proof.
  intros Hc. unfold deliver. rewrite bool_decide_eq_true_2 by done. simpl. by intros [= <-].
Qed.

(** What a closing goroutine's step does to the fields the invariant is about. *)
Lemma close_step_spec c s c' s' b :
  close_step c s c' s' b ->
  bs_closed s' = bs_closed s /\ bs_msgs s' = bs_msgs s /\
  bs_activeSenders s' = bs_activeSenders s /\
  length (bs_done s') + finishing c' = length (bs_done s) + finishing (Some c) /\
  ((bs_recvClosed s' = bs_recvClosed s /\ bs_msgChClosed s' = bs_msgChClosed s /\
    waiting c' = waiting (Some c) /\ b = false) \/
   (bs_recvClosed s = false /\ bs_recvClosed s' = true /\ bs_msgChClosed s' = bs_msgChClosed s /\
    waiting (Some c) = 0 /\ waiting c' = 1 /\ b = false) \/
   (bs_activeSenders s = 0 /\ bs_recvClosed s' = bs_recvClosed s /\ bs_msgChClosed s' = true /\
    waiting (Some c) = 1 /\ waiting c' = 0 /\ b = bs_msgChClosed s)).
Proof.
  intros Hst. destruct Hst as [k s H|k s H|k s H|err expected s].
  - destruct k as [[??]|]; simpl; split_and!; auto.
  - destruct k as [[??]|]; simpl; split_and!; auto 10.
  - destruct k as [[??]|]; simpl; split_and!; auto 10.
  - unfold closeWithError_finish, cancel_ctx.
    destruct err, expected, (bs_ctxErr s) eqn:E; simpl; rewrite ?E; simpl;
      rewrite length_app; simpl; split_and!; auto; lia.
Qed.

(** Take the invariant of the state before the step apart. *)
Ltac inv_start :=
  match goal with H : conc_inv _ |- _ => destruct H end; simpl in *; subst.

(** A step of a closing goroutine, by the three kinds of step. *)
Ltac closing_case H s :=
  apply close_step_spec in H as (E1 & E2 & E3 & E4 & E5); inv_start;
  destruct E5 as [(F1 & F2 & F3 & ->)
                 |[(F0 & F1 & F2 & F3 & F4 & ->)|(F0 & F1 & F2 & F3 & F4 & ->)]];
  constructor; simpl in *; try done;
  rewrite ?E1, ?E2, ?E3, ?F1, ?F2 in *; try done; try lia;
  destruct (bs_recvClosed s) eqn:?, (bs_msgChClosed s) eqn:?; simpl in *; try done; try lia; try (by intros; discriminate).

Lemma conc_inv_reader Max c c' : conc_inv c -> step Max Reader c c' -> conc_inv c'.
Proof.
  intros Hi Hst. inversion Hst as
    [msg s s' d l p acc dr con Hp|msg eos s s' s'' d p acc dr con Hp He|msg s s' d p acc dr con Hp He
    |d eos s s' l acc dr con Hd Hl|d eos s l acc dr con Hch|d eos s s' l acc dr con Hd Hctx
    |s p acc dr con|s p acc dr con|err expected s l p acc dr con Hcl
    |pc pc' b s s' l acc dr con Hc| | | |]; subst.
  - apply processMessage_only_buf in Hp as [b ->]. inv_start. by constructor.
  - apply processMessage_only_buf in Hp as [b ->]. unfold enter_sender in He. simpl in He.
    case_match eqn:Hrc; simplify_eq. inv_start. rewrite app_nil_r in *.
    constructor; simpl; auto.
    + by destruct (bs_msgChClosed s) eqn:E; [rewrite inv_chClosed0 in Hrc|].
    + by apply sublist_app.
    + intros Hdr. by rewrite inv_exact0.
  - apply processMessage_only_buf in Hp as [b ->]. inv_start. by constructor.
  - assert (Hch : bs_msgChClosed s = false) by (apply (inv_sending _ Hi); done).
    apply deliver_send in Hd as ->; [|done|done]. inv_start.
    assert (Hcap : bs_msgs s = [])
      by (destruct (bs_msgs s); [done | unfold msgCh_cap in *; simpl in *; lia]).
    rewrite Hcap in *. destruct eos; constructor; simpl; try done;
      rewrite ?app_nil_r in *; auto; rewrite ?inv_senders0; auto.
  - exfalso. inv_start. by rewrite inv_sending0 in Hch.
  - apply deliver_drop in Hd as ->; [|done]. inv_start.
    assert (sublist (con ++ bs_msgs s) acc) by (etrans; [|done]; by apply sublist_inserts_r).
    destruct eos; constructor; simpl; rewrite ?app_nil_r, ?inv_senders0; try done;
      by intros [? ?]%app_nil.
  - inv_start. by constructor.
  - inv_start. by constructor.
  - inv_start. constructor; simpl; try done; rewrite ?Hcl in *; lia.
  - destruct pc' as [pc'|]; closing_case Hc s.
Qed.

Lemma conc_inv_step Max a c c' : conc_inv c -> step Max a c c' -> conc_inv c'.
Proof.
  intros Hi Hst. destruct a; [by eapply conc_inv_reader| | |].
  - inversion Hst as [| | | | | | | | | |err expected s r p acc dr con Hcl
                      |pc pc' b s s' r acc dr con Hc| |]; subst.
    + inv_start. constructor; simpl; try done; rewrite ?Hcl in *; lia.
    + destruct pc' as [pc'|], r; closing_case Hc s.
  - inversion Hst as [| | | | | | | | | | | |m ms s r l p acc dr con Hm|]; subst.
    inv_start. rewrite Hm in *.
    constructor; simpl; try done; rewrite <- ?app_assoc in *; simpl in *; try done. lia.
  - inversion Hst; subst. inv_start. by constructor.
Qed.

Lemma reachable_inv Max id c : reachable_from Max id c -> conc_inv c.
Proof.
  apply invariant_reachable; [intros s ->; apply conc_init_inv|].
  intros s s' Hs [a Ha]. by eapply conc_inv_step.
Qed.

(** ** Closing finishes *)

(** How many steps a closing goroutine has ahead at most. *)
Definition steps_left (c : option cpc) : nat :=
  match c with
  | None => 0
  | Some (CFinish _ _) => 1
  | Some (CWait _) => 2
  | Some (CSwapRecv _) => 3
  end.

Arguments steps_left : simpl never.

Lemma steps_left_pos c : 0 < steps_left (Some c).
Proof. destruct c; unfold steps_left; lia. Qed.

Lemma close_step_progress c s :
  bs_activeSenders s = 0 ->
  exists c' s' b, close_step c s c' s' b /\ steps_left c' < steps_left (Some c) /\
    bs_activeSenders s' = 0.
Proof.
  intros Hs. destruct c as [k|k|err expected].
  - destruct (bs_recvClosed s) eqn:E.
    + do 3 eexists. split; [by apply close_swap_lost|]. destruct k as [[??]|]; unfold steps_left; simpl; auto with lia.
    + do 3 eexists. split; [by apply close_swap_won|]. unfold steps_left; simpl. auto with lia.
  - do 3 eexists. split; [by apply close_wait|]. destruct k as [[??]|]; unfold steps_left; simpl; auto with lia.
  - do 3 eexists. split; [apply close_finish|]. split; [unfold steps_left; lia|].
    unfold closeWithError_finish, cancel_ctx.
    by destruct err, expected, (bs_ctxErr s) eqn:E; simpl; rewrite ?E.
Qed.

Definition reader_after (r : readerpc) : readerpc :=
  match r with RInCloser => RIdle | _ => r end.

(** The goroutine that holds the mutex runs to its end when there is no sender. *)
Lemma locked_closer_finishes Max n c :
  conc_inv c -> bs_activeSenders (c_s c) = 0 -> steps_left (c_locked c) <= n ->
  (c_locked c = None -> c_reader c <> RInCloser) ->
  exists c', rtc (own_step Max) c c' /\ conc_inv c' /\ c_locked c' = None /\
    bs_activeSenders (c_s c') = 0 /\ c_reader c' = reader_after (c_reader c).
Proof.
  revert c. induction n as [|n IH]; intros c Hi Hs Hn Hr.
  - destruct c as [s r [pc|] p acc dr con]; simpl in *; [pose proof (steps_left_pos pc); lia|].
    eexists. split; [done|]. split_and!; try done. by destruct r; try done; destruct Hr.
  - destruct c as [s r [pc|] p acc dr con]; simpl in *.
    2: { eexists. split; [done|]. split_and!; try done. by destruct r; try done; destruct Hr. }
    destruct (close_step_progress pc s Hs) as (pc' & s' & b & Hst & Hlt & Hs').
    pose proof (inv_panic _ Hi) as Hp. simpl in Hp. subst p.
    pose proof (step_closing Max pc pc' b s s' r acc dr con Hst) as Hstep.
    pose proof (conc_inv_step Max _ _ _ Hi Hstep) as Hi'.
    destruct (IH _ Hi') as (c' & Hrtc & Hinv & Hl & Ha & Hrd); simpl; [done | lia | |].
    { intros ->. by destruct r. }
    exists c'. split_and!; try done; [eapply rtc_l; [by right | done]|].
    rewrite Hrd. simpl. by destruct pc', r.
Qed.

(** A reader that closes the stream itself runs to its end, too. *)
Lemma reader_closer_finishes Max n c pc :
  conc_inv c -> bs_activeSenders (c_s c) = 0 -> c_reader c = RClosing pc ->
  steps_left (Some pc) <= n -> c_locked c = None ->
  exists c', rtc (own_step Max) c c' /\ conc_inv c' /\ c_locked c' = None /\ c_reader c' = RIdle.
Proof.
  revert c pc. induction n as [|n IH]; intros [s r l p acc dr con] pc Hi Hs Hr Hn Hl; simpl in *.
  { pose proof (steps_left_pos pc). lia. }
  subst. destruct (close_step_progress pc s Hs) as (pc' & s' & b & Hst & Hlt & Hs').
  pose proof (inv_panic _ Hi) as Hp. simpl in Hp. subst p.
  pose proof (step_reader_closing Max pc pc' b s s' None acc dr con Hst) as Hstep.
  pose proof (conc_inv_step Max _ _ _ Hi Hstep) as Hi'.
  destruct pc' as [pc'|].
  - destruct (IH _ pc' Hi') as (c' & Hrtc & ? & ? & ?); simpl in *; try done; [lia|].
    exists c'. split_and!; try done. eapply rtc_l; [by left | done].
  - eexists. split_and!; [eapply rtc_l; [by left; apply Hstep | done] | done..].
Qed.

(** A sender that waits for the channel gives up when the context is done. *)
Lemma sender_gives_up Max c :
  conc_inv c -> bs_ctxErr (c_s c) <> None ->
  exists c1, rtc (own_step Max) c c1 /\ conc_inv c1 /\ bs_activeSenders (c_s c1) = 0.
Proof.
  destruct c as [s r l p acc dr con]. simpl. intros Hr Hctx.
  destruct r as [|d eos| | |pc];
    try (eexists; split; [done|]; split; [done|]; apply (inv_senders _ Hr)).
  pose proof (inv_panic _ Hr) as Hp. simpl in Hp. subst p.
  pose proof (step_drop Max d eos s (set_activeSenders (pred (bs_activeSenders s)) s) l acc dr con)
    as Hst. unfold deliver in Hst. rewrite bool_decide_eq_true_2 in Hst by done. simpl in Hst.
  specialize (Hst eq_refl Hctx).
  eexists. split; [eapply rtc_once; by left|]. split; [by eapply conc_inv_step|].
  simpl. pose proof (inv_senders _ Hr) as Hse. simpl in Hse. by rewrite Hse.
Qed.

(** ** A run

    The stream of the witnesses: one message was handed over and taken out, a
    second one is in the channel, a third one waits for room, the context is
    canceled and a closer waits for the sender. *)

Definition sample_packet : packetMessage := mkPacket [Byte.x61] true.

Definition sample_conc : conc :=
  mkConc
    (mkBaseStream (Some (EIs Canceled)) 7 [[Byte.x61]] false None true true [] 1 [])
    (RSending [Byte.x61] false) (Some (CWait (Some (None, false)))) false
    [[Byte.x61]; [Byte.x61]; [Byte.x61]] [] [[Byte.x61]].

(** Take one step of the named actor with the given rule and evaluate the state
    it leads to. *)
Ltac take_step a rule :=
  eapply rtc_l;
    [exists a; eapply rule; first [done | by apply close_swap_won | unfold msgCh_cap; simpl; lia]|];
  eval_state.

Lemma sample_conc_reachable : reachable_from 8 7 sample_conc.
Proof.
  exists (conc_init 7). split; [done|].
  take_step Reader (step_enter 8 sample_packet false).
  take_step Reader step_send.
  take_step Consumer step_recv.
  take_step Reader (step_enter 8 sample_packet false).
  take_step Reader step_send.
  take_step Reader (step_enter 8 sample_packet false).
  take_step Closer (step_close 8 None false).
  take_step Closer step_closing.
  take_step Env (step_cancel 8 (EIs Canceled)).
  done.
Qed.

(** ** Properties *)

(** C2: In every interleaving of the reader, the closers, the consumer and the
    context, nobody sends on the message channel after it is closed and nobody
    closes it twice: the runtime does not panic. *)
Theorem stream_never_panics (Max id : Z) (c : conc) (Hr : reachable_from Max id c) :
  c_panic c = false.
Proof. apply reachable_inv in Hr. apply Hr. Qed.

Lemma stream_never_panics_witness : c_panic sample_conc = false.
Proof. apply (stream_never_panics 8 7), sample_conc_reachable. Defined.

(** The stream's owner is told at most once that the stream is done, and it
    has been told exactly once when the stream is closed and no goroutine is
    still closing it. *)
Theorem stream_done_once (Max id : Z) (c : conc) (Hr : reachable_from Max id c) :
  length (bs_done (c_s c)) <= 1 /\
  (bs_closed (c_s c) = true -> c_locked c = None -> reader_closer (c_reader c) = None ->
   length (bs_done (c_s c)) = 1).
Proof.
  apply reachable_inv in Hr. pose proof (inv_done _ Hr) as Hd. split.
  - case_match; lia.
  - intros Hc Hl Hrc. rewrite Hc, Hl, Hrc in Hd. simpl in Hd. lia.
Qed.

Lemma stream_done_once_witness : length (bs_done (c_s sample_conc)) <= 1.
Proof. apply (stream_done_once 8 7), sample_conc_reachable. Defined.

(** C38: Messages come out in the order in which their hand-over began, without
    duplicates, and none is missing as long as none was given up because the
    context is done. *)
Theorem stream_fifo (Max id : Z) (c : conc) (Hr : reachable_from Max id c) :
  sublist (c_consumed c ++ bs_msgs (c_s c)) (c_accepted c) /\
  (c_dropped c = [] -> (c_consumed c ++ bs_msgs (c_s c)) ++ sending (c_reader c) = c_accepted c).
Proof.
  apply reachable_inv in Hr. split; [|apply Hr].
  etrans; [|apply (inv_fifo _ Hr)]. by apply sublist_inserts_r.
Qed.

Lemma stream_fifo_witness :
  (c_consumed sample_conc ++ bs_msgs (c_s sample_conc)) ++ sending (c_reader sample_conc)
  = [[Byte.x61]; [Byte.x61]; [Byte.x61]].
Proof. by apply (stream_fifo 8 7 sample_conc sample_conc_reachable). Defined.

(** Once the context is done, the stream's own goroutines can always finish
    closing without help from a consumer. *)
Theorem closing_finishes_when_context_done (Max id : Z) (c : conc)
    (Hr : reachable_from Max id c) (Hctx : bs_ctxErr (c_s c) <> None) :
  exists c', rtc (own_step Max) c c' /\ c_reader c' = RIdle /\ c_locked c' = None /\
    (bs_recvClosed (c_s c') = true -> bs_msgChClosed (c_s c') = true) /\
    (bs_closed (c_s c') = true -> length (bs_done (c_s c')) = 1).
Proof.
  apply reachable_inv in Hr.
  enough (exists c', rtc (own_step Max) c c' /\ conc_inv c' /\ c_reader c' = RIdle /\
                     c_locked c' = None) as (c' & Hrtc & Hi & Hrd & Hl).
  { exists c'. split_and!; try done.
    - intros Hrc. pose proof (inv_waiters _ Hi) as Hw. rewrite Hl, Hrd, Hrc in Hw. simpl in Hw.
      by destruct (bs_msgChClosed (c_s c')).
    - intros Hc. pose proof (inv_done _ Hi) as Hd. rewrite Hl, Hrd, Hc in Hd. simpl in Hd. lia. }
  destruct (sender_gives_up Max c Hr Hctx) as (c1 & Hrtc1 & Hi1 & Hs1).
  (* the holder of the mutex ends *)
  destruct (locked_closer_finishes Max _ c1 Hi1 Hs1 (Nat.le_refl _)) as (c2 & Hrtc2 & Hi2 & Hl2 & Hs2 & Hr2).
  { intros Hl He. by apply (inv_incloser _ Hi1 He). }
  assert (Hrtc12 : rtc (own_step Max) c c2) by by etrans.
  destruct c2 as [s2 r2 l2 p2 acc2 dr2 con2]. simpl in Hl2, Hs2, Hr2. subst l2.
  destruct r2 as [|d eos| | |pc].
  - eexists. by split.
  - pose proof (inv_senders _ Hi2) as Hse. simpl in Hse. lia.
  - pose proof (step_eos_lock Max s2 p2 acc2 dr2 con2) as Hst.
    destruct (locked_closer_finishes Max 3 _ (conc_inv_step Max _ _ _ Hi2 Hst))
      as (c3 & Hrtc3 & Hi3 & Hl3 & Hs3 & Hr3); [done | by unfold steps_left | done |].
    exists c3. split; [|done]. etrans; [done|]. eapply rtc_l; [by left | done].
  - by destruct (inv_incloser _ Hi2 eq_refl).
  - destruct (reader_closer_finishes Max _ _ pc Hi2 Hs2 eq_refl (Nat.le_refl _) eq_refl)
      as (c3 & Hrtc3 & Hi3 & Hl3 & Hr3).
    exists c3. split; [by etrans | done].
Qed.

Lemma closing_finishes_when_context_done_witness :
  exists c', rtc (own_step 8) sample_conc c' /\ c_reader c' = RIdle /\ c_locked c' = None /\
    (bs_recvClosed (c_s c') = true -> bs_msgChClosed (c_s c') = true) /\
    (bs_closed (c_s c') = true -> length (bs_done (c_s c')) = 1).
Proof.
  by apply (closing_finishes_when_context_done 8 7 sample_conc sample_conc_reachable).
Defined.

(** The server closes a stream with the mutex held and without canceling the
    context first ([closeWithSendError] calls [close]). When its reader then
    blocks in handing over a message that no handler will receive any more,
    neither the reader nor the closer can take a step: the closer waits for the
    sender, and the sender for the context that the closer would cancel. *)
Theorem server_close_deadlock (Max id : Z) (Hmax : (1 <= Max)%Z) :
  exists c, reachable_from Max id c /\ bs_ctxErr (c_s c) = None /\
    c_locked c = Some (CWait (Some (None, false))) /\
    forall c', ~ own_step Max c c'.
Proof.
  set (pkt := mkPacket [Byte.x61] true). set (m := [Byte.x61]).
  set (s2 := set_activeSenders 1 (set_msgs [m] (newWebRTCBaseStream None id))).
  set (c := mkConc (set_recvClosed true (set_closed true s2)) (RSending m false)
              (Some (CWait (Some (None, false)))) false [m; m] [] []).
  assert (Hpkt : forall s, bs_packetBuf s = [] -> processMessage Max pkt s = (s, (m, true))).
  { intros [] Hb. simpl in Hb. subst. unfold processMessage. simpl.
    by destruct (_ >? Max)%Z eqn:E; [breflect; lia|]. }
  exists c. split_and!; try done.
  - exists (conc_init id). split; [done|].
    eapply rtc_l; [exists Reader; by eapply (step_enter Max pkt false); [apply Hpkt|]|].
    eapply rtc_l; [exists Reader; eapply step_send; [done | by unfold msgCh_cap; simpl; lia]|].
    eapply rtc_l; [exists Reader; by eapply (step_enter Max pkt false); [apply Hpkt|]|].
    eapply rtc_l; [exists Closer; by apply (step_close Max None false)|].
    eapply rtc_l; [exists Closer; by eapply step_closing, close_swap_won|].
    done.
  - intros c' [H|H]; inversion H; subst; simpl in *; try done.
    match goal with Hc : close_step _ _ _ _ _ |- _ => by inversion Hc end.
Qed.

Lemma server_close_deadlock_witness :
  exists c, reachable_from 8 7 c /\ bs_ctxErr (c_s c) = None /\
    c_locked c = Some (CWait (Some (None, false))) /\ forall c', ~ own_step 8 c c'.
Proof. by apply (server_close_deadlock 8 7). Defined.
