(* ===== verification/BaseChannel.v ===== *)
(** * The base channel: [rpc/wrtc_base_channel.go]

    One WebRTC data channel that multiplexes streams: its life cycle (ready,
    closed once with the first reason), the handler of ICE connection state
    changes, and the flow-controlled [write] with the reader-writer lock that
    guards its condition variable.

    The peer connection, the data channel and protobuf are not part of the
    repository; what they answer is an argument of the operation that asks
    them, and every call to them is recorded in [bc_events]. *)

From S2P Require Import Prelude GoError BaseStream.
Local Open Scope Z_scope.

(** ** State *)

(** A sync.RWMutex: how often it is read-locked, and whether a writer waits
    for it or holds it. *)
Record rwmutex := mkRW {
  rw_readers : nat;
  rw_writerWaiting : bool;
}.

#[export] Instance rwmutex_eq_dec : EqDecision rwmutex.
Proof. solve_decision. Defined.

(** RLock: blocked behind a writer that waits. *)
Definition RLock (m : rwmutex) : option rwmutex :=
  if rw_writerWaiting m then None else Some (mkRW (S (rw_readers m)) false).

Definition RUnlock (m : rwmutex) : rwmutex := mkRW (pred (rw_readers m)) (rw_writerWaiting m).

Inductive chanEvent :=
  | EvPeerDone            (* onPeerDone() *)
  | EvICEConnected        (* onICEConnected() *)
  | EvGracefulClose       (* peerConn.GracefulClose() *)
  | EvBroadcast           (* bufferWriteCond.Broadcast() *)
  | EvSend (data : bytes) (* dataChannel.Send(data) *).

#[export] Instance chanEvent_eq_dec : EqDecision chanEvent.
Proof. solve_decision. Defined.

Record baseChannel := mkBaseChannel {
  bc_ctxErr : option goerror;
  bc_ready : bool;                  (* ch.ready is closed *)
  bc_closed : bool;
  bc_closedReason : option goerror;
  bc_bufferWriteMu : rwmutex;
  bc_connID : string;               (* connID of newBaseChannel *)
  bc_peerDoneOnce : bool;
  bc_events : list chanEvent;
}.

#[export] Instance baseChannel_eq_dec : EqDecision baseChannel.
Proof. solve_decision. Defined.

Definition bc_set_ctxErr v ch := mkBaseChannel v (bc_ready ch) (bc_closed ch) (bc_closedReason ch)
  (bc_bufferWriteMu ch) (bc_connID ch) (bc_peerDoneOnce ch) (bc_events ch).
Definition bc_set_closed r ch := mkBaseChannel (bc_ctxErr ch) (bc_ready ch) true r
  (bc_bufferWriteMu ch) (bc_connID ch) (bc_peerDoneOnce ch) (bc_events ch).
Definition bc_set_mu v ch := mkBaseChannel (bc_ctxErr ch) (bc_ready ch) (bc_closed ch)
  (bc_closedReason ch) v (bc_connID ch) (bc_peerDoneOnce ch) (bc_events ch).
Definition bc_set_connID v ch := mkBaseChannel (bc_ctxErr ch) (bc_ready ch) (bc_closed ch)
  (bc_closedReason ch) (bc_bufferWriteMu ch) v (bc_peerDoneOnce ch) (bc_events ch).
Definition bc_set_peerDoneOnce v ch := mkBaseChannel (bc_ctxErr ch) (bc_ready ch) (bc_closed ch)
  (bc_closedReason ch) (bc_bufferWriteMu ch) (bc_connID ch) v (bc_events ch).
Definition bc_emit e ch := mkBaseChannel (bc_ctxErr ch) (bc_ready ch) (bc_closed ch)
  (bc_closedReason ch) (bc_bufferWriteMu ch) (bc_connID ch) (bc_peerDoneOnce ch)
  (bc_events ch ++ [e]).

(** [ch.cancel()]. *)
Definition bc_cancel (ch : baseChannel) : baseChannel :=
  match bc_ctxErr ch with
  | Some _ => ch
  | None => bc_set_ctxErr (Some (EIs Canceled)) ch
  end.

(** ** Connection state changes *)

(** webrtc.ICEConnectionState. *)
Inductive iceState :=
  | ICENew | ICEChecking | ICEConnected | ICECompleted
  | ICEDisconnected | ICEFailed | ICEClosed | ICEUnknown.

(** The closure [doPeerDone]; [hasOnPeerDone] says whether the callback is
    given. *)
Definition doPeerDone (hasOnPeerDone : bool) (ch : baseChannel) : baseChannel :=
  let ch := bc_cancel ch in
  if negb (bc_peerDoneOnce ch) && hasOnPeerDone
  then bc_emit EvPeerDone (bc_set_peerDoneOnce true ch)
  else ch.

(** The goroutine of [connStateChanged], which runs with [ch.mu] held;
    [connInfoID] is the identifier that the peer connection's statistics give. *)
Definition connStateChanged (hasOnPeerDone hasOnICEConnected : bool) (connInfoID : string)
    (connectionState : iceState) (ch : baseChannel) : baseChannel :=
  if bc_closed ch then doPeerDone hasOnPeerDone ch
  else
    match connectionState with
    | ICEDisconnected | ICEFailed | ICEClosed =>
        if bool_decide (bc_connID ch = EmptyString) then ch
        else bc_emit EvGracefulClose (doPeerDone hasOnPeerDone ch)
    | ICEConnected =>
        let ch := if hasOnICEConnected then bc_emit EvICEConnected ch else ch in
        bc_set_connID connInfoID ch
    | ICEChecking | ICECompleted | ICENew | ICEUnknown => bc_set_connID connInfoID ch
    end.

(** [newBaseChannel]: the fields, then one call of [connStateChanged] with the
    current state. *)
Definition newBaseChannel (parentErr : option goerror) (hasOnPeerDone hasOnICEConnected : bool)
    (connInfoID : string) (current : iceState) : baseChannel :=
  connStateChanged hasOnPeerDone hasOnICEConnected connInfoID current
    (mkBaseChannel parentErr false false None (mkRW 0 false) EmptyString false []).

(** ** Closing *)

(** [closeWithReason]; [gracefulErr] is what the peer connection's
    GracefulClose returns. *)
Definition closeWithReason (err gracefulErr : option goerror) (ch : baseChannel)
    : baseChannel * option goerror :=
  if bc_closed ch then (ch, None)
  else
    let ch := bc_emit EvGracefulClose (bc_emit EvBroadcast (bc_cancel (bc_set_closed err ch))) in
    (ch, if negb (errors_Is_opt gracefulErr ErrDtlsConnClosed) then gracefulErr else None).

(** [Close] waits for the background workers after closing. *)
Definition Close (gracefulErr : option goerror) (ch : baseChannel)
    : baseChannel * option goerror :=
  closeWithReason None gracefulErr ch.

(** [Closed]. *)
Definition bc_Closed (ch : baseChannel) : bool * option goerror := (bc_closed ch, bc_closedReason ch).

(** [onChannelOpen] closes [ch.ready]; closing it again panics. *)
Definition onChannelOpen (ch : baseChannel) : outcome baseChannel :=
  if bc_ready ch then Panics
  else Returns (mkBaseChannel (bc_ctxErr ch) true (bc_closed ch) (bc_closedReason ch)
                  (bc_bufferWriteMu ch) (bc_connID ch) (bc_peerDoneOnce ch) (bc_events ch)).

(** [onChannelClose]; the error of closing is only logged. *)
Definition onChannelClose (gracefulErr : option goerror) (ch : baseChannel) : baseChannel :=
  fst (closeWithReason (Some (EIs errDataChannelClosed)) gracefulErr ch).

(** [onChannelError]. *)
Definition onChannelError `{Multierr goerror} (err : option goerror) (gracefulErr : option goerror)
    (ch : baseChannel) : baseChannel :=
  if errors_Is_opt err ErrSctpResetPacketInStateNotExist || isUserInitiatedAbortChunkErr err then ch
  else fst (closeWithReason err gracefulErr ch).

(** ** Writing *)

Definition bufferThreshold : Z := 1024 * 1024.

(** The buffered-amount-low callback: it takes the lock for writing, wakes the
    waiting writers up and releases the lock. It blocks while a reader holds
    the lock. *)
Definition onBufferedAmountLow (ch : baseChannel) : outcome baseChannel :=
  match rw_readers (bc_bufferWriteMu ch) with
  | O => Returns (bc_emit EvBroadcast (bc_set_mu (mkRW 0 false) ch))
  | n => Blocks (bc_set_mu (mkRW n true) ch)
  end.

(** What one iteration of the loop of [write] sees: the context's error and
    the data channel's buffered amount. *)
Record writeView := mkView { wv_ctxErr : option goerror; wv_buffered : Z }.

Inductive loopEnd := LoopClosed | LoopBreak | LoopWaiting.

(** The loop of [write], on what its iterations see. When they are used up the
    call sleeps in [Wait], which released the lock; waking up takes it again. *)
Fixpoint write_loop (views : list writeView) (mu : rwmutex) : rwmutex * loopEnd :=
  match views with
  | [] => (RUnlock mu, LoopWaiting)
  | v :: views' =>
      match wv_ctxErr v with
      | Some _ => (mu, LoopClosed)
      | None =>
          if wv_buffered v >=? bufferThreshold then write_loop views' mu
          else (RUnlock mu, LoopBreak)
      end
  end.

(** [write]: [marshalled] is what proto.Marshal returns for the message,
    [views] what the loop sees and [sendErr] what the data channel's Send
    returns. *)
Definition write `{Multierr goerror} (marshalled : bytes + goerror) (views : list writeView)
    (sendErr : option goerror) (ch : baseChannel) : outcome (baseChannel * option goerror) :=
  match marshalled with
  | inr e => Returns (ch, Some e)
  | inl data =>
      match RLock (bc_bufferWriteMu ch) with
      | None => Blocks (ch, None)
      | Some mu =>
          let '(mu', r) := write_loop views mu in
          let ch' := bc_set_mu mu' ch in
          match r with
          | LoopClosed => Returns (ch', Some (EIs ErrClosedPipe))
          | LoopWaiting => Blocks (ch', None)
          | LoopBreak =>
              let ch'' := bc_emit (EvSend data) ch' in
              match sendErr with
              | Some e =>
                  if str_contains (Error e) "sending payload data in non-established state"
                  then Returns (ch'', Some (EIs ErrClosedPipe))
                  else Returns (ch'', Some e)
              | None => Returns (ch'', None)
              end
          end
      end
  end.

(** ** Sequences of operations *)

(** Everything that can happen to a channel after it was made. *)
Inductive chanOp :=
  | OpStateChanged (connInfoID : string) (st : iceState)
  | OpCloseWithReason (err gracefulErr : option goerror)
  | OpChannelOpen
  | OpChannelClose (gracefulErr : option goerror)
  | OpChannelError (err gracefulErr : option goerror)
  | OpBufferedAmountLow
  | OpWrite (marshalled : bytes + goerror) (views : list writeView) (sendErr : option goerror).

(** The state in which an operation leaves the channel; a call that panics
    does not change it. *)
Definition outcome_state {A} (d : A) (o : outcome A) : A :=
  match o with Returns a | Blocks a => a | Panics => d end.

Section ChannelOps.
Context `{Multierr goerror} (hasOnPeerDone hasOnICEConnected : bool).

Definition chan_op (o : chanOp) (ch : baseChannel) : baseChannel :=
  match o with
  | OpStateChanged id st => connStateChanged hasOnPeerDone hasOnICEConnected id st ch
  | OpCloseWithReason err g => fst (closeWithReason err g ch)
  | OpChannelOpen => outcome_state ch (onChannelOpen ch)
  | OpChannelClose g => onChannelClose g ch
  | OpChannelError err g => onChannelError err g ch
  | OpBufferedAmountLow => outcome_state ch (onBufferedAmountLow ch)
  | OpWrite m views e => fst (outcome_state (ch, None) (write m views e ch))
  end.

Definition peerDoneCount (ch : baseChannel) : nat :=
  length (filter (fun e => e = EvPeerDone) (bc_events ch)).

(** A channel tells its peer-done callback at most once, and a closed
    channel's context is done. *)
Record chan_inv (ch : baseChannel) : Prop := {
  ci_done : peerDoneCount ch = if bc_peerDoneOnce ch then 1%nat else 0%nat;
  ci_ctx : bc_closed ch = true -> bc_ctxErr ch <> None;
}.

Lemma bc_cancel_spec ch :
  bc_ctxErr (bc_cancel ch) <> None /\ bc_events (bc_cancel ch) = bc_events ch /\
  bc_closed (bc_cancel ch) = bc_closed ch /\ bc_peerDoneOnce (bc_cancel ch) = bc_peerDoneOnce ch /\
  bc_closedReason (bc_cancel ch) = bc_closedReason ch /\ bc_connID (bc_cancel ch) = bc_connID ch.
Proof. unfold bc_cancel. by destruct (bc_ctxErr ch) eqn:E; simpl; rewrite ?E. Qed.

Lemma peerDone_emit ch e :
  peerDoneCount (bc_emit e ch) = (peerDoneCount ch + if bool_decide (e = EvPeerDone) then 1 else 0)%nat.
Proof.
  unfold peerDoneCount. simpl. rewrite filter_app, length_app. f_equal.
  rewrite filter_cons. case_decide; case_bool_decide; done.
Qed.

Lemma doPeerDone_inv ch : chan_inv ch -> chan_inv (doPeerDone hasOnPeerDone ch).
Proof using Type.
  intros [Hd Hc]. unfold doPeerDone. destruct (bc_cancel_spec ch) as (C1 & C2 & C3 & C4 & _).
  destruct (negb _ && _) eqn:E; constructor; simpl; try done.
  - breflect. unfold peerDoneCount in *. simpl. rewrite filter_app, length_app, C2, Hd.
    rewrite C4 in *. by match goal with E : bc_peerDoneOnce _ = false |- _ => rewrite E end.
  - by rewrite C4, <- Hd; unfold peerDoneCount; rewrite C2.
Qed.

Lemma emit_inv e ch : e <> EvPeerDone -> chan_inv ch -> chan_inv (bc_emit e ch).
Proof using Type.
  intros He [Hd Hc]. constructor; [|done].
  rewrite peerDone_emit, bool_decide_eq_false_2, Nat.add_0_r by done. done.
Qed.

Lemma closeWithReason_inv err g ch : chan_inv ch -> chan_inv (fst (closeWithReason err g ch)).
Proof using Type.
  intros Hi. unfold closeWithReason. destruct (bc_closed ch) eqn:E; [done|]. destruct Hi as [Hd Hc].
  do 2 (apply emit_inv; [done|]).
  destruct (bc_cancel_spec (bc_set_closed err ch)) as (C1 & C2 & C3 & C4 & _).
  constructor; [|done]. by rewrite C4; unfold peerDoneCount; rewrite C2.
Qed.

Lemma chan_op_inv o ch : chan_inv ch -> chan_inv (chan_op o ch).
Proof using Type.
  intros Hi. destruct o; simpl.
  - unfold connStateChanged. destruct (bc_closed ch) eqn:Hcl; [by apply doPeerDone_inv|].
    destruct st; try (by destruct Hi; constructor).
    + destruct hasOnICEConnected; [|by destruct Hi; constructor].
      destruct (emit_inv EvICEConnected ch) as [? ?]; [done | done|]. by constructor.
    + case_bool_decide; [done|]. by apply emit_inv, doPeerDone_inv.
    + case_bool_decide; [done|]. by apply emit_inv, doPeerDone_inv.
    + case_bool_decide; [done|]. by apply emit_inv, doPeerDone_inv.
  - by apply closeWithReason_inv.
  - unfold onChannelOpen. destruct Hi. by destruct (bc_ready ch); constructor.
  - by apply closeWithReason_inv.
  - unfold onChannelError. case_match; [done|]. by apply closeWithReason_inv.
  - unfold onBufferedAmountLow. destruct (rw_readers _); simpl.
    + apply emit_inv; [done|]. by destruct Hi; constructor.
    + by destruct Hi; constructor.
  - unfold write. destruct marshalled as [b|e]; [|done]. destruct (RLock _); [|done].
    destruct (write_loop _ _) as [mu' []]; simpl; [by destruct Hi; constructor| |by destruct Hi; constructor].
    assert (chan_inv (bc_emit (EvSend b) (bc_set_mu mu' ch)))
      by (apply emit_inv; [done | by destruct Hi; constructor]).
    repeat case_match; done.
Qed.

Lemma chan_op_closed o ch :
  bc_closed ch = true ->
  bc_closed (chan_op o ch) = true /\ bc_closedReason (chan_op o ch) = bc_closedReason ch.
Proof using Type.
  intros Hc. destruct o; simpl;
    unfold onChannelClose, onChannelError, closeWithReason; rewrite ?Hc; simpl; try done.
  - unfold connStateChanged, doPeerDone. rewrite Hc.
    destruct (bc_cancel_spec ch) as (_ & _ & C3 & _ & C5 & _). case_match; simpl; by rewrite C3, C5.
  - unfold onChannelOpen. by case_match.
  - by case_match.
  - unfold onBufferedAmountLow. by case_match.
  - unfold write. by repeat (case_match; simpl).
Qed.
End ChannelOps.

(** Where the loop of [write] ends, by what its iterations saw. *)
Definition over_threshold (w : writeView) : Prop :=
  wv_ctxErr w = None /\ bufferThreshold <= wv_buffered w.

Lemma write_loop_spec views mu :
  match write_loop views mu with
  | (_, LoopWaiting) => Forall over_threshold views
  | (_, e) =>
      exists pre v post, views = pre ++ v :: post /\ Forall over_threshold pre /\
        match e with
        | LoopClosed => wv_ctxErr v <> None
        | _ => wv_ctxErr v = None /\ wv_buffered v < bufferThreshold
        end
  end.
Proof.
  induction views as [|v views IH]; simpl; [done|].
  destruct (wv_ctxErr v) eqn:Ev; simpl.
  - exists [], v, views. by rewrite Ev.
  - destruct (wv_buffered v >=? bufferThreshold) eqn:Eb; breflect.
    + destruct (write_loop views mu) as [mu' []].
      1-2: destruct IH as (pre & w & post & -> & Hf & Hw); exists (v :: pre), w, post;
        (split; [done|]); (split; [by constructor | done]).
      by constructor.
    + exists [], v, views. rewrite Ev. auto.
Qed.

(** The channel of the witnesses: connected and open. *)
Definition sample_channel : baseChannel :=
  outcome_state (newBaseChannel None true true "conn" ICEConnected)
    (onChannelOpen (newBaseChannel None true true "conn" ICEConnected)).

(** ** Properties *)

(** Whatever happens to a channel after it was closed, it stays closed with
    the reason of the first closing, its context is done and stays done, and
    over its whole life the peer-done callback runs at most once. *)
Theorem channel_first_close_wins `{Multierr goerror} (hasOnPeerDone hasOnICEConnected : bool)
    (parentErr : option goerror) (connID : string) (st : iceState) (before after : list chanOp)
    (err gracefulErr : option goerror) :
  let ch0 := newBaseChannel parentErr hasOnPeerDone hasOnICEConnected connID st in
  let run := run_ops (chan_op hasOnPeerDone hasOnICEConnected) in
  let ch1 := run before ch0 in
  let ch2 := run after (fst (closeWithReason err gracefulErr ch1)) in
  bc_closed ch2 = true /\
  bc_closedReason ch2 = (if bc_closed ch1 then bc_closedReason ch1 else err) /\
  bc_ctxErr ch2 <> None /\
  (peerDoneCount ch2 <= 1)%nat.
Proof.
  intros ch0 run ch1 ch2.
  assert (Hi0 : chan_inv ch0) by (apply (chan_op_inv _ _ (OpStateChanged connID st)); by constructor).
  assert (Hi2 : chan_inv ch2).
  { apply run_ops_invariant; [apply chan_op_inv|]. apply closeWithReason_inv.
    apply run_ops_invariant; [apply chan_op_inv | done]. }
  set (chc := fst (closeWithReason err gracefulErr ch1)).
  assert (Hc : bc_closed chc = true /\
               bc_closedReason chc = if bc_closed ch1 then bc_closedReason ch1 else err).
  { unfold chc, closeWithReason. destruct (bc_closed ch1) eqn:E; simpl; [done|].
    by destruct (bc_cancel_spec (bc_set_closed err ch1)) as (_ & _ & -> & _ & -> & _). }
  assert (Hsticky : bc_closed ch2 = true /\ bc_closedReason ch2 = bc_closedReason chc).
  { apply (run_ops_invariant _ (fun ch => bc_closed ch = true /\ bc_closedReason ch = bc_closedReason chc)).
    - intros o ch [Ha Hb]. destruct (chan_op_closed hasOnPeerDone hasOnICEConnected o ch Ha). by rewrite <- Hb.
    - by destruct Hc. }
  destruct Hsticky as [Hs1 Hs2]. split_and!; [done | by rewrite Hs2; destruct Hc | by apply Hi2|].
  rewrite (ci_done _ Hi2). destruct (bc_peerDoneOnce ch2); lia.
Qed.

(** [write] hands the data to the data channel only when the context was not
    done and the buffered amount was below the threshold; a done context gives
    io.ErrClosedPipe without sending. *)
Theorem write_flow_control `{Multierr goerror} (data : bytes) (views : list writeView)
    (sendErr : option goerror) (ch : baseChannel)
    (Hlock : rw_writerWaiting (bc_bufferWriteMu ch) = false) :
  match write (inl data) views sendErr ch with
  | Returns (ch', r) =>
      (exists pre v post, views = pre ++ v :: post /\
         Forall over_threshold pre /\
         ((wv_ctxErr v <> None /\ r = Some (EIs ErrClosedPipe) /\ bc_events ch' = bc_events ch) \/
          (wv_ctxErr v = None /\ wv_buffered v < bufferThreshold /\
           bc_events ch' = bc_events ch ++ [EvSend data])))
  | Blocks (ch', _) =>
      bc_events ch' = bc_events ch /\
      Forall over_threshold views
  | Panics => False
  end.
Proof.
  pose proof (write_loop_spec views (mkRW (S (rw_readers (bc_bufferWriteMu ch))) false)) as Hloop.
  unfold write, RLock. rewrite Hlock.
  destruct (write_loop _ _) as [mu' []].
  - destruct Hloop as (pre & v & post & -> & Hf & Hv). exists pre, v, post. auto 10.
  - destruct Hloop as (pre & v & post & -> & Hf & Hv & Hb).
    destruct sendErr as [e|]; [destruct (str_contains _ _)|]; exists pre, v, post; auto 10.
  - done.
Qed.

Section W_write_flow_control_witness.
Import SimpleErrors.
Lemma write_flow_control_witness :
  match write (inl [Byte.x61]) [mkView None bufferThreshold; mkView None 3] None sample_channel with
  | Returns (ch', r) =>
      (exists pre v post,
         [mkView None bufferThreshold; mkView None 3] = pre ++ v :: post /\
         Forall over_threshold pre /\
         ((wv_ctxErr v <> None /\ r = Some (EIs ErrClosedPipe) /\
           bc_events ch' = bc_events sample_channel) \/
          (wv_ctxErr v = None /\ wv_buffered v < bufferThreshold /\
           bc_events ch' = bc_events sample_channel ++ [EvSend [Byte.x61]])))
  | Blocks (ch', _) =>
      bc_events ch' = bc_events sample_channel /\
      Forall over_threshold [mkView None bufferThreshold; mkView None 3]
  | Panics => False
  end.
Proof.
  by apply (write_flow_control [Byte.x61] [mkView None bufferThreshold; mkView None 3] None
              sample_channel).
Defined.
End W_write_flow_control_witness.

(** A [write] that finds the context done returns with the lock of the
    condition variable still read-locked: the next buffered-amount-low callback
    blocks for ever, and once it waits, later writes block instead of
    returning io.ErrClosedPipe. *)
Theorem write_after_cancel_leaks_lock `{Multierr goerror} (data : bytes) (e : goerror) (b : Z)
    (views : list writeView) (sendErr : option goerror) (ch : baseChannel)
    (Hlock : rw_writerWaiting (bc_bufferWriteMu ch) = false) :
  exists ch1, write (inl data) (mkView (Some e) b :: views) sendErr ch
              = Returns (ch1, Some (EIs ErrClosedPipe)) /\
    rw_readers (bc_bufferWriteMu ch1) = S (rw_readers (bc_bufferWriteMu ch)) /\
    exists ch2, onBufferedAmountLow ch1 = Blocks ch2 /\
      forall data' views' sendErr', write (inl data') views' sendErr' ch2 = Blocks (ch2, None).
Proof.
  unfold write, RLock. rewrite Hlock. simpl. eexists. split; [done|]. split; [done|].
  unfold onBufferedAmountLow. simpl. eexists. split; [done|]. done.
Qed.

Section W_write_after_cancel_leaks_lock_witness.
Import SimpleErrors.
Lemma write_after_cancel_leaks_lock_witness :
  exists ch1, write (inl []) [mkView (Some (EIs Canceled)) 0] None sample_channel
              = Returns (ch1, Some (EIs ErrClosedPipe)) /\
    rw_readers (bc_bufferWriteMu ch1) = 1%nat /\
    exists ch2, onBufferedAmountLow ch1 = Blocks ch2 /\
      forall data' views' sendErr', write (inl data') views' sendErr' ch2 = Blocks (ch2, None).
Proof.
  by apply (write_after_cancel_leaks_lock [] (EIs Canceled) 0 [] None sample_channel).
Defined.
End W_write_after_cancel_leaks_lock_witness.
