(* ===== verification/ClientStream.v ===== *)
(** * The client stream: [rpc/wrtc_client_stream.go]

    The gRPC client stream over a data channel: writing headers, messages in
    packets and resets; and the state machine that consumes the server's
    responses (headers once, then messages, then trailers).

    The base channel's [write] is seen through a [link]: the results that its
    next calls return, and the requests that were sent. protobuf is the
    argument [marshal]. *)

From S2P Require Import Prelude GoError BaseStream.
Local Open Scope go_scope.

(** ** Wire messages *)

(** webrtcpb.RequestHeaders; the timeout is a duration in nanoseconds. *)
Record requestHeaders := mkRequestHeaders {
  rh_method : string;
  rh_metadata : option MD;
  rh_timeout : Z;
}.

(** webrtcpb.Request: its stream and its oneof. *)
Inductive request :=
  | ReqHeaders (id : Z) (headers : requestHeaders)
  | ReqMessage (id : Z) (hasMessage : bool) (packet : option packetMessage) (eos : bool)
  | ReqRstStream (id : Z)
  | ReqUnknown (id : Z).

(** webrtcpb.Response without its stream. *)
Inductive response :=
  | RespHeaders (md : option MD)
  | RespMessage (packet : option packetMessage)
  | RespTrailers (st : status) (md : option MD)
  | RespUnknown.

(** ** The link to the base channel *)

Record link (A : Type) := mkLink {
  lk_results : list (option goerror);  (* of the next writes; success when used up *)
  lk_sent : list A;
}.
Arguments mkLink {A} _ _.
Arguments lk_results {A} _.
Arguments lk_sent {A} _.

Definition link_write {A} (m : A) (lk : link A) : link A * option goerror :=
  match lk_results lk with
  | [] => (mkLink [] (lk_sent lk ++ [m]), None)
  | None :: rs => (mkLink rs (lk_sent lk ++ [m]), None)
  | Some e :: rs => (mkLink rs (lk_sent lk), Some e)
  end.

(** ** State *)

Record clientStream := mkClientStream {
  cs_base : baseStream;
  cs_headers : MD;
  cs_trailers : MD;
  cs_userCtx : option MD;        (* the incoming metadata of userCtx *)
  cs_headersReceived : bool;     (* the channel headersReceived is closed *)
  cs_trailersReceived : bool;
  cs_sendClosed : bool;
}.

Definition cs_set_base b s := mkClientStream b (cs_headers s) (cs_trailers s) (cs_userCtx s)
  (cs_headersReceived s) (cs_trailersReceived s) (cs_sendClosed s).
Definition cs_set_sendClosed v s := mkClientStream (cs_base s) (cs_headers s) (cs_trailers s)
  (cs_userCtx s) (cs_headersReceived s) (cs_trailersReceived s) v.

(** [newWebRTCClientStream]: the merged context is done when the channel's or
    the caller's is. *)
Definition newWebRTCClientStream (channelCtxErr callerCtxErr : option goerror) (id : Z)
    : clientStream :=
  let ctxErr := match channelCtxErr, callerCtxErr with
                | Some e, _ => Some e
                | None, Some _ => Some (EIs Canceled)
                | None, None => None
                end in
  mkClientStream (newWebRTCBaseStream ctxErr id) None None None false false false.

(** Run an operation of the base stream inside the client stream. *)
Definition lift_base (f : baseStream -> outcome baseStream) (s : clientStream)
    : outcome clientStream :=
  match f (cs_base s) with
  | Returns b => Returns (cs_set_base b s)
  | Blocks b => Blocks (cs_set_base b s)
  | Panics => Panics
  end.

(** ** Writing *)

Section Writing.
Context {Msg : Type} (marshal : Msg -> bytes + goerror) (maxRequestMessagePacketDataSize : nat).

(** The deferred [closeWithError] of the writing operations. *)
Definition close_on_write_error (err : option goerror) (s : clientStream) (lk : link request)
    : outcome (clientStream * link request * option goerror) :=
  match checkWriteErrForStreamClose err with
  | None => Returns (s, lk, err)
  | Some e =>
      match lift_base (closeWithError (Some e) false) s with
      | Returns s' => Returns (s', lk, err)
      | Blocks s' => Blocks (s', lk, err)
      | Panics => Panics
      end
  end.

(** [writeHeaders]. *)
Definition writeHeaders (headers : requestHeaders) (s : clientStream) (lk : link request)
    : outcome (clientStream * link request * option goerror) :=
  let '(lk', err) := link_write (ReqHeaders (bs_id (cs_base s)) headers) lk in
  close_on_write_error err s lk'.

(** The body of [writeMessage], without its locking and its deferred call. *)
Definition writeMessage_body (m : option Msg) (eos : bool) (id : Z) (lk : link request)
    : link request * option goerror :=
  let hasMessage := match m with Some _ => true | None => false end in
  let write_packet packet lk := link_write (ReqMessage id hasMessage (Some packet) eos) lk in
  match (match m with Some m => marshal m | None => inl [] end) with
  | inr e => (lk, Some e)
  | inl data =>
      if (len data =? 0)%Z then write_packet (mkPacket [] true) lk
      else write_packets (length data) maxRequestMessagePacketDataSize write_packet data lk
  end.

(** [writeMessage]. *)
Definition writeMessage (m : option Msg) (eos : bool) (s : clientStream) (lk : link request)
    : outcome (clientStream * link request * option goerror) :=
  if cs_sendClosed s then Returns (s, lk, Some (EIs ErrClosedPipe))
  else
    let s1 := if eos then cs_set_sendClosed true s else s in
    let '(lk', err) := writeMessage_body m eos (bs_id (cs_base s)) lk in
    close_on_write_error err s1 lk'.

(** [SendMsg] and [CloseSend]. *)
Definition SendMsg (m : Msg) := writeMessage (Some m) false.
Definition CloseSend := writeMessage None true.
End Writing.

(** [resetStream]: always sends a reset, then always closes. *)
Definition resetStream (s : clientStream) (lk : link request)
    : outcome (clientStream * link request * option goerror) :=
  let s1 := cs_set_sendClosed true s in
  let '(lk', err) := link_write (ReqRstStream (bs_id (cs_base s))) lk in
  match lift_base (closeWithError (checkWriteErrForStreamClose err) false) s1 with
  | Returns s' => Returns (s', lk', err)
  | Blocks s' => Blocks (s', lk', err)
  | Panics => Panics
  end.

(** The goroutine that [newWebRTCClientStream] starts, when the context is
    done. *)
Definition on_context_done (s : clientStream) (lk : link request)
    : outcome (clientStream * link request * option goerror) :=
  if Closed (cs_base s) then Returns (s, lk, None) else resetStream s lk.

(** [Close]: cancel, then close. *)
Definition cs_Close (s : clientStream) : outcome clientStream :=
  lift_base (fun b => close (cancel_ctx b)) s.

(** [Header]: the headers, or the context's error when it is done first. *)
Definition Header (s : clientStream) : outcome (MD * option goerror) :=
  if cs_headersReceived s then Returns (cs_headers s, None)
  else match bs_ctxErr (cs_base s) with
       | Some e => Returns (None, Some e)
       | None => Blocks (None, None)
       end.

(** [Trailer]. *)
Definition Trailer (s : clientStream) : MD := cs_trailers s.

(** ** Responses *)

(** [processHeaders]; closing [headersReceived] twice would panic. *)
Definition cs_processHeaders (md : option MD) (s : clientStream) : outcome clientStream :=
  if cs_headersReceived s then Panics
  else
    let h := metadataFromProto md in
    Returns (mkClientStream (cs_base s) h (cs_trailers s) (Some h) true
               (cs_trailersReceived s) (cs_sendClosed s)).

(** [processMessage]: a packet message that is absent is a nil dereference. *)
Definition cs_processMessage (MaxMessageSize : Z) (preferCtx : bool)
    (packet : option packetMessage) (s : clientStream) : outcome clientStream :=
  if cs_trailersReceived s then Returns s
  else
    match packet with
    | None => Panics
    | Some p =>
        let '(b1, (data, eop)) := processMessage MaxMessageSize p (cs_base s) in
        if negb eop then Returns (cs_set_base b1 s)
        else
          match enter_sender b1 with
          | None => Returns (cs_set_base b1 s)
          | Some b2 => lift_base (deliver preferCtx data) (cs_set_base b2 s)
          end
    end.

(** [processTrailers]. *)
Definition cs_processTrailers (st : status) (md : option MD) (s : clientStream)
    : outcome clientStream :=
  let trailers := match md with
                  | Some _ => metadataFromProto md
                  | None => cs_trailers s
                  end in
  lift_base (closeFromTrailers (status_Err st))
    (mkClientStream (cs_base s) (cs_headers s) trailers (cs_userCtx s)
       (cs_headersReceived s) true (cs_sendClosed s)).

(** [onResponse]. *)
Definition onResponse (MaxMessageSize : Z) (preferCtx : bool) (resp : response)
    (s : clientStream) : outcome clientStream :=
  let fail msg := lift_base (closeWithError (Some (ENew msg)) false) s in
  match resp with
  | RespHeaders md =>
      if cs_headersReceived s then fail "headers already received"
      else if cs_trailersReceived s then fail "headers received after trailers"
      else cs_processHeaders md s
  | RespMessage packet =>
      if negb (cs_headersReceived s) then fail "headers not yet received"
      else if cs_trailersReceived s then fail "message received after trailers"
      else cs_processMessage MaxMessageSize preferCtx packet s
  | RespTrailers st md => cs_processTrailers st md s
  | RespUnknown => Returns s
  end%string.

(** ** What is written *)

(** The requests of one message when every write succeeds. *)
Definition message_requests (id : Z) (maxPacket : nat) (hasMessage eos : bool) (data : bytes)
    : list request :=
  map (fun p => ReqMessage id hasMessage (Some p) eos) (message_packets maxPacket data).

Lemma link_write_ok {A} (m : A) lk :
  Forall (fun r => r = None) (lk_results lk) ->
  exists lk', link_write m lk = (lk', None) /\ lk_sent lk' = lk_sent lk ++ [m] /\
    Forall (fun r => r = None) (lk_results lk').
Proof.
  intros H. unfold link_write. destruct lk as [[|[e|] rs] sent]; simpl in *;
    try apply Forall_cons in H as [? ?]; try done; eauto.
Qed.

Lemma write_all_link_ok {A} (f : packetMessage -> A) ps lk :
  Forall (fun r => r = None) (lk_results lk) ->
  exists lk', write_all (fun p lk => link_write (f p) lk) ps lk = (lk', None) /\
    lk_sent lk' = lk_sent lk ++ map f ps /\ Forall (fun r => r = None) (lk_results lk').
Proof.
  revert lk. induction ps as [|p ps IH]; intros lk H; simpl.
  { exists lk. by rewrite app_nil_r. }
  destruct (link_write_ok (f p) lk H) as (lk1 & -> & Hs & H1).
  destruct (IH lk1 H1) as (lk2 & -> & Hs2 & H2). exists lk2.
  by rewrite Hs2, Hs, <- app_assoc.
Qed.

Lemma link_write_sent {A} (m : A) lk lk' r :
  link_write m lk = (lk', r) ->
  lk_sent lk' = lk_sent lk ++ match r with None => [m] | Some _ => [] end.
Proof.
  unfold link_write. destruct lk as [[|[e|] rs] sent]; simpl; intros [= <- <-]; simpl; try done.
  by rewrite app_nil_r.
Qed.

(** Whatever the writes return, what is sent is a prefix of the packets. *)
Lemma write_all_link_prefix {A} (f : packetMessage -> A) ps lk lk' r :
  write_all (fun p lk => link_write (f p) lk) ps lk = (lk', r) ->
  exists n, lk_sent lk' = lk_sent lk ++ map f (take n ps).
Proof.
  revert lk. induction ps as [|p ps IH]; intros lk; cbn [write_all].
  { intros [= <- <-]. exists 0. by rewrite app_nil_r. }
  destruct (link_write (f p) lk) as [lk1 [e|]] eqn:E; apply link_write_sent in E.
  - intros [= <- <-]. exists 0. by rewrite E.
  - intros [n Hn]%IH. exists (S n). by rewrite Hn, E, <- app_assoc.
Qed.

Section WritingProofs.
Context {Msg : Type} (marshal : Msg -> bytes + goerror) (maxPacket : nat)
  (HmaxPacket : 0 < maxPacket).

Lemma writeMessage_body_packets m eos id lk data :
  (match m with Some m => marshal m | None => inl [] end) = inl data ->
  writeMessage_body marshal maxPacket m eos id lk =
  write_all (fun p lk => link_write (ReqMessage id (bool_decide (is_Some m)) (Some p) eos) lk)
    (message_packets maxPacket data) lk.
Proof using HmaxPacket.
  intros Hm. unfold writeMessage_body. rewrite Hm.
  replace (bool_decide (is_Some m)) with (match m with Some _ => true | None => false end)
    by by destruct m.
  destruct (len data =? 0)%Z eqn:E; breflect.
  - destruct data; [|simpl in E; lia]. cbn. by destruct (link_write _ _) as [? [?|]].
  - rewrite write_packets_spec by done. rewrite message_packets_nonempty; [done|].
    intros ->. simpl in E. lia.
Qed.
End WritingProofs.

(** ** A conversation *)

(** The user of the stream takes what there is to take. *)
Definition drain (s : clientStream) : clientStream * list recvResult :=
  match bs_msgs (cs_base s) with
  | [] => (s, [])
  | _ =>
      match RecvMsg false (cs_base s) with
      | Returns (b, r) => (cs_set_base b s, [r])
      | _ => (s, [])
      end
  end.

(** Responses one after the other, the user receiving in between. [None] when
    a response blocks or panics. *)
Fixpoint pump (MaxMessageSize : Z) (resps : list response) (s : clientStream)
    : option (clientStream * list recvResult) :=
  match resps with
  | [] => Some (s, [])
  | r :: resps' =>
      match onResponse MaxMessageSize false r s with
      | Returns s1 =>
          let '(s2, out) := drain s1 in
          match pump MaxMessageSize resps' s2 with
          | Some (s3, out') => Some (s3, out ++ out')
          | None => None
          end
      | _ => None
      end
  end.

(** A stream in the middle of a call: headers seen, nothing closed, nothing
    waiting to be received. *)
Record receiving (s : clientStream) : Prop := {
  rc_headers : cs_headersReceived s = true;
  rc_trailers : cs_trailersReceived s = false;
  rc_ctx : bs_ctxErr (cs_base s) = None;
  rc_msgs : bs_msgs (cs_base s) = [];
  rc_open : bs_recvClosed (cs_base s) = false;
  rc_ch : bs_msgChClosed (cs_base s) = false;
  rc_senders : bs_activeSenders (cs_base s) = 0;
  rc_notclosed : bs_closed (cs_base s) = false;
}.

Lemma receiving_buf s b : receiving s -> receiving (cs_set_base (set_packetBuf b (cs_base s)) s).
Proof. intros []; by constructor. Qed.

Lemma pump_packet Max p s b' d eop :
  receiving s -> processMessage Max p (cs_base s) = (b', (d, eop)) ->
  exists s1, onResponse Max false (RespMessage (Some p)) s = Returns s1 /\
    drain s1 = (cs_set_base b' s, if eop then [RecvBytes d] else []) /\
    receiving (cs_set_base b' s).
Proof.
  intros Hr Hp. assert (Hr' : receiving (cs_set_base b' s)).
  { unfold processMessage in Hp. destruct Hr, s as [[] ? ? ? ? ? ?]; simpl in *.
    split_match_in Hp; simplify_eq; by constructor. }
  destruct Hr' as [H1 H2 H3 H4 H5 H6 H7 H8], Hr. simpl in *. unfold onResponse.
  rewrite rc_headers0, rc_trailers0. simpl. unfold cs_processMessage.
  rewrite rc_trailers0, Hp. destruct eop; simpl.
  - unfold enter_sender, lift_base, deliver. rewrite H5. simpl. rewrite H3, H6, H4. simpl.
    eexists. split; [done|]. split; [|by constructor].
    unfold drain. simpl. unfold RecvMsg. simpl. rewrite H3. simpl. rewrite orb_true_r. simpl.
    destruct b'; simpl in *. by subst.
  - eexists. split; [done|]. split; [|by constructor]. unfold drain. simpl. by rewrite H4.
Qed.

Lemma pump_feed Max ps s :
  receiving s ->
  let '(b', out) := feed Max ps (cs_base s) in
  pump Max (map (fun p => RespMessage (Some p)) ps) s = Some (cs_set_base b' s, map RecvBytes out) /\
  receiving (cs_set_base b' s).
Proof.
  revert s. induction ps as [|p ps IH]; intros s Hr; simpl.
  { destruct s. done. }
  destruct (processMessage Max p (cs_base s)) as [b1 [d eop]] eqn:Hp.
  destruct (pump_packet Max p s b1 d eop Hr Hp) as (s1 & Ho & Hd & Hr1).
  specialize (IH _ Hr1). simpl in IH. destruct (feed Max ps b1) as [b2 out].
  destruct IH as [IH1 IH2]. simpl in Ho. rewrite Ho, Hd, IH1. split; [|done].
  by destruct eop.
Qed.

Lemma pump_app Max r1 r2 s :
  pump Max (r1 ++ r2) s =
  match pump Max r1 s with
  | Some (s1, out1) =>
      match pump Max r2 s1 with
      | Some (s2, out2) => Some (s2, out1 ++ out2)
      | None => None
      end
  | None => None
  end.
Proof.
  revert s. induction r1 as [|r r1 IH]; intros s; simpl.
  { destruct (pump Max r2 s) as [[]|]; done. }
  destruct (onResponse Max false r s) as [s1|s1|]; try done.
  destruct (drain s1) as [s2 o]. rewrite IH.
  destruct (pump Max r1 s2) as [[s3 o3]|]; [|done].
  destruct (pump Max r2 s3) as [[s4 o4]|]; [|done]. by rewrite app_assoc.
Qed.

(** What a server writes for one call: headers, the packets of its messages,
    trailers. *)
Definition conversation (maxPacket : nat) (hdr : option MD) (msgs : list bytes) (st : status)
    (tr : option MD) : list response :=
  RespHeaders hdr ::
  flat_map (fun m => map (fun p => RespMessage (Some p)) (message_packets maxPacket m)) msgs ++
  [RespTrailers st tr].

Lemma pump_messages Max maxPacket msgs s :
  0 < maxPacket -> Forall (fun m : bytes => (len m <= Max)%Z) msgs ->
  receiving s -> bs_packetBuf (cs_base s) = [] ->
  pump Max (flat_map (fun m => map (fun p => RespMessage (Some p)) (message_packets maxPacket m)) msgs) s
  = Some (s, map RecvBytes msgs).
Proof.
  intros Hpos Hall Hr Hb. induction Hall as [|m msgs Hm Hall IH]; simpl; [done|].
  rewrite pump_app. pose proof (pump_feed Max (message_packets maxPacket m) s Hr) as Hf.
  rewrite feed_message in Hf by done. destruct Hf as [-> _].
  replace (cs_set_base (cs_base s) s) with s by by destruct s. by rewrite IH.
Qed.

(** What RecvMsg reports at the end of a call with the given status. *)
Definition final_error (st : status) : goerror :=
  match status_Err st with None => EIs EOF | Some e => e end.

Lemma status_Err_not_internal st e :
  status_Err st = Some e -> errors_Is e errExpectedClosure = false.
Proof. destruct st as [[[] m]|]; simpl; intros; by simplify_eq. Qed.

(** ** Sequences of operations on the sending side *)

Inductive sendOp (Msg : Type) :=
  | OSendMsg (m : Msg)
  | OCloseSend
  | OResetStream
  | OContextDone
  | OClose
  | OResponse (preferCtx : bool) (r : response).
Arguments OSendMsg {Msg} m.
Arguments OCloseSend {Msg}.
Arguments OResetStream {Msg}.
Arguments OContextDone {Msg}.
Arguments OClose {Msg}.
Arguments OResponse {Msg} preferCtx r.

Section SendOps.
Context {Msg : Type} (marshal : Msg -> bytes + goerror) (maxPacket : nat) (MaxMessageSize : Z).

(** The stream and the link after an operation, blocked or not; a panic
    changes nothing. *)
Definition send_op (o : sendOp Msg) (st : clientStream * link request)
    : clientStream * link request :=
  let '(s, lk) := st in
  let keep (r : outcome (clientStream * link request * option goerror)) :=
    match r with Returns (s', lk', _) | Blocks (s', lk', _) => (s', lk') | Panics => st end in
  let keep1 (r : outcome clientStream) :=
    match r with Returns s' | Blocks s' => (s', lk) | Panics => st end in
  match o with
  | OSendMsg m => keep (SendMsg marshal maxPacket m s lk)
  | OCloseSend => keep (CloseSend marshal maxPacket s lk)
  | OResetStream => keep (resetStream s lk)
  | OContextDone => keep (on_context_done s lk)
  | OClose => keep1 (cs_Close s)
  | OResponse pc r => keep1 (onResponse MaxMessageSize pc r s)
  end.

Definition is_rst (r : request) : Prop := match r with ReqRstStream _ => True | _ => False end.

Lemma lift_base_sendClosed f s s' :
  (lift_base f s = Returns s' \/ lift_base f s = Blocks s') -> cs_sendClosed s' = cs_sendClosed s.
Proof.
  unfold lift_base. destruct (f (cs_base s)); intros [H|H]; simplify_eq; done.
Qed.

Lemma reset_op_spec s lk :
  let '(s', lk') := send_op OResetStream (s, lk) in
  resetStream s lk <> Panics ->
  cs_sendClosed s' = true /\ exists extra, lk_sent lk' = lk_sent lk ++ extra /\ Forall is_rst extra.
Proof using Type.
  simpl. unfold resetStream. destruct (link_write _ lk) as [lk1 err] eqn:E.
  apply link_write_sent in E.
  destruct (lift_base _ _) as [s'|s'|] eqn:El; [| |done]; intros _; split; eauto;
    try (rewrite (lift_base_sendClosed _ _ s' ltac:(eauto)); done);
    eexists; (split; [exact E|]); destruct err; repeat constructor.
Qed.

Lemma send_op_closed o s lk :
  cs_sendClosed s = true ->
  let '(s', lk') := send_op o (s, lk) in
  cs_sendClosed s' = true /\ exists extra, lk_sent lk' = lk_sent lk ++ extra /\ Forall is_rst extra.
Proof using Type.
  intros Hc.
  assert (Hsame : cs_sendClosed s = true /\
                  exists extra, lk_sent lk = lk_sent lk ++ extra /\ Forall is_rst extra).
  { split; [done|]. exists []. by rewrite app_nil_r. }
  assert (Hreset : let '(s', lk') := send_op OResetStream (s, lk) in
    cs_sendClosed s' = true /\ exists extra, lk_sent lk' = lk_sent lk ++ extra /\ Forall is_rst extra).
  { pose proof (reset_op_spec s lk) as Hr. simpl in *.
    by destruct (resetStream s lk) as [[[??]?]|[[??]?]|]; try done; apply Hr. }
  destruct o as [m| | | | |pc r]; [| |done| | |]; simpl.
  - unfold SendMsg, writeMessage. by rewrite Hc.
  - unfold CloseSend, writeMessage. by rewrite Hc.
  - unfold on_context_done. by destruct (Closed _).
  - unfold cs_Close. destruct (lift_base _ s) as [s'|s'|] eqn:El; [| |done];
      (split; [rewrite (lift_base_sendClosed _ _ s' ltac:(eauto)); done | apply Hsame]).
  - assert (Hr : forall s', onResponse MaxMessageSize pc r s = Returns s' \/
                      onResponse MaxMessageSize pc r s = Blocks s' -> cs_sendClosed s' = cs_sendClosed s).
    { intros s'. unfold onResponse, cs_processHeaders, cs_processMessage, cs_processTrailers.
      repeat case_match; simplify_eq; intros Hl;
        try (by destruct Hl; simplify_eq); by rewrite (lift_base_sendClosed _ _ _ Hl). }
    destruct (onResponse _ _ _ _) as [s'|s'|] eqn:El; [| |done];
      (split; [rewrite Hr by eauto; done | apply Hsame]).
Qed.
End SendOps.

(** ** Properties *)

(** A stream that has not received anything yet, whether or not it has finished
    sending, receives a whole conversation. *)
Lemma conversation_received (maxPacket : nat) (MaxMessageSize : Z) (id : Z) (sendClosed : bool)
    (hdr tr : option MD) (msgs : list bytes) (st : status) (preferCtx : bool) :
  0 < maxPacket -> Forall (fun m : bytes => (len m <= MaxMessageSize)%Z) msgs ->
  exists s',
    pump MaxMessageSize (conversation maxPacket hdr msgs st tr) (cs_set_sendClosed sendClosed (newWebRTCClientStream None None id))
    = Some (s', map RecvBytes msgs) /\
    RecvMsg preferCtx (cs_base s') = Returns (cs_base s', RecvErr (Some (final_error st))) /\
    Header s' = Returns (metadataFromProto hdr, None) /\
    Trailer s' = metadataFromProto tr /\
    bs_done (cs_base s') = [id] /\ bs_id (cs_base s') = id.
Proof.
  intros Hpos Hall. unfold conversation. cbn [pump onResponse newWebRTCClientStream cs_set_sendClosed cs_headersReceived
    cs_trailersReceived cs_processHeaders cs_base cs_headers cs_trailers cs_userCtx].
  set (s1 := mkClientStream _ _ _ _ _ _ _).
  replace (drain s1) with (s1, @nil recvResult) by done.
  rewrite pump_app, pump_messages by (done || by constructor).
  cbn [pump onResponse]. unfold cs_processTrailers, closeFromTrailers, lift_base.
  destruct (status_Err st) as [e|] eqn:Est; simpl; eexists; (split; [by rewrite !app_nil_r|]);
    (split; [|split; [done | split; [by destruct tr | done]]]);
    unfold RecvMsg, final_error, checkLastOrErr; rewrite Est; simpl; destruct preferCtx; simpl.
  - by rewrite (status_Err_not_internal st e).
  - by rewrite (status_Err_not_internal st e).
  - done.
  - done.
Qed.

(** C12: When a server writes headers, messages of admissible size and trailers,
    a client that receives as they come gets exactly those messages in order
    and then the status of the trailers (io.EOF for OK), its headers and
    trailers are the server's, and the stream is done once. *)
Theorem client_receives_conversation (maxPacket : nat) (MaxMessageSize : Z) (id : Z)
    (hdr tr : option MD) (msgs : list bytes) (st : status) (preferCtx : bool)
    (Hpos : 0 < maxPacket) (Hall : Forall (fun m : bytes => (len m <= MaxMessageSize)%Z) msgs) :
  exists s',
    pump MaxMessageSize (conversation maxPacket hdr msgs st tr) (newWebRTCClientStream None None id)
    = Some (s', map RecvBytes msgs) /\
    RecvMsg preferCtx (cs_base s') = Returns (cs_base s', RecvErr (Some (final_error st))) /\
    Header s' = Returns (metadataFromProto hdr, None) /\
    Trailer s' = metadataFromProto tr /\
    bs_done (cs_base s') = [id].
Proof.
  destruct (conversation_received maxPacket MaxMessageSize id false hdr tr msgs st preferCtx Hpos Hall)
    as (s' & H1 & H2 & H3 & H4 & H5 & _). by exists s'.
Qed.

Lemma client_receives_conversation_witness :
  exists s',
    pump 10 (conversation 2 None [[Byte.x61; Byte.x62; Byte.x63]; []] None None)
      (newWebRTCClientStream None None 1)
    = Some (s', [RecvBytes [Byte.x61; Byte.x62; Byte.x63]; RecvBytes []]) /\
    RecvMsg true (cs_base s') = Returns (cs_base s', RecvErr (Some (EIs EOF))) /\
    Header s' = Returns (None, None) /\ Trailer s' = None /\ bs_done (cs_base s') = [1%Z].
Proof.
  apply (client_receives_conversation 2 10 1 None None
           [[Byte.x61; Byte.x62; Byte.x63]; []] None true); [lia|].
  repeat constructor; simpl; lia.
Defined.

Lemma lift_base_no_panic f s : f (cs_base s) <> Panics -> lift_base f s <> Panics.
Proof. unfold lift_base. by destruct (f (cs_base s)). Qed.

(** A stream whose message channel is closed only with the receiving side
    survives every response except one: a message response without a packet,
    between headers and trailers, is a nil dereference. *)
Theorem client_response_panics_iff (MaxMessageSize : Z) (preferCtx : bool) (resp : response)
    (s : clientStream) (Hok : ch_ok (cs_base s)) :
  onResponse MaxMessageSize preferCtx resp s = Panics <->
  resp = RespMessage None /\ cs_headersReceived s = true /\ cs_trailersReceived s = false.
Proof.
  assert (Hfail : forall err x, lift_base (closeWithError err x) s <> Panics)
    by (intros; apply lift_base_no_panic; auto with goutils).
  split.
  2: { intros (-> & H1 & H2). simpl. rewrite H1, H2. simpl. unfold cs_processMessage. by rewrite H2. }
  destruct resp as [md|p|st md|]; simpl; [| | |done].
  - unfold cs_processHeaders. destruct (cs_headersReceived s), (cs_trailersReceived s); simpl;
      try (by intros ?%Hfail); done.
  - unfold cs_processMessage.
    destruct (cs_headersReceived s), (cs_trailersReceived s); simpl; try (by intros ?%Hfail).
    destruct p as [p|]; [|done].
    destruct (processMessage _ p _) as [b1 [d [|]]] eqn:Hp; simpl; [|done].
    destruct (enter_sender b1) as [b2|] eqn:He; [|done].
    intros Hd. exfalso. revert Hd. apply lift_base_no_panic. simpl. eauto with goutils.
  - intros Hd. exfalso. revert Hd. apply lift_base_no_panic. simpl. unfold closeFromTrailers.
    auto with goutils.
Qed.

Lemma client_response_panics_iff_witness :
  onResponse 100 false (RespMessage None)
    (mkClientStream (newWebRTCBaseStream None 3) None None None true false false) = Panics.
Proof. apply client_response_panics_iff; [done|]. split_and!; reflexivity. Defined.

(** After the sending side was closed, by CloseSend or by a reset, the stream
    sends nothing but resets, whatever is called and received later and
    whatever the channel's writes return. *)
Theorem nothing_sent_after_send_closed {Msg} (marshal : Msg -> bytes + goerror) (maxPacket : nat)
    (MaxMessageSize : Z) (ops : list (sendOp Msg)) (s : clientStream) (lk : link request)
    (Hclosed : cs_sendClosed s = true) :
  let '(s', lk') := run_ops (send_op marshal maxPacket MaxMessageSize) ops (s, lk) in
  cs_sendClosed s' = true /\
  exists extra, lk_sent lk' = lk_sent lk ++ extra /\ Forall is_rst extra.
Proof.
  revert s lk Hclosed. induction ops as [|o ops IH]; intros s lk Hc; cbn [run_ops].
  { split; [done|]. exists []. by rewrite app_nil_r. }
  pose proof (send_op_closed marshal maxPacket MaxMessageSize o s lk Hc) as Ho.
  destruct (send_op _ _ _ o (s, lk)) as [s1 lk1]. destruct Ho as (Hc1 & e1 & Hs1 & Hf1).
  specialize (IH s1 lk1 Hc1). destruct (run_ops _ ops (s1, lk1)) as [s2 lk2].
  destruct IH as (Hc2 & e2 & Hs2 & Hf2). split; [done|]. exists (e1 ++ e2).
  rewrite Hs2, Hs1, <- app_assoc. split; [done|]. by apply Forall_app.
Qed.

Lemma nothing_sent_after_send_closed_witness :
  let '(s', lk') := run_ops (send_op (fun m : bytes => inl m) 2 10)
      [OSendMsg [Byte.x61]; OContextDone; OSendMsg []]
      (mkClientStream (newWebRTCBaseStream None 3) None None None true false true,
       mkLink [None] [ReqRstStream 3]) in
  cs_sendClosed s' = true /\
  exists extra, lk_sent lk' = [ReqRstStream 3] ++ extra /\ Forall is_rst extra.
Proof.
  apply (nothing_sent_after_send_closed (fun m : bytes => inl m) 2 10
    [OSendMsg [Byte.x61]; OContextDone; OSendMsg []]
    (mkClientStream (newWebRTCBaseStream None 3) None None None true false true)
    (mkLink [None] [ReqRstStream 3])).
  reflexivity.
Defined.
