(* ===== verification/ServerStream.v ===== *)
(** * The server stream and its server: [rpc/wrtc_server_stream.go] and the
      handlers of [rpc/wrtc_server.go]

    The gRPC server stream over a data channel: headers written once and
    first, messages in packets, one closing with trailers; the dispatch of the
    client's requests; the admission of a call (registered handler, running
    server, a free ticket) and the wait group that [Stop] waits for.

    grpc/status, multierr and [metadata.Join] are arguments. Handlers are
    represented by the outcome of their call. *)

From S2P Require Import Prelude GoError BaseStream ClientStream.
Local Open Scope go_scope.

(** ** State *)

Record serverStream := mkServerStream {
  ss_base : baseStream;
  ss_method : string;
  ss_headersWritten : bool;
  ss_headersReceived : bool;
  ss_header : MD;
  ss_trailer : MD;
  ss_sendClosed : bool;
}.

Definition ss_set_base b s := mkServerStream b (ss_method s) (ss_headersWritten s)
  (ss_headersReceived s) (ss_header s) (ss_trailer s) (ss_sendClosed s).
Definition ss_set_headersWritten v s := mkServerStream (ss_base s) (ss_method s) v
  (ss_headersReceived s) (ss_header s) (ss_trailer s) (ss_sendClosed s).
Definition ss_set_headersReceived v s := mkServerStream (ss_base s) (ss_method s)
  (ss_headersWritten s) v (ss_header s) (ss_trailer s) (ss_sendClosed s).
Definition ss_set_header v s := mkServerStream (ss_base s) (ss_method s) (ss_headersWritten s)
  (ss_headersReceived s) v (ss_trailer s) (ss_sendClosed s).
Definition ss_set_trailer v s := mkServerStream (ss_base s) (ss_method s) (ss_headersWritten s)
  (ss_headersReceived s) (ss_header s) v (ss_sendClosed s).
Definition ss_set_sendClosed v s := mkServerStream (ss_base s) (ss_method s) (ss_headersWritten s)
  (ss_headersReceived s) (ss_header s) (ss_trailer s) v.

(** [newWebRTCServerStream]. *)
Definition newWebRTCServerStream (ctxErr : option goerror) (method : string) (id : Z)
    : serverStream :=
  mkServerStream (newWebRTCBaseStream ctxErr id) method false false None None false.

(** What [RegisterService] makes of a method: a unary or a stream handler. *)
Inductive handlerKind := UnaryMethod | StreamMethod.

(** The parts of a grpc.ServiceDesc that the server reads. *)
Record streamDesc := mkStreamDesc { sd_name : string; sd_clientStreams : bool; sd_serverStreams : bool }.
Record serviceDesc := mkServiceDesc {
  sd_ServiceName : string;
  sd_Methods : list string;
  sd_Streams : list streamDesc;
  sd_Metadata : string;
}.

(** [serviceInfo]; a stream has its two flags. *)
Record serviceInfo := mkServiceInfo {
  si_methods : gset string;
  si_streams : gmap string (bool * bool);
  si_metadata : string;
}.

(** [webrtcServer]. [sv_tickets] and [sv_workers] are the fill of callTickets
    and the wait group's counter, [sv_peers] the keys of peerConns. *)
Record webrtcServer := mkServer {
  sv_ctxErr : option goerror;
  sv_handlers : gmap string handlerKind;
  sv_services : gmap string serviceInfo;
  sv_peers : gset nat;
  sv_hasUnknownStream : bool;      (* unknownStreamDesc != nil *)
  sv_maxCalls : nat;               (* cap(callTickets) *)
  sv_tickets : nat;
  sv_workers : nat;
}.

Definition DefaultWebRTCMaxGRPCCalls : nat := 256.

(** [newWebRTCServerWithInterceptorsAndUnknownStreamHandler]. *)
Definition newWebRTCServer (hasUnknownStream : bool) : webrtcServer :=
  mkServer None ∅ ∅ ∅ hasUnknownStream DefaultWebRTCMaxGRPCCalls 0 0.

Definition sv_set_tickets v sv := mkServer (sv_ctxErr sv) (sv_handlers sv) (sv_services sv)
  (sv_peers sv) (sv_hasUnknownStream sv) (sv_maxCalls sv) v (sv_workers sv).
Definition sv_set_workers v sv := mkServer (sv_ctxErr sv) (sv_handlers sv) (sv_services sv)
  (sv_peers sv) (sv_hasUnknownStream sv) (sv_maxCalls sv) (sv_tickets sv) v.
Definition sv_set_peers v sv := mkServer (sv_ctxErr sv) (sv_handlers sv) (sv_services sv)
  v (sv_hasUnknownStream sv) (sv_maxCalls sv) (sv_tickets sv) (sv_workers sv).

(** The path under which a method is registered. *)
Definition method_path (service method : string) : string :=
  ("/" +:+ service +:+ "/" +:+ method)%string.

(** [RegisterService]. *)
Definition RegisterService (sd : serviceDesc) (sv : webrtcServer) : webrtcServer :=
  let info := mkServiceInfo (list_to_set (sd_Methods sd))
                (foldl (fun m d => <[sd_name d := (sd_clientStreams d, sd_serverStreams d)]> m) ∅
                   (sd_Streams sd))
                (sd_Metadata sd) in
  let handlers1 := foldl (fun m d => <[method_path (sd_ServiceName sd) d := UnaryMethod]> m)
                     (sv_handlers sv) (sd_Methods sd) in
  let handlers2 := foldl (fun m d => <[method_path (sd_ServiceName sd) (sd_name d) := StreamMethod]> m)
                     handlers1 (sd_Streams sd) in
  mkServer (sv_ctxErr sv) handlers2 (<[sd_ServiceName sd := info]> (sv_services sv)) (sv_peers sv)
    (sv_hasUnknownStream sv) (sv_maxCalls sv) (sv_tickets sv) (sv_workers sv).

(** A grpc.MethodInfo. *)
Record methodInfo := mkMethodInfo { mi_name : string; mi_isClientStream : bool; mi_isServerStream : bool }.

(** [GetServiceInfo]; the methods come in the iteration order of the maps. *)
Definition GetServiceInfo (sv : webrtcServer) : gmap string (list methodInfo * string) :=
  (fun svcInfo =>
     (map (fun m => mkMethodInfo m false false) (elements (si_methods svcInfo)) ++
      map (fun '(m, (c, s)) => mkMethodInfo m c s) (map_to_list (si_streams svcInfo)),
      si_metadata svcInfo)) <$> sv_services sv.

(** [handler]. *)
Definition sv_handler (path : string) (sv : webrtcServer) : option handlerKind :=
  sv_handlers sv !! path.

(** [NewChannel] and [removePeer] on the set of peer connections. *)
Definition NewChannel (pc : nat) (sv : webrtcServer) : webrtcServer :=
  sv_set_peers ({[pc]} ∪ sv_peers sv) sv.
Definition removePeer (pc : nat) (sv : webrtcServer) : webrtcServer :=
  sv_set_peers (sv_peers sv ∖ {[pc]}) sv.

(** What the stream sees of its channel when it closes. *)
Record chanView := mkChanView {
  cv_closed : bool;
  cv_closedReason : option goerror;
}.

Abbreviation sst := (serverStream * link response)%type.

(** ** Headers and trailers *)

Section Stream.
Context `{Multierr goerror} `{GrpcStatus} (mdJoin : gmap string (list string) ->
  gmap string (list string) -> gmap string (list string)).
Context {Msg : Type} (marshal : Msg -> bytes + goerror) (maxResponseMessagePacketDataSize : nat).

(** The merging of [SetHeader] and [SetTrailer]. *)
Definition join_md (old new : MD) : MD :=
  match old, new with
  | None, _ => new
  | Some _, None => old
  | Some o, Some n => Some (mdJoin o n)
  end.

(** [SetHeader]. *)
Definition SetHeader (header : MD) (s : serverStream) : serverStream * option goerror :=
  if ss_headersWritten s then (s, Some (EIs ErrIllegalHeaderWrite))
  else (ss_set_header (join_md (ss_header s) header) s, None).

(** [SetTrailer]. *)
Definition SetTrailer (trailer : MD) (s : serverStream) : serverStream :=
  ss_set_trailer (join_md (ss_trailer s) trailer) s.

(** [writeHeaders]: only the call that wins the swap writes. *)
Definition ss_writeHeaders (st : sst) : sst * option goerror :=
  let '(s, lk) := st in
  if ss_headersWritten s then (st, None)
  else
    let s1 := ss_set_headersWritten true s in
    let '(lk', err) := link_write (RespHeaders (metadataToProto (ss_header s1))) lk in
    ((s1, lk'), err).

(** [SendHeader]. *)
Definition SendHeader (header : MD) (st : sst) : sst * option goerror :=
  let '(s, lk) := st in
  match SetHeader header s with
  | (s1, Some e) => ((s1, lk), Some e)
  | (s1, None) => ss_writeHeaders (s1, lk)
  end.

(** ** Closing *)

(** The body of [closeWithSendError] after its swap, without its deferred
    calls. [errors.Wrap] of nil is nil. *)
Definition closeWithSendError_body (cv : chanView) (err : option goerror) (st : sst)
    : sst * option goerror :=
  if errors_Is_opt err ErrClosedPipe then (st, None)
  else if Closed (ss_base (fst st)) || cv_closed cv then
    if errors_Is_opt (cv_closedReason cv) errDataChannelClosed && isContextCanceled err
    then (st, None)
    else (st, option_map (EWrap "close called multiple times with error") err)
  else
    match ss_writeHeaders st with
    | (st1, Some e) => (st1, Some e)
    | ((s1, lk1), None) =>
        let respStatus := match err with
                          | None => ErrorToStatus (bs_ctxErr (ss_base s1))
                          | Some _ => ErrorToStatus err
                          end in
        let '(lk2, e) := link_write (RespTrailers respStatus (metadataToProto (ss_trailer s1))) lk1 in
        ((s1, lk2), e)
    end.

(** [closeWithSendError]: close the stream with trailers, once; the base
    stream is always closed afterwards. *)
Definition closeWithSendError (cv : chanView) (err : option goerror) (st : sst)
    : outcome (sst * option goerror) :=
  let '(s, lk) := st in
  if ss_sendClosed s then Returns (st, None)
  else
    let '((s1, lk1), writeErr) := closeWithSendError_body cv err (ss_set_sendClosed true s, lk) in
    let writeErr' := if errors_Is_opt writeErr ErrSctpStreamClosed then None else writeErr in
    match close (ss_base s1) with
    | Returns b => Returns ((ss_set_base b s1, lk1), writeErr')
    | Blocks b => Blocks ((ss_set_base b s1, lk1), writeErr')
    | Panics => Panics
    end.

(** ** Sending *)

(** The body of [SendMsg] after its first test, without its deferred call. *)
Definition SendMsg_body (m : Msg) (st : sst) : sst * option goerror :=
  match ss_writeHeaders st with
  | (st1, Some e) => (st1, Some e)
  | ((s1, lk1), None) =>
      match marshal m with
      | inr e => ((s1, lk1), Some e)
      | inl data =>
          let write_packet packet lk := link_write (RespMessage (Some packet)) lk in
          let '(lk2, err) :=
            if (len data =? 0)%Z then write_packet (mkPacket [] true) lk1
            else write_packets (length data) maxResponseMessagePacketDataSize write_packet data lk1 in
          ((s1, lk2), err)
      end
  end.

(** [SendMsg]: an error closes the stream with it. *)
Definition ss_SendMsg (cv : chanView) (m : Msg) (st : sst) : outcome (sst * option goerror) :=
  if ss_sendClosed (fst st) then Returns (st, Some (EIs ErrClosedPipe))
  else
    match SendMsg_body m st with
    | (st1, None) => Returns (st1, None)
    | (st1, Some e) =>
        match closeWithSendError cv (Some e) st1 with
        | Returns (st2, e2) => Returns (st2, multierr_Combine (e :: option_list e2))
        | Blocks (st2, e2) => Blocks (st2, multierr_Combine (e :: option_list e2))
        | Panics => Panics
        end
    end.

(** ** Requests *)

(** [processMessage]. *)
Definition ss_processMessage (MaxMessageSize : Z) (preferCtx : bool) (hasMessage : bool)
    (packet : option packetMessage) (eos : bool) (s : serverStream) : outcome serverStream :=
  let finish b := if eos then
                    match CloseRecv b with
                    | Returns b' => Returns (ss_set_base b' s)
                    | Blocks b' => Blocks (ss_set_base b' s)
                    | Panics => Panics
                    end
                  else Returns (ss_set_base b s) in
  if bs_recvClosed (ss_base s) then Returns s
  else if hasMessage then
    match packet with
    | None =>
        match closeWithError
                (Some (ENew "expected RequestMessage.PacketMessgae to not be nil but it was"))
                false (ss_base s) with
        | Returns b' => Returns (ss_set_base b' s)
        | Blocks b' => Blocks (ss_set_base b' s)
        | Panics => Panics
        end
    | Some p =>
        let '(b1, (data, eop)) := processMessage MaxMessageSize p (ss_base s) in
        if negb eop then Returns (ss_set_base b1 s)
        else
          match enter_sender b1 with
          | None => Returns (ss_set_base b1 s)
          | Some b2 =>
              match deliver preferCtx data b2 with
              | Returns b3 => finish b3
              | Blocks b3 => Blocks (ss_set_base b3 s)
              | Panics => Panics
              end
          end
    end
  else finish (ss_base s).

(** What a request does to the server besides the stream. *)
Inductive admission := Started | NotStarted.

(** [processHeaders]: admit the call and start its handler. Every error of
    closing is only logged. *)
Definition ss_processHeaders (cv : chanView) (method : string) (sv : webrtcServer) (st : sst)
    : outcome (webrtcServer * sst * admission) :=
  let reject sv c msg :=
    match closeWithSendError cv (Some (EStatus c msg)) st with
    | Returns (st', _) => Returns (sv, st', NotStarted)
    | Blocks (st', _) => Blocks (sv, st', NotStarted)
    | Panics => Panics
    end in
  if bool_decide (sv_handler method sv = None) && negb (sv_hasUnknownStream sv) then
    reject sv Unimplemented "Unimplemented"%string
  else
    let sv1 := sv_set_workers (S (sv_workers sv)) sv in
    match sv_ctxErr sv1 with
    | Some _ => Returns (sv_set_workers (pred (sv_workers sv1)) sv1, st, NotStarted)
    | None =>
        if decide (sv_tickets sv1 < sv_maxCalls sv1) then
          let '(s, lk) := st in
          Returns (sv_set_tickets (S (sv_tickets sv1)) sv1, (ss_set_headersReceived true s, lk),
                   Started)
        else reject sv1 ResourceExhausted "too many in-flight requests"%string
    end.

(** [onRequest]. *)
Definition onRequest (MaxMessageSize : Z) (preferCtx : bool) (cv : chanView) (r : request)
    (sv : webrtcServer) (st : sst) : outcome (webrtcServer * sst * admission) :=
  let closeWith c msg :=
    match closeWithSendError cv (Some (EStatus c msg)) st with
    | Returns (st', _) => Returns (sv, st', NotStarted)
    | Blocks (st', _) => Blocks (sv, st', NotStarted)
    | Panics => Panics
    end in
  match r with
  | ReqHeaders _ headers =>
      if ss_headersReceived (fst st) then closeWith InvalidArgument "headers already received"%string
      else ss_processHeaders cv (rh_method headers) sv st
  | ReqMessage _ hasMessage packet eos =>
      if negb (ss_headersReceived (fst st))
      then closeWith InvalidArgument "headers not yet received"%string
      else
        match ss_processMessage MaxMessageSize preferCtx hasMessage packet eos (fst st) with
        | Returns s' => Returns (sv, (s', snd st), NotStarted)
        | Blocks s' => Blocks (sv, (s', snd st), NotStarted)
        | Panics => Panics
        end
  | ReqRstStream _ => closeWith CodeCanceled "request cancelled"%string
  | ReqUnknown _ => closeWith InvalidArgument "unknown request type <nil>"%string
  end.

(** ** Handlers *)

(** The function that [unaryHandler] returns, after the method's handler gave
    a response or an error. *)
Definition unaryHandler (cv : chanView) (result : Msg + goerror) (st : sst)
    : outcome (sst * option goerror) :=
  match result with
  | inr e => closeWithSendError cv (Some e) st
  | inl m =>
      match ss_SendMsg cv m st with
      | Returns (st1, Some e) => Returns (st1, Some e)
      | Returns (st1, None) => closeWithSendError cv None st1
      | o => o
      end
  end.

(** The function that [streamHandler] returns, after the handler or its
    interceptor returned. *)
Definition streamHandler (cv : chanView) (err : option goerror) (st : sst)
    : outcome (sst * option goerror) :=
  if errors_Is_opt err EOF then Returns (st, None)
  else closeWithSendError cv err st.
End Stream.

(** The deferred end of the handler goroutine that [processHeaders] starts. *)
Definition handler_done (sv : webrtcServer) : webrtcServer :=
  sv_set_tickets (pred (sv_tickets sv)) (sv_set_workers (pred (sv_workers sv)) sv).

(** [Stop]: cancel, then wait for the workers; the lingering peer connections
    are closed after that. *)
Definition Stop (sv : webrtcServer) : outcome webrtcServer :=
  let sv1 := mkServer (match sv_ctxErr sv with Some e => Some e | None => Some (EIs Canceled) end)
               (sv_handlers sv) (sv_services sv) (sv_peers sv) (sv_hasUnknownStream sv)
               (sv_maxCalls sv) (sv_tickets sv) (sv_workers sv) in
  if decide (sv_workers sv1 = 0) then Returns sv1 else Blocks sv1.

(** ** What a stream puts on the wire *)

Definition is_headers (r : response) : Prop := match r with RespHeaders _ => True | _ => False end.
Definition is_message (r : response) : Prop := match r with RespMessage _ => True | _ => False end.
Definition is_trailers (r : response) : Prop := match r with RespTrailers _ _ => True | _ => False end.

(** Headers at most once and first, messages, trailers at most once and last. *)
Definition wire_shape (h ms t log : list response) : Prop :=
  log = h ++ ms ++ t /\ length h <= 1 /\ length t <= 1 /\
  Forall is_headers h /\ Forall is_message ms /\ Forall is_trailers t.

Definition writes_succeed {A} (lk : link A) : Prop := Forall (fun r => r = None) (lk_results lk).

(** The shape, with how far the stream is. [strict]: all writes succeed, and
    then headers were really sent when they count as written. *)
Definition wire_inv (strict : bool) (st : sst) : Prop :=
  exists h ms t, wire_shape h ms t (lk_sent (snd st)) /\
    (ss_headersWritten (fst st) = false -> lk_sent (snd st) = []) /\
    (ss_sendClosed (fst st) = false -> t = []) /\
    (strict = true -> writes_succeed (snd st) /\ (ss_headersWritten (fst st) = true -> h <> [])).

Lemma wire_inv_init strict s lk :
  lk_sent lk = [] -> (strict = true -> writes_succeed lk) -> ss_headersWritten s = false ->
  wire_inv strict (s, lk).
Proof.
  intros Hs Hok Hh. exists [], [], []. unfold wire_shape. simpl. rewrite Hs.
  split_and!; simpl; auto; try lia. intros Hst. split; [by apply Hok | by rewrite Hh].
Qed.

(** Changes of the stream that the invariant does not see. *)
Lemma wire_inv_stream strict s s' lk :
  ss_headersWritten s' = ss_headersWritten s ->
  (ss_sendClosed s' = false -> ss_sendClosed s = false) ->
  wire_inv strict (s, lk) -> wire_inv strict (s', lk).
Proof.
  intros Hh Hc (h & ms & t & Hw & Hn & Ht & Hst). exists h, ms, t. simpl in *.
  rewrite Hh. split_and!; auto.
Qed.

Lemma link_write_succeeds {A} (m : A) lk lk' r :
  writes_succeed lk -> link_write m lk = (lk', r) -> r = None /\ writes_succeed lk'.
Proof.
  intros H E. destruct (link_write_ok m lk H) as (lk1 & E1 & _ & H1). rewrite E1 in E. by simplify_eq.
Qed.

Lemma wire_inv_writeHeaders strict st st' err :
  wire_inv strict st -> ss_writeHeaders st = (st', err) ->
  wire_inv strict st' /\ ss_headersWritten (fst st') = true /\
  ss_sendClosed (fst st') = ss_sendClosed (fst st) /\ (strict = true -> err = None) /\
  ss_base (fst st') = ss_base (fst st).
Proof.
  destruct st as [s lk]. intros Hi. unfold ss_writeHeaders.
  destruct (ss_headersWritten s) eqn:Hw; [intros [= <- <-]; by split_and!|].
  destruct Hi as (h & ms & t & Hsh & Hn & Ht & Hst). simpl in *. specialize (Hn Hw).
  destruct (link_write _ lk) as [lk' e] eqn:E. intros [= <- <-]. simpl.
  assert (Hs : strict = true -> e = None /\ writes_succeed lk').
  { intros Hs. destruct (Hst Hs) as [Hok _]. by eapply link_write_succeeds. }
  apply link_write_sent in E. rewrite Hn in E. simpl in E.
  split_and!; try done; [|by intros Hs1; destruct (Hs Hs1)].
  exists (match e with None => [RespHeaders (metadataToProto (ss_header s))] | Some _ => [] end), [], [].
  simpl. unfold wire_shape. rewrite E. split_and!; try done.
  - by destruct e.
  - destruct e; simpl; lia.
  - simpl; lia.
  - destruct e; by repeat constructor.
  - intros Hs1. destruct (Hs Hs1) as [-> Hok]. split; [done|]. by intros _.
Qed.

(** Messages are written between the headers and the trailers. *)
Lemma wire_inv_messages strict s lk lk' extra :
  wire_inv strict (s, lk) -> ss_headersWritten s = true -> ss_sendClosed s = false ->
  Forall is_message extra -> lk_sent lk' = lk_sent lk ++ extra ->
  (strict = true -> writes_succeed lk') -> wire_inv strict (s, lk').
Proof.
  intros (h & ms & t & (Hl & Hh1 & Ht1 & Hh & Hm & Ht2) & Hn & Ht & Hst) Hw Hc He Hs Hok.
  simpl in *. rewrite (Ht Hc) in *. rewrite app_nil_r in Hl.
  exists h, (ms ++ extra), []. simpl. unfold wire_shape. split_and!; try done.
  - by rewrite Hs, Hl, app_nil_r, app_assoc.
  - by apply Forall_app.
  - by rewrite Hw.
  - intros Hs1. destruct (Hst Hs1). auto.
Qed.

(** Trailers are written at the end, when the sending side is closed. *)
Lemma wire_inv_trailers strict s lk lk' extra :
  wire_inv strict (s, lk) -> ss_headersWritten s = true -> ss_sendClosed s = false ->
  length extra <= 1 -> Forall is_trailers extra -> lk_sent lk' = lk_sent lk ++ extra ->
  (strict = true -> writes_succeed lk') -> wire_inv strict (ss_set_sendClosed true s, lk').
Proof.
  intros (h & ms & t & (Hl & Hh1 & Ht1 & Hh & Hm & Ht2) & Hn & Ht & Hst) Hw Hc Hx He Hs Hok.
  simpl in *. rewrite (Ht Hc) in *. rewrite app_nil_r in Hl.
  exists h, ms, extra. simpl. unfold wire_shape. split_and!; try done.
  - by rewrite Hs, Hl, app_assoc.
  - by rewrite Hw.
  - intros Hs1. destruct (Hst Hs1). auto.
Qed.

Section WireProofs.
Context `{Multierr goerror} `{GrpcStatus} (mdJoin : gmap string (list string) ->
  gmap string (list string) -> gmap string (list string)).
Context {Msg : Type} (marshal : Msg -> bytes + goerror) (maxPacket : nat)
  (HmaxPacket : 0 < maxPacket) (MaxMessageSize : Z) (strict : bool).

Lemma wire_inv_close_sent s lk :
  wire_inv strict (s, lk) -> wire_inv strict (ss_set_sendClosed true s, lk).
Proof using Type. by apply wire_inv_stream. Qed.

Lemma writeHeaders_sendClosed s lk :
  ss_writeHeaders (ss_set_sendClosed true s, lk) =
  let '((s', lk'), e) := ss_writeHeaders (s, lk) in ((ss_set_sendClosed true s', lk'), e).
Proof using Type.
  unfold ss_writeHeaders. simpl. destruct (ss_headersWritten s); [done|].
  by destruct (link_write _ lk).
Qed.

Lemma wire_inv_closeWithSendError_body cv err s lk s1 lk1 e :
  wire_inv strict (s, lk) -> ss_sendClosed s = false ->
  closeWithSendError_body cv err (ss_set_sendClosed true s, lk) = ((s1, lk1), e) ->
  wire_inv strict (s1, lk1) /\ ss_base s1 = ss_base s.
Proof using Type.
  intros Hi Hc. unfold closeWithSendError_body. cbn [fst].
  pose proof (wire_inv_close_sent s lk Hi) as Hi1.
  destruct (errors_Is_opt err _); [by intros [= <- <- <-]|].
  destruct (Closed _ || _); [by destruct (_ && _); intros [= <- <- <-]|].
  rewrite writeHeaders_sendClosed.
  destruct (ss_writeHeaders (s, lk)) as [[s2 lk2] [e2|]] eqn:Ew;
    destruct (wire_inv_writeHeaders strict _ _ _ Hi Ew) as (Hi2 & Hw2 & Hc2 & He2 & Hb2);
    simpl in *.
  { intros [= <- <- <-]. by split; [apply wire_inv_close_sent|]. }
  destruct (link_write _ lk2) as [lk3 e3] eqn:E3. intros [= <- <- <-].
  split; [|done]. pose proof (link_write_sent _ _ _ _ E3) as Hs3.
  eapply wire_inv_trailers; [done | done | by rewrite Hc2 | | | exact Hs3 |].
  - destruct e3; simpl; auto.
  - destruct e3; by repeat constructor.
  - intros Hst. destruct Hi2 as (? & ? & ? & _ & _ & _ & Hok). destruct (Hok Hst) as [Hok1 _].
    by eapply link_write_succeeds.
Qed.

Definition outcome_fst {A B} (d : A) (o : outcome (A * B)) : A :=
  match o with Returns (a, _) | Blocks (a, _) => a | Panics => d end.

Lemma wire_inv_closeWithSendError cv err st :
  wire_inv strict st -> wire_inv strict (outcome_fst st (closeWithSendError cv err st)).
Proof using Type.
  destruct st as [s lk]. intros Hi. unfold closeWithSendError.
  destruct (ss_sendClosed s) eqn:Hc; [done|].
  destruct (closeWithSendError_body _ _ _) as [[s1 lk1] e1] eqn:Eb.
  destruct (wire_inv_closeWithSendError_body _ _ _ _ _ _ _ Hi Hc Eb) as [Hi1 _].
  destruct (close (ss_base s1)); simpl; try done; by apply (wire_inv_stream _ s1).
Qed.

Lemma wire_inv_SendMsg cv m st :
  wire_inv strict st ->
  wire_inv strict (outcome_fst st (ss_SendMsg marshal maxPacket cv m st)).
Proof using HmaxPacket.
  intros Hi. unfold ss_SendMsg. destruct (ss_sendClosed (fst st)) eqn:Hc; [done|].
  assert (Hb : wire_inv strict (fst (SendMsg_body marshal maxPacket m st))).
  { unfold SendMsg_body. destruct (ss_writeHeaders st) as [[s1 lk1] [e|]] eqn:Ew;
      destruct (wire_inv_writeHeaders strict _ _ _ Hi Ew) as (Hi1 & Hw1 & Hc1 & _ & _); [done|].
    simpl in *. destruct (marshal m) as [data|e]; [|done].
    assert (Hwr : (if (len data =? 0)%Z then link_write (RespMessage (Some (mkPacket [] true))) lk1
                   else write_packets (length data) maxPacket
                          (fun p lk => link_write (RespMessage (Some p)) lk) data lk1)
                  = write_all (fun p lk => link_write (RespMessage (Some p)) lk)
                      (message_packets maxPacket data) lk1).
    { destruct (len data =? 0)%Z eqn:E; breflect.
      - destruct data; [|simpl in E; lia]. cbn. by destruct (link_write _ _) as [? [?|]].
      - rewrite write_packets_spec by done. rewrite message_packets_nonempty; [done|].
        intros ->. simpl in E. lia. }
    rewrite Hwr. destruct (write_all _ _ lk1) as [lk2 e2] eqn:E2.
    destruct (write_all_link_prefix _ _ _ _ _ E2) as [n Hn].
    eapply wire_inv_messages; [done | done | by rewrite Hc1 | | exact Hn |].
    - apply Forall_map, Forall_true. done.
    - intros Hst. destruct Hi1 as (? & ? & ? & _ & _ & _ & Hok). destruct (Hok Hst) as [Hok1 _].
      destruct (write_all_link_ok (fun p => RespMessage (Some p)) (message_packets maxPacket data)
                  lk1 Hok1) as (lk3 & E3 & _ & Hok3). by rewrite E3 in E2; simplify_eq. }
  destruct (SendMsg_body _ _ m st) as [st1 [e|]]; simpl in Hb; [|done].
  pose proof (wire_inv_closeWithSendError cv (Some e) st1 Hb) as Hcl.
  destruct (closeWithSendError cv (Some e) st1) as [[]|[]|]; done.
Qed.
End WireProofs.

(** ** Sequences of operations on a stream *)

Inductive serverOp (Msg : Type) :=
  | SOSetHeader (md : MD)
  | SOSendHeader (md : MD)
  | SOSetTrailer (md : MD)
  | SOSendMsg (cv : chanView) (m : Msg)
  | SOCloseWithSendError (cv : chanView) (err : option goerror)
  | SORequest (preferCtx : bool) (cv : chanView) (r : request)
  | SORecvMsg (preferCtx : bool)
  | SOUnaryHandler (cv : chanView) (result : Msg + goerror)
  | SOStreamHandler (cv : chanView) (err : option goerror).
Arguments SOSetHeader {Msg} md.
Arguments SOSendHeader {Msg} md.
Arguments SOSetTrailer {Msg} md.
Arguments SOSendMsg {Msg} cv m.
Arguments SOCloseWithSendError {Msg} cv err.
Arguments SORequest {Msg} preferCtx cv r.
Arguments SORecvMsg {Msg} preferCtx.
Arguments SOUnaryHandler {Msg} cv result.
Arguments SOStreamHandler {Msg} cv err.

Arguments closeWithSendError : simpl never.
Arguments ss_SendMsg : simpl never.
Arguments ss_processMessage : simpl never.

Section ServerOps.
Context `{Multierr goerror} `{GrpcStatus} (mdJoin : gmap string (list string) ->
  gmap string (list string) -> gmap string (list string)).
Context {Msg : Type} (marshal : Msg -> bytes + goerror) (maxPacket : nat)
  (HmaxPacket : 0 < maxPacket) (MaxMessageSize : Z).

Definition server_op (o : serverOp Msg) (w : webrtcServer * sst) : webrtcServer * sst :=
  let '(sv, (s, lk)) := w in
  match o with
  | SOSetHeader md => (sv, (fst (SetHeader mdJoin md s), lk))
  | SOSendHeader md => (sv, fst (SendHeader mdJoin md (s, lk)))
  | SOSetTrailer md => (sv, (SetTrailer mdJoin md s, lk))
  | SOSendMsg cv m => (sv, outcome_fst (s, lk) (ss_SendMsg marshal maxPacket cv m (s, lk)))
  | SOCloseWithSendError cv err => (sv, outcome_fst (s, lk) (closeWithSendError cv err (s, lk)))
  | SORequest pc cv r => outcome_fst w (onRequest MaxMessageSize pc cv r sv (s, lk))
  | SORecvMsg pc =>
      (sv, (ss_set_base (outcome_fst (ss_base s) (RecvMsg pc (ss_base s))) s, lk))
  | SOUnaryHandler cv r => (sv, outcome_fst (s, lk) (unaryHandler marshal maxPacket cv r (s, lk)))
  | SOStreamHandler cv e => (sv, outcome_fst (s, lk) (streamHandler cv e (s, lk)))
  end.

Lemma processMessage_stream pc hm p eos s s' :
  (ss_processMessage MaxMessageSize pc hm p eos s = Returns s' \/
   ss_processMessage MaxMessageSize pc hm p eos s = Blocks s') ->
  exists b, s' = ss_set_base b s.
Proof using Type.
  intros Hr. unfold ss_processMessage in Hr.
  assert (Hself : exists b, s = ss_set_base b s) by (exists (ss_base s); by destruct s).
  repeat case_match; destruct Hr; simplify_eq; eauto.
Qed.

Lemma server_op_wire strict o sv st :
  wire_inv strict st -> wire_inv strict (snd (server_op o (sv, st))).
Proof using HmaxPacket.
  destruct st as [s lk]. intros Hi.
  assert (Hclose : forall cv err, wire_inv strict (outcome_fst (s, lk) (closeWithSendError cv err (s, lk))))
    by (intros; by apply wire_inv_closeWithSendError).
  assert (Hsend : forall cv m, wire_inv strict (outcome_fst (s, lk) (ss_SendMsg marshal maxPacket cv m (s, lk))))
    by (intros; by apply wire_inv_SendMsg).
  destruct o as [md|md|md|cv m|cv err|pc cv r|pc|cv r|cv e]; cbn [server_op snd].
  - unfold SetHeader. destruct (ss_headersWritten s); simpl; [done|]. by apply (wire_inv_stream _ s).
  - unfold SendHeader, SetHeader. destruct (ss_headersWritten s) eqn:Hw; [done|].
    destruct (ss_writeHeaders _) as [st' e] eqn:E.
    eapply wire_inv_writeHeaders; [|exact E]. by apply (wire_inv_stream _ s).
  - unfold SetTrailer. by apply (wire_inv_stream _ s).
  - apply Hsend.
  - apply Hclose.
  - unfold onRequest, ss_processHeaders. destruct r as [id h|id hm p eos|id|id]; simpl.
    + destruct (ss_headersReceived s).
      { specialize (Hclose cv (Some (EStatus InvalidArgument "headers already received"))).
        by destruct (closeWithSendError _ _ _) as [[]|[]|]. }
      destruct (_ && _).
      { specialize (Hclose cv (Some (EStatus Unimplemented "Unimplemented"))).
        by destruct (closeWithSendError _ _ _) as [[]|[]|]. }
      destruct (sv_ctxErr sv); [done|]. case_decide; [by apply (wire_inv_stream _ s)|].
      specialize (Hclose cv (Some (EStatus ResourceExhausted "too many in-flight requests"))).
      by destruct (closeWithSendError _ _ _) as [[]|[]|].
    + destruct (ss_headersReceived s); simpl.
      2: { specialize (Hclose cv (Some (EStatus InvalidArgument "headers not yet received"))).
           by destruct (closeWithSendError _ _ _) as [[]|[]|]. }
      destruct (ss_processMessage _ _ _ _ _ _) as [s'|s'|] eqn:E; simpl; [| |done];
        destruct (processMessage_stream pc hm p eos s s' ltac:(eauto)) as [b ->];
        by apply (wire_inv_stream _ s).
    + specialize (Hclose cv (Some (EStatus CodeCanceled "request cancelled"))).
      by destruct (closeWithSendError _ _ _) as [[]|[]|].
    + specialize (Hclose cv (Some (EStatus InvalidArgument "unknown request type <nil>"))).
      by destruct (closeWithSendError _ _ _) as [[]|[]|].
  - by apply (wire_inv_stream _ s).
  - unfold unaryHandler. destruct r as [m|e]; [|auto]. specialize (Hsend cv m).
    destruct (ss_SendMsg _ _ _ _ _) as [[st1 [e|]]|[]|]; simpl in *; try done.
    pose proof (wire_inv_closeWithSendError strict cv None st1 Hsend) as Hc.
    by destruct (closeWithSendError cv None st1) as [[]|[]|].
  - unfold streamHandler. destruct (errors_Is_opt _ _); [done | auto].
Qed.
End ServerOps.

(** ** Admission over a server's life *)

(** Services and peers that come and go, calls that arrive and handlers that end. Every call arrives on a stream of
    its own; [SvHandlerDone] is only possible while a handler runs. *)
Inductive svOp :=
  | SvRegister (sd : serviceDesc)
  | SvNewChannel (pc : nat)
  | SvRemovePeer (pc : nat)
  | SvCall (cv : chanView) (method : string) (id : Z) (results : list (option goerror))
  | SvHandlerDone.

Record svLog := mkSvLog {
  sl_server : webrtcServer;
  sl_running : nat;        (* handlers started and not ended *)
  sl_exhausted : nat;      (* calls refused for lack of a ticket *)
}.

Section Admission.
Context `{Multierr goerror} `{GrpcStatus}.

Definition sv_op (o : svOp) (l : svLog) : svLog :=
  match o with
  | SvRegister sd => mkSvLog (RegisterService sd (sl_server l)) (sl_running l) (sl_exhausted l)
  | SvNewChannel pc => mkSvLog (NewChannel pc (sl_server l)) (sl_running l) (sl_exhausted l)
  | SvRemovePeer pc => mkSvLog (removePeer pc (sl_server l)) (sl_running l) (sl_exhausted l)
  | SvCall cv method id results =>
      let sv := sl_server l in
      match ss_processHeaders cv method sv
              (newWebRTCServerStream None method id, mkLink results []) with
      | Returns (sv', _, Started) => mkSvLog sv' (S (sl_running l)) (sl_exhausted l)
      | Returns (sv', _, NotStarted) | Blocks (sv', _, _) =>
          mkSvLog sv' (sl_running l)
            (if decide (sv_workers sv' = sv_workers sv) then sl_exhausted l
             else S (sl_exhausted l))
      | Panics => l
      end
  | SvHandlerDone =>
      if decide (sl_running l = 0) then l
      else mkSvLog (handler_done (sl_server l)) (pred (sl_running l)) (sl_exhausted l)
  end.

Record sv_inv (l : svLog) : Prop := {
  svi_workers : sv_workers (sl_server l) = sl_running l + sl_exhausted l;
  svi_tickets : sv_tickets (sl_server l) = sl_running l;
  svi_max : sl_running l <= sv_maxCalls (sl_server l);
}.

(** The three ways in which a call on a fresh stream ends. *)
Lemma processHeaders_cases cv method sv id results :
  let st := (newWebRTCServerStream None method id, mkLink results []) in
  exists st',
  (ss_processHeaders cv method sv st = Returns (sv, st', NotStarted)) \/
  (sv_tickets sv < sv_maxCalls sv /\
   ss_processHeaders cv method sv st =
     Returns (sv_set_tickets (S (sv_tickets sv)) (sv_set_workers (S (sv_workers sv)) sv), st', Started)) \/
  (sv_maxCalls sv <= sv_tickets sv /\
   ss_processHeaders cv method sv st = Returns (sv_set_workers (S (sv_workers sv)) sv, st', NotStarted)).
Proof using Type.
  intros st. unfold ss_processHeaders.
  assert (Hret : forall err, exists st' e, closeWithSendError cv err st = Returns (st', e)).
  { intros err. unfold closeWithSendError. simpl.
    destruct (closeWithSendError_body _ _ _) as [[s1 lk1] e1] eqn:E.
    assert (ss_base s1 = newWebRTCBaseStream None id) as ->.
    { unfold closeWithSendError_body in E. simpl in E.
      destruct (errors_Is_opt err _); [by simplify_eq|].
      destruct (cv_closed cv); [by destruct (_ && _); simplify_eq|].
      destruct (link_write _ _) as [lk2 [e2|]] eqn:E2; simpl in E; [by simplify_eq|].
      by destruct (link_write _ lk2) as [lk3 e3]; simplify_eq. }
    simpl. eauto. }
  destruct (_ && _).
  { destruct (Hret (Some (EStatus Unimplemented "Unimplemented"))) as (st' & e & ->). eauto. }
  destruct (sv_ctxErr (sv_set_workers _ sv)).
  { eexists. left. destruct sv; done. }
  simpl. case_decide; [eauto|].
  destruct (Hret (Some (EStatus ResourceExhausted "too many in-flight requests")))
    as (st' & e & ->). exists st'. right. right. split; [lia | done].
Qed.

Lemma sv_op_inv o l : sv_inv l -> sv_inv (sv_op o l).
Proof using Type.
  intros [H1 H2 H3]. destruct o as [sd|pc|pc|cv method id results|]; simpl; [by constructor..| |].
  - destruct (processHeaders_cases cv method (sl_server l) id results)
      as (st' & [->|[[Hlt ->]|[Hge ->]]]).
    + rewrite decide_True by done. by constructor.
    + constructor; simpl; lia.
    + simpl. rewrite decide_False by lia. constructor; simpl; lia.
  - case_decide; [by constructor|]. constructor; simpl; lia.
Qed.
End Admission.

(** ** A client's message at the server *)

(** A message request at a server whose handler receives in between. *)
Definition ss_step (MaxMessageSize : Z) (r : request) (s : serverStream)
    : option (serverStream * list recvResult) :=
  match r with
  | ReqMessage _ hasMessage packet eos =>
      match ss_processMessage MaxMessageSize false hasMessage packet eos s with
      | Returns s1 =>
          match bs_msgs (ss_base s1) with
          | [] => Some (s1, [])
          | _ => match RecvMsg false (ss_base s1) with
                 | Returns (b, res) => Some (ss_set_base b s1, [res])
                 | _ => None
                 end
          end
      | _ => None
      end
  | _ => None
  end.

Arguments ss_step : simpl never.

Fixpoint ss_pump (MaxMessageSize : Z) (rs : list request) (s : serverStream)
    : option (serverStream * list recvResult) :=
  match rs with
  | [] => Some (s, [])
  | r :: rs' =>
      match ss_step MaxMessageSize r s with
      | Some (s1, out) =>
          match ss_pump MaxMessageSize rs' s1 with
          | Some (s2, out') => Some (s2, out ++ out')
          | None => None
          end
      | None => None
      end
  end.

(** A server stream in the middle of a call. *)
Record ss_receiving (s : serverStream) : Prop := {
  sr_ctx : bs_ctxErr (ss_base s) = None;
  sr_msgs : bs_msgs (ss_base s) = [];
  sr_open : bs_recvClosed (ss_base s) = false;
  sr_ch : bs_msgChClosed (ss_base s) = false;
  sr_senders : bs_activeSenders (ss_base s) = 0;
}.

(** The stream after the end of the client's messages. *)
Definition after_eos (eos : bool) (s : serverStream) : serverStream :=
  if eos then ss_set_base (set_msgChClosed true (set_recvClosed true (ss_base s))) s else s.

Section Requests.
Context (Max : Z) (id : Z) (maxPacket : nat) (HmaxPacket : 0 < maxPacket).

Lemma ss_receiving_buf buf s :
  ss_receiving s -> ss_receiving (ss_set_base (set_packetBuf buf (ss_base s)) s).
Proof. intros []. by constructor. Qed.

(** A packet that does not end the message is only buffered, even when it is
    marked as the end of the stream. *)
Lemma ss_step_partial p eos s b' d :
  ss_receiving s -> processMessage Max p (ss_base s) = (b', (d, false)) ->
  ss_step Max (ReqMessage id true (Some p) eos) s = Some (ss_set_base b' s, []) /\
  ss_receiving (ss_set_base b' s).
Proof using Type.
  intros Hr Hp. pose proof (processMessage_only_buf _ _ _ _ _ Hp) as [buf ->].
  pose proof (ss_receiving_buf buf s Hr) as Hr'. split; [|done].
  unfold ss_step, ss_processMessage. rewrite (sr_open _ Hr), Hp. simpl.
  by rewrite (sr_msgs _ Hr).
Qed.

Lemma ss_step_last p eos s b' d :
  ss_receiving s -> processMessage Max p (ss_base s) = (b', (d, true)) ->
  ss_step Max (ReqMessage id true (Some p) eos) s
  = Some (after_eos eos (ss_set_base b' s), [RecvBytes d]).
Proof using Type.
  intros Hr Hp. pose proof (processMessage_only_buf _ _ _ _ _ Hp) as [buf ->].
  destruct Hr as [H1 H2 H3 H4 H5], s as [[] ? ? ? ? ? ?]; simpl in *. subst.
  unfold ss_step, ss_processMessage. simpl in *. rewrite Hp. by destruct eos.
Qed.

(** All packets of a message but the last leave the end open. *)
Lemma ss_pump_packets data s b' out eos :
  ss_receiving s -> data <> [] ->
  (len (bs_packetBuf (ss_base s)) + len data <= Max)%Z ->
  feed Max (packets (length data) maxPacket data) (ss_base s) = (b', out) ->
  ss_pump Max (map (fun p => ReqMessage id true (Some p) eos) (packets (length data) maxPacket data)) s
  = Some (after_eos eos (ss_set_base b' s), map RecvBytes out).
Proof using HmaxPacket.
  remember (length data) as n eqn:Hn. revert data s b' out Hn.
  induction n as [n IH] using lt_wf_ind. intros data s b' out -> Hr Hd Hfit.
  assert (Ht : take maxPacket data <> []) by (destruct data, maxPacket; done || lia).
  assert (Hlen : (len data = len (take maxPacket data) + len (drop maxPacket data))%Z).
  { rewrite <- (take_drop maxPacket data) at 1. rewrite length_app. lia. }
  rewrite packets_unfold by done. cbn [feed map ss_pump].
  pose proof (processMessage_packet Max (ss_base s) (take maxPacket data)
                (bool_decide (drop maxPacket data = [])) Ht) as Hp.
  destruct (_ >? _)%Z eqn:Eb; [breflect; lia|]. rewrite Hp.
  case_bool_decide as Hrest.
  - rewrite Hrest. simpl. intros [= <- <-]. by erewrite ss_step_last.
  - destruct (ss_step_partial _ eos _ _ _ Hr Hp) as [-> Hr1].
    destruct (feed Max _ _) as [b2 out2] eqn:Ef. intros [= <- <-].
    erewrite (IH _ ltac:(by apply take_drop_length_lt) _ _ b2 out2); simpl; try done.
    cbn [bs_packetBuf set_packetBuf ss_set_base ss_base]. rewrite length_app. lia.
Qed.
End Requests.

(** ** Properties *)


Section W_server_wire_protocol.
Import SimpleErrors.
End W_server_wire_protocol.

(** A server never runs more handlers than it has tickets, and its wait group
    counts the running handlers and the calls that were ever refused for lack
    of a ticket: [Stop] returns exactly when no handler runs and no call was
    ever refused that way. *)
Theorem server_stop_waits_for_refused_calls `{Multierr goerror} `{GrpcStatus}
    (hasUnknownStream : bool) (ops : list svOp) :
  let l := run_ops sv_op ops (mkSvLog (newWebRTCServer hasUnknownStream) 0 0) in
  sl_running l <= sv_maxCalls (sl_server l) /\
  ((exists sv', Stop (sl_server l) = Returns sv') <-> sl_running l = 0 /\ sl_exhausted l = 0).
Proof.
  intros l. assert (Hi : sv_inv l).
  { apply run_ops_invariant; [apply sv_op_inv | constructor; simpl; lia]. }
  split; [apply Hi|]. unfold Stop. simpl. rewrite (svi_workers _ Hi).
  case_decide; split; [lia | by eauto | by intros [? [=]] | lia].
Qed.

(** Registering a service makes exactly the paths of its streams and its unary
    methods available, a stream taking precedence over a method of the same
    name, and leaves every other path with the handler it had. *)
Theorem register_service_handlers (sd : serviceDesc) (sv : webrtcServer) (path : string) :
  sv_handler path (RegisterService sd sv) =
  if decide (path ∈ (fun d => method_path (sd_ServiceName sd) (sd_name d)) <$> sd_Streams sd)
  then Some StreamMethod
  else if decide (path ∈ method_path (sd_ServiceName sd) <$> sd_Methods sd) then Some UnaryMethod
  else sv_handler path sv.
Proof. unfold sv_handler. simpl. by rewrite !foldl_insert_lookup. Qed.

(** The requests of one message on a stream in the middle of a call. *)
Lemma server_receives_message_pump (Max : Z) (id : Z) (maxPacket : nat) (eos : bool) (data : bytes)
    (s : serverStream) (preferCtx : bool) (Hpos : 0 < maxPacket) (Hfit : (len data <= Max)%Z)
    (Hr : ss_receiving s) (Hbuf : bs_packetBuf (ss_base s) = [])
    (Herr : bs_err (ss_base s) = None) :
  ss_pump Max (message_requests id maxPacket true eos data) s
  = Some (after_eos eos s, [RecvBytes data]) /\
  (eos = true ->
   RecvMsg preferCtx (ss_base (after_eos eos s))
   = Returns (ss_base (after_eos eos s), RecvErr (Some (EIs EOF)))).
Proof.
  split.
  - unfold message_requests. destruct (decide (data = [])) as [->|Hd].
    + cbn [message_packets map ss_pump].
      by rewrite (ss_step_last Max id (mkPacket [] true) eos s (ss_base s) [] Hr) by done; destruct s.
    + rewrite message_packets_nonempty by done.
      pose proof (feed_message maxPacket Max data (ss_base s) Hpos Hfit Hbuf) as Hf.
      rewrite message_packets_nonempty in Hf by done.
      rewrite (ss_pump_packets Max id maxPacket Hpos data s (ss_base s) [data] eos);
        [by destruct s | done | done | rewrite Hbuf; simpl; lia | done].
  - intros ->. destruct Hr as [H1 H2 H3 H4 H5], s as [[] ? ? ? ? ? ?]; simpl in *; subst.
    by destruct preferCtx.
Qed.

(** The packets in which a client sends a message of admissible size make the
    server's handler receive exactly that message; when the message ends the
    stream, its next receive is io.EOF, and otherwise the stream is as before. *)
Theorem server_receives_message (Max : Z) (id : Z) (maxPacket : nat) (eos : bool) (data : bytes)
    (s : serverStream) (preferCtx : bool) (Hpos : 0 < maxPacket) (Hfit : (len data <= Max)%Z)
    (Hr : ss_receiving s) (Hbuf : bs_packetBuf (ss_base s) = [])
    (Herr : bs_err (ss_base s) = None) :
  ss_pump Max (message_requests id maxPacket true eos data) s
  = Some (after_eos eos s, [RecvBytes data]) /\
  (eos = true ->
   RecvMsg preferCtx (ss_base (after_eos eos s))
   = Returns (ss_base (after_eos eos s), RecvErr (Some (EIs EOF)))).
Proof. by apply server_receives_message_pump. Qed.

Lemma server_receives_message_witness :
  let s := ss_set_headersReceived true (newWebRTCServerStream None "/svc/m" 1) in
  ss_pump 10 (message_requests 1 2 true true [Byte.x61; Byte.x62; Byte.x63]) s
  = Some (after_eos true s, [RecvBytes [Byte.x61; Byte.x62; Byte.x63]]) /\
  RecvMsg true (ss_base (after_eos true s))
  = Returns (ss_base (after_eos true s), RecvErr (Some (EIs EOF))).
Proof.
  intros s. destruct (server_receives_message 10 1 2 true [Byte.x61; Byte.x62; Byte.x63] s true)
    as [H1 H2]; [lia | simpl; lia | by constructor | done | done |].
  split; [exact H1 | by apply H2].
Defined.

Arguments ss_writeHeaders : simpl never.

Lemma writeHeaders_ok s lk :
  writes_succeed lk ->
  exists lk', ss_writeHeaders (s, lk) = ((ss_set_headersWritten true s, lk'), None) /\
    writes_succeed lk' /\
    lk_sent lk' = lk_sent lk ++
      (if ss_headersWritten s then [] else [RespHeaders (metadataToProto (ss_header s))]).
Proof.
  intros Hok. unfold ss_writeHeaders. destruct (ss_headersWritten s) eqn:Hw.
  - exists lk. rewrite app_nil_r. split_and!; try done. destruct s; simpl in *. by subst.
  - simpl. destruct (link_write_ok (RespHeaders (metadataToProto (ss_header s))) lk Hok)
      as (lk1 & -> & Hs1 & H1). by exists lk1.
Qed.

(** The closing of an open stream on an open channel: headers if they were not
    sent before, trailers, and the base stream is done. *)
Lemma closeWithSendError_ok `{Multierr goerror} `{GrpcStatus} (reason err : option goerror)
    (s : serverStream) (lk : link response) :
  ss_sendClosed s = false -> Closed (ss_base s) = false -> bs_activeSenders (ss_base s) = 0 ->
  (bs_recvClosed (ss_base s) = true \/ bs_msgChClosed (ss_base s) = false) ->
  errors_Is_opt err ErrClosedPipe = false -> writes_succeed lk ->
  exists s' lk',
    closeWithSendError (mkChanView false reason) err (s, lk) = Returns ((s', lk'), None) /\
    lk_sent lk' = (lk_sent lk ++
      (if ss_headersWritten s then [] else [RespHeaders (metadataToProto (ss_header s))])) ++
      [RespTrailers (ErrorToStatus (match err with None => bs_ctxErr (ss_base s) | _ => err end))
         (metadataToProto (ss_trailer s))] /\
    bs_closed (ss_base s') = true /\ bs_id (ss_base s') = bs_id (ss_base s) /\
    bs_done (ss_base s') = bs_done (ss_base s) ++ [bs_id (ss_base s)] /\
    bs_msgs (ss_base s') = bs_msgs (ss_base s).
Proof.
  intros Hopen Hbase Hsenders Hch Hpipe Hok.
  unfold closeWithSendError. rewrite Hopen. unfold closeWithSendError_body. rewrite Hpipe.
  cbn [fst]. replace (Closed (ss_base (ss_set_sendClosed true s))) with false by done. simpl.
  destruct (writeHeaders_ok (ss_set_sendClosed true s) lk Hok) as (lk1 & Hw & Hok1 & Hs1).
  rewrite Hw. simpl. destruct (link_write_ok (RespTrailers
    (ErrorToStatus (match err with None => bs_ctxErr (ss_base s) | _ => err end))
    (metadataToProto (ss_trailer s))) lk1 Hok1) as (lk2 & Hl2 & Hs2 & _).
  replace (match err with None => ErrorToStatus (bs_ctxErr (ss_base s)) | Some _ => ErrorToStatus err end)
    with (ErrorToStatus (match err with None => bs_ctxErr (ss_base s) | _ => err end)) by by destruct err.
  rewrite Hl2. simpl. unfold close, closeWithError, closeRecv. unfold Closed in Hbase. rewrite Hbase.
  simpl. rewrite Hsenders. simpl in Hs1.
  destruct (bs_recvClosed (ss_base s)); simpl; [|destruct Hch as [?|Hch]; [done|rewrite Hch; simpl]];
    eexists _, _; (split; [done|]); (split; [by rewrite Hs2, Hs1|]);
    unfold closeWithError_finish, cancel_ctx; simpl; by destruct (bs_ctxErr (ss_base s)).
Qed.

(** An answer of admissible headers: headers first, then the packets. *)
Lemma SendMsg_ok `{Multierr goerror} `{GrpcStatus} {Msg} (marshal : Msg -> bytes + goerror)
    (maxPacket : nat) (cv : chanView) (m : Msg) (data : bytes) (s : serverStream)
    (lk : link response) :
  0 < maxPacket -> marshal m = inl data -> ss_sendClosed s = false -> writes_succeed lk ->
  exists lk',
    ss_SendMsg marshal maxPacket cv m (s, lk) = Returns ((ss_set_headersWritten true s, lk'), None) /\
    writes_succeed lk' /\
    lk_sent lk' = (lk_sent lk ++
      (if ss_headersWritten s then [] else [RespHeaders (metadataToProto (ss_header s))])) ++
      map (fun p => RespMessage (Some p)) (message_packets maxPacket data).
Proof.
  intros Hpos Hm Hopen Hok. unfold ss_SendMsg. cbn [fst]. rewrite Hopen. unfold SendMsg_body.
  destruct (writeHeaders_ok s lk Hok) as (lk1 & -> & Hok1 & Hs1). rewrite Hm.
  destruct (write_all_link_ok (fun p => RespMessage (Some p)) (message_packets maxPacket data) lk1 Hok1)
    as (lk2 & Hw & Hs2 & Hok2).
  exists lk2. rewrite <- Hs1. split_and!; [|done|done].
  destruct (decide (data = [])) as [->|Hd].
  - cbn in Hw |- *. destruct (link_write _ lk1) as [lk3 [e|]]; [done|]. by simplify_eq.
  - replace (len data =? 0)%Z with false by (symmetry; apply Z.eqb_neq; destruct data; [done|simpl; lia]).
    rewrite write_packets_spec by done. rewrite message_packets_nonempty in Hw by done. by rewrite Hw.
Qed.

(** When a stream handler returns on an open stream of an open channel and the
    writes succeed, the headers, if they were not sent before, and trailers
    with the status of the handler's error (of the context's for nil) are sent,
    the stream is closed and its owner told; but when the handler returns
    io.EOF nothing of this happens and the call stays open. *)
Theorem stream_handler_ends_call `{Multierr goerror} `{GrpcStatus} (reason err : option goerror)
    (s : serverStream) (lk : link response)
    (Hopen : ss_sendClosed s = false) (Hbase : Closed (ss_base s) = false)
    (Hsenders : bs_activeSenders (ss_base s) = 0) (Hch : bs_msgChClosed (ss_base s) = false)
    (Hpipe : errors_Is_opt err ErrClosedPipe = false) (Hok : writes_succeed lk) :
  if errors_Is_opt err EOF then
    streamHandler (mkChanView false reason) err (s, lk) = Returns ((s, lk), None)
  else exists s' lk',
    streamHandler (mkChanView false reason) err (s, lk) = Returns ((s', lk'), None) /\
    lk_sent lk' = (lk_sent lk ++
      (if ss_headersWritten s then [] else [RespHeaders (metadataToProto (ss_header s))])) ++
      [RespTrailers (ErrorToStatus (match err with None => bs_ctxErr (ss_base s) | _ => err end))
         (metadataToProto (ss_trailer s))] /\
    bs_closed (ss_base s') = true /\ bs_done (ss_base s') = bs_done (ss_base s) ++ [bs_id (ss_base s)].
Proof.
  unfold streamHandler. destruct (errors_Is_opt err EOF); [done|].
  destruct (closeWithSendError_ok reason err s lk Hopen Hbase Hsenders (or_intror Hch) Hpipe Hok)
    as (s' & lk' & Hc & Hs & Hd & _ & Hdone & _). by exists s', lk'.
Qed.

Section W_stream_handler_ends_call.
Import SimpleErrors.
Lemma stream_handler_ends_call_witness :
  let s := newWebRTCServerStream None "/svc/m" 1 in
  exists s' lk',
    streamHandler (mkChanView false None) (Some (EStatus NotFound "x")) (s, mkLink [] [])
    = Returns ((s', lk'), None) /\
    lk_sent lk' = [RespHeaders None; RespTrailers (Some (NotFound, "x"%string)) None] /\
    bs_closed (ss_base s') = true /\ bs_done (ss_base s') = [1%Z].
Proof.
  intros s. refine (stream_handler_ends_call None (Some (EStatus NotFound "x")) s (mkLink [] [])
    _ _ _ _ _ _); done || by constructor.
Defined.
End W_stream_handler_ends_call.
