(* ===== verification/Channels.v ===== *)
(** * The client and the server channel:
      [rpc/wrtc_client_channel.go], [rpc/wrtc_server_channel.go]

    Both ends of a data channel keep the map of their active streams, create
    streams up to a limit, dispatch what arrives to the stream it names, and
    remove a stream when it reports that it is done. The map holds pointers:
    here a [registry] is the streams by their identifier and the set of the
    identifiers that are in the map, so that a stream that was removed can
    still be used by who holds it. *)

From S2P Require Import Prelude GoError BaseStream ClientStream ServerStream.
Local Open Scope Z_scope.

(** ** Streams in a registry *)

(** What a channel relies on in its streams: the base stream inside, which has
    the identifier and the record of the onDone calls. *)
Class StreamLike (A : Type) := base_of : A -> baseStream.

#[export] Instance clientStream_like : StreamLike clientStream := cs_base.
#[export] Instance serverStream_like : StreamLike serverStream := ss_base.

Record registry (A : Type) := mkRegistry {
  rg_heap : gmap Z A;
  rg_active : gset Z;     (* the keys of ch.streams *)
}.
Arguments mkRegistry {A} _ _.
Arguments rg_heap {A} _.
Arguments rg_active {A} _.

(** WebRTCMaxStreamCount. *)
Definition WebRTCMaxStreamCount : nat := 256.

Section Registry.
Context `{StreamLike A}.

Definition rg_empty : registry A := mkRegistry ∅ ∅.

(** [removeStreamByID]. *)
Definition removeStreamByID (id : Z) (r : registry A) : registry A :=
  mkRegistry (rg_heap r) (rg_active r ∖ {[id]}).

(** A stream after an operation on it: when it called onDone, the channel
    removed it. *)
Definition rg_store (id : Z) (s : A) (r : registry A) : registry A :=
  let r' := mkRegistry (<[id := s]> (rg_heap r)) (rg_active r) in
  match bs_done (base_of s) with
  | [] => r'
  | _ => removeStreamByID id r'
  end.

Definition rg_add (id : Z) (s : A) (r : registry A) : registry A :=
  mkRegistry (<[id := s]> (rg_heap r)) ({[id]} ∪ rg_active r).

(** The stream that the map has for an identifier. *)
Definition rg_lookup (id : Z) (r : registry A) : option A :=
  if decide (id ∈ rg_active r) then rg_heap r !! id else None.

(** At most the limit of active streams, each of them known under its own
    identifier and not done. *)
Record rg_inv (r : registry A) : Prop := {
  ri_size : (size (rg_active r) <= WebRTCMaxStreamCount)%nat;
  ri_id : forall id s, rg_heap r !! id = Some s -> bs_id (base_of s) = id;
  ri_active : forall id, id ∈ rg_active r ->
    exists s, rg_heap r !! id = Some s /\ bs_done (base_of s) = [];
}.

Lemma rg_empty_inv : rg_inv rg_empty.
Proof.
  constructor; simpl.
  - apply Nat.le_0_l.
  - intros id s Hs. by rewrite lookup_empty in Hs.
  - set_solver.
Qed.

Lemma rg_store_inv id s r :
  rg_inv r -> bs_id (base_of s) = id -> rg_inv (rg_store id s r).
Proof.
  intros [Hs Hid Ha] Hids. unfold rg_store. destruct (bs_done (base_of s)) eqn:Hd.
  - constructor; simpl; [done| |].
    + intros id' s' [[<- <-]|[? ?]]%lookup_insert_Some; auto.
    + intros id' Hin. destruct (decide (id = id')) as [<-|Hne].
      * exists s. by rewrite lookup_insert_eq.
      * rewrite lookup_insert_ne by done. by apply Ha.
  - constructor; simpl.
    + etrans; [|exact Hs]. apply subseteq_size. set_solver.
    + intros id' s' [[<- <-]|[? ?]]%lookup_insert_Some; auto.
    + intros id' Hin. rewrite lookup_insert_ne by set_solver. apply Ha. set_solver.
Qed.

Lemma rg_add_inv id s r :
  rg_inv r -> bs_id (base_of s) = id -> bs_done (base_of s) = [] ->
  (size (rg_active r) < WebRTCMaxStreamCount)%nat -> rg_inv (rg_add id s r).
Proof.
  intros [Hs Hid Ha] Hids Hd Hlt. constructor; simpl.
  - destruct (decide (id ∈ rg_active r)).
    + replace ({[id]} ∪ rg_active r) with (rg_active r) by set_solver. lia.
    + rewrite size_union, size_singleton by set_solver. lia.
  - intros id' s' [[<- <-]|[? ?]]%lookup_insert_Some; auto.
  - intros id' Hin. destruct (decide (id = id')) as [<-|Hne].
    + exists s. by rewrite lookup_insert_eq.
    + rewrite lookup_insert_ne by done. apply Ha. set_solver.
Qed.

Lemma rg_store_other id id' s r :
  id <> id' -> rg_heap (rg_store id s r) !! id' = rg_heap r !! id' /\
  (id' ∈ rg_active (rg_store id s r) <-> id' ∈ rg_active r).
Proof.
  intros Hne. unfold rg_store. destruct (bs_done (base_of s)); simpl;
    (split; [by rewrite lookup_insert_ne | set_solver]).
Qed.

Lemma rg_lookup_Some id r s :
  rg_lookup id r = Some s -> id ∈ rg_active r /\ rg_heap r !! id = Some s.
Proof. unfold rg_lookup. case_decide; [done | by intros [=]]. Qed.
End Registry.

#[export] Hint Resolve rg_empty_inv rg_store_inv rg_add_inv : goutils.

(** ** The client channel *)

Module ClientChannel.

Record clientChannel := mkClientChannel {
  cc_ctxErr : option goerror;          (* of the base channel *)
  cc_streamIDCounter : Z;
  cc_reg : registry clientStream;
  cc_link : link request;
}.

Definition set_reg v ch := mkClientChannel (cc_ctxErr ch) (cc_streamIDCounter ch) v (cc_link ch).

(** [newWebRTCClientChannel]. *)
Definition newWebRTCClientChannel (ctxErr : option goerror) (results : list (option goerror))
    : clientChannel :=
  mkClientChannel ctxErr 0 rg_empty (mkLink results []).

(** [nextStreamID]: an atomic add on a uint64. *)
Definition nextStreamID (ch : clientChannel) : clientChannel * Z :=
  let id := wrap64 (cc_streamIDCounter ch + 1) in
  (mkClientChannel (cc_ctxErr ch) id (cc_reg ch) (cc_link ch), id).

(** [newStream]: the active stream with the identifier, or a new one up to the
    limit. *)
Definition newStream (callerCtxErr : option goerror) (id : Z) (ch : clientChannel)
    : clientChannel * (clientStream + goerror) :=
  match rg_lookup id (cc_reg ch) with
  | Some s => (ch, inl s)
  | None =>
      if decide (size (rg_active (cc_reg ch)) = WebRTCMaxStreamCount)
      then (ch, inr (EIs errWebRTCMaxStreams))
      else
        let s := newWebRTCClientStream (cc_ctxErr ch) callerCtxErr id in
        (set_reg (rg_add id s (cc_reg ch)) ch, inl s)
  end.

(** [makeRequestHeaders]: the outgoing metadata and the time until the
    deadline, zero without one. *)
Definition makeRequestHeaders (outgoing : MD) (deadline : option Z) (now : Z) (method : string)
    : requestHeaders :=
  mkRequestHeaders method (metadataToProto outgoing)
    (match deadline with Some d => d - now | None => 0 end).

(** Put back what an operation of a stream leaves. *)
Definition finish (id : Z) (r : outcome (clientStream * link request * option goerror))
    (ch : clientChannel) : outcome (clientChannel * option goerror) :=
  let put s lk := mkClientChannel (cc_ctxErr ch) (cc_streamIDCounter ch)
                    (rg_store id s (cc_reg ch)) lk in
  match r with
  | Returns (s, lk, e) => Returns (put s lk, e)
  | Blocks (s, lk, e) => Blocks (put s lk, e)
  | Panics => Panics
  end.

(** [newClientStream]: a new stream and its request headers. *)
Definition newClientStream (callerCtxErr : option goerror) (headers : requestHeaders)
    (ch : clientChannel) : outcome (clientChannel * option goerror) :=
  let '(ch1, id) := nextStreamID ch in
  match newStream callerCtxErr id ch1 with
  | (ch2, inr e) => Returns (ch2, Some e)
  | (ch2, inl s) => finish id (writeHeaders headers s (cc_link ch2)) ch2
  end.

(** [invoke] up to its RecvMsg: new stream, headers, the only message. *)
Definition invoke_send {Msg} (marshal : Msg -> bytes + goerror) (maxPacket : nat)
    (callerCtxErr : option goerror) (headers : requestHeaders) (args : Msg) (ch : clientChannel)
    : outcome (clientChannel * option goerror) :=
  let '(ch1, id) := nextStreamID ch in
  match newStream callerCtxErr id ch1 with
  | (ch2, inr e) => Returns (ch2, Some e)
  | (ch2, inl s) =>
      match writeHeaders headers s (cc_link ch2) with
      | Returns (s1, lk1, None) =>
          finish id (writeMessage marshal maxPacket (Some args) true s1 lk1) ch2
      | r => finish id r ch2
      end
  end.

(** [onChannelMessage] on a response that could be unmarshalled; [id] is nil
    when it names no stream. *)
Definition onChannelMessage (MaxMessageSize : Z) (preferCtx : bool) (id : option Z)
    (resp : response) (ch : clientChannel) : outcome clientChannel :=
  match id with
  | None => Returns ch
  | Some id =>
      match rg_lookup id (cc_reg ch) with
      | None => Returns ch
      | Some s =>
          match onResponse MaxMessageSize preferCtx resp s with
          | Returns s' => Returns (set_reg (rg_store id s' (cc_reg ch)) ch)
          | Blocks s' => Blocks (set_reg (rg_store id s' (cc_reg ch)) ch)
          | Panics => Panics
          end
      end
  end.

(** The loop of [Close] over the streams that were active when it began. *)
Fixpoint close_streams (ids : list Z) (r : registry clientStream) : outcome (registry clientStream) :=
  match ids with
  | [] => Returns r
  | id :: ids' =>
      match rg_heap r !! id with
      | None => close_streams ids' r
      | Some s =>
          match cs_Close s with
          | Returns s' => close_streams ids' (rg_store id s' r)
          | Blocks s' => Blocks (rg_store id s' r)
          | Panics => Panics
          end
      end
  end.

(** [Close]: every stream, then the base channel, whose context it cancels. *)
Definition cc_Close (ch : clientChannel) : outcome clientChannel :=
  match close_streams (elements (rg_active (cc_reg ch))) (cc_reg ch) with
  | Returns r =>
      Returns (mkClientChannel
                 (match cc_ctxErr ch with Some e => Some e | None => Some (EIs Canceled) end)
                 (cc_streamIDCounter ch) r (cc_link ch))
  | Blocks r => Blocks (set_reg r ch)
  | Panics => Panics
  end.

End ClientChannel.

(** ** The server channel *)

Module ServerChannel.

Record serverChannel := mkServerChannel {
  sc_ctxErr : option goerror;                 (* of the base channel *)
  sc_view : chanView;                         (* Closed() of the base channel *)
  sc_reg : registry serverStream;
  sc_links : gmap Z (link response);          (* per stream: results of its writes, what it sent *)
}.

Definition newWebRTCServerChannel (ctxErr : option goerror) (links : gmap Z (link response))
    : serverChannel :=
  mkServerChannel ctxErr (mkChanView false None) rg_empty links.

Definition link_of (id : Z) (ch : serverChannel) : link response :=
  default (mkLink [] []) (sc_links ch !! id).

Definition request_id (r : request) : Z :=
  match r with ReqHeaders id _ | ReqMessage id _ _ _ | ReqRstStream id | ReqUnknown id => id end.

(** The context of a new stream's handler: the channel's, with the timeout of
    the headers unless that is zero; a timeout that is over is done at once. *)
Definition handlerCtxErr (ctxErr : option goerror) (timeout : Z) : option goerror :=
  match ctxErr with
  | Some e => Some e
  | None => if timeout =? 0 then None
            else if timeout <? 0 then Some (EIs DeadlineExceeded) else None
  end.

Section OnMessage.
Context `{Multierr goerror} `{GrpcStatus}.

(** Hand a request to its stream and put back what it leaves. *)
Definition dispatch (MaxMessageSize : Z) (preferCtx : bool) (req : request) (s : serverStream)
    (sv : webrtcServer) (ch : serverChannel)
    : outcome (webrtcServer * serverChannel * admission) :=
  let id := request_id req in
  let put s lk := mkServerChannel (sc_ctxErr ch) (sc_view ch) (rg_store id s (sc_reg ch))
                    (<[id := lk]> (sc_links ch)) in
  match onRequest MaxMessageSize preferCtx (sc_view ch) req sv (s, link_of id ch) with
  | Returns (sv', (s', lk'), a) => Returns (sv', put s' lk', a)
  | Blocks (sv', (s', lk'), a) => Blocks (sv', put s' lk', a)
  | Panics => Panics
  end.

(** [onChannelMessage] on a request that could be unmarshalled; [None] when
    it names no stream. A request for an unknown stream is discarded when
    there are too many streams or when it is not headers. *)
Definition sc_onChannelMessage (MaxMessageSize : Z) (preferCtx : bool) (req : option request)
    (sv : webrtcServer) (ch : serverChannel)
    : outcome (webrtcServer * serverChannel * admission) :=
  match req with
  | None => Returns (sv, ch, NotStarted)
  | Some req =>
      let id := request_id req in
      match rg_lookup id (sc_reg ch) with
      | Some s => dispatch MaxMessageSize preferCtx req s sv ch
      | None =>
          if decide (size (rg_active (sc_reg ch)) = WebRTCMaxStreamCount)
          then Returns (sv, ch, NotStarted)
          else
            match req with
            | ReqHeaders _ headers =>
                let s := newWebRTCServerStream (handlerCtxErr (sc_ctxErr ch) (rh_timeout headers))
                           (rh_method headers) id in
                let ch' := mkServerChannel (sc_ctxErr ch) (sc_view ch)
                             (rg_add id s (sc_reg ch)) (sc_links ch) in
                dispatch MaxMessageSize preferCtx req s sv ch'
            | _ => Returns (sv, ch, NotStarted)
            end
      end
  end.
End OnMessage.

End ServerChannel.

(** ** Client channel: invariants *)

Module ClientChannelProofs.
Import ClientChannel.

(** The operations of a stream keep its identifier. *)
Definition keeps_id (s : clientStream) (r : outcome (clientStream * link request * option goerror)) : Prop :=
  outcome_all (fun '(s', _, _) => bs_id (base_of s') = bs_id (base_of s)) r.

Lemma lift_base_id f s :
  outcome_all (fun b => bs_id b = bs_id (cs_base s)) (f (cs_base s)) ->
  outcome_all (fun s' => bs_id (base_of s') = bs_id (base_of s)) (lift_base f s).
Proof. unfold lift_base. by destruct (f (cs_base s)). Qed.

Lemma close_on_write_error_id err s lk : keeps_id s (close_on_write_error err s lk).
Proof.
  unfold close_on_write_error, keeps_id. destruct (checkWriteErrForStreamClose err) as [e|]; [|done].
  pose proof (lift_base_id (closeWithError (Some e) false) s (closeWithError_id _ _ _)).
  by destruct (lift_base _ s).
Qed.

Lemma writeHeaders_id h s lk : keeps_id s (writeHeaders h s lk).
Proof.
  unfold writeHeaders. destruct (link_write _ lk). apply close_on_write_error_id.
Qed.

Lemma writeMessage_id {Msg} (marshal : Msg -> bytes + goerror) maxPacket m eos s lk :
  keeps_id s (writeMessage marshal maxPacket m eos s lk).
Proof.
  unfold writeMessage. destruct (cs_sendClosed s); [done|].
  destruct (writeMessage_body _ _ _ _ _ _) as [lk' err].
  destruct eos; [exact (close_on_write_error_id err (cs_set_sendClosed true s) lk')|].
  apply close_on_write_error_id.
Qed.

Lemma resetStream_id s lk : keeps_id s (resetStream s lk).
Proof.
  unfold resetStream, keeps_id. destruct (link_write _ lk) as [lk' err].
  pose proof (lift_base_id (closeWithError (checkWriteErrForStreamClose err) false)
                (cs_set_sendClosed true s) (closeWithError_id _ _ _)).
  by destruct (lift_base _ _).
Qed.

Lemma cs_Close_id s : outcome_all (fun s' => bs_id (base_of s') = bs_id (base_of s)) (cs_Close s).
Proof.
  apply lift_base_id. pose proof (closeWithError_id None false (cancel_ctx (cs_base s))) as Hc.
  assert (bs_id (cancel_ctx (cs_base s)) = bs_id (cs_base s)) as E
    by (unfold cancel_ctx; by destruct (bs_ctxErr (cs_base s))).
  rewrite E in Hc. exact Hc.
Qed.

Lemma onResponse_id Max pc r s :
  outcome_all (fun s' => bs_id (base_of s') = bs_id (base_of s)) (onResponse Max pc r s).
Proof.
  assert (Hfail : forall err x, outcome_all (fun s' => bs_id (base_of s') = bs_id (base_of s))
                             (lift_base (closeWithError err x) s))
    by (intros; apply lift_base_id, closeWithError_id).
  destruct r as [md|p|st md|]; simpl; [| | |done].
  - unfold cs_processHeaders. by destruct (cs_headersReceived s), (cs_trailersReceived s); simpl.
  - unfold cs_processMessage.
    destruct (cs_headersReceived s), (cs_trailersReceived s); simpl; auto.
    destruct p as [p|]; [|done]. destruct (processMessage _ p _) as [b1 [d eop]] eqn:Hp.
    pose proof (processMessage_only_buf _ _ _ _ _ Hp) as [buf Hb].
    assert (bs_id b1 = bs_id (cs_base s)) by by subst.
    destruct eop; [|done]. simpl. destruct (enter_sender b1) as [b2|] eqn:He; [|done].
    pose proof (handover_id _ _ _ _ _ _ pc d Hp He) as Hd. unfold lift_base. simpl.
    by destruct (deliver pc d b2).
  - unfold cs_processTrailers, closeFromTrailers, lift_base. simpl.
    pose proof (closeWithError_id (status_Err st)
      (match status_Err st with None => true | _ => false end) (cs_base s)) as Hc.
    by destruct (closeWithError _ _ _).
Qed.

(** What users and the network do with a channel. *)
Inductive chOp (Msg : Type) :=
  | ChNewStream (callerCtxErr : option goerror) (headers : requestHeaders)
  | ChInvoke (callerCtxErr : option goerror) (headers : requestHeaders) (args : Msg)
  | ChMessage (preferCtx : bool) (id : option Z) (resp : response)
  | ChStreamOp (id : Z) (m : option Msg) (eos : bool)   (* SendMsg and CloseSend *)
  | ChReset (id : Z)
  | ChClose.
Arguments ChNewStream {Msg} _ _.
Arguments ChInvoke {Msg} _ _ _.
Arguments ChMessage {Msg} _ _ _.
Arguments ChStreamOp {Msg} _ _ _.
Arguments ChReset {Msg} _.
Arguments ChClose {Msg}.

Section Ops.
Context {Msg : Type} (marshal : Msg -> bytes + goerror) (maxPacket : nat) (Max : Z).

Definition outcome_ch (d : clientChannel) (o : outcome (clientChannel * option goerror))
    : clientChannel :=
  match o with Returns (c, _) | Blocks (c, _) => c | Panics => d end.

Definition ch_op (o : chOp Msg) (ch : clientChannel) : clientChannel :=
  match o with
  | ChNewStream c h => outcome_ch ch (newClientStream c h ch)
  | ChInvoke c h a => outcome_ch ch (invoke_send marshal maxPacket c h a ch)
  | ChMessage pc id r =>
      match onChannelMessage Max pc id r ch with Returns c | Blocks c => c | Panics => ch end
  | ChStreamOp id m eos =>
      match rg_heap (cc_reg ch) !! id with
      | None => ch
      | Some s => outcome_ch ch (finish id (writeMessage marshal maxPacket m eos s (cc_link ch)) ch)
      end
  | ChReset id =>
      match rg_heap (cc_reg ch) !! id with
      | None => ch
      | Some s => outcome_ch ch (finish id (resetStream s (cc_link ch)) ch)
      end
  | ChClose => match cc_Close ch with Returns c | Blocks c => c | Panics => ch end
  end.

(** The registry's invariant, and all identifiers were given out by the
    counter, which is at most [n]. *)
Record cc_inv (n : Z) (ch : clientChannel) : Prop := {
  cci_reg : rg_inv (cc_reg ch);
  cci_counter : 0 <= cc_streamIDCounter ch <= n;
  cci_ids : forall id s, rg_heap (cc_reg ch) !! id = Some s -> 0 < id <= cc_streamIDCounter ch;
}.

Lemma cc_inv_mono n n' ch : n <= n' -> cc_inv n ch -> cc_inv n' ch.
Proof using Type. intros Hn [H1 H2 H3]. constructor; auto; lia. Qed.

Lemma rg_store_heap {A} `{StreamLike A} id s (r : registry A) :
  rg_heap (rg_store id s r) = <[id := s]> (rg_heap r).
Proof using Type. unfold rg_store. by destruct (bs_done (base_of s)). Qed.

Lemma cc_inv_store n ch id s s' lk :
  cc_inv n ch -> rg_heap (cc_reg ch) !! id = Some s -> bs_id (base_of s') = bs_id (base_of s) ->
  cc_inv n (mkClientChannel (cc_ctxErr ch) (cc_streamIDCounter ch) (rg_store id s' (cc_reg ch)) lk).
Proof using Type.
  intros [H1 H2 H3] Hs Hid. pose proof (ri_id _ H1 _ _ Hs) as Hsid.
  constructor; simpl; [apply rg_store_inv; [done | congruence] | done|].
  intros id' t. rewrite rg_store_heap. intros [[<- <-]|[? ?]]%lookup_insert_Some; eauto.
Qed.

Lemma cc_inv_finish n ch id s r :
  cc_inv n ch -> rg_heap (cc_reg ch) !! id = Some s -> keeps_id s r ->
  cc_inv n (outcome_ch ch (finish id r ch)).
Proof using Type.
  intros Hi Hs Hk. unfold finish. destruct r as [[[s' lk] e]|[[s' lk] e]|]; simpl in *;
    [by eapply cc_inv_store | by eapply cc_inv_store | done].
Qed.

(** A new stream gets an identifier that no stream had before. *)
Lemma cc_inv_newStream n ch ch1 id c :
  cc_inv n ch -> n + 1 < 2 ^ 64 -> nextStreamID ch = (ch1, id) ->
  rg_heap (cc_reg ch) !! id = None /\
  match newStream c id ch1 with
  | (ch2, inl s) => cc_inv (n + 1) ch2 /\ rg_heap (cc_reg ch2) !! id = Some s /\
                    bs_id (base_of s) = id
  | (ch2, inr _) => cc_inv (n + 1) ch2
  end.
Proof using Type.
  intros [H1 H2 H3] Hn. unfold nextStreamID.
  rewrite wrap64_small by lia. intros [= <- <-].
  assert (Hfresh : rg_heap (cc_reg ch) !! (cc_streamIDCounter ch + 1) = None).
  { destruct (rg_heap (cc_reg ch) !! _) as [s|] eqn:E; [|done]. apply H3 in E. lia. }
  split; [done|]. unfold newStream. cbn [cc_reg].
  replace (rg_lookup _ (cc_reg ch)) with (@None clientStream).
  2: { unfold rg_lookup. by case_decide. }
  case_decide as Hsz.
  - constructor; simpl; [done | lia|]. intros id s Hs. apply H3 in Hs. lia.
  - split_and!; [|by simpl; rewrite lookup_insert_eq | done].
    constructor; simpl; [apply rg_add_inv; try done; pose proof (ri_size _ H1); lia | lia|].
    intros id s [[<- <-]|[? Hs]]%lookup_insert_Some; [lia|]. apply H3 in Hs. lia.
Qed.

Lemma close_streams_inv n ch ids r :
  (forall id s, rg_heap r !! id = Some s -> 0 < id <= cc_streamIDCounter ch) ->
  cc_inv n (set_reg r ch) ->
  outcome_all (fun r' => cc_inv n (set_reg r' ch)) (close_streams ids r).
Proof using Type.
  revert r. induction ids as [|id ids IH]; intros r Hh Hi; simpl; [done|].
  destruct (rg_heap r !! id) as [s|] eqn:Hs; [|by apply IH].
  pose proof (cs_Close_id s) as Hid.
  destruct (cs_Close s) as [s'|s'|]; simpl in *; [| |done].
  - pose proof (cc_inv_store n (set_reg r ch) id s s' (cc_link ch) Hi Hs Hid) as Hi'.
    apply IH; [|exact Hi']. intros id' t Ht. by apply (cci_ids _ _ Hi' id' t).
  - exact (cc_inv_store n (set_reg r ch) id s s' (cc_link ch) Hi Hs Hid).
Qed.

Lemma ch_op_inv n o ch : n + 1 < 2 ^ 64 -> cc_inv n ch -> cc_inv (n + 1) (ch_op o ch).
Proof using Type.
  intros Hn Hi. assert (Hi1 : cc_inv (n + 1) ch) by (by eapply cc_inv_mono; [|exact Hi]; lia).
  destruct o as [c h|c h a|pc id r|id m eos|id|]; simpl.
  - unfold newClientStream. destruct (nextStreamID ch) as [ch1 id] eqn:E.
    destruct (cc_inv_newStream n ch ch1 id c Hi Hn E) as [_ H2].
    destruct (newStream c id ch1) as [ch2 [s|e]]; [|done]. destruct H2 as (H2 & Hs & _).
    pose proof (cc_inv_finish (n + 1) ch2 id s _ H2 Hs (writeHeaders_id h s (cc_link ch2))) as Hf.
    by destruct (finish _ _ _) as [[]|[]|].
  - unfold invoke_send. destruct (nextStreamID ch) as [ch1 id] eqn:E.
    destruct (cc_inv_newStream n ch ch1 id c Hi Hn E) as [_ H2].
    destruct (newStream c id ch1) as [ch2 [s|e]]; [|done]. destruct H2 as (H2 & Hs & _).
    pose proof (writeHeaders_id h s (cc_link ch2)) as Hw.
    destruct (writeHeaders h s (cc_link ch2)) as [[[s1 lk1] [e|]]|[[s1 lk1] e]|]; cbn [outcome_ch finish].
    + by eapply cc_inv_store.
    + assert (Hk : keeps_id s (writeMessage marshal maxPacket (Some a) true s1 lk1)).
      { pose proof (writeMessage_id marshal maxPacket (Some a) true s1 lk1) as Hm.
        unfold keeps_id in *. simpl in Hw.
        destruct (writeMessage _ _ _ _ _ _) as [[[]]|[[]]|]; simpl in *; congruence. }
      pose proof (cc_inv_finish (n + 1) ch2 id s _ H2 Hs Hk) as Hf.
      by destruct (finish _ _ _) as [[]|[]|].
    + by eapply cc_inv_store.
    + done.
  - unfold onChannelMessage. destruct id as [id|]; [|done].
    destruct (rg_lookup id (cc_reg ch)) as [s|] eqn:Hl; [|done].
    apply rg_lookup_Some in Hl as [_ Hs]. pose proof (onResponse_id Max pc r s) as Hid.
    destruct (onResponse Max pc r s) as [s'|s'|]; simpl in Hid; [| |done];
      exact (cc_inv_store (n + 1) ch id s s' (cc_link ch) Hi1 Hs Hid).
  - destruct (rg_heap (cc_reg ch) !! id) as [s|] eqn:Hs; [|done].
    by eapply cc_inv_finish; [| |apply writeMessage_id].
  - destruct (rg_heap (cc_reg ch) !! id) as [s|] eqn:Hs; [|done].
    by eapply cc_inv_finish; [| |apply resetStream_id].
  - unfold cc_Close.
    pose proof (close_streams_inv (n + 1) ch (elements (rg_active (cc_reg ch))) (cc_reg ch)
                  (cci_ids _ _ Hi1)) as Hc.
    replace (set_reg (cc_reg ch) ch) with ch in Hc by by destruct ch.
    specialize (Hc Hi1). destruct (close_streams _ _) as [r|r|]; [|done|done].
    destruct Hc as [A1 A2 A3]. by constructor.
Qed.

Lemma run_ch_ops_inv ops n ch :
  n + Z.of_nat (length ops) < 2 ^ 64 -> cc_inv n ch ->
  cc_inv (n + Z.of_nat (length ops)) (run_ops ch_op ops ch).
Proof using Type.
  revert n ch. induction ops as [|o ops IH]; intros n ch Hn Hi; cbn [run_ops length] in *.
  { by replace (n + Z.of_nat 0) with n by lia. }
  replace (n + Z.of_nat (S (length ops))) with (n + 1 + Z.of_nat (length ops)) in * by lia.
  apply IH; [lia|]. apply ch_op_inv; [lia | done].
Qed.
End Ops.
End ClientChannelProofs.

(** ** Server channel: invariants *)

Module ServerChannelProofs.
Import ServerChannel.

Section Ids.
Context `{Multierr goerror} `{GrpcStatus}.

Definition ss_keeps_id {A} (s : serverStream) (r : outcome (A * sst * admission)) : Prop :=
  outcome_all (fun '(_, st, _) => bs_id (base_of (fst st)) = bs_id (base_of s)) r.

Lemma ss_writeHeaders_base st : ss_base (fst (fst (ss_writeHeaders st))) = ss_base (fst st).
Proof using Type.
  destruct st as [s lk]. unfold ss_writeHeaders. destruct (ss_headersWritten s); [done|].
  by destruct (link_write _ lk).
Qed.

Lemma closeWithSendError_id cv err s lk :
  outcome_all (fun '(st, _) => bs_id (ss_base (fst st)) = bs_id (ss_base s))
    (closeWithSendError cv err (s, lk)).
Proof using Type.
  unfold closeWithSendError. destruct (ss_sendClosed s); [done|].
  destruct (closeWithSendError_body _ _ _) as [[s1 lk1] e1] eqn:E.
  assert (Hb : ss_base s1 = ss_base s).
  { unfold closeWithSendError_body in E.
    destruct (errors_Is_opt err _); [by simplify_eq|].
    destruct (_ || _); [by destruct (_ && _); simplify_eq|].
    pose proof (ss_writeHeaders_base (ss_set_sendClosed true s, lk)) as Hw.
    destruct (ss_writeHeaders _) as [[s2 lk2] [e2|]]; simpl in Hw; [by simplify_eq|].
    by destruct (link_write _ lk2); simplify_eq. }
  pose proof (closeWithError_id None false (ss_base s1)) as Hc. rewrite Hb in Hc.
  unfold close. rewrite Hb. by destruct (closeWithError None false (ss_base s)).
Qed.

Lemma ss_processMessage_id Max pc hm p eos s :
  outcome_all (fun s' => bs_id (base_of s') = bs_id (base_of s))
    (ss_processMessage Max pc hm p eos s).
Proof using Type.
  assert (Hcr : forall b, outcome_all (fun b' => bs_id b' = bs_id b) (CloseRecv b)).
  { intros b. unfold CloseRecv, closeRecv. by repeat (case_match; simpl in *; simplify_eq). }
  assert (Hfin : forall b, bs_id b = bs_id (ss_base s) ->
    outcome_all (fun s' => bs_id (base_of s') = bs_id (base_of s))
      (if eos then match CloseRecv b with
                   | Returns b' => Returns (ss_set_base b' s)
                   | Blocks b' => Blocks (ss_set_base b' s)
                   | Panics => Panics end
       else Returns (ss_set_base b s))).
  { intros b Hb. destruct eos; [|done]. specialize (Hcr b).
    destruct (CloseRecv b); simpl in *; try done; unfold base_of, serverStream_like; simpl; congruence. }
  unfold ss_processMessage. destruct (bs_recvClosed (ss_base s)); [done|].
  destruct hm; [|by apply Hfin]. destruct p as [p|].
  - destruct (processMessage Max p (ss_base s)) as [b1 [d eop]] eqn:Hp.
    pose proof (processMessage_only_buf _ _ _ _ _ Hp) as [buf Hb].
    destruct eop; simpl; [|by subst]. destruct (enter_sender b1) as [b2|] eqn:He; [|by subst].
    pose proof (handover_id _ _ _ _ _ _ pc d Hp He) as Hd.
    destruct (deliver pc d b2); simpl in Hd; [by apply Hfin | done | done].
  - pose proof (closeWithError_id
      (Some (ENew "expected RequestMessage.PacketMessgae to not be nil but it was")) false (ss_base s)).
    by destruct (closeWithError _ _ _).
Qed.

Lemma onRequest_id Max pc cv r sv s lk : ss_keeps_id s (onRequest Max pc cv r sv (s, lk)).
Proof using Type.
  assert (Hc : forall err sv', ss_keeps_id s
    match closeWithSendError cv err (s, lk) with
    | Returns (st', _) => Returns (sv' : webrtcServer, st', NotStarted)
    | Blocks (st', _) => Blocks (sv', st', NotStarted)
    | Panics => Panics
    end).
  { intros err sv'. pose proof (closeWithSendError_id cv err s lk).
    by destruct (closeWithSendError cv err (s, lk)) as [[[]]|[[]]|]. }
  unfold onRequest. destruct r as [id h|id hm p eos|id|id]; cbn [fst snd]; auto.
  - destruct (ss_headersReceived s); [auto|]. unfold ss_processHeaders.
    destruct (_ && _); [auto|]. destruct (sv_ctxErr _); [done|]. by case_decide.
  - destruct (ss_headersReceived s); simpl; [|auto].
    pose proof (ss_processMessage_id Max pc hm p eos s).
    by destruct (ss_processMessage Max pc hm p eos s).
Qed.
End Ids.

(** One incoming request, whatever becomes of it. *)
Definition sc_op `{Multierr goerror} `{GrpcStatus} (Max : Z) (o : bool * option request)
    (w : webrtcServer * serverChannel) : webrtcServer * serverChannel :=
  match sc_onChannelMessage Max (fst o) (snd o) (fst w) (snd w) with
  | Returns (sv, ch, _) | Blocks (sv, ch, _) => (sv, ch)
  | Panics => w
  end.

Section Invariant.
Context `{Multierr goerror} `{GrpcStatus} (Max : Z).

Lemma dispatch_inv pc req s sv ch :
  rg_inv (sc_reg ch) -> bs_id (base_of s) = request_id req ->
  outcome_all (fun '(_, ch', _) => rg_inv (sc_reg ch')) (dispatch Max pc req s sv ch).
Proof using Type.
  intros Hi Hid. unfold dispatch.
  pose proof (onRequest_id Max pc (sc_view ch) req sv s (link_of (request_id req) ch)) as Hk.
  unfold ss_keeps_id in Hk.
  destruct (onRequest _ _ _ _ _ _) as [[[sv' [s' lk']] a]|[[sv' [s' lk']] a]|]; simpl in *; [| |done];
    apply rg_store_inv; congruence.
Qed.

Lemma sc_op_inv o w : rg_inv (sc_reg (snd w)) -> rg_inv (sc_reg (snd (sc_op Max o w))).
Proof using Type.
  destruct w as [sv ch], o as [pc [req|]]; intros Hi; unfold sc_op, sc_onChannelMessage; simpl in *; [|done].
  assert (Hd : forall s ch', rg_inv (sc_reg ch') -> bs_id (base_of s) = request_id req ->
    rg_inv (sc_reg (snd (match dispatch Max pc req s sv ch' with
                         | Returns (sv', c, _) | Blocks (sv', c, _) => (sv', c)
                         | Panics => (sv, ch) end)))).
  { intros s ch' Hi' Hid. pose proof (dispatch_inv pc req s sv ch' Hi' Hid).
    by destruct (dispatch _ _ _ _ _ _) as [[[]]|[[]]|]. }
  destruct (rg_lookup _ _) as [s|] eqn:Hl.
  { apply rg_lookup_Some in Hl as [_ Hl]. apply Hd; [done|]. by apply (ri_id _ Hi). }
  case_decide; [done|]. destruct req; try done. apply Hd; [|done]. simpl.
  apply rg_add_inv; try done. pose proof (ri_size _ Hi). lia.
Qed.
End Invariant.
End ServerChannelProofs.

(** ** Properties *)

(** C31: Over any use of a client channel with fewer than 2^64 operations, at most
    WebRTCMaxStreamCount streams are active, every active stream is registered
    under its own identifier and has not reported to be done, and the
    identifier that the next stream gets was never used. *)
Theorem client_channel_streams {Msg} (marshal : Msg -> bytes + goerror) (maxPacket : nat)
    (MaxMessageSize : Z) (ctxErr : option goerror) (results : list (option goerror))
    (ops : list (ClientChannelProofs.chOp Msg)) (Hlen : Z.of_nat (length ops) + 1 < 2 ^ 64) :
  let ch := run_ops (ClientChannelProofs.ch_op marshal maxPacket MaxMessageSize) ops
              (ClientChannel.newWebRTCClientChannel ctxErr results) in
  rg_inv (ClientChannel.cc_reg ch) /\
  rg_heap (ClientChannel.cc_reg ch) !! snd (ClientChannel.nextStreamID ch) = None.
Proof.
  intros ch.
  pose proof (ClientChannelProofs.run_ch_ops_inv marshal maxPacket MaxMessageSize ops 0
                (ClientChannel.newWebRTCClientChannel ctxErr results) ltac:(lia)) as Hi.
  assert (H0 : ClientChannelProofs.cc_inv 0 (ClientChannel.newWebRTCClientChannel ctxErr results)).
  { constructor; simpl; [apply rg_empty_inv | lia|]. intros id s Hs. by rewrite lookup_empty in Hs. }
  specialize (Hi H0). fold ch in Hi. split; [apply Hi|].
  destruct (ClientChannel.nextStreamID ch) as [ch1 id] eqn:E.
  by destruct (ClientChannelProofs.cc_inv_newStream _ ch ch1 id None Hi ltac:(lia) E).
Qed.

Lemma client_channel_streams_witness :
  let ch := run_ops (ClientChannelProofs.ch_op (fun m : bytes => inl m) 2 10)
              [ClientChannelProofs.ChNewStream None (mkRequestHeaders "/svc/m" None 0);
               ClientChannelProofs.ChClose]
              (ClientChannel.newWebRTCClientChannel None []) in
  rg_inv (ClientChannel.cc_reg ch) /\
  rg_heap (ClientChannel.cc_reg ch) !! snd (ClientChannel.nextStreamID ch) = None.
Proof.
  apply (client_channel_streams (fun m : bytes => inl m) 2 10 None []
    [ClientChannelProofs.ChNewStream None (mkRequestHeaders "/svc/m" None 0);
     ClientChannelProofs.ChClose]).
  reflexivity.
Defined.

(** A channel that has the limit of streams refuses a further one with the
    stream limit error and is not changed by it; below the limit the new
    stream becomes active. *)
Theorem client_stream_limit (ch : ClientChannel.clientChannel) (callerCtxErr : option goerror) (id : Z)
    (Hnew : id ∉ rg_active (ClientChannel.cc_reg ch)) :
  let '(ch', r) := ClientChannel.newStream callerCtxErr id ch in
  if decide (size (rg_active (ClientChannel.cc_reg ch)) = WebRTCMaxStreamCount)
  then ch' = ch /\ r = inr (EIs errWebRTCMaxStreams)
  else exists s, r = inl s /\ rg_lookup id (ClientChannel.cc_reg ch') = Some s /\
         rg_active (ClientChannel.cc_reg ch') = {[id]} ∪ rg_active (ClientChannel.cc_reg ch).
Proof.
  unfold ClientChannel.newStream. replace (rg_lookup id _) with (@None clientStream).
  2: { unfold rg_lookup. by case_decide. }
  case_decide; [done|]. eexists. split_and!; [done| |done].
  unfold rg_lookup. simpl. rewrite decide_True by set_solver. by rewrite lookup_insert_eq.
Qed.

Lemma client_stream_limit_witness :
  let ch := ClientChannel.newWebRTCClientChannel None [] in
  let '(ch', r) := ClientChannel.newStream None 1 ch in
  if decide (size (rg_active (ClientChannel.cc_reg ch)) = WebRTCMaxStreamCount)
  then ch' = ch /\ r = inr (EIs errWebRTCMaxStreams)
  else exists s, r = inl s /\ rg_lookup 1 (ClientChannel.cc_reg ch') = Some s /\
         rg_active (ClientChannel.cc_reg ch') = {[1]} ∪ rg_active (ClientChannel.cc_reg ch).
Proof.
  intros ch. apply (client_stream_limit ch None 1). apply not_elem_of_empty.
Defined.

(** A response reaches only the stream it names: every other stream and
    whether it is active stay as they were, and a response for a stream that is
    not active changes nothing at all. *)
Theorem client_response_isolated (MaxMessageSize : Z) (preferCtx : bool) (id id' : Z)
    (resp : response) (ch : ClientChannel.clientChannel) (Hne : id <> id') :
  outcome_all (fun ch' =>
      rg_heap (ClientChannel.cc_reg ch') !! id' = rg_heap (ClientChannel.cc_reg ch) !! id' /\
      (id' ∈ rg_active (ClientChannel.cc_reg ch') <-> id' ∈ rg_active (ClientChannel.cc_reg ch)) /\
      (id ∉ rg_active (ClientChannel.cc_reg ch) -> ch' = ch))
    (ClientChannel.onChannelMessage MaxMessageSize preferCtx (Some id) resp ch).
Proof.
  unfold ClientChannel.onChannelMessage. destruct (rg_lookup id _) as [s|] eqn:Hl; [|done].
  apply rg_lookup_Some in Hl as [Hin _].
  destruct (onResponse _ _ _ s) as [s'|s'|]; simpl; [| |done];
    (destruct (rg_store_other id id' s' (ClientChannel.cc_reg ch) Hne); split_and!; done).
Qed.

Lemma client_response_isolated_witness :
  let ch := fst (ClientChannel.newStream None 2 (ClientChannel.newWebRTCClientChannel None [])) in
  outcome_all (fun ch' =>
      rg_heap (ClientChannel.cc_reg ch') !! 2 = rg_heap (ClientChannel.cc_reg ch) !! 2 /\
      (2 ∈ rg_active (ClientChannel.cc_reg ch') <-> 2 ∈ rg_active (ClientChannel.cc_reg ch)) /\
      (1 ∉ rg_active (ClientChannel.cc_reg ch) -> ch' = ch))
    (ClientChannel.onChannelMessage 10 true (Some 1) (RespHeaders None) ch).
Proof. intros ch. by apply (client_response_isolated 10 true 1 2 (RespHeaders None) ch). Defined.

(** Whatever requests arrive at a server channel, at most WebRTCMaxStreamCount
    streams are active, each registered under its own identifier and not done;
    and a request for an unknown stream that is not headers is discarded. *)
Theorem server_channel_streams `{Multierr goerror} `{GrpcStatus} (MaxMessageSize : Z)
    (ctxErr : option goerror) (links : gmap Z (link response)) (sv : webrtcServer)
    (reqs : list (bool * option request)) :
  let '(sv', ch) := run_ops (ServerChannelProofs.sc_op MaxMessageSize) reqs
                     (sv, ServerChannel.newWebRTCServerChannel ctxErr links) in
  rg_inv (ServerChannel.sc_reg ch) /\
  forall pc req, ServerChannel.request_id req ∉ rg_active (ServerChannel.sc_reg ch) ->
    (forall id h, req <> ReqHeaders id h) ->
    ServerChannel.sc_onChannelMessage MaxMessageSize pc (Some req) sv' ch = Returns (sv', ch, NotStarted).
Proof.
  destruct (run_ops _ reqs _) as [sv' ch] eqn:E. split.
  - change ch with (snd (sv', ch)). rewrite <- E.
    apply (run_ops_invariant _ (fun w => rg_inv (ServerChannel.sc_reg (snd w)))).
    + intros o w. apply ServerChannelProofs.sc_op_inv.
    + apply rg_empty_inv.
  - intros pc req Hin Hreq. unfold ServerChannel.sc_onChannelMessage, rg_lookup.
    rewrite decide_False by done. case_decide; [done|]. by destruct req; [edestruct Hreq| | |].
Qed.
