(* ===== verification/UnaryCall.v ===== *)
(** * A unary call over a data channel:
      [invoke] of [rpc/wrtc_client_channel.go] against [onChannelMessage] of
      [rpc/wrtc_server_channel.go] and [unaryHandler] of [rpc/wrtc_server.go]

    The client channel, the server channel, the server and the method's
    handler put together: the requests that [invoke] writes arrive at the
    server channel in order, the handler goroutine that the headers start
    receives its argument and answers, and what it writes arrives at the client
    that waits in [RecvMsg]. Both ends receive as messages come.

    protobuf is the pair [marshal], [unmarshal]; the method's handler is
    a function of its argument. *)

From S2P Require Import Prelude GoError BaseStream ClientStream ServerStream Channels.
Import ClientChannel ServerChannel.
Local Open Scope go_scope.
Local Open Scope Z_scope.

(** What a method's handler does: the headers and trailers that it sets, in
    order, and what it returns. *)
Record handlerResult (Msg : Type) := mkHandlerResult {
  hr_headers : list MD;
  hr_trailers : list MD;
  hr_result : Msg + goerror;
}.
Arguments mkHandlerResult {Msg} _ _ _.
Arguments hr_headers {Msg} _.
Arguments hr_trailers {Msg} _.
Arguments hr_result {Msg} _.

(** What [invoke] leaves its caller: the reply or the error, and what the
    Header and Trailer call options are filled with. *)
Record callResult (Msg : Type) := mkCallResult {
  cr_result : Msg + goerror;
  cr_header : MD;
  cr_trailer : MD;
}.
Arguments mkCallResult {Msg} _ _ _.
Arguments cr_result {Msg} _.
Arguments cr_header {Msg} _.
Arguments cr_trailer {Msg} _.

Section Unary.
Context `{Multierr goerror} `{GrpcStatus} (mdJoin : gmap string (list string) ->
  gmap string (list string) -> gmap string (list string)).
Context {Msg : Type} (marshal : Msg -> bytes + goerror) (unmarshal : bytes -> Msg + goerror).
Context (reqPacket respPacket : nat) (MaxMessageSize : Z).

(** What a receiver makes of [RecvMsg]: without an error and without bytes it has
    the message it passed in, which is an empty one. *)
Definition decode (r : recvResult) : Msg + goerror :=
  match r with
  | RecvBytes data => unmarshal data
  | RecvErr None => unmarshal []
  | RecvErr (Some e) => inr e
  end.

(** ** The server's end *)

(** A request arrives, and the handler of its stream takes what there is to
    take. *)
Definition sc_receive (req : request) (sv : webrtcServer) (ch : serverChannel)
    : option (webrtcServer * serverChannel * admission * list recvResult) :=
  match sc_onChannelMessage MaxMessageSize false (Some req) sv ch with
  | Returns (sv', ch', a) =>
      match rg_heap (sc_reg ch') !! request_id req with
      | Some s =>
          match bs_msgs (ss_base s) with
          | [] => Some (sv', ch', a, [])
          | _ =>
              match RecvMsg false (ss_base s) with
              | Returns (b, r) =>
                  Some (sv', mkServerChannel (sc_ctxErr ch') (sc_view ch')
                               (mkRegistry (<[request_id req := ss_set_base b s]> (rg_heap (sc_reg ch')))
                                  (rg_active (sc_reg ch'))) (sc_links ch'), a, [r])
              | _ => None
              end
          end
      | None => Some (sv', ch', a, [])
      end
  | _ => None
  end.

(** Requests one after the other: whether one of them started the handler, and
    what the handler received. *)
Fixpoint sc_receive_all (reqs : list request) (sv : webrtcServer) (ch : serverChannel)
    : option (webrtcServer * serverChannel * bool * list recvResult) :=
  match reqs with
  | [] => Some (sv, ch, false, [])
  | req :: reqs' =>
      match sc_receive req sv ch with
      | Some (sv1, ch1, a, out) =>
          match sc_receive_all reqs' sv1 ch1 with
          | Some (sv2, ch2, started, out') =>
              Some (sv2, ch2, match a with Started => true | NotStarted => started end, out ++ out')
          | None => None
          end
      | None => None
      end
  end.

(** The handler of a unary method: it receives its argument, an error of which
    it returns, runs, and [unaryHandler] ends the call. It waits for ever when
    nothing comes. *)
Definition run_unary_handler (handler : Msg -> handlerResult Msg) (cv : chanView)
    (received : list recvResult) (st : sst) : outcome (sst * option goerror) :=
  match received with
  | [] => Blocks (st, None)
  | r :: _ =>
      match decode r with
      | inr e => unaryHandler marshal respPacket cv (inr e) st
      | inl m =>
          let hr := handler m in
          let s1 := foldl (fun s md => fst (SetHeader mdJoin md s)) (fst st) (hr_headers hr) in
          let s2 := foldl (fun s md => SetTrailer mdJoin md s) s1 (hr_trailers hr) in
          unaryHandler marshal respPacket cv (hr_result hr) (s2, snd st)
      end
  end.

(** The goroutine of an admitted call, from its handler to the ticket that
    it gives back. *)
Definition sc_handle (handler : Msg -> handlerResult Msg) (id : Z) (received : list recvResult)
    (sv : webrtcServer) (ch : serverChannel) : option (webrtcServer * serverChannel) :=
  match rg_heap (sc_reg ch) !! id with
  | None => None
  | Some s =>
      match run_unary_handler handler (sc_view ch) received (s, link_of id ch) with
      | Returns ((s', lk'), _) =>
          Some (handler_done sv,
                mkServerChannel (sc_ctxErr ch) (sc_view ch) (rg_store id s' (sc_reg ch))
                  (<[id := lk']> (sc_links ch)))
      | _ => None
      end
  end.

(** ** The client's end *)

Definition put_stream (id : Z) (s : clientStream) (ch : clientChannel) : clientChannel :=
  set_reg (mkRegistry (<[id := s]> (rg_heap (cc_reg ch))) (rg_active (cc_reg ch))) ch.

(** The end of [invoke]: it waits in [RecvMsg] while the responses come,
    then copies headers and trailers for the call options. The responses that
    came after are still to be processed. *)
Fixpoint invoke_recv (id : Z) (resps : list response) (ch : clientChannel)
    : option (clientChannel * callResult Msg * list response) :=
  match rg_heap (cc_reg ch) !! id with
  | None => None
  | Some s =>
      match RecvMsg false (cs_base s) with
      | Returns (b, r) =>
          Some (put_stream id (cs_set_base b s) ch,
                mkCallResult (decode r) (cs_headers s) (cs_trailers s), resps)
      | Panics => None
      | Blocks _ =>
          match resps with
          | [] => None
          | resp :: resps' =>
              match onChannelMessage MaxMessageSize false (Some id) resp ch with
              | Returns ch' => invoke_recv id resps' ch'
              | _ => None
              end
          end
      end
  end.

(** Responses for a stream that nobody receives from any more. *)
Fixpoint cc_process_all (id : Z) (resps : list response) (ch : clientChannel) : option clientChannel :=
  match resps with
  | [] => Some ch
  | resp :: resps' =>
      match onChannelMessage MaxMessageSize false (Some id) resp ch with
      | Returns ch' => cc_process_all id resps' ch'
      | _ => None
      end
  end.

(** ** The call *)

(** The whole call, [None] when some end waits for ever. *)
Definition unary_call (handler : Msg -> handlerResult Msg) (headers : requestHeaders) (args : Msg)
    (cch : clientChannel) (sv : webrtcServer) (sch : serverChannel)
    : option (callResult Msg * clientChannel * webrtcServer * serverChannel) :=
  match invoke_send marshal reqPacket None headers args cch with
  | Returns (cch1, None) =>
      let id := cc_streamIDCounter cch1 in
      let requests := drop (length (lk_sent (cc_link cch))) (lk_sent (cc_link cch1)) in
      match sc_receive_all requests sv sch with
      | Some (sv1, sch1, started, received) =>
          match (if started then sc_handle handler id received sv1 sch1 else Some (sv1, sch1)) with
          | Some (sv2, sch2) =>
              let responses := drop (length (lk_sent (link_of id sch))) (lk_sent (link_of id sch2)) in
              match invoke_recv id responses cch1 with
              | Some (cch2, result, rest) =>
                  match cc_process_all id rest cch2 with
                  | Some cch3 => Some (result, cch3, sv2, sch2)
                  | None => None
                  end
              | None => None
              end
          | None => None
          end
      | None => None
      end
  | _ => None
  end.
End Unary.

(** ** The client sends *)

Section Proofs.
Context `{Multierr goerror} `{GrpcStatus} (mdJoin : gmap string (list string) ->
  gmap string (list string) -> gmap string (list string)).
Context {Msg : Type} (marshal : Msg -> bytes + goerror) (unmarshal : bytes -> Msg + goerror).
Context (reqPacket respPacket : nat) (MaxMessageSize : Z).
Context (HreqPacket : (0 < reqPacket)%nat) (HrespPacket : (0 < respPacket)%nat).

(** The stream of a unary call once its only message is sent. *)
Definition sent_stream (id : Z) : clientStream :=
  cs_set_sendClosed true (newWebRTCClientStream None None id).

Definition next_id (ch : clientChannel) : Z := wrap64 (cc_streamIDCounter ch + 1).

(** A client channel on which a call can be made. *)
Record client_ready (ch : clientChannel) : Prop := {
  cr_ctx : cc_ctxErr ch = None;
  cr_fresh : next_id ch ∉ rg_active (cc_reg ch);
  cr_room : size (rg_active (cc_reg ch)) <> WebRTCMaxStreamCount;
  cr_writes : Forall (fun r => r = None) (lk_results (cc_link ch));
}.

Lemma rg_store_open `{StreamLike A} id (s : A) r :
  bs_done (base_of s) = [] ->
  rg_store id s r = mkRegistry (<[id := s]> (rg_heap r)) (rg_active r).
Proof using Type. unfold rg_store. by intros ->. Qed.

Lemma rg_store_done `{StreamLike A} id (s : A) r i :
  bs_done (base_of s) = [i] -> rg_active (rg_store id s r) = rg_active r ∖ {[id]}.
Proof using Type. unfold rg_store. by intros ->. Qed.

Lemma added_and_removed (id : Z) (X : gset Z) : id ∉ X -> ({[id]} ∪ X) ∖ {[id]} = X.
Proof using Type. intros. clear - H1. set_solver. Qed.

Lemma rg_lookup_inactive `{StreamLike A} id (r : registry A) :
  id ∉ rg_active r -> rg_lookup id r = None.
Proof using Type. unfold rg_lookup. intros. by rewrite decide_False. Qed.

(** A message, or the end of the stream, on an open stream whose writes succeed. *)
Lemma writeMessage_ok m eos s lk data :
  cs_sendClosed s = false -> (match m with Some m => marshal m | None => inl [] end) = inl data ->
  Forall (fun r => r = None) (lk_results lk) ->
  exists lk',
    writeMessage marshal reqPacket m eos s lk
    = Returns (if eos then cs_set_sendClosed true s else s, lk', None) /\
    lk_sent lk' = lk_sent lk ++
      message_requests (bs_id (cs_base s)) reqPacket (bool_decide (is_Some m)) eos data /\
    Forall (fun r => r = None) (lk_results lk').
Proof using HreqPacket.
  intros Ho Hm Hok. unfold writeMessage. rewrite Ho.
  rewrite (writeMessage_body_packets marshal reqPacket HreqPacket m eos _ lk data Hm).
  destruct (write_all_link_ok
    (fun p => ReqMessage (bs_id (cs_base s)) (bool_decide (is_Some m)) (Some p) eos)
    (message_packets reqPacket data) lk Hok) as (lk' & -> & Hs & Hok').
  by exists lk'.
Qed.

(** The request headers on a new stream. *)
Lemma writeHeaders_sent headers s lk :
  Forall (fun r => r = None) (lk_results lk) ->
  exists lk', writeHeaders headers s lk = Returns (s, lk', None) /\
    lk_sent lk' = lk_sent lk ++ [ReqHeaders (bs_id (cs_base s)) headers] /\
    Forall (fun r => r = None) (lk_results lk').
Proof using Type.
  intros Hok. unfold writeHeaders.
  destruct (link_write_ok (ReqHeaders (bs_id (cs_base s)) headers) lk Hok) as (lk' & -> & Hs & Hok').
  by exists lk'.
Qed.

Lemma newStream_ready ch :
  client_ready ch ->
  newStream None (next_id ch) (mkClientChannel (cc_ctxErr ch) (next_id ch) (cc_reg ch) (cc_link ch))
  = (mkClientChannel None (next_id ch)
       (rg_add (next_id ch) (newWebRTCClientStream None None (next_id ch)) (cc_reg ch)) (cc_link ch),
     inl (newWebRTCClientStream None None (next_id ch))).
Proof using Type.
  intros [Hctx Hfresh Hroom _]. unfold newStream. cbn [cc_reg cc_ctxErr set_reg].
  rewrite rg_lookup_inactive, decide_False by done. by rewrite Hctx.
Qed.

Lemma invoke_send_ok headers args data ch :
  client_ready ch -> marshal args = inl data ->
  exists lk,
    invoke_send marshal reqPacket None headers args ch
    = Returns (mkClientChannel None (next_id ch) (rg_add (next_id ch) (sent_stream (next_id ch)) (cc_reg ch)) lk,
               None) /\
    lk_sent lk = lk_sent (cc_link ch) ++
      ReqHeaders (next_id ch) headers :: message_requests (next_id ch) reqPacket true true data.
Proof using HreqPacket.
  intros Hr Hm. unfold invoke_send, nextStreamID. fold (next_id ch). rewrite newStream_ready by done.
  destruct (writeHeaders_sent headers (newWebRTCClientStream None None (next_id ch)) (cc_link ch)
    (cr_writes _ Hr)) as (lk1 & Hw & Hs1 & Hok1).
  cbn [cc_link]. rewrite Hw.
  destruct (writeMessage_ok (Some args) true (newWebRTCClientStream None None (next_id ch)) lk1 data
    eq_refl Hm Hok1) as (lk2 & -> & Hs2 & _).
  exists lk2. cbn [finish]. split.
  - rewrite rg_store_open by done. unfold rg_add. simpl. by rewrite insert_insert_eq.
  - rewrite Hs2, Hs1, <- app_assoc. by rewrite bool_decide_true.
Qed.

(** ** The server receives *)

Definition with_server_stream (id : Z) (s : serverStream) (lk : link response) (ch : serverChannel)
    : serverChannel :=
  mkServerChannel (sc_ctxErr ch) (sc_view ch)
    (mkRegistry (<[id := s]> (rg_heap (sc_reg ch))) (rg_active (sc_reg ch)))
    (<[id := lk]> (sc_links ch)).

Lemma with_server_stream_twice id s1 lk1 s2 lk2 ch :
  with_server_stream id s2 lk2 (with_server_stream id s1 lk1 ch) = with_server_stream id s2 lk2 ch.
Proof using Type. unfold with_server_stream. simpl. by rewrite !insert_insert_eq. Qed.

Lemma link_of_with id s lk ch : link_of id (with_server_stream id s lk ch) = lk.
Proof using Type. unfold link_of. simpl. by rewrite lookup_insert_eq. Qed.

(** Processing a message does not report the stream as done. *)
Lemma ss_processMessage_done pc p eos s s' :
  ss_processMessage MaxMessageSize pc true (Some p) eos s = Returns s' ->
  bs_done (ss_base s') = bs_done (ss_base s) /\ ss_headersReceived s' = ss_headersReceived s.
Proof using Type.
  unfold ss_processMessage. destruct (bs_recvClosed (ss_base s)); [by intros; simplify_eq|].
  destruct (processMessage MaxMessageSize p (ss_base s)) as [b1 [d eop]] eqn:Hp.
  apply processMessage_only_buf in Hp as [buf ->].
  unfold enter_sender, deliver, CloseRecv, closeRecv.
  intros Hr. repeat case_match; by simplify_eq.
Qed.

Lemma heap_with id s lk ch : rg_heap (sc_reg (with_server_stream id s lk ch)) !! id = Some s.
Proof using Type. simpl. by rewrite lookup_insert_eq. Qed.

(** A message request reaches its active stream. *)
Lemma message_dispatched id hm p eos s s' sv lk ch :
  id ∈ rg_active (sc_reg ch) -> ss_headersReceived s = true ->
  ss_processMessage MaxMessageSize false hm p eos s = Returns s' -> bs_done (ss_base s') = [] ->
  sc_onChannelMessage MaxMessageSize false (Some (ReqMessage id hm p eos)) sv (with_server_stream id s lk ch)
  = Returns (sv, with_server_stream id s' lk ch, NotStarted).
Proof using Type.
  intros Hin Hh Hpm Hd. unfold sc_onChannelMessage, rg_lookup. cbn [request_id]. rewrite decide_True by done.
  rewrite heap_with. unfold dispatch. cbn [request_id]. rewrite link_of_with. unfold onRequest.
  cbn [fst snd]. rewrite Hh, Hpm. cbn [negb]. rewrite rg_store_open by done.
  do 3 f_equal. unfold with_server_stream. simpl. by rewrite !insert_insert_eq.
Qed.

(** A step of the stream, taken apart into the request and the receiving. *)
Lemma ss_step_message id p eos s s' out :
  ss_step MaxMessageSize (ReqMessage id true (Some p) eos) s = Some (s', out) ->
  exists s1, ss_processMessage MaxMessageSize false true (Some p) eos s = Returns s1 /\
    bs_done (ss_base s1) = bs_done (ss_base s) /\ ss_headersReceived s1 = ss_headersReceived s /\
    bs_done (ss_base s') = bs_done (ss_base s1) /\
    match bs_msgs (ss_base s1) with
    | [] => s' = s1 /\ out = []
    | _ => exists b r, RecvMsg false (ss_base s1) = Returns (b, r) /\ s' = ss_set_base b s1 /\ out = [r] /\
             length (bs_msgs (ss_base s1)) = S (length (bs_msgs (ss_base s')))
    end.
Proof using Type.
  unfold ss_step. intros Hstep.
  destruct (ss_processMessage _ _ _ _ _ _) as [s1|s1|] eqn:Hpm; [|done|done].
  destruct (ss_processMessage_done _ _ _ _ _ Hpm) as [Hd1 Hh1]. exists s1. do 3 (split; [done|]).
  destruct (bs_msgs (ss_base s1)) eqn:Em; [by simplify_eq|].
  destruct (RecvMsg false (ss_base s1)) as [[b r]|[]|] eqn:Er; [|done|done]. simplify_eq.
  assert (bs_done b = bs_done (ss_base s1) /\ length (bs_msgs (ss_base s1)) = S (length (bs_msgs b))) as [Hd Hl].
  { unfold RecvMsg, checkLastOrErr in Er. rewrite Em in Er |- *. repeat case_match; by simplify_eq. }
  split; [done|]. exists b, r. cbn [ss_set_base ss_base]. by rewrite <- Em.
Qed.

(** A message request on an active stream whose handler receives. *)
Lemma sc_receive_message id p eos s s' out sv lk ch :
  id ∈ rg_active (sc_reg ch) ->
  ss_headersReceived s = true -> bs_done (ss_base s) = [] ->
  ss_step MaxMessageSize (ReqMessage id true (Some p) eos) s = Some (s', out) ->
  sc_receive MaxMessageSize (ReqMessage id true (Some p) eos) sv (with_server_stream id s lk ch)
  = Some (sv, with_server_stream id s' lk ch, NotStarted, out) /\
  ss_headersReceived s' = true /\ bs_done (ss_base s') = [].
Proof using Type.
  intros Hin Hh Hd Hstep. destruct (ss_step_message _ _ _ _ _ _ Hstep) as (s1 & Hpm & Hd1 & Hh1 & Hd2 & Hm).
  unfold sc_receive. rewrite (message_dispatched id true (Some p) eos s s1 sv lk ch Hin Hh Hpm) by congruence.
  cbn [request_id]. rewrite heap_with. destruct (bs_msgs (ss_base s1)).
  - destruct Hm as [-> ->]. split_and!; [done|congruence..].
  - destruct Hm as (b & r & -> & -> & -> & _). split_and!; [|by rewrite <- Hh, <- Hh1 | congruence].
    do 3 f_equal. unfold with_server_stream. simpl. by rewrite !insert_insert_eq.
Qed.

(** The packets of a message, as the handler receives them. *)
Lemma sc_receive_packets id ps eos s s' out sv lk ch :
  id ∈ rg_active (sc_reg ch) -> ss_headersReceived s = true -> bs_done (ss_base s) = [] ->
  ss_pump MaxMessageSize (map (fun p => ReqMessage id true (Some p) eos) ps) s = Some (s', out) ->
  sc_receive_all MaxMessageSize (map (fun p => ReqMessage id true (Some p) eos) ps) sv
    (with_server_stream id s lk ch)
  = Some (sv, with_server_stream id s' lk ch, false, out).
Proof using Type.
  intros Hin. revert s out. induction ps as [|p ps IH]; intros s out Hh Hd; cbn [map ss_pump sc_receive_all].
  { by intros [= -> <-]. }
  destruct (ss_step _ _ s) as [[s1 out1]|] eqn:Hs; [|done].
  destruct (ss_pump _ _ s1) as [[s2 out2]|] eqn:Hp; [|done]. intros [= -> <-].
  destruct (sc_receive_message id p eos s s1 out1 sv lk ch Hin Hh Hd Hs) as (-> & Hh1 & Hd1).
  by rewrite (IH _ _ Hh1 Hd1 Hp).
Qed.

(** A server and its channel that admit the call. *)
Record server_ready (kind : handlerKind) (headers : requestHeaders) (id : Z) (sv : webrtcServer) (ch : serverChannel) : Prop := {
  sr_chctx : sc_ctxErr ch = None;
  sr_timeout : 0 <= rh_timeout headers;
  sr_view : cv_closed (sc_view ch) = false;
  sr_fresh : id ∉ rg_active (sc_reg ch);
  sr_room : size (rg_active (sc_reg ch)) <> WebRTCMaxStreamCount;
  sr_writes : writes_succeed (link_of id ch);
  sr_running : sv_ctxErr sv = None;
  sr_tickets : (sv_tickets sv < sv_maxCalls sv)%nat;
  sr_known : sv_handler (rh_method headers) sv = Some kind;
}.

Definition admitted (sv : webrtcServer) : webrtcServer :=
  sv_set_tickets (S (sv_tickets sv)) (sv_set_workers (S (sv_workers sv)) sv).

Definition activate (id : Z) (ch : serverChannel) : serverChannel :=
  mkServerChannel (sc_ctxErr ch) (sc_view ch)
    (mkRegistry (rg_heap (sc_reg ch)) ({[id]} ∪ rg_active (sc_reg ch))) (sc_links ch).

(** The stream of a call whose headers were received. *)
Definition called_stream (id : Z) (method : string) : serverStream :=
  ss_set_headersReceived true (newWebRTCServerStream None method id).

Lemma headers_admitted kind headers id sv ch :
  server_ready kind headers id sv ch ->
  sc_onChannelMessage MaxMessageSize false (Some (ReqHeaders id headers)) sv ch
  = Returns (admitted sv,
      with_server_stream id (called_stream id (rh_method headers)) (link_of id ch) (activate id ch),
      Started).
Proof using Type.
  intros [Hctx Htm Hv Hf Hr Hw Hrun Ht Hk]. unfold sc_onChannelMessage. cbn [request_id].
  rewrite rg_lookup_inactive, decide_False by done. unfold dispatch. cbn [request_id onRequest newWebRTCServerStream
    ss_headersReceived fst]. unfold ss_processHeaders.
  replace (bool_decide _ && _) with false by by rewrite Hk.
  cbn [sv_ctxErr sv_set_workers]. rewrite Hrun. cbn [sv_tickets sv_set_workers sv_maxCalls].
  rewrite decide_True by done. rewrite rg_store_open by done. unfold rg_add. cbn [sc_reg rg_heap].
  rewrite insert_insert_eq.
  do 3 f_equal. unfold with_server_stream, called_stream, newWebRTCServerStream. simpl.
  rewrite Hctx. unfold handlerCtxErr.
  replace (if rh_timeout headers =? 0 then None else if rh_timeout headers <? 0
           then Some (EIs DeadlineExceeded) else None) with (@None goerror); [done|].
  destruct (Z.eqb_spec (rh_timeout headers) 0); [done|]. by rewrite (proj2 (Z.ltb_ge _ _) Htm).
Qed.

Lemma sc_receive_headers kind headers id sv ch :
  server_ready kind headers id sv ch ->
  sc_receive MaxMessageSize (ReqHeaders id headers) sv ch
  = Some (admitted sv,
          with_server_stream id (called_stream id (rh_method headers)) (link_of id ch) (activate id ch),
          Started, []).
Proof using Type.
  intros Hs. unfold sc_receive. rewrite (headers_admitted kind headers id sv ch Hs). cbn [request_id].
  by rewrite heap_with.
Qed.

(** The requests of a call: the handler is started and receives its argument. *)
Lemma server_receives_call headers id data sv ch :
  server_ready UnaryMethod headers id sv ch -> len data <= MaxMessageSize ->
  sc_receive_all MaxMessageSize
    (ReqHeaders id headers :: message_requests id reqPacket true true data) sv ch
  = Some (admitted sv,
          with_server_stream id (after_eos true (called_stream id (rh_method headers)))
            (link_of id ch) (activate id ch),
          true, [RecvBytes data]).
Proof using HreqPacket.
  intros Hs Hlen. cbn [sc_receive_all]. rewrite (sc_receive_headers UnaryMethod headers id sv ch Hs).
  destruct (server_receives_message_pump MaxMessageSize id reqPacket true data
    (called_stream id (rh_method headers)) false) as [Hp _]; try done.
  unfold message_requests in *.
  assert (Hin : id ∈ rg_active (sc_reg (activate id ch))) by (cbn [activate sc_reg rg_active]; apply elem_of_union_l, elem_of_singleton; reflexivity).
  by rewrite (sc_receive_packets id _ true (called_stream id (rh_method headers)) _ _ (admitted sv)
    (link_of id ch) (activate id ch) Hin eq_refl eq_refl Hp).
Qed.

(** ** The handler answers *)

(** A server stream on which a handler can answer. *)
Record answerable (s : serverStream) : Prop := {
  aw_open : ss_sendClosed s = false;
  aw_unwritten : ss_headersWritten s = false;
  aw_base : Closed (ss_base s) = false;
  aw_senders : bs_activeSenders (ss_base s) = 0%nat;
  aw_recv : bs_recvClosed (ss_base s) = true;
  aw_done : bs_done (ss_base s) = [];
  aw_ctx : bs_ctxErr (ss_base s) = None;
}.

(** The stream after the handler set its headers and trailers. *)
Definition handler_stream (hr : handlerResult Msg) (s : serverStream) : serverStream :=
  foldl (fun s md => SetTrailer mdJoin md s)
    (foldl (fun s md => fst (SetHeader mdJoin md s)) s (hr_headers hr)) (hr_trailers hr).

Lemma set_headers_fold mds s :
  ss_headersWritten s = false ->
  foldl (fun s md => fst (SetHeader mdJoin md s)) s mds
  = ss_set_header (foldl (join_md mdJoin) (ss_header s) mds) s.
Proof using Type.
  revert s. induction mds as [|md mds IH]; intros s Hw; cbn [foldl]; [by destruct s|].
  unfold SetHeader at 2. rewrite Hw. cbn [fst]. by rewrite IH.
Qed.

Lemma set_trailers_fold mds s :
  foldl (fun s md => SetTrailer mdJoin md s) s mds
  = ss_set_trailer (foldl (join_md mdJoin) (ss_trailer s) mds) s.
Proof using Type.
  revert s. induction mds as [|md mds IH]; intros s; cbn [foldl]; [by destruct s|]. by rewrite IH.
Qed.

(** The metadata of an answer, as they go on the wire. *)
Definition answer_headers (hr : handlerResult Msg) : option MD :=
  metadataToProto (foldl (join_md mdJoin) None (hr_headers hr)).
Definition answer_trailers (hr : handlerResult Msg) : option MD :=
  metadataToProto (foldl (join_md mdJoin) None (hr_trailers hr)).

(** The messages and the status of an answer. *)
Definition answer_messages (hr : handlerResult Msg) : list bytes :=
  match hr_result hr with
  | inl m => match marshal m with inl data => [data] | inr _ => [] end
  | inr _ => []
  end.
Definition answer_status (hr : handlerResult Msg) : status :=
  ErrorToStatus (match hr_result hr with inl _ => None | inr e => Some e end).

(** A result that can be sent: a reply that marshals to an admissible size, or
    an error that does not stand for a closed pipe. *)
Definition sendable (r : Msg + goerror) : Prop :=
  match r with
  | inl m => exists data, marshal m = inl data /\ len data <= MaxMessageSize
  | inr e => errors_Is e ErrClosedPipe = false
  end.

(** What the end of a handler writes is a conversation. *)
Lemma unaryHandler_answers hr reason s lk :
  answerable s -> ss_header s = None -> ss_trailer s = None -> writes_succeed lk ->
  sendable (hr_result hr) ->
  exists s' lk',
    unaryHandler marshal respPacket (mkChanView false reason) (hr_result hr) (handler_stream hr s, lk)
    = Returns ((s', lk'), None) /\
    lk_sent lk' = lk_sent lk ++
      conversation respPacket (answer_headers hr) (answer_messages hr) (answer_status hr) (answer_trailers hr) /\
    bs_id (ss_base s') = bs_id (ss_base s) /\ bs_done (ss_base s') = [bs_id (ss_base s)].
Proof using HrespPacket.
  intros [Ho Hw Hb Hse Hre Hd Hctx] Hh Ht Hok Hr. unfold handler_stream.
  rewrite set_trailers_fold, set_headers_fold by done. cbn [ss_trailer ss_set_header]. rewrite Hh, Ht.
  set (s0 := ss_set_trailer _ _). unfold unaryHandler, answer_messages, answer_status, conversation.
  destruct (hr_result hr) as [m|e].
  - destruct Hr as (data & Hm & _). rewrite Hm.
    destruct (SendMsg_ok marshal respPacket (mkChanView false reason) m data s0 lk) as (lk1 & -> & Hok1 & Hs1);
      try done.
    destruct (closeWithSendError_ok reason None (ss_set_headersWritten true s0) lk1)
      as (s' & lk' & -> & Hs' & _ & Hid & Hdone & _); try done; [by left|].
    exists s', lk'. cbn in Hid, Hdone, Hs1, Hs'. rewrite Hw in Hs1. rewrite Hid, Hdone, Hd.
    split_and!; try done. rewrite Hs', Hs1, Hctx, app_nil_r. cbn [flat_map]. rewrite app_nil_r.
    by rewrite <- !app_assoc.
  - destruct (closeWithSendError_ok reason (Some e) s0 lk)
      as (s' & lk' & -> & Hs' & _ & Hid & Hdone & _); try done; [by left|].
    exists s', lk'. cbn in Hid, Hdone, Hs'. rewrite Hw in Hs'. rewrite Hid, Hdone, Hd.
    split_and!; try done. by rewrite Hs', <- app_assoc.
Qed.

Lemma handler_done_admitted sv : handler_done (admitted sv) = sv.
Proof using Type. by destruct sv. Qed.

(** The server's end of the whole call. *)
Lemma server_answers_call handler headers id m data sv ch :
  server_ready UnaryMethod headers id sv ch -> len data <= MaxMessageSize -> unmarshal data = inl m ->
  sendable (hr_result (handler m)) ->
  exists ch1 ch2,
    sc_receive_all MaxMessageSize
      (ReqHeaders id headers :: message_requests id reqPacket true true data) sv ch
    = Some (admitted sv, ch1, true, [RecvBytes data]) /\
    sc_handle mdJoin marshal unmarshal respPacket handler id [RecvBytes data] (admitted sv) ch1
    = Some (sv, ch2) /\
    rg_active (sc_reg ch2) = rg_active (sc_reg ch) /\
    lk_sent (link_of id ch2) = lk_sent (link_of id ch) ++
      conversation respPacket (answer_headers (handler m)) (answer_messages (handler m))
        (answer_status (handler m)) (answer_trailers (handler m)).
Proof using HreqPacket HrespPacket.
  intros Hs Hlen Hu Hr. set (s := after_eos true (called_stream id (rh_method headers))).
  destruct (sc_view (activate id ch)) as [closed reason] eqn:Ev. cbn in Ev.
  pose proof (sr_view _ _ _ _ _ Hs) as Hv. rewrite Ev in Hv. simpl in Hv. subst closed.
  destruct (unaryHandler_answers (handler m) reason s (link_of id ch))
    as (s' & lk' & Han & Hsent & Hid & Hdone); try done; [by apply (sr_writes _ _ _ _ _ Hs)|].
  eexists _, _. split; [by apply server_receives_call|].
  unfold sc_handle. rewrite link_of_with. cbn [with_server_stream activate sc_reg rg_heap sc_view].
  rewrite lookup_insert_eq. cbn [run_unary_handler decode fst snd]. rewrite Hu.
  fold s (handler_stream (handler m) s). rewrite Ev, Han.
  rewrite handler_done_admitted. split; [done|]. cbn [sc_reg sc_links with_server_stream]. split.
  - rewrite (rg_store_done id s' _ _ Hdone). apply added_and_removed, (sr_fresh _ _ _ _ _ Hs).
  - unfold link_of at 1. cbn [sc_links]. by rewrite lookup_insert_eq.
Qed.

(** ** The client receives *)

(** Nothing is there to receive, and nothing tells that nothing will come. *)
Definition waiting (s : clientStream) : Prop :=
  bs_ctxErr (cs_base s) = None /\ bs_msgs (cs_base s) = [] /\ bs_msgChClosed (cs_base s) = false.

Lemma receiving_waiting s : receiving s -> waiting s.
Proof using Type. by intros []. Qed.

Lemma waiting_blocks s : waiting s -> RecvMsg false (cs_base s) = Blocks (cs_base s, RecvErr None).
Proof using Type. intros (H1 & H2 & H3). unfold RecvMsg. by rewrite H1, H2, H3. Qed.

(** A response at a channel whose active stream is known. *)
Lemma response_at resp id s s' ch :
  id ∈ rg_active (cc_reg ch) -> onResponse MaxMessageSize false resp s = Returns s' ->
  onChannelMessage MaxMessageSize false (Some id) resp (put_stream id s ch)
  = Returns (set_reg (rg_store id s' (cc_reg (put_stream id s ch))) (put_stream id s ch)).
Proof using Type.
  intros Hin Hr. unfold onChannelMessage, rg_lookup. cbn [put_stream set_reg cc_reg rg_active rg_heap].
  by rewrite decide_True, lookup_insert_eq, Hr by done.
Qed.

Lemma store_open id s s' ch :
  bs_done (cs_base s') = [] ->
  set_reg (rg_store id s' (cc_reg (put_stream id s ch))) (put_stream id s ch) = put_stream id s' ch.
Proof using Type.
  intros Hd. rewrite rg_store_open by done. unfold put_stream, set_reg. simpl. by rewrite insert_insert_eq.
Qed.

Lemma heap_put id s ch : rg_heap (cc_reg (put_stream id s ch)) !! id = Some s.
Proof using Type. simpl. by rewrite lookup_insert_eq. Qed.

(** A waiting [invoke] takes a response that does not end the stream. *)
Lemma invoke_recv_response resp resps id s s' ch :
  id ∈ rg_active (cc_reg ch) -> waiting s ->
  onResponse MaxMessageSize false resp s = Returns s' -> bs_done (cs_base s') = [] ->
  invoke_recv unmarshal MaxMessageSize id (resp :: resps) (put_stream id s ch)
  = invoke_recv unmarshal MaxMessageSize id resps (put_stream id s' ch).
Proof using Type.
  intros Hin Hw Hr Hd. cbn [invoke_recv]. rewrite heap_put, waiting_blocks by done.
  by rewrite (response_at resp id s s' ch Hin Hr), store_open.
Qed.

Lemma put_stream_twice id s s' ch : put_stream id s' (put_stream id s ch) = put_stream id s' ch.
Proof using Type. unfold put_stream, set_reg. simpl. by rewrite insert_insert_eq. Qed.

(** What there is to receive ends [invoke]. *)
Lemma invoke_recv_ends resps id s b r ch :
  RecvMsg false (cs_base s) = Returns (b, r) ->
  invoke_recv unmarshal MaxMessageSize id resps (put_stream id s ch)
  = Some (put_stream id (cs_set_base b s) ch,
          mkCallResult (decode unmarshal r) (cs_headers s) (cs_trailers s), resps).
Proof using Type.
  intros Hr. destruct resps; cbn [invoke_recv]; rewrite heap_put, Hr; by rewrite put_stream_twice.
Qed.

(** [drain] takes what [RecvMsg] returns. *)
Lemma drain_cases s1 s2 out :
  drain s1 = (s2, out) ->
  match out with
  | [] => s1 = s2
  | [r] => RecvMsg false (cs_base s1) = Returns (cs_base s2, r) /\ s2 = cs_set_base (cs_base s2) s1 /\
           bs_done (cs_base s1) = bs_done (cs_base s2)
  | _ => False
  end.
Proof using Type.
  unfold drain. destruct (bs_msgs (cs_base s1)) eqn:Em; [by intros [= <- <-]|].
  destruct (RecvMsg false (cs_base s1)) as [[b r]|[]|] eqn:Er; intros [= <- <-]; [|done..].
  split_and!; [by destruct s1 | by destruct s1|]. cbn [cs_set_base cs_base].
  unfold RecvMsg, checkLastOrErr in Er. rewrite Em in Er. repeat case_match; by simplify_eq.
Qed.

(** The packets of the reply. *)
Lemma invoke_recv_packets data s id rest ch :
  id ∈ rg_active (cc_reg ch) -> receiving s -> bs_done (cs_base s) = [] -> data <> [] ->
  len (bs_packetBuf (cs_base s)) + len data <= MaxMessageSize ->
  invoke_recv unmarshal MaxMessageSize id
    (map (fun p => RespMessage (Some p)) (packets (length data) respPacket data) ++ rest) (put_stream id s ch)
  = Some (put_stream id (cs_set_base (set_packetBuf [] (cs_base s)) s) ch,
          mkCallResult (unmarshal (bs_packetBuf (cs_base s) ++ data)) (cs_headers s) (cs_trailers s), rest).
Proof using HrespPacket.
  clear HreqPacket. intros Hin. remember (length data) as n eqn:Hn. revert data s Hn.
  induction n as [n IH] using lt_wf_ind. intros data s -> Hr Hdone Hd Hfit.
  assert (Ht : take respPacket data <> []) by (destruct data, respPacket; done || lia).
  assert (Hlen : len data = len (take respPacket data) + len (drop respPacket data)).
  { rewrite <- (take_drop respPacket data) at 1. rewrite length_app. lia. }
  rewrite packets_unfold by done. cbn [map app].
  pose proof (processMessage_packet MaxMessageSize (cs_base s) (take respPacket data)
                (bool_decide (drop respPacket data = [])) Ht) as Hp.
  destruct (_ >? _) eqn:Eb; [breflect; lia|]. case_bool_decide as Hrest.
  - destruct (pump_packet MaxMessageSize _ s _ _ _ Hr Hp) as (s1 & Ho & Hdr & _).
    apply drain_cases in Hdr as (Hrecv & Hs & Hd1). cbn [cs_set_base cs_base] in Hrecv, Hs, Hd1.
    rewrite (invoke_recv_response _ _ id s s1 ch Hin (receiving_waiting s Hr) Ho) by (simpl in Hd1; congruence).
    rewrite Hrest. cbn [length packets map app].
    rewrite (invoke_recv_ends rest id s1 _ _ ch Hrecv). rewrite <- Hs.
    assert (cs_headers s1 = cs_headers s /\ cs_trailers s1 = cs_trailers s) as [-> ->].
    { destruct s1, s; simpl in Hs; by simplify_eq. }
    rewrite <- (take_drop respPacket data) at 2. by rewrite Hrest, app_nil_r.
  - destruct (pump_packet MaxMessageSize _ s _ _ _ Hr Hp) as (s1 & Ho & Hdr & Hr1).
    apply drain_cases in Hdr as ->.
    rewrite (invoke_recv_response _ _ id s _ ch Hin (receiving_waiting s Hr) Ho) by done.
    rewrite (IH _ ltac:(by apply take_drop_length_lt) (drop respPacket data)); try done.
    + cbn [cs_set_base cs_base set_packetBuf bs_packetBuf cs_headers cs_trailers].
      rewrite <- app_assoc. by rewrite take_drop.
    + cbn [cs_set_base cs_base set_packetBuf bs_packetBuf]. rewrite length_app. lia.
Qed.

(** The headers of the answer. *)
Definition headed_stream (id : Z) (hdr : option MD) : clientStream :=
  mkClientStream (cs_base (sent_stream id)) (metadataFromProto hdr) None
    (Some (metadataFromProto hdr)) true false true.

Lemma headed_receiving id hdr : receiving (headed_stream id hdr).
Proof using Type. by constructor. Qed.

(** The trailers end the stream. *)
Lemma trailers_end id hdr st tr :
  exists s',
    onResponse MaxMessageSize false (RespTrailers st tr) (headed_stream id hdr) = Returns s' /\
    RecvMsg false (cs_base s') = Returns (cs_base s', RecvErr (Some (final_error st))) /\
    cs_headers s' = metadataFromProto hdr /\ cs_trailers s' = metadataFromProto tr /\
    bs_done (cs_base s') = [id] /\ bs_msgs (cs_base s') = [].
Proof using Type.
  cbn [onResponse]. unfold cs_processTrailers, closeFromTrailers, lift_base, final_error.
  destruct (status_Err st) as [e|] eqn:Est; simpl; eexists; (split; [done|]);
    unfold RecvMsg, checkLastOrErr; simpl; rewrite ?(status_Err_not_internal st e Est);
    split_and!; try done; by destruct tr.
Qed.

(** The answer of a handler, as [invoke] returns it. *)
Definition call_result (hr : handlerResult Msg) : callResult Msg :=
  mkCallResult
    (match hr_result hr with inl m => inl m | inr _ => inr (final_error (answer_status hr)) end)
    (metadataFromProto (answer_headers hr))
    (match hr_result hr with inl _ => None | inr _ => metadataFromProto (answer_trailers hr) end).

(** The client's end of the whole call. *)
Lemma client_receives_answer hr id ch :
  id ∈ rg_active (cc_reg ch) -> sendable (hr_result hr) ->
  (forall m data, marshal m = inl data -> unmarshal data = inl m) ->
  exists ch1 rest ch2,
    invoke_recv unmarshal MaxMessageSize id
      (conversation respPacket (answer_headers hr) (answer_messages hr) (answer_status hr)
         (answer_trailers hr)) (put_stream id (sent_stream id) ch)
    = Some (ch1, call_result hr, rest) /\
    cc_process_all MaxMessageSize id rest ch1 = Some ch2 /\
    cc_ctxErr ch2 = cc_ctxErr ch /\ rg_active (cc_reg ch2) = rg_active (cc_reg ch) ∖ {[id]}.
Proof using HrespPacket.
  intros Hin Hs Hcodec. unfold conversation.
  set (hdr := answer_headers hr). set (tr := answer_trailers hr).
  rewrite (invoke_recv_response _ _ id (sent_stream id) (headed_stream id hdr) ch Hin) by done.
  destruct (trailers_end id hdr (answer_status hr) tr) as (s' & Ht & Hrecv & Hh & Htr & Hdone & _).
  unfold answer_messages, call_result. fold hdr tr. destruct (hr_result hr) as [m|e].
  - destruct Hs as (data & Hm & Hlen). rewrite Hm. cbn [flat_map]. rewrite app_nil_r.
    assert (Hrep : forall rest, invoke_recv unmarshal MaxMessageSize id
      (map (fun p => RespMessage (Some p)) (message_packets respPacket data) ++ rest)
      (put_stream id (headed_stream id hdr) ch)
      = Some (put_stream id (headed_stream id hdr) ch,
              mkCallResult (inl m) (metadataFromProto hdr) None, rest)).
    { intros rest. destruct (decide (data = [])) as [->|Hd].
      - cbn [message_packets map app].
        erewrite invoke_recv_response; [|done|by apply receiving_waiting|reflexivity|done].
        erewrite invoke_recv_ends by reflexivity. cbn. by rewrite (Hcodec m [] Hm).
      - rewrite message_packets_nonempty by done.
        rewrite invoke_recv_packets by (done || apply headed_receiving).
        cbn. by rewrite (Hcodec m data Hm). }
    rewrite Hrep. eexists _, _, _. split; [done|]. cbn [cc_process_all].
    rewrite (response_at _ id _ s' ch Hin Ht). split_and!; [done|done|].
    cbn [set_reg cc_reg]. by rewrite (rg_store_done id s' _ _ Hdone).
  - cbn [flat_map app]. cbn [invoke_recv].
    rewrite heap_put, waiting_blocks by (apply receiving_waiting, headed_receiving).
    rewrite (response_at _ id _ s' ch Hin Ht).
    set (ch1 := set_reg _ _).
    assert (Hl : rg_heap (cc_reg ch1) !! id = Some s').
    { unfold ch1. cbn [set_reg cc_reg]. unfold rg_store, base_of, clientStream_like. rewrite Hdone.
      simpl. by rewrite lookup_insert_eq. }
    cbn [invoke_recv]. rewrite Hl, Hrecv, Hh, Htr. eexists _, _, _. split; [done|].
    cbn [cc_process_all]. split_and!; [done|done|]. unfold put_stream, ch1. cbn [set_reg cc_reg rg_active].
    by rewrite (rg_store_done id s' _ _ Hdone).
Qed.
(** ** The server refuses *)

(** Why a server does not admit a call, and the server afterwards: a call that is
    refused for lack of a ticket stays in the wait group. *)
Inductive refusal (method : string) (sv : webrtcServer) : goerror -> webrtcServer -> Prop :=
  | RefusedUnknown :
      sv_handler method sv = None -> sv_hasUnknownStream sv = false ->
      refusal method sv (EStatus Unimplemented "Unimplemented") sv
  | RefusedBusy :
      sv_handler method sv <> None \/ sv_hasUnknownStream sv = true ->
      sv_ctxErr sv = None -> (sv_maxCalls sv <= sv_tickets sv)%nat ->
      refusal method sv (EStatus ResourceExhausted "too many in-flight requests")
        (sv_set_workers (S (sv_workers sv)) sv).

(** What a refused call is answered. *)
Definition refusal_answer (e : goerror) : handlerResult Msg := mkHandlerResult [] [] (inr e).

(** A server channel that can take one more stream. *)
Record channel_ready (id : Z) (ch : serverChannel) : Prop := {
  cy_view : cv_closed (sc_view ch) = false;
  cy_fresh : id ∉ rg_active (sc_reg ch);
  cy_room : size (rg_active (sc_reg ch)) <> WebRTCMaxStreamCount;
  cy_writes : writes_succeed (link_of id ch);
}.

Lemma refused_headers method sv e sv' reason id ctxErr lk :
  refusal method sv e sv' -> writes_succeed lk ->
  exists s' lk',
    ss_processHeaders (mkChanView false reason) method sv (newWebRTCServerStream ctxErr method id, lk)
    = Returns (sv', (s', lk'), NotStarted) /\
    lk_sent lk' = lk_sent lk ++ conversation respPacket None [] (ErrorToStatus (Some e)) None /\
    bs_id (ss_base s') = id /\ bs_done (ss_base s') = [id] /\ bs_msgs (ss_base s') = [].
Proof using Type.
  intros Href Hok.
  assert (Hc : errors_Is_opt (Some e) ErrClosedPipe = false) by by destruct Href.
  destruct (closeWithSendError_ok reason (Some e) (newWebRTCServerStream ctxErr method id) lk)
    as (s' & lk' & Hcl & Hs & _ & Hid & Hdone & Hm); try done; [by right|].
  exists s', lk'. split_and!; try done; [|by rewrite Hs, <- app_assoc].
  unfold ss_processHeaders. destruct Href as [Hn Hu|Hk Hrun Ht].
  - rewrite bool_decide_true, Hu by done. cbn [andb negb]. by rewrite Hcl.
  - replace (bool_decide _ && _) with false.
    2: { destruct Hk as [Hk| ->]; [by rewrite bool_decide_false | by rewrite andb_false_r]. }
    cbn [sv_ctxErr sv_set_workers]. rewrite Hrun. cbn [sv_tickets sv_set_workers sv_maxCalls].
    rewrite decide_False by (clear - Ht; lia). by rewrite Hcl.
Qed.

(** Messages for a stream that is not active are discarded. *)
Lemma discarded_messages id ps eos sv ch s :
  id ∉ rg_active (sc_reg ch) -> size (rg_active (sc_reg ch)) <> WebRTCMaxStreamCount ->
  rg_heap (sc_reg ch) !! id = Some s -> bs_msgs (ss_base s) = [] ->
  sc_receive_all MaxMessageSize (map (fun p => ReqMessage id true (Some p) eos) ps) sv ch
  = Some (sv, ch, false, []).
Proof using Type.
  intros Hin Hsz Hs Hm. induction ps as [|p ps IH]; cbn [map sc_receive_all]; [done|].
  unfold sc_receive, sc_onChannelMessage. cbn [request_id].
  rewrite rg_lookup_inactive, decide_False, Hs, Hm by done. by rewrite IH.
Qed.

(** The server's end of a refused call. *)
Lemma server_refuses_call headers id data sv e sv' ch :
  channel_ready id ch -> refusal (rh_method headers) sv e sv' ->
  exists ch2,
    sc_receive_all MaxMessageSize
      (ReqHeaders id headers :: message_requests id reqPacket true true data) sv ch
    = Some (sv', ch2, false, []) /\
    rg_active (sc_reg ch2) = rg_active (sc_reg ch) /\
    lk_sent (link_of id ch2) = lk_sent (link_of id ch) ++
      conversation respPacket None [] (ErrorToStatus (Some e)) None.
Proof using Type.
  intros [Hv Hf Hr Hw] Href. destruct (sc_view ch) as [closed reason] eqn:Ev. simpl in Hv. subst closed.
  destruct (refused_headers (rh_method headers) sv e sv' reason id
    (handlerCtxErr (sc_ctxErr ch) (rh_timeout headers)) (link_of id ch) Href Hw)
    as (s' & lk' & Hp & Hsent & Hid & Hdone & Hm).
  exists (mkServerChannel (sc_ctxErr ch) (mkChanView false reason)
           (removeStreamByID id (mkRegistry (<[id := s']> (rg_heap (sc_reg ch))) ({[id]} ∪ rg_active (sc_reg ch))))
           (<[id := lk']> (sc_links ch))).
  assert (Hact := added_and_removed id (rg_active (sc_reg ch)) Hf).
  split_and!; [|exact Hact|unfold link_of at 1; cbn [sc_links]; by rewrite lookup_insert_eq].
  cbn [sc_receive_all]. unfold sc_receive, sc_onChannelMessage. cbn [request_id].
  rewrite rg_lookup_inactive, decide_False by done. unfold dispatch.
  cbn [request_id onRequest newWebRTCServerStream ss_headersReceived fst sc_view].
  rewrite Ev. change (link_of id (mkServerChannel _ _ _ _)) with (link_of id ch).
  rewrite Hp. cbn [sc_reg sc_links sc_ctxErr]. unfold rg_store, base_of, serverStream_like. rewrite Hdone.
  cbn [removeStreamByID rg_add rg_heap rg_active]. rewrite insert_insert_eq, lookup_insert_eq, Hm.
  unfold message_requests. rewrite (discarded_messages id _ true sv' _ s'); cbn [sc_reg rg_active rg_heap removeStreamByID];
    rewrite ?Hact; try done; by rewrite lookup_insert_eq.
Qed.
End Proofs.

(** ** Properties *)

(** C4: A unary call over a data channel whose two ends are open, of a method that
    the server knows and has a ticket for, returns what the method's handler
    returns for its argument: the reply, or the status of the error, with the
    headers that the handler set; afterwards the server is as before, and on
    neither end the stream of the call is still active. The trailers of a reply
    are lost to the caller that takes it at once. *)
Theorem unary_call_delivers `{Multierr goerror} `{GrpcStatus}
    (mdJoin : gmap string (list string) -> gmap string (list string) -> gmap string (list string))
    {Msg} (marshal : Msg -> bytes + goerror) (unmarshal : bytes -> Msg + goerror)
    (reqPacket respPacket : nat) (MaxMessageSize : Z)
    (handler : Msg -> handlerResult Msg) (headers : requestHeaders) (args : Msg) (data : bytes)
    (cch : clientChannel) (sv : webrtcServer) (sch : serverChannel)
    (Hreq : (0 < reqPacket)%nat) (Hresp : (0 < respPacket)%nat)
    (Hcodec : forall m data, marshal m = inl data -> unmarshal data = inl m)
    (Hc : client_ready cch) (Hs : server_ready UnaryMethod headers (next_id cch) sv sch)
    (Hargs : marshal args = inl data) (Hlen : len data <= MaxMessageSize)
    (Hr : sendable marshal MaxMessageSize (hr_result (handler args))) :
  exists cch' sch',
    unary_call mdJoin marshal unmarshal reqPacket respPacket MaxMessageSize handler headers args cch sv sch
    = Some (call_result mdJoin (handler args), cch', sv, sch') /\
    rg_active (cc_reg cch') = rg_active (cc_reg cch) /\
    rg_active (sc_reg sch') = rg_active (sc_reg sch) /\
    cc_ctxErr cch' = None.
Proof.
  unfold unary_call.
  destruct (invoke_send_ok marshal reqPacket Hreq headers args data cch Hc Hargs) as (lk & -> & Hsent).
  cbn [cc_streamIDCounter cc_link]. rewrite Hsent, drop_app_length.
  destruct (server_answers_call mdJoin marshal unmarshal reqPacket respPacket MaxMessageSize Hreq Hresp
    handler headers (next_id cch) args data sv sch Hs Hlen (Hcodec _ _ Hargs) Hr)
    as (sch1 & sch2 & -> & -> & Hact & Hresps).
  rewrite Hresps, drop_app_length. set (id := next_id cch).
  set (ch := mkClientChannel None id (mkRegistry (rg_heap (cc_reg cch)) ({[id]} ∪ rg_active (cc_reg cch))) lk).
  assert (Hin : id ∈ rg_active (cc_reg ch)) by (cbn [ch cc_reg rg_active]; apply elem_of_union_l, elem_of_singleton; reflexivity).
  change (mkClientChannel None id (rg_add id (sent_stream id) (cc_reg cch)) lk)
    with (put_stream id (sent_stream id) ch).
  destruct (client_receives_answer mdJoin marshal unmarshal respPacket MaxMessageSize Hresp
    (handler args) id ch Hin Hr Hcodec) as (ch1 & rest & ch2 & -> & -> & Hctx & Hca).
  exists ch2, sch2. split_and!; try done. rewrite Hca. by apply added_and_removed, (cr_fresh _ Hc).
Qed.

(** C37: A call that the server refuses, because it does not know the method or has
    no ticket for it, returns the status of the refusal, on neither end the
    stream of the call stays active, and no handler runs. *)
Theorem refused_call_fails `{Multierr goerror} `{GrpcStatus}
    (mdJoin : gmap string (list string) -> gmap string (list string) -> gmap string (list string))
    {Msg} (marshal : Msg -> bytes + goerror) (unmarshal : bytes -> Msg + goerror)
    (reqPacket respPacket : nat) (MaxMessageSize : Z)
    (handler : Msg -> handlerResult Msg) (headers : requestHeaders) (args : Msg) (data : bytes)
    (cch : clientChannel) (sv sv' : webrtcServer) (sch : serverChannel) (e : goerror)
    (Hreq : (0 < reqPacket)%nat) (Hresp : (0 < respPacket)%nat)
    (Hcodec : forall m data, marshal m = inl data -> unmarshal data = inl m)
    (Hc : client_ready cch) (Hs : channel_ready (next_id cch) sch)
    (Href : refusal (rh_method headers) sv e sv') (Hargs : marshal args = inl data) :
  exists cch' sch',
    unary_call mdJoin marshal unmarshal reqPacket respPacket MaxMessageSize handler headers args cch sv sch
    = Some (mkCallResult (inr (final_error (ErrorToStatus (Some e)))) None None, cch', sv', sch') /\
    rg_active (cc_reg cch') = rg_active (cc_reg cch) /\
    rg_active (sc_reg sch') = rg_active (sc_reg sch).
Proof.
  unfold unary_call.
  destruct (invoke_send_ok marshal reqPacket Hreq headers args data cch Hc Hargs) as (lk & -> & Hsent).
  cbn [cc_streamIDCounter cc_link]. rewrite Hsent, drop_app_length.
  destruct (server_refuses_call reqPacket respPacket MaxMessageSize headers (next_id cch) data sv e sv' sch Hs Href)
    as (sch2 & -> & Hact & Hresps).
  rewrite Hresps, drop_app_length. set (id := next_id cch).
  set (ch := mkClientChannel None id (mkRegistry (rg_heap (cc_reg cch)) ({[id]} ∪ rg_active (cc_reg cch))) lk).
  assert (Hin : id ∈ rg_active (cc_reg ch))
    by (cbn [ch cc_reg rg_active]; apply elem_of_union_l, elem_of_singleton; reflexivity).
  change (mkClientChannel None id (rg_add id (sent_stream id) (cc_reg cch)) lk)
    with (put_stream id (sent_stream id) ch).
  destruct (client_receives_answer mdJoin marshal unmarshal respPacket MaxMessageSize Hresp
    (refusal_answer e) id ch Hin) as (ch1 & rest & ch2 & Hinv & Hrest & _ & Hca);
    [by destruct Href | done |].
  unfold answer_headers, answer_trailers, answer_messages, answer_status in Hinv.
  cbn [refusal_answer hr_result hr_headers hr_trailers foldl metadataToProto] in Hinv.
  rewrite Hinv, Hrest. exists ch2, sch2. split_and!; try done.
  rewrite Hca. by apply added_and_removed, (cr_fresh _ Hc).
Qed.

(** A method that greets, and fails without a name. *)
Module UnaryExample.
Import SimpleErrors.

Definition codec (m : bytes) : bytes + goerror := inl m.

Definition greet (name : bytes) : handlerResult bytes :=
  mkHandlerResult [Some {["h" := ["1"]]}] [Some {["t" := ["2"]]}]
    (match name with
     | [] => inr (EStatus InvalidArgument "no name")
     | _ => inl (Byte.x68 :: name)
     end)%string.

Definition greeter : webrtcServer :=
  RegisterService (mkServiceDesc "svc" ["Greet"%string] [] "") (newWebRTCServer false).
Definition greet_headers : requestHeaders := mkRequestHeaders "/svc/Greet" None 0.

Lemma unary_call_delivers_witness :
  (exists cch' sch',
    unary_call (fun a b => a ∪ b) codec codec 2 2 10 greet greet_headers [Byte.x61; Byte.x62; Byte.x63]
      (newWebRTCClientChannel None []) greeter (newWebRTCServerChannel None ∅)
    = Some (call_result (fun a b => a ∪ b) (greet [Byte.x61; Byte.x62; Byte.x63]), cch', greeter, sch') /\
    rg_active (cc_reg cch') = ∅ /\ rg_active (sc_reg sch') = ∅ /\ cc_ctxErr cch' = None) /\
  cr_result (call_result (fun a b => a ∪ b) (greet [Byte.x61; Byte.x62; Byte.x63]))
  = inl [Byte.x68; Byte.x61; Byte.x62; Byte.x63] /\
  cr_header (call_result (fun a b => a ∪ b) (greet [Byte.x61; Byte.x62; Byte.x63])) = Some {["h" := ["1"]]}%string /\
  cr_trailer (call_result (fun a b => a ∪ b) (greet [Byte.x61; Byte.x62; Byte.x63])) = None /\
  cr_result (call_result (fun a b => a ∪ b) (greet [])) = inr (EStatus InvalidArgument "no name").
Proof.
  split; [|split; [reflexivity | split; [by vm_compute | split; reflexivity]]].
  refine (unary_call_delivers (fun a b => a ∪ b) codec codec 2 2 10 greet greet_headers
    [Byte.x61; Byte.x62; Byte.x63] [Byte.x61; Byte.x62; Byte.x63]
    (newWebRTCClientChannel None []) greeter (newWebRTCServerChannel None ∅) _ _ _ _ _ _ _ _).
  - lia.
  - lia.
  - by intros m d [= ->].
  - constructor; try done; first [apply not_elem_of_empty | by vm_compute | by constructor].
  - constructor; try done; first [apply not_elem_of_empty | by constructor | vm_compute; lia | by left].
  - done.
  - simpl. lia.
  - eexists. split; [done|]. simpl. lia.
Defined.

Lemma refused_call_fails_witness :
  (exists cch' sch',
    unary_call (fun a b => a ∪ b) codec codec 2 2 10 greet (mkRequestHeaders "/svc/Leave" None 0) [Byte.x61]
      (newWebRTCClientChannel None []) greeter (newWebRTCServerChannel None ∅)
    = Some (mkCallResult (inr (final_error (ErrorToStatus (Some (EStatus Unimplemented "Unimplemented"))))) None None,
            cch', greeter, sch') /\
    rg_active (cc_reg cch') = ∅ /\ rg_active (sc_reg sch') = ∅) /\
  final_error (ErrorToStatus (Some (EStatus Unimplemented "Unimplemented")))
  = EStatus Unimplemented "Unimplemented".
Proof.
  split; [|reflexivity].
  refine (refused_call_fails (fun a b => a ∪ b) codec codec 2 2 10 greet (mkRequestHeaders "/svc/Leave" None 0)
    [Byte.x61] [Byte.x61] (newWebRTCClientChannel None []) greeter greeter (newWebRTCServerChannel None ∅)
    (EStatus Unimplemented "Unimplemented") _ _ _ _ _ _ _).
  - lia.
  - lia.
  - by intros m d [= ->].
  - constructor; try done; first [apply not_elem_of_empty | by vm_compute | by constructor].
  - constructor; try done; first [apply not_elem_of_empty | by constructor].
  - by constructor.
  - done.
Defined.
End UnaryExample.
