(* ===== verification/StreamCall.v ===== *)
(** * A streaming call over a data channel

    The counterpart of [UnaryCall] for streams: a client opens a stream,
    sends its messages and closes its side; the handler of the method, on the
    server, receives and sends as it likes; the client receives until the call
    ends. A stream handler is a machine: a state, and for every result of its
    Recv what it sends and whether it returns. [run_machine] is that machine
    without any transport, the specification that the call is compared with.

    Sources: [NewStream] of [rpc/wrtc_client_channel.go], [SendMsg] and
    [CloseSend] of [rpc/wrtc_client_stream.go], [streamHandler] of
    [rpc/wrtc_server.go], [processHeaders] of [rpc/wrtc_server_stream.go]. *)

From S2P Require Import Prelude GoError BaseStream ClientStream ServerStream Channels UnaryCall.
Import ClientChannel ServerChannel.
Local Open Scope go_scope.
Local Open Scope Z_scope.

(** A stream handler: the metadata that it sets first, its states, and what it
    does with a message or error that it receives: the messages that it sends,
    and its error when it returns. *)
Record machine (Msg : Type) := mkMachine {
  hm_State : Type;
  hm_headers : list MD;
  hm_trailers : list MD;
  hm_start : hm_State;
  hm_receive : hm_State -> Msg + goerror -> hm_State * list Msg * option (option goerror);
}.
Arguments mkMachine {Msg} _ _ _ _ _.
Arguments hm_State {Msg} _.
Arguments hm_headers {Msg} _.
Arguments hm_trailers {Msg} _.
Arguments hm_start {Msg} _.
Arguments hm_receive {Msg} _ _ _.

(** The machine on what it receives: what it sends, and what it returns if it
    does. *)
Fixpoint run_machine {Msg} (h : machine Msg) (st : hm_State h) (inputs : list (Msg + goerror))
    : list Msg * option (option goerror) :=
  match inputs with
  | [] => ([], None)
  | i :: inputs' =>
      let '(st', outs, ret) := hm_receive h st i in
      match ret with
      | Some err => (outs, Some err)
      | None => let '(outs', ret') := run_machine h st' inputs' in (outs ++ outs', ret')
      end
  end.

Section Stream.
Context `{Multierr goerror} `{GrpcStatus} (mdJoin : gmap string (list string) ->
  gmap string (list string) -> gmap string (list string)).
Context {Msg : Type} (marshal : Msg -> bytes + goerror) (unmarshal : bytes -> Msg + goerror).
Context (reqPacket respPacket : nat) (MaxMessageSize : Z) (h : machine Msg).

(** ** The client sends *)

(** An operation of a stream that the client holds. *)
Definition cc_on_stream (id : Z)
    (op : clientStream -> link request -> outcome (clientStream * link request * option goerror))
    (ch : clientChannel) : outcome (clientChannel * option goerror) :=
  match rg_heap (cc_reg ch) !! id with
  | Some s => finish id (op s (cc_link ch)) ch
  | None => Panics
  end.

(** The messages one after the other, then the end; an error is the last thing
    that is done. *)
Fixpoint send_stream (id : Z) (msgs : list Msg) (ch : clientChannel)
    : outcome (clientChannel * option goerror) :=
  match msgs with
  | [] => cc_on_stream id (CloseSend marshal reqPacket) ch
  | m :: msgs' =>
      match cc_on_stream id (SendMsg marshal reqPacket m) ch with
      | Returns (ch', None) => send_stream id msgs' ch'
      | r => r
      end
  end.

(** ** The handler runs *)

(** The handler sends, until a Send fails. *)
Fixpoint send_replies (cv : chanView) (ms : list Msg) (st : sst) : outcome (sst * option goerror) :=
  match ms with
  | [] => Returns (st, None)
  | m :: ms' =>
      match ss_SendMsg marshal respPacket cv m st with
      | Returns (st', None) => send_replies cv ms' st'
      | r => r
      end
  end.

(** What it does with one result of its Recv; it returns the error of a Send.
    [None] when it has returned. *)
Definition handle_input (cv : chanView) (hs : hm_State h) (i : Msg + goerror) (st : sst)
    : outcome (sst * option (hm_State h)) :=
  let '(hs', outs, ret) := hm_receive h hs i in
  let return_ err st :=
    match streamHandler cv err st with
    | Returns (st', _) => Returns (st', None)
    | Blocks (st', _) => Blocks (st', None)
    | Panics => Panics
    end in
  match send_replies cv outs st with
  | Returns (st1, Some e) => return_ (Some e) st1
  | Returns (st1, None) =>
      match ret with
      | Some err => return_ err st1
      | None => Returns (st1, Some hs')
      end
  | Blocks (st1, _) => Blocks (st1, Some hs)
  | Panics => Panics
  end.

(** It receives until it has to wait or returns. With the messages that are
    there and the end of the stream it receives at most [fuel] times. *)
Fixpoint handler_takes (fuel : nat) (cv : chanView) (hs : hm_State h) (st : sst)
    : outcome (sst * option (hm_State h)) :=
  match fuel with
  | O => Returns (st, Some hs)
  | S fuel' =>
      match RecvMsg false (ss_base (fst st)) with
      | Blocks _ => Returns (st, Some hs)
      | Panics => Panics
      | Returns (b, r) =>
          match handle_input cv hs (decode unmarshal r) (ss_set_base b (fst st), snd st) with
          | Returns (st', Some hs') => handler_takes fuel' cv hs' st'
          | r => r
          end
      end
  end.

(** ** The server's end *)

(** The handler begins with its metadata. *)
Definition begin_handler (s : serverStream) : serverStream :=
  handler_stream mdJoin (mkHandlerResult (Msg := Msg) (hm_headers h) (hm_trailers h) (inr (EIs EOF))) s.

(** A request of the call arrives; the handler, once started and until it returns, takes
    what there is. *)
Definition stream_request (req : request) (hs : option (hm_State h)) (sv : webrtcServer)
    (ch : serverChannel) : option (option (hm_State h) * webrtcServer * serverChannel) :=
  let id := request_id req in
  match sc_onChannelMessage MaxMessageSize false (Some req) sv ch with
  | Returns (sv1, ch1, a) =>
      match match a with Started => Some (hm_start h) | NotStarted => hs end, rg_heap (sc_reg ch1) !! id with
      | Some hs1, Some s =>
          let s1 := match a with Started => begin_handler s | NotStarted => s end in
          match handler_takes (S (length (bs_msgs (ss_base s1)))) (sc_view ch1) hs1 (s1, link_of id ch1) with
          | Returns ((s2, lk2), hs2) =>
              Some (hs2, match hs2 with None => handler_done sv1 | Some _ => sv1 end,
                    mkServerChannel (sc_ctxErr ch1) (sc_view ch1) (rg_store id s2 (sc_reg ch1))
                      (<[id := lk2]> (sc_links ch1)))
          | _ => None
          end
      | hs1, _ => Some (hs1, sv1, ch1)
      end
  | _ => None
  end.

Fixpoint stream_requests (reqs : list request) (hs : option (hm_State h)) (sv : webrtcServer)
    (ch : serverChannel) : option (option (hm_State h) * webrtcServer * serverChannel) :=
  match reqs with
  | [] => Some (hs, sv, ch)
  | req :: reqs' =>
      match stream_request req hs sv ch with
      | Some (hs1, sv1, ch1) => stream_requests reqs' hs1 sv1 ch1
      | None => None
      end
  end.

(** ** The client receives *)

(** The responses one after the other, the client receiving in between. *)
Fixpoint cc_pump (id : Z) (resps : list response) (ch : clientChannel)
    : option (clientChannel * list recvResult) :=
  match resps with
  | [] => Some (ch, [])
  | resp :: resps' =>
      match onChannelMessage MaxMessageSize false (Some id) resp ch with
      | Returns ch1 =>
          match rg_heap (cc_reg ch1) !! id with
          | Some s =>
              let '(s', out) := drain s in
              match cc_pump id resps' (put_stream id s' ch1) with
              | Some (ch2, out') => Some (ch2, out ++ out')
              | None => None
              end
          | None => None
          end
      | _ => None
      end
  end.

(** What a client gets from a stream: its messages, the error that its last
    RecvMsg returned, headers and trailers. *)
Record streamResult := mkStreamResult {
  sr_messages : list (Msg + goerror);
  sr_end : Msg + goerror;
  sr_header : MD;
  sr_trailer : MD;
}.

(** The whole call; [None] when some end waits for ever. *)
Definition stream_call (headers : requestHeaders) (args : list Msg)
    (cch : clientChannel) (sv : webrtcServer) (sch : serverChannel)
    : option (streamResult * clientChannel * webrtcServer * serverChannel) :=
  match newClientStream None headers cch with
  | Returns (cch0, None) =>
      let id := cc_streamIDCounter cch0 in
      match send_stream id args cch0 with
      | Returns (cch1, None) =>
          let requests := drop (length (lk_sent (cc_link cch))) (lk_sent (cc_link cch1)) in
          match stream_requests requests None sv sch with
          | Some (_, sv2, sch2) =>
              let responses := drop (length (lk_sent (link_of id sch))) (lk_sent (link_of id sch2)) in
              match cc_pump id responses cch1 with
              | Some (cch2, out) =>
                  match rg_heap (cc_reg cch2) !! id with
                  | Some s =>
                      match RecvMsg false (cs_base s) with
                      | Returns (_, r) =>
                          Some (mkStreamResult (decode unmarshal <$> out) (decode unmarshal r)
                                  (cs_headers s) (cs_trailers s), cch2, sv2, sch2)
                      | _ => None
                      end
                  | None => None
                  end
              | None => None
              end
          | None => None
          end
      | _ => None
      end
  | _ => None
  end.
End Stream.
Arguments mkStreamResult {Msg} _ _ _ _.
Arguments sr_messages {Msg} _.
Arguments sr_end {Msg} _.
Arguments sr_header {Msg} _.
Arguments sr_trailer {Msg} _.

Section Proofs.
Context `{Multierr goerror} `{GrpcStatus} (mdJoin : gmap string (list string) ->
  gmap string (list string) -> gmap string (list string)).
Context {Msg : Type} (marshal : Msg -> bytes + goerror) (unmarshal : bytes -> Msg + goerror).
Context (reqPacket respPacket : nat) (MaxMessageSize : Z) (h : machine Msg).
Context (HreqPacket : (0 < reqPacket)%nat) (HrespPacket : (0 < respPacket)%nat).

(** ** The client sends *)

Definition with_link (lk : link request) (ch : clientChannel) : clientChannel :=
  mkClientChannel (cc_ctxErr ch) (cc_streamIDCounter ch) (cc_reg ch) lk.

Lemma on_stream_at id op s s' lk lk' ch e :
  op s lk = Returns (s', lk', e) -> bs_done (cs_base s') = [] ->
  cc_on_stream id op (put_stream id s (with_link lk ch)) = Returns (put_stream id s' (with_link lk' ch), e).
Proof using Type.
  intros Hop Hd. unfold cc_on_stream. rewrite heap_put. cbn [put_stream set_reg with_link cc_link].
  rewrite Hop. cbn [finish]. rewrite rg_store_open by done. unfold put_stream, set_reg, with_link. simpl.
  by rewrite insert_insert_eq.
Qed.

(** The requests of the messages of a stream and of its end. *)
Definition stream_data (id : Z) (datas : list bytes) : list request :=
  flat_map (message_requests id reqPacket true false) datas ++ message_requests id reqPacket false true [].

Lemma send_stream_ok id msgs datas s lk ch :
  Forall2 (fun m data => marshal m = inl data) msgs datas ->
  cs_sendClosed s = false -> bs_done (cs_base s) = [] -> bs_id (cs_base s) = id ->
  Forall (fun r => r = None) (lk_results lk) ->
  exists lk',
    send_stream marshal reqPacket id msgs (put_stream id s (with_link lk ch))
    = Returns (put_stream id (cs_set_sendClosed true s) (with_link lk' ch), None) /\
    lk_sent lk' = lk_sent lk ++ stream_data id datas.
Proof using HreqPacket.
  intros Hm Ho Hd Hid. revert lk. induction Hm as [|m data msgs datas Hm Hms IH]; intros lk Hok; cbn [send_stream];
    unfold SendMsg, CloseSend.
  - destruct (writeMessage_ok marshal reqPacket HreqPacket None true s lk [] Ho eq_refl Hok) as (lk' & Hw & Hs & _).
    rewrite (on_stream_at id _ s (cs_set_sendClosed true s) lk lk' ch None Hw Hd). exists lk'.
    by rewrite Hs, Hid.
  - destruct (writeMessage_ok marshal reqPacket HreqPacket (Some m) false s lk data Ho Hm Hok)
      as (lk1 & Hw & Hs1 & Hok1).
    rewrite (on_stream_at id _ s s lk lk1 ch None Hw Hd). destruct (IH lk1 Hok1) as (lk' & -> & Hs).
    exists lk'. split; [done|]. rewrite Hs, Hs1, Hid, <- app_assoc. unfold stream_data. cbn [flat_map].
    by rewrite bool_decide_true, <- app_assoc.
Qed.

(** A new stream with its headers. *)
Lemma newClientStream_ok headers ch :
  client_ready ch ->
  exists lk,
    newClientStream None headers ch
    = Returns (put_stream (next_id ch) (newWebRTCClientStream None None (next_id ch))
                 (mkClientChannel None (next_id ch)
                    (mkRegistry (rg_heap (cc_reg ch)) ({[next_id ch]} ∪ rg_active (cc_reg ch))) lk), None) /\
    lk_sent lk = lk_sent (cc_link ch) ++ [ReqHeaders (next_id ch) headers] /\
    Forall (fun r => r = None) (lk_results lk).
Proof using Type.
  intros Hr. unfold newClientStream, nextStreamID. fold (next_id ch). rewrite newStream_ready by done.
  destruct (writeHeaders_sent headers (newWebRTCClientStream None None (next_id ch)) (cc_link ch)
    (cr_writes _ Hr)) as (lk & Hw & Hs & Hok).
  cbn [cc_link]. rewrite Hw. exists lk. split; [|done]. cbn [finish]. rewrite rg_store_open by done.
  unfold put_stream, set_reg, rg_add. simpl. by rewrite insert_insert_eq.
Qed.

(** ** The handler answers *)

Definition machine_headers : option MD := metadataToProto (foldl (join_md mdJoin) None (hm_headers h)).
Definition machine_trailers : option MD := metadataToProto (foldl (join_md mdJoin) None (hm_trailers h)).

(** What is on the wire after the given messages. *)
Definition answer_log (outs : list bytes) : list response :=
  match outs with
  | [] => []
  | _ => RespHeaders machine_headers ::
         flat_map (fun m => map (fun p => RespMessage (Some p)) (message_packets respPacket m)) outs
  end.

(** A stream whose handler has sent the given messages, and can go on. *)
Record answering (id : Z) (log0 : list response) (outs : list bytes) (st : sst) : Prop := {
  ag_open : ss_sendClosed (fst st) = false;
  ag_written : ss_headersWritten (fst st) = bool_decide (outs <> []);
  ag_received : ss_headersReceived (fst st) = true;
  ag_header : metadataToProto (ss_header (fst st)) = machine_headers;
  ag_trailer : metadataToProto (ss_trailer (fst st)) = machine_trailers;
  ag_base : Closed (ss_base (fst st)) = false;
  ag_senders : bs_activeSenders (ss_base (fst st)) = 0%nat;
  ag_ctx : bs_ctxErr (ss_base (fst st)) = None;
  ag_done : bs_done (ss_base (fst st)) = [];
  ag_id : bs_id (ss_base (fst st)) = id;
  ag_sent : lk_sent (snd st) = log0 ++ answer_log outs;
  ag_writes : writes_succeed (snd st);
}.

(** A stream whose call has ended. *)
Record answered (id : Z) (log0 : list response) (outs : list bytes) (err : option goerror) (st : sst) : Prop := {
  ad_sent : lk_sent (snd st) = log0 ++ conversation respPacket machine_headers outs (ErrorToStatus err) machine_trailers;
  ad_done : bs_done (ss_base (fst st)) = [id];
}.

Lemma answer_log_snoc outs data :
  answer_log (outs ++ [data]) =
  (answer_log outs ++ (if bool_decide (outs <> []) then [] else [RespHeaders machine_headers])) ++
  map (fun p => RespMessage (Some p)) (message_packets respPacket data).
Proof using Type.
  unfold answer_log. destruct outs as [|o outs]; cbn [app flat_map].
  - rewrite bool_decide_false by (intros Hn; by apply Hn). by rewrite app_nil_r.
  - rewrite bool_decide_true by done. rewrite flat_map_app. cbn [flat_map app].
    by rewrite !app_nil_r, <- app_assoc.
Qed.

Lemma send_replies_ok id log0 outs cv ms datas st :
  answering id log0 outs st -> Forall2 (fun m data => marshal m = inl data) ms datas ->
  exists st', send_replies marshal respPacket cv ms st = Returns (st', None) /\
    answering id log0 (outs ++ datas) st' /\ ss_base (fst st') = ss_base (fst st).
Proof using HrespPacket.
  intros Ha Hm. revert outs st Ha.
  induction Hm as [|m data ms datas Hm Hms IH]; intros outs [s lk] Ha; cbn [send_replies].
  { exists (s, lk). by rewrite app_nil_r. }
  destruct (SendMsg_ok marshal respPacket cv m data s lk HrespPacket Hm (ag_open _ _ _ _ Ha) (ag_writes _ _ _ _ Ha))
    as (lk1 & -> & Hok & Hs).
  destruct (IH (outs ++ [data]) (ss_set_headersWritten true s, lk1)) as (st' & Hsend & Ha' & Hb).
  - destruct Ha as [H1 H2 H3 H4 H5 H6 H7 H8 H9 H10 H11 H12]. cbn [fst snd] in *.
    constructor; cbn [fst snd ss_set_headersWritten ss_base ss_headersWritten]; try done.
    + symmetry. apply bool_decide_true. by destruct outs.
    + rewrite Hs, H11, H2, H4, answer_log_snoc, !app_assoc. done.
  - exists st'. rewrite Hsend. by rewrite <- app_assoc in Ha'.
Qed.

Lemma return_ok id log0 outs reason err st :
  answering id log0 outs st ->
  bs_recvClosed (ss_base (fst st)) = true \/ bs_msgChClosed (ss_base (fst st)) = false ->
  errors_Is_opt err EOF = false -> errors_Is_opt err ErrClosedPipe = false ->
  exists st', streamHandler (mkChanView false reason) err st = Returns (st', None) /\ answered id log0 outs err st'.
Proof using Type.
  intros Ha Hch Heof Hpipe. destruct st as [s lk]. unfold streamHandler. rewrite Heof.
  destruct (closeWithSendError_ok reason err s lk (ag_open _ _ _ _ Ha) (ag_base _ _ _ _ Ha)
    (ag_senders _ _ _ _ Ha) Hch Hpipe (ag_writes _ _ _ _ Ha)) as (s' & lk' & -> & Hs & _ & _ & Hd & _).
  exists (s', lk'). split; [done|]. destruct Ha as [_ H2 _ H4 H5 _ _ H8 H9 H10 H11 _]. cbn [fst snd] in *.
  constructor; cbn [fst snd].
  - rewrite Hs, H2, H4, H5, H8, H11. unfold conversation, answer_log.
    replace (match err with Some _ => err | None => None end) with err by by destruct err.
    destruct outs as [|o outs]; [by rewrite bool_decide_false by (intros Hn; by apply Hn); rewrite app_nil_r, <- app_assoc|].
    rewrite bool_decide_true by done. by rewrite app_nil_r, <- app_assoc.
  - by rewrite Hd, H9, H10.
Qed.

(** The errors that a handler can return to end the call. *)
Definition ends_call (err : option goerror) : Prop :=
  errors_Is_opt err EOF = false /\ errors_Is_opt err ErrClosedPipe = false.

Lemma handle_input_ok id log0 outs reason hs hs' i ms ret datas st :
  hm_receive h hs i = (hs', ms, ret) -> Forall2 (fun m data => marshal m = inl data) ms datas ->
  answering id log0 outs st ->
  bs_recvClosed (ss_base (fst st)) = true \/ bs_msgChClosed (ss_base (fst st)) = false ->
  match ret with None => True | Some err => ends_call err end ->
  exists st',
    handle_input marshal respPacket h (mkChanView false reason) hs i st
    = Returns (st', match ret with None => Some hs' | Some _ => None end) /\
    match ret with
    | None => answering id log0 (outs ++ datas) st' /\ ss_base (fst st') = ss_base (fst st)
    | Some err => answered id log0 (outs ++ datas) err st'
    end.
Proof using HrespPacket.
  intros Hr Hm Ha Hch Hret. unfold handle_input. rewrite Hr.
  destruct (send_replies_ok id log0 outs (mkChanView false reason) ms datas st Ha Hm) as (st1 & -> & Ha1 & Hb).
  destruct ret as [err|]; [|by exists st1].
  destruct (return_ok id log0 (outs ++ datas) reason err st1 Ha1) as (st' & -> & Hd);
    [by rewrite Hb | apply Hret..|]. by exists st'.
Qed.

(** ** The server's end *)

Abbreviation takes := (handler_takes marshal unmarshal respPacket h).
Abbreviation input := (handle_input marshal respPacket h).
Abbreviation requests := (stream_requests mdJoin marshal unmarshal respPacket MaxMessageSize h).

(** The channel once a stream is put back. *)
Definition settle (id : Z) (st : sst) (ch : serverChannel) : serverChannel :=
  mkServerChannel (sc_ctxErr ch) (sc_view ch) (rg_store id (fst st) (sc_reg ch)) (<[id := snd st]> (sc_links ch)).

Lemma settle_with id st s lk ch : settle id st (with_server_stream id s lk ch) = settle id st ch.
Proof using Type.
  unfold settle, with_server_stream, rg_store. cbn [sc_ctxErr sc_view sc_reg sc_links rg_heap rg_active].
  rewrite !insert_insert_eq. by destruct (bs_done (base_of (fst st))).
Qed.

Lemma settle_open id s lk ch : bs_done (ss_base s) = [] -> settle id (s, lk) ch = with_server_stream id s lk ch.
Proof using Type. intros Hd. unfold settle. cbn [fst snd]. by rewrite rg_store_open. Qed.

(** The rest of the requests, after the handler took what there was. *)
Definition go_on (id : Z) (r : outcome (sst * option (hm_State h))) (rest : list request) (sv : webrtcServer)
    (ch : serverChannel) : option (option (hm_State h) * webrtcServer * serverChannel) :=
  match r with
  | Returns (st, hs) =>
      requests rest hs (match hs with None => handler_done sv | Some _ => sv end) (settle id st ch)
  | _ => None
  end.

Lemma message_request id hm p eos s s1 lk hs rest sv ch :
  id ∈ rg_active (sc_reg ch) -> ss_headersReceived s = true ->
  ss_processMessage MaxMessageSize false hm p eos s = Returns s1 -> bs_done (ss_base s1) = [] ->
  requests (ReqMessage id hm p eos :: rest) (Some hs) sv (with_server_stream id s lk ch)
  = go_on id (takes (S (length (bs_msgs (ss_base s1)))) (sc_view ch) hs (s1, lk)) rest sv ch.
Proof using Type.
  intros Hin Hh Hpm Hd. cbn [stream_requests]. unfold stream_request.
  rewrite (message_dispatched MaxMessageSize id hm p eos s s1 sv lk ch Hin Hh Hpm Hd).
  cbn [request_id]. rewrite heap_with, link_of_with.
  change (sc_view (with_server_stream id s1 lk ch)) with (sc_view ch). unfold go_on.
  destruct (takes _ _ _ _) as [[[s2 lk2] hs2]|?|]; [|done..].
  change (mkServerChannel _ _ _ _) with (settle id (s2, lk2) (with_server_stream id s1 lk ch)).
  by rewrite settle_with.
Qed.

(** Nothing is there to receive. *)
Lemma take_waits n cv hs s lk : ss_receiving s -> takes n cv hs (s, lk) = Returns ((s, lk), Some hs).
Proof using Type.
  intros [H1 H2 _ H4 _]. destruct n; cbn [handler_takes]; [done|]. unfold RecvMsg. cbn [fst].
  by rewrite H1, H2, H4.
Qed.

(** What the handler does with a message that is complete. *)
Definition take_message (cv : chanView) (hs : hm_State h) (data : bytes) (st : sst)
    : outcome (sst * option (hm_State h)) :=
  match input cv hs (unmarshal data) st with
  | Returns (st', Some hs') => takes 1 cv hs' st'
  | r => r
  end.

Lemma last_packet id p s b' d hs rest sv lk ch :
  id ∈ rg_active (sc_reg ch) -> ss_headersReceived s = true -> bs_done (ss_base s) = [] ->
  ss_receiving s -> processMessage MaxMessageSize p (ss_base s) = (b', (d, true)) ->
  requests (ReqMessage id true (Some p) false :: rest) (Some hs) sv (with_server_stream id s lk ch)
  = go_on id (take_message (sc_view ch) hs d (ss_set_base b' s, lk)) rest sv ch.
Proof using Type.
  intros Hin Hh Hd Hr Hp. pose proof (ss_step_last MaxMessageSize id p false s b' d Hr Hp) as Hstep.
  destruct (ss_step_message _ _ _ _ _ _ _ Hstep) as (s1 & Hpm & Hd1 & _ & _ & Hm).
  rewrite (message_request id true (Some p) false s s1 lk hs rest sv ch Hin Hh Hpm) by congruence. f_equal.
  destruct (bs_msgs (ss_base s1)) as [|m ms] eqn:Em; [by destruct Hm|].
  destruct Hm as (b & r & Hrecv & Hs & [= <-] & Hl).
  assert (Hm : bs_msgs (ss_base (after_eos false (ss_set_base b' s))) = []).
  { pose proof (processMessage_only_buf _ _ _ _ _ Hp) as [buf ->]. apply (sr_msgs _ Hr). }
  rewrite Hl, Hm. cbn [length handler_takes fst snd]. rewrite Hrecv, <- Hs. cbn [decode after_eos].
  by unfold take_message.
Qed.

(** The packets of a message: only the last one lets the handler receive. *)
Lemma packets_run id data s hs rest sv lk ch :
  id ∈ rg_active (sc_reg ch) -> ss_headersReceived s = true -> bs_done (ss_base s) = [] ->
  ss_receiving s -> data <> [] -> len (bs_packetBuf (ss_base s)) + len data <= MaxMessageSize ->
  requests (map (fun p => ReqMessage id true (Some p) false) (packets (length data) reqPacket data) ++ rest)
    (Some hs) sv (with_server_stream id s lk ch)
  = go_on id (take_message (sc_view ch) hs (bs_packetBuf (ss_base s) ++ data)
                (ss_set_base (set_packetBuf [] (ss_base s)) s, lk)) rest sv ch.
Proof using HreqPacket.
  clear HrespPacket. intros Hin. remember (length data) as n eqn:Hn. revert data s Hn.
  induction n as [n IH] using lt_wf_ind. intros data s -> Hh Hd Hr Hne Hfit.
  assert (Ht : firstn reqPacket data <> []) by (destruct data, reqPacket; done || lia).
  assert (Hlen : len data = len (firstn reqPacket data) + len (drop reqPacket data)).
  { rewrite <- (take_drop reqPacket data) at 1. rewrite length_app. lia. }
  rewrite packets_unfold by done. cbn [map app].
  pose proof (processMessage_packet MaxMessageSize (ss_base s) (firstn reqPacket data)
                (bool_decide (drop reqPacket data = [])) Ht) as Hp.
  destruct (_ >? _) eqn:Eb; [breflect; lia|]. case_bool_decide as Hrest.
  - rewrite (last_packet id _ s _ _ hs _ sv lk ch Hin Hh Hd Hr Hp). rewrite Hrest. cbn [length packets map app].
    do 2 f_equal. rewrite <- (take_drop reqPacket data) at 2. by rewrite Hrest, app_nil_r.
  - destruct (ss_step_partial MaxMessageSize id _ false _ _ _ Hr Hp) as [Hstep Hr1].
    destruct (ss_step_message _ _ _ _ _ _ _ Hstep) as (s1 & Hpm & Hd1 & _ & _ & Hm).
    destruct (bs_msgs (ss_base s1)) eqn:Em; [|by destruct Hm as (? & ? & _ & _ & ? & _)].
    destruct Hm as [<- _].
    rewrite (message_request id true _ false s _ lk hs _ sv ch Hin Hh Hpm) by done.
    rewrite take_waits by done. unfold go_on at 1. rewrite settle_open by done.
    rewrite (IH _ ltac:(by apply take_drop_length_lt) (drop reqPacket data)); try done.
    + cbn [ss_set_base ss_base set_packetBuf bs_packetBuf]. rewrite <- app_assoc. by rewrite take_drop.
    + cbn [ss_set_base ss_base set_packetBuf bs_packetBuf]. rewrite length_app. lia.
Qed.

(** A message of admissible size. *)
Lemma message_run id data s hs rest sv lk ch :
  id ∈ rg_active (sc_reg ch) -> ss_headersReceived s = true -> bs_done (ss_base s) = [] ->
  ss_receiving s -> bs_packetBuf (ss_base s) = [] -> len data <= MaxMessageSize ->
  requests (message_requests id reqPacket true false data ++ rest) (Some hs) sv (with_server_stream id s lk ch)
  = go_on id (take_message (sc_view ch) hs data (s, lk)) rest sv ch.
Proof using HreqPacket.
  intros Hin Hh Hd Hr Hbuf Hlen. unfold message_requests.
  assert (Hs : ss_set_base (set_packetBuf [] (ss_base s)) s = s).
  { rewrite <- Hbuf. by destruct s as [[]]. }
  destruct (decide (data = [])) as [->|Hne].
  - cbn [message_packets map app].
    rewrite (last_packet id (mkPacket [] true) s (ss_base s) [] hs rest sv lk ch Hin Hh Hd Hr eq_refl).
    by destruct s.
  - rewrite message_packets_nonempty by done.
    rewrite packets_run, Hs, Hbuf by (done || by rewrite Hbuf). done.
Qed.

(** What arrives after the handler returned is discarded. *)
Lemma ended_requests id reqs st sv ch :
  Forall (fun r => exists hm p eos, r = ReqMessage id hm p eos) reqs -> bs_done (ss_base (fst st)) = [id] ->
  size (rg_active (sc_reg ch) ∖ {[id]}) <> WebRTCMaxStreamCount ->
  requests reqs None sv (settle id st ch) = Some (None, sv, settle id st ch).
Proof using Type.
  intros Hreqs Hd Hsz. induction Hreqs as [|r reqs (hm & p & eos & ->) _ IH]; cbn [stream_requests]; [done|].
  assert (Hact : rg_active (sc_reg (settle id st ch)) = rg_active (sc_reg ch) ∖ {[id]}).
  { unfold settle. cbn [sc_reg]. by rewrite (rg_store_done id (fst st) _ _ Hd). }
  unfold stream_request, sc_onChannelMessage. cbn [request_id].
  rewrite rg_lookup_inactive, decide_False by (rewrite Hact; done || apply not_elem_of_difference; right; by apply elem_of_singleton).
  by rewrite IH.
Qed.

Lemma stream_data_messages id datas :
  Forall (fun r => exists hm p eos, r = ReqMessage id hm p eos) (stream_data id datas).
Proof using Type.
  unfold stream_data. apply Forall_app. split.
  - apply Forall_flat_map, Forall_true. intros d. apply Forall_map, Forall_true. by eauto.
  - apply Forall_map, Forall_true. by eauto.
Qed.

(** The end of the client's messages. *)
Lemma end_run id log0 outs reason hs hs' ms err datas s lk rest sv ch :
  answering id log0 outs (s, lk) -> ss_receiving s -> bs_err (ss_base s) = None ->
  id ∈ rg_active (sc_reg ch) -> sc_view ch = mkChanView false reason ->
  hm_receive h hs (inr (EIs EOF)) = (hs', ms, Some err) -> ends_call err ->
  Forall2 (fun m data => marshal m = inl data) ms datas ->
  exists st',
    requests (message_requests id reqPacket false true [] ++ rest) (Some hs) sv (with_server_stream id s lk ch)
    = requests rest None (handler_done sv) (settle id st' ch) /\ answered id log0 (outs ++ datas) err st'.
Proof using HrespPacket.
  intros Ha Hr Herr Hin Hv Hm Hend Hms. cbn [message_requests message_packets map app].
  destruct Hr as [H1 H2 H3 H4 H5]. pose proof (ag_done _ _ _ _ Ha) as Hd. cbn [fst] in Hd.
  rewrite (message_request id false _ true s (after_eos true s) lk hs rest sv ch Hin (ag_received _ _ _ _ Ha));
    [|unfold ss_processMessage, CloseRecv, closeRecv; rewrite H3; cbn; by rewrite H5, H4 | done].
  assert (Hm0 : bs_msgs (ss_base (after_eos true s)) = []) by exact H2.
  assert (Hrecv : RecvMsg false (ss_base (after_eos true s)) = Returns (ss_base (after_eos true s), RecvErr (Some (EIs EOF)))).
  { unfold RecvMsg, checkLastOrErr. cbn. by rewrite H1, H2, Herr. }
  assert (Hs1 : ss_set_base (ss_base (after_eos true s)) (after_eos true s) = after_eos true s) by done.
  destruct (handle_input_ok id log0 outs reason hs hs' _ ms (Some err) datas (after_eos true s, lk) Hm Hms)
    as (st' & Hi & Hans).
  - destruct Ha. constructor; done.
  - by left.
  - done.
  - exists st'. rewrite Hv, Hm0. cbn [length handler_takes fst snd]. rewrite Hrecv, Hs1. cbn [decode]. by rewrite Hi.
Qed.

(** The messages of a stream at the server: the handler runs as the machine. *)
Lemma requests_run id log0 reason msgs datas hs outs s lk sv ch ms err outs' :
  Forall2 (fun m data => unmarshal data = inl m /\ len data <= MaxMessageSize) msgs datas ->
  run_machine h hs (map inl msgs ++ [inr (EIs EOF)]) = (ms, Some err) -> ends_call err ->
  Forall2 (fun m data => marshal m = inl data) ms outs' ->
  answering id log0 outs (s, lk) -> ss_receiving s -> bs_packetBuf (ss_base s) = [] -> bs_err (ss_base s) = None ->
  id ∈ rg_active (sc_reg ch) -> size (rg_active (sc_reg ch) ∖ {[id]}) <> WebRTCMaxStreamCount ->
  sc_view ch = mkChanView false reason ->
  exists st',
    requests (stream_data id datas) (Some hs) sv (with_server_stream id s lk ch)
    = Some (None, handler_done sv, settle id st' ch) /\ answered id log0 (outs ++ outs') err st'.
Proof using HreqPacket HrespPacket.
  intros Hin. revert hs outs s lk ms outs'.
  induction Hin as [|m data msgs datas [Hu Hlen] Hin IH];
    intros hs outs s lk ms outs' Hrun Hend Hms Ha Hr Hbuf Herr Hact Hsz Hv; cbn [map app run_machine] in Hrun.
  - destruct (hm_receive h hs _) as [[hs' ms1] [err'|]] eqn:Hm; [|done]. injection Hrun as -> ->.
    destruct (end_run id log0 outs reason hs hs' ms err outs' s lk [] sv ch) as (st' & Hq & Hans); try done.
    exists st'. split; [|done]. exact Hq.
  - unfold stream_data. cbn [flat_map]. rewrite <- app_assoc. fold (stream_data id datas).
    rewrite message_run; try done; [|apply Ha..]. unfold take_message. rewrite Hu, Hv.
    destruct (hm_receive h hs (inl m)) as [[hs' ms1] ret] eqn:Hm.
    assert (exists ms2, ms = ms1 ++ ms2) as [ms2 ->].
    { destruct ret; [injection Hrun as <- _; exists []; by rewrite app_nil_r|].
      destruct (run_machine _ _ _) as [o r]. injection Hrun as <- _. by exists o. }
    apply Forall2_app_inv_l in Hms as (o1 & o2 & Ho1 & Ho2 & ->).
    destruct (handle_input_ok id log0 outs reason hs hs' (inl m) ms1 ret o1 (s, lk) Hm Ho1 Ha)
      as (st' & Hi & Hres); [right; apply Hr | by destruct ret as [e|]; [injection Hrun as _ ->|] |].
    rewrite Hi. destruct ret as [e|]; cbn [go_on].
    + injection Hrun as Hnil ->. assert (ms2 = []) as ->.
      { apply (app_inv_head ms1). by rewrite app_nil_r. }
      apply Forall2_nil_inv_l in Ho2 as ->. rewrite app_nil_r. exists st'. split; [|done].
      apply ended_requests; [apply stream_data_messages | apply Hres | done].
    + destruct Hres as [Ha' Hb], st' as [s' lk']. cbn [fst] in Hb.
      assert (Hr' : ss_receiving s') by (destruct Hr; constructor; by rewrite Hb).
      rewrite take_waits by done. cbn [go_on]. rewrite settle_open by apply Ha'.
      destruct (run_machine h hs' _) as [o r] eqn:Hrun'. injection Hrun as Ho ->.
      apply app_inv_head in Ho as ->. rewrite app_assoc.
      eapply IH; try done; by rewrite Hb.
Qed.

(** The headers of a stream: its handler begins, and waits for the first message. *)
Lemma headers_run headers id rest sv ch :
  server_ready StreamMethod headers id sv ch ->
  exists s,
    requests (ReqHeaders id headers :: rest) None sv ch
    = requests rest (Some (hm_start h)) (admitted sv) (with_server_stream id s (link_of id ch) (activate id ch)) /\
    answering id (lk_sent (link_of id ch)) [] (s, link_of id ch) /\ ss_receiving s /\
    bs_packetBuf (ss_base s) = [] /\ bs_err (ss_base s) = None.
Proof using Type.
  intros Hs. set (s := begin_handler mdJoin h (called_stream id (rh_method headers))).
  assert (Hb : s = ss_set_trailer (foldl (join_md mdJoin) None (hm_trailers h))
                     (ss_set_header (foldl (join_md mdJoin) None (hm_headers h)) (called_stream id (rh_method headers)))).
  { unfold s, begin_handler, handler_stream. cbn [hr_headers hr_trailers].
    by rewrite set_trailers_fold, set_headers_fold. }
  assert (Hr : ss_receiving s) by by rewrite Hb; constructor.
  exists s. split.
  - cbn [stream_requests]. unfold stream_request.
    rewrite (headers_admitted MaxMessageSize StreamMethod headers id sv ch Hs). cbn [request_id].
    rewrite heap_with, link_of_with. fold s. rewrite take_waits by done.
    change (mkServerChannel _ _ _ _) with
      (settle id (s, link_of id ch)
         (with_server_stream id (called_stream id (rh_method headers)) (link_of id ch) (activate id ch))).
    rewrite settle_with, settle_open by by rewrite Hb. done.
  - split; [|by rewrite Hb]. rewrite Hb. constructor; cbn; try done; [|apply (sr_writes _ _ _ _ _ Hs)].
    by rewrite app_nil_r.
Qed.

(** The server's end of the whole call. *)
Lemma server_runs_stream headers id args datas ms outs err sv ch :
  server_ready StreamMethod headers id sv ch ->
  Forall2 (fun m data => unmarshal data = inl m /\ len data <= MaxMessageSize) args datas ->
  run_machine h (hm_start h) (map inl args ++ [inr (EIs EOF)]) = (ms, Some err) -> ends_call err ->
  Forall2 (fun m data => marshal m = inl data) ms outs ->
  exists ch',
    requests (ReqHeaders id headers :: stream_data id datas) None sv ch = Some (None, sv, ch') /\
    rg_active (sc_reg ch') = rg_active (sc_reg ch) /\
    lk_sent (link_of id ch') = lk_sent (link_of id ch) ++
      conversation respPacket machine_headers outs (ErrorToStatus err) machine_trailers.
Proof using HreqPacket HrespPacket.
  intros Hs Hin Hrun Hend Hms.
  destruct (headers_run headers id (stream_data id datas) sv ch Hs) as (s & -> & Ha & Hr & Hbuf & Herr).
  destruct (sc_view (activate id ch)) as [closed reason] eqn:Ev. pose proof (sr_view _ _ _ _ _ Hs) as Hv.
  cbn in Ev. rewrite Ev in Hv. simpl in Hv. subst closed.
  assert (Hact : rg_active (sc_reg (activate id ch)) ∖ {[id]} = rg_active (sc_reg ch)).
  { apply added_and_removed, (sr_fresh _ _ _ _ _ Hs). }
  destruct (requests_run id (lk_sent (link_of id ch)) reason args datas (hm_start h) [] s (link_of id ch)
    (admitted sv) (activate id ch) ms err outs Hin Hrun Hend Hms Ha Hr Hbuf Herr) as (st' & -> & Hans).
  - cbn [activate sc_reg rg_active]. apply elem_of_union_l, elem_of_singleton; reflexivity.
  - rewrite Hact. apply (sr_room _ _ _ _ _ Hs).
  - exact Ev.
  - rewrite handler_done_admitted. exists (settle id st' (activate id ch)). split; [done|].
    destruct Hans as [Hsent Hdone]. split.
    + unfold settle. cbn [sc_reg]. rewrite (rg_store_done id (fst st') _ id Hdone). exact Hact.
    + unfold link_of at 1, settle. cbn [sc_links]. by rewrite lookup_insert_eq.
Qed.

(** ** The client receives *)

Lemma onResponse_done_grows resp s s' :
  onResponse MaxMessageSize false resp s = Returns s' -> exists l, bs_done (cs_base s') = bs_done (cs_base s) ++ l.
Proof using Type.
  assert (Hc : forall err b s0, cs_base s0 = cs_base s -> lift_base (closeWithError err b) s0 = Returns s' ->
    exists l, bs_done (cs_base s') = bs_done (cs_base s) ++ l).
  { intros err b s0 <-. unfold lift_base, closeWithError, closeRecv, closeWithError_finish, cancel_ctx.
    intros Hr. repeat (case_match; simplify_eq/=); first [by exists []; rewrite app_nil_r | by eexists]. }
  assert (Hnil : exists l, bs_done (cs_base s) = bs_done (cs_base s) ++ l) by (exists []; by rewrite app_nil_r).
  unfold onResponse, cs_processHeaders, cs_processMessage, cs_processTrailers, closeFromTrailers.
  intros Hr. destruct resp as [md|p|st md|]; [| |by eapply Hc in Hr|by simplify_eq].
  - destruct (cs_headersReceived s); [by eapply Hc in Hr|].
    destruct (cs_trailersReceived s); [by eapply Hc in Hr|]. by simplify_eq.
  - destruct (cs_headersReceived s); cbn [negb] in Hr; [|by eapply Hc in Hr].
    destruct (cs_trailersReceived s); [by eapply Hc in Hr|]. destruct p as [p|]; [|done].
    destruct (processMessage _ _ _) as [b1 [d eop]] eqn:Hp. apply processMessage_only_buf in Hp as [buf ->].
    destruct eop; cbn [negb] in Hr; [|by simplify_eq].
    unfold enter_sender, lift_base, deliver in Hr. repeat (case_match; simplify_eq/=); by exists []; rewrite app_nil_r.
Qed.

Lemma drain_done s1 s2 out : drain s1 = (s2, out) -> bs_done (cs_base s2) = bs_done (cs_base s1).
Proof using Type.
  intros Hd. pose proof (drain_cases _ _ _ Hd) as Hc. destruct out as [|r [|]]; [by subst|by destruct Hc as (_ & _ & ->)|done].
Qed.

Lemma pump_done_grows resps s s' out :
  pump MaxMessageSize resps s = Some (s', out) -> exists l, bs_done (cs_base s') = bs_done (cs_base s) ++ l.
Proof using Type.
  revert s out. induction resps as [|r resps IH]; intros s out; cbn [pump].
  { intros [= -> _]. exists []. by rewrite app_nil_r. }
  destruct (onResponse _ _ _ _) as [s1|s1|] eqn:Ho; [|done..]. destruct (drain s1) as [s2 o] eqn:Hd.
  destruct (pump MaxMessageSize resps s2) as [[s3 o3]|] eqn:Hp; [|done]. intros [= <- _].
  destruct (IH _ _ Hp) as [l ->]. rewrite (drain_done _ _ _ Hd).
  destruct (onResponse_done_grows _ _ _ Ho) as [l' ->]. exists (l' ++ l). by rewrite app_assoc.
Qed.

(** A stream that is not done yet is pumped through its channel. *)
Lemma cc_pump_stream id resps s s' out ch :
  id ∈ rg_active (cc_reg ch) -> pump MaxMessageSize resps s = Some (s', out) -> bs_done (cs_base s') = [] ->
  cc_pump MaxMessageSize id resps (put_stream id s ch) = Some (put_stream id s' ch, out).
Proof using Type.
  intros Hin. revert s out. induction resps as [|r resps IH]; intros s out; cbn [pump cc_pump].
  { by intros [= -> <-]. }
  destruct (onResponse _ _ _ _) as [s1|s1|] eqn:Ho; [|done..]. destruct (drain s1) as [s2 o] eqn:Hd.
  destruct (pump MaxMessageSize resps s2) as [[s3 o3]|] eqn:Hp; [|done]. intros [= -> <-] Hdone.
  destruct (pump_done_grows _ _ _ _ Hp) as [l Hl]. rewrite Hdone in Hl. symmetry in Hl.
  apply app_eq_nil in Hl as [Hd2 _]. rewrite (drain_done _ _ _ Hd) in Hd2.
  rewrite (response_at MaxMessageSize r id s s1 ch Hin Ho), store_open, heap_put, Hd, put_stream_twice by done.
  by rewrite (IH _ _ Hp Hdone).
Qed.

Lemma cc_pump_app id r1 r2 ch :
  cc_pump MaxMessageSize id (r1 ++ r2) ch =
  match cc_pump MaxMessageSize id r1 ch with
  | Some (ch1, out1) =>
      match cc_pump MaxMessageSize id r2 ch1 with
      | Some (ch2, out2) => Some (ch2, out1 ++ out2)
      | None => None
      end
  | None => None
  end.
Proof using Type.
  revert ch. induction r1 as [|r r1 IH]; intros ch; cbn [app cc_pump].
  { by destruct (cc_pump _ _ r2 ch) as [[]|]. }
  destruct (onChannelMessage _ _ _ _ _) as [ch1|?|]; [|done..].
  destruct (rg_heap (cc_reg ch1) !! id) as [s|]; [|done]. destruct (drain s) as [s' o]. rewrite IH.
  destruct (cc_pump _ _ r1 _) as [[ch2 o2]|]; [|done].
  destruct (cc_pump _ _ r2 ch2) as [[ch3 o3]|]; [|done]. by rewrite app_assoc.
Qed.

(** The client's end of the whole call. *)
Lemma client_receives_stream id outs st hdr tr ch :
  id ∈ rg_active (cc_reg ch) -> Forall (fun m : bytes => len m <= MaxMessageSize) outs ->
  exists ch' s',
    cc_pump MaxMessageSize id (conversation respPacket hdr outs st tr) (put_stream id (sent_stream id) ch)
    = Some (ch', map RecvBytes outs) /\
    rg_heap (cc_reg ch') !! id = Some s' /\ rg_active (cc_reg ch') = rg_active (cc_reg ch) ∖ {[id]} /\
    RecvMsg false (cs_base s') = Returns (cs_base s', RecvErr (Some (final_error st))) /\
    cs_headers s' = metadataFromProto hdr /\ cs_trailers s' = metadataFromProto tr.
Proof using HrespPacket.
  intros Hin Hall. unfold conversation. rewrite app_comm_cons, cc_pump_app.
  rewrite (cc_pump_stream id _ (sent_stream id) (headed_stream id hdr) (map RecvBytes outs) ch Hin);
    [|cbn [pump]; change (onResponse _ _ (RespHeaders hdr) _) with (Returns (headed_stream id hdr));
      cbn [drain headed_stream cs_base sent_stream cs_set_sendClosed newWebRTCClientStream newWebRTCBaseStream bs_msgs];
      by rewrite pump_messages by (done || apply headed_receiving) | done].
  destruct (trailers_end MaxMessageSize id hdr st tr) as (s' & Ht & Hrecv & Hh & Htr & Hdone & Hm).
  cbn [cc_pump]. rewrite (response_at MaxMessageSize _ id _ s' ch Hin Ht).
  assert (Hl : rg_heap (cc_reg (set_reg (rg_store id s' (cc_reg (put_stream id (headed_stream id hdr) ch)))
                 (put_stream id (headed_stream id hdr) ch))) !! id = Some s').
  { cbn [set_reg cc_reg]. unfold rg_store, base_of, clientStream_like. rewrite Hdone.
    simpl. by rewrite lookup_insert_eq. }
  rewrite Hl. unfold drain. rewrite Hm. eexists _, s'. split; [by rewrite app_nil_r|].
  rewrite heap_put. split_and!; try done. cbn [put_stream set_reg cc_reg rg_active].
  by rewrite (rg_store_done id s' _ _ Hdone).
Qed.
End Proofs.

(** The call as a whole. *)
Lemma stream_call_delivers_run `{Multierr goerror} `{GrpcStatus}
    (mdJoin : gmap string (list string) -> gmap string (list string) -> gmap string (list string))
    {Msg} (marshal : Msg -> bytes + goerror) (unmarshal : bytes -> Msg + goerror)
    (reqPacket respPacket : nat) (MaxMessageSize : Z) (h : machine Msg)
    (headers : requestHeaders) (args : list Msg) (datas : list bytes) (ms : list Msg) (outs : list bytes)
    (err : option goerror) (cch : clientChannel) (sv : webrtcServer) (sch : serverChannel)
    (Hreq : (0 < reqPacket)%nat) (Hresp : (0 < respPacket)%nat)
    (Hcodec : forall m data, marshal m = inl data -> unmarshal data = inl m)
    (Hc : client_ready cch) (Hs : server_ready StreamMethod headers (next_id cch) sv sch)
    (Hargs : Forall2 (fun m data => marshal m = inl data /\ len data <= MaxMessageSize) args datas)
    (Hrun : run_machine h (hm_start h) (map inl args ++ [inr (EIs EOF)]) = (ms, Some err))
    (Hend : ends_call err)
    (Houts : Forall2 (fun m data => marshal m = inl data /\ len data <= MaxMessageSize) ms outs) :
  exists cch' sch',
    stream_call mdJoin marshal unmarshal reqPacket respPacket MaxMessageSize h headers args cch sv sch
    = Some (mkStreamResult (inl <$> ms) (inr (final_error (ErrorToStatus err)))
              (metadataFromProto (machine_headers mdJoin h)) (metadataFromProto (machine_trailers mdJoin h)),
            cch', sv, sch') /\
    rg_active (cc_reg cch') = rg_active (cc_reg cch) /\
    rg_active (sc_reg sch') = rg_active (sc_reg sch).
Proof.
  unfold stream_call. destruct (newClientStream_ok headers cch Hc) as (lk0 & -> & Hs0 & Hok0).
  set (id := next_id cch).
  set (ch := mkClientChannel None id (mkRegistry (rg_heap (cc_reg cch)) ({[id]} ∪ rg_active (cc_reg cch))) lk0).
  change (cc_streamIDCounter (put_stream _ _ ch)) with id. change ch with (with_link lk0 ch) at 1.
  destruct (send_stream_ok marshal reqPacket Hreq id args datas (newWebRTCClientStream None None id) lk0 ch)
    as (lk & -> & Hsent); try done.
  { eapply Forall2_impl; [exact Hargs|]. by intros ? ? []. }
  cbn [put_stream set_reg with_link cc_link]. rewrite Hsent, Hs0, <- app_assoc, drop_app_length. cbn [app]. fold id.
  destruct (server_runs_stream mdJoin marshal unmarshal reqPacket respPacket MaxMessageSize h Hreq Hresp
    headers id args datas ms outs err sv sch Hs) as (sch' & -> & Hact & Hresps); try done.
  { eapply Forall2_impl; [exact Hargs|]. intros m data [Hm Hl]. split; [by apply Hcodec | done]. }
  { eapply Forall2_impl; [exact Houts|]. by intros ? ? []. }
  rewrite Hresps, drop_app_length.
  assert (Hin : id ∈ rg_active (cc_reg (with_link lk ch)))
    by (cbn [ch with_link cc_reg rg_active]; apply elem_of_union_l, elem_of_singleton; reflexivity).
  assert (Hsizes : Forall (fun m : bytes => len m <= MaxMessageSize) outs).
  { clear -Houts. induction Houts as [|m data ms outs [_ Hl] _ IH]; by constructor. }
  destruct (client_receives_stream respPacket MaxMessageSize Hresp id outs (ErrorToStatus err)
    (machine_headers mdJoin h) (machine_trailers mdJoin h) (with_link lk ch) Hin Hsizes)
    as (cch' & s' & Hp & Hl & Hca & Hrecv & Hh & Htr).
  fold (sent_stream id).
  rewrite Hp, Hl, Hrecv, Hh, Htr. exists cch', sch'. split_and!; [|by rewrite Hca; apply added_and_removed, (cr_fresh _ Hc)|done].
  do 5 f_equal. clear -Houts Hcodec. induction Houts as [|m data ms outs [Hm _] _ IH]; [done|].
  cbn. by rewrite (Hcodec _ _ Hm), IH.
Qed.

(** ** Properties *)


(** A handler that repeats what it receives, greets at the end, and refuses an
    empty message. *)
Module StreamExample.
Import SimpleErrors.

Definition repeater : machine bytes :=
  mkMachine nat [Some {["h" := ["1"]]}%string] [Some {["t" := ["2"]]}%string] 0%nat
    (fun n i =>
       match i with
       | inl [] => (n, [], Some (Some (EStatus InvalidArgument "empty")))
       | inl m => (S n, [m; m], None)
       | inr _ => (n, [[Byte.x62; Byte.x79; Byte.x65]], Some None)
       end).

Definition streamer : webrtcServer :=
  RegisterService (mkServiceDesc "svc" [] [mkStreamDesc "Repeat" true true] "") (newWebRTCServer false).
Definition repeat_headers : requestHeaders := mkRequestHeaders "/svc/Repeat" None 0.
Definition call (args : list bytes) :=
  stream_call (fun a b => a ∪ b) inl inl 2 2 10 repeater repeat_headers args
    (newWebRTCClientChannel None []) streamer (newWebRTCServerChannel None ∅).

End StreamExample.
