(* ===== verification/Examples.v ===== *)
(** * The example services:
      [rpc/examples/echo/server/server.go],
      [rpc/examples/fileupload/server/server.go]

    The handlers of the echo and the file upload service, first as the code is
    written, over what their context, their Recv and their Send answer, then as
    the machines of [StreamCall], with which their calls over a data channel are
    those of the handlers alone. Go's strings are byte sequences. *)

From S2P Require Import Prelude GoError BaseStream ClientStream ServerStream Channels UnaryCall StreamCall.
Local Open Scope go_scope.

(** ** The echo service *)

Module EchoService.

(** [Server]; [D] is the type of the data of entities. *)
Record Server (D : Type) := mkServer {
  es_fail : bool;
  es_authorized : bool;
  es_expectedAuthEntity : string;
  es_expectedAuthEntityData : option D;    (* nil when not set *)
}.
Arguments mkServer {D} _ _ _ _.
Arguments es_fail {D} _.
Arguments es_authorized {D} _.
Arguments es_expectedAuthEntity {D} _.
Arguments es_expectedAuthEntityData {D} _.

Section Server.
Context {D : Type} `{EqDecision D} (showD : option D -> string).

Definition SetFail (v : bool) (s : Server D) : Server D :=
  mkServer v (es_authorized s) (es_expectedAuthEntity s) (es_expectedAuthEntityData s).
Definition SetAuthorized (v : bool) (s : Server D) : Server D :=
  mkServer (es_fail s) v (es_expectedAuthEntity s) (es_expectedAuthEntityData s).
Definition SetExpectedAuthEntity (v : string) (s : Server D) : Server D :=
  mkServer (es_fail s) (es_authorized s) v (es_expectedAuthEntityData s).
Definition SetExpectedAuthEntityData (v : option D) (s : Server D) : Server D :=
  mkServer (es_fail s) (es_authorized s) (es_expectedAuthEntity s) v.

(** RPCEntityInfo, as MustContextAuthEntity finds it. *)
Record RPCEntityInfo := mkEntityInfo { ei_Entity : string; ei_Data : option D }.

(** [Echo]. The texts quote with %q. *)
Definition Echo (quote : string -> string) (s : Server D) (entity : RPCEntityInfo) (message : bytes)
    : bytes + goerror :=
  if es_fail s then inr (ENew "whoops")
  else
    match
      (if es_authorized s then
         match
           (if bool_decide (es_expectedAuthEntity s = EmptyString) then
              if bool_decide (ei_Entity entity = EmptyString) then Some (ENew "empty entity") else None
            else if negb (bool_decide (ei_Entity entity = es_expectedAuthEntity s)) then
              Some (ENew ("expected auth entity " +:+ quote (es_expectedAuthEntity s) +:+ "; got " +:+
                          showD (ei_Data entity)))
            else None)
         with
         | Some e => Some e
         | None =>
             if negb (bool_decide (es_expectedAuthEntityData s = None)) &&
                negb (bool_decide (ei_Data entity = es_expectedAuthEntityData s))
             then Some (ENew ("expected auth entity data " +:+ showD (es_expectedAuthEntityData s) +:+
                              "; got " +:+ showD (ei_Data entity)))
             else None
         end
       else None)
    with
    | Some e => inr e
    | None => inl message
    end.

(** An entity that the server accepts. *)
Definition accepted (s : Server D) (entity : RPCEntityInfo) : Prop :=
  es_authorized s = true ->
  (if decide (es_expectedAuthEntity s = EmptyString) then ei_Entity entity <> EmptyString
   else ei_Entity entity = es_expectedAuthEntity s) /\
  (es_expectedAuthEntityData s = None \/ ei_Data entity = es_expectedAuthEntityData s).

(** Echo answers with the message of the request exactly when it is not told to fail
    and, if it checks authorization, the entity of the call is the expected one
    with the expected data; otherwise with an error. *)
Theorem echo_answers quote s entity message :
  Echo quote s entity message = inl message <-> es_fail s = false /\ accepted s entity.
Proof using Type.
  unfold Echo, accepted. destruct (es_fail s); [by split; [|intros []]|].
  destruct (es_authorized s); [|by split].
  destruct (decide (es_expectedAuthEntity s = EmptyString)) as [He|He].
  - rewrite bool_decide_true by done. repeat case_bool_decide; naive_solver.
  - rewrite bool_decide_false by done. repeat case_bool_decide; naive_solver.
Qed.
End Server.
Arguments mkEntityInfo {D} _ _.

(** What the context and Send answer in one turn of a loop; no more than that
    is left when the list is used up. *)
Abbreviation turns := (list (option goerror * option goerror)).
Definition turn (w : turns) : option goerror * option goerror := hd (None, None) w.

(** [EchoMultiple]: the loop over the bytes of the message, with what it
    sends. *)
Fixpoint EchoMultiple (w : turns) (message : bytes) : turns * list bytes * option goerror :=
  match message with
  | [] => (w, [], None)
  | c :: message' =>
      match turn w with
      | (Some e, _) => (tl w, [], Some e)
      | (None, Some e) => (tl w, [], Some e)
      | (None, None) =>
          let '(w', sent, r) := EchoMultiple (tl w) message' in (w', [c] :: sent, r)
      end
  end.

(** [EchoBiDi] over the results of Recv: it waits when they are used up, which
    is [None]. *)
Fixpoint EchoBiDi (w : turns) (recvs : list (bytes + goerror)) : list bytes * option (option goerror) :=
  match fst (turn w) with
  | Some e => ([], Some (Some e))
  | None =>
      match recvs with
      | [] => ([], None)
      | inr e :: _ => ([], Some (if errors_Is e EOF then None else Some e))
      | inl message :: recvs' =>
          match EchoMultiple (tl w) message with
          | (_, sent, Some e) => (sent, Some (Some e))
          | (w', sent, None) => let '(sent', r) := EchoBiDi w' recvs' in (sent ++ sent', r)
          end
      end
  end.

(** The handlers as machines: one message in, its bytes out. *)
Definition characters (message : bytes) : list bytes := map (fun c => [c]) message.

Definition echo_machine : machine bytes :=
  mkMachine unit [] [] tt
    (fun _ i => match i with
                | inl message => (tt, characters message, None)
                | inr e => (tt, [], Some (if errors_Is e EOF then None else Some e))
                end).

Lemma EchoMultiple_open message : EchoMultiple [] message = ([], characters message, None).
Proof. induction message as [|c m IH]; cbn [EchoMultiple turn hd tl]; [done|]. by rewrite IH. Qed.

(** Whatever the context and Send answer, what EchoMultiple sends is the beginning of the
    message, all of it when there is no error. *)
Theorem echo_multiple_prefix w message :
  let '(_, sent, err) := EchoMultiple w message in
  exists rest, characters message = sent ++ rest /\ (err = None -> rest = []).
Proof.
  revert w. induction message as [|c m IH]; intros w; cbn [EchoMultiple characters map].
  { by exists []. }
  destruct (turn w) as [[e|] [e'|]]; try by eexists.
  specialize (IH (tl w)). destruct (EchoMultiple (tl w) m) as [[w' sent] r].
  destruct IH as (rest & Hm & Hr). exists rest. cbn [app]. unfold characters in Hm. by rewrite Hm.
Qed.

(** While the context is open and sending succeeds, [EchoBiDi] is its machine. *)
Theorem echo_bidi_is_machine recvs : EchoBiDi [] recvs = run_machine echo_machine tt recvs.
Proof.
  induction recvs as [|[message|e] recvs IH]; cbn [EchoBiDi run_machine hm_receive echo_machine turn hd fst tl];
    [done| |done].
  rewrite EchoMultiple_open, IH. done.
Qed.

(** A character of two bytes is sent in two messages, neither of which is a
    character. *)
Theorem echo_splits_characters :
  EchoMultiple [] [Byte.xc3; Byte.xa9] = ([], [[Byte.xc3]; [Byte.xa9]], None).
Proof. reflexivity. Qed.

Lemma echo_machine_run messages :
  run_machine echo_machine tt (map inl messages ++ [inr (EIs EOF)]) = (flat_map characters messages, Some None).
Proof.
  induction messages as [|m ms IH]; cbn [map app run_machine hm_receive echo_machine]; [done|].
  by rewrite IH.
Qed.

(** Over a data channel, a client that sends messages to EchoBiDi receives their
    characters in order, and then the end of the stream. *)
Theorem echo_over_channel `{Multierr goerror} `{GrpcStatus} `{!GrpcStatusLaws} mdJoin packet MaxMessageSize headers
    (messages : list bytes) cch sv sch :
  (0 < packet)%nat -> (1 <= MaxMessageSize)%Z -> Forall (fun m : bytes => len m <= MaxMessageSize)%Z messages ->
  client_ready cch -> server_ready StreamMethod headers (next_id cch) sv sch ->
  exists cch' sch',
    stream_call mdJoin inl inl packet packet MaxMessageSize echo_machine headers messages cch sv sch
    = Some (mkStreamResult (inl <$> flat_map characters messages) (inr (EIs EOF)) None None, cch', sv, sch').
Proof.
  intros Hp Hmax Hsizes Hc Hs.
  destruct (stream_call_delivers_run mdJoin inl inl packet packet MaxMessageSize echo_machine headers
    messages messages (flat_map characters messages) (flat_map characters messages) None cch sv sch Hp Hp)
    as (cch' & sch' & Hcall & _); try done.
  - apply Forall_Forall2_diag. eapply Forall_impl; [exact Hsizes|]. done.
  - apply echo_machine_run.
  - apply Forall_Forall2_diag, Forall_flat_map, Forall_true. intros m. apply Forall_map, Forall_true.
    intros c. split; [done|]. simpl. lia.
  - exists cch', sch'. rewrite Hcall. unfold final_error. by rewrite ErrorToStatus_nil.
Qed.
End EchoService.

(** ** The file upload service *)

Module FileUploadService.

(** The oneof of an UploadFileRequest; [UpOther] is any other value of it, with
    its type as a text. *)
Inductive uploadData := UpName (name : string) | UpChunk (data : bytes) | UpOther (ty : string).

(** The loop of [UploadFile]: [ctx] is what the context answers in each turn, [sendErr]
    what sending the response does. It waits when the results of Recv are used
    up. The response has the name and the size. *)
Fixpoint UploadFile_loop (sendErr : option goerror) (ctx : list (option goerror))
    (recvs : list (uploadData + goerror)) (haveName : bool) (fileName : string) (data : bytes)
    : list (string * Z) * option (option goerror) :=
  match hd None ctx with
  | Some e => ([], Some (Some e))
  | None =>
      match recvs with
      | [] => ([], None)
      | inr e :: _ =>
          if errors_Is e EOF then
            match sendErr with
            | None => ([(fileName, len data)], Some None)
            | Some e => ([], Some (Some e))
            end
          else ([], Some (Some e))
      | inl (UpName name) :: recvs' =>
          if haveName then ([], Some (Some (ENew "received name more than once")))
          else UploadFile_loop sendErr (tl ctx) recvs' true name data
      | inl (UpChunk chunk) :: recvs' =>
          if negb haveName then ([], Some (Some (ENew "first provide file name")))
          else UploadFile_loop sendErr (tl ctx) recvs' haveName fileName (data ++ chunk)
      | inl (UpOther ty) :: _ => ([], Some (Some (ENew ("unknown data type " +:+ ty))))
      end
  end.

(** [UploadFile]. *)
Definition UploadFile (sendErr : option goerror) (ctx : list (option goerror)) (recvs : list (uploadData + goerror)) :=
  UploadFile_loop sendErr ctx recvs false EmptyString [].

(** The messages of the service, in both directions. *)
Inductive message := Request (d : uploadData) | Response (name : string) (size : Z).

Record upload := mkUpload { up_haveName : bool; up_fileName : string; up_data : bytes }.

(** The handler as a machine. *)
Definition upload_machine : machine message :=
  mkMachine upload [] [] (mkUpload false EmptyString [])
    (fun st i =>
       match i with
       | inl (Request (UpName name)) =>
           if up_haveName st then (st, [], Some (Some (ENew "received name more than once")))
           else (mkUpload true name (up_data st), [], None)
       | inl (Request (UpChunk chunk)) =>
           if negb (up_haveName st) then (st, [], Some (Some (ENew "first provide file name")))
           else (mkUpload (up_haveName st) (up_fileName st) (up_data st ++ chunk), [], None)
       | inl (Request (UpOther ty)) => (st, [], Some (Some (ENew ("unknown data type " +:+ ty))))
       | inl (Response _ _) => (st, [], Some (Some (ENew "unknown data type <nil>")))
       | inr e => if errors_Is e EOF then (st, [Response (up_fileName st) (len (up_data st))], Some None)
                  else (st, [], Some (Some e))
       end).

Definition to_message (i : uploadData + goerror) : message + goerror :=
  match i with inl d => inl (Request d) | inr e => inr e end.

Lemma upload_loop_machine recvs haveName fileName data :
  run_machine upload_machine (mkUpload haveName fileName data) (to_message <$> recvs) =
  let '(sent, r) := UploadFile_loop None [] recvs haveName fileName data in
  ((fun '(name, size) => Response name size) <$> sent, r).
Proof.
  revert haveName fileName data.
  induction recvs as [|[[name|chunk|ty]|e] recvs IH]; intros haveName fileName data;
    cbn [fmap list_fmap to_message run_machine hm_receive upload_machine UploadFile_loop hd tl up_haveName up_fileName up_data];
    [done| | | |].
  - destruct haveName; [done|]. rewrite IH. by destruct (UploadFile_loop _ _ _ _ _ _).
  - destruct haveName; cbn [negb]; [|done]. rewrite IH. by destruct (UploadFile_loop _ _ _ _ _ _).
  - done.
  - by destruct (errors_Is e EOF).
Qed.

(** While the context is open and sending succeeds, [UploadFile] is its machine. *)
Theorem upload_is_machine recvs :
  run_machine upload_machine (hm_start upload_machine) (to_message <$> recvs) =
  let '(sent, r) := UploadFile None [] recvs in ((fun '(name, size) => Response name size) <$> sent, r).
Proof. apply upload_loop_machine. Qed.

Lemma upload_chunks ds name data r :
  UploadFile_loop None [] (map inl ds ++ [inr (EIs EOF)]) true name data = ([r], Some None) <->
  exists chunks, ds = map UpChunk chunks /\ r = (name, len (data ++ concat chunks)).
Proof.
  revert data. induction ds as [|[n|c|ty] ds IH]; intros data; cbn [map app UploadFile_loop hd tl negb].
  - split.
    + intros [= <-]. exists []. by rewrite app_nil_r.
    + by intros ([|] & ? & ->); [rewrite app_nil_r|].
  - split; [done|]. by intros ([|] & ? & _).
  - rewrite IH. split.
    + intros (cs & -> & ->). exists (c :: cs). by rewrite <- app_assoc.
    + intros ([|c' cs] & [= <- ->] & ->). exists cs. by rewrite <- app_assoc.
  - split; [done|]. by intros ([|] & ? & _).
Qed.

(** An upload succeeds exactly when it is a name followed by chunks, and then it is
    answered with the name and the size of all of them together; or when nothing
    was sent at all, which is answered with an empty name. *)
Theorem upload_succeeds ds r :
  UploadFile None [] (map inl ds ++ [inr (EIs EOF)]) = ([r], Some None) <->
  (exists name chunks, ds = UpName name :: map UpChunk chunks /\ r = (name, len (concat chunks))) \/
  (ds = [] /\ r = (EmptyString, 0%Z)).
Proof.
  unfold UploadFile. destruct ds as [|[name|chunk|ty] ds]; cbn [map app UploadFile_loop hd tl negb].
  - split; [intros [= <-]; by right|]. by intros [(? & ? & ? & _)|[_ ->]].
  - rewrite upload_chunks. split.
    + intros (chunks & -> & ->). left. by exists name, chunks.
    + intros [(n & chunks & [= <- ->] & ->)|[? _]]; [by exists chunks|done].
  - split; [done|]. by intros [(? & ? & ? & _)|[? _]].
  - split; [done|]. by intros [(? & ? & ? & _)|[? _]].
Qed.

(** Over a data channel, a client that uploads a name and chunks gets the name and the size of
    the chunks. *)
Theorem upload_over_channel `{Multierr goerror} `{GrpcStatus} `{!GrpcStatusLaws} mdJoin marshal unmarshal packet
    MaxMessageSize headers name chunks cch sv sch :
  (0 < packet)%nat -> (forall m d, marshal m = inl d -> unmarshal d = inl m) ->
  (forall m, m ∈ Response name (len (concat chunks)) :: Request (UpName name) :: map (Request ∘ UpChunk) chunks ->
     exists d, marshal m = inl d /\ (len d <= MaxMessageSize)%Z) ->
  client_ready cch -> server_ready StreamMethod headers (next_id cch) sv sch ->
  exists cch' sch',
    stream_call mdJoin marshal unmarshal packet packet MaxMessageSize upload_machine headers
      (Request (UpName name) :: map (Request ∘ UpChunk) chunks) cch sv sch
    = Some (mkStreamResult [inl (Response name (len (concat chunks)))] (inr (EIs EOF)) None None, cch', sv, sch').
Proof.
  intros Hp Hcodec Hm Hc Hs.
  assert (Hdata : forall ms, (forall m, m ∈ ms -> exists d, marshal m = inl d /\ (len d <= MaxMessageSize)%Z) ->
    exists ds, Forall2 (fun m d => marshal m = inl d /\ (len d <= MaxMessageSize)%Z) ms ds).
  { intros ms. induction ms as [|m ms IH]; intros Hms; [by exists []|].
    destruct (Hms m) as [d Hd]; [by left|]. destruct IH as [ds Hds]; [intros; apply Hms; by right|]. by exists (d :: ds); constructor. }
  destruct (Hdata (Request (UpName name) :: map (Request ∘ UpChunk) chunks)) as [datas Hdatas];
    [intros; apply Hm; by right|].
  destruct (Hdata [Response name (len (concat chunks))]) as [outs Houts].
  { intros m ->%list_elem_of_singleton. apply Hm. by left. }
  destruct (stream_call_delivers_run mdJoin marshal unmarshal packet packet MaxMessageSize upload_machine headers
    _ datas [Response name (len (concat chunks))] outs None cch sv sch Hp Hp Hcodec Hc Hs Hdatas)
    as (cch' & sch' & Hcall & _); [|done|done|].
  - pose proof (upload_is_machine (map inl (UpName name :: map UpChunk chunks) ++ [inr (EIs EOF)])) as Hrun.
    assert (Hok : UploadFile None [] (map inl (UpName name :: map UpChunk chunks) ++ [inr (EIs EOF)])
                  = ([(name, len (concat chunks))], Some None)).
    { apply upload_succeeds. left. by exists name, chunks. }
    rewrite Hok in Hrun. etransitivity; [|exact Hrun]. f_equal. cbn. f_equal. clear.
    induction chunks as [|c cs IH]; [done|]. cbn. by f_equal.
  - exists cch', sch'. rewrite Hcall. unfold final_error. by rewrite ErrorToStatus_nil.
Qed.
End FileUploadService.
