(* ===== verification/CallQueueMemory.v ===== *)
(** * The in-memory call queue: [rpc/wrtc_call_queue_memory.go] and the errors
      of [rpc/wrtc_call_queue.go]

    Callers send offers to a host, answerers receive the offers of a set of
    hosts and exchange candidates and answers with the caller. The queue keeps,
    behind pointers, one queue per group of hosts and one exchange per offer:
    pointers are numbers into two heaps. Every unbuffered channel is the list
    of goroutines that wait to send on it.

    Time is in nanoseconds; the clock, the random identifiers and whether a
    caller's context is done are arguments. *)

From S2P Require Import Prelude GoError BaseStream.
Local Open Scope Z_scope.

(** ** State *)

(** [memoryWebRTCCallOfferExchange] with its [memoryWebRTCCallOfferInit]. *)
Record exchange := mkExchange {
  ex_uuid : string;
  ex_sdp : string;
  ex_disableTrickle : bool;
  ex_deadline : Z;
  ex_answererDone : option goerror;   (* error of answererDoneCtx *)
  ex_callerDone : bool;               (* callerDoneCtx was canceled *)
  ex_callerErr : option goerror;
  ex_candidates : list string;        (* received from callerCandidates *)
  ex_answers : list string;           (* received from answererResponses *)
}.

Definition ex_set_answererDone v e := mkExchange (ex_uuid e) (ex_sdp e) (ex_disableTrickle e)
  (ex_deadline e) v (ex_callerDone e) (ex_callerErr e) (ex_candidates e) (ex_answers e).
Definition ex_set_caller d err e := mkExchange (ex_uuid e) (ex_sdp e) (ex_disableTrickle e)
  (ex_deadline e) (ex_answererDone e) d err (ex_candidates e) (ex_answers e).
Definition ex_set_candidates v e := mkExchange (ex_uuid e) (ex_sdp e) (ex_disableTrickle e)
  (ex_deadline e) (ex_answererDone e) (ex_callerDone e) (ex_callerErr e) v (ex_answers e).
Definition ex_set_answers v e := mkExchange (ex_uuid e) (ex_sdp e) (ex_disableTrickle e)
  (ex_deadline e) (ex_answererDone e) (ex_callerDone e) (ex_callerErr e) (ex_candidates e) v.

(** [singleWebRTCHostQueue]. *)
Record hostQueue := mkHostQueue {
  hq_waiting : list nat;               (* goroutines sending on exchangeCh, oldest first *)
  hq_activeOffers : gmap string nat;
}.

Record callQueue := mkCallQueue {
  q_hostQueues : gmap string nat;      (* host to its queue *)
  q_queues : list hostQueue;           (* the heap of host queues *)
  q_exchanges : list exchange;         (* the heap of exchanges *)
  q_cancelErr : option goerror;        (* error of cancelCtx *)
  q_uuidDeterministic : bool;
  q_uuidCounter : Z;
  q_workers : nat;                     (* activeBackgroundWorkers *)
}.

Definition q_set_queues v q := mkCallQueue (q_hostQueues q) v (q_exchanges q) (q_cancelErr q)
  (q_uuidDeterministic q) (q_uuidCounter q) (q_workers q).
Definition q_set_exchanges v q := mkCallQueue (q_hostQueues q) (q_queues q) v (q_cancelErr q)
  (q_uuidDeterministic q) (q_uuidCounter q) (q_workers q).

(** [newMemoryWebRTCCallQueue]; its ticker goroutine is the first worker. *)
Definition newMemoryWebRTCCallQueue (uuidDeterministic : bool) : callQueue :=
  mkCallQueue ∅ [] [] None uuidDeterministic 0 1.

(** [inactiveOfferError.Error()]; [quote] is the [%q] verb. *)
Definition noActiveOfferStr : string := "no active offer".
Definition newInactiveOfferErr (quote : string -> string) (uuid : string) : goerror :=
  ENew (noActiveOfferStr +:+ " for " +:+ quote uuid)%string.

(** ** Host queues *)

(** The loop of [getOrMakeHostsQueue] over the hosts: the queue of the last
    host that has one, and the hosts that have none, in order. *)
Fixpoint scan_hosts (hostQueues : gmap string nat) (hosts : list string) (shared : option nat)
    (missing : list string) : option nat * list string :=
  match hosts with
  | [] => (shared, missing)
  | host :: hosts' =>
      match hostQueues !! host with
      | Some hq => scan_hosts hostQueues hosts' (Some hq) missing
      | None => scan_hosts hostQueues hosts' shared (missing ++ [host])
      end
  end.

(** [getOrMakeHostsQueue]. *)
Definition getOrMakeHostsQueue (hosts : list string) (q : callQueue) : callQueue * nat :=
  let '(shared, missing) := scan_hosts (q_hostQueues q) hosts None [] in
  let '(queues, hq) := match shared with
                       | Some hq => (q_queues q, hq)
                       | None => (q_queues q ++ [mkHostQueue [] ∅], length (q_queues q))
                       end in
  (mkCallQueue (foldl (fun m host => <[host := hq]> m) (q_hostQueues q) missing) queues
     (q_exchanges q) (q_cancelErr q) (q_uuidDeterministic q) (q_uuidCounter q) (q_workers q), hq).

(** ** The caller's side *)

(** [SendOfferInit]: the new exchange becomes active in the host's queue and a
    goroutine starts that offers it on the queue's channel. Its first action
    is [activeBackgroundWorkers.Done()], so the counter is as before.
    [randomUUID] is used unless identifiers are deterministic; [showInt] is
    the [%d] verb; [offerDeadline] is how long an offer lives. *)
Definition SendOfferInit (showInt : Z -> string) (randomUUID : string) (now offerDeadline : Z)
    (host sdp : string) (disableTrickle : bool) (q : callQueue) : callQueue * string :=
  let '(q1, hq) := getOrMakeHostsQueue [host] q in
  let counter := if q_uuidDeterministic q1 then q_uuidCounter q1 + 1 else q_uuidCounter q1 in
  let newUUID := if q_uuidDeterministic q1 then ("insecure-uuid-" +:+ showInt counter)%string
                 else randomUUID in
  let ex := length (q_exchanges q1) in
  let sendCtxErr := match q_cancelErr q1 with
                    | Some e => Some e
                    | None => if offerDeadline <=? 0 then Some (EIs DeadlineExceeded) else None
                    end in
  let exch := mkExchange newUUID sdp disableTrickle (now + offerDeadline) sendCtxErr false None [] [] in
  let add h := mkHostQueue (hq_waiting h ++ [ex]) (<[newUUID := ex]> (hq_activeOffers h)) in
  (mkCallQueue (q_hostQueues q1) (alter add hq (q_queues q1)) (q_exchanges q1 ++ [exch])
     (q_cancelErr q1) (q_uuidDeterministic q1) counter (q_workers q1), newUUID).

(** The active offer of a host with an identifier. *)
Definition find_offer (hq : nat) (uuid : string) (q : callQueue) : option nat :=
  match q_queues q !! hq with
  | Some h => hq_activeOffers h !! uuid
  | None => None
  end.

Section CallerOps.
Context (quote : string -> string).

(** [SendOfferUpdate]; [answererReceives] says whether the answerer is in a
    receive on the candidates channel, [ctxErr] is the caller's context. *)
Definition SendOfferUpdate (ctxErr : option goerror) (answererReceives : bool)
    (host uuid candidate : string) (q : callQueue) : outcome (callQueue * option goerror) :=
  let '(q1, hq) := getOrMakeHostsQueue [host] q in
  match find_offer hq uuid q1 with
  | None => Returns (q1, Some (newInactiveOfferErr quote uuid))
  | Some ex =>
      if answererReceives then
        Returns (q_set_exchanges
                   (alter (fun e => ex_set_candidates (ex_candidates e ++ [candidate]) e) ex
                      (q_exchanges q1)) q1, None)
      else match ctxErr with
           | Some e => Returns (q1, Some e)
           | None => Blocks (q1, None)
           end
  end.

(** [SendOfferDone]. *)
Definition SendOfferDone (host uuid : string) (q : callQueue) : callQueue * option goerror :=
  let '(q1, hq) := getOrMakeHostsQueue [host] q in
  match find_offer hq uuid q1 with
  | None => (q1, Some (newInactiveOfferErr quote uuid))
  | Some ex =>
      (q_set_exchanges (alter (fun e => ex_set_caller true (ex_callerErr e) e) ex (q_exchanges q1)) q1,
       None)
  end.

(** [SendOfferError]: only the first end of the caller's side counts. *)
Definition SendOfferError (host uuid : string) (err : goerror) (q : callQueue)
    : callQueue * option goerror :=
  let '(q1, hq) := getOrMakeHostsQueue [host] q in
  match find_offer hq uuid q1 with
  | None => (q1, Some (newInactiveOfferErr quote uuid))
  | Some ex =>
      match q_exchanges q1 !! ex with
      | Some e =>
          if ex_callerDone e then (q1, None)
          else
            let del h := mkHostQueue (hq_waiting h) (delete uuid (hq_activeOffers h)) in
            (q_set_queues (alter del hq (q_queues q1))
               (q_set_exchanges (alter (ex_set_caller true (Some err)) ex (q_exchanges q1)) q1), None)
      | None => (q1, None)
      end
  end.
End CallerOps.

(** ** The answerer's side *)

(** [RecvOffer]: the oldest goroutine that waits to send on the channel of the
    hosts' queue, unless the caller's or the queue's context is done. *)
Definition RecvOffer (ctxErr : option goerror) (hosts : list string) (q : callQueue)
    : outcome (callQueue * (nat + goerror)) :=
  let '(q1, hq) := getOrMakeHostsQueue hosts q in
  match q_queues q1 !! hq with
  | Some (mkHostQueue (ex :: waiting) active) =>
      Returns (q_set_queues (<[hq := mkHostQueue waiting active]> (q_queues q1)) q1, inl ex)
  | _ =>
      match ctxErr, q_cancelErr q1 with
      | Some e, _ => Returns (q1, inr e)
      | None, Some e => Returns (q1, inr e)
      | None, None => Blocks (q1, inr (EIs Canceled))
      end
  end.

(** [CallerErr]. *)
Definition CallerErr (e : exchange) : option goerror :=
  if negb (ex_callerDone e) then None
  else match ex_callerErr e with
       | Some err => Some err
       | None => None   (* callerDoneCtx.Err() is context.Canceled *)
       end.

(** [AnswererRespond]; [callerReceives] says whether the caller is in a
    receive on the answers channel. *)
Definition AnswererRespond (ctxErr : option goerror) (callerReceives : bool) (ans : string)
    (e : exchange) : outcome (exchange * option goerror) :=
  if callerReceives then Returns (ex_set_answers (ex_answers e ++ [ans]) e, None)
  else match ex_answererDone e, ctxErr with
       | Some err, _ => Returns (e, Some err)
       | None, Some err => Returns (e, Some err)
       | None, None => Blocks (e, None)
       end.

(** [AnswererDone]. *)
Definition AnswererDone (e : exchange) : exchange :=
  match ex_answererDone e with
  | Some _ => e
  | None => ex_set_answererDone (Some (EIs Canceled)) e
  end.

(** Time passes: the offer's context is done at its deadline. *)
Definition deadline_passes (now : Z) (e : exchange) : exchange :=
  match ex_answererDone e with
  | Some _ => e
  | None => if ex_deadline e <=? now then ex_set_answererDone (Some (EIs DeadlineExceeded)) e else e
  end.

(** The goroutine of [SendOfferInit] may give up once the offer's or the
    caller's context is done. *)
Definition sender_gives_up (callerCtxDone : bool) (hq ex : nat) (q : callQueue) : callQueue :=
  let expired := match q_exchanges q !! ex with
                 | Some e => bool_decide (ex_answererDone e <> None)
                 | None => false
                 end in
  if callerCtxDone || expired then
    q_set_queues (alter (fun h => mkHostQueue (filter (fun x => x <> ex) (hq_waiting h))
                                    (hq_activeOffers h)) hq (q_queues q)) q
  else q.

(** One tick of the queue's ticker goroutine: forget the active offers whose
    deadline is over. *)
Definition offer_alive (now : Z) (exchanges : list exchange) (ex : nat) : bool :=
  match exchanges !! ex with
  | Some e => negb (ex_deadline e <? now)
  | None => true
  end.

Definition expire (now : Z) (exchanges : list exchange) (h : hostQueue) : hostQueue :=
  mkHostQueue (hq_waiting h)
    (filter (fun kv => offer_alive now exchanges (snd kv) = true) (hq_activeOffers h)).

(** The tick visits the queue of every host; a queue of several hosts is
    visited once per host, which changes nothing more. *)
Definition tick (now : Z) (q : callQueue) : callQueue :=
  q_set_queues (map (expire now (q_exchanges q)) (q_queues q)) q.

(** [Close]: cancel, then wait for the workers; the ticker goroutine ends. *)
Definition q_Close (q : callQueue) : outcome callQueue :=
  let q1 := mkCallQueue (q_hostQueues q) (q_queues q)
              (map (fun e => ex_set_answererDone
                      (match ex_answererDone e with Some x => Some x | None => Some (EIs Canceled) end) e)
                 (q_exchanges q))
              (match q_cancelErr q with Some e => Some e | None => Some (EIs Canceled) end)
              (q_uuidDeterministic q) (q_uuidCounter q) (pred (q_workers q)) in
  if decide (q_workers q1 = 0%nat) then Returns q1 else Blocks q1.

(** ** Host queues *)

(** All hosts of the list that have a queue have the same one. *)
Definition agree (m : gmap string nat) (hosts : list string) (hq : nat) : Prop :=
  forall host hq', host ∈ hosts -> m !! host = Some hq' -> hq' = hq.

Lemma scan_hosts_spec m hosts shared missing :
  let '(sh, ms) := scan_hosts m hosts shared missing in
  (forall host, host ∈ ms <-> host ∈ missing \/ (host ∈ hosts /\ m !! host = None)) /\
  (match sh with
   | Some hq => shared = Some hq \/ exists host, host ∈ hosts /\ m !! host = Some hq
   | None => shared = None /\ forall host, host ∈ hosts -> m !! host = None
   end).
Proof.
  revert shared missing. induction hosts as [|x hosts IH]; intros shared missing; simpl.
  { split; [set_solver|]. destruct shared; [auto|]. set_solver. }
  destruct (m !! x) as [hq|] eqn:Hx.
  - specialize (IH (Some hq) missing). destruct (scan_hosts m hosts _ _) as [sh ms].
    destruct IH as [IH1 IH2]. split; [set_solver|].
    destruct sh as [hq'|]; [|by destruct IH2].
    right. destruct IH2 as [[= <-]|(h & ? & ?)]; [exists x | exists h]; set_solver.
  - specialize (IH shared (missing ++ [x])). destruct (scan_hosts m hosts _ _) as [sh ms].
    destruct IH as [IH1 IH2]. split; [set_solver|].
    destruct sh as [hq'|]; [|set_solver].
    destruct IH2 as [?|(h & ? & ?)]; [by left | right; exists h; set_solver].
Qed.

(** [getOrMakeHostsQueue]: hosts keep the queue they have, the others of the
    list get the queue that is returned. *)
Lemma getOrMake_lookup hosts q q1 hq host :
  getOrMakeHostsQueue hosts q = (q1, hq) ->
  q_hostQueues q1 !! host =
  match q_hostQueues q !! host with
  | Some h => Some h
  | None => if decide (host ∈ hosts) then Some hq else None
  end.
Proof.
  unfold getOrMakeHostsQueue. pose proof (scan_hosts_spec (q_hostQueues q) hosts None []) as Hs.
  destruct (scan_hosts _ _ _ _) as [sh ms]. destruct Hs as [Hms _].
  assert (Hl : forall k, foldl (fun m host => <[host := k]> m) (q_hostQueues q) ms !! host =
    match q_hostQueues q !! host with
    | Some h => Some h | None => if decide (host ∈ hosts) then Some k else None end).
  { intros k. rewrite (foldl_insert_lookup id), list_fmap_id. destruct (q_hostQueues q !! host) eqn:E.
    - rewrite decide_False; [done|]. rewrite Hms. intros [?%elem_of_nil|[_ ?]]; congruence.
    - apply decide_ext. rewrite Hms. set_solver. }
  destruct sh; intros [= <- <-]; apply Hl.
Qed.

(** When the registered hosts of the list agree on a queue, that one is
    returned. *)
Lemma getOrMake_agree hosts q hq host :
  agree (q_hostQueues q) hosts hq -> host ∈ hosts -> q_hostQueues q !! host = Some hq ->
  exists q1, getOrMakeHostsQueue hosts q = (q1, hq) /\ q_queues q1 = q_queues q /\
    q_exchanges q1 = q_exchanges q /\ q_cancelErr q1 = q_cancelErr q.
Proof.
  intros Ha Hin Hh. unfold getOrMakeHostsQueue.
  pose proof (scan_hosts_spec (q_hostQueues q) hosts None []) as Hs.
  destruct (scan_hosts _ _ _ _) as [sh ms]. destruct Hs as [_ Hsh].
  destruct sh as [h|].
  - destruct Hsh as [[=]|(host' & Hin' & Hh')]. rewrite (Ha host' h Hin' Hh'). by eexists.
  - destruct Hsh as [_ Hn]. rewrite Hn in Hh by done. done.
Qed.

Lemma agree_single m host hq : m !! host = Some hq -> agree m [host] hq.
Proof. intros H h hq' ->%list_elem_of_singleton ?. congruence. Qed.

(** Every host has a queue and every active offer an exchange with its
    identifier. *)
Record q_inv (q : callQueue) : Prop := {
  qi_hosts : forall host hq, q_hostQueues q !! host = Some hq -> (hq < length (q_queues q))%nat;
  qi_offers : forall hq h uuid ex, q_queues q !! hq = Some h -> hq_activeOffers h !! uuid = Some ex ->
    exists e, q_exchanges q !! ex = Some e /\ ex_uuid e = uuid;
}.

Lemma new_queue_inv b : q_inv (newMemoryWebRTCCallQueue b).
Proof. by constructor. Qed.

Lemma getOrMake_inv hosts q q1 hq :
  q_inv q -> getOrMakeHostsQueue hosts q = (q1, hq) ->
  q_inv q1 /\ (hq < length (q_queues q1))%nat /\ q_exchanges q1 = q_exchanges q /\
  (forall host, host ∈ hosts -> q_hostQueues q !! host = None -> q_hostQueues q1 !! host = Some hq) /\
  (exists extra, q_queues q1 = q_queues q ++ extra) /\ q_cancelErr q1 = q_cancelErr q /\
  q_workers q1 = q_workers q.
Proof.
  intros [Hh Ho] E. pose proof (fun host => getOrMake_lookup hosts q q1 hq host E) as Hl.
  revert E. unfold getOrMakeHostsQueue.
  pose proof (scan_hosts_spec (q_hostQueues q) hosts None []) as Hs.
  destruct (scan_hosts _ _ _ _) as [sh ms]. destruct Hs as [_ Hsh].
  assert (Hnew : forall host, host ∈ hosts -> q_hostQueues q !! host = None ->
                         q_hostQueues q1 !! host = Some hq).
  { intros host Hin Hn. by rewrite Hl, Hn, decide_True. }
  destruct sh as [h|]; intros [= <- <-]; simpl in *.
  - destruct Hsh as [[=]|(host' & Hin' & Hh')]. pose proof (Hh _ _ Hh') as Hlt.
    split_and!; try done; [|by exists []; rewrite app_nil_r]. constructor; [|done]. simpl.
    intros host hq. rewrite Hl. case_match eqn:Ehost; [intros [= <-]; eauto|].
    case_decide; [by intros [= <-] | done].
  - split_and!; try done; [|rewrite length_app; simpl; lia|by eexists]. constructor; simpl.
    + intros host hq. rewrite Hl, length_app. simpl. case_match eqn:Ehost.
      * intros [= <-]. apply Hh in Ehost. lia.
      * case_decide; [intros [= <-]; lia | done].
    + intros hq h uuid ex [Hq|[_ Hq]]%lookup_app_Some Hoff; [eauto|].
      destruct (hq - length (q_queues q))%nat as [|k]; simpl in Hq; [|by rewrite lookup_nil in Hq].
      by simplify_eq.
Qed.

Lemma getOrMake_known host q hq :
  q_hostQueues q !! host = Some hq -> getOrMakeHostsQueue [host] q = (q, hq).
Proof. intros H. unfold getOrMakeHostsQueue. simpl. rewrite H. by destruct q. Qed.

(** What [SendOfferInit] leaves: an exchange, active under its identifier in
    the queue of its host, last in the line for that queue's channel. *)
Lemma SendOfferInit_spec showInt rnd now dl host sdp dt q q1 uuid :
  q_inv q -> SendOfferInit showInt rnd now dl host sdp dt q = (q1, uuid) ->
  let ex := length (q_exchanges q) in
  exists hq h h0 e,
    q_hostQueues q1 !! host = Some hq /\ q_queues q1 !! hq = Some h /\
    hq_activeOffers h !! uuid = Some ex /\ hq_waiting h = hq_waiting h0 ++ [ex] /\
    (q_queues q !! hq = Some h0 \/ q_queues q !! hq = None /\ hq_waiting h0 = []) /\
    q_exchanges q1 !! ex = Some e /\ ex_uuid e = uuid /\ ex_sdp e = sdp /\
    ex_deadline e = now + dl /\ ex_callerDone e = false /\ ex_callerErr e = None.
Proof.
  intros Hi. unfold SendOfferInit.
  destruct (getOrMakeHostsQueue [host] q) as [q0 hq] eqn:E.
  destruct (getOrMake_inv _ _ _ _ Hi E) as (Hi0 & Hlt & Hex & Hnew & [extra Hq] & _).
  intros [= <- <-]. simpl. rewrite Hex in *.
  destruct (lookup_lt_is_Some_2 _ _ Hlt) as [h0 Hh0].
  exists hq. eexists _, h0, _. rewrite list_lookup_alter, decide_True, Hh0 by done. simpl.
  split; [|split; [done|split; [by simpl; rewrite lookup_insert_eq|]]].
  - rewrite (getOrMake_lookup _ _ _ _ host E). destruct (q_hostQueues q !! host) as [hq'|] eqn:Eh.
    + rewrite (getOrMake_known _ _ _ Eh) in E. by simplify_eq.
    + rewrite decide_True; [done | by left].
  - split; [done|]. split; [|split; [by rewrite lookup_app_r, Nat.sub_diag by lia | done]].
    rewrite Hq in Hh0. apply lookup_app_Some in Hh0 as [?|[Hge Hh0]]; [by left|]. right.
    split; [by apply lookup_ge_None|]. revert E Hh0 Hq. unfold getOrMakeHostsQueue.
    destruct (scan_hosts _ _ _ _) as [[h'|] ms]; intros [= <- <-]; simpl.
    + intros Hx Hq. rewrite <- (app_nil_r (q_queues q)) in Hq at 1. apply app_inv_head in Hq as <-.
      by rewrite lookup_nil in Hx.
    + intros Hx Hq. apply app_inv_head in Hq as <-. rewrite Nat.sub_diag in Hx. by simplify_eq/=.
Qed.

(** ** Sequences of operations *)

Inductive qOp :=
  | QSendOfferInit (randomUUID : string) (now offerDeadline : Z) (host sdp : string) (disableTrickle : bool)
  | QSendOfferUpdate (ctxErr : option goerror) (answererReceives : bool) (host uuid candidate : string)
  | QSendOfferDone (host uuid : string)
  | QSendOfferError (host uuid : string) (err : goerror)
  | QRecvOffer (ctxErr : option goerror) (hosts : list string)
  | QAnswererRespond (ctxErr : option goerror) (callerReceives : bool) (ex : nat) (ans : string)
  | QAnswererDone (ex : nat)
  | QDeadlinePasses (now : Z) (ex : nat)
  | QSenderGivesUp (callerCtxDone : bool) (hq ex : nat)
  | QTick (now : Z)
  | QClose.

Section QueueOps.
Context (quote : string -> string) (showInt : Z -> string).

Definition q_op (o : qOp) (q : callQueue) : callQueue :=
  match o with
  | QSendOfferInit rnd now dl host sdp dt => fst (SendOfferInit showInt rnd now dl host sdp dt q)
  | QSendOfferUpdate c r host uuid cand =>
      match SendOfferUpdate quote c r host uuid cand q with
      | Returns (q', _) | Blocks (q', _) => q' | Panics => q end
  | QSendOfferDone host uuid => fst (SendOfferDone quote host uuid q)
  | QSendOfferError host uuid err => fst (SendOfferError quote host uuid err q)
  | QRecvOffer c hosts =>
      match RecvOffer c hosts q with Returns (q', _) | Blocks (q', _) => q' | Panics => q end
  | QAnswererRespond c r ex ans =>
      q_set_exchanges (alter (fun e => match AnswererRespond c r ans e with
                                       | Returns (e', _) | Blocks (e', _) => e' | Panics => e end)
                         ex (q_exchanges q)) q
  | QAnswererDone ex => q_set_exchanges (alter AnswererDone ex (q_exchanges q)) q
  | QDeadlinePasses now ex =>
      q_set_exchanges (alter (deadline_passes now) ex (q_exchanges q)) q
  | QSenderGivesUp c hq ex => sender_gives_up c hq ex q
  | QTick now => tick now q
  | QClose => match q_Close q with Returns q' | Blocks q' => q' | Panics => q end
  end.

(** Changing an exchange but not its identifier. *)
Lemma q_inv_exchange q ex f :
  (forall e, ex_uuid (f e) = ex_uuid e) -> q_inv q ->
  q_inv (q_set_exchanges (alter f ex (q_exchanges q)) q).
Proof using Type.
  intros Hf [Hh Ho]. constructor; simpl; [done|]. intros hq h uuid x Hq Hx.
  destruct (Ho _ _ _ _ Hq Hx) as (e & He & Hu). rewrite list_lookup_alter.
  case_decide as Hd; [|eauto]. subst. rewrite He. exists (f e). by rewrite Hf.
Qed.

(** Changing a queue without adding active offers. *)
Lemma q_inv_queue q hq f :
  (forall h uuid x, hq_activeOffers (f h) !! uuid = Some x -> hq_activeOffers h !! uuid = Some x) ->
  q_inv q -> q_inv (q_set_queues (alter f hq (q_queues q)) q).
Proof using Type.
  intros Hf [Hh Ho]. constructor; simpl.
  - intros host k Hk. rewrite length_alter. eauto.
  - intros k h uuid x Hk Hx. rewrite list_lookup_alter in Hk. case_decide as Hd; [|eauto].
    subst. destruct (q_queues q !! k) as [h0|] eqn:E; simplify_eq/=. eauto.
Qed.

Lemma SendOfferInit_inv rnd now dl host sdp dt q :
  q_inv q -> q_inv (fst (SendOfferInit showInt rnd now dl host sdp dt q)).
Proof using Type.
  intros Hi. unfold SendOfferInit. destruct (getOrMakeHostsQueue [host] q) as [q0 hq] eqn:E.
  destruct (getOrMake_inv _ _ _ _ Hi E) as ([Hh Ho] & _). constructor; simpl.
  - intros h k Hk. rewrite length_alter. eauto.
  - intros k h uuid x Hk Hx. rewrite list_lookup_alter in Hk.
    assert (Hold : forall h0, q_queues q0 !! k = Some h0 -> hq_activeOffers h0 !! uuid = Some x ->
      exists e, (q_exchanges q0 ++ [mkExchange
        (if q_uuidDeterministic q0 then ("insecure-uuid-" +:+ showInt
           (if q_uuidDeterministic q0 then q_uuidCounter q0 + 1 else q_uuidCounter q0))%string else rnd)
        sdp dt (now + dl)
        (match q_cancelErr q0 with
         | Some e => Some e
         | None => if dl <=? 0 then Some (EIs DeadlineExceeded) else None end)
        false None [] []]) !! x = Some e /\ ex_uuid e = uuid).
    { intros h0 Hq Hoff. destruct (Ho _ _ _ _ Hq Hoff) as (e & He & Hu). exists e.
      split; [|done]. by apply lookup_app_l_Some. }
    case_decide as Hd; [|eauto]. subst. destruct (q_queues q0 !! k) as [h0|] eqn:Eq; simplify_eq/=.
    apply lookup_insert_Some in Hx as [[<- <-]|[_ Hx]]; [|eauto].
    eexists. split; [by rewrite lookup_app_r, Nat.sub_diag by lia | done].
Qed.

Lemma q_op_inv o q : q_inv q -> q_inv (q_op o q).
Proof using Type.
  intros Hi. destruct o as [rnd now dl host sdp dt|c r host uuid cand|host uuid|host uuid err|c hosts
                           |c r ex ans|ex|now ex|c hq ex|now|]; simpl.
  - by apply SendOfferInit_inv.
  - unfold SendOfferUpdate. destruct (getOrMakeHostsQueue [host] q) as [q0 hq] eqn:E.
    destruct (getOrMake_inv _ _ _ _ Hi E) as (Hi0 & _). destruct (find_offer hq uuid q0); [|done].
    destruct r; [by apply q_inv_exchange | by destruct c].
  - unfold SendOfferDone. destruct (getOrMakeHostsQueue [host] q) as [q0 hq] eqn:E.
    destruct (getOrMake_inv _ _ _ _ Hi E) as (Hi0 & _). destruct (find_offer hq uuid q0); [|done].
    by apply q_inv_exchange.
  - unfold SendOfferError. destruct (getOrMakeHostsQueue [host] q) as [q0 hq] eqn:E.
    destruct (getOrMake_inv _ _ _ _ Hi E) as (Hi0 & _).
    destruct (find_offer hq uuid q0) as [ex|]; [|done].
    destruct (q_exchanges q0 !! ex) as [e|] eqn:He; [|done].
    destruct (ex_callerDone e); [done|]. simpl. apply (q_inv_queue (q_set_exchanges _ q0)).
    + intros h u x. simpl. by intros [_ ?]%lookup_delete_Some.
    + by apply q_inv_exchange.
  - unfold RecvOffer. destruct (getOrMakeHostsQueue hosts q) as [q0 hq] eqn:E.
    destruct (getOrMake_inv _ _ _ _ Hi E) as (Hi0 & _).
    destruct (q_queues q0 !! hq) as [[[|ex waiting] active]|] eqn:Eq.
    + by destruct c, (q_cancelErr q0).
    + destruct Hi0 as [Hh Ho]. constructor; simpl.
      * intros h k Hk. rewrite length_insert. eauto.
      * intros k h u x [(<- & <- & ?)|[? Hk]]%list_lookup_insert_Some Hx; [|eauto].
        by apply (Ho _ _ u x Eq).
    + by destruct c, (q_cancelErr q0).
  - apply q_inv_exchange; [|done]. intros e. unfold AnswererRespond.
    by destruct r, (ex_answererDone e), c.
  - apply q_inv_exchange; [|done]. intros e. unfold AnswererDone. by destruct (ex_answererDone e).
  - apply q_inv_exchange; [|done]. intros e. unfold deadline_passes.
    by destruct (ex_answererDone e); [|case_match].
  - unfold sender_gives_up. destruct (_ || _); [|done]. by apply q_inv_queue.
  - destruct Hi as [Hh Ho]. constructor; simpl.
    + intros h k Hk. rewrite length_map. eauto.
    + intros k h u x Hk Hx. rewrite list_lookup_fmap in Hk.
      destruct (q_queues q !! k) as [h0|] eqn:Eq; simplify_eq/=.
      apply map_lookup_filter_Some in Hx as [Hx _]. eauto.
  - unfold q_Close. destruct Hi as [Hh Ho].
    assert (q_inv (mkCallQueue (q_hostQueues q) (q_queues q)
      (map (fun e => ex_set_answererDone
         (match ex_answererDone e with Some x => Some x | None => Some (EIs Canceled) end) e) (q_exchanges q))
      (match q_cancelErr q with Some e => Some e | None => Some (EIs Canceled) end)
      (q_uuidDeterministic q) (q_uuidCounter q) (pred (q_workers q)))).
    { constructor; simpl; [done|]. intros k h u x Hk Hx.
      destruct (Ho _ _ _ _ Hk Hx) as (e & He & Hu). rewrite list_lookup_fmap, He. simpl. eauto. }
    by case_decide.
Qed.
End QueueOps.

(** The queue of the witnesses: one offer for one host, which lives until the
    time 60. *)
Definition sample_queue : callQueue :=
  fst (SendOfferInit (fun _ => "1"%string) "u1" 0 60 "host-a" "sdp" false (newMemoryWebRTCCallQueue false)).

Lemma sample_queue_inv : q_inv sample_queue.
Proof.
  exact (q_op_inv (fun s => s) (fun _ => "1"%string) (QSendOfferInit "u1" 0 60 "host-a" "sdp" false)
           _ (new_queue_inv false)).
Qed.

(** ** Properties *)


(** An offer sent to a host is received by an answerer of a set of hosts with
    that host, when no other offer waits in the host's queue and the hosts of
    the set that have a queue share it. *)
Theorem offer_reaches_answerer (showInt : Z -> string) (rnd : string) (now dl : Z)
    (host sdp uuid : string) (dt : bool) (q q1 : callQueue) (hq : nat) (hosts : list string)
    (ctxErr : option goerror)
    (Hi : q_inv q) (Hsend : SendOfferInit showInt rnd now dl host sdp dt q = (q1, uuid))
    (Hhq : q_hostQueues q1 !! host = Some hq) (Hin : host ∈ hosts)
    (Hagree : agree (q_hostQueues q1) hosts hq)
    (Hidle : forall h, q_queues q !! hq = Some h -> hq_waiting h = []) :
  exists q2 ex e, RecvOffer ctxErr hosts q1 = Returns (q2, inl ex) /\
    q_exchanges q2 !! ex = Some e /\ ex_uuid e = uuid /\ ex_sdp e = sdp /\
    ex_callerDone e = false.
Proof.
  destruct (SendOfferInit_spec _ _ _ _ _ _ _ _ _ _ Hi Hsend)
    as (hq' & h & h0 & e & Hh & Hq & Hact & Hw & Hold & He & Hu & Hs & _ & Hd & _).
  assert (hq' = hq) as -> by congruence.
  destruct (getOrMake_agree hosts q1 hq host Hagree Hin Hhq) as (q2 & E & Hqs & Hexs & Hc).
  assert (Hw0 : hq_waiting h0 = []) by (destruct Hold as [?|[_ ?]]; [by apply Hidle | done]).
  rewrite Hw0 in Hw. destruct h as [w act]. simpl in Hw. subst w.
  unfold RecvOffer. rewrite E, Hqs, Hq. do 3 eexists. split; [done|]. simpl. rewrite Hexs. done.
Qed.

Lemma offer_reaches_answerer_witness :
  exists q2 ex e, RecvOffer None ["host-b"; "host-a"] sample_queue = Returns (q2, inl ex) /\
    q_exchanges q2 !! ex = Some e /\ ex_uuid e = "u1"%string /\ ex_sdp e = "sdp"%string /\
    ex_callerDone e = false.
Proof.
  apply (offer_reaches_answerer (fun _ => "1"%string) "u1" 0 60 "host-a" "sdp" "u1" false
           (newMemoryWebRTCCallQueue false) sample_queue 0 ["host-b"; "host-a"] None).
  - apply new_queue_inv.
  - reflexivity.
  - reflexivity.
  - set_solver.
  - intros h k Hin Hk. apply elem_of_cons in Hin as [->|Hin]; [done|].
    apply list_elem_of_singleton in Hin as ->. vm_compute in Hk. congruence.
  - done.
Defined.

(** When two hosts got their queues from separate offers, an answerer of both
    hosts only ever receives the offers of the one it names last: after that
    one's offer it blocks, although the other host's offer waits. *)
Theorem split_hosts_starve (showInt : Z -> string) (u1 u2 : string) (now dl : Z)
    (host1 host2 sdp1 sdp2 : string) (dt : bool) (Hne : host1 <> host2) :
  let q1 := fst (SendOfferInit showInt u1 now dl host1 sdp1 dt (newMemoryWebRTCCallQueue false)) in
  let q2 := fst (SendOfferInit showInt u2 now dl host2 sdp2 dt q1) in
  exists q3 q4 e, RecvOffer None [host1; host2] q2 = Returns (q3, inl 1%nat) /\
    RecvOffer None [host1; host2] q3 = Blocks (q4, inr (EIs Canceled)) /\
    option_map hq_waiting (q_queues q4 !! 0%nat) = Some [0%nat] /\
    q_exchanges q4 !! 0%nat = Some e /\ ex_sdp e = sdp1.
Proof.
  intros q1 q2. set (ctxErr := if dl <=? 0 then Some (EIs DeadlineExceeded) else None).
  set (e1 := mkExchange u1 sdp1 dt (now + dl) ctxErr false None [] []).
  set (e2 := mkExchange u2 sdp2 dt (now + dl) ctxErr false None [] []).
  assert (Hq1 : q1 = mkCallQueue {[host1 := 0%nat]} [mkHostQueue [0%nat] {[u1 := 0%nat]}] [e1]
                       None false 0 1).
  { unfold q1, SendOfferInit, getOrMakeHostsQueue.
    cbn [scan_hosts newMemoryWebRTCCallQueue q_hostQueues]. by rewrite lookup_empty. }
  set (m := {[host2 := 1%nat; host1 := 0%nat]} : gmap string nat).
  assert (Hq2 : q2 = mkCallQueue m
                       [mkHostQueue [0%nat] {[u1 := 0%nat]}; mkHostQueue [1%nat] {[u2 := 1%nat]}]
                       [e1; e2] None false 0 1).
  { unfold q2. rewrite Hq1. unfold SendOfferInit, getOrMakeHostsQueue.
    cbn [scan_hosts q_hostQueues]. by rewrite lookup_singleton_ne by done. }
  clearbody q2. subst q2.
  assert (Hm1 : m !! host1 = Some 0%nat).
  { unfold m. by rewrite lookup_insert_ne, lookup_singleton_eq by done. }
  assert (Hm2 : m !! host2 = Some 1%nat) by (unfold m; by rewrite lookup_insert_eq).
  assert (Hrun : forall qs exs c d k w, getOrMakeHostsQueue [host1; host2] (mkCallQueue m qs exs c d k w)
                 = (mkCallQueue m qs exs c d k w, 1%nat)).
  { intros. unfold getOrMakeHostsQueue. cbn [scan_hosts q_hostQueues]. by rewrite Hm1, Hm2. }
  unfold RecvOffer. rewrite Hrun. do 3 eexists. split; [done|].
  unfold q_set_queues. cbn [q_hostQueues q_exchanges q_cancelErr q_uuidDeterministic q_uuidCounter q_workers].
  rewrite Hrun. done.
Qed.

Lemma split_hosts_starve_witness :
  let q1 := fst (SendOfferInit (fun _ => EmptyString) "u1" 0 60 "a" "x" true (newMemoryWebRTCCallQueue false)) in
  let q2 := fst (SendOfferInit (fun _ => EmptyString) "u2" 0 60 "b" "y" true q1) in
  exists q3 q4 e, RecvOffer None ["a"; "b"]%string q2 = Returns (q3, inl 1%nat) /\
    RecvOffer None ["a"; "b"]%string q3 = Blocks (q4, inr (EIs Canceled)) /\
    option_map hq_waiting (q_queues q4 !! 0%nat) = Some [0%nat] /\
    q_exchanges q4 !! 0%nat = Some e /\ ex_sdp e = "x"%string.
Proof. by apply (split_hosts_starve (fun _ => EmptyString) "u1" "u2" 0 60 "a" "b" "x" "y" true). Defined.

(** An error of the caller ends its offer: the answerer sees that error, and
    every later call for the offer reports that it is not active. After the
    caller was done, an error changes nothing. *)
Theorem offer_error_is_final (quote : string -> string) (host uuid : string) (err : goerror)
    (hq ex : nat) (e : exchange) (q : callQueue)
    (Hhq : q_hostQueues q !! host = Some hq) (Hact : find_offer hq uuid q = Some ex)
    (Hex : q_exchanges q !! ex = Some e) :
  let '(q1, r) := SendOfferError quote host uuid err q in
  r = None /\
  if ex_callerDone e then q1 = q
  else (exists e', q_exchanges q1 !! ex = Some e' /\ CallerErr e' = Some err) /\
    (forall c b cand, SendOfferUpdate quote c b host uuid cand q1
                      = Returns (q1, Some (newInactiveOfferErr quote uuid))) /\
    SendOfferDone quote host uuid q1 = (q1, Some (newInactiveOfferErr quote uuid)) /\
    forall err', SendOfferError quote host uuid err' q1 = (q1, Some (newInactiveOfferErr quote uuid)).
Proof.
  unfold SendOfferError at 1. rewrite (getOrMake_known _ _ _ Hhq), Hact, Hex.
  destruct (ex_callerDone e) eqn:Hd; [done|]. split; [done|].
  set (q1 := q_set_queues _ _).
  assert (Hk : getOrMakeHostsQueue [host] q1 = (q1, hq)) by (by apply getOrMake_known).
  assert (Hf : find_offer hq uuid q1 = None).
  { unfold find_offer, q1. simpl. rewrite list_lookup_alter, decide_True by done.
    destruct (q_queues q !! hq); simpl; [|done]. by rewrite lookup_delete_eq. }
  split_and!.
  - exists (ex_set_caller true (Some err) e). split; [|done]. unfold q1. simpl.
    by rewrite list_lookup_alter, decide_True, Hex by done.
  - intros c b cand. unfold SendOfferUpdate. by rewrite Hk, Hf.
  - unfold SendOfferDone. by rewrite Hk, Hf.
  - intros err'. unfold SendOfferError. by rewrite Hk, Hf.
Qed.

Lemma offer_error_is_final_witness :
  let '(q1, r) := SendOfferError (fun s => s) "host-a" "u1" (EIs EOF) sample_queue in
  r = None /\
  (exists e', q_exchanges q1 !! 0%nat = Some e' /\ CallerErr e' = Some (EIs EOF)) /\
  (forall c b cand, SendOfferUpdate (fun s => s) c b "host-a" "u1" cand q1
                    = Returns (q1, Some (newInactiveOfferErr (fun s => s) "u1"))) /\
  SendOfferDone (fun s => s) "host-a" "u1" q1
  = (q1, Some (newInactiveOfferErr (fun s => s) "u1")) /\
  forall err', SendOfferError (fun s => s) "host-a" "u1" err' q1
               = (q1, Some (newInactiveOfferErr (fun s => s) "u1")).
Proof.
  by apply (offer_error_is_final (fun s => s) "host-a" "u1" (EIs EOF) 0 0
    (mkExchange "u1" "sdp" false 60 None false None [] []) sample_queue).
Defined.

(** A tick forgets exactly the active offers whose deadline is over, and
    nothing else of a queue. *)
Theorem tick_forgets_expired (now : Z) (q : callQueue) (hq : nat) (uuid : string) (Hi : q_inv q) :
  find_offer hq uuid (tick now q) =
  match find_offer hq uuid q with
  | Some ex =>
      match q_exchanges q !! ex with
      | Some e => if ex_deadline e <? now then None else Some ex
      | None => None
      end
  | None => None
  end.
Proof.
  unfold find_offer, tick. simpl. rewrite list_lookup_fmap.
  destruct (q_queues q !! hq) as [h|] eqn:Hh; simpl; [|done].
  destruct (hq_activeOffers h !! uuid) as [ex|] eqn:Hx.
  - destruct (qi_offers _ Hi _ _ _ _ Hh Hx) as (e & He & _). rewrite He.
    destruct (ex_deadline e <? now) eqn:E.
    + apply map_lookup_filter_None. right. intros x Hx'. simplify_eq. unfold offer_alive. simpl.
      by rewrite He, E.
    + apply map_lookup_filter_Some. split; [done|]. unfold offer_alive. simpl. by rewrite He, E.
  - apply map_lookup_filter_None. by left.
Qed.

Lemma tick_forgets_expired_witness :
  find_offer 0 "u1" (tick 60 sample_queue) = Some 0%nat /\
  find_offer 0 "u1" (tick 61 sample_queue) = None.
Proof.
  split.
  - by rewrite (tick_forgets_expired 60 sample_queue 0 "u1" sample_queue_inv).
  - by rewrite (tick_forgets_expired 61 sample_queue 0 "u1" sample_queue_inv).
Defined.
