(* ===== verification/Dialer.v ===== *)
(** * Connections: [ref.go] and the cached dialer of [rpc/dialer.go]

    A [RefCountedValue] counts references and is released with the last one.
    The cached dialer keeps one reference-counted connection per key; every
    dial of the key gets a [reffedConn], and closing the last of them closes
    the connection and forgets it. Dials and closings run concurrently: each
    of their atomic sections is a function, the methods compose them, and
    [dstep] interleaves them.

    gRPC's own dialing is an argument. *)

From S2P Require Import Prelude GoError BaseStream.
Local Open Scope Z_scope.

(** ** Reference counting: [ref.go] *)

(** [refCountedValue]; its value never changes and is left to its user. *)
Record refCountedValue := mkRef { rcv_count : Z }.

Definition NewRefCountedValue : refCountedValue := mkRef 0.

(** [Ref]; the count of a released value is -1. *)
Definition Ref (rcv : refCountedValue) : outcome refCountedValue :=
  if rcv_count rcv =? -1 then Panics else Returns (mkRef (rcv_count rcv + 1)).

(** [Deref]. *)
Definition Deref (rcv : refCountedValue) : outcome (refCountedValue * bool) :=
  if rcv_count rcv <=? 0 then Panics
  else
    let count := rcv_count rcv - 1 in
    if count =? 0 then Returns (mkRef (-1), true) else Returns (mkRef count, false).

(** ** The cached dialer *)

(** A connection that was dialed: what its Close returns, and its close
    function with what that returns. *)
Record dialedConn := mkConn {
  cn_closeErr : option goerror;
  cn_closeFunc : option (option goerror);
}.

(** [refCountedConnWrapper]; its onUnref deletes [w_key]. *)
Record wrapper := mkWrapper {
  w_key : string;
  w_ref : refCountedValue;
  w_actual : nat;
}.

(** [reffedConn]. *)
Record reffedConn := mkReffed {
  h_wrapper : nat;
  h_derefOnce : bool;
}.

(** [cachedDialer], with the objects it points to. *)
Record dialer := mkDialer {
  cd_conns : gmap string nat;
  cd_wrappers : list wrapper;
  cd_handles : list reffedConn;
  cd_dialed : list dialedConn;
  cd_closes : list nat;          (* the connections that were closed, in order *)
}.

Definition cd_set_conns v cd := mkDialer v (cd_wrappers cd) (cd_handles cd) (cd_dialed cd)
  (cd_closes cd).
Definition cd_set_wrappers v cd := mkDialer (cd_conns cd) v (cd_handles cd) (cd_dialed cd)
  (cd_closes cd).
Definition cd_set_handles v cd := mkDialer (cd_conns cd) (cd_wrappers cd) v (cd_dialed cd)
  (cd_closes cd).
Definition cd_set_dialed v cd := mkDialer (cd_conns cd) (cd_wrappers cd) (cd_handles cd) v
  (cd_closes cd).
Definition cd_set_closes v cd := mkDialer (cd_conns cd) (cd_wrappers cd) (cd_handles cd)
  (cd_dialed cd) v.

(** [NewCachedDialer]. *)
Definition NewCachedDialer : dialer := mkDialer ∅ [] [] [] [].

Definition w_set_ref v w := mkWrapper (w_key w) v (w_actual w).

Section Dialer.
Context `{Multierr goerror} `{GrpcStatus}.

(** [multierr.Combine] of two errors. *)
Definition combine2 (a b : option goerror) : option goerror :=
  multierr_Combine (option_list a ++ option_list b).

(** [clientConnWithCloseFunc.Close] of a connection. *)
Definition closeConn (c : nat) (cd : dialer) : dialer * option goerror :=
  let cd' := cd_set_closes (cd_closes cd ++ [c]) cd in
  match cd_dialed cd !! c with
  | Some cn =>
      (cd', match cn_closeFunc cn with
            | None => cn_closeErr cn
            | Some e => combine2 (cn_closeErr cn) e
            end)
  | None => (cd', None)
  end.

(** The closing error that the callers report: not one of a canceled call. *)
Definition report_close (e : option goerror) : option goerror :=
  match e with
  | Some _ => if bool_decide (status_Code (status_Convert e) = CodeCanceled) then None else e
  | None => None
  end.

(** [refCountedConnWrapper.Ref]: a new [reffedConn]. *)
Definition conn_Ref (w : nat) (cd : dialer) : outcome (dialer * nat) :=
  match cd_wrappers cd !! w with
  | None => Panics
  | Some wr =>
      match Ref (w_ref wr) with
      | Returns r =>
          Returns (cd_set_handles (cd_handles cd ++ [mkReffed w false])
                     (cd_set_wrappers (<[w := w_set_ref r wr]> (cd_wrappers cd)) cd),
                   length (cd_handles cd))
      | _ => Panics
      end
  end.

(** The key of a connection. *)
Definition conn_key (proto target keyExtra : string) : string :=
  (proto +:+ ":" +:+ target +:+ ":" +:+ keyExtra)%string.

(** The end of [DialFunc], with the mutex held: somebody else may have
    connected in the meantime. *)
Definition dial_insert (key : string) (c : nat) (cd : dialer)
    : outcome (dialer * (nat * bool + goerror)) :=
  match cd_conns cd !! key with
  | Some w =>
      match closeConn c cd with
      | (cd1, Some e) => Returns (cd1, inr e)
      | (cd1, None) =>
          match conn_Ref w cd1 with
          | Returns (cd2, h) => Returns (cd2, inl (h, true))
          | _ => Panics
          end
      end
  | None =>
      let w := length (cd_wrappers cd) in
      let cd1 := cd_set_conns (<[key := w]> (cd_conns cd))
                   (cd_set_wrappers (cd_wrappers cd ++ [mkWrapper key NewRefCountedValue c]) cd) in
      match conn_Ref w cd1 with
      | Returns (cd2, h) => Returns (cd2, inl (h, false))
      | _ => Panics
      end
  end.

(** A successful dial gives a connection that nobody else has. *)
Definition add_conn (cn : dialedConn) (cd : dialer) : dialer * nat :=
  (cd_set_dialed (cd_dialed cd ++ [cn]) cd, length (cd_dialed cd)).

(** [DialFunc] without interference; [dialNew] is the result of the dial
    function. The result is the handle and whether it was cached. *)
Definition DialFunc (proto target keyExtra : string) (dialNew : dialedConn + goerror) (cd : dialer)
    : outcome (dialer * (nat * bool + goerror)) :=
  let key := conn_key proto target keyExtra in
  match cd_conns cd !! key with
  | Some w =>
      match conn_Ref w cd with
      | Returns (cd1, h) => Returns (cd1, inl (h, true))
      | _ => Panics
      end
  | None =>
      match dialNew with
      | inr e => Returns (cd, inr e)
      | inl cn => let '(cd1, c) := add_conn cn cd in dial_insert key c cd1
      end
  end.

(** The start of [reffedConn.Close]: the reference is given up once; the
    wrapper when it was the last. *)
Definition close_deref (h : nat) (cd : dialer) : outcome (dialer * option nat) :=
  match cd_handles cd !! h with
  | None => Panics
  | Some rc =>
      if h_derefOnce rc then Returns (cd, None)
      else
        let cd1 := cd_set_handles (<[h := mkReffed (h_wrapper rc) true]> (cd_handles cd)) cd in
        match cd_wrappers cd1 !! h_wrapper rc with
        | None => Panics
        | Some wr =>
            match Deref (w_ref wr) with
            | Returns (r, unref) =>
                Returns (cd_set_wrappers (<[h_wrapper rc := w_set_ref r wr]> (cd_wrappers cd1)) cd1,
                         if unref then Some (h_wrapper rc) else None)
            | _ => Panics
            end
        end
  end.

(** The closing of the wrapper's connection. *)
Definition close_actual (w : nat) (cd : dialer) : dialer * option goerror :=
  match cd_wrappers cd !! w with
  | Some wr => let '(cd', e) := closeConn (w_actual wr) cd in (cd', report_close e)
  | None => (cd, None)
  end.

(** The onUnref of a wrapper. *)
Definition on_unref (w : nat) (cd : dialer) : dialer :=
  match cd_wrappers cd !! w with
  | Some wr => cd_set_conns (delete (w_key wr) (cd_conns cd)) cd
  | None => cd
  end.

(** [reffedConn.Close] without interference. *)
Definition reffedConn_Close (h : nat) (cd : dialer) : outcome (dialer * option goerror) :=
  match close_deref h cd with
  | Returns (cd1, Some w) => let '(cd2, e) := close_actual w cd1 in Returns (on_unref w cd2, e)
  | Returns (cd1, None) => Returns (cd1, None)
  | _ => Panics
  end.

(** The loop of [cachedDialer.Close] over the wrappers that the map had. *)
Fixpoint close_all (ws : list nat) (cd : dialer) (err : option goerror) : dialer * option goerror :=
  match ws with
  | [] => (cd, err)
  | w :: ws' =>
      let '(cd1, e) := close_actual w cd in
      close_all ws' cd1 (match e with Some _ => combine2 err e | None => err end)
  end.

(** [cachedDialer.Close]: every connection of the map is closed; the map and
    the references stay. *)
Definition cd_Close (cd : dialer) : dialer * option goerror :=
  close_all (map_to_list (cd_conns cd)).*2 cd None.

(** ** Interleaving *)

(** Where a goroutine is in DialFunc or in reffedConn.Close. *)
Inductive tpc :=
  | TLookup (key : string)              (* start of DialFunc *)
  | TRef (w : nat)                      (* found in the map, not yet referenced *)
  | TDial (key : string)                (* dialing *)
  | TInsert (key : string) (c : nat)    (* dialed, before the second lock *)
  | TClose (h : nat)                    (* start of reffedConn.Close *)
  | TCloseConn (w : nat)                (* last reference given up *)
  | TUnref (w : nat).                   (* connection closed, still in the map *)

Inductive thread_step : tpc -> dialer -> dialer -> option tpc -> Prop :=
  | ts_hit key cd w : cd_conns cd !! key = Some w ->
      thread_step (TLookup key) cd cd (Some (TRef w))
  | ts_miss key cd : cd_conns cd !! key = None ->
      thread_step (TLookup key) cd cd (Some (TDial key))
  | ts_ref w cd cd' h : conn_Ref w cd = Returns (cd', h) ->
      thread_step (TRef w) cd cd' None
  | ts_dial_err key cd : thread_step (TDial key) cd cd None
  | ts_dial_ok key cn cd cd' c : add_conn cn cd = (cd', c) ->
      thread_step (TDial key) cd cd' (Some (TInsert key c))
  | ts_insert key c cd cd' r : dial_insert key c cd = Returns (cd', r) ->
      thread_step (TInsert key c) cd cd' None
  | ts_deref h cd cd' u : close_deref h cd = Returns (cd', u) ->
      thread_step (TClose h) cd cd' (option_map TCloseConn u)
  | ts_close w cd cd' e : close_actual w cd = (cd', e) ->
      thread_step (TCloseConn w) cd cd' (Some (TUnref w))
  | ts_unref w cd : thread_step (TUnref w) cd (on_unref w cd) None.

(** Whether the next atomic section of a goroutine panics. *)
Definition thread_panics (t : tpc) (cd : dialer) : Prop :=
  match t with
  | TRef w => conn_Ref w cd = Panics
  | TInsert key c => dial_insert key c cd = Panics
  | TClose h => close_deref h cd = Panics
  | _ => False
  end.

Record dconc := mkDConc {
  dc_cd : dialer;
  dc_threads : list tpc;
  dc_panic : bool;
}.

Inductive dstep : dconc -> dconc -> Prop :=
  | dstep_dial key cd ts : dstep (mkDConc cd ts false) (mkDConc cd (ts ++ [TLookup key]) false)
  | dstep_close h cd ts : (h < length (cd_handles cd))%nat ->
      dstep (mkDConc cd ts false) (mkDConc cd (ts ++ [TClose h]) false)
  | dstep_thread t t' cd cd' ts1 ts2 :
      thread_step t cd cd' t' ->
      dstep (mkDConc cd (ts1 ++ t :: ts2) false) (mkDConc cd' (ts1 ++ option_list t' ++ ts2) false)
  | dstep_panic t cd ts1 ts2 :
      thread_panics t cd ->
      dstep (mkDConc cd (ts1 ++ t :: ts2) false) (mkDConc cd (ts1 ++ t :: ts2) true).

Definition dinit : dconc := mkDConc NewCachedDialer [] false.
Definition dreachable : dconc -> Prop := reachable (fun c => c = dinit) dstep.
End Dialer.

(** ** The invariant of the interleavings *)

(** Every connection that was dialed is a token which somebody holds: the
    goroutine that dialed it or is about to close it, the wrapper that is
    referenced, or the log of the closed connections. *)
Definition actual_of (ws : list wrapper) (w : nat) : list nat :=
  option_list (w_actual <$> ws !! w).

Definition holds (ws : list wrapper) (t : tpc) : list nat :=
  match t with
  | TInsert _ c => [c]
  | TCloseConn w => actual_of ws w
  | _ => []
  end.

Definition owned (wr : wrapper) : list nat :=
  if 0 <? rcv_count (w_ref wr) then [w_actual wr] else [].

Definition tokens (cd : dialer) (ts : list tpc) : list nat :=
  cd_closes cd ++ flat_map (holds (cd_wrappers cd)) ts ++ flat_map owned (cd_wrappers cd).

(** The wrappers that the open handles reference, with repetitions. *)
Definition open_of (h : reffedConn) : list nat := if h_derefOnce h then [] else [h_wrapper h].

Definition open_count (w : nat) (hs : list reffedConn) : nat :=
  length (filter (fun x => x = w) (flat_map open_of hs)).

Definition count_ok (n : nat) (wr : wrapper) : Prop :=
  rcv_count (w_ref wr) = if decide (n = 0%nat) then -1 else Z.of_nat n.

Definition thread_ok (cd : dialer) (t : tpc) : Prop :=
  match t with
  | TRef w | TCloseConn w | TUnref w => (w < length (cd_wrappers cd))%nat
  | TClose h => (h < length (cd_handles cd))%nat
  | _ => True
  end.

Record dinv (cd : dialer) (ts : list tpc) : Prop := {
  dv_tokens : NoDup (tokens cd ts);
  dv_bound : Forall (fun c => (c < length (cd_dialed cd))%nat) (tokens cd ts);
  dv_count : forall w wr, cd_wrappers cd !! w = Some wr -> count_ok (open_count w (cd_handles cd)) wr;
  dv_handles : Forall (fun h => (h_wrapper h < length (cd_wrappers cd))%nat) (cd_handles cd);
  dv_map : forall key w, cd_conns cd !! key = Some w -> (w < length (cd_wrappers cd))%nat;
  dv_threads : Forall (thread_ok cd) ts;
}.

Lemma dinit_inv : dinv NewCachedDialer [].
Proof. constructor; simpl; try constructor; done. Qed.

(** Replacing one element of a list moves what it contributed. *)
Lemma flat_map_insert_perm {A B} (f : A -> list B) (l : list A) i x y :
  l !! i = Some x -> flat_map f (<[i := y]> l) ++ f x ≡ₚ flat_map f l ++ f y.
Proof.
  intros Hi. rewrite <- (take_drop_middle l i x Hi) at 2.
  rewrite insert_take_drop by by eapply lookup_lt_Some.
  rewrite !flat_map_app. simpl. solve_Permutation.
Qed.

Lemma open_count_ref w w' hs :
  open_count w (hs ++ [mkReffed w' false]) = (open_count w hs + if decide (w' = w) then 1 else 0)%nat.
Proof.
  unfold open_count. rewrite flat_map_app, filter_app, length_app. f_equal.
  cbn [flat_map open_of h_derefOnce h_wrapper app]. rewrite filter_cons, filter_nil.
  by case_decide.
Qed.

Lemma open_count_insert w hs i h h' :
  hs !! i = Some h ->
  (open_count w (<[i := h']> hs) + length (filter (fun x => x = w) (open_of h)) =
   open_count w hs + length (filter (fun x => x = w) (open_of h')))%nat.
Proof.
  intros Hi. unfold open_count. rewrite <- !length_app, <- !filter_app.
  by rewrite (flat_map_insert_perm open_of hs i h h' Hi).
Qed.

(** Closing a handle takes one reference away from its wrapper. *)
Lemma open_count_close w w' hs h :
  hs !! h = Some (mkReffed w false) ->
  (open_count w' (<[h := mkReffed w true]> hs) + if decide (w = w') then 1 else 0)%nat
  = open_count w' hs.
Proof.
  intros Hl. pose proof (open_count_insert w' _ h _ (mkReffed w true) Hl) as Ho.
  unfold open_of at 1 2 in Ho. cbn [h_derefOnce h_wrapper] in Ho.
  rewrite filter_cons, filter_nil in Ho. simpl in Ho.
  destruct (decide (w = w')); simpl in Ho; lia.
Qed.

Lemma actual_of_insert ws w wr r :
  ws !! w = Some wr -> forall w', actual_of (<[w := w_set_ref r wr]> ws) w' = actual_of ws w'.
Proof.
  intros Hw w'. unfold actual_of. destruct (decide (w = w')) as [<-|Hne].
  - rewrite list_lookup_insert_eq by by eapply lookup_lt_Some. by rewrite Hw.
  - by rewrite list_lookup_insert_ne.
Qed.

(** What the goroutines hold depends on the connections of the wrappers only. *)
Lemma holds_ext cd ws' ts :
  Forall (thread_ok cd) ts ->
  (forall w, (w < length (cd_wrappers cd))%nat -> actual_of ws' w = actual_of (cd_wrappers cd) w) ->
  flat_map (holds ws') ts = flat_map (holds (cd_wrappers cd)) ts.
Proof.
  intros Hok Hw. induction Hok as [|t ts Ht Hok IH]; [done|]. simpl. f_equal; [|done].
  destruct t; simpl in *; auto.
Qed.

(** A wrapper whose count changes but stays positive or not keeps the tokens. *)
Lemma owned_insert ws w wr r :
  ws !! w = Some wr -> (0 <? rcv_count r) = (0 <? rcv_count (w_ref wr)) ->
  flat_map owned (<[w := w_set_ref r wr]> ws) = flat_map owned ws.
Proof.
  intros Hw Hr. rewrite <- (take_drop_middle ws w wr Hw) at 2.
  rewrite insert_take_drop by by eapply lookup_lt_Some.
  rewrite !flat_map_app. simpl. unfold owned at 2 5. simpl. by rewrite Hr.
Qed.

Section Invariant.
Context `{Multierr goerror} `{GrpcStatus}.

Lemma dinv_perm cd ts ts' : ts ≡ₚ ts' -> dinv cd ts -> dinv cd ts'.
Proof.
  intros Hp [H1 H2 H3 H4 H5 H6].
  assert (Ht : tokens cd ts ≡ₚ tokens cd ts') by (unfold tokens; by rewrite Hp).
  constructor; try done; first [by rewrite <- Ht | by rewrite <- Hp].
Qed.

Lemma conn_Ref_Returns w cd cd' h :
  conn_Ref w cd = Returns (cd', h) ->
  exists wr, cd_wrappers cd !! w = Some wr /\ rcv_count (w_ref wr) <> -1 /\
    h = length (cd_handles cd) /\
    cd' = cd_set_handles (cd_handles cd ++ [mkReffed w false])
            (cd_set_wrappers (<[w := w_set_ref (mkRef (rcv_count (w_ref wr) + 1)) wr]> (cd_wrappers cd)) cd).
Proof.
  unfold conn_Ref, Ref. destruct (cd_wrappers cd !! w) as [wr|]; [|done].
  destruct (_ =? _) eqn:E; [done|]. intros [= <- <-]. exists wr. breflect. done.
Qed.

(** Threads stay valid when the heaps only grow. *)
Lemma threads_grow cd cd' ts :
  (length (cd_wrappers cd) <= length (cd_wrappers cd'))%nat ->
  (length (cd_handles cd) <= length (cd_handles cd'))%nat ->
  Forall (thread_ok cd) ts -> Forall (thread_ok cd') ts.
Proof.
  intros Hw Hh Hok. eapply Forall_impl; [exact Hok|]. intros [] Ht; simpl in *; lia.
Qed.

Lemma count_ok_cases n wr : count_ok n wr -> rcv_count (w_ref wr) <> -1 ->
  n <> 0%nat /\ rcv_count (w_ref wr) = Z.of_nat n.
Proof. unfold count_ok. case_decide; [done | by intros]. Qed.

Lemma dinv_ref w cd cd' h ts :
  dinv cd ts -> conn_Ref w cd = Returns (cd', h) -> dinv cd' ts.
Proof.
  intros [Ht Hb Hc Hh Hm Hok] Hr.
  destruct (conn_Ref_Returns _ _ _ _ Hr) as (wr & Hw & Hne & _ & ->).
  destruct (count_ok_cases _ _ (Hc _ _ Hw) Hne) as [Hpos Hcount].
  assert (Htok : tokens (cd_set_handles (cd_handles cd ++ [mkReffed w false])
    (cd_set_wrappers (<[w := w_set_ref (mkRef (rcv_count (w_ref wr) + 1)) wr]> (cd_wrappers cd)) cd)) ts
    = tokens cd ts).
  { unfold tokens. simpl. rewrite (holds_ext cd _ ts Hok) by (intros; by apply actual_of_insert).
    rewrite owned_insert; [done | done|]. simpl. rewrite Hcount.
    destruct (0 <? _ + 1) eqn:E1, (0 <? _) eqn:E2; breflect; done || lia. }
  constructor; [by rewrite Htok | by rewrite Htok| | | |]; simpl.
  - intros w' wr'. rewrite list_lookup_insert_Some. rewrite open_count_ref.
    intros [(<- & <- & _)|[Hne' Hw']].
    + unfold count_ok. simpl. rewrite (decide_True (P := w = w)), decide_False by (done || lia). lia.
    + rewrite decide_False, Nat.add_0_r by done. by apply Hc.
  - rewrite length_insert. apply Forall_app. split; [done|]. constructor; [|done]. simpl.
    by eapply lookup_lt_Some.
  - intros key w' Hk. rewrite length_insert. by eapply Hm.
  - eapply threads_grow; [| |exact Hok]; simpl; rewrite ?length_insert, ?length_app; lia.
Qed.

(** Closing moves a token that a goroutine holds to the log. *)
Lemma dinv_close_token c cd cd' t e ts :
  holds (cd_wrappers cd) t = [c] -> dinv cd (t :: ts) -> closeConn c cd = (cd', e) ->
  dinv cd' ts /\ cd_wrappers cd' = cd_wrappers cd /\ cd_conns cd' = cd_conns cd.
Proof.
  intros Hc [H1 H2 H3 H4 H5 H6] Hcl.
  assert (cd' = cd_set_closes (cd_closes cd ++ [c]) cd) as ->.
  { unfold closeConn in Hcl. by destruct (cd_dialed cd !! c); simplify_eq. }
  assert (Ht : tokens (cd_set_closes (cd_closes cd ++ [c]) cd) ts ≡ₚ tokens cd (t :: ts)).
  { unfold tokens. simpl. rewrite Hc. simpl. solve_Permutation. }
  apply Forall_cons in H6 as [_ H6]. split; [|done].
  constructor; try done; simpl; by rewrite Ht.
Qed.

Lemma dinv_insert key c cd cd' r ts :
  dinv cd (TInsert key c :: ts) -> dial_insert key c cd = Returns (cd', r) -> dinv cd' ts.
Proof.
  intros Hi. unfold dial_insert. destruct (cd_conns cd !! key) as [w|] eqn:Hk.
  - destruct (closeConn c cd) as [cd1 [e|]] eqn:Hcl;
      destruct (dinv_close_token c cd cd1 (TInsert key c) _ ts eq_refl Hi Hcl) as [Hi1 _].
    + by intros [= <- _].
    + destruct (conn_Ref w cd1) as [[cd2 h]| |] eqn:Hr; try done. intros [= <- _].
      by eapply dinv_ref.
  - set (cd1 := cd_set_conns _ _).
    destruct (conn_Ref _ cd1) as [[cd2 h]| |] eqn:Hr; try done. intros [= <- _].
    destruct (conn_Ref_Returns _ _ _ _ Hr) as (wr & Hw & _ & _ & ->).
    destruct Hi as [Ht Hb Hc Hh Hm Hok]. apply Forall_cons in Hok as [_ Hok].
    simpl in Hw. rewrite lookup_app_r, Nat.sub_diag in Hw by done. simplify_eq/=.
    set (ws := cd_wrappers cd) in *.
    replace (<[length ws := _]> (ws ++ _)) with (ws ++ [mkWrapper key (mkRef 1) c])
      by (by rewrite insert_app_r_alt, Nat.sub_diag).
    assert (Hopen0 : open_count (length ws) (cd_handles cd) = 0%nat).
    { unfold open_count. clear - Hh. induction Hh as [|h hs Hlt Hh IH]; [done|]. simpl.
      rewrite filter_app, length_app, IH, Nat.add_0_r. unfold open_of.
      destruct (h_derefOnce h); [done|]. rewrite filter_cons, decide_False by lia. done. }
    assert (Htok : tokens (cd_set_handles (cd_handles cd ++ [mkReffed (length ws) false])
       (cd_set_wrappers (ws ++ [mkWrapper key (mkRef 1) c]) cd1)) ts ≡ₚ tokens cd (TInsert key c :: ts)).
    { unfold tokens. simpl. rewrite (holds_ext cd _ ts Hok).
      - rewrite flat_map_app. simpl. fold ws. solve_Permutation.
      - intros w' Hlt. unfold actual_of. by rewrite lookup_app_l. }
    constructor; simpl; [by rewrite Htok | by rewrite Htok| | | |].
    + intros w' wr'. rewrite open_count_ref.
      intros [Hl|[Hge Hl]]%lookup_app_Some.
      * pose proof (lookup_lt_Some _ _ _ Hl). rewrite decide_False, Nat.add_0_r by lia. by apply Hc.
      * apply list_lookup_singleton_Some in Hl as [Hw' <-].
        assert (w' = length ws) as -> by lia. by rewrite Hopen0, decide_True.
    + rewrite length_app. apply Forall_app. split.
      * eapply Forall_impl; [exact Hh|]. simpl. intros; lia.
      * constructor; [simpl; lia | done].
    + intros key' w'. rewrite length_app. simpl.
      intros [[_ <-]|[_ Hk']]%lookup_insert_Some; [lia|]. specialize (Hm _ _ Hk'). fold ws in Hm. lia.
    + eapply threads_grow; [| |exact Hok]; simpl; rewrite ?length_app; fold ws; lia.
Qed.
(** Giving up a reference: the last one hands the connection over to the
    goroutine that closes it. *)
Lemma dinv_deref h cd cd' u ts :
  dinv cd (TClose h :: ts) -> close_deref h cd = Returns (cd', u) ->
  dinv cd' (option_list (option_map TCloseConn u) ++ ts).
Proof.
  intros [Ht Hb Hc Hh Hm Hok]. apply Forall_cons in Hok as [_ Hok]. unfold close_deref.
  destruct (cd_handles cd !! h) as [[w []]|] eqn:Hl; [by intros [= <- <-] | |done].
  cbn [h_derefOnce h_wrapper cd_set_handles cd_wrappers].
  destruct (cd_wrappers cd !! w) as [wr|] eqn:Hw; [|done]. unfold Deref.
  destruct (rcv_count (w_ref wr) <=? 0) eqn:Hpos; [done|]. breflect.
  destruct (count_ok_cases _ _ (Hc _ _ Hw) ltac:(lia)) as [Hn Hcount].
  set (n := open_count w (cd_handles cd)) in *.
  set (hs' := <[h := mkReffed w true]> (cd_handles cd)).
  assert (Hopen : forall w', (open_count w' hs' + if decide (w = w') then 1 else 0)%nat
                             = open_count w' (cd_handles cd))
    by (intros; by apply open_count_close).
  set (r := if rcv_count (w_ref wr) - 1 =? 0 then mkRef (-1) else mkRef (rcv_count (w_ref wr) - 1)).
  set (last := rcv_count (w_ref wr) - 1 =? 0).
  set (cd2 := cd_set_wrappers (<[w := w_set_ref r wr]> (cd_wrappers cd)) (cd_set_handles hs' cd)).
  assert (Hinv : dinv cd2 ((if last then [TCloseConn w] else []) ++ ts)).
  { pose proof (flat_map_insert_perm owned (cd_wrappers cd) w wr (w_set_ref r wr) Hw) as Hp.
    assert (Hown : owned wr = [w_actual wr]) by (unfold owned; case_match; breflect; done || lia).
    assert (Hown' : owned (w_set_ref r wr) = if last then [] else [w_actual wr]).
    { unfold owned, r, last. simpl. destruct (_ - 1 =? 0) eqn:E; breflect; simpl; [done|].
      case_match; breflect; done || lia. }
    assert (Hact : actual_of (<[w := w_set_ref r wr]> (cd_wrappers cd)) w = [w_actual wr]).
    { rewrite actual_of_insert by done. unfold actual_of. by rewrite Hw. }
    assert (Htok : tokens cd2 ((if last then [TCloseConn w] else []) ++ ts) ≡ₚ tokens cd (TClose h :: ts)).
    { unfold tokens. simpl. rewrite flat_map_app.
      rewrite (holds_ext cd _ ts Hok) by (intros; by apply actual_of_insert).
      rewrite Hown, Hown' in Hp. destruct last; simpl.
      - rewrite Hact, app_nil_r in *. rewrite <- Hp. solve_Permutation.
      - apply Permutation_app_inv_r in Hp. by rewrite Hp. }
    constructor; simpl; [by rewrite Htok | by rewrite Htok| | | |].
    - intros w' wr'. specialize (Hopen w'). rewrite list_lookup_insert_Some.
      intros [(<- & <- & _)|[Hne Hw']].
      + rewrite decide_True in Hopen by done. fold n in Hopen. unfold count_ok. simpl. unfold r.
        destruct (_ =? 0) eqn:E; breflect; simpl; case_decide; lia.
      + rewrite decide_False, Nat.add_0_r in Hopen by done. rewrite Hopen. by apply Hc.
    - rewrite length_insert. apply Forall_insert; [done|]. simpl. by eapply lookup_lt_Some.
    - intros key w' Hk. rewrite length_insert. by eapply Hm.
    - apply Forall_app. split.
      + destruct last; [|done]. constructor; [|done]. simpl. rewrite length_insert.
        by eapply lookup_lt_Some.
      + eapply threads_grow; [| |exact Hok]; simpl; unfold hs'; rewrite ?length_insert; lia. }
  unfold last, cd2, r in Hinv. destruct (rcv_count (w_ref wr) - 1 =? 0); intros [= <- <-]; exact Hinv.
Qed.

(** A reference that is given up was counted. *)
Lemma close_deref_no_panic h cd ts : dinv cd (TClose h :: ts) -> close_deref h cd <> Panics.
Proof.
  intros [_ _ Hc Hh _ Hok]. apply Forall_cons in Hok as [Ht _]. simpl in Ht.
  apply lookup_lt_is_Some in Ht as [rc Hl]. unfold close_deref. rewrite Hl.
  destruct rc as [w []]; [done|]. simpl. rewrite Forall_lookup in Hh.
  specialize (Hh _ _ Hl). simpl in Hh. apply lookup_lt_is_Some in Hh as [wr Hw]. rewrite Hw.
  assert (Hn : open_count w (cd_handles cd) <> 0%nat).
  { pose proof (open_count_close w w _ _ Hl) as Ho. rewrite decide_True in Ho by done. lia. }
  specialize (Hc _ _ Hw). unfold count_ok in Hc. rewrite decide_False in Hc by done.
  unfold Deref. destruct (_ <=? 0) eqn:E; [breflect; lia|]. by destruct (_ - 1 =? 0).
Qed.

(** The two ways in which [close_deref] returns. *)
Lemma close_deref_spec h cd cd' u w once :
  cd_handles cd !! h = Some (mkReffed w once) -> close_deref h cd = Returns (cd', u) ->
  (once = true /\ cd' = cd /\ u = None) \/
  (once = false /\ exists wr r, cd_wrappers cd !! w = Some wr /\ 0 < rcv_count (w_ref wr) /\
     match u with
     | Some w' => w' = w /\ rcv_count r = -1
     | None => 0 < rcv_count r
     end /\
     cd' = cd_set_wrappers (<[w := w_set_ref r wr]> (cd_wrappers cd))
             (cd_set_handles (<[h := mkReffed w true]> (cd_handles cd)) cd)).
Proof.
  intros Hl. unfold close_deref. rewrite Hl. destruct once; simpl.
  { intros [= <- <-]. auto. }
  destruct (cd_wrappers cd !! w) as [wr|] eqn:Hw; [|done]. unfold Deref.
  destruct (_ <=? 0) eqn:E; [done|]. destruct (_ - 1 =? 0) eqn:E1; intros [= <- <-]; breflect;
    right; (split; [done|]); exists wr; eexists; (split; [done|]); (split; [lia|]);
    (split; [|reflexivity]); simpl; auto with lia.
Qed.

Lemma dinv_thread t cd cd' t' ts :
  thread_step t cd cd' t' -> dinv cd (t :: ts) -> dinv cd' (option_list t' ++ ts).
Proof.
  intros Hst Hi. pose proof Hi as [Ht Hb Hc Hh Hm Hok]. apply Forall_cons in Hok as [Ht0 Hok].
  destruct Hst as [key cd w Hk|key cd Hk|w cd cd' h Hr|key cd|key cn cd cd' c Ha|key c cd cd' r Hr
                  |h cd cd' u Hr|w cd cd' e Hcl|w cd]; simpl.
  - constructor; try done. constructor; [|done]. simpl. by eapply Hm.
  - by constructor; try done; constructor.
  - apply (dinv_ref w cd cd' h); [|done]. by constructor.
  - by constructor.
  - injection Ha as <- <-. assert (Htok : tokens (cd_set_dialed (cd_dialed cd ++ [cn]) cd)
      (TInsert key (length (cd_dialed cd)) :: ts) ≡ₚ length (cd_dialed cd) :: tokens cd (TDial key :: ts)).
    { unfold tokens. simpl. solve_Permutation. }
    constructor; simpl; try done; rewrite ?Htok.
    + constructor; [|done]. intros Hin. rewrite Forall_forall in Hb. specialize (Hb _ Hin). lia.
    + rewrite length_app. simpl. constructor; [lia|]. eapply Forall_impl; [exact Hb|].
      simpl. intros; lia.
    + by constructor.
  - by eapply dinv_insert.
  - by apply (dinv_deref h cd).
  - unfold close_actual in Hcl. simpl in Ht0. apply lookup_lt_is_Some in Ht0 as [wr Hw].
    rewrite Hw in Hcl. destruct (closeConn (w_actual wr) cd) as [cd1 e1] eqn:E. simplify_eq.
    destruct (dinv_close_token (w_actual wr) cd cd' (TCloseConn w) e1 ts) as ([] & Hws & _);
      [simpl; unfold actual_of; by rewrite Hw | done | done |].
    constructor; try done. constructor; [|done]. simpl. rewrite Hws. by eapply lookup_lt_Some.
  - unfold on_unref. destruct (cd_wrappers cd !! w) as [wr|]; [|by constructor].
    constructor; try done. simpl. intros key w' [_ Hk]%lookup_delete_Some. by eapply Hm.
Qed.

Lemma dreachable_inv c : dreachable c -> dinv (dc_cd c) (dc_threads c).
Proof.
  apply (invariant_reachable _ _ (fun c => dinv (dc_cd c) (dc_threads c)));
    [intros s ->; apply dinit_inv|].
  intros s s' Hi Hst. destruct Hst as [key cd ts|h cd ts Hh|t t' cd cd' ts1 ts2 Hst|]; simpl in *; [| | |done].
  - apply (dinv_perm cd (TLookup key :: ts)); [by rewrite Permutation_app_comm|].
    destruct Hi. by constructor; try done; constructor.
  - apply (dinv_perm cd (TClose h :: ts)); [by rewrite Permutation_app_comm|].
    destruct Hi. by constructor; try done; constructor.
  - apply (dinv_perm cd' (option_list t' ++ ts1 ++ ts2)); [solve_Permutation|].
    eapply dinv_thread; [done|]. eapply dinv_perm; [|exact Hi]. solve_Permutation.
Qed.
End Invariant.

(** ** One goroutine

    Without interference, the map has exactly the connections that are
    referenced. *)

Inductive dialOp :=
  | DODial (proto target keyExtra : string) (dialNew : dialedConn + goerror)
  | DOClose (h : nat).

Section Sequential.
Context `{Multierr goerror} `{GrpcStatus}.

(** The dialer after an operation; a panic changes nothing. *)
Definition dial_op (o : dialOp) (cd : dialer) : dialer :=
  match o with
  | DODial proto target keyExtra dialNew =>
      match DialFunc proto target keyExtra dialNew cd with Returns (cd', _) => cd' | _ => cd end
  | DOClose h => match reffedConn_Close h cd with Returns (cd', _) => cd' | _ => cd end
  end.

Record seq_inv (cd : dialer) : Prop := {
  sq_inv : dinv cd [];
  sq_map : forall key w, cd_conns cd !! key = Some w <->
    exists wr, cd_wrappers cd !! w = Some wr /\ w_key wr = key /\ 0 < rcv_count (w_ref wr);
}.

Lemma seq_map_ref cd w wr r :
  cd_wrappers cd !! w = Some wr -> 0 < rcv_count (w_ref wr) -> 0 < rcv_count r ->
  forall w' key,
    (exists wr', <[w := w_set_ref r wr]> (cd_wrappers cd) !! w' = Some wr' /\ w_key wr' = key /\
       0 < rcv_count (w_ref wr')) <->
    (exists wr', cd_wrappers cd !! w' = Some wr' /\ w_key wr' = key /\ 0 < rcv_count (w_ref wr')).
Proof.
  intros Hw Hp Hr w' key. destruct (decide (w = w')) as [<-|Hne].
  - rewrite list_lookup_insert_eq by by eapply lookup_lt_Some.
    split; intros (wr' & Hl & Hk & Hc); simplify_eq/=; eauto.
  - by rewrite list_lookup_insert_ne.
Qed.

Lemma seq_ref key w cd :
  seq_inv cd -> cd_conns cd !! key = Some w ->
  exists cd', conn_Ref w cd = Returns (cd', length (cd_handles cd)) /\ seq_inv cd' /\
    cd_handles cd' = cd_handles cd ++ [mkReffed w false] /\
    cd_conns cd' = cd_conns cd /\ cd_dialed cd' = cd_dialed cd.
Proof.
  intros [Hi Hm] Hk. apply Hm in Hk as (wr & Hw & _ & Hp).
  destruct (conn_Ref w cd) as [[cd' h]| |] eqn:Hr.
  - pose proof (dinv_ref w cd cd' h [] Hi Hr) as Hi'.
    destruct (conn_Ref_Returns _ _ _ _ Hr) as (wr' & Hw' & _ & -> & ->). simplify_eq.
    eexists. split_and!; try done. constructor; [done|]. intros key' w'. simpl.
    rewrite seq_map_ref; [apply Hm | done | done | simpl; lia].
  - unfold conn_Ref in Hr. repeat case_match; done.
  - unfold conn_Ref, Ref in Hr. rewrite Hw in Hr.
    destruct (_ =? -1) eqn:E; [breflect; lia | done].
Qed.

(** A dial of a key that is not in the map makes a new connection. *)
Lemma seq_insert key cn cd :
  seq_inv cd -> cd_conns cd !! key = None ->
  let '(cd1, c) := add_conn cn cd in
  exists cd', dial_insert key c cd1 = Returns (cd', inl (length (cd_handles cd), false)) /\
    seq_inv cd' /\
    cd_handles cd' = cd_handles cd ++ [mkReffed (length (cd_wrappers cd)) false] /\
    cd_wrappers cd' = cd_wrappers cd ++ [mkWrapper key (mkRef 1) (length (cd_dialed cd))] /\
    cd_dialed cd' = cd_dialed cd ++ [cn].
Proof.
  intros [Hi Hm] Hk. simpl.
  assert (Hi1 : dinv (cd_set_dialed (cd_dialed cd ++ [cn]) cd) [TInsert key (length (cd_dialed cd))]).
  { apply (dinv_thread (TDial key) cd _ (Some _) []); [by apply (ts_dial_ok key cn)|].
    destruct Hi. by constructor; try done; constructor. }
  destruct (dial_insert key _ _) as [[cd' r]| |] eqn:Hr.
  - pose proof (dinv_insert _ _ _ _ _ _ Hi1 Hr) as Hi'. unfold dial_insert in Hr. simpl in Hr.
    rewrite Hk in Hr. unfold conn_Ref in Hr. simpl in Hr.
    rewrite lookup_app_r, Nat.sub_diag in Hr by done. simpl in Hr. simplify_eq.
    rewrite insert_app_r_alt, Nat.sub_diag in * by done. simpl in *.
    eexists. split_and!; try done. constructor; [done|]. intros key' w'. simpl.
    split.
    + intros [[<- <-]|[Hne Hw']]%lookup_insert_Some.
      * eexists. rewrite lookup_app_r, Nat.sub_diag by done. done.
      * apply Hm in Hw' as (wr & Hw & ? & ?). exists wr. split; [|done].
        rewrite lookup_app_l; [done | by eapply lookup_lt_Some].
    + intros (wr & [Hw|[Hge Hw]]%lookup_app_Some & <- & Hp).
      * assert (Hin : cd_conns cd !! w_key wr = Some w') by (apply Hm; eauto).
        rewrite lookup_insert_ne; [done|]. congruence.
      * apply list_lookup_singleton_Some in Hw as [Hw <-]. simpl.
        replace w' with (length (cd_wrappers cd)); [apply lookup_insert_eq|].
        lia.
  - unfold dial_insert, conn_Ref in Hr. repeat case_match; done.
  - unfold dial_insert, conn_Ref in Hr. simpl in Hr. rewrite Hk in Hr. simpl in Hr.
    rewrite lookup_app_r, Nat.sub_diag in Hr by done. done.
Qed.

Lemma close_actual_unref w cd :
  let '(cd', e) := close_actual w cd in
  cd_wrappers cd' = cd_wrappers cd /\ cd_conns cd' = cd_conns cd /\ cd_handles cd' = cd_handles cd.
Proof.
  unfold close_actual, closeConn. destruct (cd_wrappers cd !! w); [|done].
  by destruct (cd_dialed cd !! _).
Qed.

(** Closing a handle never panics; the last handle's closing removes the key. *)
Lemma seq_close h cd :
  seq_inv cd -> (h < length (cd_handles cd))%nat ->
  exists cd' e, reffedConn_Close h cd = Returns (cd', e) /\ seq_inv cd'.
Proof.
  intros [Hi Hm] Hh. unfold reffedConn_Close.
  assert (Hi1 : dinv cd [TClose h]) by (destruct Hi; by constructor; try done; constructor).
  destruct (cd_handles cd !! h) as [[w once]|] eqn:Hl; [|by apply lookup_ge_None in Hl; lia].
  destruct (close_deref h cd) as [[cd1 u]| |] eqn:Hd.
  2: { unfold close_deref in Hd. repeat case_match; done. }
  2: { exfalso. apply (close_deref_no_panic h cd [] Hi1 Hd). }
  pose proof (dinv_deref h cd cd1 u [] Hi1 Hd) as Hi2. rewrite app_nil_r in Hi2.
  destruct (close_deref_spec _ _ _ _ _ _ Hl Hd) as [(-> & -> & ->)|(-> & wr & r & Hw & Hp & Hr & ->)].
  { simpl. eauto using Build_seq_inv. }
  destruct u as [w'|]; simpl in *.
  - destruct Hr as [-> Hr0]. destruct (close_actual w _) as [cd2 e] eqn:Hc.
    pose proof (close_actual_unref w (cd_set_wrappers (<[w := w_set_ref r wr]> (cd_wrappers cd))
      (cd_set_handles (<[h := mkReffed w true]> (cd_handles cd)) cd))) as Hu. rewrite Hc in Hu.
    destruct Hu as (U1 & U2 & U3). do 2 eexists. split; [done|]. simpl in *. constructor.
    + apply (dinv_thread (TUnref w) cd2 _ None []); [constructor|].
      apply (dinv_thread (TCloseConn w) _ cd2 (Some (TUnref w)) [] (ts_close _ _ _ _ Hc) Hi2).
    + intros key w'. unfold on_unref. rewrite U1, list_lookup_insert_eq by by eapply lookup_lt_Some.
      simpl. rewrite U2, lookup_delete_Some, Hm, U1. split.
      * intros [Hne (wr' & Hw' & <- & ?)]. exists wr'. rewrite list_lookup_insert_ne; [done|].
        intros <-. simplify_eq.
      * intros (wr' & Hw' & <- & Hpos). apply list_lookup_insert_Some in Hw' as [(<- & <- & _)|[Hne Hw']].
        { simpl in Hpos. lia. }
        split; [|eauto]. intros Heq.
        assert (H1 : cd_conns cd !! w_key wr = Some w) by (apply Hm; eauto).
        assert (H2 : cd_conns cd !! w_key wr' = Some w') by (apply Hm; eauto). congruence.
  - do 2 eexists. split; [done|]. constructor; [done|]. intros key w'. simpl.
    rewrite seq_map_ref by done. apply Hm.
Qed.
End Sequential.

Section SequentialRuns.
Context `{Multierr goerror} `{GrpcStatus}.

Lemma dial_op_inv o cd : seq_inv cd -> seq_inv (dial_op o cd).
Proof.
  intros Hs. destruct o as [proto target extra res|h]; simpl.
  - unfold DialFunc. destruct (cd_conns cd !! _) as [w|] eqn:Hk.
    + by destruct (seq_ref _ _ _ Hs Hk) as (cd' & -> & Hs' & _).
    + destruct res as [cn|e]; [|done]. pose proof (seq_insert _ cn cd Hs Hk) as Hi.
      unfold add_conn in *. cbv beta iota in *.
      by destruct Hi as (cd' & -> & Hs' & _).
  - destruct (decide (h < length (cd_handles cd))%nat) as [Hh|Hh].
    + by destruct (seq_close h cd Hs Hh) as (cd' & e & -> & Hs').
    + unfold reffedConn_Close, close_deref.
      by rewrite (proj2 (lookup_ge_None (cd_handles cd) h)) by lia.
Qed.

Lemma seq_init : seq_inv NewCachedDialer.
Proof.
  constructor; [apply dinit_inv|]. intros key w. simpl. rewrite lookup_empty, lookup_nil.
  split; [done | by intros (? & ? & _)].
Qed.

(** The wrapper that is referenced under a key is the one in the map. *)
Lemma seq_lookup cd key h w wr :
  seq_inv cd -> cd_handles cd !! h = Some (mkReffed w false) ->
  cd_wrappers cd !! w = Some wr -> w_key wr = key -> cd_conns cd !! key = Some w.
Proof.
  intros [Hi Hm] Hh Hw Hk. apply Hm. exists wr. split_and!; [done | done|].
  pose proof (dv_count _ _ Hi _ _ Hw) as Hc. unfold count_ok in Hc.
  pose proof (open_count_close w w _ _ Hh) as Ho. rewrite decide_True in Ho by done.
  rewrite decide_False in Hc by lia. lia.
Qed.
End SequentialRuns.

(** A connection whose last reference was just given up, with a dial that
    found it in the map. *)
Definition released_dialer (key : string) (cn : dialedConn) : dialer :=
  mkDialer {[key := 0%nat]} [mkWrapper key (mkRef (-1)) 0] [mkReffed 0 true] [cn] [].

Lemma race_reachable `{Multierr goerror} `{GrpcStatus} (key : string) (cn : dialedConn) :
  dreachable (mkDConc (released_dialer key cn) [TCloseConn 0; TRef 0] false).
Proof.
  set (cd1 := mkDialer {[key := 0%nat]} [mkWrapper key (mkRef 1) 0] [mkReffed 0 false] [cn] []).
  exists dinit. split; [done|].
  eapply rtc_l; [apply (dstep_dial key)|].
  eapply rtc_l; [apply (dstep_thread _ (Some (TDial key)) _ NewCachedDialer [] []); by constructor|].
  eapply rtc_l; [apply (dstep_thread _ (Some (TInsert key 0)) _
                          (mkDialer ∅ [] [] [cn] []) [] []); by eapply ts_dial_ok|].
  eapply rtc_l; [apply (dstep_thread _ None _ cd1 [] []); eapply ts_insert;
                 unfold dial_insert; simpl; by rewrite lookup_empty|].
  eapply rtc_l; [apply (dstep_close 0); simpl; lia|].
  eapply rtc_l; [apply (dstep_dial key)|].
  eapply rtc_l; [apply (dstep_thread _ (Some (TRef 0)) _ cd1 [TClose 0] []);
                 constructor; apply lookup_singleton_eq|].
  eapply rtc_l; [apply (dstep_thread _ (Some (TCloseConn 0)) _ (released_dialer key cn) [] [TRef 0]);
                 by apply (ts_deref 0 cd1 (released_dialer key cn) (Some 0%nat))|].
  done.
Qed.

(** ** Properties *)


Section W_cached_dialer_safe.
Import SimpleErrors.
End W_cached_dialer_safe.

(** A dial that finds a connection in the map whose last reference is given up
    before the dial takes its own panics: the connection leaves the map only
    after it was closed. *)
Theorem cached_dialer_race_panics `{Multierr goerror} `{GrpcStatus} (key : string) (cn : dialedConn) :
  exists c, dreachable c /\ dc_panic c = true /\
    dc_threads c = [TCloseConn 0; TRef 0] /\ cd_closes (dc_cd c) = [].
Proof.
  destruct (race_reachable key cn) as (c0 & Hc0 & Hr).
  exists (mkDConc (released_dialer key cn) [TCloseConn 0; TRef 0] true). split_and!; try done.
  exists c0. split; [done|]. eapply rtc_r; [exact Hr|].
  by apply (dstep_panic (TRef 0) (released_dialer key cn) [TCloseConn 0] []).
Qed.

(** When dials and closings do not overlap, a dial never panics: it shares the
    connection of an open handle for the same key, and dials anew when there is
    none, so that an error of the dial function is returned only then. *)
Theorem cached_dialer_shares `{Multierr goerror} `{GrpcStatus} (ops : list dialOp)
    (proto target keyExtra : string) (dialNew : dialedConn + goerror) :
  let cd := run_ops dial_op ops NewCachedDialer in
  let key := conn_key proto target keyExtra in
  match DialFunc proto target keyExtra dialNew cd with
  | Returns (cd', inl (h, true)) =>
      exists w wr, cd_handles cd' !! h = Some (mkReffed w false) /\
        cd_wrappers cd !! w = Some wr /\ w_key wr = key /\ (w_actual wr ∉ cd_closes cd) /\
        cd_dialed cd' = cd_dialed cd
  | Returns (cd', r) =>
      (forall h w wr, cd_handles cd !! h = Some (mkReffed w false) ->
         cd_wrappers cd !! w = Some wr -> w_key wr <> key) /\
      match r with
      | inr e => dialNew = inr e /\ cd' = cd
      | inl (h, _) => exists cn, dialNew = inl cn /\ cd_dialed cd' = cd_dialed cd ++ [cn]
      end
  | _ => False
  end.
Proof.
  intros cd key. assert (Hs : seq_inv cd).
  { apply run_ops_invariant; [intros; by apply dial_op_inv | apply seq_init]. }
  clearbody cd. unfold DialFunc. fold key. destruct (cd_conns cd !! key) as [w|] eqn:Hk.
  - destruct (seq_ref key w cd Hs Hk) as (cd' & -> & _ & Hh & _ & Hd).
    destruct (proj1 (sq_map _ Hs _ _) Hk) as (wr & Hw & Hkey & Hpos). exists w, wr.
    split_and!; try done.
    + rewrite Hh. by rewrite lookup_app_r, Nat.sub_diag by done.
    + intros Hin. pose proof (dv_tokens _ _ (sq_inv _ Hs)) as Ht.
      apply NoDup_app in Ht as (_ & Hdis & _). apply (Hdis _ Hin), elem_of_app. right.
      apply list_elem_of_In, in_flat_map. exists wr.
      split; [by apply list_elem_of_In, list_elem_of_lookup; exists w|].
      unfold owned. destruct (0 <? _) eqn:E; breflect; [by left | lia].
  - assert (Hno : forall h w wr, cd_handles cd !! h = Some (mkReffed w false) ->
              cd_wrappers cd !! w = Some wr -> w_key wr <> key).
    { intros h w wr Hh Hw Heq. pose proof (seq_lookup _ _ _ _ _ Hs Hh Hw Heq). congruence. }
    destruct dialNew as [cn|e]; [|done].
    pose proof (seq_insert key cn cd Hs Hk) as Hi. unfold add_conn in *. cbv beta iota in *.
    destruct Hi as (cd' & -> & _ & _ & _ & Hd). eauto.
Qed.
