(* ===== verification/Dial.v ===== *)
(** * Dialing: [rpc/dial.go], the direct dial of [rpc/dialer.go] and the
      options of [rpc/dial_options.go]

    How an address is turned into a connection: mDNS and WebRTC attempts in
    parallel, the direct gRPC connection as a fall-back, TLS or plaintext, and
    the credentials that a connection carries. What the network does (whether a
    server speaks TLS, whether a dial succeeds, which mDNS entry is found,
    which connections are cached, which of two attempts is faster) is an
    argument of the operations; the connections that are opened and closed are
    recorded as events. *)

From stdpp Require Import pretty.
From Stdlib Require Import Ascii.
From S2P Require Import Prelude GoError BaseStream Dialer.

(** ** Options *)

(** [Credentials]. *)
Record Credentials := mkCreds { cr_Type : string; cr_Payload : string }.

#[export] Instance Credentials_eq_dec : EqDecision Credentials.
Proof. solve_decision. Defined.

Definition no_creds : Credentials := mkCreds EmptyString EmptyString.

(** [DialWebRTCOptions], without the WebRTC configuration itself. *)
Record DialWebRTCOptions := mkWebRTCOpts {
  Disable : bool;
  SignalingInsecure : bool;
  SignalingServerAddress : string;
  SignalingAuthEntity : string;
  SignalingExternalAuthAddress : string;
  SignalingExternalAuthToEntity : string;
  SignalingExternalAuthInsecure : bool;
  SignalingCreds : Credentials;
  SignalingExternalAuthAuthMaterial : string;
  AllowAutoDetectAuthOptions : bool;
}.

Definition wo_set_Disable v d := mkWebRTCOpts v (SignalingInsecure d) (SignalingServerAddress d)
  (SignalingAuthEntity d) (SignalingExternalAuthAddress d) (SignalingExternalAuthToEntity d)
  (SignalingExternalAuthInsecure d) (SignalingCreds d) (SignalingExternalAuthAuthMaterial d)
  (AllowAutoDetectAuthOptions d).
Definition wo_set_SignalingInsecure v d := mkWebRTCOpts (Disable d) v (SignalingServerAddress d)
  (SignalingAuthEntity d) (SignalingExternalAuthAddress d) (SignalingExternalAuthToEntity d)
  (SignalingExternalAuthInsecure d) (SignalingCreds d) (SignalingExternalAuthAuthMaterial d)
  (AllowAutoDetectAuthOptions d).
Definition wo_set_SignalingServerAddress v d := mkWebRTCOpts (Disable d) (SignalingInsecure d) v
  (SignalingAuthEntity d) (SignalingExternalAuthAddress d) (SignalingExternalAuthToEntity d)
  (SignalingExternalAuthInsecure d) (SignalingCreds d) (SignalingExternalAuthAuthMaterial d)
  (AllowAutoDetectAuthOptions d).
Definition wo_set_SignalingAuthEntity v d := mkWebRTCOpts (Disable d) (SignalingInsecure d)
  (SignalingServerAddress d) v (SignalingExternalAuthAddress d)
  (SignalingExternalAuthToEntity d) (SignalingExternalAuthInsecure d) (SignalingCreds d)
  (SignalingExternalAuthAuthMaterial d) (AllowAutoDetectAuthOptions d).
Definition wo_set_SignalingExternalAuthAddress v d := mkWebRTCOpts (Disable d)
  (SignalingInsecure d) (SignalingServerAddress d) (SignalingAuthEntity d) v
  (SignalingExternalAuthToEntity d) (SignalingExternalAuthInsecure d) (SignalingCreds d)
  (SignalingExternalAuthAuthMaterial d) (AllowAutoDetectAuthOptions d).
Definition wo_set_SignalingExternalAuthToEntity v d := mkWebRTCOpts (Disable d)
  (SignalingInsecure d) (SignalingServerAddress d) (SignalingAuthEntity d)
  (SignalingExternalAuthAddress d) v (SignalingExternalAuthInsecure d) (SignalingCreds d)
  (SignalingExternalAuthAuthMaterial d) (AllowAutoDetectAuthOptions d).
Definition wo_set_SignalingExternalAuthInsecure v d := mkWebRTCOpts (Disable d)
  (SignalingInsecure d) (SignalingServerAddress d) (SignalingAuthEntity d)
  (SignalingExternalAuthAddress d) (SignalingExternalAuthToEntity d) v (SignalingCreds d)
  (SignalingExternalAuthAuthMaterial d) (AllowAutoDetectAuthOptions d).
Definition wo_set_SignalingCreds v d := mkWebRTCOpts (Disable d) (SignalingInsecure d)
  (SignalingServerAddress d) (SignalingAuthEntity d) (SignalingExternalAuthAddress d)
  (SignalingExternalAuthToEntity d) (SignalingExternalAuthInsecure d) v
  (SignalingExternalAuthAuthMaterial d) (AllowAutoDetectAuthOptions d).
Definition wo_set_SignalingExternalAuthAuthMaterial v d := mkWebRTCOpts (Disable d)
  (SignalingInsecure d) (SignalingServerAddress d) (SignalingAuthEntity d)
  (SignalingExternalAuthAddress d) (SignalingExternalAuthToEntity d)
  (SignalingExternalAuthInsecure d) (SignalingCreds d) v (AllowAutoDetectAuthOptions d).

#[export] Instance DialWebRTCOptions_eq_dec : EqDecision DialWebRTCOptions.
Proof. solve_decision. Defined.

(** [dialOptions], without debugging, statistics and interceptors. *)
Record dialOptions := mkDialOptions {
  insecure : bool;
  tlsConfig : option string;   (* nil, or the server name of the config *)
  allowInsecureDowngrade : bool;
  allowInsecureWithCredsDowngrade : bool;
  authEntity : string;
  creds : Credentials;
  webrtcOpts : DialWebRTCOptions;
  webrtcOptsSet : bool;
  externalAuthAddr : string;
  externalAuthToEntity : string;
  externalAuthInsecure : bool;
  externalAuthMaterial : string;
  authMaterial : string;
  mdnsDisable : bool;   (* mdnsOptions.Disable *)
  mdnsRemoveAuthCredentials : bool;   (* mdnsOptions.RemoveAuthCredentials *)
  usingMDNS : bool;
  disableDirect : bool;
}.

Definition do_set_insecure v d := mkDialOptions v (tlsConfig d) (allowInsecureDowngrade d)
  (allowInsecureWithCredsDowngrade d) (authEntity d) (creds d) (webrtcOpts d) (webrtcOptsSet d)
  (externalAuthAddr d) (externalAuthToEntity d) (externalAuthInsecure d)
  (externalAuthMaterial d) (authMaterial d) (mdnsDisable d) (mdnsRemoveAuthCredentials d)
  (usingMDNS d) (disableDirect d).
Definition do_set_tlsConfig v d := mkDialOptions (insecure d) v (allowInsecureDowngrade d)
  (allowInsecureWithCredsDowngrade d) (authEntity d) (creds d) (webrtcOpts d) (webrtcOptsSet d)
  (externalAuthAddr d) (externalAuthToEntity d) (externalAuthInsecure d)
  (externalAuthMaterial d) (authMaterial d) (mdnsDisable d) (mdnsRemoveAuthCredentials d)
  (usingMDNS d) (disableDirect d).
Definition do_set_allowInsecureDowngrade v d := mkDialOptions (insecure d) (tlsConfig d) v
  (allowInsecureWithCredsDowngrade d) (authEntity d) (creds d) (webrtcOpts d) (webrtcOptsSet d)
  (externalAuthAddr d) (externalAuthToEntity d) (externalAuthInsecure d)
  (externalAuthMaterial d) (authMaterial d) (mdnsDisable d) (mdnsRemoveAuthCredentials d)
  (usingMDNS d) (disableDirect d).
Definition do_set_allowInsecureWithCredsDowngrade v d := mkDialOptions (insecure d)
  (tlsConfig d) (allowInsecureDowngrade d) v (authEntity d) (creds d) (webrtcOpts d)
  (webrtcOptsSet d) (externalAuthAddr d) (externalAuthToEntity d) (externalAuthInsecure d)
  (externalAuthMaterial d) (authMaterial d) (mdnsDisable d) (mdnsRemoveAuthCredentials d)
  (usingMDNS d) (disableDirect d).
Definition do_set_authEntity v d := mkDialOptions (insecure d) (tlsConfig d)
  (allowInsecureDowngrade d) (allowInsecureWithCredsDowngrade d) v (creds d) (webrtcOpts d)
  (webrtcOptsSet d) (externalAuthAddr d) (externalAuthToEntity d) (externalAuthInsecure d)
  (externalAuthMaterial d) (authMaterial d) (mdnsDisable d) (mdnsRemoveAuthCredentials d)
  (usingMDNS d) (disableDirect d).
Definition do_set_creds v d := mkDialOptions (insecure d) (tlsConfig d)
  (allowInsecureDowngrade d) (allowInsecureWithCredsDowngrade d) (authEntity d) v (webrtcOpts d)
  (webrtcOptsSet d) (externalAuthAddr d) (externalAuthToEntity d) (externalAuthInsecure d)
  (externalAuthMaterial d) (authMaterial d) (mdnsDisable d) (mdnsRemoveAuthCredentials d)
  (usingMDNS d) (disableDirect d).
Definition do_set_webrtcOpts v d := mkDialOptions (insecure d) (tlsConfig d)
  (allowInsecureDowngrade d) (allowInsecureWithCredsDowngrade d) (authEntity d) (creds d) v
  (webrtcOptsSet d) (externalAuthAddr d) (externalAuthToEntity d) (externalAuthInsecure d)
  (externalAuthMaterial d) (authMaterial d) (mdnsDisable d) (mdnsRemoveAuthCredentials d)
  (usingMDNS d) (disableDirect d).
Definition do_set_webrtcOptsSet v d := mkDialOptions (insecure d) (tlsConfig d)
  (allowInsecureDowngrade d) (allowInsecureWithCredsDowngrade d) (authEntity d) (creds d)
  (webrtcOpts d) v (externalAuthAddr d) (externalAuthToEntity d) (externalAuthInsecure d)
  (externalAuthMaterial d) (authMaterial d) (mdnsDisable d) (mdnsRemoveAuthCredentials d)
  (usingMDNS d) (disableDirect d).
Definition do_set_externalAuthAddr v d := mkDialOptions (insecure d) (tlsConfig d)
  (allowInsecureDowngrade d) (allowInsecureWithCredsDowngrade d) (authEntity d) (creds d)
  (webrtcOpts d) (webrtcOptsSet d) v (externalAuthToEntity d) (externalAuthInsecure d)
  (externalAuthMaterial d) (authMaterial d) (mdnsDisable d) (mdnsRemoveAuthCredentials d)
  (usingMDNS d) (disableDirect d).
Definition do_set_externalAuthToEntity v d := mkDialOptions (insecure d) (tlsConfig d)
  (allowInsecureDowngrade d) (allowInsecureWithCredsDowngrade d) (authEntity d) (creds d)
  (webrtcOpts d) (webrtcOptsSet d) (externalAuthAddr d) v (externalAuthInsecure d)
  (externalAuthMaterial d) (authMaterial d) (mdnsDisable d) (mdnsRemoveAuthCredentials d)
  (usingMDNS d) (disableDirect d).
Definition do_set_externalAuthInsecure v d := mkDialOptions (insecure d) (tlsConfig d)
  (allowInsecureDowngrade d) (allowInsecureWithCredsDowngrade d) (authEntity d) (creds d)
  (webrtcOpts d) (webrtcOptsSet d) (externalAuthAddr d) (externalAuthToEntity d) v
  (externalAuthMaterial d) (authMaterial d) (mdnsDisable d) (mdnsRemoveAuthCredentials d)
  (usingMDNS d) (disableDirect d).
Definition do_set_externalAuthMaterial v d := mkDialOptions (insecure d) (tlsConfig d)
  (allowInsecureDowngrade d) (allowInsecureWithCredsDowngrade d) (authEntity d) (creds d)
  (webrtcOpts d) (webrtcOptsSet d) (externalAuthAddr d) (externalAuthToEntity d)
  (externalAuthInsecure d) v (authMaterial d) (mdnsDisable d) (mdnsRemoveAuthCredentials d)
  (usingMDNS d) (disableDirect d).
Definition do_set_authMaterial v d := mkDialOptions (insecure d) (tlsConfig d)
  (allowInsecureDowngrade d) (allowInsecureWithCredsDowngrade d) (authEntity d) (creds d)
  (webrtcOpts d) (webrtcOptsSet d) (externalAuthAddr d) (externalAuthToEntity d)
  (externalAuthInsecure d) (externalAuthMaterial d) v (mdnsDisable d)
  (mdnsRemoveAuthCredentials d) (usingMDNS d) (disableDirect d).
Definition do_set_mdnsDisable v d := mkDialOptions (insecure d) (tlsConfig d)
  (allowInsecureDowngrade d) (allowInsecureWithCredsDowngrade d) (authEntity d) (creds d)
  (webrtcOpts d) (webrtcOptsSet d) (externalAuthAddr d) (externalAuthToEntity d)
  (externalAuthInsecure d) (externalAuthMaterial d) (authMaterial d) v
  (mdnsRemoveAuthCredentials d) (usingMDNS d) (disableDirect d).
Definition do_set_mdnsRemoveAuthCredentials v d := mkDialOptions (insecure d) (tlsConfig d)
  (allowInsecureDowngrade d) (allowInsecureWithCredsDowngrade d) (authEntity d) (creds d)
  (webrtcOpts d) (webrtcOptsSet d) (externalAuthAddr d) (externalAuthToEntity d)
  (externalAuthInsecure d) (externalAuthMaterial d) (authMaterial d) (mdnsDisable d) v
  (usingMDNS d) (disableDirect d).
Definition do_set_usingMDNS v d := mkDialOptions (insecure d) (tlsConfig d)
  (allowInsecureDowngrade d) (allowInsecureWithCredsDowngrade d) (authEntity d) (creds d)
  (webrtcOpts d) (webrtcOptsSet d) (externalAuthAddr d) (externalAuthToEntity d)
  (externalAuthInsecure d) (externalAuthMaterial d) (authMaterial d) (mdnsDisable d)
  (mdnsRemoveAuthCredentials d) v (disableDirect d).
Definition do_set_disableDirect v d := mkDialOptions (insecure d) (tlsConfig d)
  (allowInsecureDowngrade d) (allowInsecureWithCredsDowngrade d) (authEntity d) (creds d)
  (webrtcOpts d) (webrtcOptsSet d) (externalAuthAddr d) (externalAuthToEntity d)
  (externalAuthInsecure d) (externalAuthMaterial d) (authMaterial d) (mdnsDisable d)
  (mdnsRemoveAuthCredentials d) (usingMDNS d) v.

#[export] Instance dialOptions_eq_dec : EqDecision dialOptions.
Proof. solve_decision. Defined.

(** The options before any [DialOption] is applied. *)
Definition zero_options : dialOptions :=
  mkDialOptions false None false false EmptyString no_creds
    (mkWebRTCOpts false false EmptyString EmptyString EmptyString EmptyString false no_creds EmptyString false)
    false EmptyString EmptyString false EmptyString EmptyString false false false false.

(** The [DialOption]s. *)
Definition WithInsecure (d : dialOptions) : dialOptions := do_set_insecure true d.
Definition WithCredentials (c : Credentials) (d : dialOptions) : dialOptions :=
  do_set_creds c (do_set_authEntity EmptyString d).
Definition WithEntityCredentials (entity : string) (c : Credentials) (d : dialOptions) : dialOptions :=
  do_set_creds c (do_set_authEntity entity d).
Definition WithExternalAuth (addr toEntity : string) (d : dialOptions) : dialOptions :=
  do_set_externalAuthToEntity toEntity (do_set_externalAuthAddr addr d).
Definition WithExternalAuthInsecure (d : dialOptions) : dialOptions := do_set_externalAuthInsecure true d.
Definition WithStaticAuthenticationMaterial (m : string) (d : dialOptions) : dialOptions :=
  do_set_authMaterial m (do_set_creds no_creds (do_set_authEntity EmptyString d)).
Definition WithStaticExternalAuthenticationMaterial (m : string) (d : dialOptions) : dialOptions :=
  do_set_externalAuthMaterial m (do_set_creds no_creds (do_set_authEntity EmptyString d)).
Definition WithTLSConfig (serverName : string) (d : dialOptions) : dialOptions :=
  do_set_tlsConfig (Some serverName) d.
Definition WithWebRTCOptions (o : DialWebRTCOptions) (d : dialOptions) : dialOptions :=
  do_set_webrtcOptsSet true (do_set_webrtcOpts o d).
Definition WithAllowInsecureDowngrade (d : dialOptions) : dialOptions :=
  do_set_allowInsecureDowngrade true d.
Definition WithAllowInsecureWithCredentialsDowngrade (d : dialOptions) : dialOptions :=
  do_set_allowInsecureWithCredsDowngrade true d.
Definition WithDialMulticastDNSOptions (disable removeAuthCredentials : bool) (d : dialOptions)
    : dialOptions :=
  do_set_mdnsRemoveAuthCredentials removeAuthCredentials (do_set_mdnsDisable disable d).
Definition WithDisableDirectGRPC (d : dialOptions) : dialOptions := do_set_disableDirect true d.
Definition WithForceDirectGRPC (d : dialOptions) : dialOptions :=
  do_set_disableDirect false
    (do_set_webrtcOpts (wo_set_Disable true (webrtcOpts d)) (do_set_mdnsDisable true d)).

(** [cacheKey]; [hash] is the hexadecimal form of the hash of what was written. *)
Definition write_nonempty (acc s : string) : string :=
  if bool_decide (s = EmptyString) then acc else (acc +:+ s)%string.

Definition cacheKey (hash : string -> string) (d : dialOptions) : string :=
  let w := webrtcOpts d in
  hash (foldl write_nonempty EmptyString
    [authEntity d; cr_Type (creds d); cr_Payload (creds d); externalAuthAddr d;
     externalAuthToEntity d; externalAuthMaterial d; SignalingServerAddress w;
     SignalingExternalAuthAddress w; SignalingExternalAuthToEntity w;
     SignalingExternalAuthAuthMaterial w; cr_Type (SignalingCreds w); cr_Payload (SignalingCreds w)]).

(** ** Addresses *)

Abbreviation chars := (list ascii).

Definition colon : ascii := ":"%char.
Definition dot : ascii := "."%char.
Definition lbracket : ascii := "["%char.
Definition rbracket : ascii := "]"%char.

(** [strings.IndexByte] and [strings.LastIndexByte]. *)
Fixpoint index_byte (c : ascii) (s : chars) : option nat :=
  match s with
  | [] => None
  | x :: s' => if Ascii.eqb x c then Some 0 else S <$> index_byte c s'
  end.

Definition last_index (c : ascii) (s : chars) : option nat :=
  (fun i => length s - 1 - i) <$> index_byte c (reverse s).

Definition has_byte (c : ascii) (s : chars) : bool := bool_decide (index_byte c s <> None).

(** [net.SplitHostPort]; an error has no more structure than its text. *)
Definition SplitHostPort (hostport : chars) : (chars * chars) + goerror :=
  match last_index colon hostport with
  | None => inr (ENew "missing port in address")
  | Some i =>
      let finish host j k :=
        if has_byte lbracket (drop j hostport) then inr (ENew "unexpected '[' in address")
        else if has_byte rbracket (drop k hostport) then inr (ENew "unexpected ']' in address")
        else inl (host, drop (S i) hostport) in
      if bool_decide (hostport !! 0 = Some lbracket) then
        match index_byte rbracket hostport with
        | None => inr (ENew "missing ']' in address")
        | Some end_ =>
            if bool_decide (S end_ = length hostport) then inr (ENew "missing port in address")
            else if bool_decide (S end_ = i) then finish (take (end_ - 1) (drop 1 hostport)) 1 (S end_)
            else if bool_decide (hostport !! S end_ = Some colon)
                 then inr (ENew "too many colons in address")
                 else inr (ENew "missing port in address")
        end
      else
        let host := take i hostport in
        if has_byte colon host then inr (ENew "too many colons in address")
        else finish host 0 0
  end.

(** A decimal digit. *)
Definition digit (c : ascii) : option Z :=
  let n := Z.of_nat (nat_of_ascii c) in
  if ((48 <=? n) && (n <=? 57))%Z then Some (n - 48)%Z else None.

Fixpoint parse_digits (acc : Z) (s : chars) : option Z :=
  match s with
  | [] => Some acc
  | c :: s' => match digit c with Some k => parse_digits (10 * acc + k) s' | None => None end
  end.

(** [strconv.ParseUint(s, 10, 16)]. *)
Definition ParseUint16 (s : chars) : Z + goerror :=
  match s, parse_digits 0 s with
  | [], _ | _, None => inr (ENew "invalid syntax")
  | _, Some n => if (n <=? 65535)%Z then inl n else inr (ENew "value out of range")
  end.

(** [getWebRTCTargetFromAddressWithDefaults]. *)
Definition getWebRTCTargetFromAddressWithDefaults (signalingAddress : chars) : (chars * Z) + goerror :=
  if has_byte colon signalingAddress then
    match SplitHostPort signalingAddress with
    | inr e => inr e
    | inl (host, portStr) =>
        let target := if has_byte colon host then lbracket :: host ++ [rbracket] else host in
        match ParseUint16 portStr with
        | inr e => inr e
        | inl port => inl (target, port)
        end
    end
  else inl (signalingAddress, 443%Z).

(** The fields between the separators. *)
Fixpoint split_on (c : ascii) (s : chars) : list chars :=
  match s with
  | [] => [[]]
  | x :: s' =>
      if Ascii.eqb x c then [] :: split_on c s'
      else match split_on c s' with
           | f :: fs => (x :: f) :: fs
           | [] => [[x]]
           end
  end.

(** [net.ParseIP(s) != nil] for an address without a colon: four decimal
    numbers up to 255 without leading zeros. *)
Definition ipv4_field (f : chars) : bool :=
  match f with
  | [] => false
  | c :: rest =>
      match parse_digits 0 f with
      | Some n => ((n <=? 255)%Z && (bool_decide (rest = []) || negb (Ascii.eqb c "0")))
      | None => false
      end
  end.

Definition is_ipv4 (s : chars) : bool :=
  let fs := split_on dot s in bool_decide (length fs = 4) && forallb ipv4_field fs.

(** Decimal text of a port, and the text [host:port]. *)
Definition host_port (host : string) (port : Z) : string :=
  (host +:+ ":" +:+ pretty (Z.to_N port))%string.

(** [fixupWebRTCOptions]. *)
Definition orElse (a b : string) : string := if bool_decide (a = EmptyString) then b else a.

Definition fixupWebRTCOptions (target : string) (port : Z) (d : dialOptions) : dialOptions :=
  let w := wo_set_SignalingServerAddress (host_port target port) (webrtcOpts d) in
  let w := if webrtcOptsSet d then w
           else wo_set_SignalingExternalAuthInsecure (externalAuthInsecure d)
                  (wo_set_SignalingInsecure (insecure d) w) in
  let w := wo_set_SignalingExternalAuthAddress
             (orElse (SignalingExternalAuthAddress w) (externalAuthAddr d)) w in
  let w := wo_set_SignalingExternalAuthToEntity
             (orElse (SignalingExternalAuthToEntity w) (externalAuthToEntity d)) w in
  let w := wo_set_SignalingExternalAuthAuthMaterial
             (orElse (SignalingExternalAuthAuthMaterial w) (externalAuthMaterial d)) w in
  let w := wo_set_SignalingAuthEntity (orElse (SignalingAuthEntity w) (authEntity d)) w in
  let w := if bool_decide (cr_Type (SignalingCreds w) = EmptyString)
           then wo_set_SignalingCreds (creds d) w else w in
  do_set_webrtcOpts w d.

(** ** Connections and events *)

(** The security of a connection's transport; the server name of the default
    configuration is empty. *)
Inductive transport := Plaintext | TLS (serverName : string).

(** The per-RPC credentials of a connection. *)
Inductive rpcAuth :=
  | AuthNone
  | AuthStatic (material : string)          (* staticPerRPCJWTCredentials *)
  | AuthJWT (entity : string) (c : Credentials) (externalAuthMaterial : string)
      (externalAuthToEntity : string).      (* perRPCJWTCredentials *)

(** A connection. [SharedConn] is a further reference to a cached connection,
    [WithCloseFunc] a connection whose close function closes another one. *)
Inductive netConn :=
  | GrpcConn (address : string) (t : transport) (a : rpcAuth)
  | SharedConn (proto target key : string)
  | WebRTCConn (signaling host : string)
  | WithCloseFunc (c ext : netConn).

Inductive dialEvent := EvOpen (c : netConn) | EvShut (c : netConn).

(** Everything that closing a connection closes. *)
Fixpoint owned_by (c : netConn) : list netConn :=
  match c with
  | WithCloseFunc c ext => owned_by c ++ owned_by ext
  | _ => [c]
  end.

Definition shut (c : netConn) : list dialEvent := map EvShut (owned_by c).

(** The error values of the package. *)
Definition ErrInsecureWithCredentials : goerror :=
  ENew "requested address is insecure and will not send credentials".
Definition ErrNoWebRTCSignaler : goerror := ENew "no signaler present".
Definition ErrConnectionOptionsExhausted : goerror :=
  ENew "exhausted all connection options with no way to connect".

(** What the TLS probe of the direct dial finds. *)
Inductive probeResult := ProbeTLS | ProbeNotTLS | ProbeError.

(** An operation's events and its result: a connection and whether it was
    cached, or an error. *)
Abbreviation dialM := (list dialEvent * (netConn * bool + goerror))%type.

Section Network.
Context `{Multierr goerror}.
Context (hash : string -> string).
(** The network and the cache of the context's dialer. *)
Context (probe : string -> probeResult).
Context (grpcDial : string -> transport -> rpcAuth -> option goerror).
Context (webrtcDial : string -> string -> dialOptions -> option goerror).
Context (cacheHit : string -> string -> string -> bool).
Context (closeErr : netConn -> option goerror).

(** ** The direct dial *)

(** The transport that [dialDirectGRPC] decides on. *)
Definition choose_transport (address : string) (d : dialOptions) : transport + goerror :=
  if insecure d then inl Plaintext
  else
    let tls := TLS (default EmptyString (tlsConfig d)) in
    if allowInsecureDowngrade d || allowInsecureWithCredsDowngrade d then
      match probe address with
      | ProbeNotTLS =>
          let noCreds := bool_decide (cr_Type (creds d) = EmptyString) in
          let hasLocalCreds := negb noCreds && bool_decide (externalAuthAddr d = EmptyString) in
          if noCreds || negb hasLocalCreds || allowInsecureWithCredsDowngrade d then inl Plaintext
          else if hasLocalCreds then inr ErrInsecureWithCredentials
          else inl tls
      | ProbeTLS | ProbeError => inl tls
      end
    else inl tls.

(** The options with which the external authenticator is dialed. *)
Definition external_options (d : dialOptions) : dialOptions :=
  do_set_tlsConfig (Some EmptyString)
    (do_set_authEntity EmptyString (do_set_creds no_creds (do_set_externalAuthMaterial EmptyString
       (do_set_insecure (externalAuthInsecure d) (do_set_externalAuthAddr EmptyString d))))).

(** [dialExternalAuthEntity], over the direct dial. *)
Definition dialExternalAuthEntity (direct : string -> dialOptions -> dialM) (d : dialOptions) : dialM :=
  if bool_decide (externalAuthToEntity d = EmptyString)
  then ([], inr (ENew "external auth address set but no authenticate to option set"))
  else direct (externalAuthAddr d) (external_options d).

(** Connect, or take the connection of the context's dialer; [closeCreds] is
    the connection of the close function. *)
Definition connect (address : string) (t : transport) (a : rpcAuth) (d : dialOptions)
    (closeCreds : option netConn) : dialM :=
  let key := cacheKey hash d in
  if cacheHit "grpc" address key then
    ([EvOpen (SharedConn "grpc" address key)], inl (SharedConn "grpc" address key, true))
  else
    match grpcDial address t a with
    | None =>
        let c := GrpcConn address t a in
        ([EvOpen c], inl (match closeCreds with Some ext => WithCloseFunc c ext | None => c end, false))
    | Some e =>
        match closeCreds with
        | Some ext => (shut ext, inr (default e (multierr_Combine (e :: option_list (closeErr ext)))))
        | None => ([], inr e)
        end
    end.

(** [dialDirectGRPC]. It calls itself through [dialExternalAuthEntity] with
    options that need no external authenticator: two levels are enough. *)
Fixpoint dialDirectGRPC (fuel : nat) (address : string) (d : dialOptions) : dialM :=
  match fuel with
  | O => ([], inr (ENew "out of fuel"))
  | S fuel' =>
      match choose_transport address d with
      | inr e => ([], inr e)
      | inl t =>
          if negb (bool_decide (authMaterial d = EmptyString)) then
            connect address t (AuthStatic (authMaterial d)) d None
          else if negb (bool_decide (cr_Type (creds d) = EmptyString))
                  || negb (bool_decide (externalAuthMaterial d = EmptyString)) then
            if negb (bool_decide (externalAuthAddr d = EmptyString)) then
              match dialExternalAuthEntity (dialDirectGRPC fuel') d with
              | (ev, inr e) => (ev, inr e)
              | (ev, inl (ext, _)) =>
                  let '(ev', r) :=
                    connect address t
                      (AuthJWT (authEntity d) (creds d) (externalAuthMaterial d) (externalAuthToEntity d))
                      d (Some ext) in
                  (ev ++ ev', r)
              end
            else connect address t
                   (AuthJWT (authEntity d) (creds d) (externalAuthMaterial d) EmptyString) d None
          else connect address t AuthNone d None
      end
  end.

Definition direct_fuel : nat := 2.
(** ** The WebRTC attempt *)

(** [dialResult]. *)
Record dialResult := mkDialResult {
  dr_conn : option netConn;
  dr_cached : bool;
  dr_err : option goerror;
  dr_skipDirect : bool;
}.

Definition failed (e : goerror) (skipDirect : bool) : dialResult :=
  mkDialResult None false (Some e) skipDirect.

(** The options of the WebRTC attempt, or why the signaling address is bad. *)
Definition webrtc_options (address : string) (d : dialOptions) : dialOptions + goerror :=
  let w := webrtcOpts d in
  let noAddress := bool_decide (SignalingServerAddress w = EmptyString) in
  if noAddress || AllowAutoDetectAuthOptions w then
    let signalingAddress := if noAddress then address else SignalingServerAddress w in
    match getWebRTCTargetFromAddressWithDefaults (String.list_ascii_of_string signalingAddress) with
    | inr e => inr e
    | inl (target, port) =>
        let d1 := fixupWebRTCOptions (String.string_of_list_ascii target) port d in
        let material := SignalingExternalAuthAuthMaterial (webrtcOpts d1) in
        inl (if negb (usingMDNS d1) && bool_decide (authMaterial d1 = EmptyString)
                && negb (bool_decide (material = EmptyString))
             then do_set_creds no_creds (do_set_authMaterial material d1)
             else d1)
    end
  else inl d.

(** The goroutine of [dial] for WebRTC; [parallelErr] is the error of the
    context of the parallel attempts when the attempt ends. *)
Definition webrtc_attempt (parallelErr : option goerror) (address originalAddress : string)
    (d : dialOptions) : list dialEvent * dialResult :=
  match webrtc_options address d with
  | inr e => ([], failed e true)
  | inl d1 =>
      let signaling := SignalingServerAddress (webrtcOpts d1) in
      let target := (signaling +:+ "->" +:+ originalAddress)%string in
      let key := cacheKey hash d1 in
      if cacheHit "webrtc" target key then
        let c := SharedConn "webrtc" target key in
        ([EvOpen c], mkDialResult (Some c) true None false)
      else
        match webrtcDial signaling originalAddress d1 with
        | None =>
            let c := WebRTCConn signaling originalAddress in
            ([EvOpen c], mkDialResult (Some c) false None false)
        | Some e =>
            if negb (errors_Is e ErrNoWebRTCSignaler) then ([], failed e true)
            else match parallelErr with
                 | Some pe => ([], failed pe true)
                 | None => ([], failed e false)
                 end
        end
  end.

(** ** Collecting the results *)

Record collected := mkCollected {
  co_conn : option netConn;
  co_cached : bool;
  co_fatal : option goerror;
  co_nonFatal : option goerror;
}.

(** One iteration of the loop of [dial] over the results. *)
Definition collect_step (r : dialResult) (co : collected) : list dialEvent * collected :=
  match dr_err r, dr_conn r with
  | None, Some c =>
      (match co_conn co with Some old => shut old | None => [] end,
       mkCollected (Some c) (dr_cached r) (co_fatal co) (co_nonFatal co))
  | Some e, _ =>
      ([], if dr_skipDirect r
           then mkCollected (co_conn co) (co_cached co) (combine2 (co_fatal co) (Some e)) (co_nonFatal co)
           else mkCollected (co_conn co) (co_cached co) (co_fatal co) (combine2 (co_nonFatal co) (Some e)))
  | None, None => ([], co)
  end.

Fixpoint collect (rs : list dialResult) (co : collected) : list dialEvent * collected :=
  match rs with
  | [] => ([], co)
  | r :: rs' =>
      let '(ev, co1) := collect_step r co in
      let '(ev', co2) := collect rs' co1 in (ev ++ ev', co2)
  end.

(** ** [dial] *)

(** The switch on the address: the options and whether it is just a domain. *)
Definition classify (address : string) (d : dialOptions) : dialOptions * bool :=
  if String.prefix "unix://" address then
    (do_set_disableDirect false (do_set_insecure true
       (do_set_webrtcOpts (wo_set_Disable true (webrtcOpts d)) (do_set_mdnsDisable true d))), false)
  else if has_byte colon (String.list_ascii_of_string address) then (d, false)
  else (d, negb (is_ipv4 (String.list_ascii_of_string address))).

(** [dial], over the mDNS attempt; [mdnsFirst] says which of two attempts
    ends first. *)
Definition dial_with (mdnsAttempt : dialOptions -> list dialEvent * dialResult)
    (ctxErr parallelErr : option goerror) (mdnsFirst : bool) (address originalAddress : string)
    (d : dialOptions) (tryLocal : bool) : dialM :=
  match ctxErr with
  | Some e => ([], inr e)
  | None =>
      let '(d1, isJustDomain) := classify address d in
      let mdns := if negb (mdnsDisable d1) && tryLocal && isJustDomain
                  then [mdnsAttempt d1] else [] in
      let wrtc := if negb (Disable (webrtcOpts d1))
                  then [webrtc_attempt parallelErr address originalAddress d1] else [] in
      let attempts := if mdnsFirst then mdns ++ wrtc else wrtc ++ mdns in
      let '(ev, co) := collect attempts.*2 (mkCollected None false None None) in
      let ev := concat attempts.*1 ++ ev in
      match co_conn co, co_fatal co with
      | Some c, _ => (ev, inl (c, co_cached co))
      | None, Some e => (ev, inr e)
      | None, None =>
          if disableDirect d1 then (ev, inr ErrConnectionOptionsExhausted)
          else
            match dialDirectGRPC direct_fuel address d1 with
            | (ev', inl r) => (ev ++ ev', inl r)
            | (ev', inr e) => (ev ++ ev', inr (default e (combine2 (Some e) (co_nonFatal co))))
            end
      end
  end.

(** ** mDNS *)

(** What the code reads of a zeroconf.ServiceEntry. *)
Record mdnsEntry := mkEntry { me_Text : list string; me_AddrIPv4 : list string; me_Port : Z }.

(** [lookupMDNSCandidate]: the first entry for the address or the address with
    dashes. [resolve] is the answer to one query, [lookupCtxErr] the context's
    error after the last one. *)
Fixpoint lookup_candidates (resolve : string -> option mdnsEntry + goerror)
    (lookupCtxErr : option goerror) (candidates : list string) : mdnsEntry + goerror :=
  match candidates with
  | [] => inr (default (ENew "mDNS query failed to find a candidate") lookupCtxErr)
  | c :: cs =>
      match resolve c with
      | inr e => inr e
      | inl (Some entry) => inl entry
      | inl None => lookup_candidates resolve lookupCtxErr cs
      end
  end.

Definition dots_to_dashes (s : string) : string :=
  String.string_of_list_ascii (map (fun c => if Ascii.eqb c dot then "-"%char else c) (String.list_ascii_of_string s)).

Definition lookupMDNSCandidate (resolve : string -> option mdnsEntry + goerror)
    (lookupCtxErr : option goerror) (address : string) : mdnsEntry + goerror :=
  lookup_candidates resolve lookupCtxErr [address; dots_to_dashes address].

(** The options with which [dialMulticastDNS] dials an entry's address. *)
Definition mdns_options (hasWebRTC : bool) (ip : string) (port : Z) (address : string)
    (d : dialOptions) : dialOptions :=
  let d := do_set_usingMDNS true d in
  let remove := mdnsRemoveAuthCredentials d in
  let d := if remove
           then do_set_externalAuthMaterial EmptyString (do_set_externalAuthToEntity EmptyString
                  (do_set_authEntity EmptyString (do_set_creds no_creds d)))
           else d in
  let d := if hasWebRTC then
             let d := fixupWebRTCOptions ip port d in
             if remove
             then do_set_webrtcOpts
                    (wo_set_SignalingExternalAuthAuthMaterial EmptyString
                       (wo_set_SignalingCreds no_creds
                          (wo_set_SignalingAuthEntity EmptyString (webrtcOpts d)))) d
             else d
           else do_set_webrtcOpts (wo_set_Disable true (webrtcOpts d)) d in
  do_set_tlsConfig (Some address) d.

(** [dialMulticastDNS]; the connection it finds is dialed with [dial] without
    mDNS. *)
Definition dialMulticastDNS (resolve : string -> option mdnsEntry + goerror)
    (ctxErr parallelErr : option goerror) (address : string) (d : dialOptions) : dialM :=
  match lookupMDNSCandidate resolve ctxErr address with
  | inr e => ([], inr e)
  | inl entry =>
      let hasGRPC := existsb (fun f => str_contains f "grpc") (me_Text entry) in
      let hasWebRTC := existsb (fun f => str_contains f "webrtc") (me_Text entry) in
      match me_AddrIPv4 entry with
      | ip :: _ =>
          if negb (hasGRPC || hasWebRTC)
          then ([], inr (ENew "mDNS query found a service without an IPv4 address that does not support grpc or webrtc"))
          else
            dial_with (fun _ => ([], failed (ENew "no mDNS") false)) ctxErr parallelErr false
              (host_port ip (me_Port entry)) address
              (mdns_options hasWebRTC ip (me_Port entry) address d) false
      | [] => ([], inr (ENew "mDNS query found a service without an IPv4 address that does not support grpc or webrtc"))
      end
  end.

(** [dial]. [innerParallelErr] is the parallel context's error in the dial of
    the mDNS attempt, [mdnsCtxErr] its context's error when it starts. *)
Definition dial (resolve : string -> option mdnsEntry + goerror)
    (ctxErr mdnsCtxErr innerParallelErr parallelErr : option goerror) (mdnsFirst : bool)
    (address originalAddress : string) (d : dialOptions) (tryLocal : bool) : dialM :=
  dial_with
    (fun d1 =>
       match dialMulticastDNS resolve mdnsCtxErr innerParallelErr address d1 with
       | (ev, inl (c, cached)) => (ev, mkDialResult (Some c) cached None false)
       | (ev, inr e) => (ev, failed e false)
       end)
    ctxErr parallelErr mdnsFirst address originalAddress d tryLocal.

(** [dialInner], when the context's dialer has no connection for the address:
    the entity is the address or the external authenticator's unless it is
    given. *)
Definition dialInner (resolve : string -> option mdnsEntry + goerror)
    (ctxErr mdnsCtxErr innerParallelErr parallelErr : option goerror) (mdnsFirst : bool)
    (address : string) (d : dialOptions) : dialM :=
  if bool_decide (address = EmptyString) then ([], inr (ENew "address empty"))
  else
    let key := cacheKey hash d in
    if cacheHit "multi" address key then
      ([EvOpen (SharedConn "multi" address key)], inl (SharedConn "multi" address key, true))
    else
      let d1 := if bool_decide (authEntity d = EmptyString)
                then do_set_authEntity (if bool_decide (externalAuthAddr d = EmptyString)
                                        then address else externalAuthAddr d) d
                else d in
      dial resolve ctxErr mdnsCtxErr innerParallelErr parallelErr mdnsFirst address address d1 true.

(** [DialDirectGRPC]. *)
Definition DialDirectGRPC (resolve : string -> option mdnsEntry + goerror) (ctxErr : option goerror)
    (address : string) (opts : list (dialOptions -> dialOptions)) : dialM :=
  let d := foldl (fun d f => f d) zero_options opts in
  dialInner resolve ctxErr None None None false address
    (do_set_mdnsDisable true (do_set_webrtcOpts (wo_set_Disable true (webrtcOpts d)) d)).

(** [Dial]. *)
Definition Dial (resolve : string -> option mdnsEntry + goerror)
    (ctxErr mdnsCtxErr innerParallelErr parallelErr : option goerror) (mdnsFirst : bool)
    (address : string) (opts : list (dialOptions -> dialOptions)) : dialM :=
  dialInner resolve ctxErr mdnsCtxErr innerParallelErr parallelErr mdnsFirst address
    (foldl (fun d f => f d) zero_options opts).
End Network.

(** ** What an operation leaves open *)

Definition opens (ev : list dialEvent) : list netConn :=
  omap (fun e => match e with EvOpen c => Some c | EvShut _ => None end) ev.
Definition shuts (ev : list dialEvent) : list netConn :=
  omap (fun e => match e with EvShut c => Some c | EvOpen _ => None end) ev.

Definition owned_result (r : netConn * bool + goerror) : list netConn :=
  match r with inl (c, _) => owned_by c | inr _ => [] end.

Definition owned_attempt (r : dialResult) : list netConn :=
  match dr_err r, dr_conn r with None, Some c => owned_by c | _, _ => [] end.

(** What was opened was closed again or belongs to the result. *)
Definition balanced (m : dialM) : Prop := opens m.1 ≡ₚ shuts m.1 ++ owned_result m.2.
Definition balanced_attempt (m : list dialEvent * dialResult) : Prop :=
  opens m.1 ≡ₚ shuts m.1 ++ owned_attempt m.2.

Lemma opens_app a b : opens (a ++ b) = opens a ++ opens b.
Proof. apply omap_app. Qed.
Lemma shuts_app a b : shuts (a ++ b) = shuts a ++ shuts b.
Proof. apply omap_app. Qed.
Lemma opens_shut c : opens (shut c) = [].
Proof. unfold shut. by induction (owned_by c). Qed.
Lemma shuts_shut c : shuts (shut c) = owned_by c.
Proof. unfold shut. induction (owned_by c) as [|x l IH]; [done|]. simpl. f_equal. exact IH. Qed.

#[local] Hint Extern 0 (balanced ([], inr _)) => constructor : core.
#[local] Hint Extern 0 (balanced_attempt ([], failed _ _)) => constructor : core.

Section Balance.
Context `{Multierr goerror} (hash : string -> string).
Context (probe : string -> probeResult).
Context (grpcDial : string -> transport -> rpcAuth -> option goerror).
Context (webrtcDial : string -> string -> dialOptions -> option goerror).
Context (cacheHit : string -> string -> string -> bool).
Context (closeErr : netConn -> option goerror).
Hypothesis no_cache : forall proto target key, cacheHit proto target key = false.

Lemma connect_balanced address t a d ext :
  opens (connect hash grpcDial cacheHit closeErr address t a d ext).1 ++ from_option owned_by [] ext ≡ₚ
  shuts (connect hash grpcDial cacheHit closeErr address t a d ext).1 ++
  owned_result (connect hash grpcDial cacheHit closeErr address t a d ext).2.
Proof.
  unfold connect. rewrite no_cache. destruct (grpcDial address t a) as [e|], ext as [c|]; simpl.
  - by rewrite opens_shut, shuts_shut, app_nil_r.
  - done.
  - done.
  - done.
Qed.

Lemma dialDirectGRPC_balanced fuel address d :
  balanced (dialDirectGRPC hash probe grpcDial cacheHit closeErr fuel address d).
Proof.
  revert address d. induction fuel as [|fuel IH]; intros address d; [by constructor|].
  cbn [dialDirectGRPC].
  destruct (choose_transport _ _ _) as [t|e]; [|done]. unfold balanced.
  pose proof (fun a => connect_balanced address t a d None) as Hc. simpl in Hc.
  setoid_rewrite app_nil_r in Hc.
  destruct (negb (bool_decide (authMaterial d = _))); [apply Hc|].
  destruct (_ || _); [|apply Hc].
  destruct (negb (bool_decide (externalAuthAddr d = _))); [|apply Hc].
  destruct (dialExternalAuthEntity _ d) as [ev r] eqn:Ee.
  assert (Hb : balanced (ev, r)).
  { rewrite <- Ee. unfold dialExternalAuthEntity. case_bool_decide; [done | apply IH]. }
  destruct r as [[ext c]|e]; [|done].
  pose proof (connect_balanced address t (AuthJWT (authEntity d) (creds d) (externalAuthMaterial d)
    (externalAuthToEntity d)) d (Some ext)) as Hx.
  destruct (connect _ _ _ _ _ _ _ _ (Some ext)) as [ev' r']. unfold balanced in Hb. simpl in *.
  rewrite opens_app, shuts_app, Hb, <- app_assoc, (Permutation_app_comm (owned_by ext)), Hx.
  by rewrite app_assoc.
Qed.

#[local] Arguments dialDirectGRPC : simpl never.

Lemma webrtc_attempt_balanced perr address orig d :
  balanced_attempt (webrtc_attempt hash webrtcDial cacheHit perr address orig d).
Proof.
  unfold webrtc_attempt. destruct (webrtc_options address d) as [d1|e]; [|done].
  rewrite no_cache. destruct (webrtcDial _ _ _) as [e|]; [|by unfold balanced_attempt].
  destruct (negb _); [done|]. by destruct perr.
Qed.

Lemma collect_balanced rs co :
  opens (collect rs co).1 = [] /\
  shuts (collect rs co).1 ++ from_option owned_by [] (co_conn (collect rs co).2) ≡ₚ
  from_option owned_by [] (co_conn co) ++ flat_map owned_attempt rs.
Proof.
  revert co. induction rs as [|r rs IH]; intros co; simpl; [by rewrite app_nil_r|].
  destruct (collect_step r co) as [ev co1] eqn:E. specialize (IH co1).
  destruct (collect rs co1) as [ev' co2]. simpl in *. destruct IH as [IH1 IH2].
  rewrite opens_app, shuts_app, IH1, <- app_assoc, IH2. unfold collect_step in E.
  destruct r as [[c|] b [e|] s]; simpl in E; simplify_eq; unfold owned_attempt; simpl;
    try (by destruct s; simpl).
  destruct (co_conn co) as [old|]; simpl; [|done]. rewrite opens_shut, shuts_shut. split; [done|].
  solve_Permutation.
Qed.

Lemma attempts_balanced (attempts : list (list dialEvent * dialResult)) :
  Forall balanced_attempt attempts ->
  opens (concat attempts.*1) ≡ₚ shuts (concat attempts.*1) ++ flat_map owned_attempt attempts.*2.
Proof.
  induction 1 as [|[ev r] l Hb Hl IH]; [done|]. unfold balanced_attempt in Hb. simpl in *.
  rewrite opens_app, shuts_app, Hb, IH. solve_Permutation.
Qed.

Lemma dial_with_balanced mdns ctxErr perr first address orig d tryLocal :
  (forall d', balanced_attempt (mdns d')) ->
  balanced (dial_with hash probe grpcDial webrtcDial cacheHit closeErr mdns ctxErr perr first
              address orig d tryLocal).
Proof.
  intros Hm. unfold dial_with. destruct ctxErr; [done|].
  destruct (classify address d) as [d1 j].
  set (attempts := if first then _ else _).
  assert (Hall : Forall balanced_attempt attempts).
  { unfold attempts. destruct (_ && _ && j), (negb (Disable _)), first; simpl;
      repeat constructor; auto using webrtc_attempt_balanced. }
  clearbody attempts. pose proof (attempts_balanced attempts Hall) as Ha.
  pose proof (collect_balanced attempts.*2 (mkCollected None false None None)) as [Hc1 Hc2].
  destruct (collect _ _) as [ev co]. simpl in *.
  assert (Hev : opens (concat attempts.*1 ++ ev) ≡ₚ
                shuts (concat attempts.*1 ++ ev) ++ from_option owned_by [] (co_conn co)).
  { by rewrite opens_app, shuts_app, Hc1, app_nil_r, Ha, <- Hc2, app_assoc. }
  destruct (co_conn co) as [c|], (co_fatal co) as [e|]; try done.
  destruct (disableDirect d1); [done|]. simpl in Hev. rewrite app_nil_r in Hev.
  pose proof (dialDirectGRPC_balanced direct_fuel address d1) as Hd.
  destruct (dialDirectGRPC _ _ _ _ _ _ _ _) as [ev' r]. unfold balanced in *. simpl in Hd.
  destruct r as [r|e]; simpl in *; by rewrite opens_app, shuts_app, Hev, Hd, app_assoc.
Qed.

Lemma dial_balanced resolve ctxErr mctx iperr perr first address orig d tryLocal :
  balanced (dial hash probe grpcDial webrtcDial cacheHit closeErr resolve ctxErr mctx iperr perr first
              address orig d tryLocal).
Proof.
  apply dial_with_balanced. intros d'.
  assert (Hb : balanced (dialMulticastDNS hash probe grpcDial webrtcDial cacheHit closeErr resolve
                           mctx iperr address d')).
  { unfold dialMulticastDNS. destruct (lookupMDNSCandidate _ _ _) as [entry|e]; [|done].
    destruct (me_AddrIPv4 entry); [done|]. destruct (negb _); [done|].
    by apply dial_with_balanced. }
  by destruct (dialMulticastDNS _ _ _ _ _ _ _ _ _ _ _) as [ev [[c b]|e]].
Qed.
End Balance.

(** ** Security of the direct dial *)

(** When the options allow a plaintext connection to a server. *)
Definition plaintext_allowed (probe : string -> probeResult) (address : string) (d : dialOptions) : Prop :=
  insecure d = true \/
  ((allowInsecureDowngrade d = true \/ allowInsecureWithCredsDowngrade d = true) /\
   probe address = ProbeNotTLS /\
   (allowInsecureWithCredsDowngrade d = true \/ cr_Type (creds d) = EmptyString \/
    externalAuthAddr d <> EmptyString)).

Lemma choose_transport_plaintext probe address d :
  choose_transport probe address d = inl Plaintext <-> plaintext_allowed probe address d.
Proof.
  unfold choose_transport, plaintext_allowed.
  destruct (insecure d); [split; auto|].
  destruct (allowInsecureDowngrade d), (allowInsecureWithCredsDowngrade d), (probe address); simpl;
    repeat case_bool_decide; simpl; intuition congruence.
Qed.

Lemma connect_opens `{Multierr goerror} hash grpcDial cacheHit closeErr address t a d ext address' a' :
  EvOpen (GrpcConn address' Plaintext a') ∈ (connect hash grpcDial cacheHit closeErr address t a d ext).1 ->
  address' = address /\ t = Plaintext /\ a' = a.
Proof.
  assert (Hs : forall c, EvOpen (GrpcConn address' Plaintext a') ∉ shut c).
  { intros c. unfold shut. rewrite list_elem_of_fmap. by intros (? & ? & _). }
  unfold connect. destruct (cacheHit _ _ _); simpl.
  { by intros [= ]%list_elem_of_singleton. }
  destruct (grpcDial _ _ _), ext; simpl; try (by intros ?%Hs); try (by intros ?%elem_of_nil);
    intros [= -> <- ->]%list_elem_of_singleton; done.
Qed.

(** ** Properties *)


Section W_dial_leaks_nothing.
Import SimpleErrors.
End W_dial_leaks_nothing.

(** C17: A direct dial opens a plaintext connection only when the options say so or
    when the server does not speak TLS and a downgrade is allowed, and it sends
    local credentials over plaintext only when the options say so or allow the
    downgrade with credentials. *)
Theorem plaintext_only_when_allowed `{Multierr goerror} (hash : string -> string)
    (probe : string -> probeResult) (grpcDial : string -> transport -> rpcAuth -> option goerror)
    (cacheHit : string -> string -> string -> bool) (closeErr : netConn -> option goerror)
    (address address' : string) (d : dialOptions) (a : rpcAuth)
    (Hopen : EvOpen (GrpcConn address' Plaintext a)
             ∈ (dialDirectGRPC hash probe grpcDial cacheHit closeErr direct_fuel address d).1) :
  (address' = address /\ plaintext_allowed probe address d /\
   forall e c m, a = AuthJWT e c m EmptyString -> cr_Type c <> EmptyString ->
     externalAuthAddr d = EmptyString -> insecure d = true \/ allowInsecureWithCredsDowngrade d = true) \/
  (address' = externalAuthAddr d /\ a = AuthNone /\
   plaintext_allowed probe (externalAuthAddr d) (external_options d)).
Proof.
  unfold direct_fuel in Hopen. cbn [dialDirectGRPC] in Hopen.
  destruct (choose_transport probe address d) as [t|e] eqn:Ht; [|by apply elem_of_nil in Hopen].
  assert (Hmain : forall a' ext, EvOpen (GrpcConn address' Plaintext a) ∈
    (connect hash grpcDial cacheHit closeErr address t a' d ext).1 ->
    (a' = AuthJWT (authEntity d) (creds d) (externalAuthMaterial d) EmptyString \/
     forall e c m, a' <> AuthJWT e c m EmptyString) \/ externalAuthAddr d <> EmptyString ->
    address' = address /\ plaintext_allowed probe address d /\
    forall e c m, a = AuthJWT e c m EmptyString -> cr_Type c <> EmptyString ->
      externalAuthAddr d = EmptyString -> insecure d = true \/ allowInsecureWithCredsDowngrade d = true).
  { intros a' ext (-> & -> & ->)%connect_opens Hj. apply choose_transport_plaintext in Ht.
    split_and!; [done | done|]. intros e c m Ha Hc He.
    destruct Ht as [?|(_ & _ & [?|[?|?]])]; try done; auto.
    destruct Hj as [[?|Hj]|?]; simplify_eq; try done. by destruct (Hj e c m). }
  destruct (negb (bool_decide (authMaterial d = _))) eqn:Hm.
  { left. eapply Hmain; [exact Hopen|]. left. right. done. }
  breflect. destruct (_ || _); [|left; eapply Hmain; [exact Hopen|]; left; right; done].
  destruct (negb (bool_decide (externalAuthAddr d = _))) eqn:He;
    [|left; eapply Hmain; [exact Hopen|]; left; left; done].
  breflect. unfold dialExternalAuthEntity in Hopen at 1. case_bool_decide; [by apply elem_of_nil in Hopen|].
  destruct (choose_transport probe (externalAuthAddr d) (external_options d)) as [t'|] eqn:Ht';
    [|by apply elem_of_nil in Hopen].
  replace (bool_decide (authMaterial (external_options d) = _)) with true in Hopen
    by (symmetry; by apply bool_decide_eq_true). simpl in Hopen.
  destruct (connect hash grpcDial cacheHit closeErr (externalAuthAddr d) t' AuthNone _ None)
    as [ev [[ext b]|e]] eqn:Ec.
  - destruct (connect _ _ _ _ address _ _ _ _) as [ev' r] eqn:Ec'. simpl in Hopen.
    apply elem_of_app in Hopen as [Hin|Hin].
    + right. assert (Hin' := Hin). replace ev with (ev, inl (ext, b) : netConn * bool + goerror).1 in Hin' by done.
      rewrite <- Ec in Hin'. apply connect_opens in Hin' as (-> & -> & ->).
      by apply choose_transport_plaintext in Ht'.
    + left. eapply Hmain; [rewrite Ec'; exact Hin|]. by right.
  - right. simpl in Hopen. replace ev with (ev, inr e : netConn * bool + goerror).1 in Hopen by done.
    rewrite <- Ec in Hopen. apply connect_opens in Hopen as (-> & -> & ->).
    by apply choose_transport_plaintext in Ht'.
Qed.

Section W_plaintext_only_when_allowed.
Import SimpleErrors.
Lemma plaintext_only_when_allowed_witness :
  let d := WithInsecure (WithCredentials (mkCreds "api-key" "secret") zero_options) in
  ("host"%string = "host"%string /\ plaintext_allowed (fun _ => ProbeTLS) "host" d /\
   forall e c m, AuthJWT EmptyString (mkCreds "api-key" "secret") EmptyString EmptyString
                 = AuthJWT e c m EmptyString ->
     cr_Type c <> EmptyString -> externalAuthAddr d = EmptyString ->
     insecure d = true \/ allowInsecureWithCredsDowngrade d = true) \/
  ("host"%string = externalAuthAddr d /\
   AuthJWT EmptyString (mkCreds "api-key" "secret") EmptyString EmptyString = AuthNone /\
   plaintext_allowed (fun _ => ProbeTLS) (externalAuthAddr d) (external_options d)).
Proof.
  intros d. apply (plaintext_only_when_allowed (fun s => s) (fun _ => ProbeTLS) (fun _ _ _ => None)
    (fun _ _ _ => false) (fun _ => None) "host" "host" d).
  vm_compute. left.
Defined.
End W_plaintext_only_when_allowed.

(** The downgrade that is for connections without credentials is taken by a
    connection with static authentication material: when the server does not
    speak TLS, the material is sent in plaintext, although the downgrade with
    credentials was not allowed. *)
Theorem static_material_downgraded `{Multierr goerror} (hash : string -> string)
    (probe : string -> probeResult) (grpcDial : string -> transport -> rpcAuth -> option goerror)
    (cacheHit : string -> string -> string -> bool) (closeErr : netConn -> option goerror)
    (address m : string) (Hm : m <> EmptyString) (Hprobe : probe address = ProbeNotTLS)
    (Hcache : forall proto target key, cacheHit proto target key = false)
    (Hdial : grpcDial address Plaintext (AuthStatic m) = None) :
  let d := WithStaticAuthenticationMaterial m (WithAllowInsecureDowngrade zero_options) in
  allowInsecureWithCredsDowngrade d = false /\ insecure d = false /\
  dialDirectGRPC hash probe grpcDial cacheHit closeErr direct_fuel address d
  = ([EvOpen (GrpcConn address Plaintext (AuthStatic m))],
     inl (GrpcConn address Plaintext (AuthStatic m), false)).
Proof.
  intros d. split_and!; [done | done|]. unfold direct_fuel. cbn [dialDirectGRPC].
  assert (Hc : choose_transport probe address d = inl Plaintext).
  { apply choose_transport_plaintext. right. split_and!; [by left | done | right; by left]. }
  rewrite Hc. replace (bool_decide (authMaterial d = EmptyString)) with false
    by (symmetry; by apply bool_decide_eq_false). simpl.
  unfold connect. by rewrite Hcache, Hdial.
Qed.

Section W_static_material_downgraded.
Import SimpleErrors.
Lemma static_material_downgraded_witness :
  let d := WithStaticAuthenticationMaterial "token" (WithAllowInsecureDowngrade zero_options) in
  allowInsecureWithCredsDowngrade d = false /\ insecure d = false /\
  dialDirectGRPC (fun s => s) (fun _ => ProbeNotTLS) (fun _ _ _ => None) (fun _ _ _ => false)
    (fun _ => None) direct_fuel "host" d
  = ([EvOpen (GrpcConn "host" Plaintext (AuthStatic "token"))],
     inl (GrpcConn "host" Plaintext (AuthStatic "token"), false)).
Proof.
  by apply (static_material_downgraded (fun s => s) (fun _ => ProbeNotTLS) (fun _ _ _ => None)
    (fun _ _ _ => false) (fun _ => None) "host" "token").
Defined.
End W_static_material_downgraded.

(** When the mDNS and the WebRTC attempt both connect, [dial] closes the
    connection that was there first and returns the later one. *)
Theorem dial_keeps_later_connection `{Multierr goerror} (hash : string -> string)
    (probe : string -> probeResult) (grpcDial : string -> transport -> rpcAuth -> option goerror)
    (webrtcDial : string -> string -> dialOptions -> option goerror)
    (cacheHit : string -> string -> string -> bool) (closeErr : netConn -> option goerror)
    (mdns : dialOptions -> list dialEvent * dialResult) (parallelErr : option goerror) (mdnsFirst : bool)
    (address : string) (d d1 : dialOptions) (c1 c2 : netConn) (b1 b2 : bool) (ev1 ev2 : list dialEvent)
    (Hclass : classify address d = (d1, true)) (Hm : mdnsDisable d1 = false)
    (Hw : Disable (webrtcOpts d1) = false)
    (H1 : mdns d1 = (ev1, mkDialResult (Some c1) b1 None false))
    (H2 : webrtc_attempt hash webrtcDial cacheHit parallelErr address address d1
          = (ev2, mkDialResult (Some c2) b2 None false)) :
  dial_with hash probe grpcDial webrtcDial cacheHit closeErr mdns None parallelErr mdnsFirst
    address address d true
  = if mdnsFirst then ((ev1 ++ ev2) ++ shut c1, inl (c2, b2))
    else ((ev2 ++ ev1) ++ shut c2, inl (c1, b1)).
Proof.
  unfold dial_with. rewrite Hclass, Hm, Hw. simpl. rewrite H1, H2.
  destruct mdnsFirst; simpl; by rewrite !app_nil_r.
Qed.

Section W_dial_keeps_later_connection.
Import SimpleErrors.
Lemma dial_keeps_later_connection_witness :
  let c1 := GrpcConn "10.0.0.7:8080" (TLS "robot") AuthNone in
  let c2 := WebRTCConn "robot:443" "robot" in
  dial_with (fun s => s) (fun _ => ProbeTLS) (fun _ _ _ => None) (fun _ _ _ => None)
    (fun _ _ _ => false) (fun _ => None)
    (fun _ => ([EvOpen c1], mkDialResult (Some c1) false None false)) None None true
    "robot" "robot" zero_options true
  = ([EvOpen c1; EvOpen c2; EvShut c1], inl (c2, false)).
Proof.
  intros c1 c2. exact (dial_keeps_later_connection (fun s => s) (fun _ => ProbeTLS) (fun _ _ _ => None)
    (fun _ _ _ => None) (fun _ _ _ => false) (fun _ => None)
    (fun _ => ([EvOpen c1], mkDialResult (Some c1) false None false)) None true "robot"
    zero_options zero_options c1 c2 false false [EvOpen c1] [EvOpen c2]
    eq_refl eq_refl eq_refl eq_refl eq_refl).
Defined.
End W_dial_keeps_later_connection.

Lemma write_nonempty_app acc s : write_nonempty acc s = (acc +:+ s)%string.
Proof.
  unfold write_nonempty. case_bool_decide as Hs; [|done]. subst. by rewrite str_app_nil_r.
Qed.

(** The key under which a connection is cached does not separate its parts: a
    connection of one entity is reused for another entity when the end of the
    one's name is the beginning of the other's credentials type. *)
Theorem cache_key_ambiguous (hash : string -> string) (d : dialOptions) (entity x type payload : string) :
  cacheKey hash (WithEntityCredentials (entity +:+ x) (mkCreds type payload) d)
  = cacheKey hash (WithEntityCredentials entity (mkCreds (x +:+ type) payload) d).
Proof.
  unfold cacheKey. f_equal. cbn [foldl]. rewrite !write_nonempty_app. simpl.
  by rewrite !str_app_assoc.
Qed.

(** A direct dial that is answered by the context's dialer from its cache has
    dialed the external authenticator before, and nothing will close that
    connection: it is not part of the connection that is returned. *)
Theorem cached_hit_leaks_authenticator `{Multierr goerror} (hash : string -> string)
    (closeErr : netConn -> option goerror) :
  let d := WithExternalAuth "auth" "app" (WithCredentials (mkCreds "api-key" "secret") zero_options) in
  let cacheHit proto target key := bool_decide (proto = "grpc"%string /\ target = "host"%string) in
  let ext := GrpcConn "auth" (TLS EmptyString) AuthNone in
  let shared := SharedConn "grpc" "host" (cacheKey hash d) in
  dialDirectGRPC hash (fun _ => ProbeTLS) (fun _ _ _ => None) cacheHit closeErr direct_fuel "host" d
  = ([EvOpen ext; EvOpen shared], inl (shared, true)) /\ ext ∉ owned_by shared.
Proof. simpl. split; [reflexivity|]. by intros ?%list_elem_of_singleton. Qed.
