(* ===== verification/DialLayers.v ===== *)
(** * The layers of a dial: [rpc/dialer.go], [rpc/wrtc_client.go]

    What lies between the callers of a dial and the cached dialer of [Dialer]:
    [dialFunc] with the dialer of a context, [DialDirect], [DialWebRTC], the
    wrapper with a close function; and the keys under which connections are
    shared. *)

From S2P Require Import Prelude GoError GoStrings BaseStream Dialer Dial.
From Stdlib Require Import Ascii.
Local Open Scope Z_scope.

Section Layers.
Context `{Multierr goerror} `{GrpcStatus}.

(** A connection that a caller is given: a handle of the dialer, or one of its
    own, with what its Close returns. *)
Inductive clientConn := ConnHandle (h : nat) | ConnOwn (closeErr : option goerror).

(** [wrapClientConnWithCloseFunc] and the [Close] of what it makes: the close
    function runs after the connection was closed, whatever that returned. *)
Definition wrapClientConnWithCloseFunc (closeErr : option goerror) (closeFunc : option (option goerror)) : dialedConn := mkConn closeErr closeFunc.
Definition clientConnWithCloseFunc_Close (cn : dialedConn) : option goerror :=
  match cn_closeFunc cn with None => cn_closeErr cn | Some e => combine2 (cn_closeErr cn) e end.

(** [dialFunc] with the dialer of the context, if it carries one; [f] is the
    result of the function, should it be called. *)
Definition dialFunc (ctxDialer : option dialer) (proto target keyExtra : string) (f : option goerror + goerror)
    : outcome (option dialer * (clientConn * bool + goerror)) :=
  match ctxDialer with
  | Some cd =>
      match DialFunc proto target keyExtra (match f with inl closeErr => inl (wrapClientConnWithCloseFunc closeErr None) | inr e => inr e end) cd with
      | Returns (cd', inl (h, cached)) => Returns (Some cd', inl (ConnHandle h, cached))
      | Returns (cd', inr e) => Returns (Some cd', inr e)
      | Blocks (cd', _) => Blocks (Some cd', inr (ENew "blocked"))
      | Panics => Panics
      end
  | None => Returns (None, match f with inl closeErr => inl (ConnOwn closeErr, false) | inr e => inr e end)
  end.

(** [cachedDialer.DialDirect]; [grpcDial] is the result of [grpc.DialContext]. *)
Definition DialDirect (target keyExtra : string) (onClose : option (option goerror)) (grpcDial : option goerror + goerror) (cd : dialer)
    : outcome (dialer * (nat * bool + goerror)) :=
  DialFunc "grpc" target keyExtra (match grpcDial with inl closeErr => inl (wrapClientConnWithCloseFunc closeErr onClose) | inr e => inr e end) cd.
End Layers.

(** [DialWebRTC]: the options it dials with. *)
Definition DialWebRTC_options (signalingServer : string) (opts : list (dialOptions -> dialOptions)) : dialOptions :=
  let d := foldl (fun d f => f d) zero_options opts in
  do_set_webrtcOpts (wo_set_SignalingServerAddress signalingServer (wo_set_Disable false (webrtcOpts d))) d.

(** ** Keys *)

Lemma str_last_sep c (s s' t t' : string) : str_mem c t = false -> str_mem c t' = false ->
  (s +:+ String c t)%string = (s' +:+ String c t')%string -> s = s' /\ t = t'.
Proof.
  intros Ht Ht'. revert s'. assert (Hno : forall u v w : string, str_mem c w = false -> w <> (u +:+ String c v)%string).
  { intros u v w Hw ->. rewrite str_mem_app in Hw. cbn in Hw. by rewrite Ascii.eqb_refl, orb_true_r in Hw. }
  induction s as [|a s IH]; intros [|a' s']; rewrite ?str_app_cons; cbn [String.append].
  - by intros [= ->].
  - intros [= _ He]. by destruct (Hno s' t' t).
  - intros [= _ He]. by destruct (Hno s t t').
  - intros [= -> He]. by destruct (IH s' He) as [-> ->].
Qed.

(** Connections are kept apart by protocol, target and the hash of the options:
    a protocol and a hash without a colon can be read off a key, whatever the
    target contains. *)
Lemma conn_key_inj proto target keyExtra proto' target' keyExtra' :
  str_mem ":" proto = false -> str_mem ":" proto' = false -> str_mem ":" keyExtra = false -> str_mem ":" keyExtra' = false ->
  conn_key proto target keyExtra = conn_key proto' target' keyExtra' -> proto = proto' /\ target = target' /\ keyExtra = keyExtra'.
Proof.
  intros Hp Hp' Hk Hk' He. unfold conn_key in He. apply (f_equal (split2 ":")) in He.
  change (":" +:+ ?s)%string with (String ":" s) in He. rewrite !split2_app in He by done. injection He as -> He.
  change (target +:+ (String ":" keyExtra) = target' +:+ (String ":" keyExtra'))%string in He.
  by apply str_last_sep in He as [-> ->].
Qed.

(** ** Who shares a connection *)

(** The keys and connections of the wrappers, with the connections that were
    dialed; nothing else of the dialer tells where a connection came from. *)
Definition origins (cd : dialer) : list (string * nat) * list dialedConn := ((fun wr => (w_key wr, w_actual wr)) <$> cd_wrappers cd, cd_dialed cd).

Section Origins.
Context `{Multierr goerror} `{GrpcStatus}.

Lemma origins_set_ref cd w wr r : cd_wrappers cd !! w = Some wr ->
  ((fun wr => (w_key wr, w_actual wr)) <$> <[w := w_set_ref r wr]> (cd_wrappers cd)) = (fun wr => (w_key wr, w_actual wr)) <$> cd_wrappers cd.
Proof.
  intros Hw. rewrite list_fmap_insert. apply list_insert_id. by rewrite list_lookup_fmap, Hw.
Qed.

Lemma origins_ref w cd cd' h : conn_Ref w cd = Returns (cd', h) -> origins cd' = origins cd.
Proof. intros (wr & Hw & _ & _ & ->)%conn_Ref_Returns. unfold origins. cbn. by rewrite origins_set_ref. Qed.

Lemma origins_closeConn c cd : origins (closeConn c cd).1 = origins cd.
Proof. unfold closeConn. by destruct (cd_dialed cd !! c). Qed.

Lemma origins_close h cd cd' e : reffedConn_Close h cd = Returns (cd', e) -> origins cd' = origins cd.
Proof.
  unfold reffedConn_Close. destruct (close_deref h cd) as [[cd1 u]| |] eqn:Hd; [|done|done]. intros He.
  destruct (cd_handles cd !! h) as [[w once]|] eqn:Hl.
  2: { unfold close_deref in Hd. by rewrite Hl in Hd. }
  assert (H1 : origins cd1 = origins cd).
  { destruct (close_deref_spec _ _ _ _ _ _ Hl Hd) as [(-> & -> & ->)|(-> & wr & r & Hw & Hp & Hr & ->)]; [done|].
    unfold origins. cbn. by rewrite origins_set_ref. }
  rewrite <-H1. destruct u as [w'|]; [|by injection He as <- <-]. destruct (close_actual w' cd1) as [cd2 e2] eqn:Hc. injection He as <- <-.
  transitivity (origins cd2).
  - unfold on_unref. by destruct (cd_wrappers cd2 !! w').
  - unfold close_actual in Hc. destruct (cd_wrappers cd1 !! w') as [wr|]; [|by injection Hc as <- <-].
    rewrite <-(origins_closeConn (w_actual wr) cd1). destruct (closeConn (w_actual wr) cd1). by injection Hc as <- <-.
Qed.

(** A dial either changes nothing about where connections come from, or adds the
    connection that it dialed under its key; where another has connected in the
    meantime its connection has no wrapper. *)
Lemma origins_dial proto target keyExtra dialNew cd cd' r : DialFunc proto target keyExtra dialNew cd = Returns (cd', r) ->
  origins cd' = origins cd \/
  exists cn, dialNew = inl cn /\ origins cd' = ((origins cd).1 ++ [(conn_key proto target keyExtra, length (cd_dialed cd))], cd_dialed cd ++ [cn]).
Proof.
  unfold DialFunc. destruct (cd_conns cd !! conn_key proto target keyExtra) as [w|] eqn:Hk.
  - destruct (conn_Ref w cd) as [[cd1 h]| |] eqn:Hr; [|done|done]. intros [= <- <-]. left. by eapply origins_ref.
  - destruct dialNew as [cn|e]; [|intros [= <- <-]; by left]. unfold add_conn, dial_insert. cbn [cd_conns cd_set_dialed]. rewrite Hk.
    destruct (conn_Ref _ _) as [[cd1 h]| |] eqn:Hr; [|done|done]. intros [= <- <-]. right. exists cn. split; [done|].
    apply origins_ref in Hr. rewrite Hr. unfold origins. cbn. by rewrite fmap_app.
Qed.

(** Every wrapper's connection was dialed for its key. *)
Definition dialed_for (ops : list dialOp) (cd : dialer) : Prop :=
  forall w wr, cd_wrappers cd !! w = Some wr -> exists proto target keyExtra cn,
    DODial proto target keyExtra (inl cn) ∈ ops /\ w_key wr = conn_key proto target keyExtra /\ cd_dialed cd !! w_actual wr = Some cn.

Lemma dialed_for_origins ops cd cd' : origins cd' = origins cd -> dialed_for ops cd -> dialed_for ops cd'.
Proof.
  intros Ho Hf w wr Hl. assert (Hw := f_equal fst Ho). assert (Hd := f_equal snd Ho). cbn in Hw, Hd. assert (Hl' : (fun wr => (w_key wr, w_actual wr)) <$> cd_wrappers cd !! w = Some (w_key wr, w_actual wr)).
  { rewrite <-list_lookup_fmap, <-Hw, list_lookup_fmap, Hl. done. }
  destruct (cd_wrappers cd !! w) as [wr'|] eqn:Hl2; [|done]. injection Hl' as Hk Ha.
  destruct (Hf _ _ Hl2) as (p & t & k & cn & Hin & Hkey & Hcn). exists p, t, k, cn. by rewrite Hd, <-Hk, <-Ha.
Qed.

Lemma run_dials_origin ops : dialed_for ops (run_ops dial_op ops NewCachedDialer).
Proof.
  induction ops as [|o ops IH] using rev_ind.
  { intros w wr. cbn. by rewrite lookup_nil. }
  rewrite run_ops_snoc. revert IH. generalize (run_ops dial_op ops NewCachedDialer) as cd. intros cd IH.
  assert (Hgrow : dialed_for (ops ++ [o]) cd).
  { intros w wr Hl. destruct (IH _ _ Hl) as (p & t & k & cn & Hin & ?). exists p, t, k, cn. split; [|done]. apply elem_of_app. by left. }
  destruct o as [proto target keyExtra dialNew|h]; cbn [dial_op].
  - destruct (DialFunc proto target keyExtra dialNew cd) as [[cd' r]| |] eqn:Hd; [|done|done].
    destruct (origins_dial _ _ _ _ _ _ _ Hd) as [Ho|(cn & -> & Ho)]; [by eapply dialed_for_origins|].
    intros w wr Hl. assert (Hl' : (origins cd').1 !! w = Some (w_key wr, w_actual wr)) by (cbn; by rewrite list_lookup_fmap, Hl).
    assert (Hd' : cd_dialed cd' = cd_dialed cd ++ [cn]) by exact (f_equal snd Ho). rewrite Ho in Hl'. cbn [fst] in Hl'.
    apply lookup_app_Some in Hl' as [Hl'|[_ Hl']].
    + cbn in Hl'. rewrite list_lookup_fmap in Hl'. destruct (cd_wrappers cd !! w) as [wr'|] eqn:Hw'; [|done]. injection Hl' as Hk Ha.
      destruct (Hgrow _ _ Hw') as (p & t & k & cn' & Hin & Hkey & Hcn). exists p, t, k, cn'. rewrite <-Hk, <-Ha, Hd'. split_and!; [done..|].
      by apply lookup_app_l_Some.
    + apply list_lookup_singleton_Some in Hl' as [_ [= <- <-]]. exists proto, target, keyExtra, cn.
      split_and!; [apply elem_of_app; right; by left|done|]. by rewrite Hd', lookup_app_r, Nat.sub_diag by done.
  - destruct (reffedConn_Close h cd) as [[cd' e]| |] eqn:Hc; [|done|done]. eapply dialed_for_origins; [by eapply origins_close|done].
Qed.
End Origins.

(** ** Properties *)

(** The names of the protocols and the hashes of options have no colon. *)
Definition plain_dial (o : dialOp) : Prop :=
  match o with DODial proto _ keyExtra _ => str_mem ":" proto = false /\ str_mem ":" keyExtra = false | DOClose _ => True end.

Section Properties.
Context `{Multierr goerror} `{GrpcStatus}.

(** A cached connection is never somebody else's: after any dials and closings,
    a dial with the dialer of a context that is told its connection was cached
    has one that was dialed for the same protocol, the same target and the same
    hash of options. *)
Theorem cached_connection_was_dialed_for_it ops proto target keyExtra f cd' h :
  Forall plain_dial ops -> str_mem ":" proto = false -> str_mem ":" keyExtra = false ->
  dialFunc (Some (run_ops dial_op ops NewCachedDialer)) proto target keyExtra f = Returns (Some cd', inl (ConnHandle h, true)) ->
  exists cn w wr, DODial proto target keyExtra (inl cn) ∈ ops /\
    cd_handles cd' !! h = Some (mkReffed w false) /\ cd_wrappers cd' !! w = Some wr /\ cd_dialed cd' !! w_actual wr = Some cn.
Proof.
  intros Hops Hp Hk. set (cd := run_ops dial_op ops NewCachedDialer). assert (Hf : dialed_for ops cd) by apply run_dials_origin.
  unfold dialFunc. set (dialNew := match f with inl _ => _ | inr _ => _ end).
  destruct (DialFunc proto target keyExtra dialNew cd) as [[cd1 [[h1 cached]|e]]|[]|] eqn:Hd; try done.
  intros [= -> -> ->]. unfold DialFunc in Hd. destruct (cd_conns cd !! conn_key proto target keyExtra) as [w|] eqn:Hkey.
  - destruct (conn_Ref w cd) as [[cd2 h2]| |] eqn:Hr; [|done|done]. injection Hd as -> ->.
    assert (Hs : seq_inv cd) by (apply run_ops_invariant; [intros; by apply dial_op_inv|apply seq_init]).
    destruct (proj1 (sq_map _ Hs _ _) Hkey) as (wr & Hw & Hwk & _).
    pose proof (dialed_for_origins _ _ _ (origins_ref _ _ _ _ Hr) Hf) as Hf'.
    apply conn_Ref_Returns in Hr as (wr' & Hw' & _ & -> & ->). assert (wr' = wr) as -> by congruence.
    destruct (Hf _ _ Hw) as (p & t & k & cn & Hin & Hkk & Hcn).
    rewrite Forall_forall in Hops. destruct (Hops _ Hin) as [Hp' Hk'].
    rewrite Hwk in Hkk. apply conn_key_inj in Hkk as (-> & -> & ->); [|congruence..]. exists cn, w, (w_set_ref (mkRef (rcv_count (w_ref wr) + 1)) wr).
    split_and!; [done| | |done]; cbn.
    + by rewrite lookup_app_r, Nat.sub_diag by done.
    + apply list_lookup_insert_eq. by eapply lookup_lt_Some.
  - destruct dialNew as [cn|e]; [|done]. unfold add_conn, dial_insert in Hd. cbn [cd_conns cd_set_dialed] in Hd. rewrite Hkey in Hd.
    destruct (conn_Ref _ _) as [[]| |]; done.
Qed.

(** Without a dialer every dial is a new one, and its connection the caller's. *)
Lemma dial_without_dialer proto target keyExtra f :
  dialFunc None proto target keyExtra f = Returns (None, match f with inl e => inl (ConnOwn e, false) | inr e => inr e end).
Proof. reflexivity. Qed.

(** The close function of a connection that was dialed directly runs when its
    only user closes it, also when closing it failed; both errors are reported,
    unless they are only that the call was canceled. *)
Lemma direct_dial_closes target keyExtra onClose closeErr cd :
  DialDirect target keyExtra onClose (inl closeErr) NewCachedDialer = Returns (cd, inl (0%nat, false)) ->
  exists cd', reffedConn_Close 0 cd = Returns (cd', report_close (clientConnWithCloseFunc_Close (wrapClientConnWithCloseFunc closeErr onClose))) /\
    cd_closes cd' = [0%nat] /\ cd_conns cd' = ∅.
Proof.
  unfold DialDirect, DialFunc. cbn. rewrite lookup_empty. cbn. unfold dial_insert. cbn. rewrite lookup_empty. cbn. intros [= <-].
  unfold reffedConn_Close. cbn. eexists. split_and!; [done|done|]. cbn. by rewrite delete_insert_id.
Qed.
End Properties.

(** [DialWebRTC] always tries WebRTC, with its signaling server, whatever the
    options said. *)
Lemma DialWebRTC_forces_signaling signalingServer opts :
  let d := DialWebRTC_options signalingServer opts in
  Disable (webrtcOpts d) = false /\ SignalingServerAddress (webrtcOpts d) = signalingServer /\
  creds d = creds (foldl (fun d f => f d) zero_options opts).
Proof. done. Qed.
