(* ===== verification/ManagedProcess.v ===== *)
(** * Managed processes: [pexec/managed_process.go] and
      [pexec/managed_process_unix.go]

    A managed process starts an operating system process, watches it in a
    goroutine that restarts it when it exits unexpectedly, and is stopped by
    signals of increasing force. The user's calls, the watching goroutines and
    the operating system interleave: [mstep] is the step relation, with a
    program counter per goroutine and every section under the mutex as one
    step.

    What the operating system answers (whether a command starts, how a process
    ends, whether a signal could be sent) is chosen by the step. *)

From S2P Require Import Prelude GoError BaseStream.

(** ** State *)

(** A watching goroutine, in [manage]. The number is the run it waits for. *)
Inductive managepc :=
  | MBegin                         (* not yet at p.cmd.Wait() *)
  | MWait (run : nat)
  | MExited                        (* Wait returned and lastWaitErr is set *)
  | MTicker                        (* waits before the restart *)
  | MRestart.                      (* about to call Start *)

(** The goroutine that stops the process, in [Stop]. *)
Inductive stoppc :=
  | SNone
  | SSignal                        (* about to signal the process *)
  | SWait1                         (* first wait of kill *)
  | SWait2                         (* second wait of kill *)
  | SManaging (forceKilled : bool) (* waits for managingCh *)
  | SReturned (err : option goerror).

Record managedProcess := mkMP {
  mp_oneShot : bool;
  mp_stopped : bool;
  mp_killed : bool;                (* killCh is closed *)
  mp_managingClosed : bool;        (* managingCh is closed *)
  mp_cmd : option nat;             (* the run of p.cmd *)
  mp_lastWaitErr : option goerror;
  mp_exitCode : Z;                 (* of p.cmd.ProcessState; 0 is success *)
  (* outside of the struct *)
  mp_runs : nat;                   (* processes started so far *)
  mp_alive : list nat;             (* runs that have not exited *)
  mp_managers : list managepc;
  mp_stop : stoppc;
  mp_userStarts : nat;             (* how often Start may still be called *)
  mp_panic : bool;                 (* managingCh was closed twice *)
}.

Definition mp_set_managers v p := mkMP (mp_oneShot p) (mp_stopped p) (mp_killed p)
  (mp_managingClosed p) (mp_cmd p) (mp_lastWaitErr p) (mp_exitCode p) (mp_runs p) (mp_alive p) v
  (mp_stop p) (mp_userStarts p) (mp_panic p).
Definition mp_set_stop v p := mkMP (mp_oneShot p) (mp_stopped p) (mp_killed p)
  (mp_managingClosed p) (mp_cmd p) (mp_lastWaitErr p) (mp_exitCode p) (mp_runs p) (mp_alive p)
  (mp_managers p) v (mp_userStarts p) (mp_panic p).
Definition mp_set_alive v p := mkMP (mp_oneShot p) (mp_stopped p) (mp_killed p)
  (mp_managingClosed p) (mp_cmd p) (mp_lastWaitErr p) (mp_exitCode p) (mp_runs p) v
  (mp_managers p) (mp_stop p) (mp_userStarts p) (mp_panic p).
Definition mp_set_userStarts v p := mkMP (mp_oneShot p) (mp_stopped p) (mp_killed p)
  (mp_managingClosed p) (mp_cmd p) (mp_lastWaitErr p) (mp_exitCode p) (mp_runs p) (mp_alive p)
  (mp_managers p) (mp_stop p) v (mp_panic p).
Definition mp_set_waited err code p := mkMP (mp_oneShot p) (mp_stopped p) (mp_killed p)
  (mp_managingClosed p) (mp_cmd p) err code (mp_runs p) (mp_alive p)
  (mp_managers p) (mp_stop p) (mp_userStarts p) (mp_panic p).
Definition mp_set_killed p := mkMP (mp_oneShot p) true true
  (mp_managingClosed p) (mp_cmd p) (mp_lastWaitErr p) (mp_exitCode p) (mp_runs p) (mp_alive p)
  (mp_managers p) (mp_stop p) (mp_userStarts p) (mp_panic p).

(** The deferred function of [manage]: close(p.managingCh). *)
Definition close_managing p := mkMP (mp_oneShot p) (mp_stopped p) (mp_killed p)
  true (mp_cmd p) (mp_lastWaitErr p) (mp_exitCode p) (mp_runs p) (mp_alive p)
  (mp_managers p) (mp_stop p) (mp_userStarts p) (mp_panic p || mp_managingClosed p).

(** [NewManagedProcess], with the number of times that Start will be called. *)
Definition NewManagedProcess (oneShot : bool) (userStarts : nat) : managedProcess :=
  mkMP oneShot false false false None None 0 0 [] [] SNone userStarts false.

Definition errAlreadyStopped : goerror := ENew "already stopped".

(** ** Start *)

(** How the start of a command goes: an error before or from cmd.Start (the
    working directory, the user, the pipes, the command), or for a one-shot
    process the error of the run. *)
Record startOutcome := mkStartOutcome {
  so_cwdErr : option goerror;      (* validateCWD *)
  so_startErr : option goerror;    (* sysProcAttr, the pipes and cmd.Start *)
  so_runErr : option goerror;      (* CombinedOutput or Run of a one-shot process *)
}.

(** [Start], which runs with the mutex held. A one-shot process runs to its end
    within the call; [quote] is the [%q] verb on the name. *)
Definition Start (quotedName : string) (o : startOutcome) (p : managedProcess)
    : managedProcess * option goerror :=
  if mp_killed p then (p, Some errAlreadyStopped)
  else
    match so_cwdErr o, so_startErr o with
    | Some e, _ => (p, Some e)
    | None, Some e => (p, Some e)
    | None, None =>
        if mp_oneShot p then
          (p, option_map (EWrap ("error running process " +:+ quotedName)%string) (so_runErr o))
        else
          let run := mp_runs p in
          (mkMP (mp_oneShot p) (mp_stopped p) (mp_killed p) (mp_managingClosed p) (Some run)
             (mp_lastWaitErr p) (mp_exitCode p) (S run) (run :: mp_alive p)
             (mp_managers p ++ [MBegin]) (mp_stop p) (mp_userStarts p) (mp_panic p), None)
    end.

(** ** Stop *)

(** [isWaitErrUnknown]. *)
Definition isWaitErrUnknown (err : string) (forceKilled : bool) : bool :=
  bool_decide (err = "signal: interrupt"%string) || bool_decide (err = "signal: terminated"%string)
  || bool_decide (err = "signal: killed"%string).

(** The end of [Stop], after the process is no longer managed; [isECHILD] says
    whether an error is the errno ECHILD, [showInt] is the [%d] verb. *)
Definition stop_result `{Multierr goerror} (isECHILD : goerror -> bool) (showInt : Z -> string)
    (forceKilled : bool) (p : managedProcess) : option goerror :=
  match mp_lastWaitErr p with
  | None =>
      if (mp_exitCode p =? 0)%Z then None
      else Some (ENew ("non-successful exit code: " +:+ showInt (mp_exitCode p))%string)
  | Some e =>
      if isECHILD e || isWaitErrUnknown (Error e) forceKilled then None else Some e
  end.

(** The start of [Stop], with the mutex held: whether there is more to do. *)
Definition stop_begin (p : managedProcess) : managedProcess * bool :=
  if mp_stopped p then (p, false)
  else
    let p1 := mp_set_killed p in
    match mp_cmd p1 with
    | None => (p1, false)
    | Some _ => (p1, true)
    end.

(** [parseSignal]: the signal of a name. *)
Definition parseSignal (quote : string -> string) (sigStr : string) : Z + goerror :=
  let named s := bool_decide (sigStr = s%string) in
  if named EmptyString then inl 0%Z
  else if existsb named ["HUP"; "SIGHUP"; "hangup"; "1"]%string then inl 1%Z
  else if existsb named ["INT"; "SIGINT"; "interrupt"; "2"]%string then inl 2%Z
  else if existsb named ["QUIT"; "SIGQUIT"; "quit"; "3"]%string then inl 3%Z
  else if existsb named ["ABRT"; "SIGABRT"; "aborted"; "abort"; "6"]%string then inl 6%Z
  else if existsb named ["KILL"; "SIGKILL"; "killed"; "kill"; "9"]%string then inl 9%Z
  else if existsb named ["TERM"; "SIGTERM"; "terminated"; "terminate"; "15"]%string then inl 15%Z
  else inr (ENew ("unknown " +:+ quote sigStr +:+ " name")%string).

(** ** Steps *)

Inductive mactor := UserStart | UserStop | Manager | OS.

Section Steps.
Context `{Multierr goerror} (isECHILD : goerror -> bool) (showInt : Z -> string) (quotedName : string).

Inductive mstep : mactor -> managedProcess -> managedProcess -> Prop :=
  (* the user calls Start *)
  | ms_start o p p' e n :
      mp_userStarts p = S n -> Start quotedName o p = (p', e) ->
      mstep UserStart p (mp_set_userStarts n p')
  (* manage *)
  | ms_begin l1 l2 run p :
      mp_managers p = l1 ++ MBegin :: l2 -> mp_cmd p = Some run ->
      mstep Manager p (mp_set_managers (l1 ++ MWait run :: l2) p)
  | ms_waited l1 l2 run err code p :
      mp_managers p = l1 ++ MWait run :: l2 -> run ∉ mp_alive p ->
      mstep Manager p (mp_set_waited err code (mp_set_managers (l1 ++ MExited :: l2) p))
  | ms_exited_killed l1 l2 p :
      mp_managers p = l1 ++ MExited :: l2 -> mp_killed p = true ->
      mstep Manager p (close_managing (mp_set_managers (l1 ++ l2) p))
  | ms_unexpected_end l1 l2 p :       (* onUnexpectedExit returned false *)
      mp_managers p = l1 ++ MExited :: l2 -> mp_killed p = false ->
      mstep Manager p (close_managing (mp_set_managers (l1 ++ l2) p))
  | ms_unexpected_restart l1 l2 p :
      mp_managers p = l1 ++ MExited :: l2 -> mp_killed p = false ->
      mstep Manager p (mp_set_managers (l1 ++ MTicker :: l2) p)
  | ms_ticker l1 l2 p :
      mp_managers p = l1 ++ MTicker :: l2 ->
      mstep Manager p (mp_set_managers (l1 ++ MRestart :: l2) p)
  | ms_ticker_killed l1 l2 p :
      mp_managers p = l1 ++ MTicker :: l2 -> mp_killed p = true ->
      mstep Manager p (close_managing (mp_set_managers (l1 ++ l2) p))
  | ms_restarted o l1 l2 p p' :
      mp_managers p = l1 ++ MRestart :: l2 ->
      Start quotedName o (mp_set_managers (l1 ++ l2) p) = (p', None) ->
      mstep Manager p p'
  | ms_not_restarted o l1 l2 p p' e :
      mp_managers p = l1 ++ MRestart :: l2 ->
      Start quotedName o (mp_set_managers (l1 ++ l2) p) = (p', Some e) ->
      mstep Manager p (close_managing p')
  (* the user calls Stop *)
  | ms_stop p p' b :
      mp_stop p = SNone -> stop_begin p = (p', b) ->
      mstep UserStop p (mp_set_stop (if b then SSignal else SReturned None) p')
  | ms_signal p : mp_stop p = SSignal -> mstep UserStop p (mp_set_stop SWait1 p)
  | ms_signal_err e p : mp_stop p = SSignal -> mstep UserStop p (mp_set_stop (SReturned (Some e)) p)
  | ms_wait1 p : mp_stop p = SWait1 ->  (* the timer, or managingCh *)
      mstep UserStop p (mp_set_stop SWait2 p)
  | ms_wait1_err e p : mp_stop p = SWait1 -> mstep UserStop p (mp_set_stop (SReturned (Some e)) p)
  | ms_wait2 p : mp_stop p = SWait2 -> mp_managingClosed p = true ->
      mstep UserStop p (mp_set_stop (SManaging false) p)
  | ms_wait2_kill p : mp_stop p = SWait2 -> mstep UserStop p (mp_set_stop (SManaging true) p)
  | ms_wait2_err e p : mp_stop p = SWait2 -> mstep UserStop p (mp_set_stop (SReturned (Some e)) p)
  | ms_managing f p : mp_stop p = SManaging f -> mp_managingClosed p = true ->
      mstep UserStop p (mp_set_stop (SReturned (stop_result isECHILD showInt f p)) p)
  (* a process exits *)
  | ms_exit run l1 l2 p : mp_alive p = l1 ++ run :: l2 -> mstep OS p (mp_set_alive (l1 ++ l2) p).

Definition any_mstep (p p' : managedProcess) : Prop := exists a, mstep a p p'.

Definition mreachable (oneShot : bool) (starts : nat) : managedProcess -> Prop :=
  reachable (fun p => p = NewManagedProcess oneShot starts) any_mstep.
End Steps.

(** ** Invariant of a process that is started at most once *)

Definition b2n (b : bool) : nat := if b then 1 else 0.

(** What is alive is the run that the only manager is about to wait for. *)
Definition alive_ok (p : managedProcess) : Prop :=
  mp_alive p = [] \/
  exists run, mp_alive p = [run] /\ mp_cmd p = Some run /\
    (mp_managers p = [MBegin] \/ mp_managers p = [MWait run]).

Record minv (p : managedProcess) : Prop := {
  mi_managers : length (mp_managers p) + b2n (mp_managingClosed p) + mp_userStarts p <= 1;
  mi_panic : mp_panic p = false;
  mi_oneShot : mp_managers p <> [] -> mp_oneShot p = false;
  mi_alive : alive_ok p;
  mi_begin : mp_managers p <> [] -> mp_cmd p <> None;
  mi_cmd : mp_cmd p <> None -> mp_managers p <> [] \/ mp_managingClosed p = true;
  mi_stop : mp_stop p <> SNone -> mp_killed p = true /\ mp_stopped p = true;
  mi_fresh : mp_stop p = SNone -> mp_stopped p = false;
  mi_busy : match mp_stop p with SNone | SReturned _ => True | _ => mp_cmd p <> None end;
  mi_ended : mp_stop p = SReturned None -> mp_alive p = [] /\ mp_managers p = [];
}.

Lemma minv_init oneShot starts : starts <= 1 -> minv (NewManagedProcess oneShot starts).
Proof. intros Hs. constructor; simpl; try done; try lia. by left. Qed.

(** A list with one manager. *)
Lemma one_manager (l1 l2 : list managepc) m (n k : nat) :
  length (l1 ++ m :: l2) + n + k <= 1 -> l1 = [] /\ l2 = [] /\ n = 0 /\ k = 0.
Proof. rewrite length_app. simpl. destruct l1, l2; simpl; intros; split_and!; done || lia. Qed.

(** The manager that ends closes the channel, which was open. *)
Lemma minv_close p :
  mp_managers p = [] -> mp_managingClosed p = false -> mp_userStarts p = 0 -> mp_alive p = [] ->
  mp_panic p = false ->
  (mp_stop p <> SNone -> mp_killed p = true /\ mp_stopped p = true) ->
  (mp_stop p = SNone -> mp_stopped p = false) ->
  match mp_stop p with SNone | SReturned _ => True | _ => mp_cmd p <> None end ->
  minv (close_managing p).
Proof.
  intros Hm Hc Hu Ha Hp H1 H2 H3. constructor; simpl; rewrite ?Hm, ?Hu, ?Ha, ?Hp, ?Hc; try done; auto.
  by left.
Qed.

(** [Start] either changes nothing or begins one more run. *)
Lemma Start_cases name o p p' e :
  Start name o p = (p', e) ->
  (p' = p /\ (e <> None \/ mp_oneShot p = true)) \/
  (e = None /\ mp_killed p = false /\ mp_oneShot p = false /\
   p' = mkMP (mp_oneShot p) (mp_stopped p) false (mp_managingClosed p) (Some (mp_runs p))
          (mp_lastWaitErr p) (mp_exitCode p) (S (mp_runs p)) (mp_runs p :: mp_alive p)
          (mp_managers p ++ [MBegin]) (mp_stop p) (mp_userStarts p) (mp_panic p)).
Proof.
  unfold Start. destruct (mp_killed p) eqn:Hk; [intros [= <- <-]; auto|].
  destruct (so_cwdErr o); [intros [= <- <-]; auto|]. destruct (so_startErr o); [intros [= <- <-]; auto|].
  destruct (mp_oneShot p) eqn:Ho; intros [= <- <-]; auto 10.
Qed.

Lemma alive_manager p m :
  alive_ok p -> mp_managers p = [m] -> (forall run, m <> MWait run) -> m <> MBegin -> mp_alive p = [].
Proof.
  intros [?|(run & _ & _ & [Hm|Hm])] He Hw Hb; [done | |]; rewrite He in Hm; simplify_eq.
  by destruct (Hw run).
Qed.

Section Invariant.
Context `{Multierr goerror} (isECHILD : goerror -> bool) (showInt : Z -> string) (quotedName : string).

Lemma minv_start p n o p' e :
  minv p -> mp_userStarts p = S n -> Start quotedName o p = (p', e) -> minv (mp_set_userStarts n p').
Proof.
  intros [H1 H2 H0 H3 H4 H5 H6 H7 H8 H9] Hn Hs.
  assert (mp_managers p = [] /\ mp_managingClosed p = false /\ n = 0) as (Hm & Hc & ->).
  { destruct (mp_managers p), (mp_managingClosed p); simpl in H1; split_and!; done || lia. }
  destruct (Start_cases _ _ _ _ _ Hs) as [[-> _]|(-> & Hk & Ho & ->)].
  - constructor; simpl; try done. rewrite Hm, Hc in *. simpl. lia.
  - assert (Ha : mp_alive p = []).
    { destruct H3 as [?|(run & _ & _ & [Hx|Hx])]; [done | by rewrite Hm in Hx..]. }
    constructor; simpl; rewrite ?Hm, ?Hc, ?Ha; simpl; try done; try lia.
    + right. eexists. eauto.
    + by left.
    + intros Hst. destruct (H6 Hst). congruence.
    + by destruct (mp_stop p).
    + intros Hst. destruct (H6 ltac:(by rewrite Hst)). congruence.
Qed.

Lemma minv_manager p p' : minv p -> mstep isECHILD showInt quotedName Manager p p' -> minv p'.
Proof.
  intros [H1 H2 H0 H3 H4 H5 H6 H7 H8 H9] Hst.
  inversion Hst as [|l1 l2 run q Hm Hc|l1 l2 run err code q Hm Hr|l1 l2 q Hm Hk|l1 l2 q Hm Hk
    |l1 l2 q Hm Hk|l1 l2 q Hm|l1 l2 q Hm Hk|o l1 l2 q q' Hm Hs|o l1 l2 q q' e Hm Hs
    | | | | | | | | | |]; subst;
    rewrite Hm in H1; destruct (one_manager _ _ _ _ _ H1) as (-> & -> & Hcl & Hu); simpl in *;
    assert (Hcl' : mp_managingClosed p = false) by (by destruct (mp_managingClosed p));
    assert (Hnot : mp_stop p <> SReturned None)
      by (intros Hx; destruct (H9 Hx) as [_ Hy]; by rewrite Hy in Hm).
  - constructor; simpl; rewrite ?Hcl', ?Hu; try done; [by intros _; apply H0; rewrite Hm| |by intros _; apply H4; rewrite Hm|by left].
    destruct H3 as [?|(run' & ? & ? & [?|?])]; [by left | right | by rewrite Hm in *].
    exists run'. simplify_eq. auto.
  - constructor; simpl; rewrite ?Hcl', ?Hu; try done; [by intros _; apply H0; rewrite Hm| |by intros _; apply H4; rewrite Hm|by left].
    left. destruct H3 as [?|(run' & Ha & ? & [Hx|Hx])]; [done| |]; rewrite Hm in Hx; simplify_eq.
    rewrite Ha in Hr. by destruct Hr; left.
  - apply minv_close; simpl; auto. by eapply alive_manager.
  - apply minv_close; simpl; auto. by eapply alive_manager.
  - constructor; simpl; rewrite ?Hcl', ?Hu; try done; [by intros _; apply H0; rewrite Hm| |by intros _; apply H4; rewrite Hm|by left].
    left. by apply (alive_manager p _ H3 Hm).
  - constructor; simpl; rewrite ?Hcl', ?Hu; try done; [by intros _; apply H0; rewrite Hm| |by intros _; apply H4; rewrite Hm|by left].
    left. by apply (alive_manager p _ H3 Hm).
  - apply minv_close; simpl; auto. by eapply alive_manager.
  - assert (Ha : mp_alive p = []) by by eapply alive_manager.
    destruct (Start_cases _ _ _ _ _ Hs) as [[-> [?|Ho]]|(_ & Hk & Ho & ->)]; [done| |].
    + simpl in Ho. rewrite H0 in Ho; [done | by rewrite Hm].
    + simpl in *. constructor; simpl; rewrite ?Hcl', ?Hu, ?Ha; simpl; try done; try lia.
      * right. eexists. eauto.
      * by left.
      * intros Hx. destruct (H6 Hx). congruence.
      * by destruct (mp_stop p).
  - assert (Ha : mp_alive p = []) by by eapply alive_manager.
    destruct (Start_cases _ _ _ _ _ Hs) as [[-> _]|(? & _)]; [|done].
    apply minv_close; simpl; auto.
Qed.

Lemma minv_step a p p' : minv p -> mstep isECHILD showInt quotedName a p p' -> minv p'.
Proof.
  intros Hi Hst. destruct a; [| |by eapply minv_manager|].
  - inversion Hst; subst. by eapply minv_start.
  - destruct Hi as [H1 H2 H0 H3 H4 H5 H6 H7 H8 H9].
    inversion Hst as [| | | | | | | | | |q q' b Hs Hb|q Hs|e q Hs|q Hs|e q Hs|q Hs Hc|q Hs|e q Hs|f q Hs Hc|];
      subst; rewrite Hs in *.
    + unfold stop_begin in Hb. rewrite H7 in Hb by done.
      destruct (mp_cmd p) as [run|] eqn:Hcmd; simpl in Hb; rewrite Hcmd in Hb; injection Hb as <- <-;
        constructor; simpl; rewrite ?Hcmd; try done.
      intros _. destruct H3 as [Ha|(run & _ & Hx & _)]; [|congruence]. split; [done|].
      destruct (mp_managers p) as [|m l] eqn:Hm; [done|]. by destruct H4.
    + constructor; simpl; try done. intros _. by apply H6.
    + constructor; simpl; try done. intros _. by apply H6.
    + constructor; simpl; try done. intros _. by apply H6.
    + constructor; simpl; try done. intros _. by apply H6.
    + constructor; simpl; try done. intros _. by apply H6.
    + constructor; simpl; try done. intros _. by apply H6.
    + constructor; simpl; try done. intros _. by apply H6.
    + constructor; simpl; try done; [intros _; by apply H6|]. intros _.
      rewrite Hc in H1. simpl in H1.
      assert (Hm : mp_managers p = []) by (destruct (mp_managers p); [done | simpl in H1; lia]).
      split; [|done]. destruct H3 as [?|(run & _ & _ & [Hx|Hx])]; [done | by rewrite Hm in Hx..].
  - inversion Hst as [| | | | | | | | | | | | | | | | | | |run l1 l2 q Ha]; subst.
    destruct Hi as [H1 H2 H0 H3 H4 H5 H6 H7 H8 H9].
    assert (l1 ++ l2 = []) as ->.
    { destruct H3 as [Hx|(r & Hx & _)]; rewrite Hx in Ha; [by destruct l1|].
      by destruct l1 as [|? [|]], l2; simplify_eq. }
    constructor; simpl; try done; [by left|]. intros Hx. by destruct (H9 Hx).
Qed.

Lemma mreachable_inv oneShot starts p :
  starts <= 1 -> mreachable isECHILD showInt quotedName oneShot starts p -> minv p.
Proof.
  intros Hs. apply invariant_reachable; [by intros s ->; apply minv_init|].
  intros s s' Hi [a Ha]. by eapply minv_step.
Qed.

(** ** Stopping finishes *)

(** The steps of a goroutine of the process and of the operating system. *)
Definition finishing_step (p p' : managedProcess) : Prop :=
  mstep isECHILD showInt quotedName Manager p p' \/ mstep isECHILD showInt quotedName OS p p' \/
  mstep isECHILD showInt quotedName UserStop p p'.

Lemma finishing_inv p p' : minv p -> rtc finishing_step p p' -> minv p'.
Proof.
  intros Hi Hr. revert Hi. induction Hr as [|p p1 p' [?|[?|?]] Hr IH]; intros Hi; [done|..];
    by apply IH; eapply minv_step.
Qed.

(** Everything that runs can exit. *)
Lemma can_exit p :
  minv p -> exists p', rtc finishing_step p p' /\ p' = mp_set_alive [] p.
Proof.
  intros Hi. destruct (mi_alive _ Hi) as [Ha|(run & Ha & _)].
  - exists p. split; [done|]. destruct p; simpl in *. by subst.
  - eexists. split; [|done]. apply rtc_once. right. left.
    apply (ms_exit isECHILD showInt quotedName run [] [] p). by rewrite Ha.
Qed.

(** What the watching goroutine does not change. *)
Definition same_stop (p p' : managedProcess) : Prop :=
  mp_stop p' = mp_stop p /\ mp_killed p' = mp_killed p /\ mp_cmd p' = mp_cmd p.

Lemma manager_ends p :
  minv p -> mp_killed p = true -> mp_cmd p <> None ->
  exists p', rtc finishing_step p p' /\ mp_managingClosed p' = true /\ same_stop p p'.
Proof.
  intros Hi Hk Hc.
  destruct (mi_cmd _ Hi Hc) as [Hm|Hcl]; [|by exists p].
  destruct (mp_managers p) as [|m [|]] eqn:Em; [done| |pose proof (mi_managers _ Hi); rewrite Em in *; simpl in *; lia].
  assert (Hend : forall q, mp_managers q = [MExited] -> mp_killed q = true -> same_stop p q ->
    rtc finishing_step p q ->
    exists p', rtc finishing_step p p' /\ mp_managingClosed p' = true /\ same_stop p p').
  { intros q Hq Hqk Hs Hr. eexists. split; [eapply rtc_r; [exact Hr|]; left;
      by apply (ms_exited_killed isECHILD showInt quotedName [] [])|]. done. }
  assert (Hwait : forall q run, mp_managers q = [MWait run] -> mp_killed q = true -> same_stop p q ->
    minv q -> rtc finishing_step p q ->
    exists p', rtc finishing_step p p' /\ mp_managingClosed p' = true /\ same_stop p p').
  { intros q run Hq Hqk Hs Hqi Hr. destruct (can_exit q Hqi) as (q1 & Hr1 & ->).
    eapply (Hend (mp_set_waited None 0 (mp_set_managers [MExited] (mp_set_alive [] q)))); try done.
    etrans; [exact Hr|]. eapply rtc_r; [exact Hr1|]. left.
    apply (ms_waited isECHILD showInt quotedName [] [] run None 0); [done|]. by intros ?%elem_of_nil. }
  destruct m as [|run| | |].
  - destruct (mp_cmd p) as [run|] eqn:Ec; [|done].
    assert (Hst : mstep isECHILD showInt quotedName Manager p (mp_set_managers [MWait run] p))
      by by apply (ms_begin isECHILD showInt quotedName [] [] run).
    apply (Hwait (mp_set_managers [MWait run] p) run); try done.
    + by eapply minv_step.
    + apply rtc_once. by left.
  - by apply (Hwait p run).
  - by apply (Hend p).
  - eexists. split; [apply rtc_once; left; by apply (ms_ticker_killed isECHILD showInt quotedName [] [])|].
    done.
  - assert (Hs : Start quotedName (mkStartOutcome None None None) (mp_set_managers [] p)
                 = (mp_set_managers [] p, Some errAlreadyStopped)) by (unfold Start; simpl; by rewrite Hk).
    eexists. split; [apply rtc_once; left;
      by eapply (ms_not_restarted isECHILD showInt quotedName _ [] [])|]. done.
Qed.

Lemma stop_ends p :
  minv p -> mp_stop p <> SNone -> exists p' r, rtc finishing_step p p' /\ mp_stop p' = SReturned r.
Proof.
  intros Hi Hs. destruct (mi_stop _ Hi Hs) as [Hk _].
  assert (Hlast : forall q f, minv q -> mp_killed q = true -> mp_cmd q <> None -> mp_stop q = SManaging f ->
    rtc finishing_step p q -> exists p' r, rtc finishing_step p p' /\ mp_stop p' = SReturned r).
  { intros q f Hq Hqk Hqc Hqs Hr. destruct (manager_ends q Hq Hqk Hqc) as (q1 & Hr1 & Hcl & Hs1 & _).
    exists (mp_set_stop (SReturned (stop_result isECHILD showInt f q1)) q1), (stop_result isECHILD showInt f q1).
    split; [|done]. etrans; [exact Hr|]. eapply rtc_r; [exact Hr1|].
    right. right. apply (ms_managing isECHILD showInt quotedName f); congruence. }
  pose proof (mi_busy _ Hi) as Hb.
  destruct (mp_stop p) as [| | | |f|r] eqn:Es; try done.
  - apply (Hlast (mp_set_stop (SManaging true) (mp_set_stop SWait2 (mp_set_stop SWait1 p))) true); try done.
    + eapply finishing_inv; [exact Hi|].
      eapply rtc_l; [right; right; by apply ms_signal|].
      eapply rtc_l; [right; right; by apply ms_wait1|].
      apply rtc_once. right. right. by apply ms_wait2_kill.
    + eapply rtc_l; [right; right; by apply ms_signal|].
      eapply rtc_l; [right; right; by apply ms_wait1|].
      apply rtc_once. right. right. by apply ms_wait2_kill.
  - apply (Hlast (mp_set_stop (SManaging true) (mp_set_stop SWait2 p)) true); try done.
    + eapply finishing_inv; [exact Hi|]. eapply rtc_l; [right; right; by apply ms_wait1|].
      apply rtc_once. right. right. by apply ms_wait2_kill.
    + eapply rtc_l; [right; right; by apply ms_wait1|].
      apply rtc_once. right. right. by apply ms_wait2_kill.
  - assert (Hst : finishing_step p (mp_set_stop (SManaging true) p))
      by (right; right; by apply ms_wait2_kill).
    apply (Hlast (mp_set_stop (SManaging true) p) true); try done.
    + eapply finishing_inv; [exact Hi|]. by apply rtc_once.
    + by apply rtc_once.
  - by apply (Hlast p f).
  - by exists p, r.
Qed.
End Invariant.

(** ** A run

    The process of the witnesses: it was started, exited and is about to be
    restarted when it is stopped. *)
Definition sample_process : managedProcess :=
  mkMP false true true false (Some 0) None 1 1 [] [MTicker] SSignal 0 false.

Lemma sample_process_reachable `{Multierr goerror} isECHILD showInt name :
  mreachable isECHILD showInt name false 1 sample_process.
Proof.
  exists (NewManagedProcess false 1). split; [done|].
  eapply rtc_l; [exists UserStart; by eapply (ms_start _ _ _ (mkStartOutcome None None None))|]. eval_state.
  eapply rtc_l; [exists Manager; by apply (ms_begin _ _ _ [] [] 0)|]. eval_state.
  eapply rtc_l; [exists OS; by apply (ms_exit _ _ _ 0 [] [])|]. eval_state.
  eapply rtc_l; [exists Manager; apply (ms_waited _ _ _ [] [] 0 None 1); [done|]; by intros ?%elem_of_nil|]. eval_state.
  eapply rtc_l; [exists Manager; by apply (ms_unexpected_restart _ _ _ [] [])|]. eval_state.
  eapply rtc_l; [exists UserStop; by eapply ms_stop|]. eval_state.
  done.
Qed.

(** ** Properties *)


Section W_managed_process_safe.
Import SimpleErrors.
End W_managed_process_safe.

(** A Stop that was called can always return without further calls of the
    user, whether the process exits by itself, is being restarted or has to be
    killed. *)
Theorem stop_can_finish `{Multierr goerror} (isECHILD : goerror -> bool) (showInt : Z -> string)
    (quotedName : string) (oneShot : bool) (p : managedProcess)
    (Hr : mreachable isECHILD showInt quotedName oneShot 1 p) (Hs : mp_stop p <> SNone) :
  exists p' r, rtc (finishing_step isECHILD showInt quotedName) p p' /\ mp_stop p' = SReturned r.
Proof. apply stop_ends; [|done]. by apply mreachable_inv in Hr. Qed.

Section W_stop_can_finish.
Import SimpleErrors.
Lemma stop_can_finish_witness :
  exists p' r, rtc (finishing_step (fun _ => false) (fun _ => EmptyString) "p") sample_process p' /\
    mp_stop p' = SReturned r.
Proof.
  apply (stop_can_finish (fun _ => false) (fun _ => EmptyString) "p" false sample_process);
    [apply sample_process_reachable | discriminate].
Defined.
End W_stop_can_finish.

(** A process whose unexpected exit was not to be followed by a restart and
    that is then started again by its user closes its management channel twice
    when it ends: the watching goroutine panics. *)
Theorem second_start_panics `{Multierr goerror} (isECHILD : goerror -> bool) (showInt : Z -> string)
    (quotedName : string) :
  exists p, mreachable isECHILD showInt quotedName false 2 p /\ mp_panic p = true /\
    mp_stop p = SNone.
Proof.
  exists (mkMP false false false true (Some 1) None 0 2 [] [] SNone 0 true). split; [|done].
  exists (NewManagedProcess false 2). split; [done|].
  eapply rtc_l; [exists UserStart; by eapply (ms_start _ _ _ (mkStartOutcome None None None))|]. eval_state.
  eapply rtc_l; [exists Manager; by apply (ms_begin _ _ _ [] [] 0)|]. eval_state.
  eapply rtc_l; [exists OS; by apply (ms_exit _ _ _ 0 [] [])|]. eval_state.
  eapply rtc_l; [exists Manager; apply (ms_waited _ _ _ [] [] 0 None 0); [done|]; by intros ?%elem_of_nil|]. eval_state.
  eapply rtc_l; [exists Manager; by apply (ms_unexpected_end _ _ _ [] [])|]. eval_state.
  eapply rtc_l; [exists UserStart; by eapply (ms_start _ _ _ (mkStartOutcome None None None))|]. eval_state.
  eapply rtc_l; [exists Manager; by apply (ms_begin _ _ _ [] [] 1)|]. eval_state.
  eapply rtc_l; [exists OS; by apply (ms_exit _ _ _ 1 [] [])|]. eval_state.
  eapply rtc_l; [exists Manager; apply (ms_waited _ _ _ [] [] 1 None 0); [done|]; by intros ?%elem_of_nil|]. eval_state.
  eapply rtc_l; [exists Manager; by apply (ms_unexpected_end _ _ _ [] [])|]. eval_state.
  done.
Qed.
