(* ===== verification/ProcessManager.v ===== *)
(** * The process manager: [pexec/process_manager.go]

    A manager owns processes by their identifier, starts them together, stops
    them together and can be merged with another manager. A process is known to
    it by its interface only: processes are numbers, [proc_ID], [proc_Start]
    and [proc_Stop] are what their methods return, and the calls of Start and
    Stop are recorded in [pm_calls]. The methods of the manager run with its
    mutex held. *)

From S2P Require Import Prelude GoError ManagedProcess.

Inductive procCall := CallStart (p : nat) | CallStop (p : nat).

(** [processManager]; the map is empty when it is nil. *)
Record processManager := mkPM {
  pm_processesByID : gmap string nat;
  pm_started : bool;
  pm_stopped : bool;
  pm_calls : list procCall;
}.

Definition pm_set_processes v pm := mkPM v (pm_started pm) (pm_stopped pm) (pm_calls pm).

(** [NewProcessManager]. *)
Definition NewProcessManager : processManager := mkPM ∅ false false [].

(** [ProcessIDs], in the order of iteration of the map. *)
Definition ProcessIDs (pm : processManager) : list string := (map_to_list (pm_processesByID pm)).*1.

(** [ProcessByID]. *)
Definition ProcessByID (id : string) (pm : processManager) : option nat :=
  if pm_stopped pm then None else pm_processesByID pm !! id.

(** [RemoveProcessByID]. *)
Definition RemoveProcessByID (id : string) (pm : processManager) : processManager * option nat :=
  if pm_stopped pm then (pm, None)
  else match pm_processesByID pm !! id with
       | None => (pm, None)
       | Some p => (pm_set_processes (delete id (pm_processesByID pm)) pm, Some p)
       end.

(** [Clone]; the copy has made no calls. *)
Definition Clone (pm : processManager) : processManager :=
  mkPM (pm_processesByID pm) (pm_started pm) (pm_stopped pm) [].

Section Manager.
Context `{Multierr goerror}.
Context (proc_ID : nat -> string) (proc_Start proc_Stop : nat -> option goerror).

(** The loop of [stop]. *)
Fixpoint stop_all (procs : list nat) (err : option goerror) : list procCall * option goerror :=
  match procs with
  | [] => ([], err)
  | p :: procs' =>
      let '(calls, err') :=
        stop_all procs' (multierr_Combine (option_list err ++ option_list (proc_Stop p))) in
      (CallStop p :: calls, err')
  end.

(** [stop]. *)
Definition pm_stop (pm : processManager) : processManager * option goerror :=
  let '(calls, err) := stop_all (map_to_list (pm_processesByID pm)).*2 None in
  (mkPM ∅ (pm_started pm) true (pm_calls pm ++ calls), err).

(** [Stop]. *)
Definition pm_Stop (pm : processManager) : processManager * option goerror :=
  if pm_stopped pm then (pm, None) else pm_stop pm.

(** The loop of [Start]: the calls, and the error of the first process that
    did not start. *)
Fixpoint start_all (procs : list nat) : list procCall * option goerror :=
  match procs with
  | [] => ([], None)
  | p :: procs' =>
      match proc_Start p with
      | Some e => ([CallStart p], Some e)
      | None => let '(calls, err) := start_all procs' in (CallStart p :: calls, err)
      end
  end.

(** [Start]. *)
Definition pm_Start (pm : processManager) : processManager * option goerror :=
  if pm_stopped pm then (pm, Some errAlreadyStopped)
  else if pm_started pm then (pm, None)
  else
    let '(calls, err) := start_all (map_to_list (pm_processesByID pm)).*2 in
    let pm1 := mkPM (pm_processesByID pm) (pm_started pm) (pm_stopped pm) (pm_calls pm ++ calls) in
    match err with
    | Some e =>
        let '(pm2, stopErr) := pm_stop pm1 in
        (pm2, multierr_Combine (e :: option_list stopErr))
    | None => (mkPM (pm_processesByID pm1) true (pm_stopped pm1) (pm_calls pm1), None)
    end.

(** [AddProcess]: the process that was replaced, or an error. *)
Definition AddProcess (p : nat) (start : bool) (pm : processManager)
    : processManager * (option nat + goerror) :=
  if pm_stopped pm then (pm, inr errAlreadyStopped)
  else
    let replaced := pm_processesByID pm !! proc_ID p in
    let run := pm_started pm && start in
    let pm1 := if run then mkPM (pm_processesByID pm) (pm_started pm) (pm_stopped pm)
                             (pm_calls pm ++ [CallStart p]) else pm in
    match (if run then proc_Start p else None) with
    | Some e => (pm1, inr e)
    | None => (pm_set_processes (<[proc_ID p := p]> (pm_processesByID pm1)) pm1, inl replaced)
    end.

(** [AddProcessFromConfig], with the process that is made of the
    configuration. *)
Definition AddProcessFromConfig (p : nat) (pm : processManager)
    : processManager * (option nat + goerror) :=
  if pm_stopped pm then (pm, inr errAlreadyStopped) else AddProcess p true pm.

(** The loop of [MergeAddProcessManagers]. *)
Fixpoint merge_add (ids : list string) (src dst : processManager) (replacements : list nat)
    : processManager * (list nat + goerror) :=
  match ids with
  | [] => (dst, inl replacements)
  | id :: ids' =>
      match ProcessByID id src with
      | None => merge_add ids' src dst replacements
      | Some p =>
          match AddProcess p false dst with
          | (dst1, inr e) => (dst1, inr e)
          | (dst1, inl replaced) =>
              merge_add ids' src dst1 (replacements ++ option_list replaced)
          end
      end
  end.

(** [MergeAddProcessManagers]. *)
Definition MergeAddProcessManagers (dst src : processManager)
    : processManager * (list nat + goerror) :=
  merge_add (ProcessIDs src) src dst [].

(** The loop of [MergeRemoveProcessManagers]. *)
Fixpoint merge_remove (ids : list string) (dst : processManager) (removed : list nat)
    : processManager * list nat :=
  match ids with
  | [] => (dst, removed)
  | id :: ids' =>
      match RemoveProcessByID id dst with
      | (dst1, None) => merge_remove ids' dst1 removed
      | (dst1, Some p) => merge_remove ids' dst1 (removed ++ [p])
      end
  end.

(** [MergeRemoveProcessManagers]. *)
Definition MergeRemoveProcessManagers (dst src : processManager) : processManager * list nat :=
  merge_remove (ProcessIDs src) dst [].

(** ** Invariant *)

(** Every process is under its own identifier, and a stopped manager has
    none. *)
Record pm_inv (pm : processManager) : Prop := {
  pi_id : forall id p, pm_processesByID pm !! id = Some p -> proc_ID p = id;
  pi_stopped : pm_stopped pm = true -> pm_processesByID pm = ∅;
}.

Lemma new_pm_inv : pm_inv NewProcessManager.
Proof. constructor; simpl; [by intros id p; rewrite lookup_empty | done]. Qed.

Inductive pmOp :=
  | PMAdd (p : nat) (start : bool)
  | PMAddFromConfig (p : nat)
  | PMRemove (id : string)
  | PMStart
  | PMStop
  | PMClone
  | PMMergeAdd (src : processManager)
  | PMMergeRemove (src : processManager).

Definition pm_op (o : pmOp) (pm : processManager) : processManager :=
  match o with
  | PMAdd p start => fst (AddProcess p start pm)
  | PMAddFromConfig p => fst (AddProcessFromConfig p pm)
  | PMRemove id => fst (RemoveProcessByID id pm)
  | PMStart => fst (pm_Start pm)
  | PMStop => fst (pm_Stop pm)
  | PMClone => Clone pm
  | PMMergeAdd src => fst (MergeAddProcessManagers pm src)
  | PMMergeRemove src => fst (MergeRemoveProcessManagers pm src)
  end.

Lemma pm_stop_inv pm : pm_inv (fst (pm_stop pm)).
Proof.
  unfold pm_stop. destruct (stop_all _ _). constructor; simpl; [|done].
  intros id p. by rewrite lookup_empty.
Qed.

Lemma AddProcess_inv p start pm : pm_inv pm -> pm_inv (fst (AddProcess p start pm)).
Proof.
  intros Hi. unfold AddProcess. destruct (pm_stopped pm) eqn:Hs; [done|]. destruct Hi as [Hid Hst].
  assert (Hins : forall id p', <[proc_ID p := p]> (pm_processesByID pm) !! id = Some p' -> proc_ID p' = id).
  { intros id p' [[<- <-]|[_ ?]]%lookup_insert_Some; auto. }
  destruct (pm_started pm && start); simpl; [destruct (proc_Start p)|]; constructor; simpl; auto; intros; congruence.
Qed.

Lemma RemoveProcessByID_inv id pm : pm_inv pm -> pm_inv (fst (RemoveProcessByID id pm)).
Proof.
  intros Hi. unfold RemoveProcessByID. destruct (pm_stopped pm) eqn:Hs; [done|].
  destruct (_ !! id); [|done]. destruct Hi as [Hid Hst]. constructor; simpl; [|intros; congruence].
  intros id' p' [_ ?]%lookup_delete_Some. auto.
Qed.

Lemma pm_op_inv o pm : pm_inv pm -> pm_inv (pm_op o pm).
Proof.
  intros Hi. destruct o as [p start|p|id| | | |src|src]; simpl.
  - by apply AddProcess_inv.
  - unfold AddProcessFromConfig. destruct (pm_stopped pm); [done | by apply AddProcess_inv].
  - by apply RemoveProcessByID_inv.
  - unfold pm_Start. destruct (pm_stopped pm) eqn:Hs; [done|]. destruct (pm_started pm); [done|].
    destruct (start_all _) as [calls [e|]].
    + match goal with |- context [pm_stop ?q] => pose proof (pm_stop_inv q); by destruct (pm_stop q) end.
    + destruct Hi. constructor; simpl; auto; intros; congruence.
  - unfold pm_Stop. destruct (pm_stopped pm); [done | apply pm_stop_inv].
  - by destruct Hi.
  - unfold MergeAddProcessManagers. generalize (@nil nat) as rs. revert pm Hi.
    induction (ProcessIDs src) as [|id ids IH]; intros pm Hi rs; simpl; [done|].
    destruct (ProcessByID id src) as [p|]; [|by apply IH].
    pose proof (AddProcess_inv p false pm Hi). destruct (AddProcess p false pm) as [pm1 [|]]; [by apply IH | done].
  - unfold MergeRemoveProcessManagers. generalize (@nil nat) as rs. revert pm Hi.
    induction (ProcessIDs src) as [|id ids IH]; intros pm Hi rs; simpl; [done|].
    pose proof (RemoveProcessByID_inv id pm Hi). destruct (RemoveProcessByID id pm) as [pm1 [|]]; by apply IH.
Qed.

(** ** What the loops do *)

Lemma stop_all_calls procs err : (stop_all procs err).1 = CallStop <$> procs.
Proof.
  revert err. induction procs as [|p procs IH]; intros err; [done|]. simpl.
  specialize (IH (multierr_Combine (option_list err ++ option_list (proc_Stop p)))).
  destruct (stop_all _ _). simpl in *. by rewrite IH.
Qed.

Lemma start_all_spec procs :
  exists started, (start_all procs).1 = CallStart <$> started /\
    match (start_all procs).2 with
    | None => started = procs /\ Forall (fun p => proc_Start p = None) procs
    | Some _ => Exists (fun p => proc_Start p <> None) procs
    end.
Proof.
  induction procs as [|p procs (st & H1 & H2)]; [by exists []|]. simpl.
  destruct (proc_Start p) eqn:E; simpl.
  { exists [p]. split; [done|]. left. by rewrite E. }
  destruct (start_all procs) as [calls err]. simpl in *. exists (p :: st). split; [by rewrite H1|].
  destruct err; [by right|]. destruct H2 as [-> ?]. auto.
Qed.

Lemma merge_add_spec ids src dst rs :
  pm_inv src -> pm_inv dst -> pm_stopped src = false -> pm_stopped dst = false -> NoDup ids ->
  exists dst' rs', merge_add ids src dst rs = (dst', inl (rs ++ rs')) /\
    (forall id, pm_processesByID dst' !! id =
       if decide (id ∈ ids)
       then match pm_processesByID src !! id with
            | Some p => Some p
            | None => pm_processesByID dst !! id
            end
       else pm_processesByID dst !! id) /\
    pm_calls dst' = pm_calls dst /\
    rs' = omap (fun id => match pm_processesByID src !! id with
                          | Some _ => pm_processesByID dst !! id
                          | None => None
                          end) ids.
Proof.
  intros Hsrc Hdst Hs1 Hs2 Hnd. revert dst rs Hdst Hs2.
  induction ids as [|id ids IH]; intros dst rs Hdst Hs2; simpl.
  { exists dst, []. by rewrite app_nil_r. }
  apply NoDup_cons in Hnd as [Hid Hnd]. unfold ProcessByID. rewrite Hs1.
  destruct (pm_processesByID src !! id) as [p|] eqn:Hp.
  - pose proof (AddProcess_inv p false dst Hdst) as Hi1. unfold AddProcess in *.
    rewrite Hs2, andb_false_r in *. simpl in Hi1.
    destruct (IH Hnd _ (rs ++ option_list (pm_processesByID dst !! proc_ID p)) Hi1 Hs2)
      as (dst' & rs' & E & Hl & Hcalls & Hrs).
    rewrite (pi_id _ Hsrc _ _ Hp) in *. rewrite E.
    eexists dst', _. split; [by rewrite <- app_assoc|]. split_and!; [|done|].
    + intros id'. rewrite Hl. simpl. destruct (decide (id' = id)) as [->|Hne].
      * rewrite decide_False, lookup_insert_eq, decide_True by (done || by left). by rewrite Hp.
      * rewrite lookup_insert_ne by done. repeat case_decide; try done; set_solver.
    + rewrite Hrs. destruct (pm_processesByID dst !! id); simpl; [f_equal|];
        apply list_omap_ext, Forall_Forall2_diag, Forall_forall; intros id' Hin; simpl;
        rewrite lookup_insert_ne by (by intros <-); done.
  - destruct (IH Hnd dst rs Hdst Hs2) as (dst' & rs' & E & Hl & Hcalls & Hrs). rewrite E.
    eexists dst', _. split; [done|]. split_and!; [|done|done].
    intros id'. rewrite Hl. destruct (decide (id' = id)) as [->|Hne].
    + rewrite decide_False, decide_True by (done || by left). by rewrite Hp.
    + repeat case_decide; try done; set_solver.
Qed.
End Manager.

Lemma merge_add_none ids src dst rs `{Multierr goerror} proc_ID proc_Start :
  pm_stopped src = true -> merge_add proc_ID proc_Start ids src dst rs = (dst, inl rs).
Proof.
  intros Hs. revert rs. induction ids as [|id ids IH]; intros rs; simpl; [done|].
  unfold ProcessByID. by rewrite Hs.
Qed.

Lemma dom_ids (src : processManager) id :
  id ∈ ProcessIDs src <-> is_Some (pm_processesByID src !! id).
Proof.
  unfold ProcessIDs. rewrite list_elem_of_fmap. split.
  - intros ([k p] & -> & Hin). apply elem_of_map_to_list in Hin. eauto.
  - intros [p Hp]. exists (id, p). split; [done|]. by apply elem_of_map_to_list.
Qed.

(** ** Properties *)

(** However a manager was used, stopping it, or a start in which a process
    fails, stops every process that it has, once each and after all other
    calls; from then on it has no process, and starting it or adding to it
    fails. *)
Theorem manager_stops_everything `{Multierr goerror} (proc_ID : nat -> string)
    (proc_Start proc_Stop : nat -> option goerror) (ops : list pmOp) :
  let pm := run_ops (pm_op proc_ID proc_Start proc_Stop) ops NewProcessManager in
  let procs := (map_to_list (pm_processesByID pm)).*2 in
  let ended pm' := pm_stopped pm' = true /\ pm_processesByID pm' = ∅ /\
    pm_Start proc_Start proc_Stop pm' = (pm', Some errAlreadyStopped) /\
    forall p start, AddProcess proc_ID proc_Start p start pm' = (pm', inr errAlreadyStopped) in
  (let '(pm', _) := pm_Stop proc_Stop pm in
   ended pm' /\ pm_calls pm' = pm_calls pm ++ (CallStop <$> procs)) /\
  (let '(pm', err) := pm_Start proc_Start proc_Stop pm in
   if pm_stopped pm'
   then ended pm' /\
     (pm_stopped pm = false -> Exists (fun p => proc_Start p <> None) procs /\
        exists started, pm_calls pm' = pm_calls pm ++ (CallStart <$> started) ++ (CallStop <$> procs))
   else err = None /\ pm_started pm' = true /\ pm_processesByID pm' = pm_processesByID pm /\
     (pm_started pm = false -> Forall (fun p => proc_Start p = None) procs /\
        pm_calls pm' = pm_calls pm ++ (CallStart <$> procs))).
Proof.
  intros pm procs ended.
  assert (Hi : pm_inv proc_ID pm).
  { apply run_ops_invariant; [intros; by apply pm_op_inv | apply new_pm_inv]. }
  assert (Hended : forall pm', pm_stopped pm' = true -> pm_processesByID pm' = ∅ -> ended pm').
  { intros pm' Hs Hm. unfold ended, pm_Start, AddProcess. by rewrite Hs. }
  clearbody pm. split.
  - unfold pm_Stop. destruct (pm_stopped pm) eqn:Hs.
    + pose proof (pi_stopped _ _ Hi Hs) as Hm. split; [by apply Hended|].
      unfold procs. by rewrite Hm, map_to_list_empty, app_nil_r.
    + unfold pm_stop. pose proof (stop_all_calls proc_Stop procs None) as Hc. fold procs.
      destruct (stop_all _ procs None) as [calls err]. simpl in *. subst. split; [by apply Hended | done].
  - unfold pm_Start at 1. destruct (pm_stopped pm) eqn:Hs.
    { cbv beta iota. rewrite Hs. split; [apply Hended; [done | by apply (pi_stopped _ _ Hi)] | done]. }
    destruct (pm_started pm) eqn:Hst; [cbv beta iota; by rewrite Hs|]. fold procs.
    destruct (start_all_spec proc_Start procs) as (started & H1 & H2).
    destruct (start_all _ procs) as [calls [e|]]; simpl in *; subst.
    + unfold pm_stop. simpl. pose proof (stop_all_calls proc_Stop procs None) as Hc. fold procs.
      destruct (stop_all _ procs None) as [calls err]. simpl in *. subst.
      split; [by apply Hended|]. intros _. split; [done|]. exists started. by rewrite app_assoc.
    + destruct H2 as [-> Hf]. simpl. by rewrite ?Hs.
Qed.

(** Merging a manager into one that is not stopped gives the union of their
    processes, those of the source taking precedence, returns exactly the
    processes that were replaced and starts none; a source that is stopped
    changes nothing, and a destination that is stopped takes nothing. *)
Theorem merge_add_is_union `{Multierr goerror} (proc_ID : nat -> string)
    (proc_Start proc_Stop : nat -> option goerror) (ops ops' : list pmOp) :
  let src := run_ops (pm_op proc_ID proc_Start proc_Stop) ops NewProcessManager in
  let dst := run_ops (pm_op proc_ID proc_Start proc_Stop) ops' NewProcessManager in
  let '(dst', r) := MergeAddProcessManagers proc_ID proc_Start dst src in
  if pm_stopped dst then dst' = dst
  else pm_processesByID dst' = pm_processesByID src ∪ pm_processesByID dst /\
    pm_calls dst' = pm_calls dst /\
    exists rs, r = inl rs /\ forall p, p ∈ rs <->
      exists id, is_Some (pm_processesByID src !! id) /\ pm_processesByID dst !! id = Some p.
Proof.
  intros src dst.
  assert (Hi : forall o, pm_inv proc_ID (run_ops (pm_op proc_ID proc_Start proc_Stop) o NewProcessManager)).
  { intros o. apply run_ops_invariant; [intros; by apply pm_op_inv | apply new_pm_inv]. }
  pose proof (Hi ops) as Hsrc. pose proof (Hi ops') as Hdst. fold src in Hsrc. fold dst in Hdst.
  clearbody src dst. unfold MergeAddProcessManagers.
  destruct (pm_stopped src) eqn:Hs1.
  { rewrite merge_add_none by done. destruct (pm_stopped dst); [done|].
    rewrite (pi_stopped _ _ Hsrc Hs1), (left_id_L ∅ (∪)). split_and!; [done | done|].
    exists []. split; [done|]. intros p. rewrite elem_of_nil. split; [done|].
    intros (id & [? Hx] & _). by rewrite lookup_empty in Hx. }
  destruct (pm_stopped dst) eqn:Hs2.
  { generalize (@nil nat). induction (ProcessIDs src) as [|id ids IH]; intros rs; simpl; [done|].
    destruct (ProcessByID id src); [|apply IH]. unfold AddProcess. by rewrite Hs2. }
  destruct (merge_add_spec proc_ID proc_Start proc_Stop (ProcessIDs src) src dst [] Hsrc Hdst Hs1 Hs2)
    as (dst' & rs & -> & Hl & Hc & Hrs); [apply NoDup_fst_map_to_list|].
  split_and!; [|done|].
  - apply map_eq. intros id. rewrite Hl, lookup_union. pose proof (dom_ids src id) as Hd.
    case_decide as Hin.
    + apply Hd in Hin as [p ->]. simpl. by destruct (pm_processesByID dst !! id).
    + destruct (pm_processesByID src !! id) eqn:E; [destruct Hin; apply Hd; eauto|].
      by destruct (pm_processesByID dst !! id).
  - exists rs. split; [done|]. intros p. rewrite Hrs, list_elem_of_omap. split.
    + intros (id & Hin & Hp). exists id. destruct (pm_processesByID src !! id); [eauto | done].
    + intros (id & Hsome & Hp). exists id. split; [by apply dom_ids|]. by destruct Hsome as [? ->].
Qed.
