(* ===== verification/ServerAuth.v ===== *)
(** * Authentication of the server: [rpc/server_auth.go], the handlers of
      [rpc/auth.go] and the entity of [rpc/context.go]

    Tokens that are issued for credentials, tokens that are accepted, TLS
    client certificates as a fall-back, and the interceptors that let a call
    through without, with optional or only with authentication.

    The JWT library is not part of the repository: [Jwt] is what the code uses
    of it, [JwtLaws] its documented behaviour. A handler that the server is
    configured with is a function of what it is called with. *)

From S2P Require Import Prelude GoError.

(** ** Data *)

(** [EntityInfo]; the data of an entity is opaque. *)
Record EntityInfo (D : Type) := mkEntityInfo { ei_Entity : string; ei_Data : option D }.
Arguments mkEntityInfo {D} _ _.
Arguments ei_Entity {D} _.
Arguments ei_Data {D} _.

(** [JWTClaims] with the registered claims that the code sets or reads. *)
Record JWTClaims := mkClaims {
  cl_Subject : string;
  cl_Audience : list string;
  cl_Issuer : string;
  cl_IssuedAt : Z;
  cl_ID : string;
  cl_AuthCredentialsType : string;
  cl_AuthMetadata : gmap string string;
}.

(** [Metadata]: a copy, nil when it is empty. *)
Definition claims_Metadata (c : JWTClaims) : option (gmap string string) :=
  if bool_decide (size (cl_AuthMetadata c) = 0) then None else Some (cl_AuthMetadata c).

(** A parsed token, not yet verified. *)
Record parsedToken := mkParsed {
  pt_kid : option string;     (* the kid header, when it is a string *)
  pt_method : string;         (* the alg header *)
  pt_claims : JWTClaims;
}.

(** What the code uses of github.com/golang-jwt/jwt: [Key] and [PrivKey] are
    the keys of the signing methods. [GoodSignature] is not called; it is what
    the library checks. *)
Class Jwt (Key PrivKey : Type) := {
  SignedString : string -> string -> JWTClaims -> PrivKey -> string + goerror;
  (** valid methods, key function, token *)
  ParseWithClaims : list string -> (parsedToken -> Key + goerror) -> string -> parsedToken + goerror;
  VerifyAudience : JWTClaims -> string -> bool;   (* with a required audience *)
  claims_Valid : JWTClaims -> option goerror;
  public_of : PrivKey -> Key;
  GoodSignature : string -> parsedToken -> Key -> Prop;
}.

(** Documented behaviour: a token that parses has a valid method, a good
    signature for the key that the key function gave, and valid claims; a token
    that was signed parses to what was signed when the key function gives the
    public key; an audience is verified when it is one of the claim's. *)
Class JwtLaws (Key PrivKey : Type) `{Jwt Key PrivKey} := {
  Parse_sound valid kf s t :
    ParseWithClaims valid kf s = inl t ->
    pt_method t ∈ valid /\ claims_Valid (pt_claims t) = None /\
    exists k, kf t = inl k /\ GoodSignature s t k;
  Parse_complete valid kf method kid c priv s :
    SignedString method kid c priv = inl s -> method ∈ valid -> claims_Valid c = None ->
    kf (mkParsed (Some kid) method c) = inl (public_of priv) ->
    ParseWithClaims valid kf s = inl (mkParsed (Some kid) method c);
  Audience_sound c aud : VerifyAudience c aud = true -> aud ∈ cl_Audience c;
  Audience_complete c aud : aud ∈ cl_Audience c -> aud <> EmptyString -> VerifyAudience c aud = true;
}.

(** The parts of a peer's verified certificate that the code reads. *)
Record certificate := mkCert { ct_DNSNames : list string; ct_Issuer : string; ct_SerialNumber : string }.

(** The context of a call: incoming metadata, the first certificate of the
    first verified chain, and the entity that was attached. *)
Record callCtx (D : Type) := mkCtx {
  cx_md : option (gmap string (list string));
  cx_cert : option certificate;
  cx_entity : option (EntityInfo D);
}.
Arguments mkCtx {D} _ _ _.
Arguments cx_md {D} _.
Arguments cx_cert {D} _.
Arguments cx_entity {D} _.

(** [ContextWithAuthEntity], [ContextAuthEntity]. *)
Definition ContextWithAuthEntity {D} (e : EntityInfo D) (ctx : callCtx D) : callCtx D :=
  mkCtx (cx_md ctx) (cx_cert ctx) (Some e).

Definition ContextAuthEntity {D} (ctx : callCtx D) : option (EntityInfo D) :=
  match cx_entity ctx with
  | Some e => if bool_decide (ei_Entity e = EmptyString) then None else Some e
  | None => None
  end.

(** ** The simple handlers of [rpc/auth.go] *)

Definition errInvalidCredentials : goerror := EStatus Unauthenticated "invalid credentials".
Definition errCannotAuthEntity : goerror := EStatus Unauthenticated "cannot authenticate entity".

(** An [AuthHandler]: entity and payload to metadata. *)
Abbreviation AuthHandler := (string -> string -> gmap string string + goerror)%type.

(** [MakeEntitiesChecker]: some of the entities is one of the given ones. *)
Definition MakeEntitiesChecker (forEntities entities : list string) : option goerror :=
  if existsb (fun recv => existsb (fun check => bool_decide (recv = check)) forEntities) entities
  then None else Some errCannotAuthEntity.

(** [MakeSimpleMultiAuthHandler]; [None]: making the handler panics. *)
Definition MakeSimpleMultiAuthHandler (forEntities expectedPayloads : list string) : option AuthHandler :=
  match expectedPayloads with
  | [] => None
  | _ =>
      Some (fun entity payload =>
        match MakeEntitiesChecker forEntities [entity] with
        | Some err => inr (if errors_Is err errCannotAuthEntity then errInvalidCredentials else err)
        | None =>
            if existsb (fun expected => bool_decide (payload = expected)) expectedPayloads
            then inl ∅ else inr errInvalidCredentials
        end)
  end.

(** [MakeSimpleAuthHandler]. *)
Definition MakeSimpleAuthHandler (forEntities : list string) (expectedPayload : string)
    : option AuthHandler :=
  MakeSimpleMultiAuthHandler forEntities [expectedPayload].

(** [MakeSimpleMultiAuthPairHandler]. *)
Definition MakeSimpleMultiAuthPairHandler (expectedPayloads : gmap string string) : option AuthHandler :=
  if bool_decide (size expectedPayloads = 0) then None
  else
    Some (fun entity payload =>
      match expectedPayloads !! entity with
      | None => inr errInvalidCredentials
      | Some expected => if bool_decide (expected = payload) then inl ∅ else inr errInvalidCredentials
      end).

Section Server.
Context {Key PrivKey D : Type} `{Jwt Key PrivKey} `{Multierr goerror} `{GrpcStatus}.

(** [MakeRSAPublicKeyProvider] and [MakeEd25519PublicKeyProvider]: the key for
    tokens of the right family of signing methods. *)
Definition MakePublicKeyProvider (family : string -> bool) (quote : string -> string) (pubKey : Key)
    (t : parsedToken) : Key + goerror :=
  if family (pt_method t) then inl pubKey
  else inr (ENew ("unexpected signing method " +:+ quote (pt_method t))%string).

(** [oidcKeyProvider.TokenVerificationKey]; [lookupKey] is the key provider. *)
Definition oidc_TokenVerificationKey (lookupKey : string -> string -> Key + goerror) (t : parsedToken)
    : Key + goerror :=
  match pt_kid t with
  | None => inr (ENew "kid header not in token header")
  | Some kid => lookupKey kid (pt_method t)
  end.

(** ** The server *)

(** [credAuthHandlers]. *)
Record credAuthHandlers := mkHandlers {
  ah_AuthHandler : option AuthHandler;
  ah_EntityDataLoader : option (JWTClaims -> D + goerror);
  ah_TokenVerificationKeyProvider : option (parsedToken -> Key + goerror);
}.

(** An entry of authKeys; [None]: the invariant that it has a method is broken. *)
Record authKeyData := mkKeyData { kd_method : option string; kd_publicKey : Key }.

(** The parts of [simpleServer] that authentication uses. *)
Record simpleServer := mkSimpleServer {
  ss_authHandlersForCreds : gmap string credAuthHandlers;
  ss_authAudience : list string;
  ss_authIssuer : string;
  ss_authKeys : gmap string authKeyData;
  ss_signingKeyID : string;           (* authKeyForJWTSigning *)
  ss_signingMethod : string;
  ss_signingKey : PrivKey;
  ss_exemptMethods : gset string;
  ss_publicMethods : gset string;
  ss_tlsAuthHandler : option (list string -> option goerror);
  ss_authToHandler : string -> gmap string string + goerror;
  ss_ensureAuthedHandler : option (callCtx D -> callCtx D + goerror);
}.

Context (ss : simpleServer) (quote : string -> string).

(** [authHandlers]. *)
Definition authHandlers (forType : string) : credAuthHandlers + goerror :=
  match ss_authHandlersForCreds ss !! forType with
  | None => inr (EStatus InvalidArgument
                   ("do not know how to handle credential type " +:+ quote forType)%string)
  | Some h => inl h
  end.

(** ** Issuing tokens *)

(** [signAccessTokenForEntity]; [now] and [uuid] are the time and the random
    identifier. *)
Definition signAccessTokenForEntity (now : Z) (uuid forType : string) (audience : list string)
    (entity : string) (authMD : gmap string string) : string + goerror :=
  match SignedString (ss_signingMethod ss) (ss_signingKeyID ss)
          (mkClaims entity audience (ss_authIssuer ss) now uuid forType authMD) (ss_signingKey ss) with
  | inl t => inl t
  | inr _ => inr (EStatus PermissionDenied "failed to authenticate")
  end.

Definition MetadataFieldAuthorization : string := "authorization".
Definition AuthorizationValuePrefixBearer : string := "Bearer ".

(** [metadata.MD.Get]; the keys of incoming metadata are lower case. *)
Definition md_Get (md : gmap string (list string)) (k : string) : list string := default [] (md !! k).

(** The [Credentials] of a request: type and payload. *)
Definition Authenticate (now : Z) (uuid : string) (ctx : callCtx D) (entity : string)
    (credentials : option (string * string)) : string + goerror :=
  match cx_md ctx with
  | None => inr (ENew "expected metadata")
  | Some md =>
      match md_Get md MetadataFieldAuthorization with
      | _ :: _ => inr (EStatus InvalidArgument "already authenticated; cannot re-authenticate")
      | [] =>
          match credentials with
          | None => inr (EStatus InvalidArgument "credentials required")
          | Some (forType, payload) =>
              match authHandlers forType with
              | inr e => inr e
              | inl handlers =>
                  match ah_AuthHandler handlers with
                  | None => inr (EStatus Unimplemented
                                   ("direct authentication not supported for " +:+ quote forType)%string)
                  | Some h =>
                      match h entity payload with
                      | inr err =>
                          if snd (status_FromError (Some err)) then inr err
                          else inr (EStatus PermissionDenied
                                      ("failed to authenticate: " +:+ Error err)%string)
                      | inl authMD =>
                          signAccessTokenForEntity now uuid forType (ss_authAudience ss) entity authMD
                      end
                  end
              end
          end
      end
  end.

(** [AuthenticateTo]. *)
Definition CredentialsTypeExternal : string := "external".

Definition AuthenticateTo (now : Z) (uuid : string) (ctx : callCtx D) (toEntity : string)
    : string + goerror :=
  match ContextAuthEntity ctx with
  | None => inr (EStatus Internal "entity should be available")
  | Some entity =>
      match ss_authToHandler ss toEntity with
      | inr e => inr e
      | inl authMD =>
          signAccessTokenForEntity now uuid CredentialsTypeExternal [toEntity] (ei_Entity entity) authMD
      end
  end.

(** ** Accepting calls *)

(** [tokenFromContext]. *)
Definition tokenFromContext (ctx : callCtx D) : string + goerror :=
  match cx_md ctx with
  | None => inr (EStatus Unauthenticated "authentication required")
  | Some md =>
      match md_Get md MetadataFieldAuthorization with
      | [h] =>
          if String.prefix AuthorizationValuePrefixBearer h
          then inl (String.substring (String.length AuthorizationValuePrefixBearer)
                      (String.length h - String.length AuthorizationValuePrefixBearer) h)
          else inr (EStatus Unauthenticated
                      ("expected authorization header with prefix: " +:+ AuthorizationValuePrefixBearer)%string)
      | _ => inr (EStatus Unauthenticated "authentication required")
      end
  end.

Definition validSigningMethods : list string :=
  ["ES256"; "ES512"; "HS512"; "PS256"; "RS512"; "PS384"; "PS512"; "RS384"; "ES384"; "EdDSA";
   "HS256"; "HS384"; "RS256"]%string.

(** The key function of [ensureAuthed]: the handlers of the token's credentials
    type and the key to verify the token with. *)
Definition verification_key (t : parsedToken) : (credAuthHandlers * Key) + goerror :=
  match authHandlers (cl_AuthCredentialsType (pt_claims t)) with
  | inr e => inr e
  | inl handlers =>
      match ah_TokenVerificationKeyProvider handlers with
      | Some provider =>
          match provider t with
          | inl k => inl (handlers, k)
          | inr e => inr e
          end
      | None =>
          match pt_kid t with
          | None => inr (ENew "kid header not in token header")
          | Some keyID =>
              match ss_authKeys ss !! keyID with
              | None => inr (ENew ("this server did not sign this JWT with kid " +:+ quote keyID)%string)
              | Some keyData =>
                  match kd_method keyData with
                  | None => inr (ENew "internal server error")
                  | Some m =>
                      if bool_decide (pt_method t = m) then inl (handlers, kd_publicKey keyData)
                      else inr (ENew ("unexpected signing method " +:+ quote (pt_method t))%string)
                  end
              end
          end
      end
  end.

(** The parsing of the token: its claims, and the handlers that the key
    function left behind. *)
Definition parse_token (tokenString : string) : (credAuthHandlers * JWTClaims) + goerror :=
  match ParseWithClaims validSigningMethods
          (fun t => match verification_key t with inl (_, k) => inl k | inr e => inr e end)
          tokenString with
  | inr e => inr e
  | inl t =>
      match verification_key t with
      | inl (handlers, _) => inl (handlers, pt_claims t)
      | inr e => inr e
      end
  end.

(** The fall-back of [ensureAuthed] when there is no token. *)
Definition tls_authed (err : goerror) (ctx : callCtx D) : callCtx D + goerror :=
  match ss_tlsAuthHandler ss, cx_cert ctx with
  | None, _ | Some _, None => inr err
  | Some h, Some cert =>
      match h (ct_DNSNames cert) with
      | None =>
          inl (ContextWithAuthEntity
                 (mkEntityInfo (ct_Issuer cert +:+ ":" +:+ ct_SerialNumber cert)%string None) ctx)
      | Some tlsErr =>
          if negb (errors_Is tlsErr errNotTLSAuthed)
          then inr (default err (multierr_Combine [err; tlsErr]))
          else inr err
      end
  end.

(** [ensureAuthed]. The audience is unmarshalled from no bytes at all, which is
    always an error. *)
Definition unauthenticated (e : goerror) : goerror :=
  EStatus Unauthenticated ("unauthenticated: " +:+ Error e)%string.

Definition ensureAuthed (ctx : callCtx D) : callCtx D + goerror :=
  match ss_ensureAuthedHandler ss with
  | Some h => h ctx
  | None =>
      match tokenFromContext ctx with
      | inr err => tls_authed err ctx
      | inl tokenString =>
          match parse_token tokenString with
          | inr err => inr (unauthenticated err)
          | inl (handlers, claims) =>
              if negb (existsb (VerifyAudience claims) (ss_authAudience ss))
              then inr (EStatus Unauthenticated "invalid audience")
              else
                match claims_Valid claims with
                | Some err => inr (unauthenticated err)
                | None =>
                    if bool_decide (cl_Subject claims = EmptyString)
                    then inr (EStatus Unauthenticated "expected entity (sub) in claims")
                    else
                      match ah_EntityDataLoader handlers with
                      | None => inl (ContextWithAuthEntity (mkEntityInfo (cl_Subject claims) None) ctx)
                      | Some load =>
                          match load claims with
                          | inl data =>
                              inl (ContextWithAuthEntity (mkEntityInfo (cl_Subject claims) (Some data)) ctx)
                          | inr err =>
                              if snd (status_FromError (Some err)) then inr err
                              else inr (EStatus Internal ("failed to load entity data: " +:+ Error err)%string)
                          end
                      end
                end
          end
      end
  end.

(** [tryAuth]. *)
Definition tryAuth (ctx : callCtx D) : callCtx D + goerror :=
  match ensureAuthed ctx with
  | inr err =>
      if bool_decide (status_Code (fst (status_FromError (Some err))) = Unauthenticated)
      then inl ctx else inr err
  | inl nextCtx => inl nextCtx
  end.

(** [authUnaryInterceptor], up to the call of the handler: the context that
    the handler is called with, or the error of the call. *)
Definition authUnaryInterceptor (fullMethod : string) (ctx : callCtx D) : callCtx D + goerror :=
  if bool_decide (fullMethod ∈ ss_exemptMethods ss) then inl ctx
  else if bool_decide (fullMethod ∈ ss_publicMethods ss) then tryAuth ctx
  else ensureAuthed ctx.

(** What a stream handler gets as the service implementation: the server's, or
    a context in its place. *)
Inductive srvArgument := SrvImplementation | SrvContext (ctx : callCtx D).

(** [authStreamInterceptor], up to the call of the handler. *)
Definition authStreamInterceptor (fullMethod : string) (ctx : callCtx D)
    : (srvArgument * callCtx D) + goerror :=
  if bool_decide (fullMethod ∈ ss_exemptMethods ss) then inl (SrvImplementation, ctx)
  else if bool_decide (fullMethod ∈ ss_publicMethods ss) then
    match tryAuth ctx with
    | inr e => inr e
    | inl nextCtx => inl (SrvContext nextCtx, nextCtx)
    end
  else
    match ensureAuthed ctx with
    | inr e => inr e
    | inl nextCtx => inl (SrvImplementation, nextCtx)
    end.

(** ** What an authenticated call has shown *)

(** A token that the server accepts: it is signed with the key of its
    identifier or of the provider for its type, is meant for the server, is
    valid and names an entity. *)
Record accepted (tokenString : string) (t : parsedToken) : Prop := {
  ac_method : pt_method t ∈ validSigningMethods;
  ac_key : exists handlers key, authHandlers (cl_AuthCredentialsType (pt_claims t)) = inl handlers /\
    verification_key t = inl (handlers, key) /\ GoodSignature tokenString t key;
  ac_audience : exists aud, aud ∈ ss_authAudience ss /\ aud ∈ cl_Audience (pt_claims t);
  ac_valid : claims_Valid (pt_claims t) = None;
  ac_entity : cl_Subject (pt_claims t) <> EmptyString;
}.

(** How a call shows who calls: with a token, or without one by a certificate. *)
Definition shows_entity (ctx : callCtx D) (entity : string) : Prop :=
  (exists tokenString t, tokenFromContext ctx = inl tokenString /\ accepted tokenString t /\
     entity = cl_Subject (pt_claims t)) \/
  (exists err h cert, tokenFromContext ctx = inr err /\ ss_tlsAuthHandler ss = Some h /\
     cx_cert ctx = Some cert /\ h (ct_DNSNames cert) = None /\
     entity = (ct_Issuer cert +:+ ":" +:+ ct_SerialNumber cert)%string).

Lemma verification_key_handlers t handlers key :
  verification_key t = inl (handlers, key) ->
  authHandlers (cl_AuthCredentialsType (pt_claims t)) = inl handlers.
Proof.
  unfold verification_key. destruct (authHandlers _) as [h|e]; [|done].
  destruct (ah_TokenVerificationKeyProvider h) as [p|]; [destruct (p t)|]; repeat case_match; congruence.
Qed.

Lemma parse_token_spec `{!JwtLaws Key PrivKey} tokenString handlers claims :
  parse_token tokenString = inl (handlers, claims) ->
  exists t key, claims = pt_claims t /\ pt_method t ∈ validSigningMethods /\
    verification_key t = inl (handlers, key) /\ GoodSignature tokenString t key /\
    claims_Valid (pt_claims t) = None.
Proof.
  unfold parse_token. destruct (ParseWithClaims _ _ _) as [t|e] eqn:Hp; [|done].
  destruct (Parse_sound _ _ _ _ Hp) as (Hm & Hv & k & Hk & Hs).
  destruct (verification_key t) as [[h key]|e] eqn:Hkey; [|done]. intros [= <- <-].
  exists t, key. simplify_eq. auto.
Qed.

Lemma ensureAuthed_spec `{!JwtLaws Key PrivKey} ctx ctx' :
  ss_ensureAuthedHandler ss = None -> ensureAuthed ctx = inl ctx' ->
  exists e, ctx' = ContextWithAuthEntity e ctx /\ shows_entity ctx (ei_Entity e).
Proof.
  intros Hh. unfold ensureAuthed, shows_entity. rewrite Hh.
  destruct (tokenFromContext ctx) as [tok|err] eqn:Ht.
  - destruct (parse_token tok) as [[handlers claims]|e] eqn:Hp; [|done].
    destruct (parse_token_spec _ _ _ Hp) as (t & key & -> & Hm & Hk & Hs & Hv).
    destruct (negb _) eqn:Ha; [done|]. apply negb_false_iff, existsb_exists in Ha as (aud & Hin & Hva).
    rewrite Hv. case_bool_decide as Hsub; [done|]. intros Hl.
    assert (Hacc : accepted tok t).
    { constructor; auto.
      - exists handlers, key. eauto using verification_key_handlers.
      - exists aud. split; [by apply list_elem_of_In | by apply Audience_sound]. }
    destruct (ah_EntityDataLoader handlers) as [load|];
      [destruct (load _) as [data|e]; [|by destruct (snd _)]|];
      simplify_eq; eexists; (split; [done|]); left; eauto 10.
  - unfold tls_authed. destruct (ss_tlsAuthHandler ss) as [h|]; [|by destruct (cx_cert ctx)].
    destruct (cx_cert ctx) as [cert|]; [|done]. destruct (h _) as [e|] eqn:He.
    + by destruct (negb _).
    + intros [= <-]. eexists. split; [done|]. right. eauto 10.
Qed.

(** *** The gate *)

(** What a call has shown that the interceptor lets through. *)
Lemma authUnaryInterceptor_spec `{!JwtLaws Key PrivKey} fullMethod ctx ctx' :
  ss_ensureAuthedHandler ss = None -> fullMethod ∉ ss_exemptMethods ss ->
  authUnaryInterceptor fullMethod ctx = inl ctx' ->
  (exists e, ctx' = ContextWithAuthEntity e ctx /\ shows_entity ctx (ei_Entity e)) \/
  (fullMethod ∈ ss_publicMethods ss /\ ctx' = ctx /\
   exists err, ensureAuthed ctx = inr err /\ status_Code (fst (status_FromError (Some err))) = Unauthenticated).
Proof.
  intros Hh Hex. unfold authUnaryInterceptor, tryAuth. rewrite (bool_decide_eq_false_2 _ Hex).
  case_bool_decide as Hpub; destruct (ensureAuthed ctx) as [c|err] eqn:He; try done.
  - intros [= <-]. left. by apply ensureAuthed_spec.
  - case_bool_decide as Hc; [|done]. intros [= <-]. right. eauto.
  - intros [= <-]. left. by apply ensureAuthed_spec.
Qed.


(** The handler of a stream gets the server's implementation of the service
    exactly when its method is not public: a public one gets a context in its
    place, whoever calls it. *)
Theorem public_stream_gets_context fullMethod ctx srv ctx' :
  authStreamInterceptor fullMethod ctx = inl (srv, ctx') ->
  (srv = SrvImplementation <->
   fullMethod ∈ ss_exemptMethods ss \/ fullMethod ∉ ss_publicMethods ss) /\
  (srv = SrvImplementation \/ srv = SrvContext ctx').
Proof.
  unfold authStreamInterceptor. case_bool_decide; [intros [= <- <-]; by tauto|]. case_bool_decide.
  - destruct (tryAuth ctx); [|done]. intros [= <- <-]. split; [split; [done|tauto] | by right].
  - destruct (ensureAuthed ctx); [|done]. intros [= <- <-]. tauto.
Qed.

(** *** Tokens *)

Lemma str_length_app (a b : string) :
  String.length (a +:+ b)%string = String.length a + String.length b.
Proof. induction a as [|c a IH]; [done|]. rewrite str_app_cons. cbn. by rewrite IH. Qed.

Lemma str_prefix_app (a b : string) : String.prefix a (a +:+ b)%string = true.
Proof. induction a as [|c a IH]; [by destruct b|]. rewrite str_app_cons. cbn.
  by destruct (Ascii.ascii_dec c c). Qed.

Lemma str_substring_all (b : string) : String.substring 0 (String.length b) b = b.
Proof. induction b as [|c b IH]; [done|]. cbn. by rewrite IH. Qed.

Lemma str_substring_app (a b : string) :
  String.substring (String.length a) (String.length b) (a +:+ b)%string = b.
Proof. induction a as [|c a IH]; [apply str_substring_all|]. by rewrite str_app_cons. Qed.

(** A token after the bearer prefix is read back. *)
Lemma tokenFromContext_bearer ctx md tok :
  cx_md ctx = Some md ->
  md !! MetadataFieldAuthorization = Some [(AuthorizationValuePrefixBearer +:+ tok)%string] ->
  tokenFromContext ctx = inl tok.
Proof.
  intros Hmd Hk. unfold tokenFromContext, md_Get. rewrite Hmd, Hk. cbn [default].
  cbv beta iota delta [default id].
  rewrite str_prefix_app, str_length_app.
  replace (_ + _ - _) with (String.length tok) by lia. by rewrite str_substring_app.
Qed.

(** What [Authenticate] has checked when it issues a token. *)
Lemma Authenticate_spec now uuid ctx entity credentials tok :
  Authenticate now uuid ctx entity credentials = inl tok ->
  exists forType payload handlers h authMD,
    credentials = Some (forType, payload) /\ authHandlers forType = inl handlers /\
    ah_AuthHandler handlers = Some h /\ h entity payload = inl authMD /\
    SignedString (ss_signingMethod ss) (ss_signingKeyID ss)
      (mkClaims entity (ss_authAudience ss) (ss_authIssuer ss) now uuid forType authMD)
      (ss_signingKey ss) = inl tok.
Proof.
  unfold Authenticate, signAccessTokenForEntity. destruct (cx_md ctx) as [md|]; [|done].
  destruct (md_Get _ _); [|done]. destruct credentials as [[forType payload]|]; [|done].
  destruct (authHandlers forType) as [handlers|] eqn:Hh; [|done].
  destruct (ah_AuthHandler handlers) as [h|] eqn:Ha; [|done].
  destruct (h entity payload) as [authMD|e] eqn:He; [|by destruct (snd _)].
  destruct (SignedString _ _ _ _) as [t|e] eqn:Hs; [|done]. intros [= <-]. eauto 12.
Qed.

(** A token that was issued is accepted. *)
Lemma token_authenticates `{!JwtLaws Key PrivKey}
    now uuid ctx entity forType payload tok handlers ctx2 md :
  Authenticate now uuid ctx entity (Some (forType, payload)) = inl tok ->
  entity <> EmptyString ->
  ss_ensureAuthedHandler ss = None ->
  ss_authHandlersForCreds ss !! forType = Some handlers ->
  ah_TokenVerificationKeyProvider handlers = None -> ah_EntityDataLoader handlers = None ->
  ss_authKeys ss !! ss_signingKeyID ss =
    Some (mkKeyData (Some (ss_signingMethod ss)) (public_of (ss_signingKey ss))) ->
  ss_signingMethod ss ∈ validSigningMethods ->
  (exists aud, aud ∈ ss_authAudience ss /\ aud <> EmptyString) ->
  (forall c, cl_IssuedAt c = now -> claims_Valid c = None) ->
  cx_md ctx2 = Some md ->
  md !! MetadataFieldAuthorization = Some [(AuthorizationValuePrefixBearer +:+ tok)%string] ->
  ensureAuthed ctx2 = inl (ContextWithAuthEntity (mkEntityInfo entity None) ctx2).
Proof.
  intros Hauth Hne Hen Hhs Hprov Hload Hkey Hmeth (aud & Haud & Haudne) Hvalid Hmd Hbearer.
  destruct (Authenticate_spec _ _ _ _ _ _ Hauth) as (ft & pl & hs & h & authMD & [= <- <-] & _ & _ & _ & Hs).
  set (c := mkClaims entity _ _ _ _ _ _) in Hs.
  assert (Hk : verification_key (mkParsed (Some (ss_signingKeyID ss)) (ss_signingMethod ss) c)
               = inl (handlers, public_of (ss_signingKey ss))).
  { unfold verification_key, authHandlers. cbn. rewrite Hhs, Hprov, Hkey. cbn.
    by rewrite bool_decide_eq_true_2. }
  unfold ensureAuthed. rewrite Hen, (tokenFromContext_bearer _ _ _ Hmd Hbearer). unfold parse_token.
  rewrite (Parse_complete _ _ _ _ _ _ _ Hs Hmeth (Hvalid c eq_refl)) by (by rewrite Hk).
  rewrite Hk. cbn [pt_claims].
  replace (existsb (VerifyAudience c) (ss_authAudience ss)) with true; cbn [negb].
  - rewrite (Hvalid c eq_refl), bool_decide_eq_false_2 by done. by rewrite Hload.
  - symmetry. apply existsb_exists. exists aud.
    split; [by apply list_elem_of_In | by apply Audience_complete].
Qed.

(** C13: The token that [Authenticate] issues for accepted credentials, sent back
    as a bearer token, authenticates the entity it was issued for: the server
    finds its own key by the identifier it signed with, and accepts the
    audience it issued the token for. *)
Theorem issued_token_authenticates `{!JwtLaws Key PrivKey}
    now uuid ctx entity forType payload tok handlers ctx2 md :
  Authenticate now uuid ctx entity (Some (forType, payload)) = inl tok ->
  entity <> EmptyString ->
  ss_ensureAuthedHandler ss = None ->
  ss_authHandlersForCreds ss !! forType = Some handlers ->
  ah_TokenVerificationKeyProvider handlers = None -> ah_EntityDataLoader handlers = None ->
  ss_authKeys ss !! ss_signingKeyID ss =
    Some (mkKeyData (Some (ss_signingMethod ss)) (public_of (ss_signingKey ss))) ->
  ss_signingMethod ss ∈ validSigningMethods ->
  (exists aud, aud ∈ ss_authAudience ss /\ aud <> EmptyString) ->
  (forall c, cl_IssuedAt c = now -> claims_Valid c = None) ->
  cx_md ctx2 = Some md ->
  md !! MetadataFieldAuthorization = Some [(AuthorizationValuePrefixBearer +:+ tok)%string] ->
  ensureAuthed ctx2 = inl (ContextWithAuthEntity (mkEntityInfo entity None) ctx2).
Proof. apply token_authenticates. Qed.
End Server.

(** *** The simple handlers *)

(** The checker accepts when it is given one of its entities. *)
Lemma MakeEntitiesChecker_one forEntities entity :
  MakeEntitiesChecker forEntities [entity] = None <-> entity ∈ forEntities.
Proof.
  unfold MakeEntitiesChecker. cbn [existsb]. rewrite orb_false_r.
  destruct (existsb _ forEntities) eqn:He.
  - apply existsb_exists in He as (x & Hin & Hx). apply bool_decide_eq_true in Hx. subst.
    by rewrite list_elem_of_In.
  - split; [done|]. intros Hin. exfalso. apply not_true_iff_false in He. apply He.
    apply existsb_exists. exists entity. split; [by apply list_elem_of_In | by apply bool_decide_eq_true].
Qed.

(** The simple handlers accept exactly the credentials they were made for and
    give every other caller the same error: a handler for entities and payloads
    accepts one of the entities with one of the payloads, a handler for pairs an
    entity with its own payload. Making one without any payload panics. *)
Theorem simple_handlers_accept_exactly forEntities payloads pairs :
  (match MakeSimpleMultiAuthHandler forEntities payloads with
   | None => payloads = []
   | Some h => forall entity payload,
       h entity payload =
       if decide (entity ∈ forEntities /\ payload ∈ payloads) then inl ∅ else inr errInvalidCredentials
   end) /\
  (match MakeSimpleMultiAuthPairHandler pairs with
   | None => pairs = ∅
   | Some h => forall entity payload,
       h entity payload =
       if decide (pairs !! entity = Some payload) then inl ∅ else inr errInvalidCredentials
   end).
Proof.
  split.
  - unfold MakeSimpleMultiAuthHandler. destruct payloads as [|p0 ps]; [done|]. intros entity payload.
    destruct (MakeEntitiesChecker _ _) as [e|] eqn:Hc.
    + rewrite decide_False.
      2: { intros [Hin _]. apply MakeEntitiesChecker_one in Hin. congruence. }
      assert (e = errCannotAuthEntity) as ->.
      { unfold MakeEntitiesChecker in Hc. destruct (existsb _ _); congruence. }
      done.
    + apply MakeEntitiesChecker_one in Hc. destruct (existsb _ (p0 :: ps)) eqn:He.
      * apply existsb_exists in He as (x & Hx & ->%bool_decide_eq_true).
        rewrite decide_True; [done|]. split; [done | by apply list_elem_of_In].
      * rewrite decide_False; [done|]. intros [_ Hin]. apply not_true_iff_false in He. apply He.
        apply existsb_exists. exists payload.
        split; [by apply list_elem_of_In | by apply bool_decide_eq_true].
  - unfold MakeSimpleMultiAuthPairHandler. case_bool_decide as Hs; [by apply map_size_empty_inv|].
    intros entity payload. destruct (pairs !! entity) as [p|] eqn:Hl.
    + case_bool_decide; case_decide; congruence.
    + by rewrite decide_False.
Qed.

(** ** Concrete inputs

    A JWT library that signs and knows one token only, and a server that a
    robot logs in to with its password. *)
Module OneToken.
Definition claims0 : JWTClaims := mkClaims "robot" ["here"%string] "here" 7 "id" "robot-secret" ∅.
Definition parsed0 : parsedToken := mkParsed (Some "key1"%string) "EdDSA" claims0.

#[export] Instance claims_eq_dec : EqDecision JWTClaims.
Proof. solve_decision. Defined.

#[export] Instance jwt : Jwt nat nat := {|
  SignedString method kid c priv :=
    if bool_decide (method = "EdDSA"%string /\ kid = "key1"%string /\ c = claims0 /\ priv = 3)
    then inl "tok"%string else inr (ENew "cannot sign");
  ParseWithClaims valid kf s :=
    if bool_decide (s = "tok"%string /\ "EdDSA"%string ∈ valid) then
      match kf parsed0 with
      | inl k => if bool_decide (k = 4) then inl parsed0 else inr (ENew "bad signature")
      | inr e => inr e
      end
    else inr (ENew "malformed");
  VerifyAudience c aud := bool_decide (aud ∈ cl_Audience c);
  claims_Valid c := if (cl_IssuedAt c <? 10)%Z then None else Some (ENew "used before issued");
  public_of priv := priv + 1;
  GoodSignature s t k := s = "tok"%string /\ t = parsed0 /\ k = 4;
|}.

#[export] Instance jwt_laws : JwtLaws nat nat.
Proof.
  split.
  - intros valid kf s t. cbn. case_bool_decide as Hs; [|done]. destruct (kf parsed0) as [k|] eqn:Hk; [|done].
    case_bool_decide; [|done]. intros [= <-]. cbn. naive_solver.
  - intros valid kf method kid c priv s. cbn. case_bool_decide as Hs; [|done].
    destruct Hs as (-> & -> & -> & ->). intros [= <-] Hv _. fold parsed0. intros Hkf.
    rewrite bool_decide_eq_true_2 by done. by rewrite Hkf.
  - intros c aud. cbn. apply bool_decide_eq_true_1.
  - intros c aud. cbn. intros ??. by apply bool_decide_eq_true_2.
Qed.

Definition login (entity payload : string) : gmap string string + goerror :=
  if bool_decide (entity = "robot"%string /\ payload = "secret"%string) then inl ∅
  else inr errInvalidCredentials.

Definition handlers0 : credAuthHandlers (Key:=nat) (D:=nat) := mkHandlers (Some login) None None.

Definition server : simpleServer (Key:=nat) (PrivKey:=nat) (D:=nat) :=
  mkSimpleServer {[ "robot-secret"%string := handlers0 ]} ["here"%string] "here"
    {[ "key1"%string := mkKeyData (Some "EdDSA"%string) 4 ]} "key1" "EdDSA" 3
    {[ "/auth"%string ]} {[ "/public"%string ]} None (fun _ => inr (ENew "no")) None.

Definition ctx_login : callCtx nat := mkCtx (Some ∅) None None.
Definition md_token : gmap string (list string) := {[ "authorization"%string := ["Bearer tok"%string] ]}.
Definition ctx_token : callCtx nat := mkCtx (Some md_token) None None.
End OneToken.

Section Witnesses.
Import SimpleErrors OneToken.


Lemma public_stream_gets_context_witness :
  exists srv ctx', authStreamInterceptor server id "/public" ctx_token = inl (srv, ctx') /\
    srv = SrvContext ctx'.
Proof.
  set (ctx' := ContextWithAuthEntity (mkEntityInfo "robot" None) ctx_token).
  assert (Hs : authStreamInterceptor server id "/public" ctx_token = inl (SrvContext ctx', ctx'))
    by (vm_compute; reflexivity).
  destruct (public_stream_gets_context server id "/public" ctx_token _ _ Hs) as (_ & [H|H]); [done|].
  exists (SrvContext ctx'), ctx'. auto.
Defined.

Lemma issued_token_authenticates_witness :
  exists tok, Authenticate server id 7 "id" ctx_login "robot" (Some ("robot-secret", "secret")%string) = inl tok /\
    ensureAuthed server id ctx_token = inl (ContextWithAuthEntity (mkEntityInfo "robot" None) ctx_token).
Proof.
  exists "tok"%string. split; [vm_compute; reflexivity|].
  apply (issued_token_authenticates server id 7 "id" ctx_login "robot" "robot-secret" "secret" "tok" handlers0
           ctx_token md_token); try (vm_compute; reflexivity); try done.
  - cbn. set_solver.
  - exists "here"%string. split; [cbn; set_solver | done].
  - intros c Hc. cbn. by rewrite Hc.
Defined.
End Witnesses.
