(* ===== verification/ClientAuth.v ===== *)
(** * Credentials of the client: [perRPCJWTCredentials] and
      [staticPerRPCJWTCredentials] of [rpc/dialer.go], and
      [UnaryClientInvalidAuthInterceptor] of [rpc/client_interceptors.go]

    Every call of a connection asks for its metadata; the first one that finds
    no access token authenticates, with the lock held, while the others wait.
    [authenticate_step] runs one goroutine up to its next wait, for the lock or
    for the answer of the authentication service; [cstep] interleaves the calls
    of a connection. A call whose answer says that it was not authenticated
    clears the token, without the lock.

    The answers of the authentication service are chosen by the step. *)

From S2P Require Import Prelude GoError BaseStream Dialer Dial.

(** ** Data *)

(** A request to the authentication service, and to the external one with the
    bearer token of its metadata. *)
Inductive authRequest :=
  | ReqAuthenticate (entity : string) (c : Credentials)
  | ReqAuthenticateTo (bearer toEntity : string).

Record perRPCJWTCredentials := mkRPCCreds {
  pc_entity : string;
  pc_externalAuthToEntity : string;
  pc_creds : Credentials;
  pc_accessToken : string;
  pc_externalAuthMaterial : string;
  pc_locked : bool;                (* the write side of mu *)
}.

Definition pc_set_accessToken v p := mkRPCCreds (pc_entity p) (pc_externalAuthToEntity p) (pc_creds p)
  v (pc_externalAuthMaterial p) (pc_locked p).
Definition pc_set_locked v p := mkRPCCreds (pc_entity p) (pc_externalAuthToEntity p) (pc_creds p)
  (pc_accessToken p) (pc_externalAuthMaterial p) v.

(** ** GetRequestMetadata *)

(** strings.HasSuffix. *)
Definition HasSuffix (s suffix : string) : bool :=
  bool_decide (String.length suffix <= String.length s) &&
  bool_decide (String.substring (String.length s - String.length suffix) (String.length suffix) s = suffix).

(** The calls of the authentication service itself carry no token. *)
Definition skips_auth (uris : list string) : bool :=
  existsb (fun uri => HasSuffix uri "/proto.rpc.v1.AuthService") uris.

(** [staticPerRPCJWTCredentials.GetRequestMetadata]: the value of the
    authorization header. *)
Definition static_GetRequestMetadata (authMaterial : string) (uris : list string) : option string :=
  if skips_auth uris then None else Some ("Bearer " +:+ authMaterial)%string.

(** Where a call is: in GetRequestMetadata, or with the metadata it got. *)
Inductive callpc :=
  | CStart (uris : list string)
  | CWantLock                      (* no token under the read lock *)
  | CHeld                          (* has the lock *)
  | CAwait (r : authRequest)       (* has the lock and waits for the answer *)
  | CMetadata (token : option string)
  | CFailed (e : goerror).

(** The part of [authenticate] after the first token. *)
Definition after_token (tok : string) (p : perRPCJWTCredentials) : callpc * perRPCJWTCredentials :=
  if bool_decide (pc_externalAuthToEntity p = EmptyString)
  then (CMetadata (Some tok), pc_set_locked false (pc_set_accessToken tok p))
  else (CAwait (ReqAuthenticateTo tok (pc_externalAuthToEntity p)), p).

(** [GetRequestMetadata] and [authenticate], up to the next wait. [None]: the
    goroutine cannot go on. *)
Definition authenticate_step (t : callpc) (answer : string + goerror) (p : perRPCJWTCredentials)
    : option (callpc * perRPCJWTCredentials) :=
  match t with
  | CStart uris =>
      if skips_auth uris then Some (CMetadata None, p)
      else if pc_locked p then None
      else if bool_decide (pc_accessToken p = EmptyString) then Some (CWantLock, p)
      else Some (CMetadata (Some (pc_accessToken p)), p)
  | CWantLock => if pc_locked p then None else Some (CHeld, pc_set_locked true p)
  | CHeld =>
      if bool_decide (pc_accessToken p = EmptyString) then
        if bool_decide (pc_externalAuthMaterial p = EmptyString)
        then Some (CAwait (ReqAuthenticate (pc_entity p) (pc_creds p)), p)
        else Some (after_token (pc_externalAuthMaterial p) p)
      else Some (CMetadata (Some (pc_accessToken p)), pc_set_locked false p)
  | CAwait r =>
      match answer, r with
      | inr e, _ => Some (CFailed e, pc_set_locked false p)
      | inl tok, ReqAuthenticate _ _ => Some (after_token tok p)
      | inl tok, ReqAuthenticateTo _ _ =>
          Some (CMetadata (Some tok), pc_set_locked false (pc_set_accessToken tok p))
      end
  | CMetadata _ | CFailed _ => None
  end.

(** [UnaryClientInvalidAuthInterceptor], after the call was invoked: the code
    of its error decides whether the token is cleared; in Go, [&&] binds
    tighter than [||]. *)
Definition UnaryClientInvalidAuthInterceptor (c : code) (creds : option perRPCJWTCredentials)
    : outcome (option perRPCJWTCredentials) :=
  if bool_decide (c = Unauthenticated)
     || (bool_decide (c = PermissionDenied) && bool_decide (creds <> None))
  then
    match creds with
    | None => Panics
    | Some p => Returns (Some (pc_set_accessToken EmptyString p))
    end
  else Returns creds.

(** ** Interleaving *)

Record authConc := mkAuthConc {
  ac_creds : perRPCJWTCredentials;
  ac_calls : list callpc;
  ac_log : list (authRequest * (string + goerror));   (* answered requests *)
}.

Inductive cstep : authConc -> authConc -> Prop :=
  | cs_call uris p ts log :
      cstep (mkAuthConc p ts log) (mkAuthConc p (ts ++ [CStart uris]) log)
  | cs_step t t' answer p p' l1 l2 log :
      authenticate_step t answer p = Some (t', p') ->
      cstep (mkAuthConc p (l1 ++ t :: l2) log)
        (mkAuthConc p' (l1 ++ t' :: l2) (match t with CAwait r => log ++ [(r, answer)] | _ => log end))
  | cs_end c md p p' l1 l2 log :     (* the call was invoked and answered *)
      UnaryClientInvalidAuthInterceptor c (Some p) = Returns (Some p') ->
      cstep (mkAuthConc p (l1 ++ CMetadata md :: l2) log) (mkAuthConc p' (l1 ++ l2) log).

(** The credentials as [dialDirectGRPC] makes them. *)
Definition new_creds (entity toEntity : string) (c : Credentials) (material : string)
    : perRPCJWTCredentials := mkRPCCreds entity toEntity c EmptyString material false.

Definition creachable (p0 : perRPCJWTCredentials) : authConc -> Prop :=
  reachable (fun s => s = mkAuthConc p0 [] []) cstep.

(** ** Which tokens may be sent *)

(** The token of the first step: issued for the credentials, or static. *)
Definition first_token (p : perRPCJWTCredentials) (log : list (authRequest * (string + goerror)))
    (tok : string) : Prop :=
  if decide (pc_externalAuthMaterial p = EmptyString)
  then (ReqAuthenticate (pc_entity p) (pc_creds p), inl tok) ∈ log
  else tok = pc_externalAuthMaterial p.

(** The token for calls: the first one, or the one that the external service
    gave for it. *)
Definition final_token (p : perRPCJWTCredentials) (log : list (authRequest * (string + goerror)))
    (tok : string) : Prop :=
  if decide (pc_externalAuthToEntity p = EmptyString) then first_token p log tok
  else exists b, first_token p log b /\
    (ReqAuthenticateTo b (pc_externalAuthToEntity p), inl tok) ∈ log.

(** A request is for the credentials and carries only a first token. *)
Definition request_ok p log (r : authRequest) : Prop :=
  match r with
  | ReqAuthenticate e c => e = pc_entity p /\ c = pc_creds p /\ pc_externalAuthMaterial p = EmptyString
  | ReqAuthenticateTo b e => first_token p log b /\ e = pc_externalAuthToEntity p /\ e <> EmptyString
  end.

Definition call_ok p log (t : callpc) : Prop :=
  match t with
  | CAwait r => request_ok p log r
  | CMetadata (Some tok) => final_token p log tok
  | _ => True
  end.

(** A call that has the lock. *)
Definition has_lock (t : callpc) : bool :=
  match t with CHeld | CAwait _ => true | _ => false end.

Definition locks (ts : list callpc) : nat := length (List.filter has_lock ts).

Record cinv (s : authConc) : Prop := {
  ci_lock : locks (ac_calls s) = if pc_locked (ac_creds s) then 1 else 0;
  ci_token : pc_accessToken (ac_creds s) = EmptyString \/
             final_token (ac_creds s) (ac_log s) (pc_accessToken (ac_creds s));
  ci_calls : Forall (call_ok (ac_creds s) (ac_log s)) (ac_calls s);
}.

(** The part of the credentials that never changes. *)
Definition same_static (p p' : perRPCJWTCredentials) : Prop :=
  pc_entity p' = pc_entity p /\ pc_externalAuthToEntity p' = pc_externalAuthToEntity p /\
  pc_creds p' = pc_creds p /\ pc_externalAuthMaterial p' = pc_externalAuthMaterial p.

(** ** Lemmas *)

Lemma first_token_mono p p' log log' tok :
  same_static p p' -> log ⊆ log' -> first_token p log tok -> first_token p' log' tok.
Proof. unfold first_token. intros (-> & _ & -> & ->) Hl. case_decide; auto. Qed.

Lemma final_token_mono p p' log log' tok :
  same_static p p' -> log ⊆ log' -> final_token p log tok -> final_token p' log' tok.
Proof.
  intros Hs Hl. pose proof Hs as (_ & Ht & _ & _). unfold final_token. rewrite Ht.
  case_decide; [by apply first_token_mono|]. intros (b & Hb & Hin). exists b. eauto using first_token_mono.
Qed.

Lemma call_ok_mono p p' log log' t :
  same_static p p' -> log ⊆ log' -> call_ok p log t -> call_ok p' log' t.
Proof.
  intros Hs Hl. destruct t as [| | |[e c|b e]|[tok|]|]; simpl; try done.
  - destruct Hs as (-> & _ & -> & ->). done.
  - intros (Hb & He & Hne). pose proof Hs as (_ & -> & _ & _). eauto using first_token_mono.
  - by apply final_token_mono.
Qed.

Lemma same_static_refl p : same_static p p.
Proof. done. Qed.

Lemma same_static_trans p1 p2 p3 : same_static p1 p2 -> same_static p2 p3 -> same_static p1 p3.
Proof. unfold same_static. intuition congruence. Qed.

Lemma locks_app l1 l2 : locks (l1 ++ l2) = locks l1 + locks l2.
Proof. unfold locks. by rewrite List.filter_app, length_app. Qed.

Lemma locks_cons t l : locks (t :: l) = (if has_lock t then 1 else 0) + locks l.
Proof. unfold locks. cbn. by destruct (has_lock t). Qed.

(** What one goroutine does, for the invariant: *)
Record step_ok (t t' : callpc) (p p' : perRPCJWTCredentials) log' : Prop := {
  so_static : same_static p p';
  so_call : call_ok p' log' t';
  so_token : pc_accessToken p' = EmptyString \/ final_token p' log' (pc_accessToken p');
  so_lock : (if pc_locked p' then 1 else 0) + (if has_lock t then 1 else 0) =
            (if pc_locked p then 1 else 0) + (if has_lock t' then 1 else 0);
}.

(** The access token becomes the token [tok], and the lock is released. *)
Lemma store_token_ok t p log' tok :
  has_lock t = true -> pc_locked p = true -> final_token p log' tok ->
  step_ok t (CMetadata (Some tok)) p (pc_set_locked false (pc_set_accessToken tok p)) log'.
Proof. intros Ht Hl Hf. split; simpl; [done|done|by right|by rewrite Ht, Hl]. Qed.

Lemma after_token_ok t p log' tok t' p' :
  has_lock t = true -> pc_locked p = true -> first_token p log' tok ->
  pc_accessToken p = EmptyString \/ final_token p log' (pc_accessToken p) ->
  after_token tok p = (t', p') -> step_ok t t' p p' log'.
Proof.
  intros Ht Hl Hf Htok. unfold after_token. case_bool_decide as He; intros [= <- <-].
  - apply store_token_ok; [done..|]. unfold final_token. by rewrite decide_True.
  - split; simpl; [done|auto|done|by rewrite Ht].
Qed.

Definition log_after (t : callpc) (answer : string + goerror) log :=
  match t with CAwait r => log ++ [(r, answer)] | _ => log end.

Lemma log_after_incl t answer log : log ⊆ log_after t answer log.
Proof. destruct t; simpl; set_solver. Qed.

Lemma authenticate_step_ok t answer p t' p' log :
  authenticate_step t answer p = Some (t', p') ->
  call_ok p log t -> (has_lock t = true -> pc_locked p = true) ->
  pc_accessToken p = EmptyString \/ final_token p log (pc_accessToken p) ->
  step_ok t t' p p' (log_after t answer log).
Proof.
  intros Hs Hc Hl Htok.
  assert (Htok' : pc_accessToken p = EmptyString \/
                  final_token p (log_after t answer log) (pc_accessToken p)).
  { destruct Htok as [?|Hf]; [by left|right]. eapply final_token_mono, Hf; [done|apply log_after_incl]. }
  destruct t as [uris| | |r|md|e]; simpl in Hs, Hl; [| | | |done|done].
  - destruct (skips_auth uris); [by simplify_eq; split|]. destruct (pc_locked p) eqn:Hlk; [done|].
    case_bool_decide; simplify_eq; split; simpl; rewrite ?Hlk; try done; by destruct Htok.
  - destruct (pc_locked p) eqn:Hlk; [done|]. simplify_eq. split; simpl; rewrite ?Hlk; try done.
  - specialize (Hl eq_refl). repeat case_bool_decide; simplify_eq.
    + split; simpl; rewrite ?Hl; done.
    + eapply (after_token_ok CHeld); [done|done| |exact Htok'|done].
      unfold first_token. by rewrite decide_False.
    + split; simpl; rewrite ?Hl; try done; by destruct Htok.
  - specialize (Hl eq_refl). destruct answer as [tok|e].
    2: { simplify_eq. split; simpl; rewrite ?Hl; done. }
    destruct r as [en c|b en]; simpl in Hc.
    + destruct Hc as (-> & -> & Hm). injection Hs as Hs.
      apply (after_token_ok (CAwait (ReqAuthenticate (pc_entity p) (pc_creds p))) p _ tok); try done.
      unfold first_token. rewrite decide_True by done. set_solver.
    + destruct Hc as (Hb & -> & Hne). simplify_eq. apply store_token_ok; [done..|].
      unfold final_token. rewrite decide_False by done. exists b.
      split; [|set_solver]. eapply first_token_mono, Hb; [done|set_solver].
Qed.

Lemma cstep_inv s s' : cinv s -> cstep s s' -> cinv s'.
Proof.
  intros [Hlock Htok Hcalls] Hs. destruct Hs as [uris p ts log|t t' answer p p' l1 l2 log Ha|c md p p' l1 l2 log Hc];
    simpl in *.
  - split; simpl; [rewrite locks_app; simpl; by rewrite Nat.add_0_r|done|].
    apply Forall_app. split; [done|]. by constructor.
  - rewrite locks_app, locks_cons in Hlock. apply Forall_app in Hcalls as [H1 H2].
    apply Forall_cons in H2 as [Hct H2].
    destruct (authenticate_step_ok _ _ _ _ _ _ Ha Hct) as [Hst Hc' Ht' Hl']; [|done|].
    { intros Hh. rewrite Hh in Hlock. destruct (pc_locked p); [done|lia]. }
    assert (Hmono : forall x, call_ok p log x -> call_ok p' (log_after t answer log) x).
    { intros x. apply call_ok_mono; [done|apply log_after_incl]. }
    split; simpl; [|done|].
    + rewrite locks_app, locks_cons. lia.
    + apply Forall_app. split; [by eapply Forall_impl|].
      constructor; [done | by eapply Forall_impl].
  - assert (Hst : same_static p p' /\ pc_locked p' = pc_locked p /\
                  (pc_accessToken p' = pc_accessToken p \/ pc_accessToken p' = EmptyString)).
    { unfold UnaryClientInvalidAuthInterceptor in Hc. destruct (_ || _); simplify_eq;
        unfold same_static; simpl; auto 10. }
    destruct Hst as (Hst & Hl & Ht). rewrite locks_app, locks_cons in Hlock. simpl in Hlock.
    apply Forall_app in Hcalls as [H1 H2]. apply Forall_cons in H2 as [_ H2].
    split; simpl.
    + by rewrite locks_app, Hl.
    + destruct Ht as [->| ->]; [|by left]. destruct Htok as [->|?]; [by left|right].
      by apply (final_token_mono p p' log log).
    + apply Forall_app. split; (eapply Forall_impl; [eassumption|]); intros x; by apply call_ok_mono.
Qed.

Lemma new_creds_inv entity toEntity c material :
  cinv (mkAuthConc (new_creds entity toEntity c material) [] []).
Proof. split; simpl; [done|by left|constructor]. Qed.

Lemma creachable_inv entity toEntity c material s :
  creachable (new_creds entity toEntity c material) s -> cinv s.
Proof.
  apply (invariant_reachable _ cstep cinv); [|apply cstep_inv].
  intros x ->. apply new_creds_inv.
Qed.

Lemma cstep_static s s' : cstep s s' -> cinv s -> same_static (ac_creds s) (ac_creds s').
Proof.
  intros Hs [Hlock Htok Hcalls].
  destruct Hs as [uris p ts log|t t' answer p p' l1 l2 log Ha|c md p p' l1 l2 log Hc]; simpl in *; [done| |].
  - rewrite locks_app, locks_cons in Hlock. apply Forall_app in Hcalls as [_ H2].
    apply Forall_cons in H2 as [Hct _].
    refine (so_static _ _ _ _ _ (authenticate_step_ok _ _ _ _ _ _ Ha Hct _ Htok)).
    intros Hh. rewrite Hh in Hlock. destruct (pc_locked p); [done|lia].
  - unfold UnaryClientInvalidAuthInterceptor in Hc. destruct (_ || _); by simplify_eq.
Qed.

Lemma creachable_static p0 s : cinv (mkAuthConc p0 [] []) -> creachable p0 s -> same_static p0 (ac_creds s).
Proof.
  intros Hi (s0 & -> & Hr).
  assert (cinv s /\ same_static p0 (ac_creds s)) as [_ ?]; [|done].
  refine (rtc_invariant _ (fun s => cinv s /\ same_static p0 (ac_creds s)) _ _ _ Hr _); [|done].
  intros a b [Ha Hp] Hab. split; [by eapply cstep_inv|].
  eapply same_static_trans; [done|]. by apply cstep_static.
Qed.

Lemma same_static_sym p p' : same_static p p' -> same_static p' p.
Proof. unfold same_static. intuition congruence. Qed.

(** ** Every call carries an issued token *)

(** C40: However the calls of a connection interleave, and whenever a refused call
    clears the token: at most one of them is in the part that authenticates,
    so at most one request to the authentication services is under way, and
    a call only ever carries a token that these services issued for the
    credentials of the connection: with an external entity, the token that the
    external service issued for the first one, never the first one itself. *)
Theorem calls_carry_issued_tokens entity toEntity c material s i tok :
  creachable (new_creds entity toEntity c material) s ->
  ac_calls s !! i = Some (CMetadata (Some tok)) ->
  locks (ac_calls s) <= 1 /\
  final_token (new_creds entity toEntity c material) (ac_log s) tok.
Proof.
  intros Hr Hi. destruct (creachable_inv _ _ _ _ _ Hr) as [Hl _ Hc].
  split; [rewrite Hl; destruct (pc_locked _); lia|].
  rewrite Forall_lookup in Hc. specialize (Hc _ _ Hi). simpl in Hc.
  eapply final_token_mono, Hc; [|done]. apply same_static_sym, creachable_static; [|done].
  apply new_creds_inv.
Qed.

(** ** Every call gets its metadata *)

Definition rank (t : callpc) : nat :=
  match t with
  | CStart _ => 5
  | CWantLock => 4
  | CHeld => 3
  | CAwait (ReqAuthenticate _ _) => 2
  | CAwait (ReqAuthenticateTo _ _) => 1
  | CMetadata _ | CFailed _ => 0
  end.

Definition total_rank (ts : list callpc) : nat := list_sum (rank <$> ts).

Lemma total_rank_middle l1 t l2 : total_rank (l1 ++ t :: l2) = total_rank l1 + rank t + total_rank l2.
Proof. unfold total_rank. rewrite fmap_app, list_sum_app, fmap_cons. simpl. lia. Qed.

(** A step of a call that is in GetRequestMetadata, of no other call and
    without a new one. *)
Definition metadata_step (s s' : authConc) : Prop :=
  exists t t' answer p p' l1 l2, s = mkAuthConc p (l1 ++ t :: l2) (ac_log s) /\
    authenticate_step t answer p = Some (t', p') /\
    s' = mkAuthConc p' (l1 ++ t' :: l2) (log_after t answer (ac_log s)).

Lemma metadata_cstep s s' : metadata_step s s' -> cstep s s'.
Proof.
  intros (t & t' & answer & p & p' & l1 & l2 & -> & Ha & ->). simpl. by apply cs_step.
Qed.

Lemma after_token_rank tok p : rank (after_token tok p).1 <= 1.
Proof. unfold after_token. case_bool_decide; simpl; lia. Qed.

Lemma step_exists t p answer :
  0 < rank t -> has_lock t = true \/ pc_locked p = false ->
  exists t' p', authenticate_step t answer p = Some (t', p') /\ rank t' < rank t.
Proof.
  intros Hrk Hl. destruct t as [uris| | |r|md|e]; simpl in *; [| | | |lia|lia].
  - destruct Hl as [|Hl]; [done|]. rewrite Hl. destruct (skips_auth uris); [eexists _, _; split; [done|simpl; lia]|].
    case_bool_decide; eexists _, _; (split; [done|simpl; lia]).
  - destruct Hl as [|Hl]; [done|]. rewrite Hl. eexists _, _; split; [done|simpl; lia].
  - pose proof (after_token_rank (pc_externalAuthMaterial p) p) as Hr.
    repeat case_bool_decide; [eexists _, _; split; [done|simpl; lia]| |eexists _, _; split; [done|simpl; lia]].
    destruct (after_token _ p) as [t' p']. exists t', p'. split; [done|]. simpl in Hr. lia.
  - destruct answer as [tok|e]; [|eexists _, _; split; [done|destruct r; simpl; lia]].
    destruct r as [en c|b en]; [|eexists _, _; split; [done|simpl; lia]].
    pose proof (after_token_rank tok p) as Hr. destruct (after_token _ p) as [t' p'].
    exists t', p'. split; [done|]. simpl in Hr. lia.
Qed.

Lemma metadata_progress s (answer : string + goerror) :
  cinv s -> total_rank (ac_calls s) <> 0 ->
  exists s', metadata_step s s' /\ total_rank (ac_calls s') < total_rank (ac_calls s).
Proof.
  intros [Hlock _ _] Hrk.
  assert (exists l1 t l2, ac_calls s = l1 ++ t :: l2 /\ 0 < rank t /\
            (has_lock t = true \/ pc_locked (ac_creds s) = false)) as (l1 & t & l2 & Heq & Ht & Hl).
  { destruct (pc_locked (ac_creds s)).
    - assert (exists t, t ∈ ac_calls s /\ has_lock t = true) as (t & Hin & Hh).
      { unfold locks in Hlock. destruct (List.filter has_lock (ac_calls s)) as [|t l] eqn:Hf; [done|].
        assert (List.In t (List.filter has_lock (ac_calls s))) as Hin by (rewrite Hf; by left).
        apply filter_In in Hin as [Hin Hh]. exists t. by rewrite list_elem_of_In. }
      apply list_elem_of_split in Hin as (l1 & l2 & ->). exists l1, t, l2.
      split; [done|]. split; [|by left]. destruct t as [| | |[]| |]; simpl in *; (lia || done).
    - clear Hlock. revert Hrk. induction (ac_calls s) as [|t l IH]; [done|]. intros Hrk.
      destruct (decide (rank t = 0)) as [Hz|Hz].
      + destruct IH as (l1 & t' & l2 & -> & ? & ?).
        { intros Hz'. apply Hrk. unfold total_rank in *. simpl. rewrite Hz. simpl. exact Hz'. }
        exists (t :: l1), t', l2. auto.
      + exists [], t, l. split; [done|]. split; [lia|by right]. }
  destruct (step_exists t (ac_creds s) answer Ht Hl) as (t' & p' & Ha & Hlt).
  exists (mkAuthConc p' (l1 ++ t' :: l2) (log_after t answer (ac_log s))). split.
  - exists t, t', answer, (ac_creds s), p', l1, l2. rewrite <- Heq. by destruct s.
  - simpl. rewrite Heq, !total_rank_middle. lia.
Qed.

(** Whether a call has left GetRequestMetadata. *)
Definition has_metadata (t : callpc) : Prop :=
  match t with CMetadata _ | CFailed _ => True | _ => False end.

Lemma total_rank_zero ts : total_rank ts = 0 -> Forall has_metadata ts.
Proof.
  induction ts as [|t ts IH]; [constructor|]. intros Hz. unfold total_rank in *.
  rewrite fmap_cons in Hz. simpl in Hz. constructor; [|apply IH; lia]. destruct t as [| | |[]| |]; simpl in *; (lia || done).
Qed.

Lemma authenticate_step_rank t answer p t' p' :
  authenticate_step t answer p = Some (t', p') -> rank t' < rank t.
Proof.
  intros Ha. destruct (decide (0 < rank t)) as [Hrk|Hrk].
  - destruct (decide (has_lock t = true \/ pc_locked p = false)) as [Hl|Hl].
    + destruct (step_exists t p answer Hrk Hl) as (t2 & p2 & Ha2 & Hlt). congruence.
    + destruct t as [uris| | |r|md|e]; simpl in *; destruct (pc_locked p); try (exfalso; naive_solver).
      destruct (skips_auth uris); [|done]. simplify_eq. simpl. lia.
  - destruct t as [| | |[]| |]; simpl in *; (lia || done).
Qed.

Lemma metadata_steps_rank n s s' :
  nsteps metadata_step n s s' ->
  n + total_rank (ac_calls s') <= total_rank (ac_calls s) /\ length (ac_calls s') = length (ac_calls s).
Proof.
  induction 1 as [s|n s1 s2 s3 Hs _ [IH IHl]]; [lia|].
  destruct Hs as (t & t' & an & p & p' & l1 & l2 & -> & Ha & Heq). rewrite Heq in IH, IHl.
  apply authenticate_step_rank in Ha. simpl in *. rewrite !total_rank_middle in *.
  rewrite !length_app in *. simpl in *. lia.
Qed.

Lemma total_rank_bound ts : total_rank ts <= 5 * length ts.
Proof.
  unfold total_rank. induction ts as [|t l IH]; [simpl; lia|]. rewrite fmap_cons. simpl.
  assert (rank t <= 5) by (destruct t as [| | |[]| |]; simpl; lia). lia.
Qed.

(** No call waits for ever for its metadata: from every state that the calls of
    a connection can reach, under every schedule and whatever the
    authentication services answer, the calls take at most five steps each in
    GetRequestMetadata, and when none of them can take another one, each has
    its metadata or an error: no lock is left behind. *)
Theorem calls_get_metadata entity toEntity c material s n s' :
  creachable (new_creds entity toEntity c material) s ->
  nsteps metadata_step n s s' ->
  n <= 5 * length (ac_calls s) /\ length (ac_calls s') = length (ac_calls s) /\
  ((forall s2, ~ metadata_step s' s2) -> Forall has_metadata (ac_calls s')).
Proof.
  intros Hr Hn. destruct (metadata_steps_rank _ _ _ Hn) as [Hle Hlen].
  pose proof (total_rank_bound (ac_calls s)). split; [lia|]. split; [done|]. intros Hstuck.
  apply total_rank_zero. destruct (decide (total_rank (ac_calls s') = 0)) as [|Hne]; [done|].
  assert (Hi : cinv s').
  { apply creachable_inv in Hr. refine (rtc_invariant cstep cinv cstep_inv s s' _ Hr).
    clear -Hn. induction Hn; [apply rtc_refl|].
    eapply rtc_l; [by apply metadata_cstep|done]. }
  destruct (metadata_progress s' (inr (EIs EOF)) Hi Hne) as (s2 & Hs & _). by destruct (Hstuck s2).
Qed.

(** ** The guard of the interceptor *)

(** An unauthenticated call panics the interceptor when it has no credentials;
    only for a call that was denied they are checked. *)
Theorem invalid_auth_nil_guard (c : code) :
  (UnaryClientInvalidAuthInterceptor c None = Panics <-> c = Unauthenticated) /\
  (forall p, UnaryClientInvalidAuthInterceptor c (Some p) =
    Returns (Some (if decide (c = Unauthenticated \/ c = PermissionDenied)
                   then pc_set_accessToken EmptyString p else p))).
Proof.
  unfold UnaryClientInvalidAuthInterceptor. split.
  - repeat case_bool_decide; simpl; naive_solver.
  - intros p. destruct (decide (c = Unauthenticated)) as [->|?]; [done|].
    rewrite bool_decide_eq_false_2 by done. simpl.
    repeat case_bool_decide; case_decide; simpl; naive_solver.
Qed.

(** ** Concrete inputs

    Two calls of a connection that authenticates as a robot to an external
    entity: the first one authenticates, the second one waits for the lock. *)
Section Witnesses.

Definition robot_creds : Credentials := mkCreds "robot-secret" "secret".
Definition two_calls : authConc :=
  mkAuthConc (mkRPCCreds "robot" "app" robot_creds "t2" EmptyString false)
    [CMetadata (Some "t2"%string); CWantLock]
    [(ReqAuthenticate "robot" robot_creds, inl "t1"%string);
     (ReqAuthenticateTo "t1" "app", inl "t2"%string)].

Definition service_uris : list string := ["https://host/proto.rpc.examples.echo.v1.EchoService"%string].

Lemma two_calls_reachable : creachable (new_creds "robot" "app" robot_creds EmptyString) two_calls.
Proof.
  exists (mkAuthConc (new_creds "robot" "app" robot_creds EmptyString) [] []). split; [done|].
  eapply rtc_l; [apply (cs_call service_uris)|]. eval_state.
  eapply rtc_l; [apply (cs_call service_uris)|]. eval_state.
  eapply rtc_l; [eapply (cs_step _ CWantLock (inl EmptyString) _ _ [] [_]); vm_compute; reflexivity|]. eval_state.
  eapply rtc_l; [eapply (cs_step _ CWantLock (inl EmptyString) _ _ [_] []); vm_compute; reflexivity|]. eval_state.
  eapply rtc_l; [eapply (cs_step _ CHeld (inl EmptyString) _ _ [] [_]); vm_compute; reflexivity|]. eval_state.
  eapply rtc_l; [eapply (cs_step _ _ (inl EmptyString) _ _ [] [_]); vm_compute; reflexivity|]. eval_state.
  eapply rtc_l; [eapply (cs_step _ _ (inl "t1"%string) _ _ [] [_]); vm_compute; reflexivity|]. eval_state.
  eapply rtc_l; [eapply (cs_step _ _ (inl "t2"%string) _ _ [] [_]); vm_compute; reflexivity|].
  apply rtc_refl.
Qed.

Lemma calls_carry_issued_tokens_witness :
  locks (ac_calls two_calls) <= 1 /\
  final_token (new_creds "robot" "app" robot_creds EmptyString) (ac_log two_calls) "t2".
Proof.
  apply (calls_carry_issued_tokens "robot" "app" robot_creds EmptyString two_calls 0 "t2").
  - apply two_calls_reachable.
  - reflexivity.
Defined.

Lemma calls_get_metadata_witness :
  exists s', nsteps metadata_step 1 two_calls s' /\ 1 <= 5 * length (ac_calls two_calls).
Proof.
  exists (mkAuthConc (mkRPCCreds "robot" "app" robot_creds "t2" EmptyString true)
            [CMetadata (Some "t2"%string); CHeld] (ac_log two_calls)).
  assert (Hn : nsteps metadata_step 1 two_calls
    (mkAuthConc (mkRPCCreds "robot" "app" robot_creds "t2" EmptyString true)
            [CMetadata (Some "t2"%string); CHeld] (ac_log two_calls))).
  { apply nsteps_once. exists CWantLock, CHeld, (inl EmptyString). eexists _, _, [_], [].
    split; [reflexivity|]. split; reflexivity. }
  split; [exact Hn|].
  destruct (calls_get_metadata "robot" "app" robot_creds EmptyString _ _ _ two_calls_reachable Hn) as [H _].
  exact H.
Defined.
End Witnesses.
