(* ===== verification/StoppableWorkers.v ===== *)
(** * Groups of goroutines that can be stopped: [stoppable_workers.go]

    A worker is a number in the list of running ones; that it ends (by itself,
    or because of the context it was given) is a step of its own. [Stop] holds
    the write lock while it waits, so [Add] cannot run in between. *)

From S2P Require Import Prelude.

(** ** State and operations *)

Record StoppableWorkers := mkSW {
  sw_parentDone : bool;            (* the context that ctx is derived from is done *)
  sw_cancelled : bool;             (* cancelFunc was called *)
  sw_locked : bool;                (* a Stop holds mu *)
  sw_workers : list nat;           (* running: the wait group's count is its length *)
  sw_next : nat;
  sw_returned : bool;              (* some Stop has returned *)
}.

(** [NewStoppableWorkers]; [NewBackgroundStoppableWorkers] derives its context
    from one that is never done and adds its workers. *)
Definition NewStoppableWorkers (parentDone : bool) : StoppableWorkers :=
  mkSW parentDone false false [] 0 false.

(** ctx.Err() != nil *)
Definition sw_ctxErr (sw : StoppableWorkers) : bool := sw_parentDone sw || sw_cancelled sw.

(** [Add]; [None]: it waits for the lock. *)
Definition Add (sw : StoppableWorkers) : option StoppableWorkers :=
  if sw_locked sw then None
  else if sw_ctxErr sw then Some sw
  else Some (mkSW (sw_parentDone sw) (sw_cancelled sw) (sw_locked sw) (sw_workers sw ++ [sw_next sw])
               (S (sw_next sw)) (sw_returned sw)).

Definition NewBackgroundStoppableWorkers (workers : nat) : StoppableWorkers :=
  Nat.iter workers (fun sw => default sw (Add sw)) (NewStoppableWorkers false).

(** [Stop], up to the wait for the workers. *)
Definition Stop_begin (sw : StoppableWorkers) : option StoppableWorkers :=
  if sw_locked sw then None
  else if sw_ctxErr sw then
    Some (mkSW (sw_parentDone sw) (sw_cancelled sw) false (sw_workers sw) (sw_next sw) true)
  else Some (mkSW (sw_parentDone sw) true true (sw_workers sw) (sw_next sw) (sw_returned sw)).

(** The end of [Stop], when no worker is left. *)
Definition Stop_end (sw : StoppableWorkers) : option StoppableWorkers :=
  if sw_locked sw && bool_decide (sw_workers sw = [])
  then Some (mkSW (sw_parentDone sw) (sw_cancelled sw) false [] (sw_next sw) true)
  else None.

Inductive wstep : StoppableWorkers -> StoppableWorkers -> Prop :=
  | ws_add sw sw' : Add sw = Some sw' -> wstep sw sw'
  | ws_stop sw sw' : Stop_begin sw = Some sw' -> wstep sw sw'
  | ws_stopped sw sw' : Stop_end sw = Some sw' -> wstep sw sw'
  | ws_worker l1 w l2 sw : sw_workers sw = l1 ++ w :: l2 ->
      wstep sw (mkSW (sw_parentDone sw) (sw_cancelled sw) (sw_locked sw) (l1 ++ l2) (sw_next sw)
                  (sw_returned sw))
  | ws_parent sw :
      wstep sw (mkSW true (sw_cancelled sw) (sw_locked sw) (sw_workers sw) (sw_next sw) (sw_returned sw)).

Definition wreachable : StoppableWorkers -> Prop :=
  reachable (fun sw => sw = NewStoppableWorkers false) wstep.

(** ** Stopping *)

Record winv (sw : StoppableWorkers) : Prop := {
  wi_locked : sw_locked sw = true -> sw_cancelled sw = true;
  wi_stopped : sw_cancelled sw = true -> sw_locked sw = false -> sw_workers sw = [];
  wi_returned : sw_returned sw = true -> sw_ctxErr sw = true /\ sw_locked sw = false;
}.

Lemma wstep_inv sw sw' : winv sw -> wstep sw sw' -> winv sw'.
Proof.
  intros [Hl Hs Hr] Hstep. unfold sw_ctxErr in *.
  destruct Hstep as [sw sw' H|sw sw' H|sw sw' H|l1 w l2 sw Hw|sw].
  - unfold Add, sw_ctxErr in H. destruct sw as [[] [] [] ws n []]; simplify_eq/=; split; naive_solver.
  - unfold Stop_begin, sw_ctxErr in H. destruct sw as [[] [] [] ws n []]; simplify_eq/=; split; naive_solver.
  - unfold Stop_end in H. destruct sw as [p c [] ws n r]; [|done]. simpl in *.
    case_bool_decide; simplify_eq. split; unfold sw_ctxErr; simpl; try done.
    rewrite (Hl eq_refl). by destruct p.
  - split; simpl; [done| |done]. intros Hc Hk. specialize (Hs Hc Hk). rewrite Hs in Hw. by destruct l1.
  - split; unfold sw_ctxErr; simpl; [done|done|]. intros Hret. by destruct (Hr Hret).
Qed.

Lemma wreachable_inv sw : wreachable sw -> winv sw.
Proof.
  apply (invariant_reachable _ wstep winv); [|apply wstep_inv]. intros x ->. by split.
Qed.

(** When a call of Stop has returned, no worker runs and none is added any
    more, except when the context that the group was derived from was done
    before any call of Stop; and a Stop that waits can end once its workers
    have. *)
Theorem stop_returns_after_workers sw :
  wreachable sw ->
  (sw_returned sw = true -> sw_workers sw <> [] -> sw_parentDone sw = true /\ sw_cancelled sw = false) /\
  (sw_returned sw = true -> Add sw = Some sw) /\
  (sw_locked sw = true -> sw_workers sw = [] -> exists sw', Stop_end sw = Some sw' /\ sw_returned sw' = true).
Proof.
  intros [Hl Hs Hr]%wreachable_inv. unfold Add, Stop_end. split_and!.
  - intros Hret Hw. destruct (Hr Hret) as [Hc Hk]. unfold sw_ctxErr in Hc.
    destruct (sw_cancelled sw); [by rewrite Hs in Hw|]. by destruct (sw_parentDone sw).
  - intros Hret. destruct (Hr Hret) as [-> ->]. done.
  - intros -> ->. eexists. by split.
Qed.

(** A group whose parent context is done is not waited for: Stop returns while
    a worker still runs. *)
Theorem stop_after_parent_does_not_wait :
  exists sw, wreachable sw /\ sw_returned sw = true /\ sw_workers sw <> [].
Proof.
  exists (mkSW true false false [0] 1 true). split; [|done].
  exists (NewStoppableWorkers false). split; [done|].
  eapply rtc_l; [apply ws_add; reflexivity|]. eval_state.
  eapply rtc_l; [apply ws_parent|]. eval_state.
  eapply rtc_l; [apply ws_stop; reflexivity|]. apply rtc_refl.
Qed.

Lemma stop_returns_after_workers_witness :
  let sw := mkSW false true true [] 1 false in
  exists sw', Stop_end sw = Some sw' /\ sw_returned sw' = true.
Proof.
  intros sw. apply (stop_returns_after_workers sw); [|reflexivity|reflexivity].
  exists (NewStoppableWorkers false). split; [reflexivity|].
  eapply rtc_l; [apply ws_add; reflexivity|]. eval_state.
  eapply rtc_l; [apply ws_stop; reflexivity|]. eval_state.
  eapply rtc_l; [apply (ws_worker [] 0 []); reflexivity|]. apply rtc_refl.
Defined.
