(* ===== verification/ArtifactTree.v ===== *)
(** * The tree of artifacts: [artifact/tree.go], the tree operations of
      [artifact/config.go] and the tree file of [artifact/config_load.go]

    A tree maps paths to content hashes, like a file system without contents.
    A node is internal (a map of names to nodes) or external (a hash and a
    size): every node that the package makes has exactly one of the two. The
    tree file holds the tree as JSON; here JSON is its value, not its text.

    The promise of a tree is [manifest]: a partial function from paths to
    hashes. [storeHash], [removePath] and [lookup] refine the operations of
    that specification. *)

From S2P Require Import Prelude.
From Stdlib Require Import Ascii.
From stdpp Require Import sorting.

#[local] Set Warnings "-register-all".

(** ** Nodes *)

(** [TreeNodeExternal]. *)
Record TreeNodeExternal := mkExternal { te_Hash : string; te_Size : Z }.

(** [TreeNode]. *)
Inductive TreeNode :=
  | Internal (internal : gmap string TreeNode)
  | External (external : TreeNodeExternal).

(** [TreeNodeTree]; [None] is the nil map. *)
Abbreviation TreeNodeTree := (option (gmap string TreeNode)).

(** The fields of a node. *)
Definition tn_internal (tn : TreeNode) : TreeNodeTree :=
  match tn with Internal m => Some m | External _ => None end.
Definition tn_external (tn : TreeNode) : option TreeNodeExternal :=
  match tn with Internal _ => None | External e => Some e end.

(** [IsInternal]. *)
Definition IsInternal (tn : TreeNode) : bool := bool_decide (tn_internal tn <> None).

(** ** Operations *)

(** [lookup]. *)
Fixpoint tnt_lookup (path : list string) (tnt : TreeNodeTree) : option TreeNode :=
  match tnt, path with
  | None, _ | _, [] => None
  | Some m, name :: rest =>
      match m !! name with
      | None => None
      | Some node =>
          match rest with
          | [] => Some node
          | _ => tnt_lookup rest (tn_internal node)
          end
      end
  end.

(** [storeHash]; the result is the map after the call. *)
Fixpoint storeHash (nodeHash : string) (nodeSize : Z) (path : list string) (tnt : TreeNodeTree)
    : TreeNodeTree :=
  match tnt, path with
  | None, _ | _, [] => tnt
  | Some m, name :: rest =>
      match rest with
      | [] => Some (<[name := External (mkExternal nodeHash nodeSize)]> m)
      | _ =>
          match m !! name with
          | None | Some (External _) =>
              Some (<[name := Internal (default ∅ (storeHash nodeHash nodeSize rest (Some ∅)))]> m)
          | Some (Internal next) =>
              Some (<[name := Internal (default next (storeHash nodeHash nodeSize rest (Some next)))]> m)
          end
      end
  end.

(** [removePath]. *)
Fixpoint removePath (path : list string) (tnt : TreeNodeTree) : TreeNodeTree :=
  match tnt, path with
  | None, _ | _, [] => tnt
  | Some m, name :: rest =>
      match rest with
      | [] => Some (delete name m)
      | _ =>
          match m !! name with
          | None | Some (External _) => tnt
          | Some (Internal next) =>
              Some (<[name := Internal (default next (removePath rest (Some next)))]> m)
          end
      end
  end.

(** strings.Split(path, "/"). *)
Fixpoint split_slash (s : string) : list string :=
  match s with
  | EmptyString => [EmptyString]
  | String c s' =>
      match split_slash s' with
      | part :: parts => if bool_decide (c = "/"%char) then EmptyString :: part :: parts
                         else String c part :: parts
      | [] => [String c EmptyString]
      end
  end.

(** [Config.Lookup]: the node at a path; [None] is the not-found error. *)
Definition config_Lookup (path : string) (tree : TreeNodeTree) : option TreeNode :=
  if bool_decide (path = "/"%string) then Some (Internal (default ∅ tree))
  else tnt_lookup (split_slash path) tree.

(** [Config.RemovePath], [Config.StoreHash]. *)
Definition RemovePath (path : string) (tree : TreeNodeTree) : TreeNodeTree :=
  removePath (split_slash path) tree.

Definition StoreHash (nodeHash : string) (nodeSize : Z) (path : list string) (tree : TreeNodeTree)
    : TreeNodeTree := storeHash nodeHash nodeSize path tree.

(** ** JSON *)

(** A JSON value; the numbers of the tree file are integers. *)
Inductive json :=
  | JNull
  | JBool (b : bool)
  | JNum (z : Z)
  | JStr (s : string)
  | JArr (l : list json)
  | JObj (fields : list (string * json)).

(** Names in the order in which encoding/json and os.ReadDir give them. *)
Definition name_le {A} (a b : string * A) : Prop := String.leb a.1 b.1 = true.
#[export] Instance name_le_dec {A} (a b : string * A) : Decision (name_le a b).
Proof. unfold name_le. apply _. Defined.

(** [MarshalJSON]: a map is written with its keys sorted. *)
Fixpoint MarshalJSON (tn : TreeNode) : json :=
  match tn with
  | Internal m => JObj (merge_sort name_le (map_to_list (MarshalJSON <$> m)))
  | External e => JObj [("hash"%string, JStr (te_Hash e)); ("size"%string, JNum (te_Size e))]
  end.

(** A value that fits Go's [int]. *)
Definition is_int (z : Z) : bool := ((- 2 ^ 63 <=? z) && (z <? 2 ^ 63))%Z.

(** Field names match without regard to case. *)
Definition lower (c : ascii) : ascii :=
  let n := nat_of_ascii c in if ((65 <=? n) && (n <=? 90))%nat then ascii_of_nat (n + 32) else c.
Fixpoint to_lower (s : string) : string :=
  match s with EmptyString => EmptyString | String c s' => String (lower c) (to_lower s') end.
Definition is_field (name key : string) : bool := bool_decide (to_lower key = name).

(** Decode into the struct with the pointer field size: its value, [None] when
    it is nil, and whether there was no error. *)
Fixpoint decode_size (fields : list (string * json)) (size : option Z) : option Z * bool :=
  match fields with
  | [] => (size, true)
  | (key, v) :: fields' =>
      if is_field "size" key then
        match v with
        | JNull => decode_size fields' None
        | JNum z => if is_int z then decode_size fields' (Some z)
                    else ((decode_size fields' size).1, false)
        | _ => ((decode_size fields' size).1, false)
        end
      else decode_size fields' size
  end.

(** Decode into a TreeNodeExternal. *)
Fixpoint decode_external (fields : list (string * json)) (e : TreeNodeExternal)
    : option TreeNodeExternal :=
  match fields with
  | [] => Some e
  | (key, v) :: fields' =>
      if is_field "hash" key then
        match v with
        | JNull => decode_external fields' e
        | JStr s => decode_external fields' (mkExternal s (te_Size e))
        | _ => None
        end
      else if is_field "size" key then
        match v with
        | JNull => decode_external fields' e
        | JNum z => if is_int z then decode_external fields' (mkExternal (te_Hash e) z) else None
        | _ => None
        end
      else decode_external fields' e
  end.

(** The entries of a map, the later ones winning; an entry that fails fails
    the map. *)
Fixpoint decode_entries (entries : list (string * option TreeNode)) (m : gmap string TreeNode)
    : option (gmap string TreeNode) :=
  match entries with
  | [] => Some m
  | (key, Some node) :: entries' => decode_entries entries' (<[key := node]> m)
  | (_, None) :: _ => None
  end.

(** [UnmarshalJSON]; [None] is an error. A null in the place of a node, which
    becomes a nil pointer in the code, is taken for an error here. *)
Fixpoint UnmarshalJSON (data : json) : option TreeNode :=
  match data with
  | JObj fields =>
      match decode_size fields None with
      | (Some _, true) => External <$> decode_external fields (mkExternal EmptyString 0)
      | _ => Internal <$> decode_entries ((fun kv => (kv.1, UnmarshalJSON kv.2)) <$> fields) ∅
      end
  | _ => None
  end.

(** The tree file: what [commitFn] encodes and [LoadConfigFromFile] decodes. *)
Definition encode_tree (tree : TreeNodeTree) : json :=
  match tree with None => JNull | Some m => MarshalJSON (Internal m) end.

Definition decode_tree (data : json) : option TreeNodeTree :=
  match data with
  | JNull => Some None
  | JObj fields => Some <$> decode_entries ((fun kv => (kv.1, UnmarshalJSON kv.2)) <$> fields) ∅
  | _ => None
  end.

(** The tree of [LoadConfigFromFile]: empty without a tree file. *)
Definition load_tree (treeFile : option json) : option TreeNodeTree :=
  match treeFile with None => Some (Some ∅) | Some data => decode_tree data end.

(** ** Specification *)

(** What a tree promises: which artifact is at a path. *)
Definition manifest := list string -> option TreeNodeExternal.

Definition tree_manifest (tree : TreeNodeTree) : manifest :=
  fun path => tnt_lookup path tree ≫= tn_external.

(** Storing an artifact at a path makes the path a file: nothing is below it
    any more, and none of its parents is a file. *)
Definition spec_store (nodeHash : string) (nodeSize : Z) (path : list string) (f : manifest)
    : manifest :=
  fun q => if decide (q = path) then Some (mkExternal nodeHash nodeSize)
           else if decide (path `prefix_of` q \/ q `prefix_of` path) then None
           else f q.

(** Removing a path removes everything below it. *)
Definition spec_remove (path : list string) (f : manifest) : manifest :=
  fun q => if decide (path `prefix_of` q) then None else f q.

(** ** Induction on nodes *)

Fixpoint tn_size (tn : TreeNode) : nat :=
  match tn with
  | Internal m => S (map_fold (fun _ c acc => tn_size c + acc) 0 m)
  | External _ => 1
  end.

Lemma tn_size_child m k c : m !! k = Some c -> tn_size c < tn_size (Internal m).
Proof.
  intros Hc. cbn [tn_size].
  rewrite (map_fold_delete_L (fun _ c acc => tn_size c + acc) 0 k c m); [lia| |done].
  intros. lia.
Qed.

(** A node by its children. *)
Lemma tree_node_ind (P : TreeNode -> Prop) :
  (forall m, map_Forall (fun _ => P) m -> P (Internal m)) -> (forall e, P (External e)) ->
  forall tn, P tn.
Proof.
  intros Hi He tn. remember (tn_size tn) as n eqn:Hn. revert tn Hn.
  induction n as [n IH] using lt_wf_ind. intros [m|e] ->; [|done].
  apply Hi. intros k c Hc. eapply IH; [by eapply tn_size_child | done].
Qed.

(** ** The operations refine the specification *)

Lemma manifest_nil tree : tree_manifest tree [] = None.
Proof. by destruct tree. Qed.

Lemma manifest_cons m name rest :
  tree_manifest (Some m) (name :: rest) =
  match m !! name with
  | None => None
  | Some (External e) => if decide (rest = []) then Some e else None
  | Some (Internal m') => tree_manifest (Some m') rest
  end.
Proof.
  unfold tree_manifest. simpl. destruct (m !! name) as [[m'|e]|]; [by destruct rest| |done].
  by destruct rest.
Qed.

Lemma storeHash_some h z path m : exists m', storeHash h z path (Some m) = Some m'.
Proof. destruct path as [|name [|n2 rest]]; simpl; [by eexists..|]. by destruct (m !! name) as [[]|]; eexists. Qed.

Lemma removePath_some path m : exists m', removePath path (Some m) = Some m'.
Proof. destruct path as [|name [|n2 rest]]; simpl; [by eexists..|]. by destruct (m !! name) as [[]|]; eexists. Qed.

(** One step of [storeHash] into a node that is no leaf of the path. *)
Lemma storeHash_cons h z name n2 rest m :
  storeHash h z (name :: n2 :: rest) (Some m) =
  let next := default ∅ (m !! name ≫= tn_internal) in
  Some (<[name := Internal (default ∅ (storeHash h z (n2 :: rest) (Some next)))]> m).
Proof.
  simpl. destruct (m !! name) as [[next|e]|]; simpl; [|done..].
  destruct (storeHash_some h z (n2 :: rest) next) as [m' Hm']. simpl in Hm'. by rewrite Hm'.
Qed.

Lemma removePath_cons name n2 rest m :
  removePath (name :: n2 :: rest) (Some m) =
  match m !! name with
  | Some (Internal next) =>
      Some (<[name := Internal (default next (removePath (n2 :: rest) (Some next)))]> m)
  | _ => Some m
  end.
Proof. simpl. by destruct (m !! name) as [[]|]. Qed.

Lemma manifest_child m name rest :
  tree_manifest (Some m) (name :: rest) =
  if decide (rest = []) then m !! name ≫= tn_external else
  tree_manifest (Some (default ∅ (m !! name ≫= tn_internal))) rest.
Proof.
  rewrite manifest_cons. destruct (m !! name) as [[m'|e]|]; simpl.
  - case_decide; [by subst; rewrite manifest_nil | done].
  - by destruct rest as [|n [|]].
  - by destruct rest as [|n [|]].
Qed.

Lemma prefix_cons_iff {A} (x : A) l1 l2 : x :: l1 `prefix_of` x :: l2 <-> l1 `prefix_of` l2.
Proof. split; [apply prefix_cons_inv_2 | apply prefix_cons]. Qed.

(** A path below a name, in the manifest of a map in which the name was set to
    an internal node. *)
Lemma manifest_insert_internal m name m' q :
  tree_manifest (Some (<[name := Internal m']> m)) q =
  match q with
  | n :: rest => if decide (n = name) then tree_manifest (Some m') rest else tree_manifest (Some m) q
  | [] => None
  end.
Proof.
  destruct q as [|n rest]; [done|]. destruct (decide (n = name)) as [->|Hn]; rewrite !manifest_cons.
  - by rewrite lookup_insert_eq.
  - by rewrite lookup_insert_ne.
Qed.

Lemma spec_store_cons h z name path f q :
  spec_store h z (name :: path) f q =
  match q with
  | n :: rest => if decide (n = name)
                 then spec_store h z path (fun r => f (name :: r)) rest else f q
  | [] => None
  end.
Proof.
  unfold spec_store. destruct q as [|n rest].
  - rewrite decide_False by done. by rewrite decide_True by (right; apply prefix_nil).
  - destruct (decide (n = name)) as [->|Hn].
    + destruct (decide (rest = path)) as [->|Hne]; [by rewrite decide_True|].
      rewrite decide_False by congruence.
      destruct (decide (path `prefix_of` rest \/ rest `prefix_of` path)) as [Hp|Hp].
      * rewrite decide_True; [done|]. by rewrite !prefix_cons_iff.
      * rewrite decide_False; [done|]. by rewrite !prefix_cons_iff.
    + rewrite decide_False by congruence. rewrite decide_False; [done|].
      intros [Hp|Hp]; apply prefix_cons_inv_1 in Hp; congruence.
Qed.

Lemma spec_remove_cons name path f q :
  spec_remove (name :: path) f q =
  match q with
  | n :: rest => if decide (n = name)
                 then spec_remove path (fun r => f (name :: r)) rest else f q
  | [] => f []
  end.
Proof.
  unfold spec_remove. destruct q as [|n rest].
  - rewrite decide_False; [done|]. intros Hp. by apply prefix_nil_inv in Hp.
  - destruct (decide (n = name)) as [->|Hn].
    + destruct (decide (path `prefix_of` rest)).
      * rewrite decide_True; [done|]. by rewrite prefix_cons_iff.
      * rewrite decide_False; [done|]. by rewrite prefix_cons_iff.
    + rewrite decide_False; [done|]. intros Hp. apply prefix_cons_inv_1 in Hp. congruence.
Qed.

Lemma spec_store_ext h z path f g q : (forall r, r <> [] -> f r = g r) -> path <> [] ->
  spec_store h z path f q = spec_store h z path g q.
Proof.
  intros Hfg Hp. unfold spec_store. repeat case_decide; [done..|]. apply Hfg. intros ->.
  naive_solver eauto using prefix_nil.
Qed.

Lemma spec_remove_ext path f g q : (forall r, r <> [] -> f r = g r) -> q <> [] ->
  spec_remove path f q = spec_remove path g q.
Proof. intros Hfg Hq. unfold spec_remove. case_decide; auto. Qed.

Lemma storeHash_manifest h z path m q :
  path <> [] ->
  tree_manifest (storeHash h z path (Some m)) q = spec_store h z path (tree_manifest (Some m)) q.
Proof.
  revert m q. induction path as [|name [|n2 path] IH]; intros m q Hne; [done| |].
  - rewrite spec_store_cons. destruct q as [|n rest]; [done|]. simpl storeHash.
    rewrite !manifest_cons. destruct (decide (n = name)) as [->|Hn]; [|by rewrite lookup_insert_ne].
    rewrite lookup_insert_eq. unfold spec_store.
    destruct (decide (rest = [])) as [->|]; [by rewrite decide_True|].
    rewrite decide_False by done. by rewrite decide_True by (left; apply prefix_nil).
  - rewrite spec_store_cons, storeHash_cons. cbv zeta.
    set (next := default ∅ (m !! name ≫= tn_internal)).
    destruct (storeHash_some h z (n2 :: path) next) as [m' Hm'].
    rewrite Hm'. cbv beta iota delta [default id]. rewrite manifest_insert_internal.
    destruct q as [|n rest]; [done|]. case_decide as Hn; [|done]. rewrite <- Hm', IH by done.
    apply spec_store_ext; [|done]. intros r Hr. by rewrite manifest_child, decide_False.
Qed.

Lemma removePath_manifest path m q :
  path <> [] ->
  tree_manifest (removePath path (Some m)) q = spec_remove path (tree_manifest (Some m)) q.
Proof.
  revert m q. induction path as [|name [|n2 path] IH]; intros m q Hne; [done| |].
  - rewrite spec_remove_cons. destruct q as [|n rest]; [done|]. simpl removePath.
    rewrite !manifest_cons. destruct (decide (n = name)) as [->|Hn]; [|by rewrite lookup_delete_ne].
    rewrite lookup_delete_eq. unfold spec_remove. by rewrite decide_True by apply prefix_nil.
  - rewrite spec_remove_cons. destruct q as [|n rest].
    { destruct (removePath_some (name :: n2 :: path) m) as [m' ->]. done. }
    rewrite removePath_cons. destruct (m !! name) as [[next|e]|] eqn:Hm.
    + destruct (removePath_some (n2 :: path) next) as [m' Hm'].
      rewrite Hm'. cbv beta iota delta [default id]. rewrite manifest_insert_internal.
      case_decide as Hn; [|done]. rewrite <- Hm', IH by done.
      destruct rest as [|r rest]; [|apply spec_remove_ext; [|done]].
      * rewrite !spec_remove_cons, manifest_nil. by rewrite manifest_cons, Hm.
      * intros r' Hr. by rewrite manifest_cons, Hm.
    + destruct (decide (n = name)) as [->|]; [|done]. unfold spec_remove. rewrite manifest_cons, Hm.
      destruct (decide (n2 :: path `prefix_of` rest)) as [Hp|]; [|done].
      rewrite decide_False; [done|]. intros ->. by apply prefix_nil_inv in Hp.
    + destruct (decide (n = name)) as [->|]; [|done]. unfold spec_remove. rewrite manifest_cons, Hm.
      by destruct (decide _).
Qed.

(** ** The tree file *)

(** Every size of the tree is one that Go's [int] holds. *)
Definition sizes_ok (tree : TreeNodeTree) : Prop :=
  forall path e, tree_manifest tree path = Some e -> is_int (te_Size e) = true.

Lemma sizes_ok_child m name m' :
  sizes_ok (Some m) -> m !! name = Some (Internal m') -> sizes_ok (Some m').
Proof. intros Hs Hm path e He. apply (Hs (name :: path) e). by rewrite manifest_cons, Hm. Qed.

Lemma sizes_ok_leaf m name e : sizes_ok (Some m) -> m !! name = Some (External e) -> is_int (te_Size e) = true.
Proof. intros Hs Hm. apply (Hs [name]). rewrite manifest_cons, Hm. by rewrite decide_True. Qed.

Definition is_obj (j : json) : Prop := match j with JObj _ => True | _ => False end.

Lemma MarshalJSON_obj tn : is_obj (MarshalJSON tn).
Proof. by destruct tn. Qed.

(** A map of nodes is never taken for an external node: no field of it is an
    integer. *)
Lemma decode_size_objects fields size :
  Forall (fun kv => is_obj kv.2) fields -> (decode_size fields size).1 = size.
Proof.
  induction 1 as [|[k v] fields Hv _ IH]; [done|]. simpl. destruct (is_field "size" k); [|done].
  by destruct v.
Qed.

Lemma decode_entries_spec l acc :
  NoDup l.*1 ->
  decode_entries ((fun kv => (kv.1, Some kv.2)) <$> l) acc = Some (list_to_map l ∪ acc).
Proof.
  revert acc. induction l as [|[k c] l IH]; intros acc Hnd; [by rewrite list_to_map_nil, map_empty_union|].
  apply NoDup_cons in Hnd as [Hk Hnd]. cbn [fmap list_fmap fst snd decode_entries] in *.
  rewrite IH by done. f_equal. rewrite list_to_map_cons.
  rewrite <- insert_union_r; [|by apply not_elem_of_list_to_map_1].
  apply insert_union_l.
Qed.

(** The entries of a marshalled map, in some order. *)
Lemma marshal_fields m :
  exists l, merge_sort name_le (map_to_list (MarshalJSON <$> m)) = prod_map id MarshalJSON <$> l /\
    map_to_list m ≡ₚ l.
Proof.
  assert (Hp : merge_sort name_le (map_to_list (MarshalJSON <$> m))
               ≡ₚ map (prod_map id MarshalJSON) (map_to_list m)).
  { rewrite merge_sort_Permutation, map_to_list_fmap. done. }
  apply Permutation_map_inv in Hp as (l & Hl & Hp). exists l. done.
Qed.

(** The children are read back when each of them is. *)
Lemma decode_children m :
  map_Forall (fun _ c => UnmarshalJSON (MarshalJSON c) = Some c) m ->
  let fields := merge_sort name_le (map_to_list (MarshalJSON <$> m)) in
  (decode_size fields None).1 = None /\
  decode_entries ((fun kv => (kv.1, UnmarshalJSON kv.2)) <$> fields) ∅ = Some m.
Proof.
  intros Hm. cbv zeta. destruct (marshal_fields m) as (l & -> & Hp). split.
  - apply decode_size_objects, Forall_fmap, Forall_forall. intros [k c] _. apply MarshalJSON_obj.
  - rewrite <- list_fmap_compose.
    assert (Heq : (fun kv => (kv.1, UnmarshalJSON kv.2)) ∘ prod_map id MarshalJSON <$> l
                  = (fun kv => (kv.1, Some kv.2)) <$> l).
    { apply list_fmap_ext. intros i [k c] Hi. simpl. f_equal. apply (Hm k).
      apply elem_of_map_to_list. rewrite Hp. by eapply list_elem_of_lookup_2. }
    rewrite Heq, decode_entries_spec; [|rewrite <- Hp; apply NoDup_fst_map_to_list].
    rewrite map_union_empty. f_equal. rewrite <- (list_to_map_to_list m). apply list_to_map_proper; [|by symmetry].
    rewrite <- Hp. apply NoDup_fst_map_to_list.
Qed.

Lemma decode_external_marshal e :
  is_int (te_Size e) = true ->
  decode_size [("hash"%string, JStr (te_Hash e)); ("size"%string, JNum (te_Size e))] None
    = (Some (te_Size e), true) /\
  decode_external [("hash"%string, JStr (te_Hash e)); ("size"%string, JNum (te_Size e))]
    (mkExternal EmptyString 0) = Some e.
Proof. intros He. simpl. rewrite He. by destruct e. Qed.

Lemma unmarshal_marshal tn :
  sizes_ok (tn_internal tn) -> (forall e, tn_external tn = Some e -> is_int (te_Size e) = true) ->
  UnmarshalJSON (MarshalJSON tn) = Some tn.
Proof.
  induction tn as [m IH|e] using tree_node_ind; intros Hi He.
  - assert (Hm : map_Forall (fun _ c => UnmarshalJSON (MarshalJSON c) = Some c) m).
    { intros k c Hc. apply (IH k c Hc).
      - destruct c as [m'|e]; [by eapply sizes_ok_child | by intros [|? ?]].
      - destruct c as [m'|e]; [done|]. intros e' [= <-]. by eapply sizes_ok_leaf. }
    destruct (decode_children m Hm) as [Hs Hd]. cbn [MarshalJSON UnmarshalJSON]. rewrite Hd.
    destruct (decode_size _ _) as [s ok]. simpl in Hs. by subst.
  - destruct (decode_external_marshal e (He e eq_refl)) as [Hs Hd]. cbn [MarshalJSON UnmarshalJSON].
    by rewrite Hs, Hd.
Qed.

Lemma decode_encode tree : sizes_ok tree -> decode_tree (encode_tree tree) = Some tree.
Proof.
  destruct tree as [m|]; [|done]. intros Hs. cbn [encode_tree MarshalJSON decode_tree].
  assert (Hm : map_Forall (fun _ c => UnmarshalJSON (MarshalJSON c) = Some c) m).
  { intros k c Hc. apply unmarshal_marshal.
    - destruct c as [m'|e]; [by eapply sizes_ok_child | by intros [|? ?]].
    - destruct c as [m'|e]; [done|]. intros e' [= <-]. by eapply sizes_ok_leaf. }
  destruct (decode_children m Hm) as [_ Hd]. by rewrite Hd.
Qed.

(** ** Properties *)

(** C8: A tree implements its specification. On a tree that is not nil, storing
    and removing a path do to the manifest what [spec_store] and [spec_remove]
    say, and the node that Lookup finds at a path is the part of the manifest
    below it. *)
Theorem tree_refines_manifest (m : gmap string TreeNode) (h : string) (z : Z) (path : list string) :
  path <> [] ->
  (forall q, tree_manifest (storeHash h z path (Some m)) q = spec_store h z path (tree_manifest (Some m)) q) /\
  (forall q, tree_manifest (removePath path (Some m)) q = spec_remove path (tree_manifest (Some m)) q) /\
  (forall node, tnt_lookup path (Some m) = Some node ->
     forall q, tree_manifest (Some m) (path ++ q) =
       if decide (q = []) then tn_external node else tree_manifest (tn_internal node) q).
Proof.
  intros Hne. split_and!; [by intros; apply storeHash_manifest | by intros; apply removePath_manifest|].
  revert m. induction path as [|name path IH]; [done|]. intros m node Hl q. simpl in Hl.
  destruct (m !! name) as [c|] eqn:Hm; [|done]. destruct path as [|n2 path].
  - simplify_eq. simpl. rewrite manifest_child, Hm. simpl.
    destruct (decide (q = [])); [done|]. destruct node; [done|].
    destruct q; [done|]. cbn [tn_internal]. cbv beta iota delta [default id].
    by rewrite manifest_cons, lookup_empty.
  - destruct c as [m'|e]; [|done]. rewrite <- app_comm_cons, manifest_cons, Hm. by apply IH.
Qed.


Lemma split_slash_nonempty s : split_slash s <> [].
Proof. destruct s; simpl; [done|]. by repeat case_match. Qed.

(** A path is what its parts are when they are joined: splitting is exact. *)
Lemma split_slash_join s : String.concat "/" (split_slash s) = s.
Proof.
  induction s as [|c s IH]; [done|]. simpl. destruct (split_slash s) as [|part parts] eqn:Hs;
    [by apply split_slash_nonempty in Hs|].
  case_bool_decide as Hc.
  - subst c. rewrite <- IH. by destruct parts.
  - rewrite <- IH. by destruct parts.
Qed.

(** ** Concrete inputs *)
Section Witnesses.

Definition sample_tree : gmap string TreeNode :=
  {[ "data"%string := Internal {[ "size"%string := External (mkExternal "aa" 3) ]};
     "readme"%string := External (mkExternal "bb" 7) ]}.

Lemma tree_refines_manifest_witness :
  tree_manifest (storeHash "cc" 4 ["readme"; "part"]%string (Some sample_tree)) ["readme"%string] = None /\
  tree_manifest (storeHash "cc" 4 ["readme"; "part"]%string (Some sample_tree)) ["readme"; "part"]%string
    = Some (mkExternal "cc" 4).
Proof.
  destruct (tree_refines_manifest sample_tree "cc" 4 ["readme"; "part"]%string) as (H & _ & _); [discriminate|].
  rewrite !H. split; reflexivity.
Defined.

Lemma sample_sizes_ok : sizes_ok (Some sample_tree).
Proof.
  intros path e He. unfold sample_tree in He. destruct path as [|a [|b path]]; [done| |];
    repeat first [rewrite manifest_cons in He | rewrite lookup_insert in He
                 | rewrite lookup_singleton in He | case_decide | progress simplify_eq/= | done].
Qed.

End Witnesses.
