(* ===== verification/ArtifactCache.v ===== *)
(** * The artifact cache: [artifact/cache.go], [artifact/file.go] and the file
      system store of [artifact/fs_store.go]

    The cache keeps three things in step: the versioned tree, the stores that
    hold contents by their hash, and the directory in which the user sees the
    artifacts. Paths below that directory are lists of names that contain no
    slash and are not empty, "." or ".."; the operating system's calls fail
    only for what is or is not there.

    A store is the class [Store] with its laws; the file system store is an
    instance, the remote ones are parameters. *)

From S2P Require Import Prelude ArtifactTree.
From Stdlib Require Import Ascii.
From stdpp Require Import sorting.
Local Open Scope go_scope.

#[local] Set Warnings "-register-all".

(** ** Files *)

(** A file or directory. *)
Inductive fnode :=
  | FDir (entries : gmap string fnode)
  | FFile (data : bytes).

(** os.Stat, os.Open *)
Fixpoint fs_get (path : list string) (n : fnode) : option fnode :=
  match path, n with
  | [], _ => Some n
  | name :: rest, FDir m => m !! name ≫= fs_get rest
  | _ :: _, FFile _ => None
  end.

(** os.MkdirAll for the directory of the path, and os.Rename of a new file to
    the path; [None] is an error. *)
Fixpoint fs_write (path : list string) (data : bytes) (n : fnode) : option fnode :=
  match path, n with
  | [], _ | _, FFile _ => None
  | name :: rest, FDir m =>
      match rest with
      | [] => match m !! name with
              | Some (FDir _) => None
              | _ => Some (FDir (<[name := FFile data]> m))
              end
      | _ => match fs_write rest data (default (FDir ∅) (m !! name)) with
             | Some n' => Some (FDir (<[name := n']> m))
             | None => None
             end
      end
  end.

(** os.ReadDir sorts by name. *)
Definition ReadDir {A} (m : gmap string A) : list (string * A) := merge_sort name_le (map_to_list m).

(** ** Hashes *)

(** hash/fnv: New128a. *)
Definition fnv_offset : Z := 144066263297769815596495629667062367629.
Definition fnv_prime : Z := 309485009821345068724781371.
Definition byte_val (b : byte) : Z := Z.of_N (Byte.to_N b).

Definition fnv1a (data : bytes) : Z :=
  fold_left (fun h b => Z.modulo (Z.lxor h (byte_val b) * fnv_prime) (2 ^ 128))%Z data fnv_offset.

(** encoding/hex, of the sum in 16 bytes. *)
Definition hex_digit (z : Z) : ascii :=
  ascii_of_nat (Z.to_nat (if (z <? 10)%Z then 48 + z else 87 + z)).
Fixpoint hex (digits : nat) (z : Z) (acc : string) : string :=
  match digits with
  | O => acc
  | S n => hex n (Z.shiftr z 4) (String (hex_digit (Z.land z 15)) acc)
  end.

(** [computeHash]. *)
Definition computeHash (data : bytes) : string := hex 32 (fnv1a data) EmptyString.

(** ** Stores *)

Inductive artifactErr :=
  | NotFoundHash (hash : string)     (* NewArtifactNotFoundHashError *)
  | NotFoundPath (path : string)     (* NewArtifactNotFoundPathError *)
  | OSErr (msg : string)
  | ErrWrapped (msg : string) (e : artifactErr)
  | NilMapPanic.                     (* the runtime panics: assignment to a nil map *)

(** [IsNotFoundError]. *)
Fixpoint IsNotFoundError (e : artifactErr) : bool :=
  match e with
  | NotFoundHash _ | NotFoundPath _ => true
  | ErrWrapped _ e => IsNotFoundError e
  | _ => false
  end.

(** The interface [Store]. *)
Class Store (St : Type) := {
  st_Contains : string -> St -> option artifactErr;
  st_Load : string -> St -> bytes + artifactErr;
  st_Store : string -> bytes -> St -> St * option artifactErr;
}.

(** What stores promise: contents are found again by the hash they were stored
    with, and storing changes no other hash. *)
Class StoreLaws (St : Type) `{Store St} := {
  store_load h d s s' : st_Store h d s = (s', None) -> st_Load h s' = inl d;
  store_other h h' d s s' e : st_Store h d s = (s', e) -> h' <> h -> st_Load h' s' = st_Load h' s;
  load_contains h s : st_Contains h s = None <-> exists d, st_Load h s = inl d;
}.

(** [fileSystemStore]: the files of its directory. *)
Abbreviation fileSystemStore := (gmap string bytes).

#[export] Instance fs_store : Store fileSystemStore := {|
  st_Contains hash s := if s !! hash is Some _ then None else Some (NotFoundHash hash);
  st_Load hash s := match s !! hash with Some d => inl d | None => inr (NotFoundHash hash) end;
  st_Store hash d s := (<[hash := d]> s, None);
|}.

#[export] Instance fs_store_laws : StoreLaws fileSystemStore.
Proof.
  split; cbn.
  - intros h d s s' [= <-]. by rewrite lookup_insert_eq.
  - intros h h' d s s' e [= <- <-] Hne. by rewrite lookup_insert_ne.
  - intros h s. destruct (s !! h); naive_solver.
Qed.

(** ** The cache *)

(** [cachedStore] with its configuration and the directory [rootDir]; without
    a source the cache is its own. *)
Record cachedStore (Src : Type) := mkCachedStore {
  cs_cache : fileSystemStore;
  cs_source : option Src;
  cs_tree : TreeNodeTree;
  cs_ignoreSet : gset string;
  cs_SourcePullSizeLimit : Z;
  cs_treeFile : option json;       (* tree.json *)
  cs_rootDir : string;
  cs_root : fnode;
}.
Arguments mkCachedStore {Src} _ _ _ _ _ _ _ _.
Arguments cs_cache {Src} _.
Arguments cs_source {Src} _.
Arguments cs_tree {Src} _.
Arguments cs_ignoreSet {Src} _.
Arguments cs_SourcePullSizeLimit {Src} _.
Arguments cs_treeFile {Src} _.
Arguments cs_rootDir {Src} _.
Arguments cs_root {Src} _.

Section Cache.
Context {Src : Type} `{!Store Src}.
Implicit Types s : cachedStore Src.

Definition cs_set_stores c src s : cachedStore Src := mkCachedStore c src (cs_tree s) (cs_ignoreSet s)
  (cs_SourcePullSizeLimit s) (cs_treeFile s) (cs_rootDir s) (cs_root s).
Definition cs_set_tree v s : cachedStore Src := mkCachedStore (cs_cache s) (cs_source s) v (cs_ignoreSet s)
  (cs_SourcePullSizeLimit s) (cs_treeFile s) (cs_rootDir s) (cs_root s).
Definition cs_set_treeFile v s : cachedStore Src := mkCachedStore (cs_cache s) (cs_source s) (cs_tree s) (cs_ignoreSet s)
  (cs_SourcePullSizeLimit s) v (cs_rootDir s) (cs_root s).
Definition cs_set_root v s : cachedStore Src := mkCachedStore (cs_cache s) (cs_source s) (cs_tree s) (cs_ignoreSet s)
  (cs_SourcePullSizeLimit s) (cs_treeFile s) (cs_rootDir s) v.

(** The calls of [s.source]. *)
Definition source_Contains (hash : string) s : option artifactErr :=
  match cs_source s with None => st_Contains hash (cs_cache s) | Some src => st_Contains hash src end.
Definition source_Load (hash : string) s : bytes + artifactErr :=
  match cs_source s with None => st_Load hash (cs_cache s) | Some src => st_Load hash src end.
Definition source_Store (hash : string) (data : bytes) s : cachedStore Src * option artifactErr :=
  match cs_source s with
  | None => let '(c, e) := st_Store hash data (cs_cache s) in (cs_set_stores c None s, e)
  | Some src => let '(src', e) := st_Store hash data src in (cs_set_stores (cs_cache s) (Some src') s, e)
  end.

(** [Contains]. *)
Definition cs_Contains (hash : string) s : option artifactErr :=
  match st_Contains hash (cs_cache s) with
  | None => None
  | Some err => if negb (IsNotFoundError err) then Some err else source_Contains hash s
  end.

(** [Load]. *)
Definition cs_Load (hash : string) s : bytes + artifactErr :=
  match st_Load hash (cs_cache s) with
  | inl d => inl d
  | inr err => if negb (IsNotFoundError err) then inr err else source_Load hash s
  end.

(** [store], and [Store] of the data that its reader gives. *)
Definition cs_store (hash : string) (data : bytes) s : cachedStore Src * option artifactErr :=
  match source_Store hash data s with
  | (s1, Some err) => (s1, Some err)
  | (s1, None) =>
      let '(c, e) := st_Store hash data (cs_cache s1) in (cs_set_stores c (cs_source s1) s1, e)
  end.

(** [commitFn]. *)
Definition commitFn s : cachedStore Src := cs_set_treeFile (Some (encode_tree (cs_tree s))) s.

(** strings.TrimPrefix *)
Definition TrimPrefix (p str : string) : string :=
  if String.prefix p str
  then String.substring (String.length p) (String.length str - String.length p) str else str.

(** [Remove]. *)
Definition Remove (path : string) s : cachedStore Src :=
  let path1 := if String.prefix (cs_rootDir s) path then TrimPrefix (cs_rootDir s +:+ "/")%string path
               else path in
  let path2 := if bool_decide (path1 = "/"%string) then path1 else TrimPrefix "/" path1 in
  commitFn (cs_set_tree (RemovePath path2 (cs_tree s)) s).

(** *** Ensure *)

(** [emplaceFile] into a path below the root. *)
Definition emplaceFile (hash : string) (path : list string) s : cachedStore Src * option artifactErr :=
  match st_Contains hash (cs_cache s) with
  | Some err => (s, Some err)
  | None =>
      let write :=
        match st_Load hash (cs_cache s) with
        | inr err => (s, Some err)
        | inl data =>
            match fs_write path data (cs_root s) with
            | Some root => (cs_set_root root s, None)
            | None => (s, Some (OSErr "mkdir"))
            end
        end in
      match fs_get path (cs_root s) with
      | Some (FDir _) => (s, Some (OSErr "is a directory"))
      | Some (FFile data) => if bool_decide (computeHash data = hash) then (s, None) else write
      | None => write
      end
  end.

(** The part of [ensureNode] for an external node; the result says whether the
    path is returned or, for a node that is too large, nothing. *)
Definition ensureExternal (e : TreeNodeExternal) (dst : list string) (ignoreLimit : bool) s
    : cachedStore Src * (bool + artifactErr) :=
  let nodeHash := te_Hash e in
  let emplace s := match emplaceFile nodeHash dst s with
                   | (s', None) => (s', inl true)
                   | (s', Some err) => (s', inr (ErrWrapped "error emplacing into file system cache" err))
                   end in
  match st_Contains nodeHash (cs_cache s) with
  | None => emplace s
  | Some err =>
      if negb (IsNotFoundError err)
      then (s, inr (ErrWrapped "error checking if hash is in file system cache" err))
      else if negb ignoreLimit && negb (cs_SourcePullSizeLimit s =? 0)%Z
              && (te_Size e >? cs_SourcePullSizeLimit s)%Z
      then (s, inl false)
      else
        match source_Load nodeHash s with
        | inr err => (s, inr (ErrWrapped "error loading from source cache" err))
        | inl data =>
            match st_Store nodeHash data (cs_cache s) with
            | (c, Some err) => (cs_set_stores c (cs_source s) s,
                                inr (ErrWrapped "error storing into file system cache" err))
            | (c, None) => emplace (cs_set_stores c (cs_source s) s)
            end
        end
  end.

(** The loop over the children of an internal node. *)
Fixpoint ensure_children
    (children : list (string * (list string -> cachedStore Src -> cachedStore Src * (bool + artifactErr))))
    (dst : list string) s : cachedStore Src * (bool + artifactErr) :=
  match children with
  | [] => (s, inl true)
  | (name, ensure) :: children' =>
      match ensure (dst ++ [name]) s with
      | (s', inr err) => (s', inr err)
      | (s', inl _) => ensure_children children' dst s'
      end
  end.

(** [ensureNode]; the order in which Go ranges over a map is not specified,
    here it is the order of the map's list. *)
Fixpoint ensureNode (ignoreLimit : bool) (node : TreeNode) (dst : list string) s
    : cachedStore Src * (bool + artifactErr) :=
  match node with
  | Internal m => ensure_children (map_to_list (ensureNode ignoreLimit <$> m)) dst s
  | External e => ensureExternal e dst ignoreLimit s
  end.

(** [NewPath], as the path below the root. *)
Definition NewPath (to : string) : list string :=
  filter (fun name => name <> EmptyString) (split_slash to).

(** [Ensure]. *)
Definition Ensure (path : string) (ignoreLimit : bool) s : cachedStore Src * (bool + artifactErr) :=
  match config_Lookup path (cs_tree s) with
  | None => (s, inr (NotFoundPath path))
  | Some node => ensureNode ignoreLimit node (NewPath path) s
  end.

(** *** Clean *)

(** The loop of [cleanTree] over the entries of a directory, with the map of
    what is still there; an entry carries the cleaning of its directory. *)
Fixpoint clean_entries (entries : list (string * (TreeNodeTree -> fnode * option artifactErr)))
    (tree : gmap string TreeNode) (m : gmap string fnode) : gmap string fnode * option artifactErr :=
  match entries with
  | [] => (m, None)
  | (name, clean) :: entries' =>
      match tree !! name with
      | Some (Internal t) =>
          match clean (Some t) with
          | (n, Some err) => (<[name := n]> m, Some err)
          | (n, None) => clean_entries entries' tree (<[name := n]> m)
          end
      | Some (External _) => clean_entries entries' tree m
      | None => clean_entries entries' tree (delete name m)
      end
  end.

(** [cleanTree]: what is left of the directory. *)
Fixpoint cleanTree (local : fnode) (tree : TreeNodeTree) : fnode * option artifactErr :=
  match local with
  | FFile _ => (local, Some (OSErr "not a directory"))
  | FDir m =>
      let '(m', err) := clean_entries (ReadDir (cleanTree <$> m)) (default ∅ tree) m in (FDir m', err)
  end.

(** [Clean]. *)
Definition Clean s : cachedStore Src * option artifactErr :=
  let '(root, err) := cleanTree (cs_root s) (cs_tree s) in (cs_set_root root s, err).

(** *** The walk over the user's files *)

(** [nodeChangeType]. *)
Inductive nodeChangeType := nodeChangeTypeUnstored | nodeChangeTypeModified.

(** A map of the tree is a reference: the one that the walk holds is the map
    at [treePath] of the tree in the state, which a visit may change. *)
Definition tree_at (treePath : list string) (tree : TreeNodeTree) : TreeNodeTree :=
  match treePath with
  | [] => tree
  | _ => tnt_lookup treePath tree ≫= tn_internal
  end.

(** The map at a path is now [m]. *)
Fixpoint tree_upd (treePath : list string) (m : gmap string TreeNode) (tree : TreeNodeTree)
    : TreeNodeTree :=
  match treePath, tree with
  | [], _ => Some m
  | name :: rest, Some t =>
      match t !! name with
      | Some (Internal t') => Some (<[name := Internal (default t' (tree_upd rest m (Some t')))]> t)
      | _ => tree
      end
  | _, None => None
  end.

Section Walk.
Context {St : Type} (ignoreSet : gset string).
(** [visit]; the local path is the tree path below the root. *)
Context (visit : nodeChangeType -> string -> list string -> bytes ->
                 TreeNodeTree * St -> (TreeNodeTree * St) * option artifactErr).

(** A file of the walk. *)
Definition walk_file (treePath : list string) (name : string) (data : bytes) (w : TreeNodeTree * St)
    : (TreeNodeTree * St) * option artifactErr :=
  let existingNode := tree_at treePath w.1 ≫= lookup name in
  let nodeHash := computeHash data in
  match existingNode with
  | Some (External e) =>
      if bool_decide (te_Hash e = nodeHash) then (w, None)
      else visit nodeChangeTypeModified nodeHash (treePath ++ [name]) data w
  | Some (Internal _) => visit nodeChangeTypeModified nodeHash (treePath ++ [name]) data w
  | None => visit nodeChangeTypeUnstored nodeHash (treePath ++ [name]) data w
  end.

(** A directory of the walk, before it is entered: its node is made internal. *)
Definition walk_enter (treePath : list string) (name : string) (tree : TreeNodeTree)
    : TreeNodeTree + artifactErr :=
  match tree_at treePath tree with
  | None => inr NilMapPanic
  | Some t =>
      match t !! name with
      | Some (Internal _) => inl tree
      | _ => inl (tree_upd treePath (<[name := Internal ∅]> t) tree)
      end
  end.

(** The loop over the entries of a directory, each with its own walk. *)
Fixpoint walk_entries
    (entries : list (string * (fnode * (list string -> TreeNodeTree * St ->
                                        (TreeNodeTree * St) * option artifactErr))))
    (treePath : list string) (w : TreeNodeTree * St) : (TreeNodeTree * St) * option artifactErr :=
  match entries with
  | [] => (w, None)
  | (name, (child, walk)) :: entries' =>
      let '(w1, err) :=
        match child with
        | FDir _ =>
            match walk_enter treePath name w.1 with
            | inr err => (w, Some err)
            | inl tree => walk (treePath ++ [name]) (tree, w.2)
            end
        | FFile data =>
            if bool_decide (name ∈ ignoreSet) then (w, None) else walk_file treePath name data w
        end in
      match err with
      | Some _ => (w1, err)
      | None => walk_entries entries' treePath w1
      end
  end.

(** [walkUserTreeUncached]. *)
Fixpoint walkUserTreeUncached (local : fnode) (treePath : list string) (w : TreeNodeTree * St)
    : (TreeNodeTree * St) * option artifactErr :=
  match local with
  | FFile _ => (w, Some (OSErr "not a directory"))
  | FDir m => walk_entries (ReadDir ((fun child => (child, walkUserTreeUncached child)) <$> m)) treePath w
  end.
End Walk.

(** [writeThroughUserTree]: the visit stores the contents and the hash. The
    tree of the cache is the one of the walk. *)
Definition write_visit (ct : nodeChangeType) (nodeHash : string) (treePath : list string) (data : bytes)
    (w : TreeNodeTree * cachedStore Src) : (TreeNodeTree * cachedStore Src) * option artifactErr :=
  match cs_store nodeHash data w.2 with
  | (s', Some err) => ((w.1, s'), Some err)
  | (s', None) => ((StoreHash nodeHash (len data) treePath w.1, s'), None)
  end.

Definition writeThroughUserTree s : cachedStore Src * option artifactErr :=
  let '((tree, s'), err) :=
    walkUserTreeUncached (cs_ignoreSet s) write_visit (cs_root s) [] (cs_tree s, s) in
  (cs_set_tree tree s', err).

(** [WriteThroughUser]. *)
Definition WriteThroughUser s : cachedStore Src * option artifactErr :=
  match writeThroughUserTree s with
  | (s', Some err) => (s', Some err)
  | (s', None) => (commitFn s', None)
  end.

(** [Status], with paths below the root. *)
Record Status := mkStatus { Modified : list (list string); Unstored : list (list string) }.

Definition status_visit (ct : nodeChangeType) (nodeHash : string) (treePath : list string) (data : bytes)
    (w : TreeNodeTree * Status) : (TreeNodeTree * Status) * option artifactErr :=
  (w.1, match ct with
        | nodeChangeTypeUnstored => mkStatus (Modified w.2) (Unstored w.2 ++ [treePath])
        | nodeChangeTypeModified => mkStatus (Modified w.2 ++ [treePath]) (Unstored w.2)
        end, None).

Definition cs_Status s : cachedStore Src * (Status + artifactErr) :=
  let '((tree, status), err) :=
    walkUserTreeUncached (cs_ignoreSet s) status_visit (cs_root s) [] (cs_tree s, mkStatus [] []) in
  (cs_set_tree tree s, match err with Some e => inr e | None => inl status end).
End Cache.

(** ** Specification of the walk *)

(** The tree of a directory: every file that is not ignored becomes an external
    node with the hash and size of its contents, unless it is one with that
    hash already; every directory becomes an internal node; what the directory
    does not have stays as it was. *)
Fixpoint sync_node (ignoreSet : gset string) (name : string) (local : fnode) (old : option TreeNode)
    : option TreeNode :=
  match local with
  | FFile data =>
      if bool_decide (name ∈ ignoreSet) then old
      else
        match old with
        | Some (External e) =>
            if bool_decide (te_Hash e = computeHash data) then old
            else Some (External (mkExternal (computeHash data) (len data)))
        | _ => Some (External (mkExternal (computeHash data) (len data)))
        end
  | FDir m =>
      Some (Internal (merge (fun sync old => match sync with
                                             | Some f => f old
                                             | None => old
                                             end)
                        (map_imap (fun name child => Some (sync_node ignoreSet name child)) m)
                        (default ∅ (old ≫= tn_internal))))
  end.
