(* ===== verification/ArtifactSync.v ===== *)
(** * What the operations of the artifact cache achieve

    The theorems about [ArtifactCache]: writing through makes the tree the one
    of the user's files and their contents available, ensuring gives the files
    back, the status after writing through is empty, and cleaning removes
    exactly what the tree does not have. *)

From S2P Require Import Prelude ArtifactTree ArtifactCache.
From stdpp Require Import sorting.
Local Open Scope go_scope.

#[local] Opaque computeHash.

(** ** Files by induction *)

Fixpoint fnode_size (n : fnode) : nat :=
  match n with
  | FDir m => S (map_fold (fun _ c acc => fnode_size c + acc) 0 m)
  | FFile _ => 1
  end.

Lemma fnode_size_child m k c : m !! k = Some c -> fnode_size c < fnode_size (FDir m).
Proof.
  intros Hc. cbn [fnode_size].
  rewrite (map_fold_delete_L (fun _ c acc => fnode_size c + acc) 0 k c m); [lia| |done].
  intros. lia.
Qed.

(** A file or directory by its entries. *)
Lemma fnode_tree_ind (P : fnode -> Prop) :
  (forall m, map_Forall (fun _ => P) m -> P (FDir m)) -> (forall d, P (FFile d)) -> forall n, P n.
Proof.
  intros Hd Hf n. remember (fnode_size n) as k eqn:Hk. revert n Hk.
  induction k as [k IH] using lt_wf_ind. intros [m|d] ->; [|done].
  apply Hd. intros name c Hc. eapply IH; [by eapply fnode_size_child | done].
Qed.

(** The entries of a directory, each once. *)
Lemma ReadDir_perm {A} (m : gmap string A) : ReadDir m ≡ₚ map_to_list m.
Proof. apply merge_sort_Permutation. Qed.

Lemma ReadDir_elem {A} (m : gmap string A) name x : (name, x) ∈ ReadDir m <-> m !! name = Some x.
Proof. by rewrite ReadDir_perm, elem_of_map_to_list. Qed.

Lemma ReadDir_NoDup {A} (m : gmap string A) : NoDup (ReadDir m).*1.
Proof. rewrite ReadDir_perm. apply NoDup_fst_map_to_list. Qed.

(** ** The map at a path *)

Lemma tree_at_cons name rest t :
  tree_at (name :: rest) (Some t) = (t !! name ≫= tn_internal) ≫= fun t' => tree_at rest (Some t').
Proof.
  unfold tree_at. simpl. destruct (t !! name) as [[t'|e]|]; simpl; [|by destruct rest as [|? []]|done].
  by destruct rest.
Qed.

(** Case analysis on the first step of a path that exists. *)
Lemma tree_at_cons_inv name rest T t :
  tree_at (name :: rest) T = Some t ->
  exists t0 t1, T = Some t0 /\ t0 !! name = Some (Internal t1) /\ tree_at rest (Some t1) = Some t.
Proof.
  destruct T as [t0|]; [|done]. rewrite tree_at_cons.
  destruct (t0 !! name) as [[t1|e]|] eqn:Hn; simpl; [|done|done].
  intros Hat. by exists t0, t1.
Qed.

Lemma tree_upd_cons name rest m t t1 :
  t !! name = Some (Internal t1) ->
  tree_upd (name :: rest) m (Some t) =
  Some (<[name := Internal (default t1 (tree_upd rest m (Some t1)))]> t).
Proof. intros Ht. simpl. by rewrite Ht. Qed.

Lemma tree_upd_some path m t : exists t', tree_upd path m (Some t) = Some t'.
Proof. destruct path as [|name rest]; simpl; [by eexists|]. destruct (t !! name) as [[]|]; by eexists. Qed.

Lemma tree_at_upd path m T t : tree_at path T = Some t -> tree_at path (tree_upd path m T) = Some m.
Proof.
  revert T. induction path as [|name rest IH]; intros T Hat; [done|].
  apply tree_at_cons_inv in Hat as (t0 & t1 & -> & Hn & Hat). rewrite (tree_upd_cons _ _ _ _ _ Hn).
  destruct (tree_upd_some rest m t1) as [t' Ht']. specialize (IH _ Hat). rewrite Ht' in *.
  rewrite tree_at_cons, lookup_insert_eq. done.
Qed.

Lemma tree_upd_upd path m m' T t :
  tree_at path T = Some t -> tree_upd path m' (tree_upd path m T) = tree_upd path m' T.
Proof.
  revert T. induction path as [|name rest IH]; intros T Hat; [done|].
  apply tree_at_cons_inv in Hat as (t0 & t1 & -> & Hn & Hat). rewrite (tree_upd_cons _ _ _ _ _ Hn).
  destruct (tree_upd_some rest m t1) as [t' Ht']. specialize (IH _ Hat). rewrite Ht' in *.
  rewrite (tree_upd_cons _ _ m' _ t') by apply lookup_insert_eq.
  rewrite (tree_upd_cons _ _ m' _ t1) by done. rewrite insert_insert_eq. cbv beta iota delta [default id].
  rewrite IH. by destruct (tree_upd_some rest m' t1) as [? ->].
Qed.

Lemma tree_upd_id path T t : tree_at path T = Some t -> tree_upd path t T = T.
Proof.
  revert T. induction path as [|name rest IH]; intros T Hat; [done|].
  apply tree_at_cons_inv in Hat as (t0 & t1 & -> & Hn & Hat).
  rewrite (tree_upd_cons _ _ _ _ _ Hn), (IH _ Hat). cbv beta iota delta [default id].
  by rewrite insert_id.
Qed.

Lemma tree_at_snoc path name T t :
  tree_at path T = Some t -> tree_at (path ++ [name]) T = t !! name ≫= tn_internal.
Proof.
  revert T. induction path as [|n rest IH]; intros T Hat.
  - simpl in Hat. subst. by destruct (t !! name) as [[]|] eqn:E; simpl; rewrite E.
  - apply tree_at_cons_inv in Hat as (t0 & t1 & -> & Hn & Hat).
    rewrite <- app_comm_cons, tree_at_cons, Hn. simpl. by apply IH.
Qed.

Lemma tree_upd_snoc path name m T t t1 :
  tree_at path T = Some t -> t !! name = Some (Internal t1) ->
  tree_upd (path ++ [name]) m T = tree_upd path (<[name := Internal m]> t) T.
Proof.
  intros Hat Ht. revert T Hat. induction path as [|n rest IH]; intros T Hat.
  - simpl in Hat. subst. simpl. by rewrite Ht.
  - apply tree_at_cons_inv in Hat as (t0 & t1' & -> & Hn & Hat).
    rewrite <- app_comm_cons, !(tree_upd_cons _ _ _ _ _ Hn). by rewrite (IH _ Hat).
Qed.

Lemma storeHash_snoc h z path name T t :
  tree_at path T = Some t ->
  storeHash h z (path ++ [name]) T = tree_upd path (<[name := External (mkExternal h z)]> t) T.
Proof.
  revert T. induction path as [|n rest IH]; intros T Hat; [simpl in Hat; by subst|].
  apply tree_at_cons_inv in Hat as (t0 & t1 & -> & Hn & Hat).
  rewrite (tree_upd_cons _ _ _ _ _ Hn). rewrite <- (IH _ Hat).
  rewrite <- app_comm_cons. destruct (rest ++ [name]) as [|n2 l] eqn:Hl; [by destruct rest|].
  rewrite storeHash_cons, Hn. cbn [mbind option_bind tn_internal]. cbv beta zeta iota delta [default id].
  by destruct (storeHash_some h z (n2 :: l) t1) as [t' ->].
Qed.

(** A path that exists in the tree is a part of its manifest. *)
Lemma manifest_at path T t q :
  tree_at path T = Some t -> q <> [] -> tree_manifest T (path ++ q) = tree_manifest (Some t) q.
Proof.
  intros Hat Hq. revert T Hat. induction path as [|n rest IH]; intros T Hat; [simpl in Hat; by subst|].
  apply tree_at_cons_inv in Hat as (t0 & t1 & -> & Hn & Hat).
  rewrite <- app_comm_cons, manifest_cons, Hn. by apply IH.
Qed.

(** ** The tree of a directory *)

(** The tree that a directory and an old tree make. *)
Definition sync_dir (ignoreSet : gset string) (m : gmap string fnode) (t : gmap string TreeNode)
    : gmap string TreeNode :=
  merge (fun sync old => match sync with Some f => f old | None => old end)
    (map_imap (fun name child => Some (sync_node ignoreSet name child)) m) t.

Lemma sync_node_dir ign name m old :
  sync_node ign name (FDir m) old = Some (Internal (sync_dir ign m (default ∅ (old ≫= tn_internal)))).
Proof. done. Qed.

Lemma sync_dir_lookup ign m t name :
  sync_dir ign m t !! name =
  match m !! name with Some child => sync_node ign name child (t !! name) | None => t !! name end.
Proof.
  unfold sync_dir. rewrite lookup_merge, map_lookup_imap. unfold diag_None.
  by destruct (m !! name), (t !! name).
Qed.

Lemma sync_node_idemp ign name n old : sync_node ign name n (sync_node ign name n old) = sync_node ign name n old.
Proof.
  revert name old. induction n as [m IH|d] using fnode_tree_ind; intros name old.
  - rewrite !sync_node_dir. simpl. do 2 f_equal. apply map_eq. intros k. rewrite !sync_dir_lookup.
    destruct (m !! k) as [c|] eqn:Hk; [by apply (IH k c Hk) | done].
  - simpl. case_bool_decide; [done|]. destruct old as [[t|e]|]; simpl.
    + by rewrite bool_decide_eq_true_2.
    + by repeat case_bool_decide.
    + by rewrite bool_decide_eq_true_2.
Qed.

(** ** The walk *)

Section Walk.
Context {St : Type} (ignoreSet : gset string).
Context (visit : nodeChangeType -> string -> list string -> bytes ->
                 TreeNodeTree * St -> (TreeNodeTree * St) * option artifactErr).

Abbreviation walk := (walkUserTreeUncached ignoreSet visit).
Abbreviation entry_of := (fun child => (child, walkUserTreeUncached ignoreSet visit child)).

(** The entry of a directory, as one step of the loop. *)
Definition walk_entry (name : string) (child : fnode) (treePath : list string) (w : TreeNodeTree * St)
    : (TreeNodeTree * St) * option artifactErr :=
  match child with
  | FDir _ =>
      match walk_enter treePath name w.1 with
      | inr err => (w, Some err)
      | inl tree => walk child (treePath ++ [name]) (tree, w.2)
      end
  | FFile data =>
      if bool_decide (name ∈ ignoreSet) then (w, None) else walk_file visit treePath name data w
  end.

(** The loop as a fold over the entries of the directory. *)
Fixpoint walk_list (es : list (string * fnode)) (treePath : list string) (w : TreeNodeTree * St)
    : (TreeNodeTree * St) * option artifactErr :=
  match es with
  | [] => (w, None)
  | (name, child) :: es' =>
      match walk_entry name child treePath w with
      | (w1, Some err) => (w1, Some err)
      | (w1, None) => walk_list es' treePath w1
      end
  end.

Lemma walk_entries_list es treePath w :
  walk_entries ignoreSet visit (prod_map id entry_of <$> es) treePath w = walk_list es treePath w.
Proof.
  revert w. induction es as [|[name child] es IH]; intros w; [done|].
  cbn [fmap list_fmap prod_map fst snd walk_entries walk_list]. unfold walk_entry, id.
  destruct child as [m|d].
  - destruct (walk_enter treePath name w.1) as [tree|err]; [|done].
    destruct (walk (FDir m) _ _) as [w1 [err|]]; [done | apply IH].
  - destruct (bool_decide _); [apply IH|]. destruct (walk_file _ _ _ _ _) as [w1 [err|]]; [done | apply IH].
Qed.

(** A directory is walked entry by entry, each of them once. *)
Lemma walk_dir m treePath w :
  exists es, es ≡ₚ map_to_list m /\ walk (FDir m) treePath w = walk_list es treePath w.
Proof.
  assert (Hp : ReadDir (entry_of <$> m) ≡ₚ map (prod_map id entry_of) (map_to_list m)).
  { rewrite ReadDir_perm, map_to_list_fmap. done. }
  apply Permutation_map_inv in Hp as (es & Heq & Hp). exists es. split; [by symmetry|].
  rewrite <- walk_entries_list. cbn [walkUserTreeUncached]. by rewrite Heq.
Qed.

(** What every visit of a file and every step into a directory preserves holds
    after a walk that does not fail. *)
Lemma walk_invariant (C : bytes -> Prop) (P : TreeNodeTree * St -> Prop) :
  (forall ct p name d w w', C d -> P w -> visit ct (computeHash d) (p ++ [name]) d w = (w', None) -> P w') ->
  (forall p name w tree, P w -> walk_enter p name w.1 = inl tree -> P (tree, w.2)) ->
  forall n treePath w w', (forall p d, fs_get p n = Some (FFile d) -> C d) ->
    P w -> walk n treePath w = (w', None) -> P w'.
Proof.
  intros Hv He n. induction n as [m IH|d] using fnode_tree_ind; intros treePath w w' Hfiles Hw; [|done].
  destruct (walk_dir m treePath w) as (es & Hp & ->).
  assert (Hes : Forall (fun e => m !! e.1 = Some e.2) es).
  { apply Forall_forall. intros [k c] Hin. rewrite Hp in Hin. by apply elem_of_map_to_list in Hin. }
  clear Hp. revert w Hw. induction Hes as [|[k c] es Hk _ IHes]; intros w Hw; [by intros [= <-]|].
  simpl in Hk |- *. destruct (walk_entry k c treePath w) as [w1 [err|]] eqn:Hent; [done|].
  apply IHes. unfold walk_entry in Hent. destruct c as [m'|d].
  - destruct (walk_enter treePath k w.1) as [tree|err] eqn:Hen; [|done].
    apply (IH k _ Hk (treePath ++ [k]) (tree, w.2) w1); [|by eapply He|done].
    intros p d Hd. apply (Hfiles (k :: p)). simpl. by rewrite Hk.
  - destruct (bool_decide _); [by simplify_eq|].
    assert (C d) by (apply (Hfiles [k]); simpl; by rewrite Hk). unfold walk_file in Hent.
    destruct (tree_at treePath w.1 ≫= _) as [[t|e]|]; [by eapply Hv| |by eapply Hv].
    destruct (bool_decide _); [by simplify_eq | by eapply Hv].
Qed.

(** *** A walk that stores what it visits *)

(** The visits store the hash in the tree, unless they fail. *)
Definition visit_stores : Prop := forall ct h p d w w',
  visit ct h p d w = (w', None) -> w'.1 = storeHash h (len d) p w.1.

(** A step of the loop does to the map what [sync_node] says. *)
Definition entry_synced (name : string) (child : fnode) (t t1 : gmap string TreeNode) : Prop :=
  forall k, t1 !! k = if decide (k = name) then sync_node ignoreSet name child (t !! name) else t !! k.

Lemma walk_file_synced treePath name d w w' t :
  visit_stores -> name ∉ ignoreSet -> tree_at treePath w.1 = Some t ->
  walk_file visit treePath name d w = (w', None) ->
  exists t1, w'.1 = tree_upd treePath t1 w.1 /\ entry_synced name (FFile d) t t1.
Proof.
  intros Hv Hi Hat Hw.
  assert (Hstore : forall ct, visit ct (computeHash d) (treePath ++ [name]) d w = (w', None) ->
    w'.1 = tree_upd treePath (<[name := External (mkExternal (computeHash d) (len d))]> t) w.1).
  { intros ct Hc. rewrite (Hv _ _ _ _ _ _ Hc). by apply storeHash_snoc. }
  unfold walk_file in Hw. rewrite Hat in Hw. simpl in Hw.
  assert (Hins : forall o, t !! name = o ->
    (forall e, o = Some (External e) -> te_Hash e <> computeHash d) ->
    entry_synced name (FFile d) t (<[name := External (mkExternal (computeHash d) (len d))]> t)).
  { intros o Ho Hne k. destruct (decide (k = name)) as [->|Hk]; [|by rewrite lookup_insert_ne].
    rewrite lookup_insert_eq. cbn [sync_node]. rewrite bool_decide_eq_false_2 by done.
    rewrite Ho. destruct o as [[t'|e]|]; [done| |done].
    rewrite bool_decide_eq_false_2; [done|]. by apply Hne. }
  destruct (t !! name) as [[t'|e]|] eqn:Ho.
  - eexists. split; [by eapply Hstore|]. apply (Hins _ eq_refl). by intros e' [=].
  - case_bool_decide as He.
    + simplify_eq. exists t. split; [by rewrite tree_upd_id|]. intros k. case_decide; [subst|done].
      cbn [sync_node]. rewrite Ho. rewrite bool_decide_eq_false_2 by done. by rewrite bool_decide_eq_true_2.
    + eexists. split; [by eapply Hstore|]. apply (Hins _ eq_refl). by intros e' [= <-].
  - eexists. split; [by eapply Hstore|]. apply (Hins _ eq_refl). by intros e' [=].
Qed.

Lemma walk_enter_spec treePath name T T' t :
  tree_at treePath T = Some t -> walk_enter treePath name T = inl T' ->
  exists t', T' = tree_upd treePath t' T /\
    t' !! name = Some (Internal (default ∅ (t !! name ≫= tn_internal))) /\
    forall k, k <> name -> t' !! k = t !! k.
Proof.
  intros Hat. unfold walk_enter. rewrite Hat. destruct (t !! name) as [[t1|e]|] eqn:Hn; intros [= <-].
  - exists t. by rewrite tree_upd_id.
  - eexists. split; [done|]. rewrite lookup_insert_eq. split; [done|]. intros k Hk. by rewrite lookup_insert_ne.
  - eexists. split; [done|]. rewrite lookup_insert_eq. split; [done|]. intros k Hk. by rewrite lookup_insert_ne.
Qed.

(** Walking a directory makes the map at its path the one of [sync_dir]. *)
Lemma walk_synced m treePath w w' t :
  visit_stores -> tree_at treePath w.1 = Some t -> walk (FDir m) treePath w = (w', None) ->
  w'.1 = tree_upd treePath (sync_dir ignoreSet m t) w.1.
Proof.
  intros Hv. remember (FDir m) as n eqn:Hn. revert m Hn treePath w w' t.
  induction n as [m IH|d] using fnode_tree_ind; [|done]. intros m0 [= <-] treePath w w' t Hat Hw.
  destruct (walk_dir m treePath w) as (es & Hp & Heq). rewrite Heq in Hw. clear Heq.
  enough (Hlist : forall es w w' t, NoDup es.*1 -> Forall (fun e => m !! e.1 = Some e.2) es ->
    tree_at treePath w.1 = Some t -> walk_list es treePath w = (w', None) ->
    exists t', w'.1 = tree_upd treePath t' w.1 /\
      forall k, t' !! k = if decide (k ∈ es.*1) then m !! k ≫= fun c => sync_node ignoreSet k c (t !! k)
                          else t !! k).
  { destruct (Hlist es w w' t) as (t' & -> & Hk); [|by apply Forall_forall; intros [k c] Hin;
      rewrite Hp in Hin; apply elem_of_map_to_list in Hin|done..|].
    { rewrite Hp. apply NoDup_fst_map_to_list. }
    f_equal. apply map_eq. intros k. rewrite Hk, sync_dir_lookup.
    case_decide as Hin; [by destruct (m !! k) eqn:E; [|apply list_elem_of_fmap in Hin as ([k' c] & -> & Hin);
      rewrite Hp in Hin; apply elem_of_map_to_list in Hin; simpl in E; congruence]|].
    destruct (m !! k) as [c|] eqn:E; [|done]. exfalso. apply Hin, list_elem_of_fmap. exists (k, c).
    split; [done|]. rewrite Hp. by apply elem_of_map_to_list. }
  clear es Hp w w' t Hat Hw. intros es.
  induction es as [|[name c] es IHes]; intros w w' t Hnd Hm Hat Hw.
  { simpl in Hw. simplify_eq. exists t. split; [by rewrite tree_upd_id|]. done. }
  apply NoDup_cons in Hnd as [Hnin Hnd]. apply Forall_cons in Hm as [Hc Hm]. simpl in Hc, Hw.
  destruct (walk_entry name c treePath w) as [w1 [err|]] eqn:He; [done|].
  assert (exists t1, w1.1 = tree_upd treePath t1 w.1 /\ entry_synced name c t t1) as (t1 & Hw1 & Hsync).
  { unfold walk_entry in He. destruct c as [m'|d].
    - destruct (walk_enter treePath name w.1) as [tree|err] eqn:Hen; [|done].
      destruct (walk_enter_spec _ _ _ _ _ Hat Hen) as (t0 & -> & Ht0 & Hother).
      assert (Hat0 := tree_at_upd _ t0 _ _ Hat).
      assert (Hat' := tree_at_snoc _ name _ _ Hat0). rewrite Ht0 in Hat'.
      cbn [mbind option_bind tn_internal] in Hat'.
      rewrite (IH name _ Hc m' eq_refl _ (tree_upd treePath t0 w.1, w.2) _ _ Hat' He). cbn [fst].
      rewrite (tree_upd_snoc _ _ _ _ _ _ Hat0 Ht0), (tree_upd_upd _ _ _ _ _ Hat).
      eexists. split; [done|]. intros k.
      destruct (decide (k = name)) as [->|Hk]; [by rewrite lookup_insert_eq|].
      rewrite lookup_insert_ne by done. by apply Hother.
    - case_bool_decide as Hi; [|by eapply walk_file_synced]. simplify_eq. exists t.
      split; [by rewrite tree_upd_id|]. intros k. case_decide; [subst|done]. cbn [sync_node].
      by rewrite bool_decide_eq_true_2. }
  assert (Hat1 : tree_at treePath w1.1 = Some t1) by (rewrite Hw1; by eapply tree_at_upd).
  destruct (IHes w1 w' t1 Hnd Hm Hat1 Hw) as (t' & Hw' & Hk). exists t'.
  split; [rewrite Hw', Hw1; by eapply tree_upd_upd|]. intros k. rewrite Hk, Hsync.
  destruct (decide (k = name)) as [->|Hne].
  - rewrite decide_False by done. rewrite decide_True by (simpl; left). by rewrite Hc.
  - destruct (decide (k ∈ es.*1)) as [Hin|Hin].
    + rewrite decide_True by (simpl; by right). done.
    + rewrite decide_False; [done|]. simpl. rewrite elem_of_cons. tauto.
Qed.

(** *** A walk over a tree that is in step *)

(** A walk over files whose tree is in step visits nothing. *)
Lemma walk_unchanged m treePath w t :
  tree_at treePath w.1 = Some t -> sync_dir ignoreSet m t = t -> walk (FDir m) treePath w = (w, None).
Proof.
  remember (FDir m) as n eqn:Hn. revert m Hn treePath w t.
  induction n as [m IH|d] using fnode_tree_ind; [|done]. intros m0 [= <-] treePath w t Hat Hs.
  destruct (walk_dir m treePath w) as (es & Hp & ->).
  assert (Hes : Forall (fun e => m !! e.1 = Some e.2) es).
  { apply Forall_forall. intros [k c] Hin. rewrite Hp in Hin. by apply elem_of_map_to_list in Hin. }
  clear Hp. induction Hes as [|[k c] es Hk _ IHes]; [done|]. simpl in Hk |- *.
  assert (Hkk : sync_node ignoreSet k c (t !! k) = t !! k).
  { rewrite <- Hs at 2. by rewrite sync_dir_lookup, Hk. }
  assert (walk_entry k c treePath w = (w, None)) as ->; [|done].
  unfold walk_entry. destruct c as [m'|d].
  - rewrite sync_node_dir in Hkk. unfold walk_enter. rewrite Hat. rewrite <- Hkk at 1.
    destruct (t !! k) as [[t1|e]|] eqn:E; simplify_eq. simpl in Hkk.
    replace (w.1, w.2) with w by (by destruct w). apply (IH k _ Hk m' eq_refl _ w t1); [|congruence].
    rewrite (tree_at_snoc _ _ _ _ Hat), E. done.
  - case_bool_decide as Hi; [done|]. unfold walk_file. rewrite Hat. simpl.
    cbn [sync_node] in Hkk. rewrite bool_decide_eq_false_2 in Hkk by done.
    destruct (t !! k) as [[t1|e]|] eqn:E; [done| |done].
    simpl. destruct (decide (te_Hash e = computeHash d)) as [He|He]; [by rewrite bool_decide_eq_true_2|].
    rewrite bool_decide_eq_false_2 in Hkk by done. destruct He. by simplify_eq.
Qed.
End Walk.

(** ** Writing through *)

(** A file that the user has and that is not ignored. *)
Definition user_file (ignoreSet : gset string) (root : fnode) (path : list string) (d : bytes) : Prop :=
  fs_get path root = Some (FFile d) /\ forall name, last path = Some name -> name ∉ ignoreSet.

Lemma sync_dir_manifest ign m t path d :
  user_file ign (FDir m) path d ->
  exists e, tree_manifest (Some (sync_dir ign m t)) path = Some e /\ te_Hash e = computeHash d.
Proof.
  revert m t. induction path as [|name rest IH]; intros m t [Hget Hlast]; [done|].
  simpl in Hget. destruct (m !! name) as [c|] eqn:Hc; [|done]. simpl in Hget.
  rewrite manifest_cons, sync_dir_lookup, Hc. destruct rest as [|n2 rest].
  - simpl in Hget. simplify_eq. cbn [sync_node].
    rewrite bool_decide_eq_false_2 by (by apply Hlast).
    destruct (t !! name) as [[t'|e]|]; [by eexists| |by eexists].
    destruct (decide (te_Hash e = computeHash d)) as [He|He].
    + rewrite bool_decide_eq_true_2 by done. by eexists.
    + rewrite bool_decide_eq_false_2 by done. by eexists.
  - destruct c as [m'|d']; [|done]. rewrite sync_node_dir. apply IH. split; [done|].
    intros n Hn. by apply Hlast.
Qed.

(** A store whose contents are under their hashes, and all among [C]. *)
Definition holds_contents (C : bytes -> Prop) (load : string -> bytes + artifactErr) : Prop :=
  forall h d, load h = inl d -> computeHash d = h /\ C d.

(** Everything that the tree names can be loaded. *)
Definition available (load : string -> bytes + artifactErr) (tree : TreeNodeTree) : Prop :=
  forall path e, tree_manifest tree path = Some e -> exists d, load (te_Hash e) = inl d.

Section WriteThrough.
Context {Src : Type} `{!Store Src, !StoreLaws Src}.
Implicit Types s : cachedStore Src.

Lemma source_Store_load h d s s' : source_Store h d s = (s', None) -> source_Load h s' = inl d.
Proof.
  unfold source_Store, source_Load. destruct (cs_source s) as [src|] eqn:Hs.
  - destruct (st_Store h d src) as [src' e] eqn:He. intros [= <- ->]. cbn [cs_source cs_cache cs_set_stores]. by eapply store_load.
  - destruct (st_Store h d (cs_cache s)) as [c e] eqn:He. intros [= <- ->]. cbn [cs_source cs_cache cs_set_stores]. by eapply store_load.
Qed.

Lemma source_Store_other h h' d s s' e :
  source_Store h d s = (s', e) -> h' <> h -> source_Load h' s' = source_Load h' s.
Proof.
  unfold source_Store, source_Load. intros Hst Hne. destruct (cs_source s) as [src|] eqn:Hs.
  - destruct (st_Store h d src) as [src' e'] eqn:He. simplify_eq. cbn [cs_source cs_cache cs_set_stores]. by eapply store_other.
  - destruct (st_Store h d (cs_cache s)) as [c e'] eqn:He. simplify_eq. cbn [cs_source cs_cache cs_set_stores]. by eapply store_other.
Qed.

(** The parts of the cache that storing does not touch. *)
Definition same_config s s' : Prop :=
  cs_tree s' = cs_tree s /\ cs_ignoreSet s' = cs_ignoreSet s /\
  cs_SourcePullSizeLimit s' = cs_SourcePullSizeLimit s /\ cs_treeFile s' = cs_treeFile s /\
  cs_rootDir s' = cs_rootDir s /\ cs_root s' = cs_root s.

Lemma source_Store_config h d s s' e : source_Store h d s = (s', e) -> same_config s s'.
Proof. unfold source_Store. destruct (cs_source s); destruct (st_Store _ _ _); intros; simplify_eq; done. Qed.

Lemma cs_store_spec h d s s' :
  cs_store h d s = (s', None) ->
  same_config s s' /\ source_Load h s' = inl d /\
  forall h', h' <> h -> source_Load h' s' = source_Load h' s.
Proof.
  unfold cs_store. destruct (source_Store h d s) as [s1 [err|]] eqn:Hs; [done|].
  pose proof (source_Store_config _ _ _ _ _ Hs) as Hc. pose proof (source_Store_load _ _ _ _ Hs) as Hl.
  pose proof (fun h' => source_Store_other h h' _ _ _ _ Hs) as Ho.
  destruct (st_Store h d (cs_cache s1)) as [c e] eqn:He. intros [= <- ->].
  split_and!; [exact Hc| |]; unfold source_Load in *; cbn [cs_source cs_cache cs_set_stores]; destruct (cs_source s1); try done.
  - by eapply store_load.
  - intros h' Hne. rewrite <- (Ho h' Hne). by eapply store_other.
Qed.

Lemma cs_store_source h d s s' e : cs_store h d s = (s', e) -> is_Some (cs_source s) -> is_Some (cs_source s').
Proof.
  unfold cs_store, source_Store. intros Hst [src Hsrc]. rewrite Hsrc in Hst.
  destruct (st_Store h d src) as [src' [err|]]; [by simplify_eq|]. cbn [cs_cache cs_source cs_set_stores] in Hst.
  destruct (st_Store h d (cs_cache s)) as [c e']. by simplify_eq.
Qed.

Lemma write_visit_stores : visit_stores (St:=cachedStore Src) write_visit.
Proof. intros ct h p d w w'. unfold write_visit. destruct (cs_store _ _ _) as [s' [e|]]; [done|]. by intros [= <-]. Qed.

(** Storing in the tree what was stored in the source keeps it available. *)
Lemma available_store load load' h z path d tree :
  path <> [] -> available load tree -> load' h = inl d -> (forall h', h' <> h -> load' h' = load h') ->
  available load' (storeHash h z path tree).
Proof.
  intros Hp Ha Hh Ho q e. destruct tree as [m|]; [|by destruct path, q]. rewrite storeHash_manifest by done.
  unfold spec_store. repeat case_decide; [|done|].
  - intros [= <-]. by exists d.
  - intros Hq. destruct (decide (te_Hash e = h)) as [->|Hne]; [by exists d|].
    destruct (Ha q e Hq) as [d' Hd']. exists d'. by rewrite Ho.
Qed.

Lemma available_enter load p name tree tree' :
  available load tree -> walk_enter p name tree = inl tree' -> available load tree'.
Proof.
  intros Ha. unfold walk_enter. destruct (tree_at p tree) as [t|] eqn:Hat; [|done].
  enough (available load (tree_upd p (<[name:=Internal ∅]> t) tree)) as Hu.
  { destruct (t !! name) as [[t'|e]|]; intros [= <-]; done. }
  intros q e. revert tree Hat Ha q. induction p as [|n rest IH]; intros tree Hat Ha q Hq.
  - simpl in Hat, Hq. subst. rewrite manifest_insert_internal in Hq. destruct q as [|n q]; [done|].
    case_decide; [by destruct q; [|rewrite manifest_cons, lookup_empty in Hq]|]. by apply (Ha (n :: q)).
  - apply tree_at_cons_inv in Hat as (t0 & t1 & -> & Hn & Hat). rewrite (tree_upd_cons _ _ _ _ _ Hn) in Hq.
    destruct (tree_upd_some rest (<[name:=Internal ∅]> t) t1) as [t' Ht'].
    rewrite Ht' in Hq. cbv beta iota delta [default id] in Hq.
    rewrite manifest_insert_internal in Hq. destruct q as [|n' q]; [done|].
    case_decide as Hnn; [subst|by apply (Ha (n' :: q))]. rewrite <- Ht' in Hq.
    apply (IH (Some t1) Hat) in Hq; [done|]. intros q' e' Hq'. apply (Ha (n :: q') e').
    by rewrite manifest_cons, Hn.
Qed.

(** What a write-through that does not fail leaves behind. *)
Lemma write_through_spec (C : bytes -> Prop) s s' m t :
  cs_root s = FDir m -> cs_tree s = Some t -> WriteThroughUser s = (s', None) ->
  (forall p d, fs_get p (cs_root s) = Some (FFile d) -> C d) ->
  cs_tree s' = Some (sync_dir (cs_ignoreSet s) m t) /\
  cs_treeFile s' = Some (encode_tree (cs_tree s')) /\
  cs_root s' = cs_root s /\ cs_ignoreSet s' = cs_ignoreSet s /\
  (is_Some (cs_source s) -> is_Some (cs_source s')) /\
  (holds_contents C (fun h => source_Load h s) -> available (fun h => source_Load h s) (cs_tree s) ->
   holds_contents C (fun h => source_Load h s') /\ available (fun h => source_Load h s') (cs_tree s')).
Proof.
  intros Hroot Htree Hw Hfiles. unfold WriteThroughUser, writeThroughUserTree in Hw.
  destruct (walkUserTreeUncached _ _ _ _ _) as [[tree s1] [err|]] eqn:Hwalk; [done|]. simplify_eq.
  pose proof Hwalk as Hsync. rewrite Hroot in Hsync.
  apply (walk_synced _ _ _ _ _ _ t write_visit_stores) in Hsync; [|done]. simpl in Hsync. subst tree.
  assert (same_config s s1 /\ (is_Some (cs_source s) -> is_Some (cs_source s1))) as [Hcfg Hsrc].
  { refine (walk_invariant _ _ C (fun w => same_config s w.2 /\ (is_Some (cs_source s) -> is_Some (cs_source w.2)))
              _ _ _ [] (cs_tree s, s) _ Hfiles _ Hwalk); [|done|done].
    intros ct p name d w w' _ [Hsc Hso]. unfold write_visit.
    destruct (cs_store _ _ _) as [s2 [e|]] eqn:Hst; [done|]. intros [= <-].
    pose proof (cs_store_source _ _ _ _ _ Hst) as Hso'.
    apply cs_store_spec in Hst as (Hc & _). unfold same_config in *. simpl. intuition congruence. }
  unfold same_config in Hcfg. split_and!; [done|done|by apply Hcfg|by apply Hcfg|done|].
  - intros Hh Ha.
    refine (walk_invariant _ _ C (fun w => holds_contents C (fun h => source_Load h w.2) /\
              available (fun h => source_Load h w.2) w.1) _ _ _ [] (cs_tree s, s) _ Hfiles
              (conj Hh Ha) Hwalk).
    + intros ct p name d w w' HC [Hh' Ha']. unfold write_visit.
      destruct (cs_store _ _ _) as [s2 [e|]] eqn:Hst; [done|]. intros [= <-]. simpl.
      apply cs_store_spec in Hst as (_ & Hl & Ho). split.
      * intros h d' Hd'. destruct (decide (h = computeHash d)) as [->|Hne].
        -- rewrite Hl in Hd'. by simplify_eq.
        -- rewrite Ho in Hd' by done. by apply Hh'.
      * eapply available_store; [by destruct p|exact Ha'|exact Hl|exact Ho].
    + intros p name w tree' [Hh' Ha'] Hen. split; [done|]. simpl. by eapply available_enter.
Qed.
End WriteThrough.

(** ** Ensuring *)

(** Neither of two paths is above the other. *)
Definition apart (p q : list string) : Prop := ~ p `prefix_of` q /\ ~ q `prefix_of` p.

Lemma apart_below p a b q q' : a <> b -> apart (p ++ a :: q) (p ++ b :: q').
Proof.
  intros Hab. split; intros Hp; apply prefix_app_inv, prefix_cons_inv_1 in Hp; congruence.
Qed.

Lemma prefix_snoc_inv {A} (p dst : list A) x : p `prefix_of` dst ++ [x] -> p = dst ++ [x] \/ p `prefix_of` dst.
Proof.
  intros [r Hr]. destruct r as [|y r] using rev_ind; [left; by rewrite app_nil_r in Hr|].
  rewrite app_assoc in Hr. apply app_inj_tail in Hr as [-> _]. right. by exists r.
Qed.

(** What writing below [dst] does to the files elsewhere. *)
Definition frame (dst : list string) (n n' : fnode) : Prop :=
  (forall p, apart dst p -> fs_get p n' = fs_get p n) /\
  (forall p, p `prefix_of` dst -> p <> dst ->
     (forall d, fs_get p n <> Some (FFile d)) -> forall d, fs_get p n' <> Some (FFile d)).

Lemma frame_refl dst n : frame dst n n.
Proof. by split. Qed.

Lemma frame_trans dst n n1 n2 : frame dst n n1 -> frame dst n1 n2 -> frame dst n n2.
Proof. intros [H1 H2] [H3 H4]. split; [intros p Hp; by rewrite H3, H1 | intros p Hp Hne Hd; eauto]. Qed.

Lemma frame_up dst name n n' : frame (dst ++ [name]) n n' -> frame dst n n'.
Proof.
  intros [H1 H2]. split.
  - intros p [Hp1 Hp2]. apply H1. split.
    + intros Hp. apply Hp1. etrans; [by apply prefix_app_r|done].
    + intros Hp. apply prefix_snoc_inv in Hp as [->|Hp]; [|done]. by apply Hp1, prefix_app_r.
  - intros p Hp Hne. apply H2; [by apply prefix_app_r|]. intros ->.
    apply prefix_length in Hp. rewrite length_app in Hp. simpl in Hp. lia.
Qed.

(** A path at which a file can be made. *)
Definition free (p : list string) (n : fnode) : Prop :=
  fs_get p n = None /\ forall p' d, p' `prefix_of` p -> fs_get p' n <> Some (FFile d).

Lemma free_frame dst p n n' : frame dst n n' -> apart dst p -> free p n -> free p n'.
Proof.
  intros [H1 H2] Hap [Hp Hpre]. split; [by rewrite H1|]. intros p' d Hp'.
  destruct (decide (p' `prefix_of` dst)) as [Hd|Hd].
  - apply H2; [done| |by intros d'; apply Hpre]. intros ->. by destruct Hap.
  - rewrite H1; [by apply Hpre|]. split; [|done]. intros Hd'. destruct Hap as [Ha _]. apply Ha. by etrans.
Qed.

Lemma free_child name rest m c : m !! name = Some c -> free (name :: rest) (FDir m) -> free rest c.
Proof.
  intros Hc [Hg Hp]. simpl in Hg. rewrite Hc in Hg. split; [done|]. intros p' d Hp' Hd.
  apply (Hp (name :: p') d); [by apply prefix_cons|]. simpl. by rewrite Hc.
Qed.

Lemma free_empty name rest : free (name :: rest) (FDir ∅).
Proof. split; [done|]. by intros [|n p'] d Hp'. Qed.

Lemma fs_get_insert name rest m n q :
  fs_get (q :: rest) (FDir (<[name:=n]> m)) = if decide (q = name) then fs_get rest n else fs_get (q :: rest) (FDir m).
Proof. simpl. case_decide as Hq; [subst; by rewrite lookup_insert_eq | by rewrite lookup_insert_ne]. Qed.

(** A file can be written where the path is free, and nothing else changes. *)
Lemma fs_write_free path d n :
  path <> [] -> free path n ->
  exists n', fs_write path d n = Some n' /\ fs_get path n' = Some (FFile d) /\ frame path n n'.
Proof.
  revert n. induction path as [|name rest IH]; intros n Hne Hfree; [done|].
  destruct n as [m|d0]; [|destruct Hfree as [_ Hp]; destruct (Hp [] d0); [apply prefix_nil|done]].
  assert (Hput : forall n', fs_get rest n' = Some (FFile d) ->
    frame rest (default (FDir ∅) (m !! name)) n' ->
    fs_get (name :: rest) (FDir (<[name:=n']> m)) = Some (FFile d) /\
    frame (name :: rest) (FDir m) (FDir (<[name:=n']> m))).
  { intros n' Hn' [H1 H2]. split; [by rewrite fs_get_insert, decide_True|]. split.
    - intros [|q p] Hap; [destruct Hap as [_ []]; apply prefix_nil|]. rewrite fs_get_insert.
      destruct (decide (q = name)) as [->|]; [|done]. unfold apart in Hap. rewrite !prefix_cons_iff in Hap.
      rewrite (H1 p Hap). simpl. destruct (m !! name) as [c|]; [done|].
      destruct p; [by destruct Hap as [_ []]; apply prefix_nil|done].
    - intros [|q p] Hp Hnp Hd d'; [done|]. rewrite fs_get_insert. pose proof (prefix_cons_inv_1 _ _ _ _ Hp) as ->.
      apply prefix_cons_iff in Hp. rewrite decide_True by done. apply H2; [done|congruence|].
      intros d''. specialize (Hd d''). simpl in Hd. destruct (m !! name) as [c|]; [done|]. by destruct p. }
  destruct rest as [|n2 rest].
  - destruct Hfree as [Hg _]. simpl in Hg. destruct (m !! name) as [c|] eqn:Hc; [done|].
    exists (FDir (<[name:=FFile d]> m)). simpl fs_write. rewrite Hc. split; [done|]. apply Hput; [done|].
    split; [by intros p [Hp _]; destruct Hp; apply prefix_nil|]. intros p Hp Hpn. by apply prefix_nil_inv in Hp.
  - destruct (IH (default (FDir ∅) (m !! name))) as (n' & Hw & Hg & Hf); [done| |].
    { destruct (m !! name) as [c|] eqn:Hc; [by eapply free_child | apply free_empty]. }
    exists (FDir (<[name:=n']> m)). cbn [fs_write] in *. rewrite Hw. split; [done|]. by apply Hput.
Qed.

(** The artifacts of a node, by their path below it. *)
Definition node_manifest (node : TreeNode) (q : list string) : option TreeNodeExternal :=
  match node with
  | Internal m => tree_manifest (Some m) q
  | External e => if decide (q = []) then Some e else None
  end.

Lemma node_manifest_child m name c q :
  m !! name = Some c -> tree_manifest (Some m) (name :: q) = node_manifest c q.
Proof. intros Hc. rewrite manifest_cons, Hc. by destruct c. Qed.

(** The files below [dst] are the ones of the manifest. *)
Definition restored (C : bytes -> Prop) (f : manifest) (dst : list string) (root : fnode) : Prop :=
  forall q e, f q = Some e ->
    exists d, fs_get (dst ++ q) root = Some (FFile d) /\ computeHash d = te_Hash e /\ C d.

Section Ensuring.
Context {Src : Type} `{!Store Src, !StoreLaws Src} (C : bytes -> Prop).
Implicit Types s : cachedStore Src.

(** A cache with a source whose stores hold contents under their hashes. *)
Definition sound_stores s : Prop :=
  is_Some (cs_source s) /\ holds_contents C (fun h => st_Load h (cs_cache s)) /\
  holds_contents C (fun h => source_Load h s).

(** What ensuring leaves alone: all but the cache and the files. *)
Definition ensure_frame s s' : Prop :=
  cs_source s' = cs_source s /\ cs_tree s' = cs_tree s /\ cs_ignoreSet s' = cs_ignoreSet s /\
  cs_treeFile s' = cs_treeFile s.

Lemma emplaceFile_free h p s d :
  sound_stores s -> p <> [] -> free p (cs_root s) -> st_Load h (cs_cache s) = inl d ->
  exists root, emplaceFile h p s = (cs_set_root root s, None) /\
    fs_get p root = Some (FFile d) /\ frame p (cs_root s) root.
Proof.
  intros (_ & Hc & _) Hp Hfree Hl. unfold emplaceFile.
  assert (st_Contains h (cs_cache s) = None) as -> by (apply load_contains; eauto).
  destruct Hfree as [Hg Hpre]. rewrite Hg, Hl.
  destruct (fs_write_free p d (cs_root s) Hp (conj Hg Hpre)) as (root & -> & Hd & Hf). by exists root.
Qed.

Lemma ensureExternal_free e p s :
  sound_stores s -> p <> [] -> free p (cs_root s) ->
  (exists d, source_Load (te_Hash e) s = inl d) ->
  exists s', ensureExternal e p true s = (s', inl true) /\ sound_stores s' /\ ensure_frame s s' /\
    frame p (cs_root s) (cs_root s') /\
    exists d, fs_get p (cs_root s') = Some (FFile d) /\ computeHash d = te_Hash e /\ C d.
Proof.
  intros Hs Hp Hfree [d Hd]. destruct (Hs) as ([src Hsrc] & Hc & Hso). unfold ensureExternal.
  destruct (st_Contains (te_Hash e) (cs_cache s)) as [err|] eqn:Hcon.
  - cbn [st_Contains fs_store] in Hcon. destruct (cs_cache s !! te_Hash e) eqn:Hnone; [done|]. simplify_eq.
    cbn [IsNotFoundError negb andb]. rewrite Hd. cbn [st_Store fs_store].
    set (s1 := cs_set_stores (<[te_Hash e:=d]> (cs_cache s)) (cs_source s) s).
    assert (Hs1 : sound_stores s1).
    { subst s1. split_and!; [by eexists| |].
      - intros h d'. cbn [cs_cache cs_set_stores st_Load fs_store].
        destruct (decide (h = te_Hash e)) as [->|Hne].
        + rewrite lookup_insert_eq. intros [= <-]. by apply Hso.
        + rewrite lookup_insert_ne by done. apply Hc.
      - intros h d' Hd'. apply Hso. unfold source_Load in *. cbn [cs_source cs_set_stores] in Hd'.
        by rewrite Hsrc in *. }
    destruct (emplaceFile_free (te_Hash e) p s1 d Hs1 Hp Hfree) as (root & Hem & Hg & Hf).
    { subst s1. cbn. by rewrite lookup_insert_eq. }
    rewrite Hem. eexists. split_and!; [done|exact Hs1|done|done|]. exists d. split; [done|]. by apply Hso.
  - apply load_contains in Hcon as [d' Hd'].
    destruct (emplaceFile_free (te_Hash e) p s d' Hs Hp Hfree Hd') as (root & Hem & Hg & Hf).
    rewrite Hem. eexists. split_and!; [done|exact Hs|done|done|]. exists d'. split; [done|]. by apply Hc.
Qed.

Lemma ensure_frame_load s s' h : is_Some (cs_source s) -> ensure_frame s s' -> source_Load h s' = source_Load h s.
Proof. intros [src Hsrc] (Heq & _). unfold source_Load. by rewrite Heq, Hsrc. Qed.

(** Ensuring a node into free paths makes all its files, and touches nothing
    outside of its path. *)
Definition ensures (node : TreeNode) : Prop := forall dst s,
  sound_stores s -> (forall e, node = External e -> dst <> []) ->
  (forall q e, node_manifest node q = Some e ->
     free (dst ++ q) (cs_root s) /\ exists d, source_Load (te_Hash e) s = inl d) ->
  exists s', ensureNode true node dst s = (s', inl true) /\ sound_stores s' /\ ensure_frame s s' /\
    frame dst (cs_root s) (cs_root s') /\ restored C (node_manifest node) dst (cs_root s').

(** The artifacts of some of the children. *)
Definition children_manifest (m : gmap string TreeNode) (names : list string) : manifest :=
  fun q => if q is k :: _ then if decide (k ∈ names) then tree_manifest (Some m) q else None else None.

Lemma ensure_children_free m dst l s :
  map_Forall (fun _ => ensures) m -> Forall (fun e => m !! e.1 = Some e.2) l -> NoDup l.*1 ->
  sound_stores s ->
  (forall q e, children_manifest m l.*1 q = Some e ->
     free (dst ++ q) (cs_root s) /\ exists d, source_Load (te_Hash e) s = inl d) ->
  exists s', ensure_children (prod_map id (ensureNode true) <$> l) dst s = (s', inl true) /\
    sound_stores s' /\ ensure_frame s s' /\ frame dst (cs_root s) (cs_root s') /\
    (forall k p, k ∉ l.*1 -> fs_get (dst ++ k :: p) (cs_root s') = fs_get (dst ++ k :: p) (cs_root s)) /\
    restored C (children_manifest m l.*1) dst (cs_root s').
Proof.
  intros IH. revert s. induction l as [|[k c] l IHl]; intros s Hl Hnd Hs Hm.
  { exists s. split_and!; try done. by intros [|k q] e Hq. }
  apply Forall_cons in Hl as [Hk Hl]. apply NoDup_cons in Hnd as [Hnin Hnd]. simpl in Hk, Hnin.
  cbn [fmap list_fmap ensure_children prod_map fst snd]. unfold id at 1.
  assert (Hin_k : k ∈ (((k, c) :: l).*1)) by (simpl; left).
  destruct (IH k c Hk (dst ++ [k]) s Hs) as (s1 & -> & Hs1 & Hf1 & Hfr1 & Hr1).
  { intros e _. by destruct dst. }
  { intros q e Hq. rewrite <- app_assoc. apply (Hm (k :: q) e). unfold children_manifest.
    by rewrite decide_True, (node_manifest_child _ _ _ _ Hk). }
  assert (Hload := fun h => ensure_frame_load s s1 h (proj1 Hs) Hf1).
  destruct (IHl s1 Hl Hnd Hs1) as (s' & -> & Hs' & Hf & Hfr & Hout & Hr).
  { intros [|k' q] e Hq; [done|]. cbn [children_manifest] in Hq. case_decide as Hk'; [|done].
    destruct (Hm (k' :: q) e) as [Hfree Hd].
    { cbn [children_manifest]. by rewrite decide_True by (simpl; by right). }
    rewrite Hload. split; [|done]. eapply free_frame; [exact Hfr1| |done].
    apply (apart_below dst k k' [] q). by intros ->. }
  exists s'. split; [done|]. split; [done|].
  split; [unfold ensure_frame in *; intuition congruence|].
  split; [eapply frame_trans; [by eapply frame_up|done]|]. split.
  - intros k' p Hk'. apply not_elem_of_cons in Hk' as [Hne Hk']. rewrite Hout by done.
    destruct Hfr1 as [Hfr1 _]. apply Hfr1. apply (apart_below dst k k' [] p). done.
  - intros [|k' q] e Hq; [done|]. cbn [children_manifest] in Hq. case_decide as Hin'; [|done].
    destruct (decide (k' ∈ l.*1)) as [Hin|Hin].
    + apply (Hr (k' :: q) e). cbn [children_manifest]. by rewrite decide_True.
    + apply elem_of_cons in Hin' as [->|?]; [|done].
      rewrite (node_manifest_child _ _ _ _ Hk) in Hq. rewrite Hout by done.
      destruct (Hr1 q e Hq) as (d & Hd & Hrest). exists d. by rewrite <- app_assoc in Hd.
Qed.

Lemma ensureNode_free node : ensures node.
Proof.
  induction node as [m IH|e] using tree_node_ind; intros dst s Hs Hdst Hm.
  - cbn [ensureNode]. rewrite map_to_list_fmap.
    assert (Hall : forall q, children_manifest m (map_to_list m).*1 q = tree_manifest (Some m) q).
    { intros [|k q]; [done|]. cbn [children_manifest]. case_decide as Hk; [done|]. rewrite manifest_cons.
      destruct (m !! k) as [c|] eqn:Hc; [|done]. destruct Hk. apply list_elem_of_fmap. exists (k, c).
      by rewrite elem_of_map_to_list. }
    destruct (ensure_children_free m dst (map_to_list m) s IH) as (s' & He & Hs' & Hf & Hfr & _ & Hr).
    + apply Forall_forall. intros [k c] Hin. by apply elem_of_map_to_list in Hin.
    + apply NoDup_fst_map_to_list.
    + done.
    + intros q e. rewrite Hall. apply Hm.
    + exists s'. split_and!; [done..|]. intros q e Hq. apply (Hr q e). by rewrite Hall.
  - cbn [ensureNode]. destruct (Hm [] e) as [Hfree Hd]; [done|]. rewrite app_nil_r in Hfree.
    destruct (ensureExternal_free e dst s) as (s' & -> & Hs' & Hf & Hfr & Hr); [done|by eapply Hdst|done..|].
    exists s'. split_and!; [done..|]. intros q e' Hq. cbn [node_manifest] in Hq. case_decide; [|done].
    simplify_eq. by rewrite app_nil_r.
Qed.
End Ensuring.

(** ** Cleaning *)

(** The tree has an artifact at the path or above it. *)
Definition kept (tree : TreeNodeTree) (path : list string) : Prop :=
  exists p e, p `prefix_of` path /\ tree_manifest tree p = Some e.

Lemma kept_cons t name rest :
  kept (Some t) (name :: rest) <->
  match t !! name with
  | Some (Internal t') => kept (Some t') rest
  | Some (External _) => True
  | None => False
  end.
Proof.
  split.
  - intros ([|n p] & e & Hp & He); [done|]. pose proof (prefix_cons_inv_1 _ _ _ _ Hp) as ->.
    apply prefix_cons_inv_2 in Hp. rewrite manifest_cons in He.
    destruct (t !! name) as [[t'|e']|]; [by exists p, e|done|done].
  - destruct (t !! name) as [[t'|e]|] eqn:Ht; [|intros _|done].
    + intros (p & e & Hp & He). exists (name :: p), e. rewrite manifest_cons, Ht.
      by rewrite prefix_cons_iff.
    + exists [name], e. rewrite manifest_cons, Ht, decide_True by done.
      by rewrite prefix_cons_iff; split; [apply prefix_nil|].
Qed.

(** What the loop over the entries of a directory makes of an entry. *)
Definition cleaned_entry (tree : gmap string TreeNode) (m0 m' : gmap string fnode) (name : string) (c : fnode)
    : Prop :=
  match tree !! name with
  | Some (Internal t) => exists n, cleanTree c (Some t) = (n, None) /\ m' !! name = Some n
  | Some (External _) => m' !! name = m0 !! name
  | None => m' !! name = None
  end.

Lemma clean_entries_spec es tree m0 m' :
  NoDup es.*1 -> clean_entries (prod_map id cleanTree <$> es) tree m0 = (m', None) ->
  (forall k, k ∉ es.*1 -> m' !! k = m0 !! k) /\ Forall (fun e => cleaned_entry tree m0 m' e.1 e.2) es.
Proof.
  revert m0. induction es as [|[name c] es IH]; intros m0 Hnd Hc; [by simplify_eq/=|].
  apply NoDup_cons in Hnd as [Hnin Hnd]. simpl in Hnin.
  cbn [fmap list_fmap clean_entries prod_map fst snd] in Hc. unfold id in Hc at 1.
  assert (Hgo : forall m1, (forall k, k <> name -> m1 !! k = m0 !! k) ->
    clean_entries (prod_map id cleanTree <$> es) tree m1 = (m', None) ->
    (m' !! name = m1 !! name -> cleaned_entry tree m0 m' name c) ->
    (forall k, k ∉ ((name, c) :: es).*1 -> m' !! k = m0 !! k) /\
    Forall (fun e => cleaned_entry tree m0 m' e.1 e.2) ((name, c) :: es)).
  { intros m1 Hm1 Hrest Hname. destruct (IH m1 Hnd Hrest) as [Hout Hin]. split.
    - intros k Hk. apply not_elem_of_cons in Hk as [Hne Hk]. by rewrite Hout, Hm1.
    - constructor; [by apply Hname, Hout|]. apply Forall_forall. intros [k c'] Hel.
      rewrite Forall_forall in Hin. specialize (Hin _ Hel). unfold cleaned_entry in *. cbn [fst snd] in *.
      assert (k <> name) by (intros ->; apply Hnin, list_elem_of_fmap; by exists (name, c')).
      destruct (tree !! k) as [[t|e]|]; [done|by rewrite <- Hm1|done]. }
  destruct (tree !! name) as [[t|e]|] eqn:Ht.
  - destruct (cleanTree c (Some t)) as [n [err|]] eqn:Hct; [done|].
    apply (Hgo (<[name:=n]> m0)); [by intros; rewrite lookup_insert_ne|done|].
    intros Hm. unfold cleaned_entry. rewrite Ht, Hm, lookup_insert_eq. by exists n.
  - apply (Hgo m0); [done..|]. intros Hm. unfold cleaned_entry. by rewrite Ht.
  - apply (Hgo (delete name m0)); [by intros; rewrite lookup_delete_ne|done|].
    intros Hm. unfold cleaned_entry. by rewrite Ht, Hm, lookup_delete_eq.
Qed.

(** A directory that is cleaned keeps exactly the files of the tree. *)
Lemma cleanTree_keeps local tree n :
  cleanTree local (Some tree) = (n, None) ->
  forall path d, fs_get path n = Some (FFile d) <->
    fs_get path local = Some (FFile d) /\ kept (Some tree) path.
Proof.
  revert tree n. induction local as [m IH|d0] using fnode_tree_ind; intros tree n Hc; [|done].
  cbn [cleanTree] in Hc.
  assert (exists es, ReadDir (cleanTree <$> m) = prod_map id cleanTree <$> es /\ es ≡ₚ map_to_list m) as (es & Heq & Hp).
  { assert (Hp : ReadDir (cleanTree <$> m) ≡ₚ map (prod_map id cleanTree) (map_to_list m)).
    { rewrite ReadDir_perm, map_to_list_fmap. done. }
    apply Permutation_map_inv in Hp as (es & Heq & Hp). exists es. split; [done|by symmetry]. }
  rewrite Heq in Hc. destruct (clean_entries _ _ _) as [m' err] eqn:Hce. simplify_eq.
  apply clean_entries_spec in Hce as [Hout Hin]; [|rewrite Hp; apply NoDup_fst_map_to_list].
  intros [|name rest] d; [naive_solver|]. cbn [fs_get]. rewrite kept_cons.
  destruct (m !! name) as [c|] eqn:Hm.
  - assert (Hce : cleaned_entry tree m m' name c).
    { rewrite Forall_forall in Hin. apply (Hin (name, c)). rewrite Hp. by apply elem_of_map_to_list. }
    unfold cleaned_entry in Hce. cbn [default id] in Hce.
    destruct (tree !! name) as [[t|e]|]; [| |rewrite Hce; naive_solver].
    + destruct Hce as (n & Hn & ->). by apply (IH name c Hm).
    + rewrite Hce, Hm. naive_solver.
  - assert (m' !! name = None) as ->.
    { rewrite Hout; [done|]. intros (e & -> & He)%list_elem_of_fmap. rewrite Hp in He.
      destruct e as [k c]. apply elem_of_map_to_list in He. simpl in Hm. congruence. }
    split; [done|]. by intros [? _].
Qed.

(** ** Properties *)
Section Properties.
Context {Src : Type} `{!Store Src, !StoreLaws Src} (C : bytes -> Prop).
Implicit Types s : cachedStore Src.

(** C27: Writing through is [sync_dir]: when the walk over the user's files does
    not fail, the tree is the one that the reference definition computes from
    the directory and the old tree, in whatever order the walk and its visits
    changed it; the tree file holds that tree; every file that is not ignored
    is in it with the hash of its contents; and a second write-through changes
    neither the tree nor the files. *)
Theorem write_through_is_sync s s' (m : gmap string fnode) (t : gmap string TreeNode) :
  cs_root s = FDir m -> cs_tree s = Some t -> WriteThroughUser s = (s', None) ->
  cs_tree s' = Some (sync_dir (cs_ignoreSet s) m t) /\
  cs_treeFile s' = Some (encode_tree (cs_tree s')) /\ cs_root s' = cs_root s /\
  (forall path d, user_file (cs_ignoreSet s) (cs_root s) path d ->
     exists e, tree_manifest (cs_tree s') path = Some e /\ te_Hash e = computeHash d) /\
  (forall s'', WriteThroughUser s' = (s'', None) -> cs_tree s'' = cs_tree s').
Proof.
  intros Hroot Htree Hw.
  destruct (write_through_spec (fun _ => True) _ _ _ _ Hroot Htree Hw) as (Ht & Hf & Hr & Hi & _); [done|].
  split_and!; [done..| |].
  - intros path d Hu. rewrite Hroot in Hu. rewrite Ht. by apply sync_dir_manifest.
  - intros s'' Hw'. rewrite Hroot in Hr.
    destruct (write_through_spec (fun _ => True) _ _ _ _ Hr Ht Hw') as (Ht' & _); [done|].
    rewrite Ht', Hi, Ht. f_equal. apply map_eq. intros k. rewrite !sync_dir_lookup.
    destruct (m !! k); [apply sync_node_idemp | done].
Qed.

(** After a write-through the status is empty and asking for it changes
    nothing. *)
Theorem status_empty_after_write_through s s' (m : gmap string fnode) (t : gmap string TreeNode) :
  cs_root s = FDir m -> cs_tree s = Some t -> WriteThroughUser s = (s', None) ->
  cs_Status s' = (s', inl (mkStatus [] [])).
Proof.
  intros Hroot Htree Hw.
  destruct (write_through_spec (fun _ => True) _ _ _ _ Hroot Htree Hw) as (Ht & _ & Hr & Hi & _); [done|].
  unfold cs_Status. rewrite Hr, Hroot, Hi.
  rewrite (walk_unchanged _ _ _ _ _ (sync_dir (cs_ignoreSet s) m t)); [|by rewrite <- Ht|].
  - by destruct s'.
  - apply map_eq. intros k. rewrite !sync_dir_lookup. destruct (m !! k); [apply sync_node_idemp | done].
Qed.

(** Artifacts come back. What one user wrote through, another one gets by
    loading the tree file and ensuring the root from the same source into an
    empty directory: every file, at its path with its contents, whatever the
    size limit. Hashes must not collide on the contents in question. *)
Theorem ensure_restores_written_files s s1 s2 (m : gmap string fnode) (t : gmap string TreeNode) :
  (forall d d', C d -> C d' -> computeHash d = computeHash d' -> d = d') ->
  cs_root s = FDir m -> cs_tree s = Some t ->
  (forall p d, fs_get p (cs_root s) = Some (FFile d) -> C d) ->
  sound_stores C s -> available (fun h => source_Load h s) (cs_tree s) ->
  WriteThroughUser s = (s1, None) ->
  sizes_ok (cs_tree s1) -> load_tree (cs_treeFile s1) = Some (cs_tree s2) ->
  cs_source s2 = cs_source s1 -> holds_contents C (fun h => st_Load h (cs_cache s2)) ->
  cs_root s2 = FDir ∅ ->
  exists s3, Ensure "/" true s2 = (s3, inl true) /\
    forall path d, user_file (cs_ignoreSet s) (cs_root s) path d -> fs_get path (cs_root s3) = Some (FFile d).
Proof.
  intros Hinj Hroot Htree HC (Hsrc & Hcache & Hso) Hav Hw Hsz Hload Hsrc2 Hc2 Hr2.
  destruct (write_through_spec C _ _ _ _ Hroot Htree Hw HC) as (Ht & Hf & _ & _ & Hsrc1 & Hstores).
  destruct (Hstores Hso Hav) as [Hso1 Hav1]. specialize (Hsrc1 Hsrc).
  rewrite Hf in Hload. cbn [load_tree] in Hload. rewrite decode_encode in Hload by done. simplify_eq.
  assert (Hl : forall h, source_Load h s2 = source_Load h s1).
  { intros h. unfold source_Load. rewrite Hsrc2. by destruct Hsrc1 as [src ->]. }
  unfold Ensure, config_Lookup. rewrite <- Hload, Ht. rewrite bool_decide_eq_true_2 by done.
  cbn [default id]. set (t1 := sync_dir (cs_ignoreSet s) m t) in *.
  destruct (ensureNode_free C (Internal t1) [] s2) as (s3 & He & _ & _ & _ & Hrest); [|done| |].
  - split_and!; [by rewrite Hsrc2|done|]. intros h d Hd. rewrite Hl in Hd. by apply Hso1.
  - intros q e Hq. rewrite Hr2, Hl. split; [|apply (Hav1 q); by rewrite Ht].
    destruct q as [|name q]; [done|apply free_empty].
  - exists s3. split; [exact He|]. intros path d Hu. rewrite Hroot in Hu.
    destruct (sync_dir_manifest _ _ t _ _ Hu) as (e & Hm & Hh).
    destruct (Hrest path e Hm) as (d' & Hd' & Hd'h & HCd'). change ([] ++ path) with path in Hd'. rewrite Hd'. do 2 f_equal. symmetry.
    apply Hinj; [|done|congruence]. destruct Hu as [Hget _]. apply (HC path). by rewrite Hroot.
Qed.

(** Cleaning keeps exactly the files at or below the artifacts of the tree,
    and changes nothing but the directory. *)
Theorem clean_keeps_exactly_the_tree s s' (t : gmap string TreeNode) :
  cs_tree s = Some t -> Clean s = (s', None) ->
  cs_tree s' = cs_tree s /\ cs_cache s' = cs_cache s /\
  forall path d, fs_get path (cs_root s') = Some (FFile d) <->
    fs_get path (cs_root s) = Some (FFile d) /\
    exists p e, p `prefix_of` path /\ tree_manifest (cs_tree s) p = Some e.
Proof.
  intros Ht. unfold Clean. destruct (cleanTree (cs_root s) (cs_tree s)) as [n err] eqn:Hc.
  intros [= <- ->]. split_and!; [done..|]. intros path d. rewrite Ht in *. by apply cleanTree_keeps.
Qed.
End Properties.

(** ** Concrete inputs *)
Section Witnesses.
#[local] Transparent computeHash.

Definition sample_root : gmap string fnode :=
  {[ "data"%string := FDir {[ "part"%string := FFile [Byte.x01; Byte.x02] ]}; "readme"%string := FFile [Byte.x07] ]}.
Definition sample_contents (d : bytes) : Prop := d = [Byte.x01; Byte.x02] \/ d = [Byte.x07].
Definition sample_cache : cachedStore fileSystemStore :=
  mkCachedStore ∅ (Some ∅) (Some ∅) ∅ 0 None "/home/user" (FDir sample_root).
Definition sample_written : cachedStore fileSystemStore := (WriteThroughUser sample_cache).1.
(** Another user's cache, with the same source and tree file. *)
Definition sample_other : cachedStore fileSystemStore :=
  mkCachedStore ∅ (cs_source sample_written) (default None (load_tree (cs_treeFile sample_written))) ∅ 0
    (cs_treeFile sample_written) "/home/other" (FDir ∅).

Lemma sample_files p d : fs_get p (FDir sample_root) = Some (FFile d) ->
  (p = ["data"; "part"]%string /\ d = [Byte.x01; Byte.x02]) \/ (p = ["readme"]%string /\ d = [Byte.x07]).
Proof.
  unfold sample_root. destruct p as [|a [|b [|c p]]]; simpl; [done|..]; rewrite lookup_insert;
    repeat (case_decide || rewrite lookup_singleton || simplify_eq/= || done || naive_solver).
Qed.

Lemma sample_written_ok : WriteThroughUser sample_cache = (sample_written, None).
Proof.
  unfold sample_written. assert (Hok : (WriteThroughUser sample_cache).2 = None) by (vm_compute; reflexivity).
  destruct (WriteThroughUser sample_cache) as [s e]. simpl in *. by rewrite Hok.
Qed.

Lemma sample_user_file : user_file ∅ (FDir sample_root) ["data"; "part"]%string [Byte.x01; Byte.x02].
Proof. split; [vm_compute; reflexivity|]. intros name _. apply not_elem_of_empty. Qed.

Lemma empty_holds C : holds_contents C (fun h => st_Load h (∅ : fileSystemStore)).
Proof. intros h d. cbn [st_Load fs_store]. by rewrite lookup_empty. Qed.

Lemma sample_sound : sound_stores sample_contents sample_cache.
Proof. split_and!; [by eexists|apply empty_holds..]. Qed.

Lemma sample_no_collision d d' :
  sample_contents d -> sample_contents d' -> computeHash d = computeHash d' -> d = d'.
Proof. intros [->| ->] [->| ->] Hd; [done| | |done]; vm_compute in Hd; discriminate. Qed.

Lemma sample_written_sizes : sizes_ok (cs_tree sample_written).
Proof.
  assert (cs_tree sample_written = Some
    {[ "data"%string := Internal {[ "part"%string := External (mkExternal (computeHash [Byte.x01; Byte.x02]) 2) ]};
       "readme"%string := External (mkExternal (computeHash [Byte.x07]) 1) ]}) as ->.
  { vm_compute. reflexivity. }
  intros [|a [|b path]] e He; [done| |];
    repeat first [rewrite manifest_cons in He | rewrite lookup_insert in He
                 | rewrite lookup_singleton in He | case_decide | progress simplify_eq/= | done].
Qed.

Lemma write_through_is_sync_witness :
  exists e, tree_manifest (cs_tree sample_written) ["data"; "part"]%string = Some e /\
    te_Hash e = computeHash [Byte.x01; Byte.x02].
Proof.
  destruct (write_through_is_sync sample_cache sample_written sample_root ∅ eq_refl eq_refl sample_written_ok)
    as (_ & _ & _ & H & _). apply H, sample_user_file.
Defined.

Lemma status_empty_after_write_through_witness :
  cs_Status sample_written = (sample_written, inl (mkStatus [] [])).
Proof.
  exact (status_empty_after_write_through sample_cache sample_written sample_root ∅ eq_refl eq_refl
           sample_written_ok).
Defined.

Lemma ensure_restores_written_files_witness :
  exists s3, Ensure "/" true sample_other = (s3, inl true) /\
    fs_get ["data"; "part"]%string (cs_root s3) = Some (FFile [Byte.x01; Byte.x02]).
Proof.
  destruct (ensure_restores_written_files sample_contents sample_cache sample_written sample_other sample_root ∅)
    as (s3 & He & Hf); [..|reflexivity|exact (empty_holds _)|reflexivity|].
  - exact sample_no_collision.
  - reflexivity.
  - reflexivity.
  - intros p d Hd. destruct (sample_files p d Hd) as [[_ ->]|[_ ->]]; [by left | by right].
  - exact sample_sound.
  - by intros [|n path] e He.
  - exact sample_written_ok.
  - exact sample_written_sizes.
  - vm_compute. reflexivity.
  - exists s3. split; [exact He|]. apply Hf, sample_user_file.
Defined.

(** The user's directory has a file that the tree lost. *)
Definition sample_stale : cachedStore fileSystemStore :=
  cs_set_tree (RemovePath "readme" (cs_tree sample_written)) sample_written.

Lemma clean_keeps_exactly_the_tree_witness :
  fs_get ["readme"]%string (cs_root (Clean sample_stale).1) <> Some (FFile [Byte.x07]).
Proof.
  destruct (clean_keeps_exactly_the_tree sample_stale (Clean sample_stale).1
    {[ "data"%string := Internal {[ "part"%string := External (mkExternal (computeHash [Byte.x01; Byte.x02]) 2) ]} ]})
    as (_ & _ & H).
  - vm_compute. reflexivity.
  - assert (Hok : (Clean sample_stale).2 = None) by (vm_compute; reflexivity).
    destruct (Clean sample_stale) as [s e]. simpl in *. by rewrite Hok.
  - intros Hg. apply H in Hg as (_ & p & e & Hp & He).
    destruct p as [|n [|n2 p]]; [vm_compute in He; discriminate| |].
    + apply prefix_cons_inv_1 in Hp. subst n. vm_compute in He. discriminate.
    + apply prefix_length in Hp. simpl in Hp. lia.
Defined.

(** Asking for the status is not free of effects: a directory of the user in
    the place of an artifact makes the artifact leave the tree, and the next
    removal of anything writes that tree. *)
Lemma status_changes_the_tree :
  let s := mkCachedStore (Src:=fileSystemStore) ∅ (Some ∅) (Some {[ "a"%string := External (mkExternal "hash" 1) ]})
             ∅ 0 None "/home/user" (FDir {[ "a"%string := FDir ∅ ]}) in
  let s' := (cs_Status s).1 in
  tree_manifest (cs_tree s) ["a"]%string = Some (mkExternal "hash" 1) /\
  tree_manifest (cs_tree s') ["a"]%string = None /\
  tree_manifest (default None (load_tree (cs_treeFile (Remove "other" s')))) ["a"]%string = None.
Proof. vm_compute. done. Qed.
End Witnesses.
