(* ===== verification/CallQueueMongo.v ===== *)
(** * The MongoDB call queue: [rpc/wrtc_call_queue_mongodb.go]

    Callers and answerers meet through documents of a collection that many
    operators share. An operator inserts a document for an offer, an answerer
    takes it by an atomic update, both sides add candidates to it, and each side
    hears of the other through the operator's change stream.

    The collection is the class [CallsColl] with the documented laws of its
    operations: a filter is a test of a document, an update a function on
    documents. What the change stream delivers is an argument.
    The operator's own state is the record [mongoQueue]: the subscriptions, the
    position in the change stream and the requests to swap it. Channels and
    handlers are behind pointers, which are numbers into heaps. *)

From S2P Require Import Prelude GoError BaseStream CallQueueMemory.
Local Open Scope Z_scope.

(** ** Documents *)

(** [webrtc.ICECandidateInit]. *)
Record ICECandidateInit := mkCandidateInit {
  ici_Candidate : string;
  ici_SDPMid : option string;
  ici_SDPMLineIndex : option Z;
  ici_UsernameFragment : option string;
}.

(** [mongodbICECandidate]. *)
Record mongodbICECandidate := mkMongoCandidate {
  mic_Candidate : string;
  mic_SDPMid : option string;
  mic_SDPMLineIndex : option Z;
  mic_UsernameFragment : option string;
}.

#[export] Instance ICECandidateInit_eq_dec : EqDecision ICECandidateInit.
Proof. solve_decision. Defined.
#[export] Instance mongodbICECandidate_eq_dec : EqDecision mongodbICECandidate.
Proof. solve_decision. Defined.

(** [iceCandidateFromMongo], [iceCandidateToMongo]. *)
Definition iceCandidateFromMongo (i : mongodbICECandidate) : ICECandidateInit :=
  mkCandidateInit (mic_Candidate i) (mic_SDPMid i) (mic_SDPMLineIndex i) (mic_UsernameFragment i).
Definition iceCandidateToMongo (i : ICECandidateInit) : mongodbICECandidate :=
  mkMongoCandidate (ici_Candidate i) (ici_SDPMid i) (ici_SDPMLineIndex i) (ici_UsernameFragment i).

Lemma ice_from_to i : iceCandidateFromMongo (iceCandidateToMongo i) = i.
Proof. by destruct i. Qed.

(** [mongodbWebRTCCall]; the filter of RecvOffer asks whether the field
    [caller_error] exists, so it is an [option] here. *)
Record mongodbWebRTCCall := mkCall {
  mc_ID : string;
  mc_CallerOperatorID : string;
  mc_AnswererOperatorID : string;
  mc_Host : string;
  mc_StartedAt : Z;
  mc_CallerSDP : string;
  mc_CallerCandidates : list mongodbICECandidate;
  mc_CallerDone : bool;
  mc_CallerError : option string;
  mc_DisableTrickle : bool;
  mc_Answered : bool;
  mc_AnswererSDP : string;
  mc_AnswererCandidates : list mongodbICECandidate;
  mc_AnswererDone : bool;
  mc_AnswererError : string;
}.

#[export] Instance mongodbWebRTCCall_eq_dec : EqDecision mongodbWebRTCCall.
Proof. solve_decision. Defined.

(** The value of [CallerError] after decoding. *)
Definition CallerError (c : mongodbWebRTCCall) : string := default EmptyString (mc_CallerError c).

(** The fields that the updates of the code set or push to. *)
Definition mc_take operatorID c := mkCall (mc_ID c) (mc_CallerOperatorID c) operatorID (mc_Host c) (mc_StartedAt c)
  (mc_CallerSDP c) (mc_CallerCandidates c) (mc_CallerDone c) (mc_CallerError c) (mc_DisableTrickle c) true
  (mc_AnswererSDP c) (mc_AnswererCandidates c) (mc_AnswererDone c) (mc_AnswererError c).
Definition mc_push_caller cand c := mkCall (mc_ID c) (mc_CallerOperatorID c) (mc_AnswererOperatorID c) (mc_Host c)
  (mc_StartedAt c) (mc_CallerSDP c) (mc_CallerCandidates c ++ [cand]) (mc_CallerDone c) (mc_CallerError c)
  (mc_DisableTrickle c) (mc_Answered c) (mc_AnswererSDP c) (mc_AnswererCandidates c) (mc_AnswererDone c)
  (mc_AnswererError c).
Definition mc_set_CallerDone v c := mkCall (mc_ID c) (mc_CallerOperatorID c) (mc_AnswererOperatorID c) (mc_Host c)
  (mc_StartedAt c) (mc_CallerSDP c) (mc_CallerCandidates c) v (mc_CallerError c)
  (mc_DisableTrickle c) (mc_Answered c) (mc_AnswererSDP c) (mc_AnswererCandidates c) (mc_AnswererDone c)
  (mc_AnswererError c).
Definition mc_set_CallerError v c := mkCall (mc_ID c) (mc_CallerOperatorID c) (mc_AnswererOperatorID c) (mc_Host c)
  (mc_StartedAt c) (mc_CallerSDP c) (mc_CallerCandidates c) (mc_CallerDone c) (Some v)
  (mc_DisableTrickle c) (mc_Answered c) (mc_AnswererSDP c) (mc_AnswererCandidates c) (mc_AnswererDone c)
  (mc_AnswererError c).
Definition mc_set_AnswererSDP v c := mkCall (mc_ID c) (mc_CallerOperatorID c) (mc_AnswererOperatorID c) (mc_Host c)
  (mc_StartedAt c) (mc_CallerSDP c) (mc_CallerCandidates c) (mc_CallerDone c) (mc_CallerError c)
  (mc_DisableTrickle c) (mc_Answered c) v (mc_AnswererCandidates c) (mc_AnswererDone c) (mc_AnswererError c).
Definition mc_push_answerer cand c := mkCall (mc_ID c) (mc_CallerOperatorID c) (mc_AnswererOperatorID c) (mc_Host c)
  (mc_StartedAt c) (mc_CallerSDP c) (mc_CallerCandidates c) (mc_CallerDone c) (mc_CallerError c)
  (mc_DisableTrickle c) (mc_Answered c) (mc_AnswererSDP c) (mc_AnswererCandidates c ++ [cand]) (mc_AnswererDone c)
  (mc_AnswererError c).
Definition mc_set_AnswererDone v c := mkCall (mc_ID c) (mc_CallerOperatorID c) (mc_AnswererOperatorID c) (mc_Host c)
  (mc_StartedAt c) (mc_CallerSDP c) (mc_CallerCandidates c) (mc_CallerDone c) (mc_CallerError c)
  (mc_DisableTrickle c) (mc_Answered c) (mc_AnswererSDP c) (mc_AnswererCandidates c) v (mc_AnswererError c).
Definition mc_set_AnswererError v c := mkCall (mc_ID c) (mc_CallerOperatorID c) (mc_AnswererOperatorID c) (mc_Host c)
  (mc_StartedAt c) (mc_CallerSDP c) (mc_CallerCandidates c) (mc_CallerDone c) (mc_CallerError c)
  (mc_DisableTrickle c) (mc_Answered c) (mc_AnswererSDP c) (mc_AnswererCandidates c) (mc_AnswererDone c) v.

(** ** The collections *)

(** The counts of [mongo.UpdateResult]. *)
Record updateResult := mkUpdateResult { MatchedCount : Z; ModifiedCount : Z }.

Abbreviation call_filter := (mongodbWebRTCCall -> bool).
Abbreviation call_update := (mongodbWebRTCCall -> mongodbWebRTCCall).

(** What the queue uses of the calls collection, with the error of the
    operation's context as first argument. FindOneAndUpdate gives the document
    as it was before, nothing when there is none. *)
Class CallsColl (Coll : Type) := {
  cl_docs : Coll -> gmap string mongodbWebRTCCall;
  cl_InsertOne : option goerror -> mongodbWebRTCCall -> Coll -> Coll * option goerror;
  cl_UpdateOne : option goerror -> call_filter -> call_update -> Coll -> Coll * (updateResult + goerror);
  cl_FindOneAndUpdate :
    option goerror -> call_filter -> call_update -> Coll -> Coll * (option mongodbWebRTCCall + goerror);
}.

(** A document that passes the filter is replaced. *)
Definition updated_one `{CallsColl Coll} (f : call_filter) (u : call_update) (s s' : Coll)
    (d : mongodbWebRTCCall) : Prop :=
  exists id, cl_docs s !! id = Some d /\ f d = true /\ cl_docs s' = <[id := u d]> (cl_docs s).

Definition none_matches `{CallsColl Coll} (f : call_filter) (s : Coll) : Prop :=
  forall id d, cl_docs s !! id = Some d -> f d = false.

(** Documented behaviour: the operations are atomic; an error leaves the
    collection as it is or comes after the operation was done; with a context
    that is done nothing happens. *)
Class CallsCollLaws (Coll : Type) `{CallsColl Coll} := {
  insert_ok c s s' : cl_InsertOne None c s = (s', None) ->
    cl_docs s !! mc_ID c = None /\ cl_docs s' = <[mc_ID c := c]> (cl_docs s);
  insert_error e c s s' err : cl_InsertOne e c s = (s', Some err) ->
    cl_docs s' = cl_docs s \/ cl_docs s !! mc_ID c = None /\ cl_docs s' = <[mc_ID c := c]> (cl_docs s);
  update_ok e f u s s' r : cl_UpdateOne e f u s = (s', inl r) ->
    (MatchedCount r = 0 /\ ModifiedCount r = 0 /\ none_matches f s /\ cl_docs s' = cl_docs s) \/
    (exists d, updated_one f u s s' d /\ MatchedCount r = 1 /\
       ModifiedCount r = if bool_decide (u d = d) then 0 else 1);
  update_error e f u s s' err : cl_UpdateOne e f u s = (s', inr err) ->
    cl_docs s' = cl_docs s \/ exists d, updated_one f u s s' d;
  find_ok e f u s s' r : cl_FindOneAndUpdate e f u s = (s', inl r) ->
    match r with
    | None => none_matches f s /\ cl_docs s' = cl_docs s
    | Some d => updated_one f u s s' d
    end;
  find_error e f u s s' err : cl_FindOneAndUpdate e f u s = (s', inr err) ->
    cl_docs s' = cl_docs s \/ exists d, updated_one f u s s' d;
  insert_done e c s : exists err, cl_InsertOne (Some e) c s = (s, Some err);
  update_done e f u s : exists err, cl_UpdateOne (Some e) f u s = (s, inr err);
  find_done e f u s : exists err, cl_FindOneAndUpdate (Some e) f u s = (s, inr err);
}.

(** The hosts of an operator's document: host, caller size, answerer size. *)
Abbreviation operatorHosts := (list (string * (Z * Z))).

(** The pipeline of [checkHostQueueSize] on the operators' documents: unwind
    the hosts that match, group them by host with the sum of the sizes, and
    keep the groups whose size is at least [max]. *)
Definition host_sizes (forCaller : bool) (hosts : list string) (docs : list operatorHosts)
    : gmap string Z :=
  foldl (fun m entry => <[fst entry := default 0 (m !! fst entry)
                            + (if forCaller then fst (snd entry) else snd (snd entry))]> m) ∅
    (filter (fun entry => fst entry ∈ hosts) (concat docs)).

Definition size_pipeline (forCaller : bool) (max : Z) (hosts : list string) (docs : list operatorHosts)
    : gmap string Z :=
  filter (fun kv => max <= snd kv) (host_sizes forCaller hosts docs).

(** What the queue uses of the operators collection: the aggregate of the
    pipeline, and the documents. *)
Class OperatorsColl (Ops : Type) := {
  op_docs : Ops -> list operatorHosts;
  op_Aggregate : option goerror -> bool -> Z -> list string -> Ops -> gmap string Z + goerror;
}.
Class OperatorsCollLaws (Ops : Type) `{OperatorsColl Ops} := {
  aggregate_ok e forCaller max hosts ops r :
    op_Aggregate e forCaller max hosts ops = inl r -> r = size_pipeline forCaller max hosts (op_docs ops);
}.

(** ** Updates of an offer *)

(** [WebRTCCallAnswer]. *)
Record WebRTCCallAnswer := mkAnswer {
  InitialSDP : option string;
  Candidate : option ICECandidateInit;
  ans_Err : option goerror;
}.
Definition ans_sdp (sdp : string) := mkAnswer (Some sdp) None None.
Definition ans_candidate (cand : ICECandidateInit) := mkAnswer None (Some cand) None.
Definition ans_error (err : goerror) := mkAnswer None None (Some err).

(** [mongoDBWebRTCCallOfferExchange]; the candidates channel is unbuffered. *)
Record offerExchange := mkOfferExchange {
  oe_call : mongodbWebRTCCall;
  oe_callerDoneErr : option goerror;   (* error of callerDoneCtx *)
  oe_callerErr : option goerror;
  oe_deadline : Z;
}.

(** The accessors. *)
Definition oe_UUID (x : offerExchange) : string := mc_ID (oe_call x).
Definition oe_SDP (x : offerExchange) : string := mc_CallerSDP (oe_call x).
Definition oe_DisableTrickleICE (x : offerExchange) : bool := mc_DisableTrickle (oe_call x).
Definition oe_CallerErr (x : offerExchange) : option goerror :=
  match oe_callerDoneErr x with
  | None => None
  | Some ctxErr =>
      match oe_callerErr x with
      | Some err => Some err
      | None => if errors_Is ctxErr Canceled then None else Some ctxErr
      end
  end.

Section Updates.
Context {Coll : Type} `{CallsColl Coll} (quote : string -> string) (errText : goerror -> string).

(** What the callers of UpdateOne make of its result. *)
Definition inactive_unless (active : updateResult -> bool) (uuid : string)
    (res : Coll * (updateResult + goerror)) : Coll * option goerror :=
  match res with
  | (s, inr err) => (s, Some err)
  | (s, inl r) => (s, if active r then None else Some (newInactiveOfferErr quote uuid))
  end.
Definition matched (r : updateResult) : bool := negb (MatchedCount r =? 0).

(** [SendOfferUpdate]. *)
Definition mq_SendOfferUpdate (ctxErr : option goerror) (host uuid : string) (candidate : ICECandidateInit)
    (s : Coll) : Coll * option goerror :=
  inactive_unless matched uuid
    (cl_UpdateOne ctxErr (fun c => bool_decide (mc_ID c = uuid) && bool_decide (mc_Host c = host))
       (mc_push_caller (iceCandidateToMongo candidate)) s).

(** [SendOfferDone]. *)
Definition mq_SendOfferDone (ctxErr : option goerror) (host uuid : string) (s : Coll) : Coll * option goerror :=
  inactive_unless matched uuid
    (cl_UpdateOne ctxErr (fun c => bool_decide (mc_ID c = uuid) && bool_decide (mc_Host c = host))
       (mc_set_CallerDone true) s).

(** [SendOfferError]. *)
Definition mq_SendOfferError (ctxErr : option goerror) (host uuid : string) (err : goerror) (s : Coll)
    : Coll * option goerror :=
  inactive_unless matched uuid
    (cl_UpdateOne ctxErr (fun c => bool_decide (mc_ID c = uuid) && bool_decide (mc_Host c = host)
                                   && negb (mc_CallerDone c))
       (mc_set_CallerError (errText err)) s).

(** [AnswererRespond]. *)
Definition mq_AnswererRespond (ctxErr : option goerror) (ans : WebRTCCallAnswer) (x : offerExchange) (s : Coll)
    : Coll * option goerror :=
  let update u :=
    inactive_unless matched (oe_UUID x)
      (cl_UpdateOne ctxErr (fun c => bool_decide (mc_ID c = oe_UUID x)) u s) in
  match ans with
  | mkAnswer (Some sdp) _ _ => update (mc_set_AnswererSDP sdp)
  | mkAnswer None (Some cand) _ => update (mc_push_answerer (iceCandidateToMongo cand))
  | mkAnswer None None (Some err) => update (mc_set_AnswererError (errText err))
  | mkAnswer None None None =>
      (s, Some (ENew "expected either SDP, ICE candidate, or error to be set"))
  end.

(** [AnswererDone]. *)
Definition mq_AnswererDone (ctxErr : option goerror) (x : offerExchange) (s : Coll) : Coll * option goerror :=
  inactive_unless (fun r => negb ((MatchedCount r =? 0) || (ModifiedCount r =? 0))) (oe_UUID x)
    (cl_UpdateOne ctxErr (fun c => bool_decide (mc_ID c = oe_UUID x)
                                   && bool_decide (mc_Host c = mc_Host (oe_call x)))
       (mc_set_AnswererDone true) s).

(** Taking an offer, in [RecvOffer]: the first offer for one of the hosts that
    started late enough, or the one of an event. *)
Definition take_filter (hosts : list string) (startedAtWindow : Z) : call_filter := fun c =>
  bool_decide (mc_Host c ∈ hosts) && bool_decide (mc_CallerError c = None) && negb (mc_Answered c)
    && (startedAtWindow <? mc_StartedAt c).
Definition take_first (ctxErr : option goerror) (operatorID : string) (hosts : list string) (startedAtWindow : Z)
    (s : Coll) : Coll * (option mongodbWebRTCCall + goerror) :=
  cl_FindOneAndUpdate ctxErr (take_filter hosts startedAtWindow) (mc_take operatorID) s.
Definition take_event (ctxErr : option goerror) (operatorID : string) (callReq : mongodbWebRTCCall) (s : Coll)
    : Coll * (bool + goerror) :=
  match cl_UpdateOne ctxErr (fun c => bool_decide (mc_ID c = mc_ID callReq) && negb (mc_Answered c))
          (mc_take operatorID) s with
  | (s', inr err) => (s', inr err)
  | (s', inl r) => (s', inl ((MatchedCount r =? 1) && (ModifiedCount r =? 1)))
  end.
End Updates.

(** ** The goroutines of an offer *)

(** [mongodbCallEvent]. *)
Record mongodbCallEvent := mkCallEvent {
  ev_Call : mongodbWebRTCCall;
  ev_Error : option goerror;
  ev_Expired : bool;
}.
Definition zero_call : mongodbWebRTCCall :=
  mkCall EmptyString EmptyString EmptyString EmptyString 0 EmptyString [] false None false false EmptyString [] false
    EmptyString.
Definition call_event (c : mongodbWebRTCCall) : mongodbCallEvent := mkCallEvent c None false.
Definition expired_event : mongodbCallEvent := mkCallEvent zero_call None true.

(** The goroutine of [SendOfferInit] on one event: the answers that it sends,
    in order, and its variables [haveInitSDP] and [candLen], unless it
    returns. A send that fails returns before the rest. *)
Definition caller_event (haveInitSDP : bool) (candLen : nat) (next : mongodbCallEvent)
    : list WebRTCCallAnswer * option (bool * nat) :=
  match ev_Error next with
  | Some err => ([ans_error err], None)
  | None =>
      let callResp := ev_Call next in
      if negb (bool_decide (mc_AnswererError callResp = EmptyString))
      then ([ans_error (ENew (mc_AnswererError callResp))], None)
      else
        let sendSDP := negb haveInitSDP && negb (bool_decide (mc_AnswererSDP callResp = EmptyString)) in
        let sdp := if sendSDP then [ans_sdp (mc_AnswererSDP callResp)] else [] in
        let cands := drop candLen (mc_AnswererCandidates callResp) in
        (sdp ++ (ans_candidate ∘ iceCandidateFromMongo <$> cands),
         if mc_AnswererDone callResp then None else Some (haveInitSDP || sendSDP, (candLen + length cands)%nat))
  end.

(** Its loop over the events, as long as nobody cancels: the answers, and
    whether it has returned. *)
Fixpoint caller_loop (haveInitSDP : bool) (candLen : nat) (events : list mongodbCallEvent)
    : list WebRTCCallAnswer * bool :=
  match events with
  | [] => ([], false)
  | next :: events' =>
      match caller_event haveInitSDP candLen next with
      | (answers, None) => (answers, true)
      | (answers, Some (haveInitSDP', candLen')) =>
          let '(answers', done) := caller_loop haveInitSDP' candLen' events' in (answers ++ answers', done)
      end
  end.

(** How the goroutine of [RecvOffer] ends: the caller is done, perhaps with an
    error, or the answerer gives up with an error. *)
Inductive answerer_end :=
  | CallerEnded (callerErr : option goerror)
  | AnswererFails (err : goerror).

(** The goroutine of [RecvOffer] on the latest document. *)
Definition answerer_request (candLen : nat) (latestReq : mongodbWebRTCCall)
    : list ICECandidateInit * (nat + answerer_end) :=
  if negb (bool_decide (CallerError latestReq = EmptyString))
  then ([], inr (CallerEnded (Some (ENew (CallerError latestReq)))))
  else
    let cands := drop candLen (mc_CallerCandidates latestReq) in
    (iceCandidateFromMongo <$> cands,
     if mc_CallerDone latestReq then inr (CallerEnded None) else inl (candLen + length cands)%nat).

(** Its loop: the events after the document [latestReq]; the candidates that
    the answerer receives and how the goroutine ends, if it does. *)
Fixpoint answerer_loop (candLen : nat) (latestReq : mongodbWebRTCCall) (events : list mongodbCallEvent)
    : list ICECandidateInit * option answerer_end :=
  match answerer_request candLen latestReq with
  | (cands, inr e) => (cands, Some e)
  | (cands, inl candLen') =>
      match events with
      | [] => (cands, None)
      | next :: events' =>
          match ev_Error next with
          | Some err => (cands, Some (AnswererFails err))
          | None =>
              if ev_Expired next then (cands, Some (CallerEnded (Some (ENew "offer expired"))))
              else
                let '(cands', e) := answerer_loop candLen' (ev_Call next) events' in (cands ++ cands', e)
          end
      end
  end.

(** It starts with the number of candidates of the document that was taken. *)
Definition answerer_goroutine (callReq : mongodbWebRTCCall) (events : list mongodbCallEvent)
    : list ICECandidateInit * option answerer_end :=
  answerer_loop (length (mc_CallerCandidates callReq)) callReq events.

(** ** The operator's state *)

(** [mongodbNewCallEventHandler]: its channel has room for one event. *)
Record newCallHandler := mkHandler {
  nh_eventChan : list mongodbCallEvent;
  nh_received : bool;                       (* receiveOnce was done *)
}.
(** [mongodbCallExchange]: its channel has room for 50 events. *)
Record callExchange := mkCallExchange {
  cx_Host : string;
  cx_Chan : list mongodbCallEvent;
  cx_Side : string;
}.
Definition exchangeChan_cap : nat := 50.

(** [primitive.Timestamp]: seconds and ordinal. *)
Abbreviation Timestamp := (Z * Z)%type.
Definition IsZero (t : Timestamp) : bool := bool_decide (t = (0, 0)).

(** [mongoDBWebRTCCallQueue] without the collections; a resume token is a
    string, [csReady] has the handlers whose channel [ready] was closed. *)
Record mongoQueue := mkMongoQueue {
  mq_operatorID : string;
  mq_csManagerSeq : Z;
  mq_csLastEventClusterTime : Timestamp;
  mq_csLastResumeToken : string;
  mq_csTrackingHosts : gset string;
  mq_csAnswerersWaitingForNextCS : list nat;
  mq_csReady : gset nat;
  mq_exchanges : list callExchange;               (* the heap of exchanges *)
  mq_callExchangeSubs : gmap string (gset nat);
  mq_handlers : list newCallHandler;              (* the heap of handlers *)
  mq_waitingForNewCallSubs : gmap string (gset nat);
}.

Definition mq_set_seq v q := mkMongoQueue (mq_operatorID q) v (mq_csLastEventClusterTime q) (mq_csLastResumeToken q)
  (mq_csTrackingHosts q) (mq_csAnswerersWaitingForNextCS q) (mq_csReady q) (mq_exchanges q) (mq_callExchangeSubs q)
  (mq_handlers q) (mq_waitingForNewCallSubs q).
Definition mq_set_position time token q := mkMongoQueue (mq_operatorID q) (mq_csManagerSeq q) time token
  (mq_csTrackingHosts q) (mq_csAnswerersWaitingForNextCS q) (mq_csReady q) (mq_exchanges q) (mq_callExchangeSubs q)
  (mq_handlers q) (mq_waitingForNewCallSubs q).
Definition mq_set_tracking v q := mkMongoQueue (mq_operatorID q) (mq_csManagerSeq q) (mq_csLastEventClusterTime q)
  (mq_csLastResumeToken q) v (mq_csAnswerersWaitingForNextCS q) (mq_csReady q) (mq_exchanges q)
  (mq_callExchangeSubs q) (mq_handlers q) (mq_waitingForNewCallSubs q).
Definition mq_set_waiting v q := mkMongoQueue (mq_operatorID q) (mq_csManagerSeq q) (mq_csLastEventClusterTime q)
  (mq_csLastResumeToken q) (mq_csTrackingHosts q) v (mq_csReady q) (mq_exchanges q)
  (mq_callExchangeSubs q) (mq_handlers q) (mq_waitingForNewCallSubs q).
Definition mq_set_ready v q := mkMongoQueue (mq_operatorID q) (mq_csManagerSeq q) (mq_csLastEventClusterTime q)
  (mq_csLastResumeToken q) (mq_csTrackingHosts q) (mq_csAnswerersWaitingForNextCS q) v (mq_exchanges q)
  (mq_callExchangeSubs q) (mq_handlers q) (mq_waitingForNewCallSubs q).
Definition mq_set_exchanges heap subs q := mkMongoQueue (mq_operatorID q) (mq_csManagerSeq q)
  (mq_csLastEventClusterTime q) (mq_csLastResumeToken q) (mq_csTrackingHosts q) (mq_csAnswerersWaitingForNextCS q)
  (mq_csReady q) heap subs (mq_handlers q) (mq_waitingForNewCallSubs q).
Definition mq_set_handlers heap subs q := mkMongoQueue (mq_operatorID q) (mq_csManagerSeq q)
  (mq_csLastEventClusterTime q) (mq_csLastResumeToken q) (mq_csTrackingHosts q) (mq_csAnswerersWaitingForNextCS q)
  (mq_csReady q) (mq_exchanges q) (mq_callExchangeSubs q) heap subs.

(** The queue that [NewMongoDBWebRTCCallQueue] makes. *)
Definition new_mongoQueue (operatorID : string) : mongoQueue :=
  mkMongoQueue operatorID 0 (0, 0) EmptyString ∅ [] ∅ [] ∅ [] ∅.

(** ** Subscriptions *)

(** [subscribeToCall]. *)
Definition subscribeToCall (host callID side : string) (q : mongoQueue) : mongoQueue * nat :=
  let x := length (mq_exchanges q) in
  let exchangeSubs := default ∅ (mq_callExchangeSubs q !! callID) in
  (mq_set_exchanges (mq_exchanges q ++ [mkCallExchange host [] side])
     (<[callID := {[x]} ∪ exchangeSubs]> (mq_callExchangeSubs q)) q, x).

(** The function that it returns; it is called once, and until then the
    captured map is the one that the queue has for the call. *)
Definition unsubscribe (callID : string) (x : nat) (q : mongoQueue) : mongoQueue :=
  let exchangeSubs := default ∅ (mq_callExchangeSubs q !! callID) ∖ {[x]} in
  mq_set_exchanges (mq_exchanges q)
    (if bool_decide (exchangeSubs = ∅) then delete callID (mq_callExchangeSubs q)
     else <[callID := exchangeSubs]> (mq_callExchangeSubs q)) q.

(** [subscribeForNewCallOnHosts] up to its wait: the handler, and whether the
    hosts are all tracked already, so that there is nothing to wait for. *)
Definition add_handler (h : nat) (subs : gmap string (gset nat)) (host : string) : gmap string (gset nat) :=
  <[host := {[h]} ∪ default ∅ (subs !! host)]> subs.

Definition subscribeForNewCallOnHosts (hosts : list string) (q : mongoQueue) : mongoQueue * nat * bool :=
  let h := length (mq_handlers q) in
  let alreadyTrackedCount := length (filter (fun host => host ∈ mq_csTrackingHosts q) hosts) in
  let q1 := mq_set_handlers (mq_handlers q ++ [mkHandler [] false])
              (foldl (add_handler h) (mq_waitingForNewCallSubs q) hosts) q in
  if bool_decide (alreadyTrackedCount = length hosts) then (q1, h, true)
  else (mq_set_seq (wrap64 (mq_csManagerSeq q1 + 1))
          (mq_set_waiting (mq_csAnswerersWaitingForNextCS q1 ++ [h]) q1), h, false).

(** Its [unsub]. *)
Definition remove_handler (h : nat) (subs : gmap string (gset nat)) (host : string) : gmap string (gset nat) :=
  let hostSubs := default ∅ (subs !! host) ∖ {[h]} in
  if bool_decide (hostSubs = ∅) then delete host subs else <[host := hostSubs]> subs.

Definition unsub (hosts : list string) (h : nat) (q : mongoQueue) : mongoQueue :=
  mq_set_handlers (mq_handlers q) (foldl (remove_handler h) (mq_waitingForNewCallSubs q) hosts) q.

(** [mongodbNewCallEventHandler.Send]. *)
Definition Send (event : mongodbCallEvent) (newCall : newCallHandler) : newCallHandler * bool :=
  if nh_received newCall then (newCall, false)
  else match nh_eventChan newCall with
       | [] => (mkHandler [event] true, true)
       | _ => (mkHandler (nh_eventChan newCall) true, false)
       end.

(** ** The change stream *)

Inductive operationType := OpInsert | OpUpdate | OpDelete.

(** [ChangeEvent], as much as the queue uses of it; [ce_FullDocument] is what
    unmarshals from the full document. *)
Record ChangeEvent := mkChangeEvent {
  ce_OperationType : operationType;
  ce_FullDocument : option mongodbWebRTCCall;
  ce_ClusterTime : Timestamp;
}.

(** [ChangeEventResult]. *)
Inductive ChangeEventResult :=
  | ChangeError (err : goerror) (ResumeToken : string)
  | ChangeOk (Event : ChangeEvent) (ResumeToken : string).

(** [processClusterEventState]. *)
Definition processClusterEventState (newResumeToken : string) (newClusterTime : Timestamp) (q : mongoQueue)
    : mongoQueue * bool :=
  if negb (IsZero newClusterTime) then
    let last := mq_csLastEventClusterTime q in
    if (fst last >? fst newClusterTime) || ((fst last =? fst newClusterTime) && (snd last >=? snd newClusterTime))
    then (q, false)
    else (mq_set_position newClusterTime EmptyString q, true)
  else if negb (bool_decide (newResumeToken = EmptyString))
  then (mq_set_position (0, 0) newResumeToken q, true)
  else (q, true).

(** The loop of [processNextSubscriptionEvent] over the answerers of a host:
    the first that takes the event gets it. *)
Fixpoint send_to_first (event : mongodbCallEvent) (answerChans : list nat) (heap : list newCallHandler)
    : list newCallHandler :=
  match answerChans with
  | [] => heap
  | h :: answerChans' =>
      match heap !! h with
      | Some newCall =>
          match Send event newCall with
          | (newCall', true) => <[h := newCall']> heap
          | (newCall', false) => send_to_first event answerChans' (<[h := newCall']> heap)
          end
      | None => send_to_first event answerChans' heap
      end
  end.

(** The loop over the exchanges of a call: an event that does not fit is
    dropped. *)
Definition send_exchange (event : mongodbCallEvent) (x : callExchange) : callExchange :=
  if (length (cx_Chan x) <? exchangeChan_cap)%nat then mkCallExchange (cx_Host x) (cx_Chan x ++ [event]) (cx_Side x)
  else x.
Definition send_to_all (event : mongodbCallEvent) (exchangeChans : list nat) (heap : list callExchange)
    : list callExchange :=
  foldl (fun heap x => alter (send_exchange event) x heap) heap exchangeChans.

(** [processNextSubscriptionEvent]; [None] is a closed channel. The result
    says whether the manager has to wait for the next change stream. *)
Definition processNextSubscriptionEvent (next : option ChangeEventResult) (q : mongoQueue) : mongoQueue * bool :=
  match next with
  | None => (mq_set_seq (wrap64 (mq_csManagerSeq q + 1)) q, true)
  | Some (ChangeError err token) =>
      let q1 := if errors_Is err ErrChangeStreamInvalidateEvent
                then fst (processClusterEventState token (0, 0) q) else q in
      (mq_set_seq (wrap64 (mq_csManagerSeq q1 + 1)) q1, true)
  | Some (ChangeOk event token) =>
      let '(q1, fresh) := processClusterEventState token (ce_ClusterTime event) q in
      if negb fresh then (q1, false)
      else
        match ce_FullDocument event with
        | None => (q1, false)
        | Some callResp =>
            if bool_decide (mc_Host callResp = EmptyString) then (q1, false)
            else
              match ce_OperationType event with
              | OpInsert =>
                  if bool_decide (mc_Host callResp ∈ mq_csTrackingHosts q1) then
                    let answerChans := elements (default ∅ (mq_waitingForNewCallSubs q1 !! mc_Host callResp)) in
                    (mq_set_handlers (send_to_first (call_event callResp) answerChans (mq_handlers q1))
                       (mq_waitingForNewCallSubs q1) q1, false)
                  else (q1, false)
              | OpUpdate | OpDelete =>
                  let exchangeChans := elements (default ∅ (mq_callExchangeSubs q1 !! mc_ID callResp)) in
                  let ev := if ce_OperationType event is OpUpdate then call_event callResp else expired_event in
                  (mq_set_exchanges (send_to_all ev exchangeChans (mq_exchanges q1)) (mq_callExchangeSubs q1) q1, false)
              end
        end
  end.

(** [changeStreamManager], cut at its locks and calls. [csManager] has its
    local variables between the sections. *)
Record csManager := mkCsManager {
  cs_lastSeq : Z;
  cs_isInitialized : bool;
  cs_pending : option (list string * list nat * option string * option Timestamp);
    (* hosts, readyFuncs, StartAfter, StartAtOperationTime while Watch runs *)
}.
Definition new_csManager : csManager := mkCsManager 0 false None.

(** A tick, up to the call of Watch. *)
Definition csManager_tick (m : csManager) (q : mongoQueue) : csManager * mongoQueue :=
  let currSeq := mq_csManagerSeq q in
  if cs_isInitialized m && (cs_lastSeq m =? currSeq) then (m, q)
  else
    let hosts := (map_to_list (mq_waitingForNewCallSubs q)).*1 in
    let readyFuncs := mq_csAnswerersWaitingForNextCS q in
    let startAfter := if bool_decide (mq_csLastResumeToken q = EmptyString) then None
                      else Some (mq_csLastResumeToken q) in
    let startAt := if IsZero (mq_csLastEventClusterTime q) then None else Some (mq_csLastEventClusterTime q) in
    (mkCsManager currSeq true (Some (hosts, readyFuncs, startAfter, startAt)), mq_set_waiting [] q).

(** Watch fails, or gives the next change stream. *)
Definition csManager_watch (ok : bool) (m : csManager) (q : mongoQueue) : csManager * mongoQueue :=
  match cs_pending m with
  | None => (m, q)
  | Some (hosts, readyFuncs, _, _) =>
      let m' := mkCsManager (cs_lastSeq m) (cs_isInitialized m) None in
      if ok then (m', mq_set_tracking (list_to_set hosts) (mq_set_ready (list_to_set readyFuncs ∪ mq_csReady q) q))
      else (m', mq_set_seq (wrap64 (mq_csManagerSeq q + 1)) q)
  end.

(** The filter of the change stream on the full document. *)
Definition cs_match (operatorID : string) (hosts : list string) (c : mongodbWebRTCCall) : bool :=
  bool_decide (mc_CallerOperatorID c = operatorID) || bool_decide (mc_AnswererOperatorID c = operatorID)
    || bool_decide (mc_Host c ∈ hosts).

(** ** Sizes *)

Definition maxHostAnswerersSize : Z := 2.
Definition errTooManyConns : goerror :=
  EStatus Unavailable "too many connection attempts; please wait a bit and try again".

Section Sizes.
Context {Ops : Type} `{OperatorsColl Ops}.

(** [checkHostQueueSize]. *)
Definition checkHostQueueSize (maxHostCallers : Z) (ctxErr : option goerror) (forCaller : bool)
    (hosts : list string) (ops : Ops) : option goerror :=
  match op_Aggregate ctxErr forCaller (if forCaller then maxHostCallers else maxHostAnswerersSize * 2) hosts ops with
  | inr err => Some err
  | inl ret => if bool_decide (ret = ∅) then None else Some errTooManyConns
  end.
End Sizes.

(** One round of [operatorLivenessLoop]: the sizes per host that it writes
    into the operator's document. *)
Definition count_waiting (subs : gmap string (gset nat)) : gmap string (Z * Z) :=
  (fun waiting => (0, Z.of_nat (size waiting))) <$> subs.
Definition count_exchange (heap : list callExchange) (hosts : gmap string (Z * Z)) (x : nat)
    : gmap string (Z * Z) :=
  match heap !! x with
  | Some exchange =>
      let sizes := default (0, 0) (hosts !! cx_Host exchange) in
      <[cx_Host exchange := if bool_decide (cx_Side exchange = "caller"%string)
                            then (fst sizes + 1, snd sizes) else (fst sizes, snd sizes + 1)]> hosts
  | None => hosts
  end.
Definition operator_sizes (q : mongoQueue) : gmap string (Z * Z) :=
  foldl (count_exchange (mq_exchanges q)) (count_waiting (mq_waitingForNewCallSubs q))
    (map_to_list (mq_callExchangeSubs q) ≫= fun kv => elements (snd kv)).
Definition hostsWithAnswerers (q : mongoQueue) : list string :=
  (filter (fun kv => 1 <= snd (snd kv)) (map_to_list (operator_sizes q))).*1.

(** ** Sending and receiving offers *)

Section Offers.
Context {Coll : Type} `{CallsColl Coll} {Ops : Type} `{OperatorsColl Ops}.
Context (maxHostCallers offerDeadline offerCloseToDeadline : Z).

(** [utils.MergeContext]: the merged context is done when one of the two is. *)
Definition MergeContext (ctxErr otherErr : option goerror) : option goerror :=
  match ctxErr with Some e => Some e | None => if otherErr is Some _ then Some (EIs Canceled) else None end.

(** [SendOfferInit] up to the start of its goroutine: the identifier and the
    subscription whose events the goroutine receives. [newUUID] is a fresh
    identifier, [now] the time of the insertion. *)
Definition mq_SendOfferInit (ctxErr cancelErr : option goerror) (newUUID : string) (now : Z)
    (host sdp : string) (disableTrickle : bool) (ops : Ops) (s : Coll) (q : mongoQueue)
    : Coll * mongoQueue * (string * nat + goerror) :=
  match checkHostQueueSize maxHostCallers ctxErr true [host] ops with
  | Some err => (s, q, inr err)
  | None =>
      let call := mkCall newUUID (mq_operatorID q) EmptyString host now sdp [] false None false false EmptyString []
                    false EmptyString in
      let '(q1, x) := subscribeToCall host newUUID "caller" q in
      match cl_InsertOne (MergeContext ctxErr cancelErr) call s with
      | (s', Some err) => (s', unsubscribe newUUID x q1, inr err)
      | (s', None) => (s', q1, inl (newUUID, x))
      end
  end.

(** What the environment does during one call of [waitForNewCall]: whether the
    channel [ready] is closed before the context is done, the time at which
    the collection is asked, and what comes from the events, if anything
    before the context is done. *)
Record waitInputs := mkWaitInputs {
  wi_ready : bool;
  wi_doneErr : goerror;                     (* the context's error, once done *)
  wi_now : Z;
  wi_event : option mongodbCallEvent;
  wi_ctxAtTake : option goerror;            (* the context when the event's offer is taken *)
}.

(** [getFirstResult]: the offer that was taken, or whether to retry. *)
Definition getFirstResult (recvOfferCtx : option goerror) (i : waitInputs) (operatorID : string) (s : Coll)
    : Coll * (mongodbWebRTCCall * bool + goerror) :=
  match recvOfferCtx with
  | Some err => (s, inr err)
  | None =>
      match wi_event i with
      | None => (s, inr (wi_doneErr i))
      | Some next =>
          match ev_Error next with
          | Some err => (s, inr err)
          | None =>
              match take_event (wi_ctxAtTake i) operatorID (ev_Call next) s with
              | (s', inr err) => (s', inr err)
              | (s', inl true) => (s', inl (ev_Call next, false))
              | (s', inl false) => (s', inl (ev_Call next, true))
              end
          end
      end
  end.

(** [waitForNewCall], with the error of recvOfferCtx before and after; every
    way out but that of an error in the subscription cancels it. *)
Definition waitForNewCall (recvOfferCtx : option goerror) (hosts : list string) (i : waitInputs) (s : Coll)
    (q : mongoQueue) : Coll * mongoQueue * option goerror * (mongodbWebRTCCall * bool + goerror) :=
  let '(q1, h, tracked) := subscribeForNewCallOnHosts hosts q in
  let waitErr := if tracked then None
                 else match recvOfferCtx with
                      | Some err => if wi_ready i then None else Some err
                      | None => if wi_ready i then None else Some (wi_doneErr i)
                      end in
  match waitErr with
  | Some err => (s, unsub hosts h q1, recvOfferCtx, inr err)
  | None =>
      let startedAtWindow := wi_now i - offerDeadline + offerCloseToDeadline in
      let cancelled := match recvOfferCtx with Some e => Some e | None => Some (EIs Canceled) end in
      let '(s', res) :=
        match take_first recvOfferCtx (mq_operatorID q1) hosts startedAtWindow s with
        | (s1, inr err) => (s1, inr err)
        | (s1, inl (Some callReq)) => (s1, inl (callReq, false))
        | (s1, inl None) => getFirstResult recvOfferCtx i (mq_operatorID q1) s1
        end in
      (s', unsub hosts h q1, cancelled, res)
  end.

(** The loop of [RecvOffer]: one set of inputs per attempt; [Blocks] when they
    are used up. The offer that was taken, or an error. *)
Fixpoint recv_loop (recvOfferCtx : option goerror) (hosts : list string) (inputs : list waitInputs) (s : Coll)
    (q : mongoQueue) : outcome (Coll * mongoQueue * (mongodbWebRTCCall + goerror)) :=
  match inputs with
  | [] => Blocks (s, q, inr (EIs Canceled))
  | i :: inputs' =>
      match waitForNewCall recvOfferCtx hosts i s q with
      | (s', q', _, inr err) => Returns (s', q', inr err)
      | (s', q', ctx', inl (callReq, true)) => recv_loop ctx' hosts inputs' s' q'
      | (s', q', _, inl (callReq, false)) => Returns (s', q', inl callReq)
      end
  end.

(** [RecvOffer] up to the start of its goroutine: the exchange, and the
    subscription whose events the goroutine receives. *)
Definition mq_RecvOffer (ctxErr cancelErr : option goerror) (hosts : list string) (inputs : list waitInputs)
    (ops : Ops) (s : Coll) (q : mongoQueue)
    : outcome (Coll * mongoQueue * (offerExchange * nat + goerror)) :=
  match checkHostQueueSize maxHostCallers ctxErr false hosts ops with
  | Some err => Returns (s, q, inr err)
  | None =>
      match recv_loop (MergeContext ctxErr cancelErr) hosts inputs s q with
      | Panics => Panics
      | Blocks (s', q', _) => Blocks (s', q', inr (EIs Canceled))
      | Returns (s', q', inr err) => Returns (s', q', inr err)
      | Returns (s', q', inl callReq) =>
          let '(q1, x) := subscribeToCall (mc_Host callReq) (mc_ID callReq) "answerer" q' in
          Returns (s', q1, inl (mkOfferExchange callReq None None (mc_StartedAt callReq + offerDeadline), x))
      end
  end.
End Offers.

(** [setErr]'s update. *)
Definition setErr `{CallsColl Coll} (errText : goerror -> string) (callID : string) (errToSet : goerror) (s : Coll)
    : Coll :=
  fst (cl_UpdateOne None (fun c => bool_decide (mc_ID c = callID)) (mc_set_AnswererError (errText errToSet)) s).

(** ** The collections in memory *)

(** Documents by their identifier, the first that matches is updated. *)
Definition first_match (f : call_filter) (s : gmap string mongodbWebRTCCall) : option (string * mongodbWebRTCCall) :=
  head (filter (fun kv => f (snd kv) = true) (map_to_list s)).

#[export] Instance memory_calls : CallsColl (gmap string mongodbWebRTCCall) := {|
  cl_docs s := s;
  cl_InsertOne e c s :=
    match e with
    | Some err => (s, Some err)
    | None => if s !! mc_ID c is Some _ then (s, Some (ENew "duplicate key")) else (<[mc_ID c := c]> s, None)
    end;
  cl_UpdateOne e f u s :=
    match e, first_match f s with
    | Some err, _ => (s, inr err)
    | None, None => (s, inl (mkUpdateResult 0 0))
    | None, Some (id, d) => (<[id := u d]> s, inl (mkUpdateResult 1 (if bool_decide (u d = d) then 0 else 1)))
    end;
  cl_FindOneAndUpdate e f u s :=
    match e, first_match f s with
    | Some err, _ => (s, inr err)
    | None, None => (s, inl None)
    | None, Some (id, d) => (<[id := u d]> s, inl (Some d))
    end;
|}.

Lemma first_match_some f s id d : first_match f s = Some (id, d) -> s !! id = Some d /\ f d = true.
Proof.
  unfold first_match. intros Hh.
  assert (Hin : (id, d) ∈ filter (fun kv => f (snd kv) = true) (map_to_list s)).
  { destruct (filter _ _); simplify_eq/=. left. }
  apply list_elem_of_filter in Hin as [Hf Hin]. by apply elem_of_map_to_list in Hin.
Qed.

Lemma first_match_none f s : first_match f s = None -> forall id d, s !! id = Some d -> f d = false.
Proof.
  unfold first_match. intros Hh id d Hd. destruct (f d) eqn:Hf; [|done].
  assert (Hin : (id, d) ∈ filter (fun kv => f (snd kv) = true) (map_to_list s)).
  { apply list_elem_of_filter. split; [done|]. by apply elem_of_map_to_list. }
  destruct (filter _ _); [by apply elem_of_nil in Hin|done].
Qed.

#[export] Instance memory_calls_laws : CallsCollLaws (gmap string mongodbWebRTCCall).
Proof.
  split; cbn.
  - intros c s s'. destruct (s !! mc_ID c) eqn:E; intros [= <-]. done.
  - intros [e|] c s s' err; [intros [= <- _]; by left|]. destruct (s !! mc_ID c); intros [= <-]. by left.
  - intros [e|] f u s s' r; [done|]. destruct (first_match f s) as [[id d]|] eqn:E; intros [= <- <-].
    + right. exists d. split; [|done]. exists id. by apply first_match_some in E as [? ?].
    + left. split_and!; try done. intros id d. by eapply first_match_none.
  - intros [e|] f u s s' err; [intros [= <- _]; by left|]. by destruct (first_match f s) as [[id d]|].
  - intros [e|] f u s s' r; [done|]. destruct (first_match f s) as [[id d]|] eqn:E; intros [= <- <-].
    + exists id. by apply first_match_some in E as [? ?].
    + split; [intros id d; by eapply first_match_none|done].
  - intros [e|] f u s s' err; [intros [= <- _]; by left|]. by destruct (first_match f s) as [[id d]|].
  - eauto.
  - eauto.
  - eauto.
Qed.

#[export] Instance memory_operators : OperatorsColl (list operatorHosts) := {|
  op_docs ops := ops;
  op_Aggregate e forCaller max hosts ops :=
    match e with Some err => inr err | None => inl (size_pipeline forCaller max hosts ops) end;
|}.
#[export] Instance memory_operators_laws : OperatorsCollLaws (list operatorHosts).
Proof. split. by intros [e|] ? ? ? ? ? [= <-]. Qed.
