(* ===== verification/MongoOffers.v ===== *)
(** * What the MongoDB call queue guarantees

    The theorems about [CallQueueMongo]: an offer is taken by one answerer,
    callers and answerers hear each other's candidates through snapshots of the
    document, events of the change stream are handled once and reach the
    subscribers, and what happens when a change stream cannot be opened. *)

From S2P Require Import Prelude GoError BaseStream CallQueueMemory CallQueueMongo.
Local Open Scope Z_scope.

(** ** The documents of all operators *)

(** Documents are kept under their identifiers. *)
Definition docs_ok (docs : gmap string mongodbWebRTCCall) : Prop := map_Forall (fun id d => mc_ID d = id) docs.

(** An update that leaves alone who the offer belongs to and whether it was
    taken. *)
Definition keeps_take (u : call_update) : Prop := forall c, mc_ID (u c) = mc_ID c /\ mc_Answered (u c) = mc_Answered c.

Section Taking.
Context {Coll : Type} `{CallsCollLaws Coll} (quote : string -> string) (errText : goerror -> string).

(** The collection, the identifiers that were ever used, and who took which
    offer. *)
Record offers := mkOffers {
  of_coll : Coll;
  of_used : gset string;
  of_taken : list (string * string);    (* operator, offer *)
}.

(** What any operator does to the collection, one atomic operation at a time;
    MongoDB removes an offer when it is expired. *)
Inductive offer_step : offers -> offers -> Prop :=
  | OInsert ctxErr call s s' used taken err :
      mc_ID call ∉ used -> mc_Answered call = false -> cl_InsertOne ctxErr call s = (s', err) ->
      offer_step (mkOffers s used taken) (mkOffers s' ({[mc_ID call]} ∪ used) taken)
  | OSendOfferUpdate ctxErr host uuid cand s used taken :
      offer_step (mkOffers s used taken) (mkOffers (fst (mq_SendOfferUpdate quote ctxErr host uuid cand s)) used taken)
  | OSendOfferDone ctxErr host uuid s used taken :
      offer_step (mkOffers s used taken) (mkOffers (fst (mq_SendOfferDone quote ctxErr host uuid s)) used taken)
  | OSendOfferError ctxErr host uuid err s used taken :
      offer_step (mkOffers s used taken)
        (mkOffers (fst (mq_SendOfferError quote errText ctxErr host uuid err s)) used taken)
  | OAnswererRespond ctxErr ans x s used taken :
      offer_step (mkOffers s used taken)
        (mkOffers (fst (mq_AnswererRespond quote errText ctxErr ans x s)) used taken)
  | OAnswererDone ctxErr x s used taken :
      offer_step (mkOffers s used taken) (mkOffers (fst (mq_AnswererDone quote ctxErr x s)) used taken)
  | OSetErr id err s used taken :
      offer_step (mkOffers s used taken) (mkOffers (setErr errText id err s) used taken)
  | OTakeFirst ctxErr operatorID hosts w s s' r used taken :
      take_first ctxErr operatorID hosts w s = (s', r) ->
      offer_step (mkOffers s used taken)
        (mkOffers s' used (match r with inl (Some c) => (operatorID, mc_ID c) :: taken | _ => taken end))
  | OTakeEvent ctxErr operatorID callReq s s' r used taken :
      take_event ctxErr operatorID callReq s = (s', r) ->
      offer_step (mkOffers s used taken)
        (mkOffers s' used (match r with inl true => (operatorID, mc_ID callReq) :: taken | _ => taken end))
  | OExpire id s s' used taken :
      cl_docs s' = delete id (cl_docs s) -> offer_step (mkOffers s used taken) (mkOffers s' used taken).

(** Offers that were taken are never untaken. *)
Record offers_inv (o : offers) : Prop := {
  oi_docs : docs_ok (cl_docs (of_coll o));
  oi_used : forall id d, cl_docs (of_coll o) !! id = Some d -> id ∈ of_used o;
  oi_taken : forall id, id ∈ (of_taken o).*2 -> id ∈ of_used o /\
    forall d, cl_docs (of_coll o) !! id = Some d -> mc_Answered d = true;
  oi_once : NoDup (of_taken o).*2;
}.

Lemma update_docs e f u s : forall s' r, cl_UpdateOne e f u s = (s', r) ->
  cl_docs s' = cl_docs s \/ exists d, updated_one f u s s' d.
Proof using All.
  intros s' [r|err] Hu.
  - apply update_ok in Hu as [(_ & _ & _ & ?)|(d & ? & _)]; [by left | right; by eexists].
  - by apply update_error in Hu.
Qed.

(** An update of one document that keeps what was taken keeps the invariant. *)
Lemma offers_inv_update f u s s' used taken :
  keeps_take u -> (cl_docs s' = cl_docs s \/ exists d, updated_one f u s s' d) ->
  offers_inv (mkOffers s used taken) -> offers_inv (mkOffers s' used taken).
Proof using All.
  intros Hu [Heq|(d & id & Hd & Hf & Heq)] [H1 H2 H3 H4]; cbn [of_coll of_used of_taken] in *.
  { split; cbn [of_coll of_used of_taken]; rewrite ?Heq; done. }
  destruct (Hu d) as [Hid Hans].
  split; cbn [of_coll of_used of_taken]; [..|done]; rewrite Heq.
  - apply map_Forall_insert_2; [|done]. rewrite Hid. by apply (H1 id).
  - intros id' d' [[<- <-]|[_ ?]]%lookup_insert_Some; eauto.
  - intros id' Hin. destruct (H3 id' Hin) as [Hus Ha]. split; [done|].
    intros d' [[<- <-]|[_ ?]]%lookup_insert_Some; [rewrite Hans; by apply Ha | by apply Ha].
Qed.

Lemma offers_inv_inactive f u e active uuid s used taken :
  keeps_take u -> offers_inv (mkOffers s used taken) ->
  offers_inv (mkOffers (fst (inactive_unless quote active uuid (cl_UpdateOne e f u s))) used taken).
Proof using All.
  intros Hu Hi. destruct (cl_UpdateOne e f u s) as [s' r] eqn:E. pose proof (update_docs _ _ _ _ _ _ E).
  assert (fst (inactive_unless quote active uuid (s', r)) = s') as -> by (by destruct r).
  by eapply offers_inv_update.
Qed.

(** Taking a document that was not taken. *)
Lemma offers_inv_take op id d s s' used taken :
  offers_inv (mkOffers s used taken) -> cl_docs s !! id = Some d -> mc_Answered d = false ->
  cl_docs s' = <[id := mc_take op d]> (cl_docs s) ->
  offers_inv (mkOffers s' used taken) /\ offers_inv (mkOffers s' used ((op, id) :: taken)).
Proof using All.
  intros [H1 H2 H3 H4] Hd Hans Heq; cbn [of_coll of_used of_taken] in *.
  assert (Hnew : id ∉ taken.*2).
  { intros Hin. apply H3 in Hin as [_ Ha]. specialize (Ha d Hd). congruence. }
  assert (Hok : docs_ok (<[id := mc_take op d]> (cl_docs s))).
  { apply map_Forall_insert_2; [|done]. exact (H1 id d Hd). }
  assert (Hus : forall id' d', <[id := mc_take op d]> (cl_docs s) !! id' = Some d' -> id' ∈ used).
  { intros id' d' [[<- <-]|[_ ?]]%lookup_insert_Some; eauto. }
  assert (Htk : forall id', id' = id \/ id' ∈ taken.*2 -> id' ∈ used /\
    forall d', <[id := mc_take op d]> (cl_docs s) !! id' = Some d' -> mc_Answered d' = true).
  { intros id' Hin. split; [destruct Hin as [->|Hin]; [eauto|by apply H3]|].
    intros d' [[<- <-]|[Hne ?]]%lookup_insert_Some; [done|]. destruct Hin as [->|Hin]; [done|]. by apply H3 in Hin as [_ ?]; eauto. }
  split; split; cbn [of_coll of_used of_taken]; rewrite ?Heq; try done.
  - intros id' Hin. apply Htk. by right.
  - intros id' Hin. apply Htk. by apply elem_of_cons in Hin.
  - by constructor.
Qed.

Lemma offer_step_inv o o' : offers_inv o -> offer_step o o' -> offers_inv o'.
Proof using All.
  intros Hi Hs. destruct Hs as [ctxErr call s s' used taken err Hf Ha Hins| | | | | | |
    ctxErr op hosts w s s' r used taken Ht|ctxErr op callReq s s' r used taken Ht|id s s' used taken Heq].
  - assert (Hd : cl_docs s' = cl_docs s \/ cl_docs s' = <[mc_ID call := call]> (cl_docs s)).
    { destruct ctxErr as [e|].
      - destruct (insert_done e call s) as [err' E]. rewrite E in Hins. simplify_eq. by left.
      - destruct err as [err|]; [apply insert_error in Hins as [?|[_ ?]]; tauto|].
        apply insert_ok in Hins as [_ ?]. by right. }
    destruct Hi as [H1 H2 H3 H4]; cbn [of_coll of_used of_taken] in *.
    split; cbn [of_coll of_used of_taken]; [..|done].
    + destruct Hd as [->| ->]; [done|]. by apply map_Forall_insert_2.
    + intros id d Hid. destruct Hd as [Hd|Hd]; rewrite Hd in Hid; [apply H2 in Hid; set_solver|].
      apply lookup_insert_Some in Hid as [[<- _]|[_ Hid]]; [set_solver|]. apply H2 in Hid. set_solver.
    + intros id Hin. destruct (H3 id Hin) as [Hus Hans]. split; [set_solver|]. intros d Hid.
      destruct Hd as [Hd|Hd]; rewrite Hd in Hid; [by apply Hans|].
      apply lookup_insert_Some in Hid as [[<- _]|[_ Hid]]; [done|by apply Hans].
  - by apply offers_inv_inactive.
  - by apply offers_inv_inactive.
  - by apply offers_inv_inactive.
  - unfold mq_AnswererRespond. destruct ans as [[sdp|] [cand|] [e|]]; try by apply offers_inv_inactive. done.
  - by apply offers_inv_inactive.
  - unfold setErr. destruct (cl_UpdateOne _ _ _ _) as [s' r] eqn:E. pose proof (update_docs _ _ _ _ _ _ E).
    by eapply (offers_inv_update _ (mc_set_AnswererError (errText err))).
  - assert (Htk : forall c, updated_one (take_filter hosts w) (mc_take op) s s' c ->
      offers_inv (mkOffers s' used taken) /\ offers_inv (mkOffers s' used ((op, mc_ID c) :: taken))).
    { intros c (id & Hc & Hfil & Heq). pose proof (oi_docs _ Hi id c Hc) as Hid. rewrite Hid.
      eapply offers_inv_take; [done..| |done]. unfold take_filter in Hfil. by breflect. }
    unfold take_first in Ht. destruct r as [[c|]|err].
    + apply find_ok in Ht. by apply Htk.
    + apply find_ok in Ht as [_ Heq]. eapply (offers_inv_update (fun _ => false) id); [done|by left|done].
    + apply find_error in Ht as [Heq|[c Hc]]; [|by eapply Htk].
      eapply (offers_inv_update (fun _ => false) id); [done|by left|done].
  - assert (Htk : forall c,
      updated_one (fun c => bool_decide (mc_ID c = mc_ID callReq) && negb (mc_Answered c)) (mc_take op) s s' c ->
      offers_inv (mkOffers s' used taken) /\ offers_inv (mkOffers s' used ((op, mc_ID callReq) :: taken))).
    { intros c (id & Hc & Hfil & Heq). pose proof (oi_docs _ Hi id c Hc) as Hid. simpl in Hid. breflect.
      replace (mc_ID callReq) with id by congruence. by eapply offers_inv_take. }
    unfold take_event in Ht. destruct (cl_UpdateOne _ _ _ _) as [s1 [r1|err]] eqn:E; simplify_eq.
    + apply update_ok in E as [(-> & _ & _ & Heq)|(c & Hc & _)].
      * simpl. eapply (offers_inv_update (fun _ => false) id); [done|by left|done].
      * destruct (_ && _); by eapply Htk.
    + apply update_error in E as [Heq|[c Hc]]; [|by eapply Htk].
      eapply (offers_inv_update (fun _ => false) id); [done|by left|done].
  - destruct Hi as [H1 H2 H3 H4]; cbn [of_coll of_used of_taken] in *.
    split; cbn [of_coll of_used of_taken]; rewrite ?Heq; [|..|done].
    + by apply map_Forall_delete.
    + intros id' d [_ ?]%lookup_delete_Some. eauto.
    + intros id' Hin. destruct (H3 id' Hin) as [Hus Ha]. split; [done|].
      intros d [_ ?]%lookup_delete_Some. by apply Ha.
Qed.
End Taking.

(** ** What one side hears of the other *)

(** How a document may change from one event to the next, on the answerer's
    and on the caller's side. *)
Definition answer_grows (d d' : mongodbWebRTCCall) : Prop :=
  mc_AnswererCandidates d `prefix_of` mc_AnswererCandidates d' /\
  (mc_AnswererSDP d <> EmptyString -> mc_AnswererSDP d' = mc_AnswererSDP d).
Definition request_grows (d d' : mongodbWebRTCCall) : Prop :=
  mc_CallerCandidates d `prefix_of` mc_CallerCandidates d'.

(** A document on which the answerer goes on: no error, and no candidates
    before its SDP. *)
Definition answer_ok (d : mongodbWebRTCCall) : Prop :=
  mc_AnswererError d = EmptyString /\ (mc_AnswererCandidates d <> [] -> mc_AnswererSDP d <> EmptyString).

(** All that the document says to the caller. *)
Definition answers_of (d : mongodbWebRTCCall) : list WebRTCCallAnswer :=
  (if bool_decide (mc_AnswererSDP d = EmptyString) then [] else [ans_sdp (mc_AnswererSDP d)]) ++
  (ans_candidate ∘ iceCandidateFromMongo <$> mc_AnswererCandidates d).

(** Documents of which each grows out of the one before. *)
Fixpoint chain {A} (R : A -> A -> Prop) (d : A) (ds : list A) : Prop :=
  match ds with [] => True | d' :: ds' => R d d' /\ chain R d' ds' end.

Lemma last_cons_default {A} (x d : A) l : List.last (x :: l) d = List.last l x.
Proof. revert x d. induction l as [|y l IH]; intros x d; [done|].
  change (List.last (y :: l) d = List.last (y :: l) x). by rewrite !IH. Qed.

Lemma answers_of_grows d d' :
  answer_ok d -> answer_grows d d' ->
  answers_of d' = answers_of d ++
    (if negb (negb (bool_decide (mc_AnswererSDP d = EmptyString))) && negb (bool_decide (mc_AnswererSDP d' = EmptyString))
     then [ans_sdp (mc_AnswererSDP d')] else []) ++
    (ans_candidate ∘ iceCandidateFromMongo <$>
       drop (length (mc_AnswererCandidates d)) (mc_AnswererCandidates d')).
Proof.
  intros [_ Hok] [[l Hl] Hsdp]. unfold answers_of. rewrite Hl, drop_app_length.
  destruct (decide (mc_AnswererSDP d = EmptyString)) as [E|E].
  - rewrite (bool_decide_eq_true_2 (mc_AnswererSDP d = _)) by done. cbn [negb andb].
    destruct (mc_AnswererCandidates d) as [|c cs]; [|by destruct Hok].
    case_bool_decide; by rewrite fmap_nil, app_nil_l.
  - rewrite (Hsdp E). rewrite bool_decide_eq_false_2 by done. simpl. by rewrite fmap_app.
Qed.

Lemma caller_event_ok d next :
  answer_ok next -> answer_ok d -> answer_grows d next ->
  exists out, answers_of next = answers_of d ++ out /\
    caller_event (negb (bool_decide (mc_AnswererSDP d = EmptyString))) (length (mc_AnswererCandidates d)) (call_event next)
    = (out, if mc_AnswererDone next then None
            else Some (negb (bool_decide (mc_AnswererSDP next = EmptyString)), length (mc_AnswererCandidates next))).
Proof.
  intros [Herr _] Hd Hg. eexists. split; [by apply answers_of_grows|].
  unfold caller_event. cbn [call_event ev_Error ev_Call]. rewrite bool_decide_eq_true_2 by done. cbn [negb].
  f_equal. destruct (mc_AnswererDone next); [done|]. f_equal. destruct Hg as [[l Hl] Hsdp].
  rewrite Hl, drop_app_length, length_app. f_equal.
  destruct (decide (mc_AnswererSDP d = EmptyString)) as [E|E].
  - by rewrite (bool_decide_eq_true_2 (mc_AnswererSDP d = _)).
  - rewrite (Hsdp E). by rewrite bool_decide_eq_false_2.
Qed.

Lemma caller_loop_app h n es es' :
  (caller_loop h n es).2 = true -> caller_loop h n (es ++ es') = caller_loop h n es.
Proof.
  revert h n. induction es as [|e es IH]; intros h n; simpl; [done|].
  destruct (caller_event h n e) as [out [[h' n']|]]; [|done].
  specialize (IH h' n'). destruct (caller_loop h' n' es) as [out' done'] eqn:E. simpl.
  intros ->. by rewrite IH.
Qed.

(** From a document that was handled already. *)
Lemma caller_loop_chain d ds :
  answer_ok d -> Forall answer_ok ds -> chain answer_grows d ds ->
  Forall (fun d' => mc_AnswererDone d' = false) (removelast ds) ->
  exists out, answers_of (List.last ds d) = answers_of d ++ out /\
    caller_loop (negb (bool_decide (mc_AnswererSDP d = EmptyString))) (length (mc_AnswererCandidates d))
      (call_event <$> ds) = (out, match last ds with Some l => mc_AnswererDone l | None => false end).
Proof.
  revert d. induction ds as [|next ds IH]; intros d Hd Hok Hch Hdone.
  { exists []. by rewrite app_nil_r. }
  apply Forall_cons in Hok as [Hnext Hok]. destruct Hch as [Hg Hch].
  destruct (caller_event_ok d next Hnext Hd Hg) as (out & Hout & Hev).
  cbn [fmap list_fmap caller_loop]. rewrite Hev. destruct ds as [|n2 ds].
  - exists out. split; [exact Hout|]. simpl. destruct (mc_AnswererDone next); [done|]. by rewrite app_nil_r.
  - cbn [removelast] in Hdone. apply Forall_cons in Hdone as [Hnd Hdone]. rewrite Hnd.
    destruct (IH next Hnext Hok Hch Hdone) as (out' & Hout' & Hloop). exists (out ++ out').
    split; [by rewrite last_cons_default, app_assoc, <- Hout|]. rewrite Hloop. by destruct ds.
Qed.

(** The same on the answerer's side. *)
Lemma answerer_loop_chain d ds n :
  (n <= length (mc_CallerCandidates d))%nat -> chain request_grows d ds ->
  Forall (fun d' => CallerError d' = EmptyString) (d :: ds) ->
  Forall (fun d' => mc_CallerDone d' = false) (removelast (d :: ds)) ->
  answerer_loop n d (call_event <$> ds) =
    (iceCandidateFromMongo <$> drop n (mc_CallerCandidates (List.last ds d)),
     if mc_CallerDone (List.last ds d) then Some (CallerEnded None) else None).
Proof.
  revert d n. induction ds as [|next ds IH]; intros d n Hn Hch Herr Hdone;
    apply Forall_cons in Herr as [Hd Herr].
  - cbn [fmap list_fmap answerer_loop List.last]. unfold answerer_request.
    rewrite bool_decide_eq_true_2 by done. cbn [negb]. by destruct (mc_CallerDone d).
  - destruct Hch as [[l Hl] Hch]. cbn [removelast] in Hdone. apply Forall_cons in Hdone as [Hnd Hdone].
    cbn [fmap list_fmap answerer_loop]. unfold answerer_request at 1.
    rewrite bool_decide_eq_true_2 by done. cbn [negb]. rewrite Hnd. cbn [call_event ev_Error ev_Expired ev_Call].
    assert (Hlen : (n + length (drop n (mc_CallerCandidates d)) = length (mc_CallerCandidates d))%nat).
    { rewrite length_drop. lia. }
    rewrite Hlen. change (CallQueueMongo.call_event <$> ds) with (call_event <$> ds).
    rewrite (IH next (length (mc_CallerCandidates d))); [|rewrite Hl, length_app; lia|done..].
    rewrite last_cons_default.
    f_equal. rewrite <- fmap_app. f_equal.
    assert (Hpre : mc_CallerCandidates d `prefix_of` mc_CallerCandidates (List.last ds next)).
    { clear IH Herr Hdone Hlen. trans (mc_CallerCandidates next); [by exists l|]. clear l Hl.
      revert next Hch. induction ds as [|x ds IH]; intros next Hch; [done|]. destruct Hch as [Hx Hch].
      trans (mc_CallerCandidates x); [exact Hx|]. rewrite last_cons_default. by apply IH. }
    destruct Hpre as [r ->]. rewrite drop_app_length. by rewrite drop_app_le.
Qed.

(** ** The subscriptions of an operator *)

(** What the goroutines of an operator do to its state: subscribe, receive
    from their channels, unsubscribe; the manager of the change streams and
    the one of the subscriptions. *)
Inductive mongo_step : csManager * mongoQueue -> csManager * mongoQueue -> Prop :=
  | MSubscribeToCall host callID side m q : mongo_step (m, q) (m, fst (subscribeToCall host callID side q))
  | MUnsubscribe callID x m q : mongo_step (m, q) (m, unsubscribe callID x q)
  | MSubscribeForNewCall hosts m q : mongo_step (m, q) (m, fst (fst (subscribeForNewCallOnHosts hosts q)))
  | MUnsub hosts h m q : mongo_step (m, q) (m, unsub hosts h q)
  | MReceiveNewCall h m q :
      mongo_step (m, q) (m, mq_set_handlers (alter (fun nc => mkHandler [] (nh_received nc)) h (mq_handlers q))
                              (mq_waitingForNewCallSubs q) q)
  | MReceiveCall x m q :
      mongo_step (m, q) (m, mq_set_exchanges (alter (fun e => mkCallExchange (cx_Host e) (tail (cx_Chan e)) (cx_Side e))
                                                x (mq_exchanges q)) (mq_callExchangeSubs q) q)
  | MTick m q : cs_pending m = None -> mongo_step (m, q) (csManager_tick m q)
  | MWatch ok m q : mongo_step (m, q) (csManager_watch ok m q)
  | MEvent next m q : mongo_step (m, q) (m, fst (processNextSubscriptionEvent next q)).

Definition mongo_init (operatorID : string) (st : csManager * mongoQueue) : Prop :=
  st = (new_csManager, new_mongoQueue operatorID).

Definition handler_ok (nc : newCallHandler) : Prop :=
  (length (nh_eventChan nc) <= 1)%nat /\ (nh_received nc = false -> nh_eventChan nc = []).

(** Channels never exceed their room, and subscriptions name what exists. *)
Record mq_inv (q : mongoQueue) : Prop := {
  mi_handlers : Forall handler_ok (mq_handlers q);
  mi_exchanges : Forall (fun e => (length (cx_Chan e) <= exchangeChan_cap)%nat) (mq_exchanges q);
  mi_waiting : forall host hs h, mq_waitingForNewCallSubs q !! host = Some hs -> h ∈ hs ->
    (h < length (mq_handlers q))%nat;
  mi_subs : forall id xs x, mq_callExchangeSubs q !! id = Some xs -> x ∈ xs -> (x < length (mq_exchanges q))%nat;
}.

(** The handlers that the answerers of a host wait on. *)
Definition waiting_for (host : string) (q : mongoQueue) : gset nat := default ∅ (mq_waitingForNewCallSubs q !! host).

Lemma send_to_first_spec ev hs heap :
  Forall handler_ok heap ->
  (exists h, h ∈ hs /\ heap !! h = Some (mkHandler [] false) /\
     send_to_first ev hs heap = <[h := mkHandler [ev] true]> heap) \/
  ((forall h nc, h ∈ hs -> heap !! h = Some nc -> nh_received nc = true) /\ send_to_first ev hs heap = heap).
Proof.
  intros Hok. induction hs as [|h hs IH]; simpl.
  { right. split; [|done]. intros h nc Hin. by apply elem_of_nil in Hin. }
  assert (Hskip : forall heap', heap' = heap ->
    (forall nc, heap !! h = Some nc -> nh_received nc = true) ->
    (exists h', h' ∈ h :: hs /\ heap !! h' = Some (mkHandler [] false) /\
       send_to_first ev hs heap' = <[h' := mkHandler [ev] true]> heap) \/
    ((forall h' nc, h' ∈ h :: hs -> heap !! h' = Some nc -> nh_received nc = true) /\
     send_to_first ev hs heap' = heap)).
  { intros heap' -> Hr. destruct IH as [(h' & Hin & ?)|[Hall Heq]].
    - left. exists h'. split; [by right|done].
    - right. split; [|done]. intros h' nc [->|Hin]%elem_of_cons; [apply Hr|by apply Hall]. }
  destruct (heap !! h) as [nc|] eqn:Hh; [|by apply Hskip].
  rewrite Forall_lookup in Hok. destruct (Hok h nc Hh) as [_ Hempty].
  unfold Send. destruct (nh_received nc) eqn:Hr.
  - rewrite list_insert_id by done. apply Hskip; [done|]. by intros nc' [= <-].
  - rewrite Hempty by done. left. exists h. split; [left|]. split; [|done].
    rewrite <- (Hempty eq_refl), <- Hr. by destruct nc.
Qed.

Lemma send_to_all_length ev xs heap : length (send_to_all ev xs heap) = length heap.
Proof.
  unfold send_to_all. revert heap. induction xs as [|x xs IH]; intros heap; [done|]. simpl. by rewrite IH, length_alter.
Qed.

Lemma send_exchange_cap ev e :
  (length (cx_Chan e) <= exchangeChan_cap)%nat -> (length (cx_Chan (send_exchange ev e)) <= exchangeChan_cap)%nat.
Proof.
  unfold send_exchange. intros He. destruct (_ <? _)%nat eqn:E; [|done]. apply Nat.ltb_lt in E. simpl.
  rewrite length_app. simpl. lia.
Qed.

Lemma Forall_alter_one {A} (P : A -> Prop) f (i : nat) (l : list A) :
  Forall P l -> (forall x, P x -> P (f x)) -> Forall P (alter f i l).
Proof.
  rewrite !Forall_lookup. intros Hl Hf j x. rewrite list_lookup_alter. case_decide; [subst|by apply Hl].
  destruct (l !! j) eqn:E; simpl; [|done]. intros [= <-]. eauto.
Qed.

Lemma send_to_all_cap ev xs heap :
  Forall (fun e => (length (cx_Chan e) <= exchangeChan_cap)%nat) heap ->
  Forall (fun e => (length (cx_Chan e) <= exchangeChan_cap)%nat) (send_to_all ev xs heap).
Proof.
  unfold send_to_all. revert heap. induction xs as [|x xs IH]; intros heap Hh; [done|]. simpl. apply IH.
  apply Forall_alter_one; [done|]. intros e. apply send_exchange_cap.
Qed.

Lemma add_handler_in h hosts subs host hs h' :
  foldl (add_handler h) subs hosts !! host = Some hs -> h' ∈ hs ->
  h' = h \/ exists hs0, subs !! host = Some hs0 /\ h' ∈ hs0.
Proof.
  revert subs. induction hosts as [|x hosts IH]; intros subs Hl Hin; [right; by exists hs|].
  destruct (IH _ Hl Hin) as [->|(hs0 & Hs & Hin0)]; [by left|]. unfold add_handler in Hs.
  apply lookup_insert_Some in Hs as [[<- <-]|[_ Hs]]; [|right; by eexists].
  apply elem_of_union in Hin0 as [->%elem_of_singleton|Hin0]; [by left|]. right.
  destruct (subs !! x) as [hs1|]; [by eexists|by apply elem_of_empty in Hin0].
Qed.

Lemma remove_handler_in h hosts subs host hs h' :
  foldl (remove_handler h) subs hosts !! host = Some hs -> h' ∈ hs -> exists hs0, subs !! host = Some hs0 /\ h' ∈ hs0.
Proof.
  revert subs. induction hosts as [|x hosts IH]; intros subs Hl Hin; [by exists hs|].
  destruct (IH _ Hl Hin) as (hs0 & Hs & Hin0). unfold remove_handler in Hs. case_bool_decide.
  - apply lookup_delete_Some in Hs as [_ Hs]. by eexists.
  - apply lookup_insert_Some in Hs as [[<- <-]|[_ Hs]]; [|by eexists].
    destruct (subs !! x) as [hs1|]; [exists hs1; set_solver|set_solver].
Qed.

(** Taking events from the change stream and the manager leave the
    subscriptions alone. *)
Lemma position_inv token time q q' b :
  processClusterEventState token time q = (q', b) -> mq_inv q -> mq_inv q'.
Proof.
  unfold processClusterEventState. intros Hp [H1 H2 H3 H4].
  repeat case_match; simplify_eq; by split.
Qed.

Lemma next_event_inv next q : mq_inv q -> mq_inv (fst (processNextSubscriptionEvent next q)).
Proof.
  intros Hi. destruct next as [[err token|event token]|]; simpl.
  + destruct (errors_Is err _).
    * destruct (processClusterEventState token (0, 0) q) as [q1 b] eqn:E.
      destruct (position_inv _ _ _ _ _ E Hi) as [H1 H2 H3 H4]. by split.
    * destruct Hi as [H1 H2 H3 H4]. by split.
  + destruct (processClusterEventState token (ce_ClusterTime event) q) as [q1 b] eqn:E.
    pose proof (position_inv _ _ _ _ _ E Hi) as Hi1. destruct Hi1 as [H1 H2 H3 H4] eqn:Hq1.
    destruct b; simpl; [|done]. destruct (ce_FullDocument event) as [c|]; [|done].
    case_bool_decide; [done|]. destruct (ce_OperationType event).
    * case_bool_decide; [|done].
      destruct (send_to_first_spec (call_event c) (elements (default ∅ (mq_waitingForNewCallSubs q1 !! mc_Host c)))
                  (mq_handlers q1) H1) as [(h & _ & Hh & ->)|[_ ->]]; [|by split].
      split; cbn; [|done| |done].
      -- apply Forall_insert; [done|]. split; simpl; [lia|done].
      -- intros host hs h'. rewrite length_insert. eauto.
    * split; cbn; [done|by apply send_to_all_cap|done|]. intros id xs y. rewrite send_to_all_length. eauto.
    * split; cbn; [done|by apply send_to_all_cap|done|]. intros id xs y. rewrite send_to_all_length. eauto.
  + destruct Hi as [H1 H2 H3 H4]. by split.
Qed.

Lemma mongo_step_inv st st' : mq_inv st.2 -> mongo_step st st' -> mq_inv st'.2.
Proof.
  intros Hi Hs. destruct Hs as [host callID side m q|callID x m q|hosts m q|hosts h m q|h m q|x m q|m q Hp|ok m q|next m q];
    cbn [fst snd] in *.
  - destruct Hi as [H1 H2 H3 H4]. split; cbn; [done| |done|].
    + apply Forall_app. split; [done|]. constructor; [simpl; unfold exchangeChan_cap; lia|done].
    + intros id xs x Hl Hin. rewrite length_app. simpl.
      apply lookup_insert_Some in Hl as [[<- <-]|[_ Hl]]; [|apply (H4 _ _ _ Hl) in Hin; lia].
      apply elem_of_union in Hin as [->%elem_of_singleton|Hin]; [lia|].
      destruct (mq_callExchangeSubs q !! callID) as [xs0|] eqn:E; [|by apply elem_of_empty in Hin].
      apply (H4 _ _ _ E) in Hin. lia.
  - destruct Hi as [H1 H2 H3 H4]. split; cbn; [done..|]. intros id xs y Hl Hin. case_bool_decide.
    + apply lookup_delete_Some in Hl as [_ Hl]. eauto.
    + apply lookup_insert_Some in Hl as [[<- <-]|[_ Hl]]; [|eauto].
      destruct (mq_callExchangeSubs q !! callID) as [xs0|] eqn:E; [|set_solver]. apply (H4 _ _ _ E). set_solver.
  - destruct Hi as [H1 H2 H3 H4]. unfold subscribeForNewCallOnHosts.
    assert (mq_inv (mq_set_handlers (mq_handlers q ++ [mkHandler [] false])
              (foldl (add_handler (length (mq_handlers q))) (mq_waitingForNewCallSubs q) hosts) q)) as [H5 H6 H7 H8].
    { split; cbn; [|done| |done].
      - apply Forall_app. split; [done|]. constructor; [split; simpl; [lia|done]|done].
      - intros host hs h Hl Hin. rewrite length_app. simpl.
        destruct (add_handler_in _ _ _ _ _ _ Hl Hin) as [->|(hs0 & Hs & Hin0)]; [lia|]. apply (H3 _ _ _ Hs) in Hin0. lia. }
    case_bool_decide; by split.
  - destruct Hi as [H1 H2 H3 H4]. split; cbn; [done|done| |done]. intros host hs h' Hl Hin.
    destruct (remove_handler_in _ _ _ _ _ _ Hl Hin) as (hs0 & Hs & Hin0). eauto.
  - destruct Hi as [H1 H2 H3 H4]. split; cbn; [|done| |done].
    + apply Forall_alter_one; [done|]. intros nc _. split; simpl; [lia|done].
    + intros host hs h'. rewrite length_alter. eauto.
  - destruct Hi as [H1 H2 H3 H4]. split; cbn; [done| |done|].
    + apply Forall_alter_one; [done|]. intros e He. simpl. destruct (cx_Chan e); simpl in *; lia.
    + intros id xs y. rewrite length_alter. eauto.
  - destruct Hi as [H1 H2 H3 H4]. unfold csManager_tick. destruct (_ && _); by split.
  - destruct Hi as [H1 H2 H3 H4]. unfold csManager_watch.
    destruct (cs_pending m) as [[[[hs rs] sa] st]|]; [destruct ok|]; by split.
  - by apply next_event_inv.
Qed.

Lemma mongo_init_inv operatorID st : mongo_init operatorID st -> mq_inv st.2.
Proof. intros ->. split; cbn; [done|done| |]; intros ? ? ? Hl; by rewrite lookup_empty in Hl. Qed.

(** ** Waiting for the next change stream *)

(** Nobody will close the handler's channel [ready]. *)
Definition abandoned (h : nat) (st : csManager * mongoQueue) : Prop :=
  (h < length (mq_handlers st.2))%nat /\ (h ∉ mq_csAnswerersWaitingForNextCS st.2) /\ (h ∉ mq_csReady st.2) /\
  match cs_pending st.1 with Some (_, readyFuncs, _, _) => h ∉ readyFuncs | None => True end.

Lemma send_to_first_length ev hs heap : length (send_to_first ev hs heap) = length heap.
Proof.
  revert heap. induction hs as [|h hs IH]; intros heap; simpl; [done|]. destruct (heap !! h) as [nc|]; [|done].
  destruct (Send ev nc) as [nc' [|]]; [by rewrite length_insert | by rewrite IH, length_insert].
Qed.

(** What handling an event leaves alone. *)
Lemma next_event_waiting next q :
  let q' := fst (processNextSubscriptionEvent next q) in
  length (mq_handlers q') = length (mq_handlers q) /\
  mq_csAnswerersWaitingForNextCS q' = mq_csAnswerersWaitingForNextCS q /\ mq_csReady q' = mq_csReady q.
Proof.
  assert (Hpos : forall token time q1 b, processClusterEventState token time q = (q1, b) ->
    mq_handlers q1 = mq_handlers q /\ mq_csAnswerersWaitingForNextCS q1 = mq_csAnswerersWaitingForNextCS q /\
    mq_csReady q1 = mq_csReady q).
  { unfold processClusterEventState. intros token time q1 b Hp. repeat case_match; simplify_eq; done. }
  destruct next as [[err token|event token]|]; simpl; [| |done].
  - destruct (errors_Is err _); [|done]. destruct (processClusterEventState token (0, 0) q) as [q1 b] eqn:E.
    destruct (Hpos _ _ _ _ E) as (H1 & H2 & H3). simpl. by rewrite H1.
  - destruct (processClusterEventState token (ce_ClusterTime event) q) as [q1 b] eqn:E.
    destruct (Hpos _ _ _ _ E) as (H1 & H2 & H3). rewrite <- H1, <- H2, <- H3. destruct b; [|done].
    cbn [negb]. destruct (ce_FullDocument event) as [c|]; [|done]. case_bool_decide; [done|].
    destruct (ce_OperationType event); [|done|done]. case_bool_decide; [|done]. cbn. by rewrite send_to_first_length.
Qed.

Lemma abandoned_step h st st' : abandoned h st -> mongo_step st st' -> abandoned h st'.
Proof.
  intros (Hlt & Hw & Hr & Hp) Hs.
  destruct Hs as [host callID side m q|callID x m q|hosts m q|hosts h' m q|h' m q|x m q|m q Hn|ok m q|next m q];
    unfold abandoned in *; cbn [fst snd] in *; try done.
  - unfold subscribeForNewCallOnHosts. case_bool_decide; cbn; rewrite length_app; simpl;
      split_and!; try done; try lia. rewrite elem_of_app, list_elem_of_singleton. intros [?|?]; [done|lia].
  - cbn. by rewrite length_alter.
  - unfold csManager_tick. destruct (_ && _); [done|]. cbn. split_and!; try done. apply not_elem_of_nil.
  - unfold csManager_watch. destruct (cs_pending m) as [[[[hs rs] sa] sta]|] eqn:E; [|cbn [fst snd]; by rewrite E].
    destruct ok; cbn; [|done]. split_and!; try done. set_solver.
  - destruct (next_event_waiting next q) as (-> & -> & ->). done.
Qed.

(** The functions that the manager holds while Watch runs. *)
Definition pending_funcs (m : csManager) : list nat :=
  match cs_pending m with Some (_, readyFuncs, _, _) => readyFuncs | None => [] end.

(** A handler that waits was not made ready, and is either in the queue or with
    the manager. *)
Record waiting_inv (st : csManager * mongoQueue) : Prop := {
  wa_waiting : forall h, h ∈ mq_csAnswerersWaitingForNextCS st.2 \/ h ∈ pending_funcs st.1 ->
    (h < length (mq_handlers st.2))%nat /\ (h ∉ mq_csReady st.2);
  wa_once : forall h, h ∈ mq_csAnswerersWaitingForNextCS st.2 -> h ∉ pending_funcs st.1;
  wa_ready : forall h, h ∈ mq_csReady st.2 -> (h < length (mq_handlers st.2))%nat;
}.

Lemma waiting_step st st' : waiting_inv st -> mongo_step st st' -> waiting_inv st'.
Proof.
  intros [H1 H2 H3] Hs.
  destruct Hs as [host callID side m q|callID x m q|hosts m q|hosts h' m q|h' m q|x m q|m q Hn|ok m q|next m q];
    cbn [fst snd] in *; try by split.
  - unfold subscribeForNewCallOnHosts. set (h := length (mq_handlers q)).
    assert (Hh : (h ∉ mq_csReady q) /\ (h ∉ pending_funcs m)).
    { split; [intros Hin%H3; lia|]. intros Hin. destruct (H1 h (or_intror Hin)). lia. }
    case_bool_decide; split; cbn; rewrite ?length_app; simpl.
    + intros h' Hin. destruct (H1 h' Hin). split; [lia|done].
    + done.
    + intros h' Hin%H3. lia.
    + intros h'. rewrite elem_of_app, list_elem_of_singleton. intros [[Hin| ->]|Hin]; [..|].
      * destruct (H1 h' (or_introl Hin)). split; [lia|done].
      * split; [lia|by apply Hh].
      * destruct (H1 h' (or_intror Hin)). split; [lia|done].
    + intros h'. rewrite elem_of_app, list_elem_of_singleton. intros [Hin| ->]; [by apply H2|by apply Hh].
    + intros h' Hin%H3. lia.
  - split; cbn; rewrite ?length_alter; done.
  - unfold csManager_tick. destruct (_ && _); [by split|]. split; cbn; [|by intros ? ?%elem_of_nil|done].
    unfold pending_funcs in *. rewrite Hn in *. cbn. intros h [Hin%elem_of_nil|Hin]; [done|]. apply H1. by left.
  - unfold csManager_watch, pending_funcs in *.
    destruct (cs_pending m) as [[[[hs rs] sa] sta]|] eqn:E; [|split; cbn; unfold pending_funcs; rewrite ?E; done].
    destruct ok; split; cbn; try done.
    + intros h [Hin|Hin%elem_of_nil]; [|done]. destruct (H1 h (or_introl Hin)) as [? Hnr]. split; [done|].
      pose proof (H2 h Hin). set_solver.
    + intros h _. apply not_elem_of_nil.
    + intros h. rewrite elem_of_union, elem_of_list_to_set. intros [Hin|Hin]; [|by apply H3].
      by destruct (H1 h (or_intror Hin)).
    + intros h [Hin|Hin%elem_of_nil]; [|done]. apply H1. by left.
    + intros h _. apply not_elem_of_nil.
  - destruct (next_event_waiting next q) as (E1 & E2 & E3). split; cbn; rewrite ?E1, ?E2, ?E3; done.
Qed.

Lemma waiting_init operatorID st : mongo_init operatorID st -> waiting_inv st.
Proof. intros ->. split; cbn; [intros h [Hh|Hh]; by apply elem_of_nil in Hh|intros h Hh; by apply elem_of_nil in Hh|set_solver]. Qed.

(** ** Properties *)

Section Offering.
Context {Coll : Type} `{CallsCollLaws Coll} (quote : string -> string) (errText : goerror -> string).

(** C10: However the atomic operations of any number of operators interleave, and
    whatever fails on the way, no offer is handed to two answerers. *)
Theorem offer_taken_once (s0 : Coll) (o : offers) :
  cl_docs s0 = ∅ -> rtc (offer_step quote errText) (mkOffers s0 ∅ []) o -> NoDup (of_taken o).*2.
Proof using All.
  intros Hempty Hr. apply oi_once. refine (rtc_invariant _ offers_inv _ _ _ Hr _).
  - intros. by eapply offer_step_inv.
  - split; cbn [of_coll of_used of_taken]; rewrite ?Hempty; [done|by intros ? ? ?|set_solver|constructor].
Qed.
End Offering.

(** A caller whose events are snapshots of a growing document, some of them
    skipped, gets the answerer's SDP and then every candidate, in order and
    each once; its goroutine ends when a snapshot says that the answerer is
    done. *)
Theorem caller_hears_answerer (d : mongodbWebRTCCall) (ds : list mongodbWebRTCCall) :
  mc_AnswererSDP d = EmptyString -> mc_AnswererCandidates d = [] -> mc_AnswererError d = EmptyString ->
  Forall answer_ok ds -> chain answer_grows d ds ->
  Forall (fun d' => mc_AnswererDone d' = false) (removelast ds) ->
  caller_loop false 0 (call_event <$> ds) =
    (answers_of (List.last ds d), match last ds with Some l => mc_AnswererDone l | None => false end).
Proof.
  intros Hs Hc He Hok Hch Hdone.
  destruct (caller_loop_chain d ds) as (out & Hout & Hloop); [by split; [|rewrite Hc]|done..|].
  rewrite Hs, Hc in Hloop. rewrite bool_decide_eq_true_2 in Hloop by done. cbn [negb length] in Hloop.
  rewrite Hloop, Hout. unfold answers_of. by rewrite Hs, Hc.
Qed.

(** The answerer's side loses what came first: its goroutine starts at the
    number of candidates in the document that it took, so the answerer never
    receives those, and receives exactly the ones that came after. *)
Theorem answerer_misses_early_candidates (callReq : mongodbWebRTCCall) (ds : list mongodbWebRTCCall) :
  chain request_grows callReq ds ->
  Forall (fun d => CallerError d = EmptyString) (callReq :: ds) ->
  Forall (fun d => mc_CallerDone d = false) (removelast (callReq :: ds)) ->
  answerer_goroutine callReq (call_event <$> ds) =
    (iceCandidateFromMongo <$> drop (length (mc_CallerCandidates callReq)) (mc_CallerCandidates (List.last ds callReq)),
     if mc_CallerDone (List.last ds callReq) then Some (CallerEnded None) else None).
Proof. intros. by apply answerer_loop_chain. Qed.

(** A new call reaches one answerer. When the change stream reports an offer
    for a host that is tracked, exactly one handler of that host which had no
    event yet receives it, or none has a free handler and nothing changes; the
    same report again changes nothing at all. *)
Theorem new_call_reaches_one_answerer (operatorID : string) (m : csManager) (q : mongoQueue)
    (c : mongodbWebRTCCall) (token : string) (time : Timestamp) :
  reachable (mongo_init operatorID) mongo_step (m, q) ->
  IsZero time = false -> snd (processClusterEventState token time q) = true ->
  mc_Host c <> EmptyString -> mc_Host c ∈ mq_csTrackingHosts q ->
  let next := Some (ChangeOk (mkChangeEvent OpInsert (Some c) time) token) in
  let q' := fst (processNextSubscriptionEvent next q) in
  fst (processNextSubscriptionEvent next q') = q' /\
  ((exists h, h ∈ waiting_for (mc_Host c) q /\ mq_handlers q !! h = Some (mkHandler [] false) /\
      mq_handlers q' = <[h := mkHandler [call_event c] true]> (mq_handlers q)) \/
   ((forall h nc, h ∈ waiting_for (mc_Host c) q -> mq_handlers q !! h = Some nc -> nh_received nc = true) /\
    mq_handlers q' = mq_handlers q)).
Proof.
  intros Hr Hz Hfresh Hh Ht next q'.
  assert (Hi : mq_inv q).
  { refine (invariant_reachable _ _ (fun st => mq_inv st.2) _ _ (m, q) Hr).
    - apply mongo_init_inv.
    - apply mongo_step_inv. }
  assert (Hq : processClusterEventState token time q = (mq_set_position time EmptyString q, true)).
  { unfold processClusterEventState in *. rewrite Hz in *. cbn [negb] in *. by destruct (_ || _). }
  assert (Hq' : q' = mq_set_handlers (send_to_first (call_event c) (elements (waiting_for (mc_Host c) q)) (mq_handlers q))
                  (mq_waitingForNewCallSubs q) (mq_set_position time EmptyString q)).
  { unfold q', next. cbn [processNextSubscriptionEvent ce_ClusterTime ce_FullDocument ce_OperationType].
    rewrite Hq. cbn [negb]. rewrite bool_decide_eq_false_2 by done. by rewrite bool_decide_eq_true_2. }
  split.
  - unfold next. cbn [processNextSubscriptionEvent ce_ClusterTime]. rewrite Hq'.
    unfold processClusterEventState. rewrite Hz.
    cbn [negb mq_csLastEventClusterTime mq_set_handlers mq_set_position fst snd].
    rewrite Z.eqb_refl, Z.geb_leb, Z.leb_refl. simpl. by rewrite orb_true_r.
  - rewrite Hq'. cbn [mq_handlers mq_set_handlers].
    destruct (send_to_first_spec (call_event c) (elements (waiting_for (mc_Host c) q)) (mq_handlers q) (mi_handlers _ Hi))
      as [(h & Hin & Hh' & ->)|[Hall ->]].
    + left. exists h. split; [by apply elem_of_elements|done].
    + right. split; [|done]. intros h nc Hin. apply Hall. by apply elem_of_elements.
Qed.

(** Answerers that wait for the next change stream depend on the first attempt
    to open it. When it is opened they all become ready and their hosts are
    tracked; when Watch fails, the manager has dropped their functions and no
    later step ever makes them ready, although it tries again. *)
Theorem failed_watch_abandons_answerers (operatorID : string) (m : csManager) (q : mongoQueue) :
  reachable (mongo_init operatorID) mongo_step (m, q) ->
  cs_pending m = None -> cs_lastSeq m <> mq_csManagerSeq q ->
  let started := csManager_tick m q in
  let '(m1, opened) := csManager_watch true started.1 started.2 in
  (forall h, h ∈ mq_csAnswerersWaitingForNextCS q -> h ∈ mq_csReady opened) /\
  (forall host, is_Some (mq_waitingForNewCallSubs q !! host) -> host ∈ mq_csTrackingHosts opened) /\
  forall h st, h ∈ mq_csAnswerersWaitingForNextCS q ->
    rtc mongo_step (csManager_watch false started.1 started.2) st -> h ∉ mq_csReady st.2.
Proof.
  intros Hreach Hp Hseq started.
  pose proof (invariant_reachable _ _ waiting_inv (waiting_init operatorID) waiting_step (m, q) Hreach) as [Hw _ _].
  assert (Hs : started = (mkCsManager (mq_csManagerSeq q) true (Some ((map_to_list (mq_waitingForNewCallSubs q)).*1,
     mq_csAnswerersWaitingForNextCS q,
     (if bool_decide (mq_csLastResumeToken q = EmptyString) then None else Some (mq_csLastResumeToken q)),
     (if IsZero (mq_csLastEventClusterTime q) then None else Some (mq_csLastEventClusterTime q)))), mq_set_waiting [] q)).
  { unfold started, csManager_tick. rewrite (proj2 (Z.eqb_neq _ _) Hseq). by rewrite andb_false_r. }
  rewrite Hs. cbn [csManager_watch cs_pending fst snd]. split_and!.
  - intros h Hh. cbn. set_solver.
  - intros host [hs Hhs]. cbn. apply elem_of_list_to_set, list_elem_of_fmap. exists (host, hs).
    by rewrite elem_of_map_to_list.
  - intros h st Hh Hr. enough (abandoned h st) as (_ & _ & ? & _) by done.
    refine (rtc_invariant _ (abandoned h) _ _ _ Hr _); [intros; by eapply abandoned_step|].
    destruct (Hw h (or_introl Hh)) as [Hlt Hnr]. split_and!; cbn; [done|apply not_elem_of_nil|done|done].
Qed.

Section Receiving.
Context {Coll : Type} {CC : CallsColl Coll} {CL : CallsCollLaws Coll} {Ops : Type} {OC : OperatorsColl Ops}.
Context (maxHostCallers offerDeadline offerCloseToDeadline : Z).

Lemma unsub_operatorID hosts h q : mq_operatorID (unsub hosts h q) = mq_operatorID q.
Proof using. done. Qed.

Lemma subscribe_operatorID hosts q : mq_operatorID (subscribeForNewCallOnHosts hosts q).1.1 = mq_operatorID q.
Proof using. unfold subscribeForNewCallOnHosts. by case_bool_decide. Qed.

(** An attempt that took an offer, or asks for another attempt. *)
Lemma waitForNewCall_result recvOfferCtx hosts i s q s' q' ctx' callReq retry :
  docs_ok (cl_docs s) ->
  waitForNewCall offerDeadline offerCloseToDeadline recvOfferCtx hosts i s q = (s', q', ctx', inl (callReq, retry)) ->
  recvOfferCtx = None /\ is_Some ctx' /\ mq_operatorID q' = mq_operatorID q /\
  if retry then True
  else exists d, cl_docs s !! mc_ID callReq = Some d /\ mc_Answered d = false /\
    cl_docs s' = <[mc_ID callReq := mc_take (mq_operatorID q) d]> (cl_docs s) /\
    ((callReq = d /\ take_filter hosts (wi_now i - offerDeadline + offerCloseToDeadline) d = true) \/
     exists next, wi_event i = Some next /\ callReq = ev_Call next).
Proof using CL.
  intros Hok. unfold waitForNewCall. pose proof (subscribe_operatorID hosts q) as Hop.
  destruct (subscribeForNewCallOnHosts hosts q) as [[q1 h] tracked]. simpl in Hop.
  destruct (if tracked then None else _) as [err|]; [done|].
  destruct (take_first recvOfferCtx (mq_operatorID q1) hosts _ s) as [s1 r] eqn:Ht. unfold take_first in Ht.
  destruct recvOfferCtx as [e|].
  { destruct (find_done e (take_filter hosts (wi_now i - offerDeadline + offerCloseToDeadline))
                (mc_take (mq_operatorID q1)) s) as [err E]. rewrite E in Ht. simplify_eq. by intros [=]. }
  destruct r as [[d|]|err]; [| |by intros [=]].
  - intros [= <- <- <- <- <-]. split_and!; [done|by eexists|done|].
    apply find_ok in Ht as (id & Hd & Hf & Heq). pose proof (Hok id d Hd) as Hid. simpl in Hid. subst id.
    exists d. rewrite Hop in Heq. split_and!; [done| |done|by left]. unfold take_filter in Hf. by breflect.
  - unfold getFirstResult. destruct (wi_event i) as [next|]; [|by intros [=]].
    destruct (ev_Error next); [by intros [=]|]. unfold take_event.
    apply find_ok in Ht as [_ Heq].
    destruct (cl_UpdateOne _ _ _ s1) as [s2 [r2|err]] eqn:Hu; [|by intros [=]].
    destruct ((MatchedCount r2 =? 1) && (ModifiedCount r2 =? 1)) eqn:Hc; intros [= <- <- <- <- <-].
    + split_and!; [done|by eexists|done|].
      apply update_ok in Hu as [(Hm & _)|(d & (id & Hd & Hf & Heq2) & _)]; [by rewrite Hm in Hc|].
      rewrite Heq in Hd, Heq2. pose proof (Hok id d Hd) as Hid. simpl in Hid. breflect.
      exists d. replace (mc_ID (ev_Call next)) with id by congruence. rewrite <- Hop.
      split_and!; [done|done|done|]. right. by exists next.
    + split_and!; [done|by eexists|done|done].
Qed.

(** After an attempt that asks for another one, the next attempt fails. *)
Lemma waitForNewCall_cancelled e hosts i s q :
  exists q' ctx' err, waitForNewCall offerDeadline offerCloseToDeadline (Some e) hosts i s q = (s, q', ctx', inr err).
Proof using CL.
  unfold waitForNewCall. destruct (subscribeForNewCallOnHosts hosts q) as [[q1 h] tracked].
  destruct (if tracked then None else _) as [err|]; [by do 3 eexists|]. unfold take_first.
  destruct (find_done e (take_filter hosts (wi_now i - offerDeadline + offerCloseToDeadline))
              (mc_take (mq_operatorID q1)) s) as [err ->]. by do 3 eexists.
Qed.

(** An answerer that receives an offer has taken it: the offer's document was
    not answered and now names the answerer's operator, no other document
    changed, the deadline is the one of the offer, and the answerer is
    subscribed to its events. An offer that was found in the collection is for
    one of the hosts, without an error of the caller and young enough. *)
Theorem received_offer_is_taken (ctxErr cancelErr : option goerror) (hosts : list string)
    (inputs : list waitInputs) (ops : Ops) (s s' : Coll) (q q' : mongoQueue) (x : offerExchange) (sub : nat) :
  docs_ok (cl_docs s) ->
  mq_RecvOffer maxHostCallers offerDeadline offerCloseToDeadline ctxErr cancelErr hosts inputs ops s q
    = Returns (s', q', inl (x, sub)) ->
  exists d i, head inputs = Some i /\
    cl_docs s !! oe_UUID x = Some d /\ mc_Answered d = false /\
    cl_docs s' = <[oe_UUID x := mc_take (mq_operatorID q) d]> (cl_docs s) /\
    oe_deadline x = mc_StartedAt (oe_call x) + offerDeadline /\
    (exists xs, mq_callExchangeSubs q' !! oe_UUID x = Some xs /\ sub ∈ xs) /\
    ((oe_call x = d /\ mc_Host d ∈ hosts /\ mc_CallerError d = None /\
        wi_now i - offerDeadline + offerCloseToDeadline < mc_StartedAt d) \/
     exists next, wi_event i = Some next /\ oe_call x = ev_Call next).
Proof using CL.
  intros Hok. unfold mq_RecvOffer. destruct (checkHostQueueSize _ _ _ _ _); [done|].
  destruct inputs as [|i inputs]; [done|]. cbn [recv_loop].
  destruct (waitForNewCall _ _ (MergeContext ctxErr cancelErr) hosts i s q) as [[[s1 q1] ctx1] [[callReq retry]|err]]
    eqn:Hw; [|done].
  destruct (waitForNewCall_result _ _ _ _ _ _ _ _ _ _ Hok Hw) as (_ & [e He] & _ & Hres). destruct retry.
  - subst ctx1. destruct inputs as [|i2 inputs]; [done|]. cbn [recv_loop].
    destruct (waitForNewCall_cancelled e hosts i2 s1 q1) as (q2 & ctx2 & err & ->). done.
  - intros [= <- <- <- <-]. destruct Hres as (d & Hd & Hans & Heq & Hsrc). exists d, i. cbn [oe_UUID oe_call oe_deadline].
    unfold oe_UUID. cbn [oe_call]. split_and!; try done.
    + eexists. cbn. rewrite lookup_insert_eq. split; [done|]. set_solver.
    + destruct Hsrc as [[-> Hf]|?]; [left|by right]. unfold take_filter in Hf. breflect. done.
Qed.

(** When somebody else took the offer of the event that an answerer woke up
    for, the answerer does not get another one: the code asks for a retry, but
    the attempt has cancelled its own context, so the call fails and takes
    nothing, whatever waits in the collection. *)
Theorem lost_race_fails_answerer (ctxErr : option goerror) (hosts : list string) (i1 i2 : waitInputs)
    (inputs : list waitInputs) (s s1 : Coll) (q q1 : mongoQueue) (ctx1 : option goerror) (callReq : mongodbWebRTCCall) :
  docs_ok (cl_docs s) ->
  waitForNewCall offerDeadline offerCloseToDeadline ctxErr hosts i1 s q = (s1, q1, ctx1, inl (callReq, true)) ->
  exists q2 err,
    recv_loop offerDeadline offerCloseToDeadline ctxErr hosts (i1 :: i2 :: inputs) s q = Returns (s1, q2, inr err).
Proof using CL.
  intros Hok Hw. destruct (waitForNewCall_result _ _ _ _ _ _ _ _ _ _ Hok Hw) as (_ & [e ->] & _ & _).
  cbn [recv_loop]. rewrite Hw. cbn [recv_loop].
  destruct (waitForNewCall_cancelled e hosts i2 s1 q1) as (q2 & ctx2 & err & ->). by do 2 eexists.
Qed.

End Receiving.

Section QueueSizes.
Context {Ops : Type} `{OperatorsCollLaws Ops} (maxHostCallers : Z).

(** The size of a host is the sum over the operators. *)
Lemma host_sizes_lookup forCaller hosts docs host :
  host_sizes forCaller hosts docs !! host =
  let entries := filter (fun e => e.1 = host) (concat docs) in
  if decide (host ∈ hosts /\ entries <> [])
  then Some (foldr Z.add 0 ((fun e : string * (Z * Z) => if forCaller then fst (snd e) else snd (snd e)) <$> entries))
  else None.
Proof using.
  unfold host_sizes. cbv zeta.
  set (sz := fun e : string * (Z * Z) => if forCaller then fst (snd e) else snd (snd e)).
  assert (Hgen : forall (l : operatorHosts) (m : gmap string Z),
    foldl (fun m entry => <[fst entry := default 0 (m !! fst entry)
                              + (if forCaller then fst (snd entry) else snd (snd entry))]> m) m
      (filter (fun entry => fst entry ∈ hosts) l) !! host =
    if decide (host ∈ hosts /\ filter (fun e => e.1 = host) l <> [])
    then Some (default 0 (m !! host) + foldr Z.add 0 (sz <$> filter (fun e => e.1 = host) l)) else m !! host).
  { intros l. induction l as [|e l IH]; intros m.
    - rewrite !filter_nil. simpl. rewrite decide_False; [done|]. naive_solver.
    - rewrite !filter_cons. destruct (decide (e.1 ∈ hosts)) as [Hin|Hin]; destruct (decide (e.1 = host)) as [He|He].
      + cbn [foldl]. rewrite IH, He, lookup_insert_eq. rewrite (decide_True (P := host ∈ hosts /\ e :: _ <> [])).
        2: { split; [congruence|done]. }
        destruct (decide _) as [_|Hn]; cbn [fmap list_fmap foldr default].
        * f_equal. unfold id. change (sz e) with (if forCaller then fst (snd e) else snd (snd e)). lia.
        * destruct (filter (fun e => e.1 = host) l); [|destruct Hn; split; [congruence|done]].
          cbn. unfold sz, id. f_equal. lia.
      + cbn [foldl]. rewrite IH. by rewrite lookup_insert_ne.
      + rewrite IH. rewrite !decide_False; [done|..]; intros [? _]; congruence.
      + by rewrite IH. }
  rewrite Hgen, lookup_empty. simpl. done.
Qed.

(** C36: A caller or answerer is refused exactly when the operators together count
    at least the maximum of its kind for one of its hosts. *)
Theorem refused_iff_host_is_full (forCaller : bool) (hosts : list string) (ops : Ops) :
  let max := if forCaller then maxHostCallers else maxHostAnswerersSize * 2 in
  let count host := foldr Z.add 0 ((fun e : string * (Z * Z) => if forCaller then fst (snd e) else snd (snd e)) <$>
                      filter (fun e => e.1 = host) (concat (op_docs ops))) in
  match checkHostQueueSize maxHostCallers None forCaller hosts ops with
  | Some err => (err = errTooManyConns /\
                 exists host, host ∈ hosts /\ host ∈ (concat (op_docs ops)).*1 /\ max <= count host) \/
                op_Aggregate None forCaller max hosts ops = inr err
  | None => forall host, host ∈ hosts -> host ∈ (concat (op_docs ops)).*1 -> count host < max
  end.
Proof using All.
  cbv zeta. unfold checkHostQueueSize. set (max := if forCaller then maxHostCallers else maxHostAnswerersSize * 2).
  destruct (op_Aggregate None forCaller max hosts ops) as [ret|err] eqn:E; [|by right].
  apply aggregate_ok in E.
  assert (Hname : forall host, filter (fun e => e.1 = host) (concat (op_docs ops)) <> [] <-> host ∈ (concat (op_docs ops)).*1).
  { intros host. rewrite list_elem_of_fmap. split.
    - destruct (filter _ _) as [|e l] eqn:Hf; [done|]. intros _. exists e.
      assert (He : e ∈ filter (fun e => e.1 = host) (concat (op_docs ops))) by (rewrite Hf; left).
      apply list_elem_of_filter in He as [<- ?]. done.
    - intros (e & -> & He) Hf. assert (He' : e ∈ filter (fun e' => e'.1 = e.1) (concat (op_docs ops))).
      { by apply list_elem_of_filter. } rewrite Hf in He'. by apply elem_of_nil in He'. }
  case_bool_decide as Hret.
  - intros host Hin Hn. apply Z.nle_gt. intros Hmax.
    assert (Hl : ret !! host <> None); [|by rewrite Hret, lookup_empty in Hl].
    rewrite E. unfold size_pipeline. rewrite map_lookup_filter, host_sizes_lookup. cbv zeta.
    rewrite decide_True by (split; [done|by apply Hname]). simpl. by rewrite option_guard_True.
  - left. split; [done|]. apply map_choose in Hret as (host & z & Hz). rewrite E in Hz.
    apply map_lookup_filter_Some in Hz as [Hz Hmax]. simpl in Hmax. rewrite host_sizes_lookup in Hz.
    cbv zeta in Hz. destruct (decide _) as [[Hin Hne]|]; [|done]. simplify_eq. exists host.
    split_and!; [done|by apply Hname|done].
Qed.
End QueueSizes.

(** The exchanges that an operator is subscribed for. *)
Definition subscribed (q : mongoQueue) : list callExchange :=
  omap (fun x => mq_exchanges q !! x) (map_to_list (mq_callExchangeSubs q) ≫= fun kv => elements (snd kv)).

(** What an operator reports of a host: its callers in exchanges, and its
    answerers, those that wait and those in exchanges. *)
Theorem operator_counts_subscribers (q : mongoQueue) (host : string) :
  default (0, 0) (operator_sizes q !! host) =
  (Z.of_nat (length (filter (fun e => cx_Host e = host /\ cx_Side e = "caller"%string) (subscribed q))),
   Z.of_nat (size (waiting_for host q)) +
   Z.of_nat (length (filter (fun e => cx_Host e = host /\ cx_Side e <> "caller"%string) (subscribed q)))).
Proof.
  unfold operator_sizes, subscribed. set (xs := map_to_list _ ≫= _).
  assert (Hgen : forall (xs : list nat) (m : gmap string (Z * Z)),
    default (0, 0) (foldl (count_exchange (mq_exchanges q)) m xs !! host) =
    (fst (default (0, 0) (m !! host)) + Z.of_nat (length (filter (fun e => cx_Host e = host /\ cx_Side e = "caller"%string)
       (omap (fun x => mq_exchanges q !! x) xs))),
     snd (default (0, 0) (m !! host)) + Z.of_nat (length (filter (fun e => cx_Host e = host /\ cx_Side e <> "caller"%string)
       (omap (fun x => mq_exchanges q !! x) xs))))).
  { clear xs. intros xs. induction xs as [|x xs IH]; intros m.
    - simpl. rewrite !Z.add_0_r. by destruct (default (0, 0) (m !! host)).
    - cbn [foldl omap list_omap]. rewrite IH. clear IH. unfold count_exchange.
      destruct (mq_exchanges q !! x) as [e|]; [|done]. rewrite !filter_cons.
      destruct (decide (cx_Host e = host)) as [<-|Hne].
      + rewrite lookup_insert_eq. cbn [default]. unfold id. case_bool_decide as Hside.
        * rewrite decide_True by done. rewrite (decide_False (P := _ /\ cx_Side e <> _)) by tauto.
          cbn [fst snd length]. f_equal. lia.
        * rewrite decide_False by tauto. rewrite (decide_True (P := _ /\ cx_Side e <> _)) by done.
          cbn [fst snd length]. f_equal. lia.
      + rewrite lookup_insert_ne by done. rewrite !decide_False by tauto. done. }
  rewrite Hgen. unfold count_waiting, waiting_for. rewrite lookup_fmap.
  by destruct (mq_waitingForNewCallSubs q !! host).
Qed.

(** ** Concrete inputs *)
Section Witnesses.

Abbreviation docs := (gmap string mongodbWebRTCCall).
Definition sample_call : mongodbWebRTCCall :=
  mkCall "id1" "op1" EmptyString "host" 5 "sdp" [] false None false false EmptyString [] false EmptyString.
Definition sample_candidate (c : string) : mongodbICECandidate := mkMongoCandidate c None None None.
Definition sample_err (e : goerror) : string := SimpleErrors.text e.

Lemma offer_taken_once_witness :
  let s1 : docs := {[ "id1"%string := sample_call ]} in
  let '(s2, r) := take_first None "op2" ["host"%string] 0 s1 in
  NoDup (match r with inl (Some c) => [("op2"%string, mc_ID c)] | _ => [] end).*2.
Proof.
  apply (offer_taken_once id sample_err (∅ : docs)
    (mkOffers {[ "id1"%string := mc_take "op2" sample_call ]} {["id1"%string]} [("op2", "id1")]%string)); [reflexivity|].
  eapply rtc_l.
  { apply (OInsert id sample_err None sample_call ∅ {[ "id1"%string := sample_call ]} ∅ [] None); [set_solver|done|].
    vm_compute. reflexivity. }
  replace ({[mc_ID sample_call]} ∪ ∅ : gset string) with ({["id1"%string]} : gset string) by set_solver.
  eapply rtc_l; [|apply rtc_refl].
  apply (OTakeFirst id sample_err None "op2" ["host"%string] 0 {[ "id1"%string := sample_call ]}
           {[ "id1"%string := mc_take "op2" sample_call ]} (inl (Some sample_call)) {["id1"%string]} []).
  vm_compute. reflexivity.
Defined.

(** The answerer's SDP and a candidate, then the end. *)
Definition sample_docs : list mongodbWebRTCCall :=
  [mc_set_AnswererSDP "answer" sample_call;
   mc_set_AnswererDone true (mc_push_answerer (sample_candidate "b") (mc_push_answerer (sample_candidate "a")
     (mc_set_AnswererSDP "answer" sample_call)))].

Lemma caller_hears_answerer_witness :
  caller_loop false 0 (call_event <$> sample_docs) =
    ([ans_sdp "answer"; ans_candidate (mkCandidateInit "a" None None None);
      ans_candidate (mkCandidateInit "b" None None None)], true).
Proof.
  rewrite (caller_hears_answerer sample_call sample_docs); [reflexivity|reflexivity|reflexivity|reflexivity| | |].
  - repeat constructor; simpl; try done.
  - split; [split; [by exists []|by intros []]|]. split; [|exact I].
    split; [by exists [sample_candidate "a"; sample_candidate "b"]|done].
  - repeat constructor.
Defined.

Lemma answerer_misses_early_candidates_witness :
  answerer_goroutine (mc_push_caller (sample_candidate "early") sample_call)
    (call_event <$> [mc_push_caller (sample_candidate "late") (mc_push_caller (sample_candidate "early") sample_call)])
  = ([mkCandidateInit "late" None None None], None).
Proof.
  rewrite answerer_misses_early_candidates; [reflexivity| | |].
  - split; [|done]. by exists [sample_candidate "late"].
  - repeat constructor.
  - repeat constructor.
Defined.

(** An answerer that waits for calls to the host, which is tracked. *)
Definition waiting_queue : csManager * mongoQueue :=
  let '(q1, _, _) := subscribeForNewCallOnHosts ["host"%string] (new_mongoQueue "op2") in
  let '(m2, q2) := csManager_tick new_csManager q1 in csManager_watch true m2 q2.

Lemma waiting_queue_reachable : reachable (mongo_init "op2") mongo_step waiting_queue.
Proof.
  exists (new_csManager, new_mongoQueue "op2"). split; [done|].
  eapply rtc_l; [apply (MSubscribeForNewCall ["host"%string])|]. eapply rtc_l; [by apply MTick|].
  eapply rtc_l; [|apply rtc_refl].
  apply (MWatch true (csManager_tick new_csManager _).1 (csManager_tick new_csManager _).2).
Qed.

Lemma new_call_reaches_one_answerer_witness :
  let next := Some (ChangeOk (mkChangeEvent OpInsert (Some sample_call) (1, 1)) "token") in
  let q' := fst (processNextSubscriptionEvent next (snd waiting_queue)) in
  fst (processNextSubscriptionEvent next q') = q' /\
  mq_handlers q' = [mkHandler [call_event sample_call] true].
Proof.
  destruct (new_call_reaches_one_answerer "op2" (fst waiting_queue) (snd waiting_queue) sample_call "token" (1, 1))
    as [H1 H2].
  - exact waiting_queue_reachable.
  - reflexivity.
  - vm_compute. reflexivity.
  - discriminate.
  - apply (bool_decide_unpack _). vm_compute. exact I.
  - split; [exact H1|]. vm_compute. reflexivity.
Defined.

(** The same answerer before the manager has noticed it. *)
Definition unnoticed_queue : mongoQueue :=
  fst (fst (subscribeForNewCallOnHosts ["host"%string] (new_mongoQueue "op2"))).

(** The manager after the failure, and after it has tried again with success. *)
Definition after_failed_watch : csManager * mongoQueue :=
  let started := csManager_tick new_csManager unnoticed_queue in csManager_watch false started.1 started.2.

Definition after_next_watch : csManager * mongoQueue :=
  let started := csManager_tick after_failed_watch.1 after_failed_watch.2 in csManager_watch true started.1 started.2.

Lemma failed_watch_abandons_answerers_witness :
  0%nat ∈ mq_csAnswerersWaitingForNextCS unnoticed_queue /\ 0%nat ∉ mq_csReady after_next_watch.2.
Proof.
  pose proof (failed_watch_abandons_answerers "op2" new_csManager unnoticed_queue) as H. cbv zeta in H.
  destruct (csManager_watch true _ _) as [m1 opened] in H. destruct H as (_ & _ & H).
  - exists (new_csManager, new_mongoQueue "op2"). split; [done|]. eapply rtc_l; [|apply rtc_refl].
    apply (MSubscribeForNewCall ["host"%string]).
  - reflexivity.
  - vm_compute. discriminate.
  - assert (0%nat ∈ mq_csAnswerersWaitingForNextCS unnoticed_queue) as Hw by (vm_compute; left).
    split; [exact Hw|]. apply (H 0%nat); [exact Hw|]. change (rtc mongo_step after_failed_watch after_next_watch).
    eapply rtc_l; [apply MTick; reflexivity|]. eapply rtc_l; [apply (MWatch true)|].
    apply rtc_refl.
Defined.

Definition sample_inputs : waitInputs := mkWaitInputs true (EIs Canceled) 8 None None.

Lemma received_offer_is_taken_witness :
  exists s' q' x sub,
    mq_RecvOffer 10 10 2 None None ["host"%string] [sample_inputs] ([] : list operatorHosts)
      ({[ "id1"%string := sample_call ]} : docs) (snd waiting_queue) = Returns (s', q', inl (x, sub)) /\
    oe_UUID x = "id1"%string /\ oe_deadline x = 15 /\
    exists d, cl_docs s' !! oe_UUID x = Some d /\ mc_AnswererOperatorID d = "op2"%string.
Proof.
  destruct (mq_RecvOffer 10 10 2 None None ["host"%string] [sample_inputs] ([] : list operatorHosts)
      ({[ "id1"%string := sample_call ]} : docs) (snd waiting_queue)) as [[[s' q'] [[x sub]|err]]|r|] eqn:E;
    [|vm_compute in E; discriminate E..].
  exists s', q', x, sub. split; [reflexivity|].
  destruct (received_offer_is_taken 10 10 2 None None ["host"%string] [sample_inputs] ([] : list operatorHosts)
      ({[ "id1"%string := sample_call ]} : docs) s' (snd waiting_queue) q' x sub) as (d & i & _ & Hd & _ & Heq & Hdl & _).
  - by apply map_Forall_singleton.
  - exact E.
  - assert (Hx : x = mkOfferExchange sample_call None None 15) by (vm_compute in E; vm_compute; congruence). subst x.
    split; [reflexivity|]. split; [reflexivity|]. rewrite Heq. eexists. split; [apply lookup_insert_eq|]. reflexivity.
Defined.

(** Somebody else took the offer in between. *)
Definition late_inputs : waitInputs := mkWaitInputs true (EIs Canceled) 8 (Some (call_event sample_call)) None.
Definition taken_docs : docs := {[ "id1"%string := mc_take "op3" sample_call ]}.

Lemma lost_race_fails_answerer_witness :
  exists q2 err, recv_loop 10 2 None ["host"%string] [late_inputs; sample_inputs] taken_docs (snd waiting_queue)
    = Returns (taken_docs, q2, inr err).
Proof.
  destruct (waitForNewCall 10 2 None ["host"%string] late_inputs taken_docs (snd waiting_queue))
    as [[[s1 q1] ctx1] r] eqn:E.
  assert (Hs : s1 = taken_docs) by (vm_compute in E; vm_compute; congruence). subst s1.
  assert (Hr : r = inl (sample_call, true)) by (vm_compute in E; vm_compute; congruence). subst r.
  apply (lost_race_fails_answerer 10 2 None ["host"%string] late_inputs sample_inputs [] taken_docs taken_docs
           (snd waiting_queue) q1 ctx1 sample_call); [|exact E].
  by apply map_Forall_singleton.
Defined.

Definition sample_operators : list operatorHosts := [[("host"%string, (3, 0))]; [("host"%string, (2, 1)); ("other"%string, (9, 9))]].

Lemma refused_iff_host_is_full_witness :
  exists host, host ∈ ["host"%string] /\ checkHostQueueSize 5 None true [host] sample_operators = Some errTooManyConns.
Proof.
  pose proof (refused_iff_host_is_full 5 true ["host"%string] sample_operators) as H. cbv zeta in H.
  destruct (checkHostQueueSize 5 None true ["host"%string] sample_operators) as [err|] eqn:E.
  - destruct H as [[-> (host & Hin & _ & _)]|H]; [|vm_compute in H; discriminate H].
    exists "host"%string. split; [by left|exact E].
  - vm_compute in E. discriminate E.
Defined.
End Witnesses.
