(* ===== verification/MongoWorkers.v ===== *)
(** * The background workers of the MongoDB call queue

    [rpc/wrtc_call_queue_mongodb.go]: the constructor, the heartbeat of an
    operator, the goroutine that opens change streams, the one that reads them,
    the goroutines that answer to a caller and an answerer, and Close. The state
    that they share is the one of [CallQueueMongo]; their steps refine the
    steps of [MongoOffers.mongo_step]. *)

From S2P Require Import Prelude GoError BaseStream CallQueueMemory CallQueueMongo MongoOffers.
Local Open Scope Z_scope.

(** ** The constructor *)

(** An index: its keys, ascending, and the name and lifetime of its documents. *)
Record indexModel := mkIndex { ix_Keys : list string; ix_Name : option string; ix_ExpireAfterSeconds : option Z }.
Definition wrap32 (z : Z) : Z := (z + 2 ^ 31) mod 2 ^ 32 - 2 ^ 31.
(** The deadline of an offer is in seconds here. *)
Definition callsIndexes (defaultOfferDeadline : Z) : list indexModel :=
  [mkIndex ["host"%string] None None;
   mkIndex ["started_at"%string] (Some "rpc_call_expire"%string) (Some (wrap32 defaultOfferDeadline))].
Definition operatorsIndexes : list indexModel :=
  [mkIndex ["hosts.host"%string] None None; mkIndex ["expire_at"%string] (Some "operator_expire"%string) (Some 0)].

(** Times are in nanoseconds. *)
Definition operatorStateUpdateInterval : Z := 10 ^ 9.
Definition operatorHeartbeatWindow : Z := 10 * 10 ^ 9.

(** The document of an operator. *)
Record operatorDoc := mkOperatorDoc { od_ID : string; od_ExpireAt : Z; od_Hosts : gmap string (Z * Z) }.

(** What the reader gets with a new change stream. *)
Record csStateUpdate := mkStateUpdate { cu_ChangeStream : nat; cu_ResumeToken : string; cu_ClusterTime : Timestamp }.

(** Where the three goroutines are. The one that opens change streams waits for
    its ticker, runs Watch, runs ChangeStreamBackground until the goroutine of
    the stream has looked at its context ([MgOpening]) or after that
    ([MgOpened]), offers the stream, or waits for the start of a stream whose
    goroutine has returned already ([MgStuck]). The one that reads waits for its
    first stream, is at the top of its loop, in its second select, waits for the
    next stream after a bad event, or has returned. *)
Inductive mgrPc := MgTicking | MgWatching | MgOpening (n : nat) | MgOpened (n : nat) | MgSending (u : csStateUpdate)
  | MgStuck (n : nat) | MgReturned.
Inductive subPc := SbStart | SbLoop | SbSelect | SbWait | SbReturned.
#[export] Instance subPc_eq_dec : EqDecision subPc.
Proof. solve_decision. Defined.
Inductive livePc := LvTicking | LvReturned.

(** The queue with its workers; change streams are numbered. *)
Record workers := mkWorkers {
  wk_m : csManager;
  wk_q : mongoQueue;
  wk_mgr : mgrPc;
  wk_sub : subPc;
  wk_live : livePc;
  wk_currentCS : option nat;       (* the stream that is read *)
  wk_opened : nat;                 (* streams opened so far *)
  wk_stopped : gset nat;           (* streams whose context was cancelled *)
  wk_csCtxCancel : option nat;     (* the stream that csCtxCancel cancels *)
  wk_startOnce : bool;
  wk_cancelCtx : bool;
}.

Definition new_workers (operatorID : string) : workers :=
  mkWorkers new_csManager (new_mongoQueue operatorID) MgTicking SbStart LvTicking None 0 ∅ None false false.

(** [NewMongoDBWebRTCCallQueue] up to its wait for the first change stream: the
    errors of creating the indexes and of inserting the operator's document, and
    otherwise that document and the queue. It returns once [wk_startOnce]. *)
Definition NewMongoDBWebRTCCallQueue (operatorID : string) (ensureCalls ensureOperators insert : option goerror) (now : Z)
    : (operatorDoc * workers) + goerror :=
  if bool_decide (operatorID = EmptyString) then inr (ENew "expected non-empty operatorID")
  else match ensureCalls, ensureOperators, insert with
       | Some err, _, _ | None, Some err, _ | None, None, Some err => inr err
       | None, None, None => inl (mkOperatorDoc operatorID (now + operatorHeartbeatWindow) ∅, new_workers operatorID)
       end.

(** One round of [operatorLivenessLoop]: the document if it can be updated, and
    what the function for the hosts with answerers is called with. *)
Definition liveness_round (q : mongoQueue) (now : Z) (err : option goerror) (doc : operatorDoc) : operatorDoc * list string :=
  (match err with
   | None => mkOperatorDoc (od_ID doc) (now + operatorHeartbeatWindow) (operator_sizes q)
   | Some _ => doc
   end, hostsWithAnswerers q).

Definition wk_set_mq (m : csManager) (q : mongoQueue) (w : workers) : workers :=
  mkWorkers m q (wk_mgr w) (wk_sub w) (wk_live w) (wk_currentCS w) (wk_opened w) (wk_stopped w) (wk_csCtxCancel w) (wk_startOnce w) (wk_cancelCtx w).
Definition wk_set_q (q : mongoQueue) (w : workers) : workers := wk_set_mq (wk_m w) q w.
Definition wk_set_mgr (pc : mgrPc) (w : workers) : workers :=
  mkWorkers (wk_m w) (wk_q w) pc (wk_sub w) (wk_live w) (wk_currentCS w) (wk_opened w) (wk_stopped w) (wk_csCtxCancel w) (wk_startOnce w) (wk_cancelCtx w).
Definition wk_set_sub (pc : subPc) (w : workers) : workers :=
  mkWorkers (wk_m w) (wk_q w) (wk_mgr w) pc (wk_live w) (wk_currentCS w) (wk_opened w) (wk_stopped w) (wk_csCtxCancel w) (wk_startOnce w) (wk_cancelCtx w).
Definition wk_set_live (pc : livePc) (w : workers) : workers :=
  mkWorkers (wk_m w) (wk_q w) (wk_mgr w) (wk_sub w) pc (wk_currentCS w) (wk_opened w) (wk_stopped w) (wk_csCtxCancel w) (wk_startOnce w) (wk_cancelCtx w).
Definition wk_stop (n : option nat) (w : workers) : workers :=
  mkWorkers (wk_m w) (wk_q w) (wk_mgr w) (wk_sub w) (wk_live w) (wk_currentCS w) (wk_opened w)
    (match n with Some n => {[ n ]} ∪ wk_stopped w | None => wk_stopped w end) (wk_csCtxCancel w) (wk_startOnce w) (wk_cancelCtx w).
Definition wk_bump (w : workers) : workers := wk_set_q (mq_set_seq (wrap64 (mq_csManagerSeq (wk_q w) + 1)) (wk_q w)) w.

(** [changeStreamManager], one piece of its loop at a time. *)
Definition manager_tick (w : workers) : workers :=
  let '(m', q') := csManager_tick (wk_m w) (wk_q w) in
  wk_set_mgr (match cs_pending m' with Some _ => MgWatching | None => MgTicking end) (wk_set_mq m' q' w).
Definition manager_watch (ok : bool) (w : workers) : workers :=
  let '(m', q') := csManager_watch ok (wk_m w) (wk_q w) in
  let w' := wk_set_mq m' q' w in
  if ok then
    mkWorkers m' q' (MgOpening (wk_opened w)) (wk_sub w) (wk_live w) (wk_currentCS w) (S (wk_opened w)) (wk_stopped w)
      (wk_csCtxCancel w) (wk_startOnce w) (wk_cancelCtx w)
  else wk_set_mgr MgTicking w'.
(** It returns: the deferred function cancels the last stream. *)
Definition manager_return (w : workers) : workers := wk_set_mgr MgReturned (wk_stop (wk_csCtxCancel w) w).

(** The reader takes a new stream, in the goroutine of the constructor for the
    first one; the manager then cancels the old stream. *)
Definition handoff (u : csStateUpdate) (w : workers) : workers :=
  let w' := wk_stop (wk_csCtxCancel w) w in
  let q' := if wk_sub w is SbStart then fst (processClusterEventState (cu_ResumeToken u) (cu_ClusterTime u) (wk_q w)) else wk_q w in
  mkWorkers (wk_m w) q' MgTicking SbLoop (wk_live w) (Some (cu_ChangeStream u)) (wk_opened w) (wk_stopped w')
    (Some (cu_ChangeStream u)) (match wk_sub w with SbStart => true | _ => wk_startOnce w end) (wk_cancelCtx w).

(** [subscriptionManager] receives an event or a closed channel: at the top of
    its loop it goes on to the second select, from there to the top. *)
Definition reader_event (next : option ChangeEventResult) (w : workers) : workers :=
  let '(q', waitForNextCS) := processNextSubscriptionEvent next (wk_q w) in
  wk_set_sub (if waitForNextCS then SbWait else match wk_sub w with SbLoop => SbSelect | _ => SbLoop end) (wk_set_q q' w).

(** The other goroutines of an operator: offers are sent and received. *)
Inductive client_step : mongoQueue -> mongoQueue -> Prop :=
  | ClSubscribeToCall host callID side q : client_step q (fst (subscribeToCall host callID side q))
  | ClUnsubscribe callID x q : client_step q (unsubscribe callID x q)
  | ClSubscribeForNewCall hosts q : client_step q (fst (fst (subscribeForNewCallOnHosts hosts q)))
  | ClUnsub hosts h q : client_step q (unsub hosts h q)
  | ClReceiveNewCall h q :
      client_step q (mq_set_handlers (alter (fun nc => mkHandler [] (nh_received nc)) h (mq_handlers q)) (mq_waitingForNewCallSubs q) q)
  | ClReceiveCall x q :
      client_step q (mq_set_exchanges (alter (fun e => mkCallExchange (cx_Host e) (tail (cx_Chan e)) (cx_Side e)) x (mq_exchanges q))
                       (mq_callExchangeSubs q) q).

Definition takes_stream (pc : subPc) : Prop := pc = SbStart \/ pc = SbSelect \/ pc = SbWait.

(** All goroutines. Watch fails once the queue is cancelled. A panic of the
    reader is captured: it is started again and waits for a stream. *)
Inductive wk_step : workers -> workers -> Prop :=
  | WkClient q' w : client_step (wk_q w) q' -> wk_step w (wk_set_q q' w)
  | WkTick w : wk_mgr w = MgTicking -> wk_step w (manager_tick w)
  | WkWatch ok w : wk_mgr w = MgWatching -> (ok = true -> wk_cancelCtx w = false) -> wk_step w (manager_watch ok w)
  | WkOpened n w : wk_mgr w = MgOpening n -> wk_cancelCtx w = false -> wk_step w (wk_set_mgr (MgOpened n) w)
  | WkStuck n w : wk_mgr w = MgOpening n -> wk_cancelCtx w = true -> wk_step w (wk_set_mgr (MgStuck n) w)
  | WkOffer n token time w : wk_mgr w = MgOpened n -> wk_step w (wk_set_mgr (MgSending (mkStateUpdate n token time)) w)
  | WkHandoff u w : wk_mgr w = MgSending u -> takes_stream (wk_sub w) -> wk_step w (handoff u w)
  | WkMgrCancelled w : wk_mgr w = MgTicking -> wk_cancelCtx w = true -> wk_step w (manager_return w)
  | WkMgrGivesUp u w : wk_mgr w = MgSending u -> wk_cancelCtx w = true ->
      wk_step w (manager_return (wk_stop (Some (cu_ChangeStream u)) w))
  | WkEvent next w : wk_sub w = SbLoop \/ wk_sub w = SbSelect -> wk_step w (reader_event next w)
  | WkNoEvent w : wk_sub w = SbLoop -> wk_step w (wk_set_sub SbSelect w)
  | WkReaderReturns w : wk_sub w <> SbReturned -> wk_cancelCtx w = true -> wk_step w (wk_set_sub SbReturned (wk_bump w))
  | WkReaderPanics w : wk_sub w = SbLoop \/ wk_sub w = SbSelect -> wk_step w (wk_set_sub SbStart (wk_bump w))
  | WkLiveReturns w : wk_live w = LvTicking -> wk_cancelCtx w = true -> wk_step w (wk_set_live LvReturned w)
  | WkClose w : wk_startOnce w = true ->
      wk_step w (mkWorkers (wk_m w) (wk_q w) (wk_mgr w) (wk_sub w) (wk_live w) (wk_currentCS w) (wk_opened w) (wk_stopped w)
                   (wk_csCtxCancel w) (wk_startOnce w) true).

Definition wk_init (operatorID : string) (w : workers) : Prop := w = new_workers operatorID.

(** [Close] returns when the workers have. *)
Definition workers_done (w : workers) : Prop := wk_mgr w = MgReturned /\ wk_sub w = SbReturned /\ wk_live w = LvReturned.

(** The counter of change stream requests has 64 bits; below, it does not wrap. *)
Definition wk_step_room (w w' : workers) : Prop := wk_step w w' /\ mq_csManagerSeq (wk_q w) + 1 < 2 ^ 64.

(** ** Refinement of the operator's state *)

Lemma client_step_mongo m q q' : client_step q q' -> mongo_step (m, q) (m, q').
Proof. intros []; constructor. Qed.

Lemma bump_is_closed_event q : mq_set_seq (wrap64 (mq_csManagerSeq q + 1)) q = fst (processNextSubscriptionEvent None q).
Proof. done. Qed.

Lemma position_is_event token time q :
  fst (processClusterEventState token time q) =
  fst (processNextSubscriptionEvent (Some (ChangeOk (mkChangeEvent OpInsert None time) token)) q).
Proof. cbn [processNextSubscriptionEvent ce_ClusterTime ce_FullDocument]. by destruct (processClusterEventState token time q) as [q' []]. Qed.

Definition pc_pending (w : workers) : Prop := wk_mgr w = MgWatching <-> is_Some (cs_pending (wk_m w)).

Lemma tick_pending m q : cs_pending m = None -> mongo_step (m, q) (csManager_tick m q).
Proof. apply MTick. Qed.

Lemma watch_pending ok m q : is_Some (cs_pending m) -> cs_pending (fst (csManager_watch ok m q)) = None.
Proof. intros [[[[hs rs] sa] st] E]. unfold csManager_watch. rewrite E. by destruct ok. Qed.

(** The cases of a step, and of what a manager that is elsewhere holds. *)
Ltac wk_cases Hs :=
  destruct Hs as [q' w Hc|w Hm|ok w Hm Hok|n w Hm Hc|n w Hm Hc|n token time w Hm|u w Hm Ht|w Hm Hc|u w Hm Hc|next w Hsub|w Hsub|w Hsub Hc|w Hsub|w Hl Hc|w Hst].

Lemma not_watching w : pc_pending w -> wk_mgr w <> MgWatching -> cs_pending (wk_m w) = None.
Proof. intros Hp Hm. destruct (cs_pending (wk_m w)) eqn:E; [|done]. destruct Hm. apply Hp. by rewrite E. Qed.

Lemma pc_pending_none w : wk_mgr w <> MgWatching -> cs_pending (wk_m w) = None -> pc_pending w.
Proof. intros Hm Hn. unfold pc_pending. rewrite Hn. split; [done|by intros []]. Qed.

Lemma wk_step_pending w w' : pc_pending w -> wk_step w w' -> pc_pending w'.
Proof.
  intros Hp Hs.
  wk_cases Hs; try exact Hp; try (apply pc_pending_none; [done|]; cbn; apply not_watching; [done|]; by rewrite Hm).
  - unfold manager_tick, pc_pending. destruct (csManager_tick _ _) as [m' q']. cbn. destruct (cs_pending m'); split; try done; by intros [].
  - pose proof (watch_pending ok _ (wk_q w) (proj1 Hp Hm)) as Hw. unfold manager_watch.
    destruct (csManager_watch _ _ _) as [m' q']. cbn in Hw. destruct ok; by apply pc_pending_none.
  - unfold reader_event. destruct (processNextSubscriptionEvent _ _). exact Hp.
Qed.

Lemma wk_step_mongo w w' : pc_pending w -> wk_step w w' ->
  (wk_m w', wk_q w') = (wk_m w, wk_q w) \/ mongo_step (wk_m w, wk_q w) (wk_m w', wk_q w').
Proof.
  intros Hp Hs. wk_cases Hs; try (by left).
  - right. by apply client_step_mongo.
  - right. assert (cs_pending (wk_m w) = None) as Hn by (apply not_watching; [done|by rewrite Hm]).
    pose proof (MTick (wk_m w) (wk_q w) Hn) as Ht. unfold manager_tick. by destruct (csManager_tick _ _).
  - right. pose proof (MWatch ok (wk_m w) (wk_q w)) as Ht. unfold manager_watch. destruct (csManager_watch _ _ _). by destruct ok.
  - unfold handoff. cbn [wk_m wk_q]. destruct (wk_sub w); [right|by left..]. rewrite position_is_event. apply MEvent.
  - right. pose proof (MEvent next (wk_m w) (wk_q w)) as He. unfold reader_event. by destruct (processNextSubscriptionEvent _ _).
  - right. apply (MEvent None).
  - right. apply (MEvent None).
Qed.

(** Whatever the workers of a queue and its clients do, the operator's state
    evolves by the steps of [mongo_step], one at most for each of theirs: what
    is proved of those steps holds of the workers. *)
Theorem workers_refine_mongo operatorID w :
  reachable (wk_init operatorID) wk_step w ->
  reachable (mongo_init operatorID) mongo_step (wk_m w, wk_q w) /\
  forall w', wk_step w w' ->
    (wk_m w', wk_q w') = (wk_m w, wk_q w) \/ mongo_step (wk_m w, wk_q w) (wk_m w', wk_q w').
Proof.
  intros Hr. enough (pc_pending w /\ reachable (mongo_init operatorID) mongo_step (wk_m w, wk_q w)) as [Hp Hm].
  { split; [done|]. intros w'. by apply wk_step_mongo. }
  refine (invariant_reachable _ _ (fun w => pc_pending w /\ reachable (mongo_init operatorID) mongo_step (wk_m w, wk_q w)) _ _ w Hr).
  - intros ? ->. split; [by apply pc_pending_none|]. eexists. by split; [|apply rtc_refl].
  - intros s s' [Hp (st0 & H0 & Hst)] Hs. split; [by eapply wk_step_pending|]. exists st0. split; [done|].
    destruct (wk_step_mongo _ _ Hp Hs) as [->|Hms]; [done|]. by eapply rtc_r.
Qed.

(** ** The hand-over of change streams *)

(** The number of requests for a new stream. *)
Definition wk_seq (w : workers) : Z := mq_csManagerSeq (wk_q w).

Lemma position_seq token time q : mq_csManagerSeq (fst (processClusterEventState token time q)) = mq_csManagerSeq q.
Proof. unfold processClusterEventState. by repeat case_match. Qed.

Lemma event_seq next q :
  mq_csManagerSeq (fst (processNextSubscriptionEvent next q)) =
  if snd (processNextSubscriptionEvent next q) then wrap64 (mq_csManagerSeq q + 1) else mq_csManagerSeq q.
Proof.
  destruct next as [[err token|event token]|]; cbn [processNextSubscriptionEvent]; [|pose proof (position_seq token (ce_ClusterTime event) q) as Hp|done].
  - cbn. destruct (errors_Is _ _); [by rewrite position_seq|done].
  - destruct (processClusterEventState _ _ q) as [q1 b]. cbn in Hp. destruct b; cbn [negb]; [|done]. destruct (ce_FullDocument event); [|done].
    case_bool_decide; [done|]. destruct (ce_OperationType event); [by case_bool_decide|done|done].
Qed.

Lemma tick_spec m q :
  csManager_tick m q = (m, q) /\ cs_isInitialized m = true /\ cs_lastSeq m = mq_csManagerSeq q \/
  cs_lastSeq (csManager_tick m q).1 = mq_csManagerSeq q /\ is_Some (cs_pending (csManager_tick m q).1) /\
  mq_csManagerSeq (csManager_tick m q).2 = mq_csManagerSeq q /\ (cs_isInitialized m = false \/ cs_lastSeq m <> mq_csManagerSeq q).
Proof.
  unfold csManager_tick. destruct (cs_isInitialized m && _) eqn:E.
  - left. apply andb_true_iff in E as [? ?]. split_and!; [done..|lia].
  - right. cbn. split_and!; [done|by eexists|done|]. apply andb_false_iff in E as [?|?]; [by left|right; lia].
Qed.

Lemma watch_spec ok m q : is_Some (cs_pending m) ->
  cs_lastSeq (csManager_watch ok m q).1 = cs_lastSeq m /\ cs_isInitialized (csManager_watch ok m q).1 = cs_isInitialized m /\
  mq_csManagerSeq (csManager_watch ok m q).2 = if ok then mq_csManagerSeq q else wrap64 (mq_csManagerSeq q + 1).
Proof. intros [[[[hs rs] sa] st] E]. unfold csManager_watch. rewrite E. by destruct ok. Qed.

Lemma client_seq q q' : client_step q q' ->
  mq_csManagerSeq q' = mq_csManagerSeq q \/ mq_csManagerSeq q' = wrap64 (mq_csManagerSeq q + 1).
Proof.
  intros []; try (by left). unfold subscribeForNewCallOnHosts. case_bool_decide; [by left|by right].
Qed.

(** The stream that the manager is about to offer. *)
Definition mgr_stream (pc : mgrPc) : option nat :=
  match pc with
  | MgOpening n | MgOpened n | MgStuck n => Some n
  | MgSending u => Some (cu_ChangeStream u)
  | _ => None
  end.

(** The manager is busy with a new stream or will be after its next tick. *)
Definition stream_coming (w : workers) : Prop :=
  match wk_mgr w with
  | MgTicking => cs_isInitialized (wk_m w) = false \/ cs_lastSeq (wk_m w) < wk_seq w
  | MgStuck _ | MgReturned => False
  | _ => True
  end.

Record wk_inv (w : workers) : Prop := {
  wi_pending : pc_pending w;
  wi_seq : 0 <= cs_lastSeq (wk_m w) <= wk_seq w;
  wi_mgr : wk_cancelCtx w = false -> wk_mgr w <> MgReturned /\ (forall n, wk_mgr w <> MgStuck n);
  wi_sub : wk_cancelCtx w = false -> wk_sub w <> SbReturned;
  wi_coming : wk_cancelCtx w = false -> wk_sub w = SbStart \/ wk_sub w = SbWait -> stream_coming w;
  wi_reads : wk_sub w = SbLoop \/ wk_sub w = SbSelect -> is_Some (wk_currentCS w);
}.

Lemma wk_inv_seq w seq : 0 <= wk_seq w < 2 ^ 64 - 1 -> seq = wk_seq w \/ seq = wrap64 (wk_seq w + 1) ->
  wk_seq w <= seq /\ (seq = wrap64 (wk_seq w + 1) -> wk_seq w < seq).
Proof. intros Hb Hs. rewrite (wrap64_small (wk_seq w + 1)) in * by lia. lia. Qed.

Lemma coming_more w w' : wk_mgr w' = wk_mgr w -> wk_m w' = wk_m w -> wk_seq w <= wk_seq w' -> stream_coming w -> stream_coming w'.
Proof. unfold stream_coming. intros -> -> Hs. destruct (wk_mgr w); try done. intros [?|?]; [by left|right; lia]. Qed.

Lemma coming_bumped w : cs_lastSeq (wk_m w) < wk_seq w -> wk_mgr w <> MgReturned -> (forall n, wk_mgr w <> MgStuck n) -> stream_coming w.
Proof. unfold stream_coming. intros Hs Hr Hk. destruct (wk_mgr w) as [| | | | |n|]; try done; [by right|by destruct (Hk n)]. Qed.

Lemma wk_step_inv w w' : wk_inv w -> wk_step_room w w' -> wk_inv w'.
Proof.
  intros [Hp Hseq Hmgr Hret Hcome Hreads] [Hs Hroom]. pose proof (wk_step_pending _ _ Hp Hs) as Hp'.
  fold (wk_seq w) in Hroom. assert (0 <= wk_seq w < 2 ^ 64 - 1) as Hb by lia.
  wk_cases Hs.
  - (* a client *)
    assert (q_seq : wk_seq w <= mq_csManagerSeq q').
    { apply (wk_inv_seq w _ Hb). by apply client_seq. }
    split; try done; cbn.
    + unfold wk_seq. cbn. lia.
    + intros Hn Hw. eapply coming_more; [..|by apply Hcome]; done.
  - (* tick *)
    pose proof (tick_spec (wk_m w) (wk_q w)) as Ht. unfold manager_tick in *. destruct (csManager_tick _ _) as [m' q']. cbn [fst snd] in Ht.
    assert (wk_seq w = mq_csManagerSeq q' /\ 0 <= cs_lastSeq m' <= mq_csManagerSeq q') as [E1 E2].
    { destruct Ht as [([= -> ->] & _)|(-> & _ & E & _)]; [done|]. rewrite E. unfold wk_seq in *. lia. }
    split; cbn; try done.
    + intros Hn. destruct (cs_pending m'); done.
    + intros Hn Hw. specialize (Hcome Hn Hw). unfold stream_coming in *. rewrite Hm in Hcome. cbn.
      destruct Ht as [([= -> ->] & Hi & Hl)|(_ & [? ->] & _)]; [|done]. exfalso. unfold wk_seq in Hcome. destruct Hcome; [congruence|lia].
  - (* Watch *)
    pose proof (watch_spec ok (wk_m w) (wk_q w) (proj1 Hp Hm)) as Ht. unfold manager_watch in *. destruct (csManager_watch _ _ _) as [m' q'].
    cbn [fst snd] in Ht. destruct Ht as (E1 & E2 & E3).
    assert (wk_seq w <= mq_csManagerSeq q' /\ (ok = false -> wk_seq w < mq_csManagerSeq q')) as [E4 E5].
    { destruct (wk_inv_seq w (mq_csManagerSeq q') Hb) as [??]; [destruct ok; auto|]. split; [done|]. intros ->. auto. }
    destruct ok; split; cbn; try done; unfold wk_seq in *; cbn; try (rewrite E1; lia).
  - split; cbn; try done.
  - split; cbn; try done; intros Hn; congruence.
  - split; cbn; try done.
  - (* hand-over *)
    assert (mq_csManagerSeq (wk_q (handoff u w)) = wk_seq w) as Hq.
    { unfold handoff. cbn. destruct (wk_sub w); try done. apply position_seq. }
    split; try done.
    + unfold wk_seq. by rewrite Hq.
    + intros Hn [Hw|Hw]; done.
  - split; cbn; try done; intros Hn; congruence.
  - split; cbn; try done; intros Hn; congruence.
  - (* an event *)
    pose proof (event_seq next (wk_q w)) as He. unfold reader_event in *. destruct (processNextSubscriptionEvent _ _) as [q' wait]. cbn [fst snd] in He.
    assert (wk_seq w <= mq_csManagerSeq q' /\ (wait = true -> wk_seq w < mq_csManagerSeq q')) as [E4 E5].
    { destruct (wk_inv_seq w (mq_csManagerSeq q') Hb) as [??]; [destruct wait; auto|]. split; [done|]. intros ->. auto. }
    split; cbn; try done.
    + unfold wk_seq in *. cbn. lia.
    + intros Hn. destruct wait, (wk_sub w); done.
    + intros Hn Hw. destruct wait; [|destruct (wk_sub w); by destruct Hw]. destruct (Hmgr Hn) as [Hr Hk].
      apply coming_bumped; cbn; try done. unfold wk_seq in *. cbn. specialize (E5 eq_refl). lia.
    + intros _. by apply Hreads.
  - split; cbn; try done; [intros Hn [?|?]; done|]. intros _. apply Hreads. by left.
  - split; cbn; try done; try (intros Hn; congruence); unfold wk_seq in *; cbn; [rewrite (wrap64_small (_ + 1)) by lia; lia|].
    by intros [?|?].
  - split; cbn; try done; unfold wk_seq in *; cbn; [rewrite (wrap64_small (_ + 1)) by lia; lia| |by intros [?|?]].
    intros Hn _. destruct (Hmgr Hn) as [Hr Hk]. apply coming_bumped; cbn; try done. unfold wk_seq. cbn. rewrite (wrap64_small (_ + 1)) by lia. lia.
  - split; cbn; try done.
  - split; cbn; try done.
Qed.

Lemma new_workers_inv operatorID : wk_inv (new_workers operatorID).
Proof. split; cbn; try done; [by apply pc_pending_none| |intros [?|?]; done]. intros _ _. by left. Qed.

Lemma reachable_wk_inv operatorID w : reachable (wk_init operatorID) wk_step_room w -> wk_inv w.
Proof.
  apply (invariant_reachable _ _ wk_inv); [|apply wk_step_inv]. intros ? ->. apply new_workers_inv.
Qed.

(** Change streams: the one that is read, the one that is being opened, and
    those that were stopped. *)
Record streams_inv (w : workers) : Prop := {
  si_cancel : wk_csCtxCancel w = wk_currentCS w;
  si_bound : forall k, k ∈ wk_stopped w \/ wk_currentCS w = Some k \/ mgr_stream (wk_mgr w) = Some k -> (k < wk_opened w)%nat;
  si_open : wk_cancelCtx w = false -> forall k, (k < wk_opened w)%nat ->
    (k ∉ wk_stopped w <-> wk_currentCS w = Some k \/ mgr_stream (wk_mgr w) = Some k);
  si_ne : forall k, mgr_stream (wk_mgr w) = Some k -> wk_currentCS w <> Some k;
  si_gone : wk_cancelCtx w = false -> wk_mgr w <> MgReturned;
}.

Lemma streams_inv_same w w' : streams_inv w -> wk_csCtxCancel w' = wk_csCtxCancel w -> wk_currentCS w' = wk_currentCS w ->
  wk_stopped w' = wk_stopped w -> wk_opened w' = wk_opened w -> mgr_stream (wk_mgr w') = mgr_stream (wk_mgr w) ->
  (wk_cancelCtx w' = false -> wk_cancelCtx w = false /\ wk_mgr w' <> MgReturned) -> streams_inv w'.
Proof.
  intros [H1 H2 H3 H4 H5] E1 E2 E3 E4 E5 E6. split; rewrite ?E1, ?E2, ?E3, ?E4, ?E5; try done.
  - intros Hn. apply H3. by apply E6.
  - intros Hn. by apply E6.
Qed.

Lemma streams_inv_return w : streams_inv w -> wk_cancelCtx w = true -> forall n, (forall k, n = Some k -> (k < wk_opened w)%nat) ->
  streams_inv (manager_return (wk_stop n w)).
Proof.
  intros [H1 H2 H3 H4 H5] Hc n Hn. split; cbn; rewrite ?Hc; try done.
  intros k [Hk|[Hk|Hk]]; [|auto|done]. rewrite H1 in Hk. destruct (wk_currentCS w) eqn:E; destruct n; set_unfold in Hk; naive_solver.
Qed.

Lemma wk_step_streams w w' : streams_inv w -> wk_step w w' -> streams_inv w'.
Proof.
  intros Hi Hs. pose proof Hi as [H1 H2 H3 H4 H5].
  wk_cases Hs; try (eapply streams_inv_same; [exact Hi|done..| |]; cbn; rewrite ?Hm; cbn; try done; intros Hn; split; try done; by auto).
  - unfold manager_tick. destruct (csManager_tick _ _) as [m' q']. apply (streams_inv_same w); cbn; rewrite ?Hm; try done; by destruct (cs_pending m').
  - unfold manager_watch. destruct (csManager_watch _ _ _) as [m' q']. destruct ok; [|by apply (streams_inv_same w); cbn; rewrite ?Hm].
    split; cbn; try done.
    + intros k [Hk|[Hk|[= <-]]]; [| |lia]; apply Nat.lt_lt_succ_r, H2; auto.
    + intros Hn k Hk. destruct (decide (k = wk_opened w)) as [->|Hne].
      * split; [by right|]. intros _ Hin. assert (wk_opened w < wk_opened w)%nat by (apply H2; by left). lia.
      * rewrite H3, Hm by (done || lia). cbn. naive_solver.
    + intros k [= <-] Hk. assert (wk_opened w < wk_opened w)%nat by (apply H2; by right; left). lia.
  - unfold handoff. split; cbn; try done.
    + intros k [Hk|[[= <-]|?]]; [|apply H2; rewrite Hm; auto|done]. rewrite H1 in Hk.
      destruct (wk_currentCS w) eqn:E; [|apply H2; auto]. apply elem_of_union in Hk as [->%elem_of_singleton|Hk]; apply H2; auto.
    + intros Hn k Hk. rewrite H1. specialize (H3 Hn k Hk). rewrite Hm in H3. cbn in H3.
      assert (wk_currentCS w <> Some (cu_ChangeStream u)) as Hne by (apply H4; by rewrite Hm).
      destruct (wk_currentCS w) as [c|] eqn:E; [rewrite not_elem_of_union, not_elem_of_singleton, H3|rewrite H3]; naive_solver.
  - assert (wk_stop None w = w) as E by by destruct w. rewrite <- E. by apply streams_inv_return.
  - apply streams_inv_return; [done..|]. intros k [= <-]. apply H2. rewrite Hm. auto.
  - unfold reader_event. destruct (processNextSubscriptionEvent _ _). by apply (streams_inv_same w); auto.
Qed.

Lemma new_workers_streams operatorID : streams_inv (new_workers operatorID).
Proof. split; cbn; try done; [intros k [Hk|[Hk|Hk]]; [by apply elem_of_empty in Hk|done..]|intros _ k Hk; lia]. Qed.

Lemma reachable_streams operatorID w : reachable (wk_init operatorID) wk_step w -> streams_inv w.
Proof. apply (invariant_reachable _ _ streams_inv); [intros ? ->; apply new_workers_streams|apply wk_step_streams]. Qed.

Lemma room_steps w w' : rtc wk_step_room w w' -> rtc wk_step w w'.
Proof. apply rtc_subrel. by intros ?? [? _]. Qed.

(** ** Properties *)

(** Change streams do not leak: until the queue is closed, the streams whose
    context is not cancelled are the one that the reader has and the one that
    is about to be handed over, and the reader receives from a stream only
    while nobody has stopped it. *)
Theorem open_streams_are_used operatorID w :
  reachable (wk_init operatorID) wk_step_room w -> wk_cancelCtx w = false ->
  (forall k, (k < wk_opened w)%nat -> k ∉ wk_stopped w <-> wk_currentCS w = Some k \/ mgr_stream (wk_mgr w) = Some k) /\
  (wk_sub w = SbLoop \/ wk_sub w = SbSelect -> exists c, wk_currentCS w = Some c /\ c ∉ wk_stopped w).
Proof.
  intros Hr Hn. pose proof (reachable_wk_inv _ _ Hr) as Hi. destruct Hr as (w0 & H0 & Hr). apply room_steps in Hr.
  assert (reachable (wk_init operatorID) wk_step w) as Hr' by (by exists w0).
  pose proof (reachable_streams _ _ Hr') as [H1 H2 H3 H4 H5]. split; [by apply H3|].
  intros Hs. destruct (wi_reads _ Hi Hs) as [c Hc]. exists c. split; [done|].
  apply H3; [done|apply H2; auto|by left].
Qed.

(** What the steps of the manager up to offering a stream leave alone. *)
Definition same_reader (w w' : workers) : Prop :=
  wk_sub w' = wk_sub w /\ wk_cancelCtx w' = wk_cancelCtx w /\ wk_startOnce w' = wk_startOnce w /\
  wk_currentCS w' = wk_currentCS w /\ wk_stopped w' = wk_stopped w.
Definition offers (w : workers) : Prop := exists w' u, rtc wk_step w w' /\ wk_mgr w' = MgSending u /\ same_reader w w'.

Lemma offers_step w w' : wk_step w w' -> same_reader w w' -> offers w' -> offers w.
Proof.
  intros Hs (E1 & E2 & E3 & E4 & E5) (w2 & u & Hr & Hm & F1 & F2 & F3 & F4 & F5). exists w2, u.
  split; [by eapply rtc_l|]. split; [done|]. unfold same_reader. by rewrite F1, F2, F3, F4, F5.
Qed.

Lemma opened_offers w n : wk_mgr w = MgOpened n -> offers w.
Proof. intros Hm. do 2 eexists. split; [by apply rtc_once, (WkOffer n EmptyString (0, 0))|done]. Qed.

Lemma opening_offers w n : wk_cancelCtx w = false -> wk_mgr w = MgOpening n -> offers w.
Proof. intros Hn Hm. eapply offers_step; [by apply (WkOpened n)|done|by eapply opened_offers]. Qed.

Lemma watching_offers w : wk_cancelCtx w = false -> wk_mgr w = MgWatching -> offers w.
Proof.
  intros Hn Hm. pose proof (WkWatch true w Hm (fun _ => Hn)) as Hs. unfold manager_watch in Hs.
  destruct (csManager_watch _ _ _) as [m' q']. eapply offers_step; [exact Hs|done|]. by eapply opening_offers.
Qed.

(** From where the manager is, it can come to offering a stream. *)
Lemma coming_offers w : wk_cancelCtx w = false -> stream_coming w -> offers w.
Proof.
  intros Hn Hc. unfold stream_coming in Hc. destruct (wk_mgr w) as [| |n|n|u|n|] eqn:Hm; try done.
  - pose proof (WkTick w Hm) as Hs. pose proof (tick_spec (wk_m w) (wk_q w)) as Ht. unfold manager_tick in Hs.
    destruct (csManager_tick _ _) as [m' q']. cbn [fst snd] in Ht.
    destruct Ht as [(_ & Hi & Hl)|(_ & [x Hx] & _)]; [unfold wk_seq in Hc; destruct Hc; [congruence|lia]|].
    rewrite Hx in Hs. eapply offers_step; [exact Hs|done|]. by apply watching_offers.
  - by apply watching_offers.
  - by eapply opening_offers.
  - by eapply opened_offers.
  - exists w, u. split; [apply rtc_refl|done].
Qed.

(** C25: A reader without a stream is not forgotten: at its start, after a bad event
    or a closed stream, and after a panic, the manager is already opening a
    stream or will with its next tick, and if MongoDB allows it the reader gets
    a new stream, which nobody has stopped; the constructor can then return. *)
Theorem reader_gets_stream operatorID w :
  reachable (wk_init operatorID) wk_step_room w -> wk_cancelCtx w = false -> wk_sub w = SbStart \/ wk_sub w = SbWait ->
  stream_coming w /\
  exists w', rtc wk_step w w' /\ wk_sub w' = SbLoop /\ (wk_sub w = SbStart -> wk_startOnce w' = true) /\
    exists c, wk_currentCS w' = Some c /\ (c ∉ wk_stopped w') /\ wk_currentCS w <> Some c.
Proof.
  intros Hr Hn Hw. pose proof (wi_coming _ (reachable_wk_inv _ _ Hr) Hn Hw) as Hc. split; [done|].
  destruct (coming_offers w Hn Hc) as (w1 & u & Hs & Hm & Hsub & Hn1 & Hst & Hcur & Hstop). rewrite Hn in Hn1.
  destruct Hr as (w0 & H0 & Hr). apply room_steps in Hr.
  assert (Hh : wk_step w1 (handoff u w1)) by (apply WkHandoff; [done|]; rewrite Hsub; destruct Hw; unfold takes_stream; auto).
  assert (S1 : streams_inv w1) by (apply (reachable_streams operatorID); exists w0; split; [done|by etrans]).
  pose proof (wk_step_streams _ _ S1 Hh) as S2.
  exists (handoff u w1). split_and!; [by eapply rtc_r|done| |].
  { intros E. unfold handoff. cbn. by rewrite Hsub, E. }
  exists (cu_ChangeStream u). split_and!; [done| |].
  - apply (si_open _ S2); [done| |by left]. apply (si_bound _ S2). right. by left.
  - rewrite <-Hcur. apply (si_ne _ S1). by rewrite Hm.
Qed.

(** The manager waits forever for a stream whose goroutine has returned. *)
Lemma stuck_step j w w' : wk_mgr w = MgStuck j -> wk_step w w' -> wk_mgr w' = MgStuck j.
Proof.
  intros Hj Hs. wk_cases Hs; cbn; try congruence. unfold reader_event. by destruct (processNextSubscriptionEvent _ _).
Qed.
Definition being_opened (w : workers) : Prop := exists j : nat, wk_mgr w = MgOpening j \/ wk_mgr w = MgStuck j.

Lemma being_opened_step w w' : being_opened w -> wk_cancelCtx w = true -> wk_step w w' -> being_opened w' /\ wk_cancelCtx w' = true.
Proof.
  intros [j Hj] Hcd Hs. split.
  - exists j. wk_cases Hs; cbn; try done; try (by destruct Hj; congruence); try (right; destruct Hj; congruence).
    unfold reader_event. by destruct (processNextSubscriptionEvent _ _).
  - wk_cases Hs; cbn; try done.
    + unfold manager_tick. by destruct (csManager_tick _ _).
    + unfold manager_watch. destruct (csManager_watch _ _ _). by destruct ok.
    + unfold reader_event. by destruct (processNextSubscriptionEvent _ _).
Qed.

Lemma readers_return w : wk_mgr w = MgReturned -> wk_cancelCtx w = true -> exists w', rtc wk_step w w' /\ workers_done w'.
Proof.
  intros Hm Hc.
  assert (forall v, wk_mgr v = MgReturned -> wk_cancelCtx v = true -> wk_sub v = SbReturned -> exists w', rtc wk_step v w' /\ workers_done w') as Hl.
  { intros v Hv Hcv Hsv. destruct (wk_live v) eqn:E; [|exists v; by split; [apply rtc_refl|]].
    eexists. split; [by apply rtc_once, WkLiveReturns|done]. }
  destruct (decide (wk_sub w = SbReturned)) as [|Hne]; [by apply Hl|].
  edestruct (Hl (wk_set_sub SbReturned (wk_bump w))) as (w' & Hr & Hd); [done..|].
  exists w'. split; [|done]. eapply rtc_l; [by apply WkReaderReturns|done].
Qed.


(** The exception happens: the constructor has returned, an answerer asked for
    a new change stream, Watch succeeded, and then Close was called. *)
Definition serving : workers :=
  handoff (mkStateUpdate 0 "token" (0, 0)) (wk_set_mgr (MgSending (mkStateUpdate 0 "token" (0, 0)))
    (wk_set_mgr (MgOpened 0) (manager_watch true (manager_tick (new_workers "op"))))).
Definition opening_again : workers :=
  manager_watch true (manager_tick (wk_set_q (fst (fst (subscribeForNewCallOnHosts ["host"%string] (wk_q serving)))) serving)).
Definition wk_close (w : workers) : workers :=
  mkWorkers (wk_m w) (wk_q w) (wk_mgr w) (wk_sub w) (wk_live w) (wk_currentCS w) (wk_opened w) (wk_stopped w)
    (wk_csCtxCancel w) (wk_startOnce w) true.

Lemma serving_steps : rtc wk_step_room (new_workers "op") serving.
Proof.
  eapply rtc_l; [split; [by apply WkTick|done]|]. eapply rtc_l; [split; [by apply (WkWatch true)|done]|].
  eapply rtc_l; [split; [by apply (WkOpened 0%nat)|done]|]. eapply rtc_l; [split; [by apply (WkOffer 0%nat "token" (0, 0))|done]|].
  apply rtc_once. split; [|done]. apply (WkHandoff (mkStateUpdate 0 "token" (0, 0))); [done|]. by left.
Qed.

Lemma opening_steps : rtc wk_step_room serving opening_again.
Proof.
  eapply rtc_l; [split; [apply WkClient, (ClSubscribeForNewCall ["host"%string])|done]|].
  eapply rtc_l; [split; [by apply WkTick|by vm_compute]|]. apply rtc_once. split; [by apply (WkWatch true)|by vm_compute].
Qed.

Lemma close_can_hang :
  reachable (wk_init "op") wk_step (wk_close opening_again) /\
  forall w', rtc wk_step (wk_close opening_again) w' -> ~ workers_done w'.
Proof.
  split.
  - exists (new_workers "op"). split; [done|]. etrans; [apply room_steps, serving_steps|].
    etrans; [apply room_steps, opening_steps|]. apply rtc_once. by apply (WkClose opening_again).
  - intros w' Hr.
    refine (match rtc_invariant wk_step (fun w => being_opened w /\ wk_cancelCtx w = true) _ _ _ Hr _ with conj (ex_intro _ j Hj) _ => _ end).
    + intros v v' [Hv Hcv] Hs. by eapply being_opened_step.
    + split; [|done]. exists 1%nat. by left.
    + intros (Hm & _). destruct Hj; congruence.
Qed.

(** ** The goroutines of an offer, interrupted *)

(** A send of [sendAnswer] or [sendCandidate]: received, received by the second
    try after the context was done, or dropped because of that. *)
Inductive sendOutcome := SendOk | SendLate | SendDropped.
(** Sending one after the other until a send says to stop: what was received,
    and whether to go on. *)
Fixpoint send_all {A : Type} (items : list A) (out : nat -> sendOutcome) : list A * bool :=
  match items with
  | [] => ([], true)
  | x :: items' =>
      match out O with
      | SendOk => let '(sent, ok) := send_all items' (fun i => out (S i)) in (x :: sent, ok)
      | SendLate => ([x], false)
      | SendDropped => ([], false)
      end
  end.

(** A turn of a loop: the error of the context when it is done before an event
    comes, the event otherwise, and how the sends of the turn go. *)
Record offerTurn := mkTurn { tu_ctxErr : option goerror; tu_event : mongodbCallEvent; tu_out : nat -> sendOutcome }.

(** The goroutine of [SendOfferInit]: what the caller receives and whether it
    has returned. It then closes the channel and unsubscribes. *)
Fixpoint caller_goroutine (haveInitSDP : bool) (candLen : nat) (turns : list offerTurn) : list WebRTCCallAnswer * bool :=
  match turns with
  | [] => ([], false)
  | t :: turns' =>
      match tu_ctxErr t with
      | Some err => (fst (send_all [ans_error err] (tu_out t)), true)
      | None =>
          let '(answers, next) := caller_event haveInitSDP candLen (tu_event t) in
          let '(sent, ok) := send_all answers (tu_out t) in
          match next with
          | Some (haveInitSDP', candLen') =>
              if ok then let '(sent', returned) := caller_goroutine haveInitSDP' candLen' turns' in (sent ++ sent', returned)
              else (sent, true)
          | None => (sent, true)
          end
      end
  end.

(** How the goroutine of [RecvOffer] ends: as when nobody interrupts it, with an
    error that [setErr] writes into the document, or silently. *)
Inductive answerer_stop := Ended (e : answerer_end) | CtxDone (err : goerror) | SendStopped.

(** Its loop; a turn is what comes after the document [latestReq] was handled,
    [out] how the sends of its candidates go. *)
Fixpoint answerer_interrupted (candLen : nat) (latestReq : mongodbWebRTCCall) (out : nat -> sendOutcome) (turns : list offerTurn)
    : list ICECandidateInit * option answerer_stop :=
  let '(cands, next) := answerer_request candLen latestReq in
  let '(sent, ok) := send_all cands out in
  if ok then
    match next with
    | inr e => (sent, Some (Ended e))
    | inl candLen' =>
        match turns with
        | [] => (sent, None)
        | t :: turns' =>
            match tu_ctxErr t with
            | Some err => (sent, Some (CtxDone err))
            | None =>
                match ev_Error (tu_event t) with
                | Some err => (sent, Some (Ended (AnswererFails err)))
                | None =>
                    if ev_Expired (tu_event t) then (sent, Some (Ended (CallerEnded (Some (ENew "offer expired")))))
                    else let '(sent', e) := answerer_interrupted candLen' (ev_Call (tu_event t)) (tu_out t) turns' in (sent ++ sent', e)
                end
            end
        end
    end
  else (sent, Some SendStopped).

Lemma send_all_prefix {A} (items : list A) : forall out, (send_all items out).1 `prefix_of` items.
Proof.
  induction items as [|x items IH]; intros out; cbn [send_all]; [done|]. destruct (out O).
  - specialize (IH (fun i => out (S i))). destruct (send_all items _) as [sent ok]. by apply prefix_cons.
  - by exists items.
  - apply prefix_nil.
Qed.

Lemma send_all_ok {A} (items : list A) : forall out, (send_all items out).2 = true -> (send_all items out).1 = items.
Proof.
  induction items as [|x items IH]; intros out; cbn [send_all]; [done|]. destruct (out O); [|done..].
  specialize (IH (fun i => out (S i))). destruct (send_all items _) as [sent ok]. cbn in IH |- *. intros E. by rewrite IH.
Qed.

(** An interrupted caller hears nothing that it would not have heard otherwise
    but the end of its context: what it receives is what the whole loop sends,
    in order and up to some point, followed at most by that error, and by that
    error only if everything the earlier events gave has been received. *)
Theorem interrupted_caller_hears_prefix turns : forall haveInitSDP candLen,
  let received := (caller_goroutine haveInitSDP candLen turns).1 in
  let all ts := (caller_loop haveInitSDP candLen (tu_event <$> ts)).1 in
  received `prefix_of` all turns \/
  exists before t err after, turns = before ++ t :: after /\ tu_ctxErr t = Some err /\ received = all before ++ [ans_error err].
Proof.
  induction turns as [|t turns IH]; intros h n received all; [by left|].
  unfold received, all. cbn [caller_goroutine fmap list_fmap]. destruct (tu_ctxErr t) as [err|] eqn:Hctx.
  - cbn [send_all]. destruct (tu_out t O); cbn; [| |left; apply prefix_nil]; right; by exists [], t, err, turns.
  - cbn [caller_loop]. destruct (caller_event h n (tu_event t)) as [answers [[h' n']|]] eqn:Hev.
    2:{ left. pose proof (send_all_prefix answers (tu_out t)). by destruct (send_all _ _). }
    pose proof (send_all_prefix answers (tu_out t)) as Hp. pose proof (send_all_ok answers (tu_out t)) as Hk.
    destruct (send_all answers (tu_out t)) as [sent ok]. cbn [fst snd] in *. destruct ok.
    + rewrite (Hk eq_refl). specialize (IH h' n'). cbn zeta in IH. destruct (caller_goroutine h' n' turns) as [sent' ret]. cbn [fst] in *.
      destruct IH as [IH|(before & u & err & after & -> & Hu & ->)].
      * left. destruct (caller_loop h' n' _). cbn in *. by apply prefix_app.
      * right. exists (t :: before), u, err, after. split_and!; [done..|]. cbn [fmap list_fmap caller_loop]. rewrite Hev.
        destruct (caller_loop h' n' _). cbn. by rewrite app_assoc.
    + left. destruct (caller_loop h' n' _). cbn. by apply prefix_app_r.
Qed.

(** Likewise an interrupted answerer receives a first part of the candidates;
    when nothing interrupts it, all of them. *)
Theorem interrupted_answerer_hears_prefix turns : forall candLen latestReq out,
  let received := (answerer_interrupted candLen latestReq out turns).1 in
  let all := answerer_loop candLen latestReq (tu_event <$> turns) in
  received `prefix_of` all.1 /\
  (forall e, (answerer_interrupted candLen latestReq out turns).2 = Some (Ended e) -> received = all.1 /\ all.2 = Some e).
Proof.
  induction turns as [|t turns IH]; intros n req out received all; unfold received, all; clear received all; cbn [answerer_interrupted answerer_loop fmap list_fmap];
    destruct (answerer_request n req) as [cands [n'|e0]];
    pose proof (send_all_prefix cands out) as Hp; pose proof (send_all_ok cands out) as Hk; destruct (send_all cands out) as [sent [|]]; cbn [fst snd] in *;
    try (specialize (Hk eq_refl); subst sent); try (split; [done|]; intros e He; simplify_eq; done).
  - destruct (tu_ctxErr t).
    + split; [|done]. destruct (ev_Error (tu_event t)); [done|]. destruct (ev_Expired _); [done|].
      destruct (answerer_loop n' _ _). cbn. by apply prefix_app_r.
    + destruct (ev_Error (tu_event t)); [split; [done|]; intros e He; injection He as <-; split; reflexivity|].
      destruct (ev_Expired _); [split; [done|]; intros e He; injection He as <-; split; reflexivity|].
      specialize (IH n' (ev_Call (tu_event t)) (tu_out t)). cbn zeta in IH.
      destruct (answerer_interrupted n' _ _ _) as [sent' e']. destruct (answerer_loop n' _ _) as [all' e'']. cbn [fst snd] in *.
      destruct IH as [IH1 IH2]. split; [by apply prefix_app|]. intros e He. by destruct (IH2 e He) as [-> ->].
  - split; [|done]. destruct (ev_Error (tu_event t)); [done|]. destruct (ev_Expired _); [done|].
    destruct (answerer_loop n' _ _). cbn. by apply prefix_app_r.
Qed.

(** ** The heartbeat *)

(** The document of an operator after rounds at given times. *)
Definition heartbeats (doc : operatorDoc) (rounds : list (mongoQueue * Z * option goerror)) : operatorDoc :=
  foldl (fun doc '(q, now, err) => (liveness_round q now err doc).1) doc rounds.

(** With fewer than ten failed rounds in a row an operator stays known: if the
    rounds come at most an interval apart, at no round has the document that the
    previous ones left expired. *)
Fixpoint paced (last : Z) (failures : nat) (rounds : list (mongoQueue * Z * option goerror)) : Prop :=
  match rounds with
  | [] => True
  | (_, now, err) :: rounds' =>
      last <= now <= last + operatorStateUpdateInterval /\
      (match err with None => True | Some _ => (S failures < 10)%nat end) /\
      paced now (match err with None => O | Some _ => S failures end) rounds'
  end.

Lemma paced_alive rounds : forall doc last failures, (failures < 10)%nat ->
  last + operatorHeartbeatWindow <= od_ExpireAt doc + Z.of_nat failures * operatorStateUpdateInterval ->
  paced last failures rounds ->
  forall before q now err after, rounds = before ++ (q, now, err) :: after -> now <= od_ExpireAt (heartbeats doc before).
Proof.
  unfold operatorHeartbeatWindow, operatorStateUpdateInterval.
  induction rounds as [|[[q now] err] rounds IH]; intros doc last failures Hf Hl Hp before q' now' err' after Hr.
  - by destruct before.
  - destruct Hp as (Hnow & Herr & Hp). unfold operatorStateUpdateInterval in Hnow. destruct before as [|b before].
    + injection Hr as <- <- <- <-. cbn [heartbeats foldl]. lia.
    + injection Hr as <- Hr. unfold heartbeats. cbn [foldl].
      eapply (IH _ now); [..|exact Hr]; [| |exact Hp]; destruct err; cbn [liveness_round od_ExpireAt fst]; unfold operatorHeartbeatWindow; lia.
Qed.

(** An operator that was inserted and whose rounds come in time and do not fail
    ten times in a row is never taken for dead at a round; after a round that
    succeeds its document counts exactly its subscribers, and the hosts that are
    reported are those with an answerer. *)
Theorem heartbeat_keeps_operator operatorID now rounds doc w :
  NewMongoDBWebRTCCallQueue operatorID None None None now = inl (doc, w) -> paced now 0 rounds ->
  (forall before q t err after, rounds = before ++ (q, t, err) :: after -> t <= od_ExpireAt (heartbeats doc before)) /\
  (forall before q t, rounds = before ++ [(q, t, None)] ->
     od_Hosts (heartbeats doc rounds) = operator_sizes q /\
     forall host, host ∈ (liveness_round q t None (heartbeats doc before)).2 <->
       exists sizes, od_Hosts (heartbeats doc rounds) !! host = Some sizes /\ 1 <= snd sizes).
Proof.
  unfold NewMongoDBWebRTCCallQueue. destruct (bool_decide _); [done|]. intros [= <- <-] Hp. split.
  - eapply paced_alive; [..|exact Hp]; [lia|]. cbn. lia.
  - intros before q t ->. unfold heartbeats. rewrite foldl_app. cbn [foldl]. split; [done|]. intros host.
    cbn [liveness_round snd fst od_Hosts]. unfold hostsWithAnswerers. rewrite list_elem_of_fmap. split.
    + intros ([h sizes] & -> & Hin). apply list_elem_of_filter in Hin as [Hs Hin]. apply elem_of_map_to_list in Hin. by exists sizes.
    + intros (sizes & Hl & Hs). exists (host, sizes). split; [done|]. apply list_elem_of_filter. split; [done|]. by apply elem_of_map_to_list.
Qed.

(** ** Witnesses *)

Lemma serving_reachable : reachable (wk_init "op") wk_step_room serving.
Proof. exists (new_workers "op"). split; [done|apply serving_steps]. Qed.

Lemma workers_refine_mongo_witness :
  reachable (mongo_init "op") mongo_step (wk_m serving, wk_q serving).
Proof.
  refine (proj1 (workers_refine_mongo "op" serving _)). exists (new_workers "op"). split; [done|]. apply room_steps, serving_steps.
Defined.

Lemma open_streams_are_used_witness : exists c, wk_currentCS opening_again = Some c /\ c ∉ wk_stopped opening_again.
Proof.
  refine (proj2 (open_streams_are_used "op" opening_again _ eq_refl) (or_introl eq_refl)).
  exists (new_workers "op"). split; [reflexivity|]. etrans; [apply serving_steps|apply opening_steps].
Defined.

Definition unlucky : workers := reader_event None serving.

Lemma unlucky_reachable : reachable (wk_init "op") wk_step_room unlucky.
Proof.
  destruct serving_reachable as (w0 & H0 & Hr). exists w0. split; [done|]. eapply rtc_r; [exact Hr|].
  split; [apply WkEvent; by left|by vm_compute].
Qed.

Lemma reader_gets_stream_witness :
  wk_sub unlucky = SbWait /\ exists w', rtc wk_step unlucky w' /\ wk_sub w' = SbLoop.
Proof.
  split; [reflexivity|].
  destruct (reader_gets_stream "op" unlucky unlucky_reachable eq_refl (or_intror eq_refl)) as [_ (w' & H1 & H2 & _)].
  exists w'. split; [exact H1|exact H2].
Defined.


Lemma heartbeat_keeps_operator_witness :
  10 ^ 9 <= od_ExpireAt (mkOperatorDoc "op" (0 + operatorHeartbeatWindow) ∅).
Proof.
  refine (proj1 (heartbeat_keeps_operator "op" 0 [(new_mongoQueue "op", 10 ^ 9, Some (ENew "down"))] _ (new_workers "op") eq_refl _)
            [] (new_mongoQueue "op") (10 ^ 9) (Some (ENew "down")) [] eq_refl).
  cbn. unfold operatorStateUpdateInterval. lia.
Defined.
