(* ===== verification/SignalingServer.v ===== *)
(** * The signaling server: [rpc/wrtc_signaling_server.go], [rpc/wrtc_config.go]
      and [extendWebRTCConfig] of [rpc/wrtc_signaling.go]

    A caller's Call and an answerer's Answer run on the two sides of a call
    queue. Each is a loop over what its selects and receives give; the
    answerer's loop responds to the offer through a function on the state of
    the queue, [AnswererRespond]. What a gRPC stream does with a message that
    is sent is an argument, nil or an error. *)

From S2P Require Import Prelude GoError BaseStream CallQueueMemory CallQueueMongo.
From Stdlib Require Import Ascii.
Local Open Scope Z_scope.

(** ** ICE candidates: [rpc/wrtc_peer.go] *)

(** [webrtcpb.ICECandidate]; the index is a [uint32]. *)
Record ICECandidate := mkICECandidate {
  ic_Candidate : string;
  ic_SdpMid : option string;
  ic_SdpmLineIndex : option Z;
  ic_UsernameFragment : option string;
}.

Definition iceCandidateInitToProto (ij : ICECandidateInit) : ICECandidate :=
  mkICECandidate (ici_Candidate ij) (ici_SDPMid ij) (ici_SDPMLineIndex ij) (ici_UsernameFragment ij).

(** The index becomes a [uint16]. *)
Definition iceCandidateFromProto (i : ICECandidate) : ICECandidateInit :=
  mkCandidateInit (ic_Candidate i) (ic_SdpMid i) ((fun z => z mod 2 ^ 16) <$> ic_SdpmLineIndex i)
    (ic_UsernameFragment i).

Definition index_ok (i : ICECandidate) : Prop := forall z, ic_SdpmLineIndex i = Some z -> 0 <= z < 2 ^ 16.

Lemma candidate_proto_roundtrip i : index_ok i -> iceCandidateInitToProto (iceCandidateFromProto i) = i.
Proof.
  destruct i as [c m [z|] u]; [|done]. intros Hi. unfold iceCandidateInitToProto, iceCandidateFromProto. simpl.
  by rewrite Z.mod_small by (by apply Hi).
Qed.

(** ** Hosts *)

Definition RPCHostMetadataField : string := "rpc-host".
Definition maxHostsInMetadata : nat := 5.

(** The metadata of the incoming context, if it has any. *)
Abbreviation metadata := (option (gmap string (list string))).

(** [HostsFromCtx]. *)
Definition HostsFromCtx (md : metadata) : list string + goerror :=
  let hosts := default [] (md ≫= fun m => m !! RPCHostMetadataField) in
  match hosts with
  | [] => inr (ENew "expected rpc-host to be set in metadata")
  | _ =>
      if (maxHostsInMetadata <? length hosts)%nat then inr (ENew "too many rpc-host")
      else if existsb (fun host => bool_decide (host = EmptyString)) hosts
      then inr (ENew "expected non-empty rpc-host")
      else inl hosts
  end.

(** [HostFromCtx]. *)
Definition HostFromCtx (md : metadata) : string + goerror :=
  match HostsFromCtx md with
  | inr err => inr err
  | inl [host] => inl host
  | inl _ => inr (ENew "expected 1 rpc-host")
  end.

(** [validateHosts]. *)
Definition hostNotAllowedMsg : string := "host not preconfigured".
Fixpoint hosts_allowed (forHosts : gset string) (hosts : list string) : option goerror :=
  match hosts with
  | [] => None
  | host :: hosts' =>
      if bool_decide (host ∈ forHosts) then hosts_allowed forHosts hosts'
      else Some (EStatus InvalidArgument hostNotAllowedMsg)
  end.
Definition validateHosts (forHosts : gset string) (hosts : list string) : option goerror :=
  if bool_decide (forHosts = ∅) then None
  else match hosts with
       | [] => Some (ENew "at least one host required")
       | _ => hosts_allowed forHosts hosts
       end.

(** ** ICE servers *)

(** [webrtcpb.ICEServer] and [webrtc.ICEServer], with the same fields. *)
Record ICEServer := mkICEServer { is_Urls : list string; is_Username : string; is_Credential : string }.
Definition zero_ICEServer : ICEServer := mkICEServer [] EmptyString EmptyString.

(** [extendWebRTCConfig] on the ICE servers; [None] is a nil config. *)
Definition extendWebRTCConfig (original : list ICEServer) (optional : option (list ICEServer)) : list ICEServer :=
  match optional with
  | None | Some [] => original
  | Some additional =>
      (* make gives zero values, copy overwrites the first ones *)
      let iceServers := original ++ replicate (length additional) zero_ICEServer in
      iceServers ++ additional
  end.

(** [hostICEServers]. *)
Record hostICEServers := mkHostICEServers { hs_Servers : list ICEServer; hs_Expires : Z }.

(** [WebRTCSignalingServer] without the queue; [callWorkers] is the counter of
    the wait group. *)
Record signalingServer := mkSignalingServer {
  sg_hostICEServers : gmap string hostICEServers;
  sg_hasProvider : bool;
  sg_forHosts : gset string;
  sg_callWorkers : nat;
  sg_cancelErr : option goerror;
}.
Definition sg_set_ice v srv := mkSignalingServer v (sg_hasProvider srv) (sg_forHosts srv) (sg_callWorkers srv)
  (sg_cancelErr srv).
Definition sg_set_workers v srv := mkSignalingServer (sg_hostICEServers srv) (sg_hasProvider srv) (sg_forHosts srv) v
  (sg_cancelErr srv).
Definition sg_set_cancelErr v srv := mkSignalingServer (sg_hostICEServers srv) (sg_hasProvider srv) (sg_forHosts srv)
  (sg_callWorkers srv) v.

(** [NewWebRTCSignalingServer]. *)
Definition NewWebRTCSignalingServer (hasProvider : bool) (forHosts : list string) : signalingServer :=
  mkSignalingServer ∅ hasProvider (list_to_set forHosts) 0 None.

(** [additionalICEServers]; [config] is what the provider answers: servers and
    when they expire. A host that is not cached has the zero time, which is
    before every [now]. *)
Definition additionalICEServers (now : Z) (config : list ICEServer * Z + goerror) (hosts : list string)
    (cache : bool) (srv : signalingServer) : signalingServer * (list ICEServer + goerror) :=
  if negb (sg_hasProvider srv) then (srv, inl [])
  else
    let hostsKey := String.concat "," hosts in
    let fetch :=
      match config with
      | inr err => (srv, inr err)
      | inl (servers, expires) =>
          (if cache then sg_set_ice (<[hostsKey := mkHostICEServers servers expires]> (sg_hostICEServers srv)) srv
           else srv, inl servers)
      end in
    match sg_hostICEServers srv !! hostsKey with
    | Some hostServers => if now <? hs_Expires hostServers then (srv, inl (hs_Servers hostServers)) else fetch
    | None => fetch
    end.

(** [clearAdditionalICEServers]. *)
Definition clearAdditionalICEServers (hosts : list string) (srv : signalingServer) : signalingServer :=
  sg_set_ice (foldl (fun m host => delete host m) (sg_hostICEServers srv) hosts) srv.

(** [OptionalWebRTCConfig]. *)
Definition OptionalWebRTCConfig (now : Z) (config : list ICEServer * Z + goerror) (md : metadata)
    (srv : signalingServer) : signalingServer * (list ICEServer + goerror) :=
  match HostsFromCtx md with
  | inr err => (srv, inr err)
  | inl hosts =>
      match validateHosts (sg_forHosts srv) hosts with
      | Some err => (srv, inr err)
      | None => additionalICEServers now config hosts false srv
      end
  end.

(** [Close] cancels, then waits for the workers. *)
Definition sg_Close_begin (srv : signalingServer) : signalingServer :=
  sg_set_cancelErr (Some (default (EIs Canceled) (sg_cancelErr srv))) srv.
Definition sg_Close_returns (srv : signalingServer) : bool := bool_decide (sg_callWorkers srv = 0%nat).

(** Add a worker, unless the server is closed. *)
Definition add_call_worker (srv : signalingServer) : signalingServer + goerror :=
  match sg_cancelErr srv with
  | Some err => inr err
  | None => inl (sg_set_workers (S (sg_callWorkers srv)) srv)
  end.
Definition call_worker_done (srv : signalingServer) : signalingServer :=
  sg_set_workers (pred (sg_callWorkers srv)) srv.

(** ** Call *)

(** [webrtcpb.CallResponse]. *)
Inductive CallResponse :=
  | CallResponse_Init (uuid sdp : string)
  | CallResponse_Update (uuid : string) (candidate : ICECandidate).

(** What the select of the loop gives: the context is done, the queue says that
    no more responses come, or there is one; a closed channel gives the zero
    one. *)
Inductive callSelect :=
  | SelCtxDone (err : goerror)
  | SelRespDone
  | SelResp (resp : WebRTCCallAnswer).
Definition zero_answer : WebRTCCallAnswer := mkAnswer None None None.

(** One round of the loop of [Call] after its select, with the results of its
    two sends: what is sent, and [haveInit] or what the call returns. *)
Definition call_round (uuid : string) (haveInit : bool) (sel : callSelect) (sendInit sendUpdate : option goerror)
    : list CallResponse * (bool + option goerror) :=
  match sel with
  | SelCtxDone err => ([], inr (Some err))
  | SelRespDone => ([], inr None)
  | SelResp (mkAnswer initialSDP candidate (Some err)) => ([], inr (Some (EWrap "error from answerer" err)))
  | SelResp (mkAnswer initialSDP candidate None) =>
      let update (sent : list CallResponse) :=
        match candidate with
        | None => (sent, inl true)
        | Some cand =>
            (sent ++ [CallResponse_Update uuid (iceCandidateInitToProto cand)],
             match sendUpdate with Some err => inr (Some err) | None => inl true end)
        end in
      if haveInit then update []
      else
        match initialSDP with
        | None => ([], inr (Some (ENew "expected to have initial SDP if no error")))
        | Some sdp =>
            match sendInit with
            | Some err => ([CallResponse_Init uuid sdp], inr (Some err))
            | None => update [CallResponse_Init uuid sdp]
            end
        end
  end.

(** The loop, over the context's error at the top of each round, its select
    and the results of its sends: the responses and, once it returned, the
    result. *)
Record callInput := mkCallInput {
  ci_ctxErr : option goerror;
  ci_select : callSelect;
  ci_sendInit : option goerror;
  ci_sendUpdate : option goerror;
}.
Fixpoint call_loop (uuid : string) (haveInit : bool) (inputs : list callInput)
    : list CallResponse * option (option goerror) :=
  match inputs with
  | [] => ([], None)
  | i :: inputs' =>
      match ci_ctxErr i with
      | Some err => ([], Some (Some err))
      | None =>
          match call_round uuid haveInit (ci_select i) (ci_sendInit i) (ci_sendUpdate i) with
          | (sent, inr res) => (sent, Some res)
          | (sent, inl haveInit') =>
              let '(sent', res) := call_loop uuid haveInit' inputs' in (sent ++ sent', res)
          end
      end
  end.

(** The deferred function of [Call]: the error that a goroutine sends to the
    queue by SendOfferError, if it is started. The goroutine calls
    [callWorkers.Done()] first, so the counter is as before. *)
Definition call_deferred (callErr ctxErr : option goerror) (srv : signalingServer) : option goerror :=
  let errToSend := match callErr with
                   | Some err => Some err
                   | None => match sg_cancelErr srv with Some err => Some err | None => ctxErr end
                   end in
  match errToSend with
  | None => None
  | Some err => if sg_cancelErr srv is Some _ then None else Some err
  end.

(** [Call] with the result of SendOfferInit: what the caller is sent, what the
    call returns and what is sent to the queue afterwards; [None] while it
    runs. *)
Definition Call (md : metadata) (srv : signalingServer) (sendOfferInit : string -> string + goerror)
    (inputs : list callInput) (ctxErr : option goerror)
    : list CallResponse * option (option goerror * option goerror) :=
  match HostFromCtx md with
  | inr err => ([], Some (Some err, None))
  | inl host =>
      match validateHosts (sg_forHosts srv) [host] with
      | Some err => ([], Some (Some err, None))
      | None =>
          match sendOfferInit host with
          | inr err => ([], Some (Some err, None))
          | inl uuid =>
              let '(sent, res) := call_loop uuid false inputs in
              (sent, (fun callErr => (callErr, call_deferred callErr ctxErr srv)) <$> res)
          end
      end
  end.

(** ** CallUpdate *)

(** [webrtcpb.CallUpdateRequest]'s update. *)
Inductive callUpdate :=
  | CallUpdate_Candidate (candidate : ICECandidate)
  | CallUpdate_Error (err : goerror)
  | CallUpdate_Done
  | CallUpdate_Unknown (type : string).

(** [CallUpdate] over the queue's operations. *)
Definition CallUpdate {St : Type}
    (sendOfferUpdate : string -> ICECandidateInit -> St -> St * option goerror)
    (sendOfferError : string -> goerror -> St -> St * option goerror)
    (sendOfferDone : string -> St -> St * option goerror)
    (md : metadata) (srv : signalingServer) (u : callUpdate) (st : St) : St * option goerror :=
  match HostFromCtx md with
  | inr err => (st, Some err)
  | inl host =>
      match validateHosts (sg_forHosts srv) [host] with
      | Some err => (st, Some err)
      | None =>
          match u with
          | CallUpdate_Candidate cand => sendOfferUpdate host (iceCandidateFromProto cand) st
          | CallUpdate_Error err => sendOfferError host err st
          | CallUpdate_Done => sendOfferDone host st
          | CallUpdate_Unknown t => (st, Some (ENew ("unknown update stage " +:+ t)))
          end
      end
  end.

(** ** Answer *)

(** [webrtcpb.AnswerRequest] and [webrtcpb.AnswerResponse]. *)
Inductive AnswerRequest :=
  | AnswerRequest_Init (uuid sdp : string) (additionalIceServers : list ICEServer) (disableTrickle : bool)
      (deadline : Z)
  | AnswerRequest_Update (uuid : string) (candidate : ICECandidate)
  | AnswerRequest_Done (uuid : string)
  | AnswerRequest_Error (uuid : string) (st : status).

Inductive answerStage :=
  | AnswerResponse_Init (sdp : string)
  | AnswerResponse_Update (candidate : ICECandidate)
  | AnswerResponse_Done
  | AnswerResponse_Error (st : status)
  | AnswerResponse_Unknown (type : string).
Record AnswerResponse := mkAnswerResponse { ar_Uuid : string; ar_Stage : answerStage }.

(** What the select of [callerLoop] gives. *)
Inductive answerSelect :=
  | SelOfferCtxDone (err : goerror)
  | SelCallerDone (callerErr : option goerror)
  | SelCallerCandidate (cand : ICECandidateInit).

Section Answer.
Context `{GrpcStatus} {St : Type}.
(** [offer.AnswererRespond]; the identifier is quoted in an error. *)
Context (AnswererRespond : WebRTCCallAnswer -> St -> St * option goerror) (quote : string -> string).

(** [callerLoop] over its selects and the results of the sends; the deferred
    function sends that the exchange is done, unless the answerer has stopped
    it by then. *)
Fixpoint callerLoop (uuid : string) (answererStoppedExchange : bool)
    (inputs : list (answerSelect * option goerror)) : list AnswerRequest * option (option goerror) :=
  let returns (sent : list AnswerRequest) (res : option goerror) :=
    (sent ++ (if answererStoppedExchange then [] else [AnswerRequest_Done uuid]), Some res) in
  match inputs with
  | [] => ([], None)
  | (SelOfferCtxDone err, _) :: _ => returns [] (Some err)
  | (SelCallerDone None, _) :: _ => returns [] None
  | (SelCallerDone (Some callerErr), sendErr) :: _ =>
      returns [AnswerRequest_Error uuid (ErrorToStatus (Some callerErr))]
        (Some (match sendErr with Some err => EJoin callerErr err | None => callerErr end))
  | (SelCallerCandidate cand, sendErr) :: inputs' =>
      let update := AnswerRequest_Update uuid (iceCandidateInitToProto cand) in
      match sendErr with
      | Some err => returns [update] (Some err)
      | None => let '(sent, res) := callerLoop uuid answererStoppedExchange inputs' in (update :: sent, res)
      end
  end.

(** [answererLoop] over what the stream receives: the queue's state, whether
    the answerer stopped the exchange, and the result once it returned. *)
Fixpoint answererLoop (uuid : string) (haveInit : bool) (recvs : list (AnswerResponse + goerror)) (st : St)
    : St * bool * option (option goerror) :=
  match recvs with
  | [] => (st, false, None)
  | inr err :: _ => (st, false, Some (if errors_Is err EOF then None else Some err))
  | inl answer :: recvs' =>
      if negb (bool_decide (ar_Uuid answer = uuid)) then
        (st, false, Some (Some (ENew ("uuid mismatch; have=" +:+ quote (ar_Uuid answer) +:+ " want=" +:+ quote uuid))))
      else
        match ar_Stage answer with
        | AnswerResponse_Init sdp =>
            if haveInit then (st, false, Some (Some (ENew "got init stage more than once")))
            else match AnswererRespond (ans_sdp sdp) st with
                 | (st', Some err) => (st', false, Some (Some err))
                 | (st', None) => answererLoop uuid true recvs' st'
                 end
        | AnswerResponse_Update candidate =>
            if negb haveInit then (st, false, Some (Some (ENew "got update stage before init stage")))
            else match AnswererRespond (ans_candidate (iceCandidateFromProto candidate)) st with
                 | (st', Some err) => (st', false, Some (Some err))
                 | (st', None) => answererLoop uuid haveInit recvs' st'
                 end
        | AnswerResponse_Done =>
            if negb haveInit then (st, false, Some (Some (ENew "got done stage before init stage")))
            else (st, false, Some None)
        | AnswerResponse_Error respStatus =>
            let '(st', err) := AnswererRespond (mkAnswer None None (status_Err respStatus)) st in
            (st', true, Some err)
        | AnswerResponse_Unknown t => (st, false, Some (Some (ENew ("unexpected stage " +:+ t))))
        end
  end.

(** How [Answer] ends once both loops have: the answerer is done, and the
    errors are combined. *)
Definition Answer_end `{Multierr goerror} (answererDone : St -> St * option goerror)
    (answererErr callerErr : option goerror) (st : St) : St * option goerror :=
  let '(st', doneErr) := answererDone st in
  (st', multierr_Combine (omap id [multierr_Combine (omap id [answererErr; doneErr]); callerErr])).

(** [Answer] up to its loops: an error, or the first message with the server
    that has one more worker. [recvOffer] gives the identifier, the SDP, the
    trickle setting and the deadline of an offer. *)
Definition Answer_begin (md : metadata) (now : Z) (config : list ICEServer * Z + goerror)
    (recvOffer : list string -> string * string * bool * Z + goerror) (sendErr : option goerror)
    (srv : signalingServer) : signalingServer * list AnswerRequest * (string + goerror) :=
  match HostsFromCtx md with
  | inr err => (srv, [], inr err)
  | inl hosts =>
      match validateHosts (sg_forHosts srv) hosts with
      | Some err => (srv, [], inr err)
      | None =>
          match recvOffer hosts with
          | inr err => (clearAdditionalICEServers hosts srv, [], inr err)
          | inl (uuid, sdp, disableTrickle, deadline) =>
              match additionalICEServers now config hosts true srv with
              | (srv1, inr err) => (clearAdditionalICEServers hosts srv1, [], inr err)
              | (srv1, inl iceServers) =>
                  let init := AnswerRequest_Init uuid sdp iceServers disableTrickle deadline in
                  match sendErr with
                  | Some err => (clearAdditionalICEServers hosts srv1, [init], inr err)
                  | None =>
                      match add_call_worker srv1 with
                      | inr err => (clearAdditionalICEServers hosts srv1, [init], inr err)
                      | inl srv2 => (srv2, [init], inl uuid)
                      end
                  end
              end
          end
      end
  end.
End Answer.
