(* ===== verification/Signaling.v ===== *)
(** * What the signaling server guarantees

    The theorems about [SignalingServer], and its composition with the MongoDB
    queue: what an answerer sends to Answer, the caller receives from Call. *)

From S2P Require Import Prelude GoError BaseStream CallQueueMemory CallQueueMongo MongoOffers SignalingServer.
From stdpp Require Import sorting.
Local Open Scope Z_scope.

(** ** The conversation of an answerer *)

(** The part of an offer's document that the answerer writes. *)
Record answer_view := mkView {
  av_SDP : string;
  av_Candidates : list mongodbICECandidate;
  av_Done : bool;
  av_Error : string;
}.
Definition view_of (d : mongodbWebRTCCall) : answer_view :=
  mkView (mc_AnswererSDP d) (mc_AnswererCandidates d) (mc_AnswererDone d) (mc_AnswererError d).

#[local] Arguments view_of _ : simpl never.

(** How a candidate is stored on its way. *)
Definition stored_candidate (c : ICECandidate) : mongodbICECandidate := iceCandidateToMongo (iceCandidateFromProto c).

(** What an answerer sends that answers with an SDP and candidates. *)
Definition conversation (uuid sdp : string) (cands : list ICECandidate) : list (AnswerResponse + goerror) :=
  inl (mkAnswerResponse uuid (AnswerResponse_Init sdp)) ::
  ((fun c => inl (mkAnswerResponse uuid (AnswerResponse_Update c))) <$> cands).
Definition conversation_done (uuid : string) : AnswerResponse + goerror :=
  inl (mkAnswerResponse uuid AnswerResponse_Done).

(** The document after the first messages of the conversation. *)
Definition view_after (sdp : string) (cands : list ICECandidate) (k : nat) : answer_view :=
  match k with
  | O => mkView EmptyString [] false EmptyString
  | S n => mkView sdp (stored_candidate <$> take n cands) false EmptyString
  end.
Definition view_done (sdp : string) (cands : list ICECandidate) : answer_view :=
  mkView sdp (stored_candidate <$> cands) true EmptyString.
#[local] Arguments view_done _ _ : simpl never.

(** An earlier document of the conversation against a later one. *)
Definition view_grows (v w : answer_view) : Prop :=
  av_Candidates v `prefix_of` av_Candidates w /\ (av_SDP v <> EmptyString -> av_SDP w = av_SDP v) /\ av_Done v = false.

Lemma view_after_grows sdp cands j k : (j <= k)%nat -> view_grows (view_after sdp cands j) (view_after sdp cands k).
Proof.
  intros Hjk. destruct j as [|j]; [split_and!; simpl; [apply prefix_nil|by intros []|done]|].
  destruct k as [|k]; [lia|]. split_and!; [|done|done]. simpl.
  replace (take j cands) with (take j (take k cands)) by (rewrite take_take; f_equal; lia).
  rewrite <- (take_drop j (take k cands)) at 2. rewrite fmap_app. by eexists.
Qed.

Lemma view_done_grows sdp cands j : view_grows (view_after sdp cands j) (view_done sdp cands).
Proof.
  destruct (view_after_grows sdp cands j (S (j + length cands))) as (H1 & H2 & H3); [lia|].
  simpl view_after in H1, H2. rewrite take_ge in H1 by lia. by split_and!.
Qed.

Lemma view_answer_ok sdp cands d :
  sdp <> EmptyString -> (exists j, view_of d = view_after sdp cands j) \/ view_of d = view_done sdp cands -> answer_ok d.
Proof.
  intros Hs [[[|j] Hv]|Hv]; destruct d; injection Hv as; simplify_eq/=; by split.
Qed.

Lemma view_grows_answer d d' : view_grows (view_of d) (view_of d') -> answer_grows d d' /\ mc_AnswererDone d = false.
Proof. by intros (H1 & H2 & H3). Qed.

(** Snapshots of the conversation, each at least as late as the one before, are
    a chain on which the caller goes on. *)
Lemma snapshots_chain sdp cands js ds (d : mongodbWebRTCCall) j :
  sdp <> EmptyString -> view_of d = view_after sdp cands j -> Sorted le (j :: js) ->
  view_of <$> ds = (view_after sdp cands <$> js) ++ [view_done sdp cands] ->
  Forall answer_ok ds /\ chain answer_grows d ds /\ Forall (fun d' => mc_AnswererDone d' = false) (removelast ds).
Proof.
  intros Hsdp. revert d j ds. induction js as [|k js IH]; intros d j ds Hd Hsort Hv.
  - destruct ds as [|l [|]]; [done| |done]. assert (view_of l = view_done sdp cands) as Hl by (simpl in Hv; congruence). split; [|split; [|constructor]].
    + constructor; [|done]. apply (view_answer_ok sdp cands); [done|by right].
    + split; [|done]. apply view_grows_answer. rewrite Hd, Hl. apply view_done_grows.
  - destruct ds as [|d' ds]; [done|]. cbn [fmap list_fmap app] in Hv.
    assert (view_of d' = view_after sdp cands k) as Hd' by congruence.
    assert (view_of <$> ds = (view_after sdp cands <$> js) ++ [view_done sdp cands]) as Hv' by congruence. clear Hv.
    apply Sorted_inv in Hsort as [Hsort Hjk].
    inversion_clear Hjk as [|? ? Hle]. destruct (IH d' k ds) as (Hok & Hch & Hdone); [done..|].
    assert (Hds : ds <> []) by (intros ->; by destruct js).
    split; [|split].
    + constructor; [apply (view_answer_ok sdp cands); [done|left; by exists k]|done].
    + split; [|done]. apply view_grows_answer. rewrite Hd, Hd'. by apply view_after_grows.
    + destruct ds as [|d2 ds]; [done|]. constructor; [|done].
      destruct (view_grows_answer d' d') as [_ ?]; [|done]. rewrite Hd'. by apply view_after_grows.
Qed.

(** What the caller is sent for answers, when its sends succeed. *)
Definition answer_input (a : WebRTCCallAnswer) : callInput := mkCallInput None (SelResp a) None None.

Lemma call_loop_candidates uuid cands :
  call_loop uuid true (answer_input <$> (ans_candidate <$> cands)) =
  (CallResponse_Update uuid ∘ iceCandidateInitToProto <$> cands, None).
Proof. induction cands as [|c cands IH]; [done|]. cbn [fmap list_fmap call_loop]. simpl in *. by rewrite IH. Qed.

Lemma stored_candidates_back cands :
  Forall index_ok cands ->
  iceCandidateInitToProto ∘ (iceCandidateFromMongo ∘ stored_candidate) <$> cands = cands.
Proof.
  intros Hi. rewrite <- (list_fmap_id cands) at 2. apply list_fmap_ext. intros i c Hc. simpl.
  unfold stored_candidate. rewrite ice_from_to. apply candidate_proto_roundtrip.
  rewrite Forall_forall in Hi. apply Hi. by eapply list_elem_of_lookup_2.
Qed.

(** ** The answerer's loop on the queue's collection *)

Section OnMongo.
Context `{GrpcStatus} {Coll : Type} {CC : CallsColl Coll} {CL : CallsCollLaws Coll}.
Context (quote : string -> string) (errText : goerror -> string) (ctxErr : option goerror).
(** What others do to the collection before each response; they leave alone
    what the answerer wrote. *)
Context (env : Coll -> Coll).

Definition shows (uuid : string) (v : answer_view) (s : Coll) : Prop :=
  docs_ok (cl_docs s) /\ exists d, cl_docs s !! uuid = Some d /\ view_of d = v.

Definition env_ok (uuid : string) : Prop := forall s v, shows uuid v s -> shows uuid v (env s).

Definition respond (x : offerExchange) (ans : WebRTCCallAnswer) (s : Coll) : Coll * option goerror :=
  mq_AnswererRespond quote errText ctxErr ans x (env s).

Lemma respond_update uuid u s s' v :
  (forall c, mc_ID (u c) = mc_ID c) -> shows uuid v s ->
  inactive_unless quote matched uuid (cl_UpdateOne ctxErr (fun c => bool_decide (mc_ID c = uuid)) u s) = (s', None) ->
  exists d, view_of d = v /\ shows uuid (view_of (u d)) s'.
Proof using CL.
  intros Hid [Hok (d & Hd & Hv)] Hu. destruct (cl_UpdateOne _ _ _ _) as [s1 [r|err]] eqn:E; [|done].
  simpl in Hu. destruct (matched r) eqn:Hm; [|done]. simplify_eq.
  apply update_ok in E as [(Hz & _)|(d' & (id & Hd' & Hf & Heq) & _)]; [by unfold matched in Hm; rewrite Hz in Hm|].
  breflect. pose proof (Hok id d' Hd') as Hi. simpl in Hi. assert (id = uuid) as -> by congruence.
  assert (d' = d) as -> by congruence. exists d. split; [done|]. split.
  - rewrite Heq. apply map_Forall_insert_2; [|done]. by rewrite Hid.
  - exists (u d). by rewrite Heq, lookup_insert_eq.
Qed.

(** The updates of a conversation, once its SDP was sent. *)
Lemma loop_updates x pre cands sdp s s' stopped :
  env_ok (oe_UUID x) -> shows (oe_UUID x) (mkView sdp (stored_candidate <$> pre) false EmptyString) s ->
  answererLoop (respond x) quote (oe_UUID x) true
    ((fun c => inl (mkAnswerResponse (oe_UUID x) (AnswerResponse_Update c))) <$> cands) s = (s', stopped, None) ->
  shows (oe_UUID x) (mkView sdp (stored_candidate <$> pre ++ cands) false EmptyString) s'.
Proof using CL.
  intros Henv. revert pre s. induction cands as [|c cands IH]; intros pre s Hs.
  - simpl. intros [= <- _]. by rewrite app_nil_r.
  - cbn [fmap list_fmap answererLoop ar_Uuid ar_Stage]. rewrite bool_decide_eq_true_2 by done. cbn [negb].
    destruct (respond x _ s) as [s1 [err|]] eqn:Hr; [done|]. unfold respond, mq_AnswererRespond in Hr.
    cbn [ans_candidate] in Hr.
    apply (respond_update _ _ _ _ (mkView sdp (stored_candidate <$> pre) false EmptyString)) in Hr as (d & Hd & Hs1);
      [|done|by apply Henv].
    intros Hloop. replace (pre ++ c :: cands) with ((pre ++ [c]) ++ cands) by (by rewrite <- app_assoc).
    apply (IH (pre ++ [c]) s1); [|done]. destruct d. unfold view_of in *. cbn in *. simplify_eq.
    by rewrite fmap_app in *.
Qed.

(** After each part of the conversation that went well, the offer's document
    shows exactly what was sent. *)
Lemma loop_shows x sdp cands s s' k stopped :
  env_ok (oe_UUID x) -> shows (oe_UUID x) (view_after sdp cands 0) s -> (k <= S (length cands))%nat ->
  answererLoop (respond x) quote (oe_UUID x) false (take k (conversation (oe_UUID x) sdp cands)) s = (s', stopped, None) ->
  shows (oe_UUID x) (view_after sdp cands k) s'.
Proof using CL.
  intros Henv Hs Hk. destruct k as [|k]; [simpl; by intros [= <- _]|].
  cbn [conversation take answererLoop ar_Uuid ar_Stage]. rewrite bool_decide_eq_true_2 by done. cbn [negb].
  destruct (respond x _ s) as [s1 [err|]] eqn:Hr; [done|]. unfold respond, mq_AnswererRespond in Hr. cbn [ans_sdp] in Hr.
  apply (respond_update _ _ _ _ (view_after sdp cands 0)) in Hr as (d & Hd & Hs1); [|done|by apply Henv].
  rewrite <- fmap_take. intros Hloop. apply (loop_updates x [] (take k cands) sdp s1 s' stopped) in Hloop; [done|done|].
  destruct d. unfold view_of in *. cbn in *. by simplify_eq.
Qed.
End OnMongo.

(** ** Call and the queue's goroutine

    The goroutine that hands the answers to Call has a channel with room for
    one; when it has handed over the last answer it closes the channel and the
    context whose Done channel is [respDone]. *)

Record callConc := mkCallConc {
  cc_pending : list WebRTCCallAnswer;     (* still to be handed over *)
  cc_buffer : option WebRTCCallAnswer;
  cc_exited : bool;
  cc_haveInit : bool;
  cc_sent : list CallResponse;
  cc_result : option (option goerror);    (* of Call *)
}.
Definition callConc_init (answers : list WebRTCCallAnswer) : callConc := mkCallConc answers None false false [] None.

(** One round of Call on what the select gives; its sends succeed. *)
Definition conc_round (uuid : string) (sel : callSelect) (buffer : option WebRTCCallAnswer) (st : callConc) : callConc :=
  match call_round uuid (cc_haveInit st) sel None None with
  | (sent, inl haveInit) => mkCallConc (cc_pending st) buffer (cc_exited st) haveInit (cc_sent st ++ sent) None
  | (sent, inr res) => mkCallConc (cc_pending st) buffer (cc_exited st) (cc_haveInit st) (cc_sent st ++ sent) (Some res)
  end.

Inductive conc_step (uuid : string) : callConc -> callConc -> Prop :=
  | CSend a pending haveInit sent res :
      conc_step uuid (mkCallConc (a :: pending) None false haveInit sent res)
        (mkCallConc pending (Some a) false haveInit sent res)
  | CExit buffer haveInit sent res :
      conc_step uuid (mkCallConc [] buffer false haveInit sent res) (mkCallConc [] buffer true haveInit sent res)
  | CReceive a st : cc_buffer st = Some a -> cc_result st = None -> conc_step uuid st (conc_round uuid (SelResp a) None st)
  | CReceiveClosed st : cc_buffer st = None -> cc_exited st = true -> cc_result st = None ->
      conc_step uuid st (conc_round uuid (SelResp zero_answer) None st)
  | CRespDone st : cc_exited st = true -> cc_result st = None ->
      conc_step uuid st (conc_round uuid SelRespDone (cc_buffer st) st).

(** What Call sends for the answers of an SDP and candidates. *)
Definition responses (uuid sdp : string) (cands : list ICECandidateInit) (k : nat) : list CallResponse :=
  match k with
  | O => []
  | S n => CallResponse_Init uuid sdp :: (CallResponse_Update uuid ∘ iceCandidateInitToProto <$> take n cands)
  end.
Definition answers (sdp : string) (cands : list ICECandidateInit) : list WebRTCCallAnswer :=
  ans_sdp sdp :: (ans_candidate <$> cands).

(** The state after [k] answers went through: they were sent, the rest is
    buffered or pending. *)
Record conc_inv (uuid sdp : string) (cands : list ICECandidateInit) (st : callConc) (k : nat) : Prop := {
  ci_rest : option_list (cc_buffer st) ++ cc_pending st = drop k (answers sdp cands);
  ci_sent : cc_sent st = responses uuid sdp cands k;
  ci_init : cc_haveInit st = bool_decide (k <> 0%nat);
  ci_le : (k <= length (answers sdp cands))%nat;
  ci_exit : cc_exited st = true -> cc_pending st = [];
}.

Lemma drop_answers sdp cands k a rest :
  drop k (answers sdp cands) = a :: rest ->
  match k with
  | O => a = ans_sdp sdp
  | S n => exists c, a = ans_candidate c /\ take (S n) cands = take n cands ++ [c]
  end.
Proof.
  destruct k as [|n]; simpl; [by intros [= <- _]|]. intros Hd.
  assert (Hl : (ans_candidate <$> cands) !! n = Some a).
  { rewrite <- (Nat.add_0_r n), <- lookup_drop. by rewrite Hd. }
  apply list_lookup_fmap_Some in Hl as (c & -> & Hc). exists c. split; [done|]. by apply take_S_r.
Qed.

Lemma conc_step_inv uuid sdp cands st st' k :
  conc_inv uuid sdp cands st k -> conc_step uuid st st' -> exists k', conc_inv uuid sdp cands st' k'.
Proof.
  intros [H1 H2 H3 H4 H5] Hs. destruct Hs as [a pending haveInit sent res|buffer haveInit sent res|a st Hb Hr|st Hb He Hr|st He Hr];
    cbn [cc_pending cc_buffer cc_exited cc_haveInit cc_sent] in *.
  - exists k. by split.
  - exists k. by split.
  - rewrite Hb in H1. change (option_list (Some a) ++ cc_pending st) with (a :: cc_pending st) in H1. pose proof (drop_answers _ _ _ _ _ (eq_sym H1)) as Ha.
    exists (S k). assert (Hrest : cc_pending st = drop (S k) (answers sdp cands)).
    { change (S k) with (1 + k)%nat. rewrite Nat.add_comm, <- drop_drop, <- H1. done. }
    assert (Hlt : (S k <= length (answers sdp cands))%nat).
    { pose proof (f_equal length H1) as Hlen. rewrite length_drop in Hlen. cbn [length] in Hlen. lia. }
    unfold conc_round. rewrite H3. destruct k as [|n].
    + subst a. cbn. split; cbn; [done|by rewrite H2|done|done|done].
    + destruct Ha as (c & -> & Ht). cbn. split; cbn; [done| |done|done|done].
      rewrite H2. cbn [responses app]. rewrite Ht, fmap_app. done.
  - exists k. rewrite Hb, (H5 He) in H1. unfold conc_round. rewrite H3.
    assert (Hk : k <> 0%nat) by (intros ->; done). rewrite bool_decide_eq_true_2 by done. cbn.
    split; cbn; rewrite ?app_nil_r; [by rewrite (H5 He)|done|by rewrite bool_decide_eq_true_2|done|done].
  - exists k. unfold conc_round. cbn. split; cbn; rewrite ?app_nil_r; done.
Qed.

(** ** What an answerer may respond *)

(** A log of the responses, with the results that they have. *)
Definition log_respond (result : WebRTCCallAnswer -> list WebRTCCallAnswer -> option goerror)
    (ans : WebRTCCallAnswer) (log : list WebRTCCallAnswer) : list WebRTCCallAnswer * option goerror :=
  (log ++ [ans], result ans log).

Definition is_candidate (a : WebRTCCallAnswer) : Prop := exists c, a = ans_candidate c.
Definition is_error (a : WebRTCCallAnswer) : Prop := InitialSDP a = None /\ Candidate a = None.

(** An SDP, then candidates, then at most one error; or only an error. *)
Definition well_formed_answers (log : list WebRTCCallAnswer) : Prop :=
  exists sdp cands errs, log = sdp ++ cands ++ errs /\
    (sdp = [] /\ cands = [] \/ exists s, sdp = [ans_sdp s]) /\ Forall is_candidate cands /\
    (length errs <= 1)%nat /\ Forall is_error errs.

Lemma loop_after_init `{GrpcStatus} result quote uuid recvs sdp cands log' stopped res :
  Forall is_candidate cands ->
  answererLoop (log_respond result) quote uuid true recvs (ans_sdp sdp :: cands) = (log', stopped, res) ->
  well_formed_answers log'.
Proof.
  assert (Hwf : forall cands, Forall is_candidate cands -> well_formed_answers (ans_sdp sdp :: cands)).
  { intros cs Hcs. exists [ans_sdp sdp], cs, []. rewrite app_nil_r. split_and!; [done|right; by eexists|done|simpl; lia|done]. }
  revert cands. induction recvs as [|[answer|err] recvs IH]; intros cands Hc; cbn [answererLoop].
  - intros [= <- _ _]. by apply Hwf.
  - case_bool_decide; cbn [negb]; [|intros [= <- _ _]; by apply Hwf].
    destruct (ar_Stage answer) as [s|c| |st|t]; cbn [negb].
    + intros [= <- _ _]. by apply Hwf.
    + unfold log_respond at 1. assert (Hc' : Forall is_candidate (cands ++ [ans_candidate (iceCandidateFromProto c)])).
      { apply Forall_app. split; [done|]. constructor; [by eexists|done]. }
      destruct (result _ _); [intros [= <- _ _]; by apply (Hwf (cands ++ [_])) | by apply (IH (cands ++ [_]))].
    + intros [= <- _ _]. by apply Hwf.
    + unfold log_respond at 1. intros [= <- _ _]. exists [ans_sdp sdp], cands, [mkAnswer None None (status_Err st)].
      split_and!; [done|right; by eexists|done|simpl; lia|]. constructor; [done|done].
    + intros [= <- _ _]. by apply Hwf.
  - intros [= <- _ _]. by apply Hwf.
Qed.

(** ** Properties *)

(** The snapshots of a conversation, through the goroutine of the offer and
    Call. *)
Lemma snapshots_reach_caller uuid sdp cands (d : mongodbWebRTCCall) (js : list nat) (ds : list mongodbWebRTCCall) :
  sdp <> EmptyString -> Forall index_ok cands -> view_of d = view_after sdp cands 0 ->
  Sorted le js -> view_of <$> ds = (view_after sdp cands <$> js) ++ [view_done sdp cands] ->
  let '(answers, ended) := caller_loop false 0 (call_event <$> ds) in
  ended = true /\
  call_loop uuid false (answer_input <$> answers) =
    (CallResponse_Init uuid sdp :: (CallResponse_Update uuid <$> cands), None).
Proof.
  intros Hsdp Hidx Hv Hsort Hds.
  destruct (snapshots_chain sdp cands js ds d 0) as (Hoks & Hch & Hdone); [done|done| |done|].
  { constructor; [done|]. destruct js; constructor. lia. }
  assert (Hvd : mc_AnswererSDP d = EmptyString /\ mc_AnswererCandidates d = [] /\ mc_AnswererError d = EmptyString).
  { unfold view_of in Hv. cbn in Hv. by simplify_eq. }
  destruct Hvd as (Hd1 & Hd2 & Hd3).
  destruct (caller_loop_chain d ds) as (out & Hout & Hloop); [by split; [|rewrite Hd2]|done..|].
  rewrite Hd1, Hd2 in Hloop. rewrite bool_decide_eq_true_2 in Hloop by done. cbn [negb length] in Hloop.
  rewrite Hloop. assert (Hlast : exists l, last ds = Some l /\ List.last ds d = l /\ view_of l = view_done sdp cands).
  { destruct ds as [|l ds _] using rev_ind; [by destruct js|]. exists l. rewrite last_snoc, List.last_last.
    split_and!; [done|done|]. rewrite fmap_app in Hds. by apply app_inj_tail in Hds as [_ Hl]. }
  destruct Hlast as (l & -> & Hl & Hlv). rewrite Hl in Hout.
  assert (Hvl : mc_AnswererSDP l = sdp /\ mc_AnswererCandidates l = stored_candidate <$> cands /\ mc_AnswererDone l = true).
  { unfold view_of, view_done in Hlv. by simplify_eq. }
  destruct Hvl as (Hl1 & Hl2 & ->). split; [done|].
  assert (Hans : out = answers sdp (iceCandidateFromMongo ∘ stored_candidate <$> cands)).
  { revert Hout. unfold answers_of. rewrite Hd1, Hd2, Hl1, Hl2. rewrite bool_decide_eq_false_2 by done.
    rewrite bool_decide_eq_true_2 by done. cbn [fmap list_fmap app]. intros <-. unfold answers. f_equal.
    by rewrite <- !list_fmap_compose. }
  rewrite Hans. unfold answers. cbn [fmap list_fmap call_loop]. cbn [ci_ctxErr ci_select ci_sendInit ci_sendUpdate answer_input].
  cbn [call_round ans_sdp]. rewrite call_loop_candidates. cbn [app]. f_equal. f_equal.
  rewrite <- list_fmap_compose. rewrite <- (stored_candidates_back cands Hidx) at 2.
  rewrite <- list_fmap_compose. done.
Qed.

(** End to end. An answerer sends an SDP and candidates to Answer, and other
    parties update the same offer in between. After every part of it that went
    well the offer's document shows what was sent so far; and when the caller's
    change stream gives any snapshots of those documents, as long as each is no
    older than the one before and the last is the final one, the goroutine of
    its offer ends, and Call sends its client exactly that SDP and those
    candidates, in order and each once. *)
Theorem answer_reaches_caller `{GrpcStatus} {Coll : Type} `{CallsCollLaws Coll}
    (quote : string -> string) (errText : goerror -> string) (ctxErr : option goerror) (env : Coll -> Coll)
    (sdp : string) (cands : list ICECandidate) (x : offerExchange) (s : Coll) (d : mongodbWebRTCCall) :
  sdp <> EmptyString -> Forall index_ok cands ->
  docs_ok (cl_docs s) -> cl_docs s !! oe_UUID x = Some d -> view_of d = view_after sdp cands 0 ->
  env_ok env (oe_UUID x) ->
  (forall k s' stopped, (k <= S (length cands))%nat ->
     answererLoop (respond quote errText ctxErr env x) quote (oe_UUID x) false
       (take k (conversation (oe_UUID x) sdp cands)) s = (s', stopped, None) ->
     shows (oe_UUID x) (view_after sdp cands k) s') /\
  (forall (js : list nat) (ds : list mongodbWebRTCCall),
     Sorted le js -> view_of <$> ds = (view_after sdp cands <$> js) ++ [view_done sdp cands] ->
     let '(answers, ended) := caller_loop false 0 (call_event <$> ds) in
     ended = true /\
     call_loop (oe_UUID x) false (answer_input <$> answers) =
       (CallResponse_Init (oe_UUID x) sdp :: (CallResponse_Update (oe_UUID x) <$> cands), None)).
Proof.
  intros Hsdp Hidx Hok Hd Hv Henv. split.
  - intros k s' stopped Hk. eapply loop_shows; [done| |done]. split; [done|by exists d].
  - intros js ds Hsort Hds.
    by apply (snapshots_reach_caller _ _ _ d js).
Qed.

(** While the goroutine of the offer and Call run side by side, what the
    caller's client was sent is always the beginning of the conversation. *)
Theorem call_sends_a_prefix (uuid sdp : string) (cands : list ICECandidateInit) (st : callConc) :
  rtc (conc_step uuid) (callConc_init (answers sdp cands)) st ->
  exists k, (k <= S (length cands))%nat /\ cc_sent st = responses uuid sdp cands k.
Proof.
  intros Hr. assert (exists k, conc_inv uuid sdp cands st k) as (k & Hk).
  { refine (rtc_invariant _ (fun st => exists k, conc_inv uuid sdp cands st k) _ _ _ Hr _).
    - intros st1 st2 [k Hk] Hs. by eapply conc_step_inv.
    - exists 0%nat. split; cbn; try done. lia. }
  exists k. split; [|apply Hk]. pose proof (ci_le _ _ _ _ _ Hk) as Hle. unfold answers in Hle. simpl in Hle.
  by rewrite length_fmap in Hle.
Qed.

(** But it may be a beginning only: after the goroutine handed over the last
    answer it closes [respDone], and a select that finds both ready may take
    that. Whatever the conversation, Call can return without an error and
    without its last message; an answer that is an SDP alone is lost. *)
Theorem call_may_lose_the_last_answer (uuid sdp : string) (cands : list ICECandidateInit) :
  exists st, rtc (conc_step uuid) (callConc_init (answers sdp cands)) st /\
    cc_result st = Some None /\ cc_pending st = [] /\ cc_sent st = responses uuid sdp cands (length cands).
Proof.
  (* hand over and receive all but the last *)
  assert (Hgo : forall k, (k <= length cands)%nat ->
    rtc (conc_step uuid) (callConc_init (answers sdp cands))
      (mkCallConc (drop k (answers sdp cands)) None false (bool_decide (k <> 0%nat)) (responses uuid sdp cands k) None)).
  { induction k as [|k IH]; intros Hk; [apply rtc_refl|].
    etrans; [apply IH; lia|].
    destruct (drop k (answers sdp cands)) as [|a rest] eqn:Hd.
    { apply (f_equal length) in Hd. rewrite length_drop in Hd. unfold answers in Hd. simpl in Hd.
      rewrite length_fmap in Hd. lia. }
    eapply rtc_l; [apply CSend|]. eapply rtc_l; [by eapply CReceive|].
    assert (Hrest : drop (S k) (answers sdp cands) = rest).
    { change (S k) with (1 + k)%nat. rewrite Nat.add_comm, <- drop_drop, Hd. done. }
    rewrite Hrest. pose proof (drop_answers _ _ _ _ _ Hd) as Ha. unfold conc_round.
    cbn [cc_haveInit cc_pending cc_exited cc_sent]. destruct k as [|n].
    - subst a. apply rtc_refl.
    - destruct Ha as (c & -> & Ht). cbn [bool_decide decide_rel]. rewrite !bool_decide_eq_true_2 by done.
      cbn [call_round ans_candidate app]. cbn [responses]. rewrite Ht, fmap_app. apply rtc_refl. }
  specialize (Hgo (length cands) (le_n _)).
  destruct (drop (length cands) (answers sdp cands)) as [|a rest] eqn:Hd.
  { apply (f_equal length) in Hd. rewrite length_drop in Hd. unfold answers in Hd. simpl in Hd.
    rewrite length_fmap in Hd. lia. }
  assert (rest = []) as ->.
  { apply (f_equal length) in Hd. rewrite length_drop in Hd. unfold answers in Hd. simpl in Hd.
    rewrite length_fmap in Hd. destruct rest; [done|simpl in Hd; lia]. }
  eexists. split.
  - etrans; [exact Hgo|]. eapply rtc_l; [apply CSend|]. eapply rtc_l; [apply CExit|].
    eapply rtc_l; [by apply CRespDone|]. apply rtc_refl.
  - unfold conc_round. cbn. by rewrite app_nil_r.
Qed.

(** Whatever an answerer sends, and whatever its responses give, the queue gets
    an SDP first and once, then candidates, and an error at most once and
    last. *)
Theorem answers_are_well_formed `{GrpcStatus} (result : WebRTCCallAnswer -> list WebRTCCallAnswer -> option goerror)
    (quote : string -> string) (uuid : string) (recvs : list (AnswerResponse + goerror)) :
  well_formed_answers (answererLoop (log_respond result) quote uuid false recvs []).1.1.
Proof.
  assert (Hnil : well_formed_answers []) by (exists [], [], []; split_and!; [done|by left|done|simpl; lia|done]).
  destruct recvs as [|[answer|err] recvs]; cbn [answererLoop]; [done| |done].
  case_bool_decide; cbn [negb]; [|done]. destruct (ar_Stage answer) as [s|c| |st|t]; cbn [negb]; [|done|done| |done].
  - unfold log_respond at 1. destruct (result _ _).
    + exists [ans_sdp s], [], []. split_and!; [done|right; by eexists|done|simpl; lia|done].
    + destruct (answererLoop _ _ _ _ _ _) as [[log stopped] res] eqn:E. cbn [fst].
      eapply (loop_after_init _ _ _ _ s []); [done|exact E].
  - unfold log_respond at 1. cbn [fst app]. exists [], [], [mkAnswer None None (status_Err st)].
    split_and!; [done|by left|done|simpl; lia|]. constructor; [done|done].
Qed.

(** A call or an answer is let in exactly when its metadata names between one
    and five hosts, none of them empty, and the server is for all hosts or for
    each of them. *)
Theorem hosts_accepted_exactly (md : metadata) (forHosts : gset string) (hosts : list string) :
  (HostsFromCtx md = inl hosts /\ validateHosts forHosts hosts = None) <->
  (exists m, md = Some m /\ m !! RPCHostMetadataField = Some hosts) /\
  (1 <= length hosts <= 5)%nat /\ (EmptyString ∉ hosts) /\
  (forHosts = ∅ \/ forall host, host ∈ hosts -> host ∈ forHosts).
Proof.
  assert (Hval : hosts <> [] -> validateHosts forHosts hosts = None <-> forHosts = ∅ \/ forall host, host ∈ hosts -> host ∈ forHosts).
  { intros Hne. unfold validateHosts. case_bool_decide as He; [by split; [left|]|].
    assert (Hall : hosts_allowed forHosts hosts = None <-> forall host, host ∈ hosts -> host ∈ forHosts).
    { clear. induction hosts as [|h hosts IH]; [by split; [intros _ ? ?%elem_of_nil|]|]. simpl.
      case_bool_decide as Hh; [rewrite IH; set_solver|]. split; [done|]. intros Hx. destruct Hh. apply Hx. by left. }
    destruct hosts; [done|]. rewrite Hall. tauto. }
  assert (Hempty : forall l, existsb (fun host => bool_decide (host = EmptyString)) l = false <-> EmptyString ∉ l).
  { induction l as [|h l IH]; simpl; [split; [intros _; apply not_elem_of_nil|done]|].
    rewrite orb_false_iff, IH, bool_decide_eq_false, not_elem_of_cons. naive_solver. }
  unfold HostsFromCtx. split.
  - intros [Hh Hv]. destruct (md ≫= _) as [hs|] eqn:E; [|done]. cbn [default] in Hh. unfold id in Hh.
    destruct hs as [|h hs]; [done|]. destruct (maxHostsInMetadata <? _)%nat eqn:Hm; [done|].
    destruct (existsb _ _) eqn:Hex; [done|]. simplify_eq. apply Nat.ltb_ge in Hm. unfold maxHostsInMetadata in Hm.
    split; [|split; [simpl in *; lia|split; [by apply Hempty|by apply Hval]]].
    destruct md as [m|]; [by exists m|done].
  - intros ((m & -> & Hm) & Hlen & Hne & Hfor). cbn [mbind option_bind]. rewrite Hm. cbn [default]. unfold id.
    destruct hosts as [|h hosts]; [simpl in Hlen; lia|].
    assert ((maxHostsInMetadata <? length (h :: hosts))%nat = false) as ->.
    { apply Nat.ltb_ge. unfold maxHostsInMetadata. lia. }
    rewrite (proj2 (Hempty _) Hne). split; [done|]. by apply Hval.
Qed.

Lemma concat_longer host hosts :
  host ∈ hosts -> (2 <= length hosts)%nat -> (String.length host < String.length (String.concat "," hosts))%nat.
Proof.
  assert (Hlen : forall a b, String.length (a +:+ b) = (String.length a + String.length b)%nat).
  { intros a b. induction a as [|c a IH]; [done|]. rewrite str_app_cons. simpl. by rewrite IH. }
  assert (Hle : forall h l, h ∈ l -> (String.length h <= String.length (String.concat "," l))%nat).
  { intros h l. induction l as [|x l IH]; [by intros ?%elem_of_nil|]. intros [->|Hin]%elem_of_cons.
    - simpl. destruct l; [lia|]. rewrite Hlen. lia.
    - simpl. destruct l; [by apply elem_of_nil in Hin|]. rewrite !Hlen. specialize (IH Hin). simpl in *. lia. }
  intros Hin Hl. destruct hosts as [|x [|y hosts]]; simpl in Hl; [lia|lia|].
  cbn [String.concat]. rewrite !Hlen. apply elem_of_cons in Hin as [->|Hin].
  - simpl. lia.
  - apply Hle in Hin. simpl in *. lia.
Qed.

(** The ICE servers that an Answer caches are forgotten when it ends only if
    it is for one host: they are cached under the names of all hosts together,
    and removed under each name alone. *)
Theorem ice_servers_of_several_hosts_stay (now expires : Z) (servers : list ICEServer) (hosts : list string)
    (srv : signalingServer) :
  sg_hasProvider srv = true -> hosts <> [] -> sg_hostICEServers srv !! String.concat "," hosts = None ->
  let srv' := clearAdditionalICEServers hosts (fst (additionalICEServers now (inl (servers, expires)) hosts true srv)) in
  sg_hostICEServers srv' !! String.concat "," hosts =
    if decide (length hosts = 1%nat) then None else Some (mkHostICEServers servers expires).
Proof.
  intros Hp Hne Hn srv'. unfold srv', additionalICEServers. rewrite Hp, Hn. cbn [negb fst].
  unfold clearAdditionalICEServers. cbn [sg_hostICEServers sg_set_ice].
  assert (Hdel : forall l (m : gmap string hostICEServers) k,
    foldl (fun m host => delete host m) m l !! k = if decide (k ∈ l) then None else m !! k).
  { intros l. induction l as [|h l IH]; intros m k; [done|]. simpl. rewrite IH.
    destruct (decide (k ∈ l)); [by rewrite decide_True by (by right)|].
    destruct (decide (k = h)) as [->|]; [by rewrite decide_True by left; rewrite lookup_delete_eq|].
    rewrite decide_False by (by intros [?|?]%elem_of_cons). by rewrite lookup_delete_ne. }
  rewrite Hdel, lookup_insert_eq. destruct (decide (length hosts = 1%nat)) as [H1|H1].
  - destruct hosts as [|h [|]]; [done| |done]. by rewrite decide_True by left.
  - rewrite decide_False; [done|]. intros Hin. apply concat_longer in Hin; [lia|].
    destruct hosts as [|h1 [|h2 hosts]]; [done|done|simpl; lia].
Qed.

(** A configuration that is extended has, between its own ICE servers and the
    additional ones, an empty one for each of the latter. *)
Theorem extended_config_has_empty_servers (original additional : list ICEServer) :
  extendWebRTCConfig original (Some additional)
  = original ++ replicate (length additional) zero_ICEServer ++ additional.
Proof. destruct additional; simpl; [by rewrite app_nil_r | by rewrite <- app_assoc]. Qed.

(** ** Concrete inputs *)
Section Witnesses.
Abbreviation docs := (gmap string mongodbWebRTCCall).

#[local] Instance sample_status : GrpcStatus := {|
  status_FromContextError _ := None; status_Convert _ := None; status_FromError _ := (None, false) |}.

Definition sample_exchange : offerExchange := mkOfferExchange sample_call None None 15.
Definition sample_cands : list ICECandidate := [mkICECandidate "a" None (Some 0) None; mkICECandidate "b" None None None].
(** In between, the caller adds a candidate. *)
Definition sample_env (s : docs) : docs := (fun d => mc_push_caller (sample_candidate "c") d) <$> s.

Lemma sample_env_ok : env_ok sample_env "id1".
Proof.
  intros s v [Hok (d & Hd & Hv)]. split.
  - intros id d' Hd'. change (((fun d => mc_push_caller (sample_candidate "c") d) <$> s) !! id = Some d') in Hd'.
    apply lookup_fmap_Some in Hd' as (d0 & <- & Hd0). exact (Hok id d0 Hd0).
  - exists (mc_push_caller (sample_candidate "c") d).
    change (cl_docs (sample_env s)) with ((fun d => mc_push_caller (sample_candidate "c") d) <$> s).
    change (s !! "id1"%string = Some d) in Hd. by rewrite lookup_fmap, Hd.
Qed.

Definition sample_snapshots : list mongodbWebRTCCall :=
  let d1 := mc_set_AnswererSDP "answer" sample_call in
  let d3 := mc_push_answerer (stored_candidate (mkICECandidate "b" None None None))
              (mc_push_answerer (stored_candidate (mkICECandidate "a" None (Some 0) None)) d1) in
  [sample_call; d1; d1; mc_set_AnswererDone true d3].

Lemma answer_reaches_caller_witness :
  let '(answers, ended) := caller_loop false 0 (call_event <$> sample_snapshots) in
  ended = true /\
  call_loop "id1" false (answer_input <$> answers) =
    ([CallResponse_Init "id1" "answer"; CallResponse_Update "id1" (mkICECandidate "a" None (Some 0) None);
      CallResponse_Update "id1" (mkICECandidate "b" None None None)], None).
Proof.
  destruct (answer_reaches_caller id sample_err None sample_env "answer" sample_cands sample_exchange
              ({[ "id1"%string := sample_call ]} : docs) sample_call) as [_ H].
  - discriminate.
  - unfold sample_cands. rewrite !Forall_cons. split; [by intros z [= <-]|]. split; [by intros z|by apply Forall_nil].
  - by apply map_Forall_singleton.
  - reflexivity.
  - reflexivity.
  - exact sample_env_ok.
  - apply (H [0; 1; 1]%nat sample_snapshots); [|reflexivity].
    repeat constructor.
Defined.

Lemma call_sends_a_prefix_witness :
  let st := conc_round "u" (SelResp (ans_sdp "answer")) None
              (mkCallConc [] (Some (ans_sdp "answer")) false false [] None) in
  exists k, (k <= 1)%nat /\ cc_sent st = responses "u" "answer" [] k.
Proof.
  apply (call_sends_a_prefix "u" "answer" []).
  eapply rtc_l; [apply CSend|]. eapply rtc_l; [by eapply CReceive|]. apply rtc_refl.
Defined.

Lemma ice_servers_of_several_hosts_stay_witness :
  let srv := NewWebRTCSignalingServer true [] in
  let srv' := clearAdditionalICEServers ["a"; "b"]%string
                (fst (additionalICEServers 0 (inl ([zero_ICEServer], 60)) ["a"; "b"]%string true srv)) in
  sg_hostICEServers srv' !! "a,b"%string = Some (mkHostICEServers [zero_ICEServer] 60).
Proof.
  exact (ice_servers_of_several_hosts_stay 0 60 [zero_ICEServer] ["a"; "b"]%string (NewWebRTCSignalingServer true [])
           eq_refl ltac:(discriminate) eq_refl).
Defined.
End Witnesses.
