(* ===== verification/Peer.v ===== *)
(** * Peer connections: [rpc/wrtc_peer.go] and the session descriptions of
      [rpc/wrtc_signaling.go]

    How a peer connection is set up for each side, what is sent over the
    negotiation channel, and how a session description is written as text.
    The connections themselves are pion's: what they answer is an argument
    ([PeerEnv]) or an operation of the class [PionPeer]. Base64 is the
    encoding of the Go standard library, written out. *)

From S2P Require Import Prelude GoError.
From Stdlib Require Import Ascii.
Local Open Scope Z_scope.

(** ** Base64 *)

(** [base64.StdEncoding]. *)
Definition alphabet : string := "ABCDEFGHIJKLMNOPQRSTUVWXYZabcdefghijklmnopqrstuvwxyz0123456789+/".
Definition pad : ascii := "="%char.

(** The character of a value below 64 and its inverse. *)
Definition encode_char (z : Z) : ascii := default pad (String.get (Z.to_nat z) alphabet).
Fixpoint find_char (c : ascii) (s : string) : option Z :=
  match s with
  | EmptyString => None
  | String d s' => if Ascii.ascii_dec c d then Some 0 else Z.succ <$> find_char c s'
  end.
Definition decode_char (c : ascii) : option Z := find_char c alphabet.

(** A byte as a number below 256 and back. *)
Definition byte_val (b : byte) : Z := Z.of_N (Byte.to_N b).
Definition val_byte (z : Z) : byte := default Byte.x00 (Byte.of_N (Z.to_N (z mod 256))).

(** [EncodeToString]: groups of three bytes, the last one padded. *)
Fixpoint base64_encode (src : bytes) : list ascii :=
  let sextet v k := encode_char (v / 64 ^ k mod 64) in
  match src with
  | [] => []
  | [b0] =>
      let val := byte_val b0 * 2 ^ 16 in
      [sextet val 3; sextet val 2; pad; pad]
  | [b0; b1] =>
      let val := byte_val b0 * 2 ^ 16 + byte_val b1 * 2 ^ 8 in
      [sextet val 3; sextet val 2; sextet val 1; pad]
  | b0 :: b1 :: b2 :: src' =>
      let val := byte_val b0 * 2 ^ 16 + byte_val b1 * 2 ^ 8 + byte_val b2 in
      sextet val 3 :: sextet val 2 :: sextet val 1 :: sextet val 0 :: base64_encode src'
  end.

(** [DecodeString] on the text without its line breaks, which it skips. *)
Definition CorruptInputError : goerror := ENew "illegal base64 data".
Fixpoint decode_quanta (src : list ascii) : bytes + goerror :=
  match src with
  | [] => inl []
  | c0 :: c1 :: c2 :: c3 :: src' =>
      match decode_char c0, decode_char c1 with
      | Some v0, Some v1 =>
          if bool_decide (c2 = pad) then
            if bool_decide (c3 = pad) && bool_decide (src' = []) then inl [val_byte ((v0 * 64 + v1) / 2 ^ 4)]
            else inr CorruptInputError
          else
            match decode_char c2 with
            | None => inr CorruptInputError
            | Some v2 =>
                let val := (v0 * 64 + v1) * 64 + v2 in
                if bool_decide (c3 = pad) then
                  if bool_decide (src' = []) then inl [val_byte (val / 2 ^ 10); val_byte (val / 2 ^ 2)]
                  else inr CorruptInputError
                else
                  match decode_char c3, decode_quanta src' with
                  | Some v3, inl rest =>
                      let val := val * 64 + v3 in
                      inl (val_byte (val / 2 ^ 16) :: val_byte (val / 2 ^ 8) :: val_byte val :: rest)
                  | _, _ => inr CorruptInputError
                  end
            end
      | _, _ => inr CorruptInputError
      end
  | _ => inr CorruptInputError
  end.
Definition is_newline (c : ascii) : Prop := c = "010"%char \/ c = "013"%char.
#[export] Instance is_newline_dec c : Decision (is_newline c).
Proof. unfold is_newline. apply _. Defined.
Definition base64_decode (s : list ascii) : bytes + goerror :=
  decode_quanta (filter (fun c => ~ is_newline c) s).

(** ** Session descriptions as text *)

(** What encoding/json makes of pion's session descriptions, whose methods
    write and read them. *)
Class SDPJson (SD : Type) := {
  json_Marshal : SD -> bytes + goerror;
  json_Unmarshal : bytes -> SD + goerror;
}.
(** What was written is read back. *)
Class SDPJsonLaws (SD : Type) `{SDPJson SD} := {
  json_roundtrip (sdp : SD) b : json_Marshal sdp = inl b -> json_Unmarshal b = inl sdp;
}.

Definition EncodeSDP {SD} `{SDPJson SD} (sdp : SD) : string + goerror :=
  match json_Marshal sdp with
  | inr err => inr err
  | inl b => inl (String.string_of_list_ascii (base64_encode b))
  end.

Definition DecodeSDP {SD} `{SDPJson SD} (s : string) : SD + goerror :=
  match base64_decode (String.list_ascii_of_string s) with
  | inr err => inr err
  | inl b => json_Unmarshal b
  end.

(** ** Setting up a peer connection *)

(** The calls of pion's API that can fail, or that matter for what follows. *)
Inductive peerOp :=
  | OpRegisterDefaultCodecs
  | OpRegisterDefaultInterceptors
  | OpNewPeerConnection
  | OpCreateDataChannel (label : string) (id : Z) (negotiated ordered : bool)
  | OpDecodeSDP
  | OpSetRemoteDescription
  | OpCreateOffer
  | OpCreateAnswer
  | OpSetLocalDescription
  | OpGatherComplete      (* the error is the context's, if that comes first *)
  | OpGracefulClose.

#[export] Instance peerOp_eq_dec : EqDecision peerOp.
Proof. solve_decision. Defined.

(** What the calls answer. *)
Abbreviation PeerEnv := (peerOp -> option goerror).

(** The calls made so far, and how it ended: an error stops the function. *)
Definition setup : Type := list peerOp * option goerror.

Fixpoint run_setup (env : PeerEnv) (ops : list peerOp) : setup :=
  match ops with
  | [] => ([], None)
  | op :: ops' =>
      match env op with
      | Some err => ([op], Some err)
      | None => let '(done, res) := run_setup env ops' in (op :: done, res)
      end
  end.

(** [newWebRTCAPI], as far as it can fail. *)
Definition newWebRTCAPI : list peerOp := [OpRegisterDefaultCodecs; OpRegisterDefaultInterceptors].

(** The IP filter of the settings. [To4] of a 4-byte address is itself, of a
    16-byte address its end, if it is an IPv4 address in IPv6 form. *)
Definition To4 (ip : bytes) : option bytes :=
  if bool_decide (length ip = 4%nat) then Some ip
  else if bool_decide (length ip = 16%nat /\ take 12 ip = replicate 10 Byte.x00 ++ [Byte.xff; Byte.xff])
  then Some (drop 12 ip) else None.
Definition ip_filter (ip : bytes) : bool :=
  bool_decide (len (default [] (To4 ip)) = 4)%go.

(** [ConfigureForRenegotiation] and the "data" channel of both sides. *)
Definition negotiation_channel : peerOp := OpCreateDataChannel "negotiation" 1 true true.
Definition data_channel : peerOp := OpCreateDataChannel "data" 0 true true.

(** A set-up that closes the connection it has made when it fails later: the
    deferred function of both. *)
Definition with_connection (env : PeerEnv) (ops : list peerOp) : setup :=
  match run_setup env (newWebRTCAPI ++ [OpNewPeerConnection]) with
  | (done, Some err) => (done, Some err)
  | (done, None) =>
      match run_setup env ops with
      | (more, Some err) => (done ++ more ++ [OpGracefulClose], Some err)
      | (more, None) => (done ++ more, None)
      end
  end.

(** [newPeerConnectionForClient]. *)
Definition newPeerConnectionForClient (env : PeerEnv) (disableTrickle : bool) : setup :=
  with_connection env
    ([negotiation_channel; data_channel] ++
     if disableTrickle then [OpCreateOffer; OpSetLocalDescription; OpGatherComplete] else []).

(** [newPeerConnectionForServer]. *)
Definition newPeerConnectionForServer (env : PeerEnv) (disableTrickle : bool) : setup :=
  with_connection env
    ([negotiation_channel; data_channel; OpDecodeSDP; OpSetRemoteDescription] ++
     if disableTrickle then [OpCreateAnswer; OpSetLocalDescription; OpGatherComplete] else []).

(** [initialDataChannelOnError]: whether the connection is closed. *)
Definition initialDataChannelOnError `{Multierr goerror} (err : goerror) : bool :=
  negb (errors_Is err ErrSctpResetPacketInStateNotExist || isUserInitiatedAbortChunkErr (Some err)).

(** ** Renegotiation *)

(** The state [P] of a pion peer connection, with the calls of the negotiation
    channel's callbacks; a call that fails may have changed it. *)
Class PionPeer (P SD : Type) := {
  CreateOffer : P -> SD + goerror;
  CreateAnswer : P -> SD + goerror;
  SetLocalDescription : SD -> P -> P * option goerror;
  SetRemoteDescription : SD -> P -> P * option goerror;
  LocalDescription : P -> SD;
  RemoteDescription : P -> option SD;
  isOffer : SD -> bool;    (* description.Type == SDPTypeOffer *)
}.

(** Offers are offers and answers are not; a description that was set is the
    local or remote one, where the local one may have gained candidates; and
    setting one side leaves the other alone. *)
Class PionPeerLaws (P SD : Type) `{PionPeer P SD} := {
  CreateOffer_type p sd : CreateOffer p = inl sd -> isOffer sd = true;
  CreateAnswer_type p sd : CreateAnswer p = inl sd -> isOffer sd = false;
  SetLocal_type sd p p' : SetLocalDescription sd p = (p', None) -> isOffer (LocalDescription p') = isOffer sd;
  SetLocal_remote sd p p' : SetLocalDescription sd p = (p', None) -> RemoteDescription p' = RemoteDescription p;
  SetRemote_set sd p p' : SetRemoteDescription sd p = (p', None) -> RemoteDescription p' = Some sd;
  SetRemote_local sd p p' : SetRemoteDescription sd p = (p', None) -> LocalDescription p' = LocalDescription p;
}.

(** [PeerRole]. *)
Inductive PeerRole := PeerRoleClient | PeerRoleServer.

Section Renegotiation.
Context {P SD : Type} `{PionPeer P SD} `{SDPJson SD}.
(** Whether the text can be sent over the channel. *)
Context (SendText : string -> option goerror).

(** Set a description as the local one and send it, as both callbacks do. *)
Definition send_local (sd : SD + goerror) (p : P) : P * option string :=
  match sd with
  | inr _ => (p, None)
  | inl sd =>
      match SetLocalDescription sd p with
      | (p', Some _) => (p', None)
      | (p', None) =>
          match EncodeSDP (LocalDescription p') with
          | inr _ => (p', None)
          | inl text => (p', if SendText text is Some _ then None else Some text)
          end
      end
  end.

(** The callback of OnNegotiationNeeded, which only a server has; [opened] is
    whether [negOpened] is closed. The peer and what it sent. *)
Definition OnNegotiationNeeded (role : PeerRole) (opened : bool) (p : P) : P * option string :=
  match role with
  | PeerRoleClient => (p, None)
  | PeerRoleServer => if opened then send_local (CreateOffer p) p else (p, None)
  end.

(** The callback of the channel's OnMessage. *)
Definition OnMessage (text : string) (p : P) : P * option string :=
  match DecodeSDP text with
  | inr _ => (p, None)
  | inl description =>
      match SetRemoteDescription description p with
      | (p', Some _) => (p', None)
      | (p', None) => if isOffer description then send_local (CreateAnswer p') p' else (p', None)
      end
  end.

(** The messages of the channel between a server and a client are delivered in
    turn until there is none. *)
Fixpoint exchange (fuel : nat) (to_client : bool) (text : option string) (server client : P) : P * P * option string :=
  match fuel, text with
  | O, _ | _, None => (server, client, text)
  | S fuel', Some t =>
      if to_client then let '(client', reply) := OnMessage t client in exchange fuel' false reply server client'
      else let '(server', reply) := OnMessage t server in exchange fuel' true reply server' client
  end.
End Renegotiation.

(** ** Statistics *)

(** [iceCandidate] and the entries of a report that are used; [kind] is the
    candidate's type as pion writes it. *)
Record iceCandidate := mkIceCandidate { cd_FoundAt : Z; cd_CandType : string; cd_IP : string }.
Inductive candKind := KindRelay | KindPrflx | KindSrflx | KindHost | KindOther.
Inductive statEntry :=
  | PeerConnectionStats (id : string)
  | ICECandidateStats (remote : option bool) (kind : candKind) (timestamp : Z) (ip : string)
      (* Some true: remote, Some false: local, None: another type *)
  | OtherStats.

#[export] Instance candKind_eq_dec : EqDecision candKind.
Proof. solve_decision. Defined.

Definition candType (k : candKind) : string :=
  match k with
  | KindRelay => "relay" | KindPrflx => "peer-reflexive" | KindSrflx => "server-reflexive" | KindHost => "host"
  | KindOther => EmptyString
  end.

(** [webrtcPeerConnectionStats]. *)
Record webrtcPeerConnectionStats := mkStats {
  st_ID : string; st_LocalCandidates : list iceCandidate; st_RemoteCandidates : list iceCandidate
}.

(** One round of the loop of [getWebRTCPeerConnectionStats], and the loop over
    the report in the order in which the map gives it. *)
Definition stat_round (s : webrtcPeerConnectionStats) (e : statEntry) : webrtcPeerConnectionStats :=
  match e with
  | PeerConnectionStats id => mkStats id (st_LocalCandidates s) (st_RemoteCandidates s)
  | ICECandidateStats (Some remote) kind ts ip =>
      if bool_decide (candType kind = EmptyString) then s
      else
        let cand := mkIceCandidate ts (candType kind) ip in
        if remote then mkStats (st_ID s) (st_LocalCandidates s) (st_RemoteCandidates s ++ [cand])
        else mkStats (st_ID s) (st_LocalCandidates s ++ [cand]) (st_RemoteCandidates s)
  | ICECandidateStats None _ _ _ | OtherStats => s
  end.
Definition getWebRTCPeerConnectionStats (stats : list statEntry) : webrtcPeerConnectionStats :=
  foldl stat_round (mkStats EmptyString [] []) stats.

(** [webrtcPeerConnCandPair]: the pair that the transport, if there is one all
    the way down, has selected; nil without an error after a shutdown. *)
Definition webrtcPeerConnCandPair {Pair : Type} (connected : bool)
    (transport : option (option (option (option Pair * option goerror)))) : option Pair :=
  if connected then
    match transport with
    | Some (Some (Some (Some candPair, None))) => Some candPair
    | _ => None
    end
  else None.

(** ** Base64 lemmas *)

Lemma sextets_invertible : forallb (fun n => bool_decide (decode_char (encode_char (Z.of_nat n)) = Some (Z.of_nat n))
  && negb (bool_decide (encode_char (Z.of_nat n) = pad)) && negb (bool_decide (is_newline (encode_char (Z.of_nat n)))))
  (seq 0 64) = true.
Proof. vm_compute. reflexivity. Qed.

Lemma sextet_ok z : 0 <= z < 64 ->
  decode_char (encode_char z) = Some z /\ encode_char z <> pad /\ ~ is_newline (encode_char z).
Proof.
  intros Hz. pose proof sextets_invertible as Hall. rewrite forallb_forall in Hall.
  specialize (Hall (Z.to_nat z)). rewrite Z2Nat.id in Hall by lia.
  assert (In (Z.to_nat z) (seq 0 64)) as Hin by (apply in_seq; lia). apply Hall in Hin. breflect.
  by split_and!.
Qed.

Lemma byte_val_range b : 0 <= byte_val b < 256.
Proof. unfold byte_val. pose proof (Byte.to_N_bounded b). lia. Qed.

Lemma val_byte_val b z : z mod 256 = byte_val b -> val_byte z = b.
Proof. intros Hz. unfold val_byte. rewrite Hz. unfold byte_val. by rewrite N2Z.id, Byte.of_to_N. Qed.

Lemma pad_no_newline : ~ is_newline pad.
Proof. by intros [?|?]. Qed.

Lemma mod64_range z : 0 <= z mod 64 < 64.
Proof. apply Z.mod_pos_bound. lia. Qed.

(** Groups of three bytes. *)
Lemma bytes_ind3 (Q : bytes -> Prop) :
  Q [] -> (forall a, Q [a]) -> (forall a b, Q [a; b]) -> (forall a b c l, Q l -> Q (a :: b :: c :: l)) -> forall l, Q l.
Proof.
  intros H0 H1 H2 H3. fix IH 1. intros [|a [|b [|c l]]]; [exact H0|apply H1|apply H2|]. apply H3, IH.
Qed.

(** What is encoded consists of characters of the alphabet and padding. *)
Lemma encode_chars b : Forall (fun c => is_Some (decode_char c) \/ c = pad) (base64_encode b).
Proof.
  induction b as [|b0|b0 b1|b0 b1 b2 b IH] using bytes_ind3; cbn [base64_encode];
    repeat (apply Forall_cons; split; [first [by right | left; eexists; apply sextet_ok, mod64_range]|]); try done.
Qed.
Lemma encode_no_newline b : Forall (fun c => ~ is_newline c) (base64_encode b).
Proof.
  eapply Forall_impl; [apply encode_chars|]. intros c Hc [-> | ->]; destruct Hc as [[z Hz]|Hz]; vm_compute in Hz; discriminate.
Qed.

Ltac sextets :=
  repeat match goal with
  | |- context [decode_char (encode_char ?z)] =>
      rewrite (proj1 (sextet_ok z ltac:(apply mod64_range)))
  | |- context [bool_decide (encode_char ?z = pad)] =>
      rewrite (bool_decide_eq_false_2 (encode_char z = pad)) by (apply sextet_ok, mod64_range)
  end.

Lemma decode_encode_quanta b : decode_quanta (base64_encode b) = inl b.
Proof.
  induction b as [|b0|b0 b1|b0 b1 b2 b IH] using bytes_ind3; [done|..];
    cbn [base64_encode decode_quanta]; cbv zeta; sextets.
  - rewrite bool_decide_eq_true_2 by done. cbn [andb]. rewrite bool_decide_eq_true_2 by done.
    do 2 f_equal. apply val_byte_val. pose proof (byte_val_range b0).
    change (64 ^ 3) with 262144. change (64 ^ 2) with 4096. change (2 ^ 16) with 65536. change (2 ^ 4) with 16.
    Z.to_euclidean_division_equations. lia.
  - rewrite !bool_decide_eq_true_2 by done. pose proof (byte_val_range b0). pose proof (byte_val_range b1).
    change (64 ^ 3) with 262144. change (64 ^ 2) with 4096. change (64 ^ 1) with 64.
    change (2 ^ 16) with 65536. change (2 ^ 8) with 256. change (2 ^ 10) with 1024. change (2 ^ 2) with 4.
    f_equal. f_equal; [|f_equal]; apply val_byte_val; Z.to_euclidean_division_equations; lia.
  - rewrite IH. pose proof (byte_val_range b0). pose proof (byte_val_range b1). pose proof (byte_val_range b2).
    change (64 ^ 3) with 262144. change (64 ^ 2) with 4096. change (64 ^ 1) with 64. change (64 ^ 0) with 1.
    change (2 ^ 16) with 65536. change (2 ^ 8) with 256.
    f_equal. f_equal; [|f_equal; [|f_equal]]; apply val_byte_val; Z.to_euclidean_division_equations; lia.
Qed.

(** ** Properties *)

(** Base64 of the Go library as used for session descriptions: whatever bytes
    are encoded, decoding gives them back, also when the text was broken into
    lines on its way. *)
Theorem base64_roundtrip (b : bytes) (s : list ascii) :
  filter (fun c => ~ is_newline c) s = base64_encode b -> base64_decode s = inl b.
Proof. intros Hs. unfold base64_decode. rewrite Hs. apply decode_encode_quanta. Qed.

Lemma filter_all {A} (P : A -> Prop) `{forall x, Decision (P x)} l : Forall P l -> filter P l = l.
Proof. induction 1 as [|x l Hx Hl IH]; [done|]. rewrite filter_cons_True by done. by rewrite IH. Qed.

Section SDP.
Context {SD : Type} `{SDPJsonLaws SD}.

Lemma decode_encode_sdp (sdp : SD) text : EncodeSDP sdp = inl text -> DecodeSDP text = inl sdp.
Proof.
  unfold EncodeSDP, DecodeSDP. destruct (json_Marshal sdp) as [b|err] eqn:E; [|done]. intros [= <-].
  rewrite String.list_ascii_of_string_of_list_ascii. unfold base64_decode.
  rewrite filter_all by apply encode_no_newline. rewrite decode_encode_quanta. by apply json_roundtrip.
Qed.
End SDP.

(** A session description that was encoded is decoded to itself. *)
Theorem sdp_roundtrip {SD : Type} `{SDPJsonLaws SD} (sdp : SD) (text : string) :
  EncodeSDP sdp = inl text -> DecodeSDP text = inl sdp.
Proof. apply decode_encode_sdp. Qed.

Section RenegotiationProofs.
Context {P SD : Type} `{PionPeerLaws P SD} `{SDPJsonLaws SD} (SendText : string -> option goerror).
Implicit Types (p : P) (sd : SD).

(** What [send_local] sent: the local description, of the type asked for. *)
Lemma send_local_inv sd p p' text :
  send_local SendText (inl sd) p = (p', Some text) ->
  DecodeSDP text = inl (LocalDescription p') /\ isOffer (LocalDescription p') = isOffer sd /\
  RemoteDescription p' = RemoteDescription p.
Proof.
  simpl. destruct (SetLocalDescription sd p) as [p1 [err|]] eqn:Hl; [done|].
  destruct (EncodeSDP (LocalDescription p1)) as [t|err] eqn:He; [|done].
  destruct (SendText t); [done|]. intros [= <- <-]. split_and!.
  - by apply decode_encode_sdp.
  - by eapply SetLocal_type.
  - by eapply SetLocal_remote.
Qed.

(** A reply is an answer to an offer, which was taken over. *)
Lemma OnMessage_reply p p' text reply :
  OnMessage SendText text p = (p', Some reply) ->
  exists sd, DecodeSDP text = inl sd /\ isOffer sd = true /\ RemoteDescription p' = Some sd /\
    DecodeSDP reply = inl (LocalDescription p') /\ isOffer (LocalDescription p') = false.
Proof.
  unfold OnMessage. destruct (DecodeSDP text) as [sd|]; [|done].
  destruct (SetRemoteDescription sd p) as [p1 [err|]] eqn:Hr; [done|].
  destruct (isOffer sd) eqn:Ho; [|done]. destruct (CreateAnswer p1) as [ans|err] eqn:Ha; [|done].
  intros Hs%send_local_inv. destruct Hs as (Hd & Ht & Hrem). exists sd. split_and!; try done.
  - rewrite Hrem. by eapply SetRemote_set.
  - rewrite Ht. by eapply CreateAnswer_type.
Qed.

(** An answer gets no reply; if it was accepted it is the remote side. *)
Lemma OnMessage_answer p p' text reply sd :
  DecodeSDP text = inl sd -> isOffer sd = false -> OnMessage SendText text p = (p', reply) ->
  reply = None /\
  (snd (SetRemoteDescription sd p) = None -> RemoteDescription p' = Some sd /\ LocalDescription p' = LocalDescription p).
Proof.
  intros Hd Ho. unfold OnMessage. rewrite Hd. destruct (SetRemoteDescription sd p) as [p1 [err|]] eqn:Hr.
  - intros [= <- <-]. by split.
  - rewrite Ho. intros [= <- <-]. split; [done|]. intros _.
    split; [by eapply SetRemote_set|by eapply SetRemote_local].
Qed.
End RenegotiationProofs.

(** C26: A server that must renegotiate offers its new description; the client's
    answer ends the exchange, since an answer gets no reply: two messages, and
    no further ones whatever fails. When the client answered and the server
    could set what it answered, each side's remote description is the local
    one of the other. *)
Theorem renegotiation_reaches_agreement {P SD : Type} `{PionPeerLaws P SD} `{SDPJsonLaws SD}
    (SendText : string -> option goerror) (opened : bool) (server server1 client : P) (offer : option string) :
  OnNegotiationNeeded SendText PeerRoleServer opened server = (server1, offer) ->
  (forall n, exists server' client', exchange SendText (2 + n) true offer server1 client = (server', client', None)) /\
  (forall text reply client2, offer = Some text -> OnMessage SendText text client = (client2, Some reply) ->
     exists answer, DecodeSDP reply = inl answer /\
       (snd (SetRemoteDescription answer server1) = None ->
        exists server2, exchange SendText 2 true offer server1 client = (server2, client2, None) /\
          RemoteDescription client2 = Some (LocalDescription server2) /\
          RemoteDescription server2 = Some (LocalDescription client2))).
Proof.
  intros Hn. split.
  - intros n. destruct offer as [text|]; [|by eexists _, _]. simpl.
    destruct (OnMessage SendText text client) as [client2 [reply|]] eqn:Hc; [|by destruct n; eexists _, _].
    destruct (OnMessage_reply _ _ _ _ _ Hc) as (sd & _ & _ & _ & Hd & Ho).
    destruct (OnMessage SendText reply server1) as [server2 r] eqn:Hs.
    destruct (OnMessage_answer _ _ _ _ _ _ Hd Ho Hs) as [-> _]. by destruct n; eexists _, _.
  - intros text reply client2 -> Hc. simpl in Hn. destruct opened; [|done].
    destruct (CreateOffer server) as [sd0|] eqn:Hoff; [|done].
    apply send_local_inv in Hn as (Hdec & Hty & _).
    destruct (OnMessage_reply _ _ _ _ _ Hc) as (sd & Hsd & _ & Hrem & Hd & Ho).
    exists (LocalDescription client2). split; [done|]. intros Hok.
    destruct (OnMessage SendText reply server1) as [server2 r] eqn:Hs.
    destruct (OnMessage_answer _ _ _ _ _ _ Hd Ho Hs) as [-> Hset]. destruct (Hset Hok) as [Hr Hl].
    exists server2. simpl. rewrite Hc, Hs. split; [done|]. split; [|done].
    rewrite Hrem, Hl. congruence.
Qed.

(** ** Set-up *)

Definition closes (done : list peerOp) : nat := length (filter (fun op => op = OpGracefulClose) done).
Definition made (env : PeerEnv) (done : list peerOp) : Prop := OpNewPeerConnection ∈ done /\ env OpNewPeerConnection = None.

Lemma run_setup_spec env ops :
  (OpGracefulClose ∉ ops) ->
  let '(done, res) := run_setup env ops in
  closes done = 0%nat /\ done `prefix_of` ops /\ (res = None -> done = ops) /\
  (is_Some res <-> exists op, op ∈ ops /\ is_Some (env op)).
Proof.
  unfold closes. induction ops as [|op ops IH]; intros Hn; [split_and!; try done; split; [by intros []|by intros (?&?%elem_of_nil&_)]|].
  apply not_elem_of_cons in Hn as [Hop Hn]. cbn [run_setup]. destruct (env op) as [err|] eqn:He.
  - rewrite filter_cons_False by done. split_and!; [done|by apply prefix_cons, prefix_nil|done|].
    split; [|done]. intros _. exists op. split; [by left|by eexists].
  - destruct (run_setup env ops) as [done res]. destruct IH as (Hc & Hp & Hd & Hr); [done|].
    rewrite filter_cons_False by done. split_and!; [done|by apply prefix_cons|intros ?; by rewrite Hd|].
    rewrite Hr. split; intros (o & Hin & Ho).
    + exists o. split; [by right|done].
    + apply elem_of_cons in Hin as [->|Hin]; [rewrite He in Ho; by destruct Ho|by exists o].
Qed.

(** A function that makes a connection closes it again exactly when it fails
    after it was made. *)
Lemma with_connection_closes env ops :
  (OpGracefulClose ∉ ops) ->
  let '(done, res) := with_connection env ops in
  (closes done = 1%nat <-> is_Some res /\ made env done) /\ (closes done <= 1)%nat.
Proof.
  intros Hn. unfold with_connection, newWebRTCAPI, made. simpl run_setup.
  assert (Hmade : forall done, OpNewPeerConnection ∈ [OpRegisterDefaultCodecs; OpRegisterDefaultInterceptors; OpNewPeerConnection] ++ done) by (intros; set_solver).
  destruct (env OpRegisterDefaultCodecs); [split; [split; [done|set_solver]|vm_compute; lia]|].
  destruct (env OpRegisterDefaultInterceptors); [split; [split; [done|set_solver]|vm_compute; lia]|].
  destruct (env OpNewPeerConnection) eqn:He; [split; [split; [done|by intros (_ & _ & [=])]|vm_compute; lia]|].
  pose proof (run_setup_spec env ops Hn) as Hs. destruct (run_setup env ops) as [more [err|]].
  - destruct Hs as (Hc & _). unfold closes in *. rewrite !filter_app, !length_app, Hc. simpl.
    split; [|lia]. split; [|done]. intros _. split; [by eexists|]. split; [apply Hmade|done].
  - destruct Hs as (Hc & _). unfold closes in *. rewrite filter_app, length_app, Hc. simpl.
    split; [|lia]. by split; [|intros [[] _]].
Qed.

(** Both set-ups close the connection that they made exactly when they fail
    afterwards, once; when they succeed they have made the negotiation channel
    with identifier 1 and the data channel with identifier 0, so that the two
    sides agree on both, and the server has taken over the offer before it
    answers. *)
Theorem peer_setup_is_clean (env : PeerEnv) (disableTrickle : bool) (role : PeerRole) :
  let '(done, res) := match role with
    | PeerRoleClient => newPeerConnectionForClient env disableTrickle
    | PeerRoleServer => newPeerConnectionForServer env disableTrickle end in
  (closes done = 1%nat <-> is_Some res /\ made env done) /\ (closes done <= 1)%nat /\
  (res = None -> [negotiation_channel; data_channel] `sublist_of` done /\
     (role = PeerRoleServer -> disableTrickle = true ->
        [OpSetRemoteDescription; OpCreateAnswer; OpSetLocalDescription; OpGatherComplete] `sublist_of` done)).
Proof.
  assert (Hok : forall ops done, with_connection env ops = (done, None) -> done = newWebRTCAPI ++ [OpNewPeerConnection] ++ ops).
  { intros ops done. unfold with_connection, newWebRTCAPI. simpl run_setup.
    destruct (env OpRegisterDefaultCodecs), (env OpRegisterDefaultInterceptors), (env OpNewPeerConnection); try done.
    destruct (run_setup env ops) as [more [|]] eqn:E; [done|].
    assert (Hg : forall l m, run_setup env l = (m, None) -> m = l).
    { intros l. induction l as [|o l IH]; simpl; intros m; [by intros [= <-]|].
      destruct (env o); [done|]. destruct (run_setup env l) as [d r]. intros [= <- ->]. by rewrite (IH d). }
    apply Hg in E as ->. by intros [= <-]. }
  destruct role.
  - unfold newPeerConnectionForClient. match goal with |- context [with_connection env ?ops] => set (os := ops) end.
    pose proof (with_connection_closes env os) as Hc. destruct (with_connection env os) as [done res] eqn:E.
    destruct Hc as [Hc1 Hc2]; [unfold os; destruct disableTrickle; set_solver|]. split; [done|split; [done|]].
    intros ->. rewrite (Hok os done E). split; [|done]. unfold os.
    by apply sublist_inserts_l, sublist_inserts_l, sublist_inserts_r.
  - unfold newPeerConnectionForServer. match goal with |- context [with_connection env ?ops] => set (os := ops) end.
    pose proof (with_connection_closes env os) as Hc. destruct (with_connection env os) as [done res] eqn:E.
    destruct Hc as [Hc1 Hc2]; [unfold os; destruct disableTrickle; set_solver|]. split; [done|split; [done|]].
    intros ->. rewrite (Hok os done E). unfold os. split.
    + apply sublist_inserts_l, sublist_inserts_l, sublist_inserts_r.
      apply sublist_skip, sublist_skip, sublist_nil_l.
    + intros _ ->. by apply sublist_inserts_l, sublist_inserts_l, (sublist_inserts_l [negotiation_channel; data_channel; OpDecodeSDP]).
Qed.

(** The candidates of a report, each side in the report's order, are those of a
    known type, whatever the map's order of the other entries. *)
Lemma stats_by_side (stats : list statEntry) :
  let side remote := omap (fun e => match e with
    | ICECandidateStats (Some r) kind ts ip =>
        if bool_decide (r = remote /\ kind <> KindOther) then Some (mkIceCandidate ts (candType kind) ip) else None
    | _ => None end) stats in
  st_LocalCandidates (getWebRTCPeerConnectionStats stats) = side false /\
  st_RemoteCandidates (getWebRTCPeerConnectionStats stats) = side true.
Proof.
  cbv zeta. unfold getWebRTCPeerConnectionStats.
  assert (Hgen : forall s, let f := fun remote => omap (fun e => match e with
    | ICECandidateStats (Some r) kind ts ip =>
        if bool_decide (r = remote /\ kind <> KindOther) then Some (mkIceCandidate ts (candType kind) ip) else None
    | _ => None end) stats in
    st_LocalCandidates (foldl stat_round s stats) = st_LocalCandidates s ++ f false /\
    st_RemoteCandidates (foldl stat_round s stats) = st_RemoteCandidates s ++ f true); [|exact (Hgen (mkStats _ [] []))].
  cbv zeta. induction stats as [|e stats IH]; intros s; [by rewrite !app_nil_r|].
  simpl. destruct (IH (stat_round s e)) as [-> ->].
  destruct e as [id|[[|]|] [] ts ip|]; simpl; rewrite <- ?app_assoc; done.
Qed.

(** ** Concrete inputs *)
Section Witnesses.
(** A peer with descriptions that say what they are. *)
#[local] Instance sample_json : SDPJson (bool * bytes) := {|
  json_Marshal (sd : bool * bytes) := inl ((if sd.1 then Byte.x01 else Byte.x00) :: sd.2);
  json_Unmarshal b := match b with Byte.x01 :: b' => inl (true, b') | _ :: b' => inl (false, b') | [] => inr (ENew "empty") end

|}.
#[local] Instance sample_json_laws : SDPJsonLaws (bool * bytes).
Proof. constructor. by intros [[] b] ? [= <-]. Qed.

Record samplePeer := mkSamplePeer { sp_local : bool * bytes; sp_remote : option (bool * bytes) }.
#[local] Instance sample_peer : PionPeer samplePeer (bool * bytes) := {|
  CreateOffer (_ : samplePeer) := inl (true, [Byte.x05]);
  CreateAnswer (_ : samplePeer) := inl (false, [Byte.x06]);
  SetLocalDescription sd p := (mkSamplePeer sd (sp_remote p), None);
  SetRemoteDescription sd p := (mkSamplePeer (sp_local p) (Some sd), None);
  LocalDescription := sp_local;
  RemoteDescription := sp_remote;
  isOffer := fst;
|}.
#[local] Instance sample_peer_laws : PionPeerLaws samplePeer (bool * bytes).
Proof. constructor; cbn; intros; by simplify_eq/=. Qed.

Lemma base64_roundtrip_witness :
  base64_decode ["A"; "Q"; "010"; "I"; "="]%char = inl [Byte.x01; Byte.x02].
Proof. apply (base64_roundtrip [Byte.x01; Byte.x02] ["A"; "Q"; "010"; "I"; "="]%char). reflexivity. Defined.

Lemma sdp_roundtrip_witness : DecodeSDP "AQU=" = inl (true, [Byte.x05]).
Proof. apply (sdp_roundtrip (true, [Byte.x05])). reflexivity. Defined.

Lemma renegotiation_reaches_agreement_witness :
  let start := mkSamplePeer (false, []) None in
  exists server2 client2, exchange (fun _ => None) 2 true (Some "AQU=") (mkSamplePeer (true, [Byte.x05]) None) start
      = (server2, client2, None) /\
    sp_remote client2 = Some (sp_local server2) /\ sp_remote server2 = Some (sp_local client2).
Proof.
  destruct (renegotiation_reaches_agreement (fun _ => None) true (mkSamplePeer (false, []) None)
              (mkSamplePeer (true, [Byte.x05]) None) (mkSamplePeer (false, []) None) (Some "AQU=")) as [_ H].
  - reflexivity.
  - destruct (H "AQU=" "AAY=" (mkSamplePeer (false, [Byte.x06]) (Some (true, [Byte.x05])))) as (ans & Hans & Hgo);
      [reflexivity|reflexivity|].
    destruct Hgo as (server2 & H1 & H2 & H3); [reflexivity|]. exists server2, (mkSamplePeer (false, [Byte.x06]) (Some (true, [Byte.x05]))).
    split; [exact H1|]. split; [exact H2|exact H3].
Defined.
End Witnesses.
