(* ===== verification/Answerer.v ===== *)
(** * The signaling answerer: [rpc/wrtc_signaling_answerer.go]

    The life cycle of an answerer (Start, its workers, Stop) and one attempt to
    answer a caller. Both are run by several goroutines: a step relation says
    what each may do next, cut at the locks, channels, contexts and sends of
    the code. What the signaling server, pion and the clock do is chosen by the
    step. *)

From S2P Require Import Prelude GoError CallQueueMongo SignalingServer.

(** [checkExceptionalError]. *)
Definition status_Message (s : status) : string := match s with Some (_, msg) => msg | None => EmptyString end.
Definition checkExceptionalError `{Multierr goerror, GrpcStatus} (err : option goerror) : option goerror :=
  let '(s, isGRPCErr) := status_FromError err in
  match err with
  | None => None
  | Some e =>
      if errors_Is e EOF
         || (if FilterOutError filter_fuel err (Some (EIs Canceled)) is Some None then true else false)
         || (isGRPCErr &&
             (bool_decide (status_Code s = CodeDeadlineExceeded) || bool_decide (status_Code s = CodeCanceled)
              || str_contains (status_Message s) "too_many_pings"
              || str_contains (status_Message s) "upstream max stream duration reached"))
      then None else err
  end.

(** ** Life cycle *)

Definition defaultMaxAnswerers : nat := 2.

(** Where the goroutine of Start is: at the top of its loop, in Dial, waiting
    to dial again, starting its [i]th worker. *)
Inductive connectorPc := KTop | KDialing | KWait | KSpawn (i : nat).

(** Where a worker of startAnswerer is: at the top of its loop, opening a
    stream, waiting for a caller, connecting to it, waiting to go on. *)
Inductive workerPc := WTop | WOpening | WReceiving | WConnecting | WWaiting.

(** Its [client], which its deferred function closes for sending. *)
Record worker := mkWorker { w_pc : workerPc; w_client : option nat }.

(** [webrtcSignalingAnswerer]. Goroutines that ended are not listed; the
    [bgWorkers] wait group also counts the goroutines of candidates. *)
Record answerer := mkAnswerer {
  an_closed : bool;                 (* closeCtx *)
  an_stopping : bool;               (* a Stop waits for bgWorkers *)
  an_bgWorkers : nat;
  an_conn : option nat;
  an_connectors : list connectorPc;
  an_workers : list worker;
  an_candidates : nat;
  (* what has happened *)
  an_dialed : list nat;             (* connections opened *)
  an_shut : list nat;               (* connections closed *)
  an_streams : nat;                 (* streams opened *)
  an_sendClosed : list nat;         (* CloseSend *)
}.

(** [newWebRTCSignalingAnswerer]. *)
Definition newWebRTCSignalingAnswerer : answerer := mkAnswerer false false 0 None [] [] 0 [] [] 0 [].

Definition an_set_closed v a := mkAnswerer v (an_stopping a) (an_bgWorkers a) (an_conn a) (an_connectors a) (an_workers a)
  (an_candidates a) (an_dialed a) (an_shut a) (an_streams a) (an_sendClosed a).
Definition an_set_stopping v a := mkAnswerer (an_closed a) v (an_bgWorkers a) (an_conn a) (an_connectors a) (an_workers a)
  (an_candidates a) (an_dialed a) (an_shut a) (an_streams a) (an_sendClosed a).
Definition an_set_bg v a := mkAnswerer (an_closed a) (an_stopping a) v (an_conn a) (an_connectors a) (an_workers a)
  (an_candidates a) (an_dialed a) (an_shut a) (an_streams a) (an_sendClosed a).
Definition an_set_conn v a := mkAnswerer (an_closed a) (an_stopping a) (an_bgWorkers a) v (an_connectors a) (an_workers a)
  (an_candidates a) (an_dialed a) (an_shut a) (an_streams a) (an_sendClosed a).
Definition an_set_connectors v a := mkAnswerer (an_closed a) (an_stopping a) (an_bgWorkers a) (an_conn a) v (an_workers a)
  (an_candidates a) (an_dialed a) (an_shut a) (an_streams a) (an_sendClosed a).
Definition an_set_workers v a := mkAnswerer (an_closed a) (an_stopping a) (an_bgWorkers a) (an_conn a) (an_connectors a) v
  (an_candidates a) (an_dialed a) (an_shut a) (an_streams a) (an_sendClosed a).
Definition an_set_candidates v a := mkAnswerer (an_closed a) (an_stopping a) (an_bgWorkers a) (an_conn a) (an_connectors a)
  (an_workers a) v (an_dialed a) (an_shut a) (an_streams a) (an_sendClosed a).
Definition an_set_dialed v a := mkAnswerer (an_closed a) (an_stopping a) (an_bgWorkers a) (an_conn a) (an_connectors a)
  (an_workers a) (an_candidates a) v (an_shut a) (an_streams a) (an_sendClosed a).
Definition an_set_shut v a := mkAnswerer (an_closed a) (an_stopping a) (an_bgWorkers a) (an_conn a) (an_connectors a)
  (an_workers a) (an_candidates a) (an_dialed a) v (an_streams a) (an_sendClosed a).
Definition an_set_streams v a := mkAnswerer (an_closed a) (an_stopping a) (an_bgWorkers a) (an_conn a) (an_connectors a)
  (an_workers a) (an_candidates a) (an_dialed a) (an_shut a) v (an_sendClosed a).
Definition an_set_sendClosed v a := mkAnswerer (an_closed a) (an_stopping a) (an_bgWorkers a) (an_conn a) (an_connectors a)
  (an_workers a) (an_candidates a) (an_dialed a) (an_shut a) (an_streams a) v.

(** [Start], which holds [startStopMu]. *)
Definition an_Start (a : answerer) : answerer :=
  an_set_connectors (an_connectors a ++ [KTop]) (an_set_bg (S (an_bgWorkers a)) a).

(** Adding a background worker, unless the answerer is closed: atomic under
    [bgWorkersMu]. *)
Definition add_worker (a : answerer) : answerer :=
  if an_closed a then a
  else an_set_workers (an_workers a ++ [mkWorker WTop None]) (an_set_bg (S (an_bgWorkers a)) a).
Definition add_candidate (a : answerer) : answerer :=
  if an_closed a then a else an_set_candidates (S (an_candidates a)) (an_set_bg (S (an_bgWorkers a)) a).

(** [Stop] up to its wait, and after it. *)
Definition an_Stop_begin (a : answerer) : answerer := an_set_stopping true (an_set_closed true a).
Definition an_Stop_end (a : answerer) : answerer :=
  an_set_stopping false
    (match an_conn a with
     | Some c => an_set_conn None (an_set_shut (an_shut a ++ [c]) a)
     | None => a
     end).

Definition bg_done (a : answerer) : answerer := an_set_bg (pred (an_bgWorkers a)) a.

(** One step of the goroutine of Start: where it is then, [None] when it ends. *)
Inductive connector_step : connectorPc -> answerer -> option connectorPc -> answerer -> Prop :=
  | KConnected c a : an_conn a = Some c -> connector_step KTop a (Some (KSpawn 0)) a
  | KClosed a : an_conn a = None -> an_closed a = true -> connector_step KTop a None a
  | KDial a : an_conn a = None -> an_closed a = false -> connector_step KTop a (Some KDialing) a
  | KDialed c a : c ∉ an_dialed a ->
      connector_step KDialing a (Some KTop) (an_set_conn (Some c) (an_set_dialed (an_dialed a ++ [c]) a))
  | KDialFailed a : connector_step KDialing a (Some KWait) a
  | KWaited a : connector_step KWait a (Some KTop) a
  | KWaitClosed a : an_closed a = true -> connector_step KWait a None a
  | KStartAnswerer i a : (i < defaultMaxAnswerers)%nat -> connector_step (KSpawn i) a (Some (KSpawn (S i))) (add_worker a)
  | KSpawned i a : (defaultMaxAnswerers <= i)%nat -> connector_step (KSpawn i) a None a.

(** One step of a worker. An error that is not exceptional goes on at once. *)
Inductive worker_step : worker -> answerer -> option worker -> answerer -> Prop :=
  | WClosed w a : w_pc w = WTop -> an_closed a = true -> worker_step w a None a
  | WOpen w a : w_pc w = WTop -> an_closed a = false -> worker_step w a (Some (mkWorker WOpening (w_client w))) a
  | WOpened w a : w_pc w = WOpening ->
      worker_step w a (Some (mkWorker WReceiving (Some (an_streams a)))) (an_set_streams (S (an_streams a)) a)
  | WOpenFailed next w a : w_pc w = WOpening -> next = WTop \/ next = WWaiting ->
      worker_step w a (Some (mkWorker next None)) a
  | WRecvFailed next w a : w_pc w = WReceiving -> next = WTop \/ next = WWaiting ->
      worker_step w a (Some (mkWorker next (w_client w))) a
  | WNotInit w a : w_pc w = WReceiving -> worker_step w a (Some (mkWorker WTop (w_client w))) a
  | WInit w a : w_pc w = WReceiving -> worker_step w a (Some (mkWorker WConnecting (w_client w))) a
  | WConnected w a : w_pc w = WConnecting -> worker_step w a (Some (mkWorker WTop (w_client w))) a
  | WConnectFailed w a : w_pc w = WConnecting -> worker_step w a (Some (mkWorker WWaiting (w_client w))) a
  | WWaited w a : w_pc w = WWaiting -> worker_step w a (Some (mkWorker WTop (w_client w))) a
  | WWaitClosed w a : w_pc w = WWaiting -> an_closed a = true -> worker_step w a None a.

(** The deferred function of a worker. *)
Definition close_send (w : worker) (a : answerer) : answerer :=
  match w_client w with None => a | Some c => an_set_sendClosed (an_sendClosed a ++ [c]) a end.

(** What runs in the background, and Stop. *)
Inductive background_step : answerer -> answerer -> Prop :=
  | AConnector l k k' r a a' : an_connectors a = l ++ k :: r -> connector_step k a (Some k') a' ->
      background_step a (an_set_connectors (l ++ k' :: r) a')
  | AConnectorEnd l k r a a' : an_connectors a = l ++ k :: r -> connector_step k a None a' ->
      background_step a (bg_done (an_set_connectors (l ++ r) a'))
  | AWorker l w w' r a a' : an_workers a = l ++ w :: r -> worker_step w a (Some w') a' ->
      background_step a (an_set_workers (l ++ w' :: r) a')
  | AWorkerEnd l w r a a' : an_workers a = l ++ w :: r -> worker_step w a None a' ->
      background_step a (bg_done (close_send w (an_set_workers (l ++ r) a')))
  | ACandidate a : background_step a (add_candidate a)
  | ACandidateEnd n a : an_candidates a = S n -> background_step a (bg_done (an_set_candidates n a))
  | AStopBegin a : an_stopping a = false -> background_step a (an_Stop_begin a)
  | AStopEnd a : an_stopping a = true -> an_bgWorkers a = 0 -> background_step a (an_Stop_end a).

(** Start waits for a Stop that runs. *)
Inductive answerer_step : answerer -> answerer -> Prop :=
  | AStart a : an_stopping a = false -> answerer_step a (an_Start a)
  | ABackground a a' : background_step a a' -> answerer_step a a'.

Definition started : answerer := an_Start newWebRTCSignalingAnswerer.

(** ** An attempt to answer *)

Inductive onceSt := OnceFresh | OnceRunning | OnceDone.

(** A goroutine of OnICECandidate: it waits for the first message; it sends its
    candidate; the one of the last callback waits for the others; it calls
    sendDoneErrOnce with a message, in whose send it is then. The candidate, if
    it has one, is pending until the goroutine ends. *)
Inductive gatherPc :=
  | GWait (cand : option ICECandidate)
  | GSending (cand : ICECandidate)
  | GWaitPending
  | GOnce (m : answerStage) (pending : bool)
  | GInOnce (pending : bool).

(** The goroutine of connect: newPeerConnectionForServer is next; it creates an
    answer; it waits for a host candidate; it sends the answer; it waits for
    the channel; it calls sendDoneErrOnce; it waits for the receiver. The
    result is the one that connect returns with. *)
Inductive mainPc :=
  | MNew | MAnswer | MWaitHost | MEncode | MSending | MSelect
  | MOnce (m : answerStage) (res : option goerror)
  | MInOnce (res : option goerror)
  | MWaitReceiver (res : option goerror)
  | MReturned (res : option goerror).

(** The receiving goroutine; after a panic its callback runs when it is done. *)
Inductive receiverPc := RNone | RReceiving | ROnce (m : answerStage) | RInOnce | REnd.

Inductive peerSt := PeerNone | PeerOpen | PeerClosed.

(** [answerAttempt] with the variables of connect. *)
Record attempt := mkAttempt {
  at_trickle : bool;
  at_ctxErr : option goerror;          (* ctx *)
  at_peer : peerSt;
  at_main : mainPc;
  at_gather : list gatherPc;
  at_gathered : bool;                  (* the last callback was made *)
  at_pending : nat;                    (* pendingCandidates *)
  at_hostSeen : bool;                  (* waitOneHost *)
  at_initSent : bool;
  at_receiver : receiverPc;
  at_receiverDone : bool;              (* done *)
  at_once : onceSt;                    (* sendDoneErrOnce *)
  at_sent : list answerStage;          (* the sends, in the order in which they began *)
  at_added : list ICECandidate;        (* AddICECandidate *)
}.

Definition new_attempt (trickleEnabled : bool) : attempt :=
  mkAttempt trickleEnabled None PeerNone MNew [] false 0 false false RNone false OnceFresh [] [].

Definition at_set_ctxErr v s := mkAttempt (at_trickle s) v (at_peer s) (at_main s) (at_gather s) (at_gathered s)
  (at_pending s) (at_hostSeen s) (at_initSent s) (at_receiver s) (at_receiverDone s) (at_once s) (at_sent s) (at_added s).
Definition at_set_peer v s := mkAttempt (at_trickle s) (at_ctxErr s) v (at_main s) (at_gather s) (at_gathered s)
  (at_pending s) (at_hostSeen s) (at_initSent s) (at_receiver s) (at_receiverDone s) (at_once s) (at_sent s) (at_added s).
Definition at_set_main v s := mkAttempt (at_trickle s) (at_ctxErr s) (at_peer s) v (at_gather s) (at_gathered s)
  (at_pending s) (at_hostSeen s) (at_initSent s) (at_receiver s) (at_receiverDone s) (at_once s) (at_sent s) (at_added s).
Definition at_set_gather v s := mkAttempt (at_trickle s) (at_ctxErr s) (at_peer s) (at_main s) v (at_gathered s)
  (at_pending s) (at_hostSeen s) (at_initSent s) (at_receiver s) (at_receiverDone s) (at_once s) (at_sent s) (at_added s).
Definition at_set_gathered v s := mkAttempt (at_trickle s) (at_ctxErr s) (at_peer s) (at_main s) (at_gather s) v
  (at_pending s) (at_hostSeen s) (at_initSent s) (at_receiver s) (at_receiverDone s) (at_once s) (at_sent s) (at_added s).
Definition at_set_pending v s := mkAttempt (at_trickle s) (at_ctxErr s) (at_peer s) (at_main s) (at_gather s) (at_gathered s)
  v (at_hostSeen s) (at_initSent s) (at_receiver s) (at_receiverDone s) (at_once s) (at_sent s) (at_added s).
Definition at_set_hostSeen v s := mkAttempt (at_trickle s) (at_ctxErr s) (at_peer s) (at_main s) (at_gather s) (at_gathered s)
  (at_pending s) v (at_initSent s) (at_receiver s) (at_receiverDone s) (at_once s) (at_sent s) (at_added s).
Definition at_set_initSent v s := mkAttempt (at_trickle s) (at_ctxErr s) (at_peer s) (at_main s) (at_gather s) (at_gathered s)
  (at_pending s) (at_hostSeen s) v (at_receiver s) (at_receiverDone s) (at_once s) (at_sent s) (at_added s).
Definition at_set_receiver v s := mkAttempt (at_trickle s) (at_ctxErr s) (at_peer s) (at_main s) (at_gather s) (at_gathered s)
  (at_pending s) (at_hostSeen s) (at_initSent s) v (at_receiverDone s) (at_once s) (at_sent s) (at_added s).
Definition at_set_receiverDone v s := mkAttempt (at_trickle s) (at_ctxErr s) (at_peer s) (at_main s) (at_gather s)
  (at_gathered s) (at_pending s) (at_hostSeen s) (at_initSent s) (at_receiver s) v (at_once s) (at_sent s) (at_added s).
Definition at_set_once v s := mkAttempt (at_trickle s) (at_ctxErr s) (at_peer s) (at_main s) (at_gather s) (at_gathered s)
  (at_pending s) (at_hostSeen s) (at_initSent s) (at_receiver s) (at_receiverDone s) v (at_sent s) (at_added s).
Definition at_set_sent v s := mkAttempt (at_trickle s) (at_ctxErr s) (at_peer s) (at_main s) (at_gather s) (at_gathered s)
  (at_pending s) (at_hostSeen s) (at_initSent s) (at_receiver s) (at_receiverDone s) (at_once s) v (at_added s).
Definition at_set_added v s := mkAttempt (at_trickle s) (at_ctxErr s) (at_peer s) (at_main s) (at_gather s) (at_gathered s)
  (at_pending s) (at_hostSeen s) (at_initSent s) (at_receiver s) (at_receiverDone s) (at_once s) (at_sent s) v.

(** [client.Send] begins with a message. *)
Definition begin_send (m : answerStage) (s : attempt) : attempt := at_set_sent (at_sent s ++ [m]) s.

(** The function of sendDoneErrOnce begins to run with the message of its first
    call. *)
Definition begin_once (m : answerStage) (s : attempt) : attempt := at_set_once OnceRunning (begin_send m s).

Section Attempt.
Context `{GrpcStatus}.

(** The message of [sendError]. *)
Definition error_stage (err : goerror) : answerStage := AnswerResponse_Error (ErrorToStatus (Some err)).

(** The deferred functions of connect: the peer connection is closed unless the
    connection was successful. *)
Definition returns (res : option goerror) (s : attempt) : attempt :=
  at_set_main (MReturned res)
    (at_set_peer (match at_peer s, res with PeerOpen, Some _ => PeerClosed | p, _ => p end) s).

(** The goroutine of connect. *)
Inductive main_step : attempt -> attempt -> Prop :=
  | NewFailed err s : at_main s = MNew -> main_step s (at_set_main (MOnce (error_stage err) (Some err)) s)
  | NewOk s : at_main s = MNew ->
      main_step s (at_set_main (if at_trickle s then MAnswer else MEncode) (at_set_peer PeerOpen s))
  | AnswerFailed err s : at_main s = MAnswer -> main_step s (returns (Some err) s)
      (* CreateAnswer or SetLocalDescription *)
  | AnswerOk s : at_main s = MAnswer -> main_step s (at_set_main MWaitHost s)
  | HostSeen s : at_main s = MWaitHost -> at_hostSeen s = true -> main_step s (at_set_main MEncode s)
  | HostCtxDone err s : at_main s = MWaitHost -> at_ctxErr s = Some err -> main_step s (returns (Some err) s)
  | EncodeFailed err s : at_main s = MEncode -> main_step s (at_set_main (MOnce (error_stage err) (Some err)) s)
  | EncodeOk sdp s : at_main s = MEncode -> main_step s (at_set_main MSending (begin_send (AnswerResponse_Init sdp) s))
  | SendFailed err s : at_main s = MSending -> main_step s (returns (Some err) s)
  | SendOk s : at_main s = MSending ->
      main_step s (at_set_main MSelect (at_set_receiver (if at_trickle s then RReceiving else RNone) (at_set_initSent true s)))
  | Ready s : at_main s = MSelect -> main_step s (at_set_main (MOnce AnswerResponse_Done None) s)
  | CtxDone err combined s : at_main s = MSelect -> at_ctxErr s = Some err ->
      main_step s (at_set_main (MOnce (error_stage combined) (Some err)) s)
      (* the context's error and the one of closing the channel *)
  | OnceFirst m res s : at_main s = MOnce m res -> at_once s = OnceFresh ->
      main_step s (at_set_main (MInOnce res) (begin_once m s))
  | OnceOver m res s : at_main s = MOnce m res -> at_once s = OnceDone -> main_step s (at_set_main (MWaitReceiver res) s)
  | OnceSent res s : at_main s = MInOnce res -> main_step s (at_set_main (MWaitReceiver res) (at_set_once OnceDone s))
  | ReceiverDone res s : at_main s = MWaitReceiver res -> at_receiver s = RNone \/ at_receiverDone s = true ->
      main_step s (returns res s).

(** A callback of OnICECandidate with a goroutine, or without one when the
    answerer was closed after the context was looked at. *)
Definition callback (cand : option ICECandidate) (host : bool) (s : attempt) : attempt :=
  match cand with
  | None => at_set_gathered true s
  | Some _ => at_set_hostSeen (at_hostSeen s || host) (at_set_pending (S (at_pending s)) s)
  end.

(** One step of a goroutine of a candidate: where it is then, [None] when it
    ends. *)
Definition pending_done (b : bool) (s : attempt) : attempt := if b then at_set_pending (pred (at_pending s)) s else s.
Inductive gather_step : gatherPc -> attempt -> option gatherPc -> attempt -> Prop :=
  | GCtxDone cand s : is_Some (at_ctxErr s) -> gather_step (GWait cand) s None (pending_done (if cand is Some _ then true else false) s)
  | GUpdate cand s : at_initSent s = true ->
      gather_step (GWait (Some cand)) s (Some (GSending cand)) (begin_send (AnswerResponse_Update cand) s)
  | GLast s : at_initSent s = true -> gather_step (GWait None) s (Some GWaitPending) s
  | GSent cand s : gather_step (GSending cand) s None (pending_done true s)
  | GSendFailed err cand s : gather_step (GSending cand) s (Some (GOnce (error_stage err) true)) s
  | GNonePending s : at_pending s = 0 -> gather_step GWaitPending s (Some (GOnce AnswerResponse_Done false)) s
  | GOnceFirst m b s : at_once s = OnceFresh -> gather_step (GOnce m b) s (Some (GInOnce b)) (begin_once m s)
  | GOnceOver m b s : at_once s = OnceDone -> gather_step (GOnce m b) s None (pending_done b s)
  | GOnceSent b s : gather_step (GInOnce b) s None (pending_done b (at_set_once OnceDone s)).

(** The receiving goroutine. A stage that is unknown, a candidate of another
    call or one that pion refuses, an error of the caller and a panic are
    reported by [sendError]; only a panic has closed [done] before. *)
Inductive receiver_step : attempt -> attempt -> Prop :=
  | RecvFailed s : at_receiver s = RReceiving -> receiver_step s (at_set_receiver REnd (at_set_receiverDone true s))
  | RecvInit s : at_receiver s = RReceiving -> receiver_step s s
  | RecvUpdate cand s : at_receiver s = RReceiving -> receiver_step s (at_set_added (at_added s ++ [cand]) s)
  | RecvDone s : at_receiver s = RReceiving -> receiver_step s (at_set_receiver REnd (at_set_receiverDone true s))
  | RecvRefused err s : at_receiver s = RReceiving -> receiver_step s (at_set_receiver (ROnce (error_stage err)) s)
  | RecvPanic err s : at_receiver s = RReceiving ->
      receiver_step s (at_set_receiver (ROnce (error_stage err)) (at_set_receiverDone true s))
  | ROnceFirst m s : at_receiver s = ROnce m -> at_once s = OnceFresh ->
      receiver_step s (at_set_receiver RInOnce (begin_once m s))
  | ROnceOver m s : at_receiver s = ROnce m -> at_once s = OnceDone ->
      receiver_step s (at_set_receiver REnd (at_set_receiverDone true s))
  | ROnceSent s : at_receiver s = RInOnce ->
      receiver_step s (at_set_receiver REnd (at_set_receiverDone true (at_set_once OnceDone s))).

Inductive attempt_step : attempt -> attempt -> Prop :=
  | AtMain s s' : main_step s s' -> attempt_step s s'
  | AtReceiver s s' : receiver_step s s' -> attempt_step s s'
  | AtGather l g g' r s s' : at_gather s = l ++ g :: r -> gather_step g s (Some g') s' ->
      attempt_step s (at_set_gather (l ++ g' :: r) s')
  | AtGatherEnd l g r s s' : at_gather s = l ++ g :: r -> gather_step g s None s' ->
      attempt_step s (at_set_gather (l ++ r) s')
  | AtCallback cand host s : at_trickle s = true -> at_ctxErr s = None -> at_gathered s = false ->
      attempt_step s (at_set_gather (at_gather s ++ [GWait cand]) (callback cand host s))
  | AtCallbackClosed cand host err s : at_trickle s = true -> at_ctxErr s = None -> at_gathered s = false ->
      attempt_step s (at_set_ctxErr (Some err) (callback cand host s))
  | AtCtxDone err s : at_ctxErr s = None -> attempt_step s (at_set_ctxErr (Some err) s).

(** What the signaling server receives. *)
Definition responses_of (uuid : string) (s : attempt) : list (AnswerResponse + goerror) :=
  (fun m => inl (mkAnswerResponse uuid m)) <$> at_sent s.

(** Messages that end the exchange. *)
Definition is_final (m : answerStage) : Prop :=
  match m with AnswerResponse_Done | AnswerResponse_Error _ => True | _ => False end.
#[export] Instance is_final_dec m : Decision (is_final m).
Proof. destruct m; apply _. Defined.
Definition finals (s : attempt) : nat := length (filter is_final (at_sent s)).

(** The sends that have begun and not returned. *)
Definition in_send (g : gatherPc) : Prop := match g with GSending _ | GInOnce _ => True | _ => False end.
#[export] Instance in_send_dec g : Decision (in_send g).
Proof. destruct g; apply _. Defined.
Definition sends_in_progress (s : attempt) : nat :=
  length (filter in_send (at_gather s))
  + (match at_main s with MSending | MInOnce _ => 1 | _ => 0 end) + (if at_receiver s is RInOnce then 1 else 0).
End Attempt.

(** ** The life cycle: invariants *)

Lemma len_mid {A} (l : list A) x r : length (l ++ x :: r) = S (length l + length r).
Proof. rewrite length_app. simpl. lia. Qed.

(** The wait group counts what runs. *)
Definition bg_counts (a : answerer) : Prop :=
  an_bgWorkers a = length (an_connectors a) + length (an_workers a) + an_candidates a.

(** The connection that the goroutine of Start has dialed, and what became of
    it. *)
Inductive conn_state (a : answerer) : Prop :=
  | NotDialed : an_dialed a = [] -> an_conn a = None -> an_shut a = [] -> an_workers a = [] ->
      Forall (fun k => forall i, k <> KSpawn i) (an_connectors a) -> conn_state a
  | Connected c : an_dialed a = [c] -> an_conn a = Some c -> an_shut a = [] ->
      Forall (fun k => k <> KDialing) (an_connectors a) -> conn_state a
  | Disconnected c : an_dialed a = [c] -> an_conn a = None -> an_shut a = [c] ->
      an_connectors a = [] -> an_workers a = [] -> conn_state a.

Record life_inv (a : answerer) : Prop := {
  li_bg : bg_counts a;
  li_one : length (an_connectors a) <= 1;
  li_conn : conn_state a;
  li_stopping : an_stopping a = true -> an_closed a = true;
  li_stopped : an_closed a = true -> an_stopping a = false -> an_bgWorkers a = 0 /\ an_conn a = None;
}.

Lemma started_inv : life_inv started.
Proof. split; cbn; try done. by apply NotDialed; cbn; [..|constructor]. Qed.

(** The goroutine of Start is alone. *)
Lemma one_connector l (k : connectorPc) r : length (l ++ k :: r) <= 1 -> l = [] /\ r = [].
Proof. rewrite len_mid. destruct l, r; simpl; try lia. done. Qed.

Lemma connector_inv k k' a a' :
  life_inv a -> an_connectors a = [k] -> connector_step k a (Some k') a' -> life_inv (an_set_connectors [k'] a').
Proof.
  intros [Hb Ho Hc Hs Hd] Hk Hst. unfold bg_counts in *. rewrite Hk in *.
  assert (Hnd : ~ (an_closed a = true /\ an_stopping a = false)).
  { intros [H1 H2]. destruct (Hd H1 H2) as [Hz _]. simpl in Hb. lia. }
  inversion Hst; subst; clear Hst;
    destruct Hc as [E1 E2 E3 E4 E5|c' E1 E2 E3 E4|c' E1 E2 E3 E4 E5]; rewrite Hk in *; try congruence.
  all: try by inversion E4.
  all: try (split; cbn; [done|lia| |done|tauto]).
  - (* KConnected *) eapply Connected; cbn; [done..|]. by constructor.
  - (* KDial *) by apply NotDialed; cbn; [..|repeat constructor].
  - (* KDialed *) apply (Connected _ c); cbn; [by rewrite E1|done|done|by constructor].
  - (* KDialFailed *) by apply NotDialed; cbn; [..|repeat constructor].
  - (* KWaited *) by apply NotDialed; cbn; [..|repeat constructor].
  - eapply Connected; cbn; [done..|]. by constructor.
  - (* KStartAnswerer *) inversion E5 as [|? ? Hf _]. by destruct (Hf i).
  - unfold add_worker. destruct (an_closed a) eqn:Hcl.
    + split; cbn; [done|lia| |done|].
      { eapply Connected; cbn; [done..|]. by constructor. }
      intros _ Hst. by destruct Hnd.
    + split; cbn; [unfold bg_counts; cbn; rewrite length_app; simpl in *; lia|lia| |intros Hx%Hs; congruence|congruence].
      eapply Connected; cbn; [done..|]. by constructor.
Qed.

Lemma connector_end_inv k a a' :
  life_inv a -> an_connectors a = [k] -> connector_step k a None a' -> life_inv (bg_done (an_set_connectors [] a')).
Proof.
  intros [Hb Ho Hc Hs Hd] Hk Hst. unfold bg_counts in *. rewrite Hk in *. simpl in Hb.
  assert (Hnd : ~ (an_closed a = true /\ an_stopping a = false)).
  { intros [H1 H2]. destruct (Hd H1 H2) as [Hz _]. simpl in Hb. lia. }
  assert (a' = a) as -> by (by inversion Hst).
  split; cbn; [unfold bg_counts; cbn; lia|lia| |done|by intros; destruct Hnd].
  destruct Hc as [E1 E2 E3 E4 E5|c' E1 E2 E3 E4|c' E1 E2 E3 E4 E5]; rewrite ?Hk in *; [| |done].
  - apply NotDialed; cbn; [done..|constructor].
  - eapply Connected; cbn; [done..|constructor].
Qed.

(** Changing workers in place, or ending one. *)
Lemma workers_inv ws a :
  life_inv a -> length ws = length (an_workers a) -> an_workers a <> [] -> life_inv (an_set_workers ws a).
Proof.
  intros [Hb Ho Hc Hs Hd] Hl Hne. unfold bg_counts in *. split; cbn; [unfold bg_counts; cbn; lia|done| |done|done].
  destruct Hc as [E1 E2 E3 E4 E5|c' E1 E2 E3 E4|c' E1 E2 E3 E4 E5]; [by destruct Hne| |by destruct Hne].
  eapply Connected; cbn; [done..|done].
Qed.

Lemma worker_end_inv l w r w0 a :
  life_inv a -> an_workers a = l ++ w :: r -> life_inv (bg_done (close_send w0 (an_set_workers (l ++ r) a))).
Proof.
  intros [Hb Ho Hc Hs Hd] Hw. unfold bg_counts in *. pose proof (len_mid l w r) as Hl. rewrite <- Hw in Hl.
  assert (Hcs : conn_state (close_send w0 (an_set_workers (l ++ r) a))).
  { destruct Hc as [E1 E2 E3 E4 E5|c' E1 E2 E3 E4|c' E1 E2 E3 E4 E5];
      [rewrite E4 in Hw; by destruct l| |rewrite E5 in Hw; by destruct l].
    unfold close_send. destruct (w_client w0); eapply Connected; cbn; done. }
  unfold close_send in *. destruct (w_client w0).
  - split; cbn; [unfold bg_counts; cbn; rewrite length_app; lia|done| |done|intros H1 H2; destruct (Hd H1 H2); lia].
    by destruct Hcs; [apply NotDialed|eapply Connected|eapply Disconnected].
  - split; cbn; [unfold bg_counts; cbn; rewrite length_app; lia|done| |done|intros H1 H2; destruct (Hd H1 H2); lia].
    by destruct Hcs; [apply NotDialed|eapply Connected|eapply Disconnected].
Qed.

Lemma worker_step_state w w' a a' :
  worker_step w a w' a' -> an_workers a' = an_workers a /\ (life_inv a -> life_inv a').
Proof.
  intros Hs. destruct Hs; try done. split; [done|]. intros [Hb Ho Hc Hs Hd].
  split; cbn; try done. by destruct Hc; [apply NotDialed|eapply Connected|eapply Disconnected].
Qed.

Lemma background_step_inv a a' : life_inv a -> background_step a a' -> life_inv a'.
Proof.
  intros Hi Hst. destruct Hst as [l k k' r a a' Hk Hs|l k r a a' Hk Hs|l w w' r a a' Hw Hs|l w r a a' Hw Hs|a|n a Hn|a Ha|a Ha Hz].
  - pose proof (li_one _ Hi) as Ho. rewrite Hk in Ho. apply one_connector in Ho as [-> ->]. by eapply connector_inv.
  - pose proof (li_one _ Hi) as Ho. rewrite Hk in Ho. apply one_connector in Ho as [-> ->]. by eapply connector_end_inv.
  - apply worker_step_state in Hs as [Hw' Hs]. apply workers_inv; [by apply Hs| |].
    + rewrite Hw', Hw. by rewrite !len_mid.
    + rewrite Hw', Hw. by destruct l.
  - apply worker_step_state in Hs as [Hw' Hs]. eapply worker_end_inv; [by apply Hs|]. by rewrite Hw'.
  - unfold add_candidate. destruct (an_closed a) eqn:Hc; [done|]. destruct Hi as [Hb Ho Hcs Hs Hd].
    split; cbn; [unfold bg_counts in *; cbn; lia|done| |intros Hx%Hs; congruence|congruence].
    by destruct Hcs; [apply NotDialed|eapply Connected|eapply Disconnected].
  - destruct Hi as [Hb Ho Hcs Hs Hd].
    split; cbn; [unfold bg_counts in *; cbn; lia|done| |done|intros H1 H2; destruct (Hd H1 H2); split; [lia|done]].
    by destruct Hcs; [apply NotDialed|eapply Connected|eapply Disconnected].
  - destruct Hi as [Hb Ho Hcs Hs Hd]. split; cbn; [done|done| |done|done].
    by destruct Hcs; [apply NotDialed|eapply Connected|eapply Disconnected].
  - destruct Hi as [Hb Ho Hcs Hs Hd]. unfold bg_counts in Hb. rewrite Hz in Hb.
    assert (an_connectors a = []) as Hk by (destruct (an_connectors a); [done|simpl in Hb; lia]).
    assert (an_workers a = []) as Hw by (destruct (an_workers a); [done|simpl in Hb; lia]).
    unfold an_Stop_end. destruct Hcs as [E1 E2 E3 E4 E5|c' E1 E2 E3 E4|c' E1 E2 E3 E4 E5]; rewrite E2;
      (split; cbn; [unfold bg_counts; cbn; lia|done| |done|done]).
    + by apply NotDialed.
    + apply (Disconnected _ c'); cbn; [done|done|by rewrite E3|done|done].
    + by apply (Disconnected _ c').
Qed.

(** ** Stop ends what runs *)

(** A worker ends once the answerer is closed. *)
Lemma worker_can_end a w ws :
  an_closed a = true -> an_workers a = w :: ws ->
  exists a', rtc background_step a a' /\ an_closed a' = true /\ an_stopping a' = an_stopping a /\
    an_workers a' = ws /\ an_connectors a' = an_connectors a /\ an_candidates a' = an_candidates a /\
    an_bgWorkers a' = pred (an_bgWorkers a).
Proof.
  intros Hc Hw.
  (* from the top of the loop *)
  assert (Htop : forall b cl, an_closed b = true -> an_workers b = mkWorker WTop cl :: ws ->
    exists a', background_step b a' /\ an_closed a' = true /\ an_stopping a' = an_stopping b /\
      an_workers a' = ws /\ an_connectors a' = an_connectors b /\ an_candidates a' = an_candidates b /\
      an_bgWorkers a' = pred (an_bgWorkers b)).
  { intros b cl Hcb Hwb. eexists. split; [apply (AWorkerEnd [] (mkWorker WTop cl) ws b b Hwb); by apply WClosed|].
    destruct cl; by cbn. }
  assert (Hvia : forall cl, worker_step w a (Some (mkWorker WTop cl)) a ->
    exists a', rtc background_step a a' /\ an_closed a' = true /\ an_stopping a' = an_stopping a /\
      an_workers a' = ws /\ an_connectors a' = an_connectors a /\ an_candidates a' = an_candidates a /\
      an_bgWorkers a' = pred (an_bgWorkers a)).
  { intros cl Hs. set (b := an_set_workers ([] ++ mkWorker WTop cl :: ws) a).
    destruct (Htop b cl) as (a' & Hst & H1 & H2 & H3 & H4 & H5 & H6); [done..|]. exists a'.
    split; [|done]. eapply rtc_l; [by apply (AWorker [] w _ ws a a Hw Hs)|]. by apply rtc_once. }
  destruct w as [[] cl].
  - destruct (Htop a cl Hc Hw) as (a' & Hst & H). exists a'. split; [by apply rtc_once|done].
  - apply (Hvia None). by eapply WOpenFailed; [|left].
  - apply (Hvia cl). by apply (WRecvFailed WTop (mkWorker _ _)); [|left].
  - apply (Hvia cl). by apply (WConnected (mkWorker _ _)).
  - apply (Hvia cl). by apply (WWaited (mkWorker _ _)).
Qed.

Lemma workers_can_end a :
  an_closed a = true ->
  exists a', rtc background_step a a' /\ an_closed a' = true /\ an_stopping a' = an_stopping a /\
    an_workers a' = [] /\ an_connectors a' = an_connectors a /\ an_candidates a' = an_candidates a /\
    an_bgWorkers a' = an_bgWorkers a - length (an_workers a).
Proof.
  remember (an_workers a) as ws eqn:Hw. symmetry in Hw. revert a Hw. induction ws as [|w ws IH]; intros a Hw Hc.
  - exists a. split; [done|]. split_and!; try done. simpl. lia.
  - destruct (worker_can_end a w ws Hc Hw) as (b & Hr & H1 & H2 & H3 & H4 & H5 & H6).
    destruct (IH b H3 H1) as (a' & Hr' & G1 & G2 & G3 & G4 & G5 & G6). exists a'.
    split; [by etrans|]. split_and!; try congruence. simpl. lia.
Qed.

Lemma candidates_can_end a :
  exists a', rtc background_step a a' /\ an_closed a' = an_closed a /\ an_stopping a' = an_stopping a /\
    an_workers a' = an_workers a /\ an_connectors a' = an_connectors a /\ an_candidates a' = 0 /\
    an_bgWorkers a' = an_bgWorkers a - an_candidates a.
Proof.
  remember (an_candidates a) as n eqn:Hn. symmetry in Hn. revert a Hn. induction n as [|n IH]; intros a Hn.
  - exists a. split; [done|]. split_and!; try done. lia.
  - destruct (IH (bg_done (an_set_candidates n a)) eq_refl) as (a' & Hr & G1 & G2 & G3 & G4 & G5 & G6).
    exists a'. split; [eapply rtc_l; [by apply ACandidateEnd|done]|]. cbn in *. split_and!; try done. lia.
Qed.

(** The goroutine of Start ends too, without starting workers. *)
Lemma connector_can_end a k :
  an_closed a = true -> an_connectors a = [k] ->
  exists a', rtc background_step a a' /\ an_closed a' = true /\ an_stopping a' = an_stopping a /\
    an_workers a' = an_workers a /\ an_connectors a' = [] /\ an_candidates a' = an_candidates a /\
    an_bgWorkers a' = pred (an_bgWorkers a).
Proof.
  set (ends := fun a a' => rtc background_step a a' /\ an_closed a' = true /\ an_stopping a' = an_stopping a /\
    an_workers a' = an_workers a /\ an_connectors a' = [] /\ an_candidates a' = an_candidates a /\
    an_bgWorkers a' = pred (an_bgWorkers a)).
  assert (Hend : forall b k, an_closed b = true -> an_connectors b = [k] -> connector_step k b None b -> exists a', ends b a').
  { intros b k0 Hc Hk Hs. eexists. split; [apply rtc_once, (AConnectorEnd [] k0 [] b b Hk Hs)|]. by cbn. }
  assert (Hgo : forall b k k', an_closed b = true -> an_connectors b = [k] -> connector_step k b (Some k') b ->
    (exists a', ends (an_set_connectors [k'] b) a') -> exists a', ends b a').
  { intros b k0 k' Hc Hk Hs (a' & Hr & H). exists a'. split; [|done].
    eapply rtc_l; [apply (AConnector [] k0 k' [] b b Hk Hs)|done]. }
  assert (Hspawn : forall n b i, an_closed b = true -> an_connectors b = [KSpawn i] -> defaultMaxAnswerers - i <= n ->
    exists a', ends b a').
  { induction n as [|n IH]; intros b i Hc Hk Hn; [eapply Hend; [done|done|]; apply KSpawned; lia|].
    destruct (decide (defaultMaxAnswerers <= i)); [eapply Hend; [done|done|]; by apply KSpawned|].
    eapply (Hgo b (KSpawn i) (KSpawn (S i))); [done|done| |].
    - assert (add_worker b = b) as Hb by (unfold add_worker; by rewrite Hc).
      rewrite <- Hb at 2. apply KStartAnswerer. lia.
    - apply (IH _ (S i)); [done|done|lia]. }
  intros Hc Hk. fold (ends a). destruct k as [| | |i].
  - destruct (an_conn a) as [c|] eqn:Hconn.
    + eapply (Hgo a KTop); [done|done|by apply (KConnected c)|]. by eapply (Hspawn 2 _ 0).
    + eapply Hend; [done|done|by apply KClosed].
  - eapply (Hgo a KDialing KWait); [done|done|apply KDialFailed|]. eapply Hend; [done|done|by apply KWaitClosed].
  - eapply Hend; [done|done|by apply KWaitClosed].
  - by eapply (Hspawn (defaultMaxAnswerers - i) a i).
Qed.

(** ** Properties of the life cycle *)

(** C21: Once Stop has returned, nothing of the answerer runs: the goroutine of
    Start, its workers and the goroutines of candidates have ended, and every
    connection that was dialed was closed, once, whatever the workers were
    doing and whether the dial was still under way. *)
Theorem answerer_stop_leaves_nothing (a : answerer) :
  rtc background_step started a -> an_closed a = true -> an_stopping a = false ->
  an_connectors a = [] /\ an_workers a = [] /\ an_candidates a = 0 /\ an_conn a = None /\ an_shut a = an_dialed a /\
  length (an_dialed a) <= 1.
Proof.
  intros Hr Hc Hs. pose proof (rtc_invariant background_step life_inv background_step_inv _ _ Hr started_inv) as [Hb Ho Hcs _ Hd].
  destruct (Hd Hc Hs) as [Hz Hn]. unfold bg_counts in Hb. rewrite Hz in Hb.
  assert (an_connectors a = []) as -> by (destruct (an_connectors a); [done|simpl in Hb; lia]).
  assert (an_workers a = []) as -> by (destruct (an_workers a); [done|simpl in Hb; lia]).
  split_and!; try done; [simpl in Hb; lia| |];
    destruct Hcs as [E1 E2 E3 E4 E5|c' E1 E2 E3 E4|c' E1 E2 E3 E4 E5]; rewrite ?E1; simpl; congruence || lia.
Qed.

(** And Stop can always return: whatever runs when it is called can end. *)
Theorem answerer_stop_can_return (a : answerer) :
  rtc background_step started a -> an_stopping a = true ->
  exists a', rtc background_step a a' /\ an_closed a' = true /\ an_stopping a' = false.
Proof.
  intros Hr Hs. pose proof (rtc_invariant background_step life_inv background_step_inv _ _ Hr started_inv) as [Hb Ho _ Hst _].
  specialize (Hst Hs). unfold bg_counts in Hb.
  assert (exists b, rtc background_step a b /\ an_closed b = true /\ an_stopping b = true /\ an_connectors b = [] /\
    an_bgWorkers b = length (an_workers b) + an_candidates b) as (b & Hrb & Hcb & Hsb & Hkb & Hbb).
  { destruct (an_connectors a) as [|k [|]] eqn:Hk; [by exists a| |simpl in Ho; lia].
    destruct (connector_can_end a k Hst Hk) as (b & Hrb & H1 & H2 & H3 & H4 & H5 & H6). exists b.
    split_and!; try done; [congruence|]. rewrite H3, H5, H6, Hb. simpl. lia. }
  destruct (workers_can_end b Hcb) as (c & Hrc & H1 & H2 & H3 & H4 & H5 & H6).
  destruct (candidates_can_end c) as (e & Hre & G1 & G2 & G3 & G4 & G5 & G6).
  exists (an_Stop_end e). split; [|split].
  - etrans; [exact Hrb|]. etrans; [exact Hrc|]. etrans; [exact Hre|]. apply rtc_once, AStopEnd; [congruence|lia].
  - unfold an_Stop_end. destruct (an_conn e); cbn; congruence.
  - unfold an_Stop_end. by destruct (an_conn e).
Qed.

(** The context that Stop cancels is never made again: an answerer that is
    started after a Stop has returned dials nothing and answers nobody. *)
Theorem restarted_answerer_is_deaf (a a' : answerer) :
  an_closed a = true -> an_connectors a = [] -> an_workers a = [] -> an_conn a = None ->
  rtc answerer_step (an_Start a) a' -> an_workers a' = [] /\ an_conn a' = None /\ an_dialed a' = an_dialed a.
Proof.
  intros Hc Hk Hw Hn Hr.
  set (deaf := fun b => an_closed b = true /\ Forall (fun k => k = KTop) (an_connectors b) /\ an_workers b = [] /\
    an_conn b = None /\ an_dialed b = an_dialed a).
  enough (deaf a') as (_ & _ & H) by done.
  refine (rtc_invariant _ deaf _ _ _ Hr _); [|unfold deaf; cbn; rewrite Hk; split_and!; try done; by constructor].
  intros b b' (H1 & H2 & H3 & H4 & H5) Hst. unfold deaf.
  destruct Hst as [b Hs|b b' Hst].
  { cbn. split_and!; try done. apply Forall_app. split; [done|by constructor]. }
  destruct Hst as [l k k' r b b' Hk' Hs|l k r b b' Hk' Hs|l w w' r b b' Hw' Hs|l w r b b' Hw' Hs|b|n b Hn'|b Hs|b Hs Hz];
    try (rewrite H3 in Hw'; by destruct l).
  - rewrite Hk' in H2. apply Forall_app in H2 as [_ [-> _]%Forall_cons]. inversion Hs; congruence.
  - rewrite Hk' in H2. apply Forall_app in H2 as [Hl [-> Hr']%Forall_cons].
    inversion Hs; subst. cbn. split_and!; try done. by apply Forall_app.
  - unfold add_candidate. rewrite H1. done.
  - done.
  - done.
  - unfold an_Stop_end. rewrite H4. done.
Qed.


(** ** An attempt: invariants *)

Section AttemptProofs.
Context `{GrpcStatus}.
Implicit Types s : attempt.

(** The messages that may follow the first. *)
Definition tail_ok (m : answerStage) : Prop :=
  match m with AnswerResponse_Update _ | AnswerResponse_Done | AnswerResponse_Error _ => True | _ => False end.
Definition is_error_stage (m : answerStage) : Prop := match m with AnswerResponse_Error _ => True | _ => False end.

(** Before the first message went through: only an error was sent, or the
    first message itself. *)
Definition before_init s : Prop :=
  match at_main s with
  | MNew | MAnswer | MWaitHost | MEncode => at_sent s = [] /\ at_once s = OnceFresh
  | MSending => exists sdp, at_sent s = [AnswerResponse_Init sdp] /\ at_once s = OnceFresh
  | MOnce m res => at_sent s = [] /\ at_once s = OnceFresh /\ is_error_stage m /\ is_Some res
  | MInOnce res | MWaitReceiver res | MReturned res =>
      is_Some res /\ (at_sent s = [] \/ (exists m, is_error_stage m /\ at_sent s = [m]) \/ exists sdp, at_sent s = [AnswerResponse_Init sdp])
  | MSelect => False
  end.

(** After it, the messages follow it; sendDoneErrOnce has run when connect has
    come past it. *)
Definition after_init s : Prop :=
  (exists sdp l, at_sent s = AnswerResponse_Init sdp :: l /\ Forall tail_ok l) /\
  match at_main s with
  | MNew | MAnswer | MWaitHost | MEncode | MSending => False
  | MWaitReceiver _ | MReturned _ => at_once s = OnceDone
  | _ => True
  end.

Definition peer_ok s : Prop :=
  match at_main s with
  | MNew => at_peer s = PeerNone
  | MOnce _ (Some _) | MInOnce (Some _) | MWaitReceiver (Some _) => at_peer s <> PeerClosed
  | MReturned (Some _) => at_peer s <> PeerOpen
  | _ => at_peer s = PeerOpen
  end.

(** Who calls sendDoneErrOnce has a message that ends the exchange; who is in
    its function has begun it. *)
Definition gather_ok (once : onceSt) (g : gatherPc) : Prop :=
  match g with GOnce m _ => is_final m | GInOnce _ => once <> OnceFresh | _ => True end.
Definition main_ok (once : onceSt) (pc : mainPc) : Prop :=
  match pc with MOnce m _ => is_final m | MInOnce _ => once <> OnceFresh | _ => True end.
Definition receiver_ok (once : onceSt) (pc : receiverPc) : Prop :=
  match pc with ROnce m => is_final m | RInOnce => once <> OnceFresh | _ => True end.

Record attempt_inv s : Prop := {
  ai_finals : finals s = if at_once s is OnceFresh then 0 else 1;
  ai_before : at_initSent s = false ->
    Forall (fun g => exists cand, g = GWait cand) (at_gather s) /\ at_receiver s = RNone /\ before_init s;
  ai_after : at_initSent s = true -> after_init s;
  ai_peer : peer_ok s;
  ai_gather : Forall (gather_ok (at_once s)) (at_gather s);
  ai_main : main_ok (at_once s) (at_main s);
  ai_receiver : receiver_ok (at_once s) (at_receiver s);
}.

Lemma new_attempt_inv trickle : attempt_inv (new_attempt trickle).
Proof. by split. Qed.

Lemma finals_begin m s : finals (begin_send m s) = finals s + (if decide (is_final m) then 1 else 0).
Proof.
  unfold finals. cbn. rewrite filter_app, length_app. f_equal. rewrite filter_cons. by case_decide.
Qed.

Lemma error_is_final err : is_final (error_stage err).
Proof. done. Qed.

Lemma final_tail m : is_final m -> tail_ok m.
Proof. by destruct m. Qed.

(** A message that follows the first one. *)
Lemma after_init_send m s : at_initSent s = true -> tail_ok m -> after_init s -> after_init (begin_send m s).
Proof.
  intros _ Hm [(sdp & l & Hs & Hl) Hmain]. split; [|done]. exists sdp, (l ++ [m]). cbn. rewrite Hs. split; [done|].
  apply Forall_app. split; [done|by constructor].
Qed.

Ltac cases_of s := destruct s as [trickle ctxErr peer main gather gathered pending hostSeen initSent receiver receiverDone once sent added].

(** Once begun, sendDoneErrOnce stays so. *)
Lemma begun_gather once once' gather :
  (once <> OnceFresh -> once' <> OnceFresh) -> Forall (gather_ok once) gather -> Forall (gather_ok once') gather.
Proof. intros Ho Hg. apply (Forall_impl _ _ _ Hg). intros []; simpl; auto. Qed.
Lemma begun_receiver once once' pc : (once <> OnceFresh -> once' <> OnceFresh) -> receiver_ok once pc -> receiver_ok once' pc.
Proof. destruct pc; simpl; auto. Qed.
Lemma begun_main once once' pc : (once <> OnceFresh -> once' <> OnceFresh) -> main_ok once pc -> main_ok once' pc.
Proof. destruct pc; simpl; auto. Qed.

Lemma finals_snoc m sent : length (filter is_final (sent ++ [m])) = length (filter is_final sent) + (if decide (is_final m) then 1 else 0).
Proof. rewrite filter_app, length_app. f_equal. rewrite filter_cons. by case_decide. Qed.

Ltac attempt_goal :=
  unfold before_init, after_init, peer_ok, finals, returns in *; cbn;
  try done; try (by intros _; destruct_and?; simplify_eq; split_and!; eauto 10);
  try (by match goal with peer : peerSt |- _ => destruct peer end);
  try (by match goal with peer : peerSt, res : option goerror |- _ => destruct peer, res end).

Lemma main_step_inv s s' : attempt_inv s -> main_step s s' -> attempt_inv s'.
Proof.
  intros [Hf Hb Ha Hp Hg Hm Hr] Hst. unfold before_init, after_init, peer_ok, finals in *.
  destruct Hst as [err s E|s E|err s E|s E|s E E2|err s E E2|err s E|sdp s E|err s E|s E|s E|err cb s E E2|m res s E E2|m res s E E2|res s E|res s E E2];
    cases_of s; cbn in *; subst main; cbn in *.
  all: destruct initSent; [specialize (Ha eq_refl) as [(sdp0 & l0 & Hs & Hl) Hmn]; clear Hb
                          |specialize (Hb eq_refl) as (Hb1 & Hb2 & Hb3); clear Ha]; try done.
  all: split; attempt_goal.
  all: try (by destruct trickle).
  all: try (eapply begun_gather; [|exact Hg]; by auto).
  all: try (eapply begun_receiver; [|exact Hr]; by auto).
  all: try (rewrite finals_snoc).
  - destruct Hb3 as [-> ->]. done.
  - naive_solver.
  - intros _. split; [|done]. destruct Hb3 as (sdp & -> & _). by exists sdp, [].
  - rewrite Hf, E2, decide_True by done. done.
  - intros _. split; [|done]. eexists sdp0, (l0 ++ [m]). rewrite Hs. split; [done|]. apply Forall_app. split; [done|].
    constructor; [by apply final_tail|constructor].
  - rewrite Hf, E2, decide_True by done. done.
  - rewrite Hf. by destruct once.
  - rewrite Hf. by destruct once.
Qed.

Lemma receiver_step_inv s s' : attempt_inv s -> receiver_step s s' -> attempt_inv s'.
Proof.
  intros [Hf Hb Ha Hp Hg Hm Hr] Hst. unfold before_init, after_init, peer_ok, finals in *.
  destruct Hst as [s E|s E|cand s E|s E|err s E|err s E|m s E E2|m s E E2|s E];
    cases_of s; cbn in *; subst receiver; cbn in *.
  all: destruct initSent; [specialize (Ha eq_refl) as [(sdp0 & l0 & Hs & Hl) Hmn]; clear Hb
                          |specialize (Hb eq_refl) as (Hb1 & Hb2 & Hb3); clear Ha]; try done.
  all: split; attempt_goal.
  all: try (by intros _; split; [exists sdp0, l0|]).
  all: try (eapply begun_gather; [|exact Hg]; by auto).
  all: try (eapply begun_main; [|exact Hm]; by auto).
  all: try (rewrite finals_snoc).
  - rewrite Hf, E2, decide_True by done. done.
  - intros _. split; [|by destruct main; try congruence]. exists sdp0, (l0 ++ [m]). rewrite Hs. split; [done|].
    apply Forall_app. split; [done|]. constructor; [by apply final_tail|constructor].
  - rewrite Hf. by destruct once.
  - intros _. split; [by exists sdp0, l0|]. by destruct main.
Qed.

(** The goroutines of candidates: what one does, with the others left alone. *)
Lemma gather_step_inv l g g' r s s' :
  attempt_inv s -> at_gather s = l ++ g :: r -> gather_step g s g' s' ->
  attempt_inv (at_set_gather (l ++ (if g' is Some g' then [g'] else []) ++ r) s').
Proof.
  intros [Hf Hb Ha Hp Hg Hm Hr] Hl Hst. unfold before_init, after_init, peer_ok, finals in *.
  rewrite Hl in Hg, Hb. apply Forall_app in Hg as [Hgl [Hgg Hgr]%Forall_cons].
  assert (Hothers : at_initSent s = false -> Forall (fun g => exists cand, g = GWait cand) (l ++ r) /\ exists cand, g = GWait cand).
  { intros Hi. destruct (Hb Hi) as (Hw & _). apply Forall_app in Hw as [? [? ?]%Forall_cons]. split; [by apply Forall_app|done]. }
  destruct Hst as [cand s E|cand s E|s E|cand s|err cand s|s E|m b s E|m b s E|b s];
    cases_of s; unfold pending_done in *; cbn in *; subst gather.
  all: destruct initSent; [specialize (Ha eq_refl) as [(sdp0 & l0 & Hs & Hll) Hmn]; clear Hb Hothers
                          |specialize (Hb eq_refl) as (Hb1 & Hb2 & Hb3); clear Ha; destruct (Hothers eq_refl) as [Ho [c0 [=]]]]; try done.
  all: try destruct cand; try destruct b; cbn in *.
  all: split; attempt_goal.
  all: try (rewrite Forall_app, ?Forall_cons; split_and!; solve [done | eapply begun_gather; [|eassumption]; by auto]).
  all: try (eapply begun_main; [|exact Hm]; by auto).
  all: try (eapply begun_receiver; [|exact Hr]; by auto).
  all: try (by intros _; split; [exists sdp0, l0|by destruct main]).
  all: try (rewrite finals_snoc, Hf, E, decide_True by done; done).
  all: try (intros _; split; [|by destruct main; try congruence]; eexists sdp0, (l0 ++ [_]); rewrite Hs; split; [done|];
    apply Forall_app; split; [done|]; constructor; [by try apply final_tail|constructor]).
  all: try (rewrite finals_snoc, Hf, decide_False by auto; lia).
  all: try (rewrite Hf; by destruct once).
  intros _. split; [|by destruct main]. eexists sdp0, (l0 ++ [_]). rewrite Hs. split; [done|].
  apply Forall_app. split; [done|]. by constructor.
Qed.

Lemma attempt_step_inv s s' : attempt_inv s -> attempt_step s s' -> attempt_inv s'.
Proof.
  intros Hi Hst. destruct Hst as [s s' Hs|s s' Hs|l g g' r s s' Hl Hs|l g r s s' Hl Hs|cand host s Ht Hc Hg|cand host err s Ht Hc Hg|err s Hc].
  - by eapply main_step_inv.
  - by eapply receiver_step_inv.
  - by apply (gather_step_inv l g (Some g') r s s').
  - by apply (gather_step_inv l g None r s s').
  - destruct Hi as [Hf Hb Ha Hp Hgo Hm Hr]. unfold callback, before_init, after_init, peer_ok, finals in *.
    destruct cand; (split; cbn in *; try done; [|apply Forall_app; split; [done|by constructor]]);
      intros Hi; destruct (Hb Hi) as (? & ? & ?); (split; [apply Forall_app; split; [done|constructor; [by eexists|constructor]]|done]).
  - destruct Hi as [Hf Hb Ha Hp Hgo Hm Hr]. unfold callback, before_init, after_init, peer_ok, finals in *.
    by destruct cand; split; cbn in *.
  - destruct Hi as [Hf Hb Ha Hp Hgo Hm Hr]. by split.
Qed.

Lemma attempt_reachable_inv trickle s : rtc attempt_step (new_attempt trickle) s -> attempt_inv s.
Proof. intros Hr. eapply rtc_invariant; [exact attempt_step_inv|exact Hr|apply new_attempt_inv]. Qed.

(** The server on messages that follow the first. *)
Lemma server_on_tail {St : Type} (respond : WebRTCCallAnswer -> St -> St * option goerror) quote uuid l st err :
  (forall ans st, snd (respond ans st) = None) -> Forall tail_ok l ->
  snd (answererLoop respond quote uuid true ((fun m => inl (mkAnswerResponse uuid m)) <$> l) st) <> Some (Some err).
Proof.
  intros Hok Hl. revert st. induction Hl as [|m l Hm Hl IH]; intros st; [done|].
  cbn [fmap list_fmap answererLoop ar_Uuid ar_Stage]. rewrite bool_decide_eq_true_2 by done. cbn [negb].
  destruct m as [s|c| |s|t']; try done; cbn [negb].
  - specialize (Hok (ans_candidate (iceCandidateFromProto c)) st). destruct (respond _ st) as [st' o]. simpl in Hok.
    subst o. apply IH.
  - specialize (Hok (mkAnswer None None (status_Err s)) st). destruct (respond _ st) as [st' o]. simpl in Hok. by subst o.
Qed.

(** ** An attempt: its goroutines end *)

Definition holds_pending (g : gatherPc) : Prop :=
  match g with GWait (Some _) | GSending _ | GOnce _ true | GInOnce true => True | _ => False end.
#[export] Instance holds_pending_dec g : Decision (holds_pending g).
Proof. destruct g as [[]| | |? []|[]]; apply _. Defined.
Definition is_last (g : gatherPc) : Prop := match g with GWait None | GWaitPending => True | _ => False end.

Lemma count_mid l g r : length (filter holds_pending (l ++ g :: r)) =
  length (filter holds_pending (l ++ r)) + (if decide (holds_pending g) then 1 else 0).
Proof. rewrite !filter_app, filter_cons, !length_app. case_decide; simpl; lia. Qed.

(** A candidate is pending as long as its goroutine runs; one that got no
    goroutine is only counted when the context is done. *)
Record count_ok s : Prop := {
  co_count : at_ctxErr s = None \/ Exists is_last (at_gather s) ->
    at_pending s = length (filter holds_pending (at_gather s));
  co_le : length (filter holds_pending (at_gather s)) <= at_pending s;
  co_last : Exists is_last (at_gather s) -> at_gathered s = true;
  co_done : at_receiver s = REnd -> at_receiverDone s = true;
}.
(** While the function of sendDoneErrOnce runs, a goroutine is in it. *)
Definition running_ok s : Prop :=
  at_once s = OnceRunning ->
    (exists res, at_main s = MInOnce res) \/ at_receiver s = RInOnce \/ Exists (fun g => exists b, g = GInOnce b) (at_gather s).

Lemma main_step_count s s' : count_ok s -> main_step s s' -> count_ok s'.
Proof. intros [Hc Hle Hl Hd] Hs. destruct Hs; split; cbn in *; try done. by destruct (at_trickle s). Qed.

Lemma receiver_step_count s s' : count_ok s -> receiver_step s s' -> count_ok s'.
Proof. intros [Hc Hle Hl Hd] Hs. by destruct Hs; split; cbn in *. Qed.

Lemma exists_mid {A} (P : A -> Prop) l x r : Exists P (l ++ x :: r) <-> Exists P (l ++ r) \/ P x.
Proof. rewrite !Exists_app, Exists_cons. tauto. Qed.

Lemma gather_step_count l g g' r s s' :
  count_ok s -> at_gather s = l ++ g :: r -> gather_step g s g' s' ->
  count_ok (at_set_gather (l ++ (if g' is Some g' then [g'] else []) ++ r) s').
Proof.
  intros [Hc Hle Hl Hd] Hg Hs. rewrite Hg in Hc, Hle, Hl. setoid_rewrite exists_mid in Hc. setoid_rewrite exists_mid in Hl.
  rewrite count_mid in Hc, Hle.
  destruct Hs as [cand s E|cand s E|s E|cand s|err cand s|s E|m b s E|m b s E|b s];
    try destruct cand; try destruct b; unfold pending_done in *; cbn in *;
    (split; cbn; rewrite ?exists_mid, ?count_mid; cbn; [intros Hx; rewrite Hc by tauto| |tauto|exact Hd]);
    repeat case_decide; try done; lia.
Qed.

Lemma main_step_running s s' : attempt_inv s -> running_ok s -> main_step s s' -> running_ok s'.
Proof.
  intros Hi Hr Hs. unfold running_ok in *.
  assert (Hother : at_once s = OnceRunning -> (forall res, at_main s <> MInOnce res) ->
    at_receiver s = RInOnce \/ Exists (fun g => exists b, g = GInOnce b) (at_gather s)).
  { intros Ho Hm. destruct (Hr Ho) as [[res ?]|?]; [by destruct (Hm res)|done]. }
  destruct Hs as [err s E|s E|err s E|s E|s E E2|err s E E2|err s E|sdp s E|err s E|s E|s E|err cb s E E2|m res s E E2|m res s E E2|res s E|res s E E2];
    cbn in *; intros Ho; try (right; apply Hother; [done|congruence]); try done.
  - (* SendOk: before it, the others wait *)
    destruct (at_initSent s) eqn:Hi0.
    { pose proof (ai_after _ Hi Hi0) as [_ Hm]. by rewrite E in Hm. }
    destruct (ai_before _ Hi Hi0) as (Hw & Hrn & _). destruct (Hother Ho) as [?|Hex]; [congruence|congruence|].
    apply Exists_exists in Hex as (g & Hin & b & ->). rewrite Forall_forall in Hw. by destruct (Hw _ Hin).
  - left. by eexists.
Qed.

Lemma receiver_step_running s s' : running_ok s -> receiver_step s s' -> running_ok s'.
Proof.
  intros Hr Hs. unfold running_ok in *.
  destruct Hs as [s E|s E|cand s E|s E|err s E|err s E|m s E E2|m s E E2|s E]; cbn in *; intros Ho; try done; try congruence;
    try (destruct (Hr Ho) as [?|[?|?]]; [by left|congruence|by right; right]).
  by right; left.
Qed.

Lemma gather_step_running l g g' r s s' :
  running_ok s -> at_gather s = l ++ g :: r -> gather_step g s g' s' ->
  running_ok (at_set_gather (l ++ (if g' is Some g' then [g'] else []) ++ r) s').
Proof.
  intros Hr Hg Hs. unfold running_ok in *. rewrite Hg in Hr. setoid_rewrite exists_mid in Hr.
  destruct Hs as [cand s E|cand s E|s E|cand s|err cand s|s E|m b s E|m b s E|b s];
    try destruct cand; try destruct b; unfold pending_done; cbn in *; rewrite ?exists_mid; intros Ho; try congruence;
    try (destruct (Hr Ho) as [?|[?|[?|[? [=]]]]]; [by left|by right; left|by right; right; try left]).
  - right; right; right. by eexists.
  - right; right; right. by eexists.
Qed.

Record full_inv s : Prop := { fi_inv : attempt_inv s; fi_count : count_ok s; fi_running : running_ok s }.

Lemma attempt_step_full s s' : full_inv s -> attempt_step s s' -> full_inv s'.
Proof.
  intros [Hi Hc Hr] Hst. split; [by eapply attempt_step_inv|..];
    destruct Hst as [s s' Hs|s s' Hs|l g g' r s s' Hl Hs|l g r s s' Hl Hs|cand host s Ht Hx Hg|cand host err s Ht Hx Hg|err s Hx].
  - by eapply main_step_count.
  - by eapply receiver_step_count.
  - by apply (gather_step_count l g (Some g') r s s').
  - by apply (gather_step_count l g None r s s').
  - destruct Hc as [Hc Hle Hla Hd]. specialize (Hc (or_introl Hx)).
    destruct cand; split; cbn; rewrite ?exists_mid, ?count_mid, ?app_nil_r; cbn; try done;
      repeat case_decide; try done; intros; try lia; apply Hla; tauto.
  - destruct Hc as [Hc Hle Hla Hd]. specialize (Hc (or_introl Hx)).
    destruct cand; split; cbn; try done; try lia; try tauto.
    intros [?|Hex]; [done|]. apply Hla in Hex. congruence.
  - destruct Hc as [Hc Hle Hla Hd]. split; cbn; try done. intros [?|?]; [done|apply Hc; by right].
  - by eapply main_step_running.
  - by eapply receiver_step_running.
  - by apply (gather_step_running l g (Some g') r s s').
  - by apply (gather_step_running l g None r s s').
  - unfold running_ok in *. destruct cand; cbn; rewrite Exists_app; tauto.
  - unfold running_ok in *. by destruct cand.
  - done.
Qed.

Lemma attempt_reachable_full trickle s : rtc attempt_step (new_attempt trickle) s -> full_inv s.
Proof.
  intros Hr. eapply rtc_invariant; [exact attempt_step_full|exact Hr|]. split; [apply new_attempt_inv| |done].
  split; cbn; try done. by intros ?%Exists_nil.
Qed.

(** A goroutine can be let run while the context is done and nobody is in the
    function of sendDoneErrOnce; afterwards both are so again. *)
Definition free s : Prop := is_Some (at_ctxErr s) /\ at_once s <> OnceRunning.

Lemma rtc_full s s' : full_inv s -> rtc attempt_step s s' -> full_inv s'.
Proof. intros Hi Hr. by eapply rtc_invariant; [exact attempt_step_full|exact Hr|]. Qed.

Lemma can_be_free s :
  full_inv s -> is_Some (at_ctxErr s) -> exists s', rtc attempt_step s s' /\ free s'.
Proof.
  intros [_ _ Hr] Hc. destruct (at_once s) eqn:Ho; [exists s; split; [done|split; [done|by rewrite Ho]]| |
    exists s; split; [done|split; [done|by rewrite Ho]]].
  destruct (Hr Ho) as [[res Hm]|[Hm|Hm]].
  - eexists. split; [apply rtc_once, AtMain; by apply OnceSent|]. by split.
  - eexists. split; [apply rtc_once, AtReceiver; by apply ROnceSent|]. by split.
  - apply Exists_exists in Hm as (g & (l & r & Hl)%list_elem_of_split & b & ->).
    eexists. split; [apply rtc_once, (AtGatherEnd l (GInOnce b) r); [done|by apply GOnceSent]|]. by destruct b.
Qed.

(** One goroutine of a candidate. *)
Lemma gather_can_end l g r s :
  free s -> at_gather s = l ++ g :: r -> (g = GWaitPending -> at_pending s = 0) ->
  exists s', rtc attempt_step s s' /\ free s' /\ at_gather s' = l ++ r /\ at_main s' = at_main s /\ at_receiver s' = at_receiver s.
Proof.
  intros [Hc Ho] Hg Hp.
  (* the one that calls sendDoneErrOnce *)
  assert (Honce : forall m b s, free s -> at_gather s = l ++ GOnce m b :: r ->
    exists s', rtc attempt_step s s' /\ free s' /\ at_gather s' = l ++ r /\ at_main s' = at_main s /\ at_receiver s' = at_receiver s).
  { clear. intros m b s [Hc Ho] Hg. destruct (at_once s) eqn:E; [|done|].
    - set (s1 := at_set_gather (l ++ GInOnce b :: r) (begin_once m s)).
      exists (at_set_gather (l ++ r) (pending_done b (at_set_once OnceDone s1))). split; [|by destruct b; cbn; split_and!].
      eapply rtc_l; [apply (AtGather l _ (GInOnce b) r s (begin_once m s) Hg); by apply GOnceFirst|].
      apply rtc_once, (AtGatherEnd l (GInOnce b) r); [done|apply GOnceSent].
    - eexists. split; [eapply rtc_once, (AtGatherEnd l _ r _ _ Hg); by apply GOnceOver|].
      destruct b; cbn; (split_and!; try done; split; [done|cbn; by rewrite E]). }
  destruct g as [cand|cand| |m b|b].
  - eexists. split; [eapply rtc_once, (AtGatherEnd l _ r _ _ Hg); by apply GCtxDone|]. by destruct cand; cbn; split_and!.
  - eexists. split; [eapply rtc_once, (AtGatherEnd l _ r _ _ Hg); by apply GSent|]. by cbn; split_and!.
  - destruct (Honce AnswerResponse_Done false (at_set_gather (l ++ GOnce AnswerResponse_Done false :: r) s)) as (s' & Hr & H');
      [by split|done|]. exists s'. split; [|done]. eapply rtc_l; [|exact Hr]. eapply (AtGather l _ _ r _ _ Hg).
    apply GNonePending. by apply Hp.
  - by eapply Honce.
  - eexists. split; [eapply rtc_once, (AtGatherEnd l _ r _ _ Hg); by apply GOnceSent|]. by destruct b; cbn; split_and!.
Qed.

(** All of them: first those of candidates, then the last one's. *)
Lemma gathers_can_end s :
  full_inv s -> free s ->
  exists s', rtc attempt_step s s' /\ free s' /\ at_gather s' = [] /\ at_main s' = at_main s /\ at_receiver s' = at_receiver s.
Proof.
  intros Hi Hf. remember (length (at_gather s)) as n eqn:Hn. revert s Hi Hf Hn. induction n as [|n IH]; intros s Hi Hf Hn.
  { exists s. split; [done|]. by destruct (at_gather s). }
  assert (Hdec : forall g, {g = GWaitPending} + {g <> GWaitPending}) by (intros []; by (left + right)).
  assert (exists l g r, at_gather s = l ++ g :: r /\ (g = GWaitPending -> at_pending s = 0)) as (l & g & r & Hg & Hp).
  { destruct (Forall_Exists_dec (fun g => g = GWaitPending) (fun g => g <> GWaitPending) Hdec (at_gather s)) as [Hall|Hex].
    - destruct (at_gather s) as [|g gs] eqn:Hg; [done|]. exists [], g, gs. split; [done|]. intros ->.
      rewrite (co_count _ (fi_count _ Hi)).
      + rewrite Hg. clear -Hall. induction Hall as [|x xs -> _ IH]; [done|]. by rewrite filter_cons_False by (by intros []).
      + right. rewrite Hg. by left.
    - apply Exists_exists in Hex as (g & (l & r & Hl)%list_elem_of_split & Hne). by exists l, g, r. }
  destruct (gather_can_end l g r s Hf Hg Hp) as (s1 & Hr1 & Hf1 & Hg1 & Hm1 & Hrc1).
  destruct (IH s1) as (s' & Hr & Hf' & Hg' & Hm' & Hrc'); [by eapply rtc_full|done| |].
  { rewrite Hg1, length_app. rewrite Hg, len_mid in Hn. lia. }
  exists s'. split; [by etrans|]. split_and!; try done; congruence.
Qed.

Lemma receiver_can_end s :
  full_inv s -> free s ->
  exists s', rtc attempt_step s s' /\ free s' /\ at_gather s' = at_gather s /\ at_main s' = at_main s /\
    (at_receiver s' = RNone \/ at_receiver s' = REnd /\ at_receiverDone s' = true).
Proof.
  intros Hi [Hc Ho]. destruct (at_receiver s) as [| |m| |] eqn:Hr.
  - exists s. split; [done|]. split_and!; try done. by left.
  - eexists. split; [apply rtc_once, AtReceiver; by apply RecvFailed|]. cbn. split_and!; try done. by right.
  - destruct (at_once s) eqn:E; [|done|].
    + set (s1 := at_set_receiver RInOnce (begin_once m s)).
      exists (at_set_receiver REnd (at_set_receiverDone true (at_set_once OnceDone s1))).
      split; [|cbn; split_and!; try done; by right].
      eapply rtc_l; [by apply AtReceiver, (ROnceFirst m)|]. apply rtc_once, AtReceiver. by apply ROnceSent.
    + eexists. split; [apply rtc_once, AtReceiver; by apply (ROnceOver m)|]. cbn.
      split_and!; try done; [split; [done|cbn; by rewrite E]|by right].
  - eexists. split; [apply rtc_once, AtReceiver; by apply ROnceSent|]. cbn. split_and!; try done. by right.
  - exists s. split; [done|]. split_and!; try done. right. split; [done|]. by apply (fi_count _ Hi).
Qed.

Definition receiver_over s : Prop := at_receiver s = RNone \/ at_receiver s = REnd /\ at_receiverDone s = true.

Lemma main_can_return s :
  free s -> receiver_over s ->
  exists s' res, rtc attempt_step s s' /\ at_gather s' = at_gather s /\ receiver_over s' /\ at_main s' = MReturned res.
Proof.
  intros Hf Hrc. unfold receiver_over in *.
  assert (Hwait : forall res s, at_receiver s = RNone \/ at_receiver s = REnd /\ at_receiverDone s = true ->
    at_main s = MWaitReceiver res ->
    exists s' res, rtc attempt_step s s' /\ at_gather s' = at_gather s /\ receiver_over s' /\ at_main s' = MReturned res).
  { clear. intros res s Hr Hm. eexists _, res. split; [apply rtc_once, AtMain; apply (ReceiverDone res); [done|]|done]. naive_solver. }
  assert (Honce : forall m res s, free s -> receiver_over s -> at_main s = MOnce m res ->
    exists s' res, rtc attempt_step s s' /\ at_gather s' = at_gather s /\ receiver_over s' /\ at_main s' = MReturned res).
  { intros m res b [_ Ho] Hr Hm. destruct (at_once b) eqn:E; [|done|].
    - destruct (Hwait res (at_set_main (MWaitReceiver res) (at_set_once OnceDone (at_set_main (MInOnce res) (begin_once m b)))))
        as (s' & res' & Hs' & H'); [done|done|]. exists s', res'. split; [|done].
      eapply rtc_l; [by apply AtMain, (OnceFirst m res)|]. eapply rtc_l; [by apply AtMain, (OnceSent res)|]. done.
    - destruct (Hwait res (at_set_main (MWaitReceiver res) b)) as (s' & res' & Hs' & H'); [done|done|].
      exists s', res'. split; [|done]. eapply rtc_l; [by apply AtMain, (OnceOver m res)|]. done. }
  destruct Hf as [[e Hc] Ho]. destruct (at_main s) as [| | | | | |m res|res|res|res] eqn:Hm.
  - destruct (Honce (error_stage e) (Some e) (at_set_main (MOnce (error_stage e) (Some e)) s)) as (s' & res' & Hs' & H'); [by split|done|done|].
    exists s', res'. split; [|done]. by eapply rtc_l; [apply AtMain, (NewFailed e)|].
  - eexists _, _. split; [by apply rtc_once, AtMain, (AnswerFailed e)|done].
  - eexists _, _. split; [by apply rtc_once, AtMain, (HostCtxDone e)|done].
  - destruct (Honce (error_stage e) (Some e) (at_set_main (MOnce (error_stage e) (Some e)) s)) as (s' & res' & Hs' & H'); [by split|done|done|].
    exists s', res'. split; [|done]. by eapply rtc_l; [apply AtMain, (EncodeFailed e)|].
  - eexists _, _. split; [by apply rtc_once, AtMain, (SendFailed e)|done].
  - destruct (Honce (error_stage e) (Some e) (at_set_main (MOnce (error_stage e) (Some e)) s)) as (s' & res' & Hs' & H'); [by split|done|done|].
    exists s', res'. split; [|done]. by eapply rtc_l; [apply AtMain, (CtxDone e e)|].
  - apply (Honce m res s); [split; [by eexists|done]|done|done].
  - destruct (Hwait res (at_set_main (MWaitReceiver res) (at_set_once OnceDone s))) as (s' & res' & Hs' & H'); [done|done|].
    exists s', res'. split; [|done]. by eapply rtc_l; [apply AtMain, (OnceSent res)|].
  - by apply (Hwait res s).
  - by exists s, res.
Qed.
End AttemptProofs.

(** ** Properties of an attempt *)

(** C9: Whatever the goroutines of an attempt do, the signaling server accepts what
    they send: when its queue takes every answer, [answererLoop] never ends
    with an error on the messages of an attempt; and at most one of them is
    Done or Error. *)
Theorem attempt_speaks_protocol `{GrpcStatus} {St : Type}
    (respond : WebRTCCallAnswer -> St -> St * option goerror) (quote : string -> string) (uuid : string) (trickle : bool)
    (s : attempt) (st : St) :
  rtc attempt_step (new_attempt trickle) s -> (forall ans st, snd (respond ans st) = None) ->
  finals s <= 1 /\ forall err, snd (answererLoop respond quote uuid false (responses_of uuid s) st) <> Some (Some err).
Proof.
  intros Hr%attempt_reachable_inv Hok. split; [rewrite (ai_finals _ Hr); destruct (at_once s); lia|].
  intros err. unfold responses_of.
  assert (Hinit : forall sdp l, Forall tail_ok l ->
    snd (answererLoop respond quote uuid false ((fun m => inl (mkAnswerResponse uuid m)) <$> (AnswerResponse_Init sdp :: l)) st)
    <> Some (Some err)).
  { intros sdp l Hl. cbn [fmap list_fmap answererLoop ar_Uuid ar_Stage]. rewrite bool_decide_eq_true_2 by done. cbn [negb].
    specialize (Hok (ans_sdp sdp) st) as Ho. destruct (respond (ans_sdp sdp) st) as [st' o]. simpl in Ho. subst o.
    by apply server_on_tail. }
  destruct (at_initSent s) eqn:Hi.
  - destruct (ai_after _ Hr Hi) as [(sdp & l & -> & Hl) _]. by apply Hinit.
  - destruct (ai_before _ Hr Hi) as (_ & _ & Hb). unfold before_init in Hb.
    assert (at_sent s = [] \/ (exists m, is_error_stage m /\ at_sent s = [m]) \/ exists sdp, at_sent s = [AnswerResponse_Init sdp])
      as [-> | [(m & Hm & ->) | [sdp ->]]] by (destruct (at_main s); naive_solver).
    + done.
    + destruct m; try done. cbn [fmap list_fmap answererLoop ar_Uuid ar_Stage]. rewrite bool_decide_eq_true_2 by done. cbn [negb].
      specialize (Hok (mkAnswer None None (status_Err st0)) st) as Ho. destruct (respond _ st) as [st' o]. simpl in Ho. by subst o.
    + by apply Hinit.
Qed.

(** When connect returns without an error the answer was sent, Done or an error
    was reported exactly once, and the peer connection is open; when it returns
    an error the peer connection is not left open. *)
Theorem connect_outcome `{GrpcStatus} (trickle : bool) (s : attempt) (res : option goerror) :
  rtc attempt_step (new_attempt trickle) s -> at_main s = MReturned res ->
  match res with
  | None => finals s = 1 /\ at_peer s = PeerOpen /\ exists sdp l, at_sent s = AnswerResponse_Init sdp :: l
  | Some _ => at_peer s <> PeerOpen
  end.
Proof.
  intros Hr%attempt_reachable_inv Hm. pose proof (ai_peer _ Hr) as Hp. unfold peer_ok in Hp. rewrite Hm in Hp.
  destruct res as [err|]; [done|]. rewrite (ai_finals _ Hr). destruct (at_initSent s) eqn:Hi.
  - destruct (ai_after _ Hr Hi) as [(sdp & l & Hs & _) Ho]. rewrite Hm in Ho. rewrite Ho. split_and!; try done. by exists sdp, l.
  - destruct (ai_before _ Hr Hi) as (_ & _ & Hb). unfold before_init in Hb. rewrite Hm in Hb. by destruct Hb as [[] _].
Qed.

(** C23: Once its context is done, an attempt leaves no goroutine behind: those of
    the candidates, the receiver and connect itself can all end, wherever they
    are. *)
Theorem attempt_goroutines_can_end `{GrpcStatus} (trickle : bool) (s : attempt) :
  rtc attempt_step (new_attempt trickle) s -> is_Some (at_ctxErr s) ->
  exists s' res, rtc attempt_step s s' /\ at_main s' = MReturned res /\ at_gather s' = [] /\
    (at_receiver s' = RNone \/ at_receiver s' = REnd).
Proof.
  intros Hr%attempt_reachable_full Hc.
  destruct (can_be_free s Hr Hc) as (s1 & Hr1 & Hf1).
  destruct (gathers_can_end s1) as (s2 & Hr2 & Hf2 & Hg2 & _ & _); [by eapply rtc_full|done|].
  assert (full_inv s2) as Hi2 by (do 2 (eapply rtc_full; [|done]); done).
  destruct (receiver_can_end s2 Hi2 Hf2) as (s3 & Hr3 & Hf3 & Hg3 & _ & Ho3).
  destruct (main_can_return s3 Hf3 Ho3) as (s4 & res & Hr4 & Hg4 & Ho4 & Hm4).
  exists s4, res. split; [do 3 (etrans; [done|]); done|]. split; [done|]. split; [congruence|].
  by destruct Ho4 as [?|[? _]]; [left|right].
Qed.

(** An attempt that fails before it has an answer tells the signaling server
    nothing: when pion creates no answer, or no candidate of a host shows up in
    time, connect returns an error and neither Done nor Error is ever sent. *)
Theorem attempt_may_end_silently `{GrpcStatus} (err : goerror) :
  exists s, rtc attempt_step (new_attempt true) s /\ at_main s = MReturned (Some err) /\ at_sent s = [] /\
    at_gather s = [] /\ forall s', rtc attempt_step s s' -> at_sent s' = [].
Proof.
  set (waiting := at_set_main MWaitHost (at_set_main MAnswer (at_set_peer PeerOpen (new_attempt true)))).
  exists (returns (Some err) (at_set_ctxErr (Some err) waiting)). split; [|split; [done|split; [done|split; [done|]]]].
  - eapply rtc_l; [by apply AtMain, NewOk|]. eapply rtc_l; [by apply AtMain, AnswerOk|].
    eapply rtc_l; [by apply (AtCtxDone err)|]. apply rtc_once, AtMain. by apply HostCtxDone.
  - intros s' Hr.
    set (silent := fun s => at_main s = MReturned (Some err) /\ at_sent s = [] /\ at_gather s = [] /\ at_receiver s = RNone /\
      is_Some (at_ctxErr s)).
    enough (silent s') as (_ & ? & _) by done. refine (rtc_invariant _ silent _ _ _ Hr _).
    + intros s1 s2 (H1 & H2 & H3 & H4 & [e H5]) Hst. unfold silent.
      destruct Hst as [s1 s2 Hs|s1 s2 Hs|l g g' r s1 s2 Hg Hs|l g r s1 s2 Hg Hs|? ? s1 ? Hc|? ? ? s1 ? Hc|? s1 Hc];
        try (rewrite Hg in H3; by destruct l); try congruence; inversion Hs; congruence.
    + by split_and!; cbn.
Qed.

(** The candidates of an attempt are sent by goroutines of their own, and
    nothing keeps two of them from being in the Send of the same stream. *)
Theorem candidates_are_sent_concurrently `{GrpcStatus} (cand1 cand2 : ICECandidate) (sdp : string) :
  exists s, rtc attempt_step (new_attempt true) s /\ sends_in_progress s = 2 /\
    at_sent s = [AnswerResponse_Init sdp; AnswerResponse_Update cand1; AnswerResponse_Update cand2].
Proof.
  exists (mkAttempt true None PeerOpen MSelect [GSending cand1; GSending cand2] false 2 true true RReceiving false OnceFresh
    [AnswerResponse_Init sdp; AnswerResponse_Update cand1; AnswerResponse_Update cand2] []).
  split; [|done].
  eapply rtc_l; [by apply AtMain, NewOk|]. eapply rtc_l; [by apply AtMain, AnswerOk|].
  eapply rtc_l; [by apply (AtCallback (Some cand1) true)|]. eapply rtc_l; [by apply (AtCallback (Some cand2) true)|].
  eapply rtc_l; [by apply AtMain, HostSeen|]. eapply rtc_l; [by apply AtMain, (EncodeOk sdp)|].
  eapply rtc_l; [by apply AtMain, SendOk|].
  eapply rtc_l; [eapply (AtGather [] (GWait (Some cand1)) (GSending cand1)); [done|by apply GUpdate]|].
  eapply rtc_l; [eapply (AtGather [GSending cand1] (GWait (Some cand2)) (GSending cand2) []); [done|by apply GUpdate]|].
  apply rtc_refl.
Qed.

(** ** Concrete inputs *)
Section Witnesses.
#[local] Instance sample_status : GrpcStatus := {|
  status_FromContextError _ := None; status_Convert _ := None; status_FromError _ := (None, false) |}.

Ltac connector_step_with rule :=
  eapply rtc_l; [eapply (AConnector [] _ _ []); [reflexivity|eapply rule; cbn; (done || lia || by apply not_elem_of_nil)]|eval_state].

(** A worker closes its last stream for sending when it ends, and no other: the
    streams on which it answered earlier callers stay half open. *)
Lemma earlier_streams_stay_open :
  exists a, rtc background_step started a /\ an_closed a = true /\ an_stopping a = false /\
    an_streams a = 2 /\ an_sendClosed a = [1].
Proof.
  exists (mkAnswerer true false 0 None [] [] 0 [7] [7] 2 [1]). split; [|done].
  eval_state. connector_step_with KDial.
  eapply rtc_l; [eapply (AConnector [] _ _ []); [reflexivity|apply (KDialed 7), not_elem_of_nil]|eval_state].
  connector_step_with KConnected.
  eapply rtc_l; [eapply (AConnector [] _ _ []); [reflexivity|apply KStartAnswerer; unfold defaultMaxAnswerers; lia]|eval_state].
  eapply rtc_l; [eapply (AConnector [] _ _ []); [reflexivity|apply KStartAnswerer; unfold defaultMaxAnswerers; lia]|eval_state].
  eapply rtc_l; [eapply (AConnectorEnd [] _ []); [reflexivity|apply KSpawned; unfold defaultMaxAnswerers; lia]|eval_state].
  (* the first worker answers a caller, then waits for the next *)
  do 2 (eapply rtc_l; [eapply (AWorker [] _ _ [_]); [reflexivity|by apply WOpen]|eval_state];
        eapply rtc_l; [eapply (AWorker [] _ _ [_]); [reflexivity|by apply WOpened]|eval_state];
        eapply rtc_l; [eapply (AWorker [] _ _ [_]); [reflexivity|by apply WInit]|eval_state];
        eapply rtc_l; [eapply (AWorker [] _ _ [_]); [reflexivity|by apply WConnected]|eval_state]).
  eapply rtc_l; [by apply AStopBegin|eval_state].
  eapply rtc_l; [eapply (AWorkerEnd [] _ [_]); [reflexivity|by apply WClosed]|eval_state].
  eapply rtc_l; [eapply (AWorkerEnd [] _ []); [reflexivity|by apply WClosed]|eval_state].
  eapply rtc_l; [by apply AStopEnd|eval_state]. apply rtc_refl.
Qed.

(** An answerer that is stopped before it has dialed. *)
Definition stopping_answerer : answerer := an_Stop_begin started.
Definition stopped_answerer : answerer := an_Stop_end (bg_done (an_set_connectors [] stopping_answerer)).

Lemma stopped_reachable : rtc background_step started stopped_answerer.
Proof.
  eapply rtc_l; [by apply AStopBegin|].
  eapply rtc_l; [apply (AConnectorEnd [] KTop [] _ stopping_answerer); [reflexivity|by apply KClosed]|].
  by apply rtc_once, AStopEnd.
Qed.

Lemma answerer_stop_leaves_nothing_witness :
  an_connectors stopped_answerer = [] /\ an_workers stopped_answerer = [] /\ an_candidates stopped_answerer = 0 /\
  an_conn stopped_answerer = None /\ an_shut stopped_answerer = an_dialed stopped_answerer /\
  length (an_dialed stopped_answerer) <= 1.
Proof. exact (answerer_stop_leaves_nothing stopped_answerer stopped_reachable eq_refl eq_refl). Defined.

Lemma answerer_stop_can_return_witness :
  exists a', rtc background_step stopping_answerer a' /\ an_closed a' = true /\ an_stopping a' = false.
Proof. apply answerer_stop_can_return; [by apply rtc_once, AStopBegin|reflexivity]. Defined.

Lemma restarted_answerer_is_deaf_witness :
  let a' := bg_done (an_set_connectors [] (an_Start stopped_answerer)) in
  an_workers a' = [] /\ an_conn a' = None /\ an_dialed a' = [].
Proof.
  apply (restarted_answerer_is_deaf stopped_answerer); [reflexivity..|].
  apply rtc_once, ABackground, (AConnectorEnd [] KTop [] _ (an_Start stopped_answerer)); [reflexivity|by apply KClosed].
Defined.

(** An attempt without trickle that succeeds. *)
Definition sample_attempt : attempt :=
  mkAttempt false None PeerOpen (MReturned None) [] false 0 false true RNone false OnceDone
    [AnswerResponse_Init "sdp"; AnswerResponse_Done] [].

Lemma sample_attempt_reachable : rtc attempt_step (new_attempt false) sample_attempt.
Proof.
  eapply rtc_l; [by apply AtMain, NewOk|]. eapply rtc_l; [by apply AtMain, (EncodeOk "sdp")|].
  eapply rtc_l; [by apply AtMain, SendOk|]. eapply rtc_l; [by apply AtMain, Ready|].
  eapply rtc_l; [by apply AtMain, (OnceFirst AnswerResponse_Done None)|].
  eapply rtc_l; [by apply AtMain, (OnceSent None)|]. apply rtc_once, AtMain, (ReceiverDone None); [done|by left].
Qed.

Lemma attempt_speaks_protocol_witness :
  finals sample_attempt <= 1 /\
  forall err, snd (answererLoop (fun ans (st : list WebRTCCallAnswer) => (st ++ [ans], None)) id "u" false
    (responses_of "u" sample_attempt) []) <> Some (Some err).
Proof. apply (attempt_speaks_protocol _ _ _ false); [exact sample_attempt_reachable|done]. Defined.

Lemma connect_outcome_witness :
  finals sample_attempt = 1 /\ at_peer sample_attempt = PeerOpen /\
  exists sdp l, at_sent sample_attempt = AnswerResponse_Init sdp :: l.
Proof. exact (connect_outcome false sample_attempt None sample_attempt_reachable eq_refl). Defined.

Lemma attempt_goroutines_can_end_witness :
  exists s' res, rtc attempt_step (at_set_ctxErr (Some (EIs Canceled)) (new_attempt true)) s' /\
    at_main s' = MReturned res /\ at_gather s' = [] /\ (at_receiver s' = RNone \/ at_receiver s' = REnd).
Proof.
  apply (attempt_goroutines_can_end true); [by apply rtc_once, AtCtxDone|by eexists].
Defined.
End Witnesses.
