(* ===== verification/Caller.v ===== *)
(** * The caller: [rpc/wrtc_client.go]

    How a WebRTC connection is dialed through a signaling server: the options
    of the signaling connection, what the goroutine of exchangeCandidates does
    with the responses of Call, and the goroutines of dialWebRTC around it as a
    step relation. Pion, the clock and the results of remote calls are
    arguments or chosen by the step. *)

From S2P Require Import Prelude GoError BaseStream CallQueueMemory CallQueueMongo MongoOffers SignalingServer Signaling Answerer Dialer Dial.
From stdpp Require Import sorting.

(** ** Errors *)

(** [isEOF]. *)
Definition isEOF `{GrpcStatus} (err : goerror) : bool :=
  let '(s, isGRPCErr) := status_FromError (Some err) in
  errors_Is err EOF
  || (isGRPCErr && (bool_decide (status_Code s = Internal) && str_contains (status_Message s) "EOF")).

(** Whether [sendErr] drops an error. *)
Definition sendErr_drops `{GrpcStatus} (haveInit : bool) (err : goerror) : bool :=
  let '(s, ok) := status_FromError (Some err) in
  (haveInit && isEOF err) || (ok && str_contains (status_Message s) noActiveOfferStr).

(** What an error of OptionalWebRTCConfig becomes. *)
Definition config_error `{GrpcStatus} (err : goerror) : goerror :=
  let '(s, ok) := status_FromError (Some err) in
  if ok && (bool_decide (status_Code s = Unimplemented)
            || (bool_decide (status_Code s = InvalidArgument) && bool_decide (status_Message s = hostNotAllowedMsg)))
  then ErrNoWebRTCSignaler else err.

(** ** The signaling connection *)

(** The options with which [dialSignalingServer] dials. *)
Definition signaling_options (host : string) (d : dialOptions) : dialOptions :=
  let w := webrtcOpts d in
  let d1 :=
    do_set_externalAuthMaterial (SignalingExternalAuthAuthMaterial w)
      (do_set_externalAuthInsecure (SignalingExternalAuthInsecure w)
        (do_set_externalAuthToEntity (SignalingExternalAuthToEntity w)
          (do_set_externalAuthAddr (SignalingExternalAuthAddress w)
            (do_set_creds (SignalingCreds w)
              (do_set_authEntity (SignalingAuthEntity w) (do_set_insecure (SignalingInsecure w) d)))))) in
  if bool_decide (authEntity d1 = EmptyString) then
    if bool_decide (externalAuthAddr d1 = EmptyString) then do_set_authEntity host d1
    else do_set_authEntity (externalAuthAddr d1) d1
  else d1.

Section Network.
Context `{Multierr goerror} (hash : string -> string).
Context (probe : string -> probeResult).
Context (grpcDial : string -> transport -> rpcAuth -> option goerror).
Context (cacheHit : string -> string -> string -> bool).
Context (closeErr : netConn -> option goerror).

(** [dialSignalingServer]. *)
Definition dialSignalingServer (signalingServer host : string) (d : dialOptions) : dialM :=
  dialDirectGRPC hash probe grpcDial cacheHit closeErr direct_fuel signalingServer (signaling_options host d).
End Network.

(** ** exchangeCandidates *)

(** What [callClient.Recv] gives. *)
Inductive callRecv :=
  | RecvResp (resp : CallResponse)
  | RecvUnknown (type : string)
  | RecvErr (err : goerror).

(** The variables of the exchange and what it did to the peer connection. *)
Record callerView := mkCallerView {
  cv_haveInit : bool;
  cv_uuid : string;
  cv_remote : option string;          (* the answer that was set *)
  cv_added : list ICECandidateInit;   (* AddICECandidate *)
}.
Definition no_view : callerView := mkCallerView false EmptyString None [].

(** What pion makes of an answer, decoded and set, and of a candidate. *)
Record peerAnswers := mkPeerAnswers {
  pa_answer : string -> option goerror;
  pa_candidate : ICECandidateInit -> option goerror;
}.

(** One round of [exchangeCandidates]: what it returns, if it does, where
    [inl true] is the return of sendDone. *)
Inductive exchangeEnd := ExErr (err : option goerror) | ExSendDone.
Definition exchange_round (quote : string -> string) (peer : peerAnswers) (disableTrickle : bool) (ctxErr : option goerror)
    (recv : callRecv) (v : callerView) : callerView * option exchangeEnd :=
  match ctxErr with
  | Some err => (v, Some (ExErr (if errors_Is err Canceled then None else Some err)))
  | None =>
      match recv with
      | RecvErr err => (v, Some (ExErr (Some err)))
      | RecvUnknown t => (v, Some (ExErr (Some (ENew ("unexpected stage " +:+ t)))))
      | RecvResp (CallResponse_Init uuid sdp) =>
          if cv_haveInit v then (v, Some (ExErr (Some (ENew "got init stage more than once"))))
          else
            let v1 := mkCallerView true uuid (cv_remote v) (cv_added v) in
            match pa_answer peer sdp with
            | Some err => (v1, Some (ExErr (Some err)))
            | None =>
                (mkCallerView true uuid (Some sdp) (cv_added v), if disableTrickle then Some ExSendDone else None)
            end
      | RecvResp (CallResponse_Update uuid candidate) =>
          if negb (cv_haveInit v) then (v, Some (ExErr (Some (ENew "got update stage before init stage"))))
          else if negb (bool_decide (uuid = cv_uuid v)) then
            (v, Some (ExErr (Some (ENew ("uuid mismatch; have=" +:+ quote uuid +:+ " want=" +:+ quote (cv_uuid v))))))
          else
            let cand := iceCandidateFromProto candidate in
            match pa_candidate peer cand with
            | Some err => (v, Some (ExErr (Some err)))
            | None => (mkCallerView (cv_haveInit v) (cv_uuid v) (cv_remote v) (cv_added v ++ [cand]), None)
            end
      end
  end.

(** The loop while its context is not done. *)
Fixpoint exchange_loop (quote : string -> string) (peer : peerAnswers) (disableTrickle : bool) (recvs : list callRecv)
    (v : callerView) : callerView * option exchangeEnd :=
  match recvs with
  | [] => (v, None)
  | r :: recvs' =>
      match exchange_round quote peer disableTrickle None r v with
      | (v', None) => exchange_loop quote peer disableTrickle recvs' v'
      | res => res
      end
  end.

(** ** The goroutines of dialWebRTC *)

(** A message of CallUpdate with the identifier it carries. *)
Abbreviation updateMsg := (string * callUpdate)%type.

(** A goroutine of OnICECandidate: it waits for the answer; it is in CallUpdate
    with its candidate; it waits for the others; it is about to call
    sendDoneErrorOnce, or in its CallUpdate; it is in sendErr. *)
Inductive candPc :=
  | CWait (cand : option ICECandidate)
  | CCalling (cand : ICECandidate)
  | CWaitPending
  | COnce
  | CInOnce
  | CSendErr (err : goerror) (pending : bool).

(** The goroutine of exchangeCandidates: receiving, in sendDone (without
    trickle), in sendErr. *)
Inductive exchangePc := XNone | XReceiving | XOnce | XInOnce | XSendErr (err : goerror) | XEnd.

(** dialWebRTC: up to the call of newPeerConnectionForClient; it waits for a
    host candidate; it calls Call; it is in doCall; it reports an error or Done
    through sendDoneErrorOnce; it has returned. *)
Inductive dialPc :=
  | DSetup | DPeer | DWaitHost | DCall | DDoCall
  | DOnceErr (err : goerror) | DInOnceErr (err : goerror)
  | DOnceDone | DInOnceDone
  | DReturned (err : option goerror).

Record dialing := mkDialing {
  dg_trickle : bool;
  dg_ctxErr : option goerror;          (* exchangeCtx *)
  dg_conn : peerSt;                    (* the signaling connection *)
  dg_peer : peerSt;
  dg_view : callerView;
  dg_main : dialPc;
  dg_exchange : exchangePc;
  dg_cands : list candPc;
  dg_gathered : bool;
  dg_pending : nat;                    (* pendingCandidates *)
  dg_hostSeen : bool;                  (* waitOneHost *)
  dg_once : onceSt;                    (* sendDoneErrorOnce *)
  dg_updates : list updateMsg;         (* the calls of CallUpdate that were sent *)
}.

Definition new_dialing (trickle : bool) : dialing :=
  mkDialing trickle None PeerNone PeerNone no_view DSetup XNone [] false 0 false OnceFresh [].

Definition dg_set_ctxErr v s := mkDialing (dg_trickle s) v (dg_conn s) (dg_peer s) (dg_view s) (dg_main s) (dg_exchange s)
  (dg_cands s) (dg_gathered s) (dg_pending s) (dg_hostSeen s) (dg_once s) (dg_updates s).
Definition dg_set_conn v s := mkDialing (dg_trickle s) (dg_ctxErr s) v (dg_peer s) (dg_view s) (dg_main s) (dg_exchange s)
  (dg_cands s) (dg_gathered s) (dg_pending s) (dg_hostSeen s) (dg_once s) (dg_updates s).
Definition dg_set_peer v s := mkDialing (dg_trickle s) (dg_ctxErr s) (dg_conn s) v (dg_view s) (dg_main s) (dg_exchange s)
  (dg_cands s) (dg_gathered s) (dg_pending s) (dg_hostSeen s) (dg_once s) (dg_updates s).
Definition dg_set_view v s := mkDialing (dg_trickle s) (dg_ctxErr s) (dg_conn s) (dg_peer s) v (dg_main s) (dg_exchange s)
  (dg_cands s) (dg_gathered s) (dg_pending s) (dg_hostSeen s) (dg_once s) (dg_updates s).
Definition dg_set_main v s := mkDialing (dg_trickle s) (dg_ctxErr s) (dg_conn s) (dg_peer s) (dg_view s) v (dg_exchange s)
  (dg_cands s) (dg_gathered s) (dg_pending s) (dg_hostSeen s) (dg_once s) (dg_updates s).
Definition dg_set_exchange v s := mkDialing (dg_trickle s) (dg_ctxErr s) (dg_conn s) (dg_peer s) (dg_view s) (dg_main s) v
  (dg_cands s) (dg_gathered s) (dg_pending s) (dg_hostSeen s) (dg_once s) (dg_updates s).
Definition dg_set_cands v s := mkDialing (dg_trickle s) (dg_ctxErr s) (dg_conn s) (dg_peer s) (dg_view s) (dg_main s)
  (dg_exchange s) v (dg_gathered s) (dg_pending s) (dg_hostSeen s) (dg_once s) (dg_updates s).
Definition dg_set_gathered v s := mkDialing (dg_trickle s) (dg_ctxErr s) (dg_conn s) (dg_peer s) (dg_view s) (dg_main s)
  (dg_exchange s) (dg_cands s) v (dg_pending s) (dg_hostSeen s) (dg_once s) (dg_updates s).
Definition dg_set_pending v s := mkDialing (dg_trickle s) (dg_ctxErr s) (dg_conn s) (dg_peer s) (dg_view s) (dg_main s)
  (dg_exchange s) (dg_cands s) (dg_gathered s) v (dg_hostSeen s) (dg_once s) (dg_updates s).
Definition dg_set_hostSeen v s := mkDialing (dg_trickle s) (dg_ctxErr s) (dg_conn s) (dg_peer s) (dg_view s) (dg_main s)
  (dg_exchange s) (dg_cands s) (dg_gathered s) (dg_pending s) v (dg_once s) (dg_updates s).
Definition dg_set_once v s := mkDialing (dg_trickle s) (dg_ctxErr s) (dg_conn s) (dg_peer s) (dg_view s) (dg_main s)
  (dg_exchange s) (dg_cands s) (dg_gathered s) (dg_pending s) (dg_hostSeen s) v (dg_updates s).
Definition dg_set_updates v s := mkDialing (dg_trickle s) (dg_ctxErr s) (dg_conn s) (dg_peer s) (dg_view s) (dg_main s)
  (dg_exchange s) (dg_cands s) (dg_gathered s) (dg_pending s) (dg_hostSeen s) (dg_once s) v.

(** [remoteDescSet] is closed. *)
Definition remoteDescSet (s : dialing) : bool := if cv_remote (dg_view s) is Some _ then true else false.

(** A call of CallUpdate: nothing is sent with a context that is done. *)
Definition begin_update (u : callUpdate) (s : dialing) : dialing :=
  match dg_ctxErr s with
  | Some _ => s
  | None => dg_set_updates (dg_updates s ++ [(cv_uuid (dg_view s), u)]) s
  end.
(** The function of sendDoneErrorOnce begins. *)
Definition begin_final (u : callUpdate) (s : dialing) : dialing := dg_set_once OnceRunning (begin_update u s).

(** The deferred functions: exchangeCancel, then the peer connection unless
    the dial was successful, then the signaling connection. *)
Definition shut_if_open (p : peerSt) : peerSt := match p with PeerOpen => PeerClosed | _ => p end.
Definition dial_returns (err : option goerror) (s : dialing) : dialing :=
  dg_set_main (DReturned err)
    (dg_set_conn (shut_if_open (dg_conn s))
       (dg_set_peer (match err with Some _ => shut_if_open (dg_peer s) | None => dg_peer s end)
          (dg_set_ctxErr (Some (default (EIs Canceled) (dg_ctxErr s))) s))).

Section Steps.
Context `{GrpcStatus} (quote : string -> string) (peer : peerAnswers).

(** The goroutine of dialWebRTC. *)
Inductive dial_step : dialing -> dialing -> Prop :=
  | DConnFailed err s : dg_main s = DSetup -> dial_step s (dial_returns (Some err) s)
  | DConnected s : dg_main s = DSetup -> dial_step s (dg_set_main DPeer (dg_set_conn PeerOpen s))
  | DConfigFailed err s : dg_main s = DPeer -> dial_step s (dial_returns (Some (config_error err)) s)
  | DPeerFailed err s : dg_main s = DPeer -> dial_step s (dial_returns (Some err) s)
  | DPeerMade s : dg_main s = DPeer ->
      dial_step s (dg_set_main (if dg_trickle s then DWaitHost else DCall) (dg_set_peer PeerOpen s))
  | DOfferFailed err s : dg_main s = DWaitHost -> dial_step s (dial_returns (Some err) s)
      (* CreateOffer or SetLocalDescription *)
  | DHostCtxDone err s : dg_main s = DWaitHost -> dg_ctxErr s = Some err -> dial_step s (dial_returns (Some err) s)
  | DHostSeen s : dg_main s = DWaitHost -> dg_hostSeen s = true -> dial_step s (dg_set_main DCall s)
  | DCallFailed err s : dg_main s = DCall -> dial_step s (dial_returns (Some err) s)
      (* EncodeSDP or Call *)
  | DCalled s : dg_main s = DCall -> dial_step s (dg_set_main DDoCall (dg_set_exchange XReceiving s))
  | DCtxDone err combined s : dg_main s = DDoCall -> dg_ctxErr s = Some err ->
      dial_step s (dg_set_main (DOnceErr combined) s)
  | DReady s : dg_main s = DDoCall -> remoteDescSet s = true -> dial_step s (dg_set_main DOnceDone s)
      (* a data channel opens only when both descriptions are set *)
  | DErrFirst err s : dg_main s = DOnceErr err -> dg_once s = OnceFresh ->
      dial_step s (dg_set_main (DInOnceErr err) (begin_final (CallUpdate_Error err) s))
  | DErrOver err s : dg_main s = DOnceErr err -> dg_once s = OnceDone -> dial_step s (dial_returns (Some err) s)
  | DErrSent err combined s : dg_main s = DInOnceErr err ->
      dial_step s (dial_returns (Some combined) (dg_set_once OnceDone s))
  | DDoneFirst s : dg_main s = DOnceDone -> dg_once s = OnceFresh ->
      dial_step s (dg_set_main DInOnceDone (begin_final CallUpdate_Done s))
  | DDoneOver s : dg_main s = DOnceDone -> dg_once s = OnceDone -> dial_step s (dial_returns None s)
  | DDoneSent res s : dg_main s = DInOnceDone -> dial_step s (dial_returns res (dg_set_once OnceDone s)).

(** [sendErr]: where the goroutine is then. *)
Definition sends_err (err : goerror) (s : dialing) : bool := negb (sendErr_drops (cv_haveInit (dg_view s)) err).

(** The goroutine of exchangeCandidates. *)
Definition exchange_ends (e : exchangeEnd) (s : dialing) : exchangePc :=
  match e with
  | ExErr None => XEnd
  | ExErr (Some err) => if sends_err err s then XSendErr err else XEnd
  | ExSendDone => XOnce
  end.
Inductive exchange_step : dialing -> dialing -> Prop :=
  | XRound ctxErr recv v res s : dg_exchange s = XReceiving -> ctxErr = None \/ ctxErr = dg_ctxErr s ->
      exchange_round quote peer (negb (dg_trickle s)) ctxErr recv (dg_view s) = (v, res) ->
      exchange_step s (dg_set_exchange (match res with None => XReceiving | Some e => exchange_ends e (dg_set_view v s) end)
                         (dg_set_view v s))
      (* the context may be done after the round has looked at it *)
  | XPanic err s : dg_exchange s = XReceiving -> exchange_step s (dg_set_exchange (exchange_ends (ExErr (Some err)) s) s)
  | XOnceFirst s : dg_exchange s = XOnce -> dg_once s = OnceFresh ->
      exchange_step s (dg_set_exchange XInOnce (begin_final CallUpdate_Done s))
  | XOnceOver s : dg_exchange s = XOnce -> dg_once s = OnceDone -> exchange_step s (dg_set_exchange XEnd s)
  | XOnceSent res s : dg_exchange s = XInOnce ->
      exchange_step s (dg_set_exchange (exchange_ends (ExErr res) s) (dg_set_once OnceDone s))
  | XSendErrDone err s : dg_exchange s = XSendErr err -> is_Some (dg_ctxErr s) -> exchange_step s (dg_set_exchange XEnd s)
  | XSendErrTaken err combined s : dg_exchange s = XSendErr err -> dg_main s = DDoCall ->
      exchange_step s (dg_set_main (DOnceErr combined) (dg_set_exchange XEnd s)).

(** A goroutine of a candidate; [None] when it ends. *)
Definition cand_done (b : bool) (s : dialing) : dialing := if b then dg_set_pending (pred (dg_pending s)) s else s.
Inductive cand_step : candPc -> dialing -> option candPc -> dialing -> Prop :=
  | CCtxDone cand s : is_Some (dg_ctxErr s) ->
      cand_step (CWait cand) s None (cand_done (if cand is Some _ then true else false) s)
  | CUpdate cand s : remoteDescSet s = true ->
      cand_step (CWait (Some cand)) s (Some (CCalling cand)) (begin_update (CallUpdate_Candidate cand) s)
  | CLast s : remoteDescSet s = true -> cand_step (CWait None) s (Some CWaitPending) s
  | CCalled cand s : cand_step (CCalling cand) s None (cand_done true s)
  | CCallFailed err cand s :
      cand_step (CCalling cand) s (if sends_err err s then Some (CSendErr err true) else None)
        (cand_done (negb (sends_err err s)) s)
  | CNonePending s : dg_pending s = 0 -> cand_step CWaitPending s (Some COnce) s
  | COnceFirst s : dg_once s = OnceFresh -> cand_step COnce s (Some CInOnce) (begin_final CallUpdate_Done s)
  | COnceOver s : dg_once s = OnceDone -> cand_step COnce s None s
  | COnceSent s : cand_step CInOnce s None (dg_set_once OnceDone s)
  | COnceFailed err s :
      cand_step CInOnce s (if sends_err err s then Some (CSendErr err false) else None) (dg_set_once OnceDone s)
  | CSendErrDone err b s : is_Some (dg_ctxErr s) -> cand_step (CSendErr err b) s None (cand_done b s)
  | CSendErrTaken err combined b s : dg_main s = DDoCall ->
      cand_step (CSendErr err b) s None (dg_set_main (DOnceErr combined) (cand_done b s)).

(** A callback of OnICECandidate. *)
Definition cand_callback (cand : option ICECandidate) (host : bool) (s : dialing) : dialing :=
  match cand with
  | None => dg_set_gathered true s
  | Some _ => dg_set_hostSeen (dg_hostSeen s || host) (dg_set_pending (S (dg_pending s)) s)
  end.

Inductive dialing_step : dialing -> dialing -> Prop :=
  | DgMain s s' : dial_step s s' -> dialing_step s s'
  | DgExchange s s' : exchange_step s s' -> dialing_step s s'
  | DgCand l c c' r s s' : dg_cands s = l ++ c :: r -> cand_step c s (Some c') s' ->
      dialing_step s (dg_set_cands (l ++ c' :: r) s')
  | DgCandEnd l c r s s' : dg_cands s = l ++ c :: r -> cand_step c s None s' ->
      dialing_step s (dg_set_cands (l ++ r) s')
  | DgCallback cand host s : dg_trickle s = true -> dg_peer s <> PeerNone -> dg_ctxErr s = None -> dg_gathered s = false ->
      dialing_step s (dg_set_cands (dg_cands s ++ [CWait cand]) (cand_callback cand host s))
  | DgCtxDone err s : dg_ctxErr s = None -> dialing_step s (dg_set_ctxErr (Some err) s).
End Steps.

(** Updates that end the exchange. *)
Definition ends_update (u : callUpdate) : Prop := match u with CallUpdate_Done | CallUpdate_Error _ => True | _ => False end.
#[export] Instance ends_update_dec u : Decision (ends_update u).
Proof. destruct u; apply _. Defined.
Definition endings (s : dialing) : nat := length (filter ends_update (dg_updates s).*2).

(** ** Lemmas *)

(** The index of pion's candidates is a [uint16]. *)
Definition init_index_ok (c : ICECandidateInit) : Prop := forall z, ici_SDPMLineIndex c = Some z -> (0 <= z < 2 ^ 16)%Z.

Lemma candidate_init_roundtrip c : init_index_ok c -> iceCandidateFromProto (iceCandidateInitToProto c) = c.
Proof.
  destruct c as [c m [z|] u]; [|done]. intros Hz. unfold iceCandidateFromProto, iceCandidateInitToProto. simpl.
  by rewrite Z.mod_small by (by apply Hz).
Qed.

Lemma exchange_updates quote peer disableTrickle uuid cands v :
  cv_haveInit v = true -> cv_uuid v = uuid -> Forall init_index_ok cands -> (forall c, pa_candidate peer c = None) ->
  exchange_loop quote peer disableTrickle (RecvResp <$> (CallResponse_Update uuid ∘ iceCandidateInitToProto <$> cands)) v =
  (mkCallerView true uuid (cv_remote v) (cv_added v ++ cands), None).
Proof.
  intros Hi Hu Hc Hp. revert v Hi Hu. induction Hc as [|c cands Hz Hc IH]; intros [h u r a] Hi Hu; simpl in *; subst.
  - by rewrite app_nil_r.
  - rewrite bool_decide_eq_true_2 by done. rewrite Hp. cbn [negb]. rewrite candidate_init_roundtrip by done.
    rewrite IH by done. simpl. by rewrite <- app_assoc.
Qed.

(** Once an answer was set, a round keeps the identifier and the answer. *)
Definition view_ok (v : callerView) : Prop := is_Some (cv_remote v) -> cv_haveInit v = true.
Lemma exchange_round_view quote peer disableTrickle ctxErr recv v v' res :
  view_ok v -> exchange_round quote peer disableTrickle ctxErr recv v = (v', res) ->
  view_ok v' /\ (is_Some (cv_remote v) -> cv_remote v' = cv_remote v /\ cv_uuid v' = cv_uuid v) /\
  (res = Some ExSendDone -> is_Some (cv_remote v')).
Proof.
  unfold view_ok. intros Hv. destruct v as [h u r a]. simpl in Hv. unfold exchange_round. simpl. intros He.
  destruct ctxErr as [e|]; [by simplify_eq|].
  destruct recv as [[uuid sdp|uuid c]|ty|e]; simpl in *; [..|by simplify_eq|by simplify_eq].
  - destruct h; [by simplify_eq|]. assert (Hn : ~ is_Some r) by (intros Hs; by specialize (Hv Hs)).
    destruct (pa_answer peer sdp); [simplify_eq|destruct disableTrickle; simplify_eq];
      (split; [done|split; [intros Hs; by destruct Hn|by eauto]]).
  - destruct h; simpl in *; [|by simplify_eq]. destruct (negb _); [by simplify_eq|].
    destruct (pa_candidate peer _); by simplify_eq.
Qed.

Section Invariant.
Context `{GrpcStatus} (quote : string -> string) (peer : peerAnswers).

Definition remote_set s : Prop := is_Some (cv_remote (dg_view s)).

Lemma remote_set_spec s : remoteDescSet s = true <-> remote_set s.
Proof. unfold remoteDescSet, remote_set. destruct (cv_remote _); split; try done; by intros []. Qed.

(** A message is about the call that was answered, or an error. *)
Definition update_ok s (m : updateMsg) : Prop :=
  (exists err, m.2 = CallUpdate_Error err) \/ (m.1 = cv_uuid (dg_view s) /\ remote_set s).

(** Who sends something else than an error has seen the answer. *)
Definition cand_ok s (c : candPc) : Prop :=
  match c with CCalling _ | CWaitPending | COnce | CInOnce => remote_set s | _ => True end.

(** The connections that dialWebRTC holds where it is; it sends Done only when
    it has seen the answer. *)
Definition main_fits (pc : dialPc) s : Prop :=
  match pc with
  | DSetup => dg_conn s = PeerNone /\ dg_peer s = PeerNone
  | DPeer => dg_conn s = PeerOpen /\ dg_peer s = PeerNone
  | DReturned res => dg_conn s <> PeerOpen /\ match res with Some _ => dg_peer s <> PeerOpen | None => dg_peer s = PeerOpen end
  | DOnceDone | DInOnceDone => dg_conn s = PeerOpen /\ dg_peer s = PeerOpen /\ remote_set s
  | _ => dg_conn s = PeerOpen /\ dg_peer s = PeerOpen
  end.

Record dialing_inv s : Prop := {
  di_view : view_ok (dg_view s);
  di_updates : Forall (update_ok s) (dg_updates s);
  di_ends : endings s <= if dg_once s is OnceFresh then 0 else 1;
  di_cands : Forall (cand_ok s) (dg_cands s);
  di_exchange : match dg_exchange s with XOnce | XInOnce => remote_set s | _ => True end;
  di_main : main_fits (dg_main s) s;
}.

Lemma new_dialing_inv trickle : dialing_inv (new_dialing trickle).
Proof. split; cbn; try done. by intros []. Qed.

(** What is right stays so when the answer does not change. *)
Definition same_answer s s' : Prop :=
  remote_set s -> remote_set s' /\ cv_uuid (dg_view s') = cv_uuid (dg_view s).

Lemma updates_keep s s' l : same_answer s s' -> Forall (update_ok s) l -> Forall (update_ok s') l.
Proof.
  intros Hs Hl. apply (Forall_impl _ _ _ Hl). intros m [?|[Hu Hr]]; [by left|right].
  destruct (Hs Hr) as [? ?]. split; [congruence|done].
Qed.
Lemma cands_keep s s' l : same_answer s s' -> Forall (cand_ok s) l -> Forall (cand_ok s') l.
Proof. intros Hs Hl. apply (Forall_impl _ _ _ Hl). intros []; simpl; try done; intros Hr; by apply Hs. Qed.

(** Sending an update. *)
Lemma begin_update_updates u s :
  Forall (update_ok s) (dg_updates s) -> (exists err, u = CallUpdate_Error err) \/ remote_set s ->
  Forall (update_ok s) (dg_updates (begin_update u s)).
Proof.
  intros Hl Hu. unfold begin_update. destruct (dg_ctxErr s); [done|]. cbn. apply Forall_app. split; [done|].
  constructor; [|done]. destruct Hu as [[err ->]|Hr]; [left; by eexists|by right].
Qed.

Lemma begin_update_ends u s : endings (begin_update u s) <= endings s + (if decide (ends_update u) then 1 else 0).
Proof.
  unfold begin_update, endings. destruct (dg_ctxErr s); [lia|]. cbn.
  rewrite fmap_app, filter_app, length_app. change ([(cv_uuid (dg_view s), u)].*2) with [u].
  rewrite filter_cons, filter_nil. case_decide; simpl; lia.
Qed.

(** It changes nothing else. *)
Lemma begin_update_same u s :
  dg_view (begin_update u s) = dg_view s /\ dg_once (begin_update u s) = dg_once s /\ dg_cands (begin_update u s) = dg_cands s /\
  dg_exchange (begin_update u s) = dg_exchange s /\ dg_main (begin_update u s) = dg_main s /\
  dg_conn (begin_update u s) = dg_conn s /\ dg_peer (begin_update u s) = dg_peer s /\ dg_ctxErr (begin_update u s) = dg_ctxErr s.
Proof. unfold begin_update. destruct (dg_ctxErr s) eqn:E; cbn; rewrite ?E; by split_and!. Qed.

(** Parts of the steps. *)
Lemma final_inv u s :
  dialing_inv s -> dg_once s = OnceFresh -> (exists err, u = CallUpdate_Error err) \/ remote_set s -> dialing_inv (begin_final u s).
Proof.
  intros [Hv Hu He Hc Hx Hm] Ho Hr. destruct (begin_update_same u s) as (E1 & E2 & E3 & E4 & E5 & E6 & E7 & E8).
  assert (Hsame : same_answer s (begin_final u s)).
  { intros Hrs. unfold remote_set in *. cbn. by rewrite E1. }
  split; cbn; rewrite ?E1, ?E3, ?E4, ?E5; try done.
  - eapply updates_keep; [exact Hsame|]. by apply begin_update_updates.
  - pose proof (begin_update_ends u s) as Hb. rewrite Ho in He. unfold endings in *. cbn. case_decide; lia.
  - by eapply cands_keep.
  - unfold remote_set. cbn. rewrite E1. done.
  - unfold main_fits, remote_set in *. cbn. by rewrite E1, E6, E7.
Qed.

Lemma once_done_inv s : dialing_inv s -> dialing_inv (dg_set_once OnceDone s).
Proof. intros [Hv Hu He Hc Hx Hm]. split; cbn; try done. unfold endings in *. cbn. destruct (dg_once s); lia. Qed.

Lemma main_inv pc s : dialing_inv s -> main_fits pc s -> dialing_inv (dg_set_main pc s).
Proof. intros [Hv Hu He Hc Hx Hm] Hp. by split. Qed.

Lemma held_inv pc conn pr s :
  dialing_inv s -> main_fits pc (dg_set_conn conn (dg_set_peer pr s)) ->
  dialing_inv (dg_set_main pc (dg_set_conn conn (dg_set_peer pr s))).
Proof. intros [Hv Hu He Hc Hx Hm] Hp. by split. Qed.

Lemma exchange_inv x s :
  dialing_inv s -> (match x with XOnce | XInOnce => remote_set s | _ => True end) -> dialing_inv (dg_set_exchange x s).
Proof. intros [Hv Hu He Hc Hx Hm] Hp. by split. Qed.

Lemma returns_inv res s :
  dialing_inv s -> (res = None -> dg_peer s = PeerOpen) -> dialing_inv (dial_returns res s).
Proof.
  intros [Hv Hu He Hc Hx Hm] Hp. split; cbn; try done. split; [by destruct (dg_conn s)|].
  destruct res; cbn; [by destruct (dg_peer s)|by apply Hp].
Qed.

Lemma dial_step_inv s s' : dialing_inv s -> dial_step s s' -> dialing_inv s'.
Proof.
  intros Hi Hst. pose proof (di_main _ Hi) as Hm.
  destruct Hst as [err s E|s E|err s E|err s E|s E|err s E|err s E E2|s E E2|err s E|s E|err cb s E E2|s E E2|err s E E2|err s E E2|err cb s E|s E E2|s E E2|res s E];
    rewrite E in Hm; cbn in Hm;
    try (apply returns_inv; [try apply once_done_inv; done|done || by intros]);
    try (by apply main_inv).
  - apply (held_inv DPeer PeerOpen (dg_peer s) s); [done|by destruct Hm].
  - apply (held_inv _ (dg_conn s) PeerOpen s); [done|by destruct (dg_trickle s); destruct Hm].
  - apply main_inv; [by apply exchange_inv|done].
  - apply main_inv; [done|]. destruct Hm. by apply remote_set_spec in E2.
  - apply main_inv; [apply final_inv; [done..|left; by eexists]|].
    destruct (begin_update_same (CallUpdate_Error err) s) as (_ & _ & _ & _ & _ & E6 & E7 & _). cbn. by rewrite E6, E7.
  - destruct Hm as (H1 & H2 & H3). apply main_inv; [apply final_inv; [done..|by right]|].
    destruct (begin_update_same CallUpdate_Done s) as (E1 & _ & _ & _ & _ & E6 & E7 & _). unfold main_fits, remote_set in *. cbn. by rewrite E1, E6, E7.
  - apply returns_inv; [done|]. by destruct Hm as (H1 & H2 & H3).
  - apply returns_inv; [by apply once_done_inv|]. by destruct Hm as (H1 & H2 & H3).
Qed.

(** A new view of the exchange. *)
Lemma view_inv v s :
  dialing_inv s -> view_ok v -> (remote_set s -> cv_remote v = cv_remote (dg_view s) /\ cv_uuid v = cv_uuid (dg_view s)) ->
  dialing_inv (dg_set_view v s).
Proof.
  intros [Hv Hu He Hc Hx Hm] Hok Hk.
  assert (Hsame : same_answer s (dg_set_view v s)).
  { intros Hr. destruct (Hk Hr) as [H1 H2]. unfold remote_set in *. cbn. by rewrite H1, H2. }
  split; cbn; try done.
  - by eapply updates_keep.
  - by eapply cands_keep.
  - destruct (dg_exchange s); try done; by apply Hsame.
  - destruct (dg_main s); try done; destruct Hm as (? & ? & ?); (split_and!; [done..|by apply Hsame]).
Qed.

Lemma exchange_step_inv s s' : dialing_inv s -> exchange_step quote peer s s' -> dialing_inv s'.
Proof.
  intros Hi Hst.
  assert (Hends : forall res b, dialing_inv b -> dialing_inv (dg_set_exchange (exchange_ends (ExErr res) s) b)).
  { intros res b Hb. apply exchange_inv; [done|]. destruct res as [err|]; cbn; [|done]. by destruct (sends_err err s). }
  destruct Hst as [ctxErr recv v res s E Hc Hr|err s E|s E E2|s E E2|res s E|err s E E2|err cb s E E2].
  - destruct (exchange_round_view _ _ _ _ _ _ _ _ (di_view _ Hi) Hr) as (Hok & Hk & Hd).
    apply exchange_inv; [by apply view_inv|]. destruct res as [[[err|]|]|]; cbn; try done.
    + by destruct (sends_err err _).
    + by apply Hd.
  - by apply (Hends (Some err) s).
  - pose proof (di_exchange _ Hi) as Hx. rewrite E in Hx. apply exchange_inv; [apply final_inv; [done..|by right]|].
    destruct (begin_update_same CallUpdate_Done s) as (E1 & _). unfold remote_set in *. cbn. by rewrite E1.
  - by apply exchange_inv.
  - apply Hends. by apply once_done_inv.
  - by apply exchange_inv.
  - apply main_inv; [by apply exchange_inv|]. pose proof (di_main _ Hi) as Hm. by rewrite E2 in Hm.
Qed.

Lemma cands_inv l s : dialing_inv s -> Forall (cand_ok s) l -> dialing_inv (dg_set_cands l s).
Proof. intros [Hv Hu He Hc Hx Hm] Hl. by split. Qed.

Lemma pending_inv b s : dialing_inv s -> dialing_inv (cand_done b s).
Proof. intros [Hv Hu He Hc Hx Hm]. by destruct b; split. Qed.

Lemma update_inv u s : dialing_inv s -> ~ ends_update u -> remote_set s -> dialing_inv (begin_update u s).
Proof.
  intros [Hv Hu He Hc Hx Hm] Hn Hr. destruct (begin_update_same u s) as (E1 & E2 & E3 & E4 & E5 & E6 & E7 & E8).
  assert (Hsame : same_answer s (begin_update u s)) by (intros Hrs; unfold remote_set in *; by rewrite E1).
  split; rewrite ?E1, ?E2, ?E3, ?E4, ?E5; try done.
  - eapply updates_keep; [exact Hsame|]. apply begin_update_updates; [done|by right].
  - pose proof (begin_update_ends u s) as Hb. rewrite decide_False in Hb by done. lia.
  - by eapply cands_keep.
  - unfold remote_set. by rewrite E1.
  - unfold main_fits, remote_set in *. by rewrite E1, E6, E7.
Qed.

(** A step of a candidate's goroutine, without the list of goroutines. *)
Lemma cand_step_inv c s c' s' :
  dialing_inv s -> cand_ok s c -> cand_step c s c' s' ->
  dialing_inv s' /\ same_answer s s' /\ match c' with Some c' => cand_ok s' c' | None => True end.
Proof.
  intros Hi Hc Hst.
  assert (Hb : forall u, same_answer s (begin_update u s)).
  { intros u Hr. destruct (begin_update_same u s) as (E1 & _). unfold remote_set in *. by rewrite E1. }
  destruct Hst as [cand s E|cand s E|s E|cand s|err cand s|s E|s E|s E|s|err s|err b s E|err cb b s E].
  - split; [by apply pending_inv|]. by destruct cand.
  - apply remote_set_spec in E. split; [by apply update_inv; [|intros []|]|]. split; [apply Hb|]. by apply Hb.
  - apply remote_set_spec in E. by split.
  - split; [by apply pending_inv|]. by split.
  - split; [by apply pending_inv|]. by destruct (sends_err err s).
  - by split.
  - split; [apply final_inv; [done..|by right]|]. split; [apply Hb|]. by apply Hb.
  - by split.
  - split; [by apply once_done_inv|]. by split.
  - split; [by apply once_done_inv|]. by destruct (sends_err err s).
  - split; [by apply pending_inv|]. by destruct b.
  - split; [|by destruct b]. apply main_inv; [by apply pending_inv|]. pose proof (di_main _ Hi) as Hm. rewrite E in Hm.
    by destruct b.
Qed.

(** The step does not look at the list of goroutines. *)
Lemma cand_step_cands c s c' s' : cand_step c s c' s' -> dg_cands s' = dg_cands s.
Proof.
  intros Hst. assert (Hb : forall u, dg_cands (begin_update u s) = dg_cands s) by (intros u; by apply begin_update_same).
  destruct Hst; try done; try (by destruct cand); try (by destruct b); try apply Hb.
  by destruct (sends_err err s).
Qed.

Lemma dialing_step_inv s s' : dialing_inv s -> dialing_step quote peer s s' -> dialing_inv s'.
Proof.
  intros Hi Hst. destruct Hst as [s s' Hs|s s' Hs|l c c' r s s' Hl Hs|l c r s s' Hl Hs|cand host s Ht Hp Hx Hg|err s Hx].
  - by eapply dial_step_inv.
  - by eapply exchange_step_inv.
  - pose proof (di_cands _ Hi) as Hc. rewrite Hl in Hc. apply Forall_app in Hc as [Hcl [Hcc Hcr]%Forall_cons].
    destruct (cand_step_inv _ _ _ _ Hi Hcc Hs) as (Hi' & Hsame & Hc'). apply cands_inv; [done|].
    apply Forall_app. split; [by eapply cands_keep|]. constructor; [done|by eapply cands_keep].
  - pose proof (di_cands _ Hi) as Hc. rewrite Hl in Hc. apply Forall_app in Hc as [Hcl [Hcc Hcr]%Forall_cons].
    destruct (cand_step_inv _ _ _ _ Hi Hcc Hs) as (Hi' & Hsame & _). apply cands_inv; [done|].
    apply Forall_app. split; by eapply cands_keep.
  - destruct Hi as [Hv Hu He Hc Hx' Hm]. destruct cand; (split; cbn; try done; apply Forall_app; split; [done|by constructor]).
  - by destruct Hi.
Qed.

Lemma dialing_reachable_inv trickle s : rtc (dialing_step quote peer) (new_dialing trickle) s -> dialing_inv s.
Proof. intros Hr. eapply rtc_invariant; [exact dialing_step_inv|exact Hr|apply new_dialing_inv]. Qed.
End Invariant.

(** ** Properties *)


(** C22: Whatever the goroutines of a dial do, every candidate and the end of the
    exchange are sent after the answer was set and under its identifier, and
    CallUpdate is called with Done or an error at most once. *)
Theorem call_updates_follow_the_answer `{GrpcStatus} (quote : string -> string) (peer : peerAnswers) (trickle : bool)
    (s : dialing) :
  rtc (dialing_step quote peer) (new_dialing trickle) s ->
  endings s <= 1 /\
  forall uuid u, (uuid, u) ∈ dg_updates s ->
    (exists err, u = CallUpdate_Error err) \/ (uuid = cv_uuid (dg_view s) /\ is_Some (cv_remote (dg_view s))).
Proof.
  intros Hr%dialing_reachable_inv. split; [pose proof (di_ends _ Hr); destruct (dg_once s); lia|].
  intros uuid u Hin. pose proof (di_updates _ Hr) as Hu. rewrite Forall_forall in Hu. apply (Hu _ Hin).
Qed.

(** When dialWebRTC returns, the signaling connection is not left open; with an
    error the peer connection is not either, and without one it is open. *)
Theorem dial_outcome `{GrpcStatus} (quote : string -> string) (peer : peerAnswers) (trickle : bool) (s : dialing)
    (res : option goerror) :
  rtc (dialing_step quote peer) (new_dialing trickle) s -> dg_main s = DReturned res ->
  dg_conn s <> PeerOpen /\ match res with None => dg_peer s = PeerOpen | Some _ => dg_peer s <> PeerOpen end.
Proof. intros Hr%dialing_reachable_inv Hm. pose proof (di_main _ Hr) as Hf. rewrite Hm in Hf. by destruct res. Qed.

Section Timeout.
Context `{GrpcStatus} (quote : string -> string) (peer : peerAnswers).

(** Nothing is sent with a context that is done, and it stays done. *)
Definition silent (l : list updateMsg) (s : dialing) : Prop := is_Some (dg_ctxErr s) /\ dg_updates s = l.

Lemma begin_update_silent l u s : silent l s -> silent l (begin_update u s).
Proof. intros [[e Hc] Hl]. unfold begin_update, silent. rewrite Hc. by split. Qed.

Lemma silent_step l s s' : silent l s -> dialing_step quote peer s s' -> silent l s'.
Proof.
  intros Hs Hst. pose proof (begin_update_silent l) as Hb. unfold silent in *.
  destruct Hst as [s s' Hm|s s' Hx|k c c' r s s' Hl Hc|k c r s s' Hl Hc|cand host s Ht Hp Hx Hg|err s Hx].
  - destruct Hm; unfold dial_returns; cbn; try done; try (destruct Hs; by split); try (by apply Hb).
  - destruct Hx; cbn; try done; by apply Hb.
  - inversion Hc; subst; cbn; try done; try (by apply Hb). by destruct (sends_err err s).
  - inversion Hc; subst; cbn; try done; try (by destruct cand); try (by destruct b); by destruct (sends_err err s).
  - destruct Hs as [[? ?] _]. congruence.
  - destruct Hs as [[? ?] _]. congruence.
Qed.

(** Before doCall is over no error was sent. *)
Definition no_error (s : dialing) : Prop :=
  match dg_main s with
  | DInOnceErr _ | DReturned _ => True
  | _ => Forall (fun m => forall err, m.2 <> CallUpdate_Error err) (dg_updates s)
  end.

Lemma begin_update_no_error u s :
  (forall err, u <> CallUpdate_Error err) -> Forall (fun m => forall err, m.2 <> CallUpdate_Error err) (dg_updates s) ->
  Forall (fun m => forall err, m.2 <> CallUpdate_Error err) (dg_updates (begin_update u s)).
Proof.
  intros Hu Hl. unfold begin_update. destruct (dg_ctxErr s); [done|]. apply Forall_app. split; [done|]. by constructor.
Qed.

Lemma no_error_step s s' : no_error s -> dialing_step quote peer s s' -> no_error s'.
Proof.
  intros Hn Hst. unfold no_error in *.
  assert (Hb : forall u s, (forall err, u <> CallUpdate_Error err) ->
    match dg_main s with DInOnceErr _ | DReturned _ => True
    | _ => Forall (fun m => forall err, m.2 <> CallUpdate_Error err) (dg_updates s) end ->
    match dg_main (begin_update u s) with DInOnceErr _ | DReturned _ => True
    | _ => Forall (fun m => forall err, m.2 <> CallUpdate_Error err) (dg_updates (begin_update u s)) end).
  { intros u b Hu Hm. destruct (begin_update_same u b) as (_ & _ & _ & _ & E5 & _). rewrite E5.
    destruct (dg_main b); try done; by apply begin_update_no_error. }
  destruct Hst as [s s' Hm|s s' Hx|k c c' r s s' Hl Hc|k c r s s' Hl Hc|cand host s Ht Hp Hx Hg|err s Hx].
  - destruct Hm as [err s E|s E|err s E|err s E|s E|err s E|err s E E2|s E E2|err s E|s E|err cb s E E2|s E E2|err s E E2|err s E E2|err cb s E|s E E2|s E E2|res s E];
      rewrite E in Hn; cbn; try done; [by destruct (dg_trickle s)|by apply begin_update_no_error].
  - destruct Hx as [ctxErr recv v res s E Hc Hr|err s E|s E E2|s E E2|res s E|err s E E2|err cb s E E2]; cbn; try done.
    + by apply Hb.
    + by rewrite E2 in Hn.
  - inversion Hc; subst; cbn; try done; try (by apply Hb). by destruct (sends_err err s).
  - inversion Hc; subst; cbn; try done; try (by destruct cand); try (by destruct b); try (by destruct (sends_err err s)).
    match goal with E : dg_main _ = DDoCall |- _ => rewrite E in Hn end. by destruct b.
  - by destruct cand.
  - done.
Qed.
End Timeout.

(** When the deadline of a dial passes during doCall, the error is reported with
    the context that is done: nothing more is sent, so the answerer is never
    told that its caller gave up. *)
Theorem timeout_is_not_reported `{GrpcStatus} (quote : string -> string) (peer : peerAnswers) (trickle : bool) (s s' : dialing) :
  rtc (dialing_step quote peer) (new_dialing trickle) s -> dg_main s = DDoCall -> is_Some (dg_ctxErr s) ->
  rtc (dialing_step quote peer) s s' ->
  dg_updates s' = dg_updates s /\ forall uuid err, (uuid, CallUpdate_Error err) ∉ dg_updates s'.
Proof.
  intros Hr Hm Hc Hr'.
  assert (silent (dg_updates s) s') as [_ Hu].
  { refine (rtc_invariant _ (silent (dg_updates s)) (silent_step _ _ _) _ _ Hr' _). by split. }
  split; [done|]. rewrite Hu. intros uuid err Hin.
  assert (no_error s) as Hn by (refine (rtc_invariant _ no_error (no_error_step _ _) _ _ Hr _); by constructor).
  unfold no_error in Hn. rewrite Hm, Forall_forall in Hn. by apply (Hn _ Hin err).
Qed.

(** A host that the signaling server is not for is, at the caller, no signaler
    at all: the dial may go on without WebRTC. *)
Theorem refused_host_means_no_signaler `{GrpcStatusLaws} (forHosts : gset string) (host : string) (err : goerror) :
  validateHosts forHosts [host] = Some err -> config_error err = ErrNoWebRTCSignaler.
Proof.
  unfold validateHosts. case_bool_decide; [done|]. simpl. case_bool_decide; [done|]. intros [= <-].
  unfold config_error. rewrite FromError_status by done. simpl. done.
Qed.

(** What a signaling connection authenticates with: nothing, the signaling
    credentials of the options, or the static authentication material. *)
Section SignalingAuth.
Context `{Multierr goerror} (hash : string -> string).
Context (probe : string -> probeResult).
Context (grpcDial : string -> transport -> rpcAuth -> option goerror).
Context (cacheHit : string -> string -> string -> bool).
Context (closeErr : netConn -> option goerror).

Definition opened_auth (P : rpcAuth -> Prop) (ev : list dialEvent) : Prop :=
  forall addr t a, EvOpen (GrpcConn addr t a) ∈ ev -> P a.

Lemma connect_auth (P : rpcAuth -> Prop) address t a d ext :
  P a -> opened_auth P (fst (connect hash grpcDial cacheHit closeErr address t a d ext)).
Proof.
  intros Hp addr' t' a'. unfold connect. destruct (cacheHit _ _ _); [by intros [=]%list_elem_of_singleton|].
  destruct (grpcDial address t a).
  - destruct ext; simpl; [|by intros ?%elem_of_nil]. unfold shut. intros (c & [=] & _)%list_elem_of_fmap.
  - by intros [= -> -> ->]%list_elem_of_singleton.
Qed.

Lemma direct_auth (P : rpcAuth -> Prop) fuel address d :
  P AuthNone -> (authMaterial d <> EmptyString -> P (AuthStatic (authMaterial d))) ->
  (forall to, P (AuthJWT (authEntity d) (creds d) (externalAuthMaterial d) to)) ->
  opened_auth P (fst (dialDirectGRPC hash probe grpcDial cacheHit closeErr fuel address d)).
Proof.
  revert address d. induction fuel as [|fuel IH]; intros address d Hn Hs Hj; [by intros ? ? ? ?%elem_of_nil|].
  cbn [dialDirectGRPC]. destruct (choose_transport probe address d) as [t|e]; [|by intros ? ? ? ?%elem_of_nil].
  case_bool_decide as Hm; cbn [negb]; [|by apply connect_auth, Hs].
  destruct (negb _ || negb _); [|by apply connect_auth].
  destruct (negb (bool_decide (externalAuthAddr d = EmptyString))); [|by apply connect_auth].
  assert (Hext : opened_auth P (fst (dialExternalAuthEntity (dialDirectGRPC hash probe grpcDial cacheHit closeErr fuel) d))).
  { unfold dialExternalAuthEntity. case_bool_decide; [by intros ? ? ? ?%elem_of_nil|].
    destruct fuel as [|fuel']; [by intros ? ? ? ?%elem_of_nil|]. cbn [dialDirectGRPC].
    destruct (choose_transport probe (externalAuthAddr d) (external_options d)); [|by intros ? ? ? ?%elem_of_nil].
    rewrite (bool_decide_eq_true_2 (authMaterial (external_options d) = EmptyString)) by exact Hm.
    by apply connect_auth. }
  destruct (dialExternalAuthEntity _ d) as [ev [[ext cached]|e]]; [|exact Hext].
  pose proof (connect_auth P address t (AuthJWT (authEntity d) (creds d) (externalAuthMaterial d) (externalAuthToEntity d)) d (Some ext) (Hj _)) as Hc.
  destruct (connect _ _ _ _ _ _ _ _ _) as [ev' r]. intros addr' t' a' [Hin|Hin]%elem_of_app; [by eapply Hext|by eapply Hc].
Qed.
End SignalingAuth.

(** The authentication of the options of signaling. *)
Lemma signaling_options_auth host d :
  authMaterial (signaling_options host d) = authMaterial d /\
  creds (signaling_options host d) = SignalingCreds (webrtcOpts d) /\
  externalAuthMaterial (signaling_options host d) = SignalingExternalAuthAuthMaterial (webrtcOpts d).
Proof. unfold signaling_options. case_bool_decide; [case_bool_decide|]; by split_and!. Qed.

(** The signaling server sees nothing of the credentials for the host: a
    connection that is opened for signaling authenticates with nothing, with the
    signaling credentials and material of the options, or with the static
    authentication material, which the options of signaling leave in place. *)
Theorem signaling_connection_auth `{Multierr goerror} (hash : string -> string) (probe : string -> probeResult)
    (grpcDial : string -> transport -> rpcAuth -> option goerror) (cacheHit : string -> string -> string -> bool)
    (closeErr : netConn -> option goerror) (signalingServer host : string) (d : dialOptions) (addr : string) (t : transport)
    (a : rpcAuth) :
  EvOpen (GrpcConn addr t a) ∈ fst (dialSignalingServer hash probe grpcDial cacheHit closeErr signalingServer host d) ->
  a = AuthNone \/
  (exists entity to, a = AuthJWT entity (SignalingCreds (webrtcOpts d)) (SignalingExternalAuthAuthMaterial (webrtcOpts d)) to) \/
  (authMaterial d <> EmptyString /\ a = AuthStatic (authMaterial d)).
Proof.
  unfold dialSignalingServer. apply (direct_auth hash probe grpcDial cacheHit closeErr (fun a => a = AuthNone \/
    (exists entity to, a = AuthJWT entity (SignalingCreds (webrtcOpts d)) (SignalingExternalAuthAuthMaterial (webrtcOpts d)) to) \/
    (authMaterial d <> EmptyString /\ a = AuthStatic (authMaterial d)))).
  - by left.
  - destruct (signaling_options_auth host d) as (-> & _ & _). intros Hm. by right; right.
  - destruct (signaling_options_auth host d) as (_ & -> & ->). intros to. right. left. by eexists _, to.
Qed.

(** ** Concrete inputs *)
Section Witnesses.
Import SimpleErrors.

Definition accepting_peer : peerAnswers := mkPeerAnswers (fun _ => None) (fun _ => None).
Definition sample_init (name : string) : ICECandidateInit := mkCandidateInit name None (Some 0%Z) None.


(** A dial whose answer is refused. *)
Definition sample_dialing : dialing :=
  mkDialing false None PeerOpen PeerOpen no_view DDoCall XReceiving [] false 0 false OnceFresh [].
Lemma sample_dialing_reachable : rtc (dialing_step id accepting_peer) (new_dialing false) sample_dialing.
Proof.
  eapply rtc_l; [by apply DgMain, DConnected|]. eapply rtc_l; [by apply DgMain, DPeerMade|].
  by apply rtc_once, DgMain, DCalled.
Qed.

Definition answered_dialing : dialing :=
  mkDialing false None PeerOpen PeerOpen (mkCallerView true "id1" (Some "answer"%string) []) DDoCall XInOnce [] false 0 false
    OnceRunning [("id1"%string, CallUpdate_Done)].

Lemma answered_dialing_reachable : rtc (dialing_step id accepting_peer) (new_dialing false) answered_dialing.
Proof.
  etrans; [exact sample_dialing_reachable|].
  eapply rtc_l; [apply DgExchange, (XRound _ _ None (RecvResp (CallResponse_Init "id1" "answer"))
    (mkCallerView true "id1" (Some "answer"%string) []) (Some ExSendDone)); [done|by left|reflexivity]|].
  by apply rtc_once, DgExchange, XOnceFirst.
Qed.

Lemma call_updates_follow_the_answer_witness :
  endings answered_dialing <= 1 /\
  forall uuid u, (uuid, u) ∈ dg_updates answered_dialing ->
    (exists err, u = CallUpdate_Error err) \/ (uuid = "id1"%string /\ is_Some (cv_remote (dg_view answered_dialing))).
Proof. exact (call_updates_follow_the_answer id accepting_peer false answered_dialing answered_dialing_reachable). Defined.

Lemma dial_outcome_witness :
  dg_conn (dial_returns (Some (EIs EOF)) (new_dialing true)) <> PeerOpen /\
  dg_peer (dial_returns (Some (EIs EOF)) (new_dialing true)) <> PeerOpen.
Proof.
  apply (dial_outcome id accepting_peer true _ (Some (EIs EOF))); [|reflexivity].
  by apply rtc_once, DgMain, DConnFailed.
Defined.

Lemma timeout_is_not_reported_witness :
  let s := dg_set_ctxErr (Some (EIs DeadlineExceeded)) sample_dialing in
  let s' := dg_set_main (DInOnceErr DeadlineExceeded) (begin_final (CallUpdate_Error DeadlineExceeded) (dg_set_main (DOnceErr DeadlineExceeded) s)) in
  dg_updates s' = dg_updates s /\ forall uuid err, (uuid, CallUpdate_Error err) ∉ dg_updates s'.
Proof.
  apply (timeout_is_not_reported id accepting_peer false).
  - etrans; [exact sample_dialing_reachable|]. by apply rtc_once, DgCtxDone.
  - reflexivity.
  - by eexists.
  - eapply rtc_l; [by apply DgMain, (DCtxDone DeadlineExceeded DeadlineExceeded)|]. by apply rtc_once, DgMain, DErrFirst.
Defined.

Lemma refused_host_means_no_signaler_witness : config_error (EStatus InvalidArgument hostNotAllowedMsg) = ErrNoWebRTCSignaler.
Proof. exact (refused_host_means_no_signaler {["a"%string]} "b" _ eq_refl). Defined.

Lemma signaling_connection_auth_witness :
  let d := do_set_webrtcOpts (wo_set_SignalingCreds (mkCreds "api-key" "k") (wo_set_SignalingInsecure true (webrtcOpts zero_options)))
             (do_set_creds (mkCreds "robot" "secret") zero_options) in
  let a := AuthJWT "host" (mkCreds "api-key" "k") EmptyString EmptyString in
  a = AuthNone \/
  (exists entity to, a = AuthJWT entity (SignalingCreds (webrtcOpts d)) (SignalingExternalAuthAuthMaterial (webrtcOpts d)) to) \/
  (authMaterial d <> EmptyString /\ a = AuthStatic (authMaterial d)).
Proof.
  apply (signaling_connection_auth id (fun _ => ProbeTLS) (fun _ _ _ => None) (fun _ _ _ => false) (fun _ => None)
           "signal:8080" "host" _ "signal:8080" Plaintext).
  vm_compute. left.
Defined.
End Witnesses.
