(* ===== verification/MongoHelpers.v ===== *)
(** * MongoDB helpers: [mongo/change_stream.go], [mongo/namespace.go]

    The goroutine that reads a change stream, over what the driver's stream
    answers; and the registry of databases and collections, whose names are
    shared by pointer. *)

From S2P Require Import Prelude GoError CallQueueMongo.

(** ** ChangeStreamBackground *)

Section ChangeStream.
(** Events as the driver decodes them. *)
Context {Event : Type} (isInvalidate : Event -> bool) (clusterTime : Event -> Timestamp).

(** [ChangeEventResult]. *)
Record csResult := mkCsResult { csr_Event : option Event; csr_Error : option goerror; csr_Token : string }.

(** What one round of the loop meets: whether the context is done, what TryNext
    and Next find (nothing, or what decoding gives), the stream's error and
    resume token; and whether the result is delivered, which it may not be when
    the context is done. *)
Record csRound := mkCsRound {
  cr_ctxDone : bool;
  cr_tryNext : option (Event + goerror);
  cr_next : option (Event + goerror);
  cr_err : option goerror;
  cr_token : string;
  cr_delivered : bool;
}.

(** [csStartedResult]; without a cluster time it is zero. *)
Definition csStart : Type := string * Timestamp.

(** [sendResult]. *)
Definition sendResult (r : csRound) (result : csResult) : list csResult := if cr_delivered r then [result] else [].

(** One round: what is sent on [csStarted] and on [results], [csStartedOnce]
    afterwards, and whether the goroutine goes on. *)
Definition cs_round (started : bool) (r : csRound) : list csStart * list csResult * bool * bool :=
  if cr_ctxDone r then ([], [], started, false)
  else
    match cr_tryNext r with
    | Some (inr err) =>
        (if started then [] else [(cr_token r, (0, 0)%Z)], sendResult r (mkCsResult None (Some err) (cr_token r)), started, false)
    | Some (inl ce) =>
        (if started then [] else [(cr_token r, clusterTime ce)], sendResult r (mkCsResult (Some ce) None (cr_token r)), true, true)
    | None =>
        let start := if started then [] else [(cr_token r, (0, 0)%Z)] in
        match cr_next r with
        | Some (inr err) => (start, sendResult r (mkCsResult None (Some err) (cr_token r)), true, false)
        | Some (inl ce) =>
            if isInvalidate ce
            then (start, sendResult r (mkCsResult None (Some (EIs ErrChangeStreamInvalidateEvent)) (cr_token r)), true, false)
            else (start, sendResult r (mkCsResult (Some ce) None (cr_token r)), true, true)
        | None =>
            let csErr := match cr_err r with None => EIs ErrChangeStreamInvalidateEvent | Some err => err end in
            (start, sendResult r (mkCsResult None (Some csErr) (cr_token r)), true, false)
        end
    end.

(** The loop: everything sent on [csStarted] and [results], and whether the
    goroutine ended, which closes [results]. *)
Fixpoint cs_loop (started : bool) (rounds : list csRound) : list csStart * list csResult * bool :=
  match rounds with
  | [] => ([], [], false)
  | r :: rounds' =>
      match cs_round started r with
      | (start, results, started', true) =>
          let '(start', results', ended) := cs_loop started' rounds' in (start ++ start', results ++ results', ended)
      | (start, results, _, false) => (start, results, true)
      end
  end.

(** [ChangeStreamBackground] returns when something comes on [csStarted]. *)
Definition ChangeStreamBackground (rounds : list csRound) : option csStart := head (cs_loop false rounds).1.1.
End ChangeStream.

Arguments csResult : clear implicits.
Arguments csRound : clear implicits.
Arguments mkCsResult {Event}.
Arguments mkCsRound {Event}.

(** ** Namespaces *)

(** The strings that pointers point to. *)
Abbreviation strHeap := (gmap nat string).
Definition deref (h : strHeap) (p : nat) : string := default EmptyString (h !! p).

(** [namespaces] and [unmanagedNamespaces]. *)
Abbreviation registry := (gmap nat (list nat)).
Abbreviation unmanaged := (gmap string (list string)).

(** The loop of [RegisterNamespace] over the collections of the database: found
    already, a duplicate, or neither. *)
Fixpoint find_coll (h : strHeap) (coll : nat) (colls : list nat) : option (option unit) :=
  match colls with
  | [] => None
  | existing :: colls' =>
      if bool_decide (coll = existing) then Some (Some tt)
      else if bool_decide (deref h coll = deref h existing) then Some None
      else find_coll h coll colls'
  end.
Definition RegisterNamespace (quote : string -> string) (h : strHeap) (db coll : nat) (ns : registry)
    : registry * option goerror :=
  let colls := default [] (ns !! db) in
  match find_coll h coll colls with
  | Some (Some tt) => (ns, None)
  | Some None => (ns, Some (ENew (quote (deref h coll) +:+ " defined in more than one locations")))
  | None => (<[db := colls ++ [coll]]> ns, None)
  end.

(** [RegisterUnmanagedNamespace]; its message formats the whole map. *)
Definition RegisterUnmanagedNamespace (formatted : unmanaged -> string) (db coll : string) (ns : unmanaged)
    : unmanaged * option goerror :=
  let colls := default [] (ns !! db) in
  if existsb (fun existing => bool_decide (coll = existing)) colls
  then (ns, Some (ENew (formatted ns +:+ " defined in more than one locations")))
  else (<[db := colls ++ [coll]]> ns, None).

(** [getNamespaces], over the registry in the order in which the map gives it. *)
Definition getNamespaces (h : strHeap) (order : list (nat * list nat)) : gmap string (list string) :=
  foldl (fun m '(db, colls) => <[deref h db := deref h <$> colls]> m) ∅ order.

(** [randomizedName], without the new name. *)
Record randomizedName := mkRandomized { rn_ptr : nat; rn_from : string }.

(** [RandomizeNamespaces]: the names drawn so far are counted by [n]. *)
Section Randomize.
Context (random : nat -> string).    (* the results of RandomAlphaString *)

Fixpoint randomize_colls (h : strHeap) (n : nat) (colls : list nat) : strHeap * nat * list randomizedName :=
  match colls with
  | [] => (h, n, [])
  | coll :: colls' =>
      let name := mkRandomized coll (deref h coll) in
      let '(h', n', names) := randomize_colls (<[coll := random n]> h) (S n) colls' in
      (h', n', name :: names)
  end.
Fixpoint randomize_dbs (h : strHeap) (n : nat) (order : list (nat * list nat))
    : strHeap * list (randomizedName * list randomizedName) :=
  match order with
  | [] => (h, [])
  | (db, colls) :: order' =>
      let name := mkRandomized db (deref h db) in
      let to := "test-" +:+ random n in
      let '(h1, n1, names) := randomize_colls h (S n) colls in
      let '(h2, rest) := randomize_dbs (<[db := to]> h1) n1 order' in
      (h2, (name, names) :: rest)
  end.
End Randomize.

(** The function that restores the names, over the old names in the order in
    which the map gives them. *)
Definition restore_name (h : strHeap) (n : randomizedName) : strHeap := <[rn_ptr n := rn_from n]> h.
Definition restore (h : strHeap) (order : list (randomizedName * list randomizedName)) : strHeap :=
  foldl (fun h '(db, colls) => foldl restore_name (restore_name h db) colls) h order.

(** All pointers of the registry. *)
Definition pointers (order : list (nat * list nat)) : list nat := concat ((fun '(db, colls) => db :: colls) <$> order).

(** ** Lemmas *)

Section ChangeStreamProofs.
Context {Event : Type} (isInvalidate : Event -> bool) (clusterTime : Event -> Timestamp).

(** What the stream has read in a round. *)
Definition read_of (r : csRound Event) : option (Event + goerror) :=
  match cr_tryNext r with Some e => Some e | None => cr_next r end.

(** Everything sent was sent once at the start, and never after it. *)
Lemma started_sends_nothing rounds : (cs_loop isInvalidate clusterTime true rounds).1.1 = [].
Proof.
  induction rounds as [|r rounds IH]; [done|]. cbn [cs_loop]. unfold cs_round.
  destruct (cr_ctxDone r); [done|]. destruct (cr_tryNext r) as [[ce|err]|].
  - destruct (cs_loop _ _ true rounds) as [[st rs] e]. simpl in *. by rewrite IH.
  - done.
  - destruct (cr_next r) as [[ce|err]|]; [|done|done]. destruct (isInvalidate ce); [done|].
    destruct (cs_loop _ _ true rounds) as [[st rs] e]. simpl in *. by rewrite IH.
Qed.

(** The results of a run: events, and an error at most at the end. *)
Lemma results_shape started rounds :
  Forall (fun r => cr_delivered r = true) rounds ->
  let '(_, results, ended) := cs_loop isInvalidate clusterTime started rounds in
  exists k last, (k <= length rounds)%nat /\
    results = ((fun '(e, t) => mkCsResult (Some e) None t) <$>
       omap (fun r => match read_of r with Some (inl e) => Some (e, cr_token r) | _ => None end) (take k rounds)) ++ last /\
    (forall r, r ∈ take k rounds -> exists e, read_of r = Some (inl e)) /\
    (last = [] \/ (ended = true /\ exists err t, last = [mkCsResult None (Some err) t])).
Proof.
  revert started. induction rounds as [|r rounds IH]; intros started Hd; [exists 0, []; split_and!; [done|done|by intros ? ?%elem_of_nil|by left]|].
  apply Forall_cons in Hd as [Hr Hd]. cbn [cs_loop]. unfold cs_round, sendResult. rewrite Hr.
  assert (Hstop : forall last, (last = [] \/ (true = true /\ exists err t, last = [mkCsResult None (Some err) t])) ->
    exists k last', (k <= length (r :: rounds))%nat /\
      last = ((fun '(e, t) => mkCsResult (Some e) None t) <$>
       omap (fun r => match read_of r with Some (inl e) => Some (e, cr_token r) | _ => None end) (take k (r :: rounds))) ++ last' /\
      (forall r', r' ∈ take k (r :: rounds) -> exists e, read_of r' = Some (inl e)) /\
      (last' = [] \/ (true = true /\ exists err t, last' = [mkCsResult (Event := Event) None (Some err) t]))).
  { intros last Hl. exists 0, last. split_and!; [lia|done|by intros ? ?%elem_of_nil|done]. }
  assert (Hgo : forall ce started', read_of r = Some (inl ce) ->
    let '(_, results, ended) := cs_loop isInvalidate clusterTime started' rounds in
    exists k last, (k <= length (r :: rounds))%nat /\
      [mkCsResult (Some ce) None (cr_token r)] ++ results = ((fun '(e, t) => mkCsResult (Some e) None t) <$>
       omap (fun r => match read_of r with Some (inl e) => Some (e, cr_token r) | _ => None end) (take k (r :: rounds))) ++ last /\
      (forall r', r' ∈ take k (r :: rounds) -> exists e, read_of r' = Some (inl e)) /\
      (last = [] \/ (ended = true /\ exists err t, last = [mkCsResult (Event := Event) None (Some err) t]))).
  { intros ce started' Hce. specialize (IH started' Hd). destruct (cs_loop _ _ started' rounds) as [[st rs] e].
    destruct IH as (k & last & Hk & -> & Hall & Hlast). exists (S k), last. split_and!; [simpl; lia| | |done].
    - simpl. rewrite Hce. done.
    - intros r'. simpl. intros [->|Hin]%elem_of_cons; [by exists ce|by apply Hall]. }
  destruct (cr_ctxDone r); [by apply Hstop; left|]. destruct (cr_tryNext r) as [[ce|err]|] eqn:Ht.
  - specialize (Hgo ce true). destruct (cs_loop _ _ true rounds) as [[st rs] e]. apply Hgo. unfold read_of. by rewrite Ht.
  - apply Hstop. right. split; [done|]. by eexists _, _.
  - destruct (cr_next r) as [[ce|err]|] eqn:Hn; [|by apply Hstop; right; split; [|eexists _, _]..].
    destruct (isInvalidate ce); [by apply Hstop; right; split; [|eexists _, _]|].
    specialize (Hgo ce true). destruct (cs_loop _ _ true rounds) as [[st rs] e]. apply Hgo. unfold read_of. by rewrite Ht, Hn.
Qed.
End ChangeStreamProofs.

(** ** Names of namespaces *)

(** The old names as pairs of pointers and strings. *)
Definition undo_list (old : list (randomizedName * list randomizedName)) : list randomizedName :=
  concat ((fun '(db, colls) => db :: colls) <$> old).

Lemma pointers_cons db colls order : pointers ((db, colls) :: order) = db :: colls ++ pointers order.
Proof. done. Qed.
Lemma undo_cons db colls old : undo_list ((db, colls) :: old) = db :: colls ++ undo_list old.
Proof. done. Qed.

(** Writing names through pointers that are not [p]. *)
Lemma randomize_colls_other random h n colls p :
  p ∉ colls -> (randomize_colls random h n colls).1.1 !! p = h !! p.
Proof.
  revert h n. induction colls as [|c colls IH]; intros h n Hp; [done|]. apply not_elem_of_cons in Hp as [Hc Hp].
  simpl. specialize (IH (<[c := random n]> h) (S n) Hp). destruct (randomize_colls _ _ _ colls) as [[h' n'] names].
  simpl in *. by rewrite IH, lookup_insert_ne.
Qed.

Lemma randomize_dbs_other random h n order p :
  p ∉ pointers order -> (randomize_dbs random h n order).1 !! p = h !! p.
Proof.
  revert h n. induction order as [|[db colls] order IH]; intros h n Hp; [done|]. rewrite pointers_cons in Hp.
  apply not_elem_of_cons in Hp as [Hdb Hp]. apply not_elem_of_app in Hp as [Hc Hp].
  pose proof (randomize_colls_other random h (S n) colls p Hc) as Ho. cbn [randomize_dbs].
  destruct (randomize_colls _ _ _ colls) as [[h1 n1] names].
  specialize (IH (<[db := "test-" +:+ random n]> h1) n1 Hp). destruct (randomize_dbs _ _ _ order) as [h2 rest].
  simpl in *. by rewrite IH, lookup_insert_ne.
Qed.

Lemma restore_undo h old : restore h old = foldl restore_name h (undo_list old).
Proof.
  unfold restore, undo_list. revert h. induction old as [|[db colls] old IH]; intros h; [done|].
  simpl. rewrite foldl_app. by rewrite IH.
Qed.

(** Collections: the recorded names are those of before, as long as no pointer
    is written twice. *)
Lemma randomize_colls_old random h n colls :
  NoDup colls -> (randomize_colls random h n colls).2 = (fun p => mkRandomized p (deref h p)) <$> colls.
Proof.
  revert h n. induction colls as [|c colls IH]; intros h n Hnd; [done|]. apply NoDup_cons in Hnd as [Hc Hnd].
  simpl. specialize (IH (<[c := random n]> h) (S n) Hnd). destruct (randomize_colls _ _ _ colls) as [[h' n'] names].
  simpl in *. rewrite IH. f_equal. apply list_fmap_ext. intros i p Hp. f_equal. unfold deref. rewrite lookup_insert_ne; [done|].
  intros ->. by apply Hc, (list_elem_of_lookup_2 _ i).
Qed.

Lemma randomize_dbs_old random h n order :
  NoDup (pointers order) -> undo_list (randomize_dbs random h n order).2 = (fun p => mkRandomized p (deref h p)) <$> pointers order.
Proof.
  revert h n. induction order as [|[db colls] order IH]; intros h n Hnd; [done|]. rewrite pointers_cons in *.
  apply NoDup_cons in Hnd as [Hdb Hnd]. apply NoDup_app in Hnd as (Hc & Hdis & Hnd).
  pose proof (randomize_colls_old random h (S n) colls Hc) as Hold.
  pose proof (randomize_colls_other random h (S n) colls) as Hother. cbn [randomize_dbs].
  destruct (randomize_colls _ _ _ colls) as [[h1 n1] names]. cbn [fst snd] in *. subst names.
  specialize (IH (<[db := "test-" +:+ random n]> h1) n1 Hnd). destruct (randomize_dbs _ _ _ order) as [h2 rest].
  cbn [snd] in *. rewrite undo_cons, IH, fmap_cons, fmap_app. f_equal. f_equal. apply list_fmap_ext. intros i p Hp. f_equal. unfold deref.
  apply (list_elem_of_lookup_2 _ i) in Hp. rewrite lookup_insert_ne.
  - rewrite Hother; [done|]. intros Hin. by apply (Hdis p).
  - intros ->. apply Hdb. apply elem_of_app. by right.
Qed.

(** Restoring a list of names. *)
Lemma restore_names_lookup names h p :
  NoDup (rn_ptr <$> names) ->
  foldl restore_name h names !! p = match list_find (fun n => rn_ptr n = p) names with
                                    | Some (_, n) => Some (rn_from n) | None => h !! p end.
Proof.
  revert h. induction names as [|n names IH]; intros h Hnd; [done|]. simpl in *. apply NoDup_cons in Hnd as [Hn Hnd].
  rewrite IH by done. destruct (decide (rn_ptr n = p)) as [<-|Hne].
  - destruct (list_find _ names) as [[i x]|] eqn:E; simpl.
    + apply list_find_Some in E as (Hi & Hx & _). destruct Hn. rewrite <- Hx. apply list_elem_of_fmap.
      exists x. split; [done|]. by apply (list_elem_of_lookup_2 _ i).
    + unfold restore_name. by rewrite lookup_insert_eq.
  - destruct (list_find _ names) as [[i x]|]; simpl; [done|]. unfold restore_name. by rewrite lookup_insert_ne.
Qed.

(** ** Properties *)

(** ChangeStreamBackground returns exactly when its context is not done before
    the first round; it then has the one resume token that was sent. When the
    context is done already, the goroutine ends without sending on [csStarted],
    and the caller waits for ever. *)
Theorem background_returns_iff {Event : Type} (isInvalidate : Event -> bool) (clusterTime : Event -> Timestamp)
    (r : csRound Event) (rounds : list (csRound Event)) :
  (is_Some (ChangeStreamBackground isInvalidate clusterTime (r :: rounds)) <-> cr_ctxDone r = false) /\
  length (cs_loop isInvalidate clusterTime false (r :: rounds)).1.1 = (if cr_ctxDone r then 0 else 1) /\
  (cr_ctxDone r = true -> cs_loop isInvalidate clusterTime false (r :: rounds) = ([], [], true)).
Proof.
  unfold ChangeStreamBackground. cbn [cs_loop]. unfold cs_round. destruct (cr_ctxDone r); [split_and!; [by split; [intros []|]|done|done]|].
  assert (Hgo : forall x rs, (let '(start', results', ended) := cs_loop isInvalidate clusterTime true rounds in
    ([x] ++ start', rs ++ results', ended)).1.1 = [x]).
  { intros x rs. pose proof (started_sends_nothing isInvalidate clusterTime rounds) as H.
    destruct (cs_loop _ _ true rounds) as [[st rs'] e]. simpl in *. by rewrite H. }
  destruct (cr_tryNext r) as [[ce|err]|].
  - rewrite Hgo. by split_and!; [split; [|eexists]|..].
  - by split_and!; [split; [|eexists]|..].
  - destruct (cr_next r) as [[ce|err]|]; [destruct (isInvalidate ce)|..]; try (by split_and!; [split; [|eexists]|..]).
    rewrite Hgo. by split_and!; [split; [|eexists]|..].
Qed.

(** While its results are taken, a change stream's channel gives exactly the
    events that were read, in order and each with its resume token, then at most
    one error, after which it is closed. *)
Theorem results_are_the_events {Event : Type} (isInvalidate : Event -> bool) (clusterTime : Event -> Timestamp)
    (rounds : list (csRound Event)) :
  Forall (fun r => cr_delivered r = true) rounds ->
  let '(_, results, ended) := cs_loop isInvalidate clusterTime false rounds in
  exists k last, k <= length rounds /\
    results = ((fun '(e, t) => mkCsResult (Some e) None t) <$>
       omap (fun r => match read_of r with Some (inl e) => Some (e, cr_token r) | _ => None end) (take k rounds)) ++ last /\
    (forall r, r ∈ take k rounds -> exists e, read_of r = Some (inl e)) /\
    (last = [] \/ (ended = true /\ exists err t, last = [mkCsResult None (Some err) t])).
Proof. apply results_shape. Qed.

(** An event that invalidates the stream is only told apart when Next reads it:
    read by TryNext it is passed on like any other, and the stream goes on. *)
Theorem invalidation_by_TryNext_is_an_event {Event : Type} (isInvalidate : Event -> bool) (clusterTime : Event -> Timestamp)
    (ce : Event) (token : string) (rounds : list (csRound Event)) :
  isInvalidate ce = true ->
  let tried := mkCsRound false (Some (inl ce)) None None token true in
  let nexted := mkCsRound false None (Some (inl ce)) None token true in
  (cs_loop isInvalidate clusterTime true (tried :: rounds)).1.2 =
    mkCsResult (Some ce) None token :: (cs_loop isInvalidate clusterTime true rounds).1.2 /\
  (cs_loop isInvalidate clusterTime true (nexted :: rounds)).1.2 =
    [mkCsResult None (Some (EIs ErrChangeStreamInvalidateEvent)) token].
Proof.
  intros Hi. simpl. unfold cs_round. simpl. rewrite Hi. by destruct (cs_loop _ _ true rounds) as [[st rs] e].
Qed.

(** Restoring randomized namespaces gives back every name, in whatever order the
    two maps are gone through, provided that no string is registered twice. *)
Theorem restore_undoes_randomize (random : nat -> string) (h h' : strHeap) (n : nat) (order : list (nat * list nat))
    (old old' : list (randomizedName * list randomizedName)) :
  NoDup (pointers order) -> (forall p, p ∈ pointers order -> is_Some (h !! p)) ->
  randomize_dbs random h n order = (h', old) -> old ≡ₚ old' -> restore h' old' = h.
Proof.
  intros Hnd Hin Hr Hp. pose proof (randomize_dbs_old random h n order Hnd) as Hold.
  pose proof (randomize_dbs_other random h n order) as Hother. rewrite Hr in *. simpl in *.
  assert (Hp' : undo_list old' ≡ₚ (fun p => mkRandomized p (deref h p)) <$> pointers order).
  { rewrite <- Hold. unfold undo_list. symmetry. by rewrite Hp. }
  assert (Hptr : rn_ptr <$> undo_list old' ≡ₚ pointers order).
  { rewrite Hp', <- list_fmap_compose. change (rn_ptr ∘ _) with (@id nat). by rewrite list_fmap_id. }
  rewrite restore_undo. apply map_eq. intros p. rewrite restore_names_lookup by (by rewrite Hptr).
  destruct (list_find _ (undo_list old')) as [[i x]|] eqn:E.
  - apply list_find_Some in E as (Hi & Hx & _). apply list_elem_of_lookup_2 in Hi. rewrite Hp' in Hi.
    apply list_elem_of_fmap in Hi as (q & -> & Hq). simpl in *. subst q. destruct (Hin p Hq) as [s Hs]. unfold deref. by rewrite Hs.
  - apply Hother. intros Hpin. apply list_find_None in E. rewrite <- Hptr in Hpin.
    apply list_elem_of_fmap in Hpin as (x & -> & Hx). rewrite Forall_forall in E. by apply (E x).
Qed.

(** A name that two databases share is not restored when the map gives them in
    the order in which they were randomized. *)
Lemma shared_name_is_not_restored :
  exists (random : nat -> string) (h : strHeap) order, let '(h', old) := randomize_dbs random h 0 order in
    (forall p, p ∈ pointers order -> is_Some (h !! p)) /\ restore h' old <> h.
Proof.
  exists (fun n => if decide (n = 1) then "first"%string else "other"%string),
    ({[ 0 := "db1"%string; 1 := "db2"%string; 2 := "calls"%string ]} : strHeap), [(0, [2]); (1, [2])]. simpl. split.
  - unfold pointers. simpl. intros p Hp. repeat (apply elem_of_cons in Hp as [->|Hp]; [by eexists|]). by apply elem_of_nil in Hp.
  - intros E. apply (f_equal (fun m : strHeap => m !! 2)) in E. vm_compute in E. congruence.
Qed.

(** Two databases of the same name: the registry's copy only has the collections
    of the one that the map gives last. *)
Theorem same_name_loses_collections (h : strHeap) (order : list (nat * list nat)) (db1 db2 : nat) (colls1 colls2 : list nat) :
  deref h db1 = deref h db2 ->
  getNamespaces h (order ++ [(db1, colls1); (db2, colls2)]) !! deref h db1 = Some (deref h <$> colls2).
Proof. intros E. unfold getNamespaces. rewrite foldl_app. simpl. by rewrite E, lookup_insert_eq. Qed.

(** ** Concrete inputs *)
Section Witnesses.
Definition sample_rounds : list (csRound bool) :=
  [mkCsRound false (Some (inl false)) None None "t1" true; mkCsRound false None (Some (inl false)) None "t2" true;
   mkCsRound false None None (Some (EIs EOF)) "t3" true].

Lemma results_are_the_events_witness :
  let '(_, results, ended) := cs_loop id (fun _ => (1, 0)%Z) false sample_rounds in
  exists k last, k <= 3 /\
    results = ((fun '(e, t) => mkCsResult (Some e) None t) <$>
       omap (fun r => match read_of r with Some (inl e) => Some (e, cr_token r) | _ => None end) (take k sample_rounds)) ++ last /\
    (forall r, r ∈ take k sample_rounds -> exists e, read_of r = Some (inl e)) /\
    (last = [] \/ (ended = true /\ exists err t, last = [mkCsResult None (Some err) t])).
Proof. apply (results_are_the_events id (fun _ => (1, 0)%Z) sample_rounds). by repeat constructor. Defined.

Lemma invalidation_by_TryNext_is_an_event_witness :
  (cs_loop id (fun _ => (1, 0)%Z) true [mkCsRound false (Some (inl true)) None None "t" true]).1.2 =
    [mkCsResult (Some true) None "t"].
Proof. exact (proj1 (invalidation_by_TryNext_is_an_event id (fun _ => (1, 0)%Z) true "t" [] eq_refl)). Defined.

Lemma restore_undoes_randomize_witness :
  let h : strHeap := {[ 0 := "db"%string; 1 := "calls"%string ]} in
  let res := randomize_dbs (fun _ => "x"%string) h 0 [(0, [1])] in restore res.1 res.2 = h.
Proof.
  intros h res. apply (restore_undoes_randomize (fun _ => "x"%string) h res.1 0 [(0, [1])] res.2 res.2); [| |reflexivity|reflexivity].
  - apply (bool_decide_unpack _). vm_compute. exact I.
  - intros p Hp. unfold pointers in Hp. simpl in Hp.
    repeat (apply elem_of_cons in Hp as [->|Hp]; [by eexists|]). by apply elem_of_nil in Hp.
Defined.

Lemma same_name_loses_collections_witness :
  getNamespaces {[ 0 := "db"%string; 1 := "db"%string; 2 := "a"%string; 3 := "b"%string ]} [(0, [2]); (1, [3])] !! "db"%string
    = Some ["b"%string].
Proof.
  exact (same_name_loses_collections {[ 0 := "db"%string; 1 := "db"%string; 2 := "a"%string; 3 := "b"%string ]} [] 0 1 [2] [3] eq_refl).
Defined.
End Witnesses.
