(* ===== verification/Web.v ===== *)
(** * Web sessions and login: [web/sessions.go], [web/user.go], [web/auth0.go]

    Sessions live in a heap, since stores and handlers share them by pointer.
    What a session manager needs of a store is the class [SessionStore]; both
    stores implement it and its laws. The handlers of the login flow are
    functions of the request; OAuth, OpenID Connect, the random generator and
    the clock are arguments. *)

From S2P Require Import Prelude GoError Peer.
From Stdlib Require Import Ascii.

(** ** Sessions *)

(** Values of a session's data, as far as the code tells them apart: [VBsonM] is
    a [bson.M], [VGoMap] a plain map. *)
Inductive value :=
  | VStr (s : string)
  | VBool (b : bool)
  | VOther
  | VBsonM (fields : list (string * value))
  | VGoMap (fields : list (string * value)).
Abbreviation data := (gmap string value).

(** [Session]; its store and manager are those of the program. *)
Record session := mkSession { ss_isNew : bool; ss_id : string; ss_Data : data }.

Definition errNoSession : goerror := ENew "no session found".

(** The sessions that exist, and a store. *)
Abbreviation world S := (list session * S)%type.

(** [Store]. [inl None] is a nil session without an error. *)
Class SessionStore (S : Type) := {
  store_Get : string -> world S -> world S * (option nat + goerror);
  store_Save : nat -> world S -> world S * option goerror;
  store_Delete : string -> world S -> world S * option goerror;
}.

(** Writing to the data of a session, through its pointer. *)
Definition set_data {S} (p : nat) (k : string) (v : value) (w : world S) : world S :=
  (alter (fun s => mkSession (ss_isNew s) (ss_id s) (<[k := v]> (ss_Data s))) p w.1, w.2).

(** ** The stores *)

(** [memorySessionStore]: a map that may be nil, of pointers that may be nil. *)
Abbreviation memorySessionStore := (option (gmap string (option nat))).
Definition NewMemorySessionStore : memorySessionStore := None.
Definition mem_Get (id : string) (w : world memorySessionStore) : world memorySessionStore * (option nat + goerror) :=
  match w.2 with
  | None => (w, inr errNoSession)
  | Some m => (w, inl (default None (m !! id)))
  end.
Definition mem_Save (p : nat) (w : world memorySessionStore) : world memorySessionStore * option goerror :=
  match w.1 !! p with
  | Some s => ((w.1, Some (<[ss_id s := Some p]> (default ∅ w.2))), None)
  | None => (w, None)
  end.
Definition mem_Delete (id : string) (w : world memorySessionStore) : world memorySessionStore * option goerror :=
  ((w.1, (fun m => <[id := None]> m) <$> w.2), None).
#[export] Instance memory_store : SessionStore memorySessionStore := {|
  store_Get := mem_Get; store_Save := mem_Save; store_Delete := mem_Delete |}.

(** [mongoDBSessionStore] on its collection. [bson] is what a value becomes
    when it is written to a document and read again, [fails] whether the
    database refuses a call. *)
Abbreviation sessions_coll := (gmap string data).
Section Mongo.
Context (bson : value -> value) (fails : string -> option goerror).

Definition mongo_Get (id : string) (w : world sessions_coll) : world sessions_coll * (option nat + goerror) :=
  match fails id with
  | Some err => (w, inr (EWrap "couldn't load session from db" err))
  | None =>
      match w.2 !! id with
      | None => (w, inr errNoSession)
      | Some d => ((w.1 ++ [mkSession false id (bson <$> d)], w.2), inl (Some (length w.1)))
      end
  end.
Definition mongo_Save (p : nat) (w : world sessions_coll) : world sessions_coll * option goerror :=
  match w.1 !! p with
  | Some s =>
      match fails (ss_id s) with
      | Some err => (w, Some err)
      | None => ((w.1, <[ss_id s := ss_Data s]> w.2), None)
      end
  | None => (w, None)
  end.
Definition mongo_Delete (id : string) (w : world sessions_coll) : world sessions_coll * option goerror :=
  match fails id with
  | Some err => (w, Some err)
  | None => ((w.1, delete id w.2), None)
  end.
Definition mongo_store : SessionStore sessions_coll := {|
  store_Get := mongo_Get; store_Save := mongo_Save; store_Delete := mongo_Delete |}.
End Mongo.

(** ** Requests and responses *)

(** What the handlers use of a request. *)
Record request := mkRequest {
  rq_cookies : gmap string string;
  rq_query : gmap string string;
  rq_backto : string;             (* FormValue *)
  rq_referer : string;
}.

(** What they do to the response; the attributes of cookies that are the same
    for all are left out. *)
Inductive respAction :=
  | SetCookie (name value : string) (maxAge : Z)
  | WriteHeader (status : Z)
  | WriteBody (text : string)
  | HTTPError (text : string) (status : Z)
  | Redirect (url : string) (status : Z).
#[export] Instance respAction_eqdec : EqDecision respAction.
Proof. solve_decision. Defined.

Definition cookieName : string := "session-id".

(** ** The session manager *)

Section Manager.
Context {St : Type} `{SessionStore St}.

(** [newID]: 32 random bytes in base64, or an error of the generator. *)
Definition newID (random : bytes + goerror) : string + goerror :=
  match random with
  | inr err => inr err
  | inl b => inl (String.string_of_list_ascii (base64_encode b))
  end.

(** [SessionManager.Get]; a nil session is never returned without an error. *)
Definition new_session (id : string) (w : world St) : world St * (nat + goerror) :=
  ((w.1 ++ [mkSession true id ∅], w.2), inl (length w.1)).
Definition create_session (id : string) (random : bytes + goerror) (w : world St) : world St * (nat + goerror) :=
  if bool_decide (id = EmptyString) then
    match newID random with
    | inr err => (w, inr (EWrap "couldn't create new id" err))
    | inl id' => new_session id' w
    end
  else new_session id w.
Definition Get (r : request) (createIfNotExist : bool) (random : bytes + goerror) (w : world St)
    : world St * (nat + goerror) :=
  match rq_cookies r !! cookieName with
  | None => if createIfNotExist then create_session EmptyString random w else (w, inr errNoSession)
  | Some id =>
      match store_Get id w with
      | (w', inl (Some p)) => (w', inl p)
      | (w', inl None) => if createIfNotExist then create_session id random w' else (w', inr errNoSession)
      | (w', inr err) =>
          if errors_Is err errNoSession then if createIfNotExist then create_session id random w' else (w', inr errNoSession)
          else (w', inr (EWrap "couldn't get cookie from store" err))
      end
  end.

(** [DeleteSession]. *)
Definition DeleteSession (r : request) (w : world St) : world St * list respAction :=
  (match rq_cookies r !! cookieName with
   | Some id => fst (store_Delete id w)
   | None => w
   end, [SetCookie cookieName EmptyString (-1)]).

(** [Session.Save]. *)
Definition Save (p : nat) (w : world St) : world St * list respAction * option goerror :=
  match w.1 !! p with
  | None => (w, [], None)
  | Some s =>
      let w1 := (<[p := mkSession false (ss_id s) (ss_Data s)]> w.1, w.2) in
      let '(w2, err) := store_Save p w1 in
      (w2, if ss_isNew s then [SetCookie cookieName (ss_id s) (86400 * 7)] else [], err)
  end.

(** Reading the data of a session. *)
Definition get_data (p : nat) (k : string) (w : world St) : option value :=
  w.1 !! p ≫= fun s => ss_Data s !! k.
Definition get_string (p : nat) (k : string) (w : world St) : string :=
  match get_data p k w with Some (VStr s) => s | _ => EmptyString end.

(** ** Who is logged in: [GetLoggedInUserInfo] *)

Record UserInfo := mkUserInfo { ui_LoggedIn : bool; ui_Properties : list (string * value) }.
Definition user_of (v : value) : UserInfo * option goerror :=
  match v with
  | VBsonM props => (mkUserInfo true props, None)
  | _ => (mkUserInfo true [], Some (ENew "expected bson.M"))
  end.
Definition GetLoggedInUserInfo (r : request) (w : world St) : world St * (UserInfo * option goerror) :=
  let ui := mkUserInfo false [("email"%string, VStr EmptyString)] in
  match Get r false (inr errNoSession) w with
  | (w', inr err) => (w', (ui, if errors_Is err errNoSession then None else Some err))
  | (w', inl p) =>
      match get_data p "profile" w' with
      | None => (w', (ui, None))
      | Some v => (w', user_of v)
      end
  end.

(** The getters of a user; a nil map has no properties. *)
Definition property (name : string) (u : UserInfo) : option value :=
  snd <$> List.find (fun f => bool_decide (f.1 = name)) (ui_Properties u).
Definition string_property (name : string) (u : UserInfo) : string :=
  match property name u with Some (VStr s) => s | _ => EmptyString end.
Definition bool_property (name : string) (u : UserInfo) : bool :=
  match property name u with Some (VBool b) => b | _ => false end.
Definition GetEmail : UserInfo -> string := string_property "email".
Definition GetEmailVerified : UserInfo -> bool := bool_property "email_verified".
Definition GetBool (name : string) : UserInfo -> bool := bool_property name.
Definition GetUpdatedAt : UserInfo -> string := string_property "updated_at".

(** ** The login flow *)

(** An OAuth token; [ot_id_token] is its extra field, if it is a string. *)
Record oauthToken := mkToken { ot_access : string; ot_refresh : string; ot_expiry : string; ot_id_token : option string }.

(** What is outside: how an error becomes a status ([errors.As] of an
    ErrorResponse), the authorization URL, the exchange of a code, making the
    provider, verifying an ID token, and reading its claims as the profile. *)
Record authEnv := mkAuthEnv {
  ae_status : goerror -> option Z;
  ae_text : goerror -> string;
  ae_AuthCodeURL : option string -> string -> string;
  ae_Exchange : string -> oauthToken + goerror;
  ae_provider : option goerror;
  ae_Verify : string -> option goerror;
  ae_Claims : string -> list (string * value) + goerror;
}.
Context (env : authEnv).

(** [HandleError] on an error. *)
Definition newline : string := String (Ascii.ascii_of_nat 10) EmptyString.
Definition HandleError (err : goerror) (context : list string) : list respAction :=
  [WriteHeader (default 500%Z (ae_status env err));
   WriteBody (foldr (fun x b => x +:+ newline +:+ b) (ae_text env err +:+ newline) context)].

(** [strings.SplitN(s, ":", 2)], when it has two parts. *)
Fixpoint split_colon (s : string) : option (string * string) :=
  match s with
  | EmptyString => None
  | String c s' =>
      if Ascii.ascii_dec c ":"%char then Some (EmptyString, s')
      else match split_colon s' with Some (a, b) => Some (String c a, b) | None => None end
  end.

(** [loginHandler.ServeHTTP]; the random bytes are those of the state and those
    of a new session. *)
Definition loginHandler (cookie : string) (r : request) (random idRandom : bytes + goerror) (w : world St)
    : world St * list respAction :=
  match random with
  | inr err => (w, HandleError err ["error getting random number"])
  | inl b =>
      let state := String.string_of_list_ascii (base64_encode b) in
      match Get r true idRandom w with
      | (w1, inr err) => (w1, HandleError err ["error getting session"])
      | (w1, inl p) =>
          let id := default EmptyString (ss_id <$> w1.1 !! p) in
          let sent := [SetCookie cookie (id +:+ ":" +:+ state) 600] in
          let w2 := if bool_decide (rq_backto r = EmptyString) then w1 else set_data p "backto" (VStr (rq_backto r)) w1 in
          (* nil is not the empty string *)
          let w3 := match get_data p "backto" w2 with
                    | Some (VStr EmptyString) => set_data p "backto" (VStr (rq_referer r)) w2
                    | _ => w2
                    end in
          match Save p w3 with
          | (w4, cookies, Some err) => (w4, sent ++ cookies ++ HandleError err ["error saving session"])
          | (w4, cookies, None) =>
              let redirect := default EmptyString (rq_query r !! "redirect_uri"%string) in
              (w4, sent ++ cookies ++
                [Redirect (ae_AuthCodeURL env (if bool_decide (redirect = EmptyString) then None else Some redirect) state) 307])
          end
      end
  end.

(** [verifyAndSaveToken] on a session, which is written through its pointer. *)
Definition verifyAndSaveToken (p : nat) (token : oauthToken) (w : world St) : world St * option goerror :=
  match ot_id_token token with
  | None => (w, Some (ENew "no id_token field in oauth2 token"))
  | Some raw =>
      match ae_provider env with
      | Some err => (w, Some err)
      | None =>
          match ae_Verify env raw with
          | Some err => (w, Some (ENew ("failed to verify ID Token: " +:+ ae_text env err)))
          | None =>
              match ae_Claims env raw with
              | inr err => (w, Some err)
              | inl profile =>
                  (set_data p "profile" (VGoMap profile)
                     (set_data p "access_token" (VStr (ot_access token)) (set_data p "id_token" (VStr raw) w)), None)
              end
          end
      end
  end.

(** The end of both callbacks: where to go back, and the saved session. *)
Definition finish_callback (p : nat) (w : world St) : world St * list respAction * (string + goerror) :=
  let backto := get_string p "backto" w in
  let backto := if bool_decide (backto = EmptyString) then "/" else backto in
  match Save p (set_data p "backto" (VStr EmptyString) w) with
  | (w', cookies, Some err) => (w', cookies, inr err)
  | (w', cookies, None) => (w', cookies, inl backto)
  end.

Inductive handled :=
  | Handled (w : world St) (resp : list respAction)
  | Panicked.    (* a nil session was used *)

Definition token_cookies (token : oauthToken) : list respAction :=
  [SetCookie "viam.auth.token" (ot_access token) 0; SetCookie "viam.auth.refresh" (ot_refresh token) 0;
   SetCookie "viam.auth.expiry" (ot_expiry token) 0].
Definition quote : string := String (Ascii.ascii_of_nat 34) EmptyString.
Definition callback_page (backto : string) : string :=
  "<html>" +:+ newline +:+ "<head>" +:+ newline +:+
  "<meta http-equiv=" +:+ quote +:+ "refresh" +:+ quote +:+ " content=" +:+ quote +:+ "0;URL='" +:+ backto +:+ "'" +:+ quote +:+ "/>" +:+ newline +:+
  "</head>" +:+ newline +:+ "</html>" +:+ newline.

(** [callbackHandler.ServeHTTP]. *)
Definition callbackHandler (cookie : string) (r : request) (w : world St) : handled :=
  match rq_cookies r !! cookie with
  | None => Handled w [Redirect "/login" 307]
  | Some stateCookie =>
      let cleared := [SetCookie cookie EmptyString (-1)] in
      match split_colon stateCookie with
      | None => Handled w (cleared ++ [WriteHeader 400; WriteBody "invalid state parameter"])
      | Some (id, state) =>
          match store_Get id w with
          | (w1, inr err) => Handled w1 (cleared ++ HandleError err ["getting session"])
          | (w1, inl sess) =>
              if negb (bool_decide (default EmptyString (rq_query r !! "state"%string) = state))
              then Handled w1 (cleared ++ [HTTPError "Invalid state parameter" 400])
              else
                match ae_Exchange env (default EmptyString (rq_query r !! "code"%string)) with
                | inr err => Handled w1 (cleared ++ [WriteHeader 401])
                | inl token =>
                    match sess with
                    | None =>
                        (* verifyAndSaveToken writes to the session once the token is verified *)
                        match verifyAndSaveToken 0 token w1 with
                        | (_, Some err) => Handled w1 (cleared ++ HandleError err [])
                        | (_, None) => Panicked
                        end
                    | Some p =>
                        match verifyAndSaveToken p token w1 with
                        | (w2, Some err) => Handled w2 (cleared ++ HandleError err [])
                        | (w2, None) =>
                            match finish_callback p w2 with
                            | (w3, cookies, inr err) => Handled w3 (cleared ++ cookies ++ [HTTPError (ae_text env err) 500])
                            | (w3, cookies, inl backto) =>
                                Handled w3 (cleared ++ cookies ++ token_cookies token ++ [WriteBody (callback_page backto)])
                            end
                        end
                    end
                end
          end
      end
  end.

(** [tokenCallbackHandler.ServeHTTP]; [parse] reads a body as a token, with its
    "expires_in" if that is a number, and [from_now] is a time to come. *)
Definition tokenCallbackHandler (r : request) (isPost : bool) (body : bytes + goerror)
    (parse : bytes -> oauthToken * option Z + goerror) (from_now : Z -> string) (idRandom : bytes + goerror) (w : world St)
    : world St * list respAction :=
  match Get r true idRandom w with
  | (w1, inr err) => (w1, HandleError err ["getting session"])
  | (w1, inl p) =>
      if negb isPost then (w1, [HTTPError "method not allowed" 405])
      else
        match body with
        | inr _ => (w1, [HTTPError "unable to read message body" 400])
        | inl b =>
            match parse b with
            | inr err => (w1, HandleError err ["reading token"])
            | inl (_, None) => (w1, HandleError (ENew "could not determine token expiry") ["reading token"])
            | inl (token, Some e) =>
                let token := if bool_decide (e = 0%Z) then token
                             else mkToken (ot_access token) (ot_refresh token) (from_now e) (ot_id_token token) in
                match verifyAndSaveToken p token w1 with
                | (w2, Some err) => (w2, HandleError err [])
                | (w2, None) =>
                    match finish_callback p w2 with
                    | (w3, cookies, inr err) => (w3, cookies ++ [HTTPError (ae_text env err) 500])
                    | (w3, cookies, inl backto) => (w3, cookies ++ [Redirect backto 303])
                    end
                end
            end
        end
  end.

(** [tokenHandler.ServeHTTP]; [json] is the response as JSON. *)
Definition ErrNoCookie : goerror := ENew "http: named cookie not present".
Definition tokenHandler (json : string -> string -> string -> string + goerror) (r : request) : list respAction :=
  match rq_cookies r !! "viam.auth.token"%string with
  | None => HandleError ErrNoCookie ["getting token cookie"]
  | Some token =>
      match rq_cookies r !! "viam.auth.refresh"%string with
      | None => HandleError ErrNoCookie ["getting refresh cookie"]
      | Some refresh =>
          match rq_cookies r !! "viam.auth.expiry"%string with
          | None => HandleError ErrNoCookie ["getting expiry cookie"]
          | Some expiry =>
              match json token refresh expiry with
              | inr err => [WriteHeader 500; WriteBody ("failed to verify marshal token data: " +:+ ae_text env err)]
              | inl text =>
                  [SetCookie "viam.auth.token" EmptyString (-1); SetCookie "viam.auth.refresh" EmptyString (-1);
                   SetCookie "viam.auth.expiry" EmptyString (-1); WriteBody text]
              end
          end
      end
  end.

(** [logoutHandler.ServeHTTP]; the URL is the provider's, or its domain does not
    parse. *)
Definition logoutHandler (logoutURL : string + goerror) (r : request) (w : world St) : world St * list respAction :=
  match logoutURL with
  | inr err => (w, HandleError err ["internal config error parsing domain"])
  | inl url => let '(w', cookies) := DeleteSession r w in (w', cookies ++ [Redirect url 307])
  end.
End Manager.

(** ** What a store promises to the session manager *)

(** Between two states of the heap, sessions keep their place and identifier. *)
Definition ids_kept (h h' : list session) : Prop :=
  forall p s, h !! p = Some s -> exists s', h' !! p = Some s' /\ ss_id s' = ss_id s.

(** [st_find w id] is the data that reading session [id] gives; [st_norm] what a
    value becomes by being saved. *)
Class SessionStoreLaws (S : Type) `{SessionStore S} := {
  st_norm : value -> value;
  st_ok : world S -> Prop;
  st_find : world S -> string -> option data;
  norm_string s : st_norm (VStr s) = VStr s;
  law_heap h h' m : st_ok (h, m) -> ids_kept h h' -> st_ok (h', m);
  law_get w id : st_ok w ->
    exists w' r, store_Get id w = (w', r) /\ st_ok w' /\ (forall i, st_find w' i = st_find w i) /\
      match st_find w id with
      | Some d => exists p s, r = inl (Some p) /\ w'.1 !! p = Some s /\ ss_id s = id /\ ss_Data s = d
      | None => forall p, r <> inl (Some p)
      end;
  law_save w p s w' : st_ok w -> w.1 !! p = Some s -> store_Save p w = (w', None) ->
    st_ok w' /\ st_find w' (ss_id s) = Some (st_norm <$> ss_Data s);
  law_delete w id w' : st_ok w -> store_Delete id w = (w', None) ->
    st_ok w' /\ st_find w' id = None /\ (forall i, i <> id -> st_find w' i = st_find w i);
}.

(** The memory store keeps pointers: what is read is the session itself. *)
Definition mem_find (w : world memorySessionStore) (id : string) : option data :=
  m ← w.2; o ← m !! id; p ← o; ss_Data <$> w.1 !! p.
Definition mem_ok (w : world memorySessionStore) : Prop :=
  forall m id p, w.2 = Some m -> m !! id = Some (Some p) -> exists s, w.1 !! p = Some s /\ ss_id s = id.

Lemma mem_get_law w id : mem_ok w ->
  exists w' r, mem_Get id w = (w', r) /\ mem_ok w' /\ (forall i, mem_find w' i = mem_find w i) /\
    match mem_find w id with
    | Some d => exists p s, r = inl (Some p) /\ w'.1 !! p = Some s /\ ss_id s = id /\ ss_Data s = d
    | None => forall p, r <> inl (Some p)
    end.
Proof.
  intros Hok. unfold mem_Get, mem_find. destruct w as [h [m|]]; cbn.
  2: { eexists _, _; repeat split; [done|..]; done. }
  exists (h, Some m), (inl (default None (m !! id))). split; [done|]. split; [done|]. split; [done|].
  destruct (m !! id) as [[p|]|] eqn:Hm; cbn; [|by intros ? [=]..].
  destruct (Hok m id p eq_refl Hm) as (s & Hs & Hid). cbn in Hs. rewrite Hs; cbn. by exists p, s.
Qed.

Lemma mem_save_law w p s w' : mem_ok w -> w.1 !! p = Some s -> mem_Save p w = (w', None) ->
  mem_ok w' /\ mem_find w' (ss_id s) = Some (id <$> ss_Data s).
Proof.
  intros Hok Hp. unfold mem_Save. rewrite Hp. intros [= <-]. split.
  - intros m id q [= <-]; cbn. rewrite lookup_insert_Some. intros [[<- [= <-]]|[_ Hm]]; [by exists s|].
    destruct (w.2) as [m|] eqn:E; cbn in Hm; [by apply (Hok m id q)|by rewrite lookup_empty in Hm].
  - unfold mem_find; cbn. rewrite lookup_insert_eq; cbn. by rewrite Hp, map_fmap_id.
Qed.

Lemma mem_delete_law w id w' : mem_ok w -> mem_Delete id w = (w', None) ->
  mem_ok w' /\ mem_find w' id = None /\ (forall i, i <> id -> mem_find w' i = mem_find w i).
Proof.
  intros Hok [= <-]. unfold mem_find, mem_ok; destruct w as [h [m|]]; cbn; [|done]. split_and!.
  - intros m0 i p [= <-]. rewrite lookup_insert_Some. intros [[_ [=]]|[_ Hm]]. by apply (Hok m i p).
  - by rewrite lookup_insert_eq.
  - intros i Hi. by rewrite lookup_insert_ne.
Qed.

#[export] Instance memory_laws : SessionStoreLaws memorySessionStore.
Proof.
  refine {| st_norm := id; st_ok := mem_ok; st_find := mem_find;
            law_get := mem_get_law; law_save := mem_save_law; law_delete := mem_delete_law |}; [done|].
  intros h h' m Hok Hk m0 i p Hm Hi. destruct (Hok m0 i p Hm Hi) as (s & Hs & Hid).
  destruct (Hk p s Hs) as (s' & Hs' & Hid'). exists s'. by rewrite Hid'.
Defined.

(** The Mongo store keeps data: what is read is a fresh session with the data as
    BSON brings it back. *)
Section MongoLaws.
Context (bson : value -> value) (fails : string -> option goerror) (bson_string : forall s, bson (VStr s) = VStr s).
Definition mongo_find (w : world sessions_coll) (id : string) : option data :=
  match fails id with Some _ => None | None => (fun d : data => bson <$> d) <$> w.2 !! id end.

Lemma mongo_get_law w id : True ->
  exists w' r, mongo_Get bson fails id w = (w', r) /\ True /\ (forall i, mongo_find w' i = mongo_find w i) /\
    match mongo_find w id with
    | Some d => exists p s, r = inl (Some p) /\ w'.1 !! p = Some s /\ ss_id s = id /\ ss_Data s = d
    | None => forall p, r <> inl (Some p)
    end.
Proof.
  intros _. unfold mongo_Get, mongo_find.
  destruct (fails id); [by eexists _, _|]. destruct (w.2 !! id) as [d|] eqn:Hd; cbn; [|by eexists _, _].
  eexists _, _. split; [done|]. split; [done|]. split; [done|].
  exists (length w.1), (mkSession false id (bson <$> d)). split; [done|].
  cbn. by rewrite lookup_app_r, Nat.sub_diag.
Qed.

Lemma mongo_save_law w p s w' : w.1 !! p = Some s -> mongo_Save fails p w = (w', None) ->
  mongo_find w' (ss_id s) = Some (bson <$> ss_Data s).
Proof.
  intros Hp. unfold mongo_Save. rewrite Hp. destruct (fails (ss_id s)) eqn:E; [done|].
  intros [= <-]. unfold mongo_find. rewrite E; cbn. by rewrite lookup_insert_eq.
Qed.

Lemma mongo_delete_law w id w' : mongo_Delete fails id w = (w', None) ->
  mongo_find w' id = None /\ (forall i, i <> id -> mongo_find w' i = mongo_find w i).
Proof.
  unfold mongo_Delete. destruct (fails id) eqn:E; [done|]. intros [= <-]. unfold mongo_find; cbn.
  rewrite E, lookup_delete_eq. split; [done|]. intros i Hi. by rewrite lookup_delete_ne.
Qed.

Definition mongo_laws : @SessionStoreLaws _ (mongo_store bson fails).
Proof.
  refine {| st_norm := bson; st_ok := fun _ => True; st_find := mongo_find; norm_string := bson_string |}.
  - done.
  - apply mongo_get_law.
  - intros w p s w' _ Hp Hs. split; [done|]. by eapply mongo_save_law.
  - intros w id w' _ Hd. split; [done|]. by apply mongo_delete_law.
Defined.
End MongoLaws.

(** ** The session manager, for every store that keeps its promise *)

Section Laws.
Context {St : Type} `{Hlaws : SessionStoreLaws St}.
Implicit Types w : world St.

Lemma ids_kept_set h p s' : (forall s, h !! p = Some s -> ss_id s' = ss_id s) -> ids_kept h (<[p := s']> h).
Proof.
  intros Hid q s Hq. destruct (decide (q = p)) as [->|]; [|exists s; by rewrite list_lookup_insert_ne].
  exists s'. rewrite list_lookup_insert_eq by by eapply lookup_lt_Some. by rewrite (Hid s).
Qed.
Lemma ids_kept_alter h p (f : session -> session) : (forall s, ss_id (f s) = ss_id s) -> ids_kept h (alter f p h).
Proof.
  intros Hid q s Hq. destruct (decide (q = p)) as [->|]; [|exists s; by rewrite list_lookup_alter_ne].
  exists (f s). by rewrite list_lookup_alter_eq, Hq.
Qed.
Lemma ids_kept_app h l : ids_kept h (h ++ l).
Proof. intros p s Hp. exists s. by rewrite (lookup_app_l_Some _ _ _ _ Hp). Qed.

Lemma set_data_spec w p s k v : st_ok w -> w.1 !! p = Some s ->
  st_ok (set_data p k v w) /\
  (set_data p k v w).1 !! p = Some (mkSession (ss_isNew s) (ss_id s) (<[k := v]> (ss_Data s))).
Proof.
  intros Hok Hp. destruct w as [h m]. cbn in *. split; [|by rewrite list_lookup_alter_eq, Hp].
  by eapply law_heap, ids_kept_alter.
Qed.

Lemma Save_spec w p s w' cookies : st_ok w -> w.1 !! p = Some s -> Save p w = (w', cookies, None) ->
  st_ok w' /\ st_find w' (ss_id s) = Some (st_norm <$> ss_Data s).
Proof.
  intros Hok Hp. unfold Save. rewrite Hp. destruct w as [h m]; cbn in *.
  destruct (store_Save p _) as [w2 err] eqn:Hs. intros [= <- <- ->].
  apply (law_save _ p (mkSession false (ss_id s) (ss_Data s))) in Hs; [done| |].
  - eapply law_heap, ids_kept_set; [done|]. intros s0 Hs0. by simplify_eq.
  - cbn. rewrite list_lookup_insert_eq; [done|by eapply lookup_lt_Some].
Qed.

(** A session that the store has is what [Get] returns for its cookie. *)
Lemma Get_found r create random w id d : st_ok w -> rq_cookies r !! cookieName = Some id -> st_find w id = Some d ->
  exists w' p s, Get r create random w = (w', inl p) /\ st_ok w' /\ w'.1 !! p = Some s /\ ss_id s = id /\ ss_Data s = d.
Proof.
  intros Hok Hc Hf. destruct (law_get w id Hok) as (w' & res & Hg & Hok' & _ & Hres).
  rewrite Hf in Hres. destruct Hres as (p & s & -> & Hp & Hid & Hd).
  exists w', p, s. unfold Get. by rewrite Hc, Hg.
Qed.

(** A session that [Get] makes has the identifier the client asked for. *)
Definition session_id (r : request) (random : bytes) : string :=
  let fresh := String.string_of_list_ascii (base64_encode random) in
  match rq_cookies r !! cookieName with
  | Some id => if bool_decide (id = EmptyString) then fresh else id
  | None => fresh
  end.
Lemma create_session_spec id random w w' p : st_ok w -> create_session id (inl random) w = (w', inl p) ->
  st_ok w' /\ exists s, w'.1 !! p = Some s /\ ss_Data s = ∅ /\
    ss_id s = if bool_decide (id = EmptyString) then String.string_of_list_ascii (base64_encode random) else id.
Proof.
  intros Hok. unfold create_session; cbn. destruct w as [h m].
  case_bool_decide; intros [= <- <-]; (split; [eapply law_heap, ids_kept_app; done|]); cbn;
    eexists; (split; [by rewrite lookup_app_r, Nat.sub_diag|done]).
Qed.

Lemma Get_session r random w w' p : st_ok w -> st_find w EmptyString = None ->
  Get r true (inl random) w = (w', inl p) ->
  st_ok w' /\ exists s, w'.1 !! p = Some s /\ ss_id s = session_id r random.
Proof.
  intros Hok He. unfold Get, session_id. destruct (rq_cookies r !! cookieName) as [id|].
  2: { intros Hc. apply create_session_spec in Hc as (? & s & ? & _ & Hid); [|done]. split; [done|]. by exists s. }
  destruct (law_get w id Hok) as (w1 & res & Hg & Hok1 & _ & Hres). rewrite Hg.
  assert (Hnew : forall w2 p2, create_session id (inl random) w1 = (w2, inl p2) -> st_ok w2 /\
      exists s, w2.1 !! p2 = Some s /\ ss_id s =
        if bool_decide (id = EmptyString) then String.string_of_list_ascii (base64_encode random) else id).
  { intros w2 p2 Hc. apply create_session_spec in Hc as (? & s & ? & _ & Hid); [|done]. split; [done|]. by exists s. }
  destruct (st_find w id) as [d|] eqn:Hd.
  - destruct Hres as (q & s & -> & Hq & Hid & _). intros [= <- <-]. split; [done|]. exists s. split; [done|].
    case_bool_decide; [|done]. congruence.
  - destruct res as [[q|]|err]; [by edestruct Hres|apply Hnew|].
    destruct (errors_Is err errNoSession); [apply Hnew|done].
Qed.

(** The data of a session survives: once it is saved, every request with its
    cookie gets it back, as the store normalises it. *)
Theorem session_survives_requests w p s w' cookies r create random :
  st_ok w -> w.1 !! p = Some s -> Save p w = (w', cookies, None) ->
  rq_cookies r !! cookieName = Some (ss_id s) ->
  exists w'' q s', Get r create random w' = (w'', inl q) /\ w''.1 !! q = Some s' /\
    ss_id s' = ss_id s /\ ss_Data s' = st_norm <$> ss_Data s.
Proof.
  intros Hok Hp Hs Hc. destruct (Save_spec _ _ _ _ _ Hok Hp Hs) as [Hok' Hf].
  destruct (Get_found r create random _ _ _ Hok' Hc Hf) as (w'' & q & s' & Hg & _ & Hq & Hid & Hd).
  by exists w'', q, s'.
Qed.

(** After a logout nobody is logged in under the session that was used, whoever
    presents its cookie; the browser is told to drop the cookie, and every other
    session is as before. *)
Theorem logout_forgets_session (env : authEnv) w r id url w' resp r' :
  st_ok w -> rq_cookies r !! cookieName = Some id -> snd (store_Delete id w) = None ->
  logoutHandler env (inl url) r w = (w', resp) ->
  rq_cookies r' !! cookieName = Some id ->
  ui_LoggedIn (fst (snd (GetLoggedInUserInfo r' w'))) = false /\
  resp = [SetCookie cookieName EmptyString (-1); Redirect url 307] /\
  (forall i, i <> id -> st_find w' i = st_find w i).
Proof.
  intros Hok Hc Hdel Hl Hc'. unfold logoutHandler, DeleteSession in Hl. rewrite Hc in Hl.
  injection Hl as <- <-. destruct (store_Delete id w) as [w1 err] eqn:Hd; cbn in *. subst err.
  destruct (law_delete _ _ _ Hok Hd) as (Hok1 & Hgone & Hrest). split; [|done].
  unfold GetLoggedInUserInfo, Get. rewrite Hc'.
  destruct (law_get w1 id Hok1) as (w2 & res & -> & _ & _ & Hres). rewrite Hgone in Hres.
  destruct res as [[p|]|err]; [by edestruct Hres|done|]. by destruct (errors_Is err errNoSession).
Qed.

(** ** The login flow *)

Context (env : authEnv).

(** A request that comes back from the provider: its state is the one of the
    redirect cookie, its code was exchanged for this token, and the ID token of
    it was verified and has this profile. *)
Definition verified_login (cookie : string) (r : request) (token : oauthToken) (raw : string)
    (profile : list (string * value)) : Prop :=
  exists id state c, rq_cookies r !! cookie = Some c /\ split_colon c = Some (id, state) /\
    default EmptyString (rq_query r !! "state"%string) = state /\
    ae_Exchange env (default EmptyString (rq_query r !! "code"%string)) = inl token /\
    ot_id_token token = Some raw /\ ae_provider env = None /\ ae_Verify env raw = None /\
     ae_Claims env raw = inl profile.

Lemma verifyAndSaveToken_inv p token w w' err : verifyAndSaveToken env p token w = (w', err) ->
  (exists raw profile, err = None /\ ot_id_token token = Some raw /\ ae_provider env = None /\ ae_Verify env raw = None /\
     ae_Claims env raw = inl profile /\
     w' = set_data p "profile" (VGoMap profile) (set_data p "access_token" (VStr (ot_access token)) (set_data p "id_token" (VStr raw) w))) \/
  (w' = w /\ exists e, err = Some e).
Proof.
  unfold verifyAndSaveToken. repeat case_match; intros [= <- <-]; eauto. left. by eexists _, _.
Qed.

Lemma Save_cookies p w w' cookies err : Save p w = (w', cookies, err) ->
  cookies = [] \/ exists id, cookies = [SetCookie cookieName id (86400 * 7)].
Proof.
  unfold Save. destruct (w.1 !! p) as [s|]; [|intros [= _ <- _]; by left].
  destruct (store_Save p _). intros [= _ <- _]. destruct (ss_isNew s); eauto.
Qed.
Lemma finish_cookies p w w' cookies res : finish_callback p w = (w', cookies, res) ->
  forall name v age, SetCookie name v age ∈ cookies -> age = (86400 * 7)%Z.
Proof.
  unfold finish_callback. destruct (Save p _) as [[w1 ck] err] eqn:Hs.
  assert (Hck : forall name v age, SetCookie name v age ∈ ck -> age = (86400 * 7)%Z).
  { apply Save_cookies in Hs as [->|[id ->]]; set_solver. }
  by destruct err; intros [= <- <- <-].
Qed.

(** C19: Only a login that the provider confirmed changes a session or hands out
    tokens: whatever the request, unless its state is that of the cookie and its
    code gives a token with a verified ID token, the callback at most reads a
    session, and its response sets no cookie but clears the redirect cookie. *)
Theorem only_verified_logins_take_effect cookie r w w' resp :
  callbackHandler env cookie r w = Handled w' resp ->
  (exists token raw profile, verified_login cookie r token raw profile /\
     forall v, SetCookie "viam.auth.token" v 0 ∈ resp -> v = ot_access token) \/
  ((w' = w \/ exists id, w' = fst (store_Get id w)) /\
   (forall name v age, SetCookie name v age ∈ resp -> name = cookie /\ v = EmptyString /\ age = (-1)%Z)).
Proof.
  assert (Hcl : forall x l, (forall name v age, SetCookie name v age ∈ l -> False) ->
    forall name v age, SetCookie name v age ∈ SetCookie x EmptyString (-1) :: l ->
    name = x /\ v = EmptyString /\ age = (-1)%Z).
  { intros x l Hl name v age [[= -> -> ->]|Hin]%elem_of_cons; [done|by edestruct Hl]. }
  unfold callbackHandler. destruct (rq_cookies r !! cookie) as [c|] eqn:Hc.
  2: { intros [= <- <-]. right. split; [by left|]. intros ??? Hin. set_solver. }
  destruct (split_colon c) as [[id state]|] eqn:Hs.
  2: { intros [= <- <-]. right. split; [by left|]. apply Hcl. set_solver. }
  destruct (store_Get id w) as [w1 [sess|err]] eqn:Hg.
  2: { intros [= <- <-]. right. split; [right; exists id; by rewrite Hg|]. apply Hcl. set_solver. }
  destruct (negb _) eqn:Hst.
  { intros [= <- <-]. right. split; [right; exists id; by rewrite Hg|]. apply Hcl. set_solver. }
  breflect. destruct (ae_Exchange env _) as [token|err] eqn:Hx.
  2: { intros [= <- <-]. right. split; [right; exists id; by rewrite Hg|]. apply Hcl. set_solver. }
  destruct sess as [p|].
  2: { destruct (verifyAndSaveToken env 0 token w1) as [w2 [err|]]; [|done]. intros [= <- <-].
       right. split; [right; exists id; by rewrite Hg|]. apply Hcl. set_solver. }
  destruct (verifyAndSaveToken env p token w1) as [w2 err] eqn:Hv.
  destruct (verifyAndSaveToken_inv _ _ _ _ _ Hv) as [(raw & profile & -> & Hraw & Hpr & Hver & Hclaims & _)|[-> [e ->]]].
  2: { intros [= <- <-]. right. split; [right; exists id; by rewrite Hg|]. apply Hcl. set_solver. }
  intros Hh. left. exists token, raw, profile. split; [by eexists _, _, _|].
  destruct (finish_callback p w2) as [[w3 cookies] res] eqn:Hf.
  pose proof (finish_cookies _ _ _ _ _ Hf) as Hck. intros v Hin.
  destruct res; injection Hh as <- <-;
    (apply elem_of_cons in Hin as [[=]|[Hin%Hck|Hin]%elem_of_app]; [done|set_solver]).
Qed.

(** What a login leaves in the store: the session of the redirect cookie, with
    the page to go back to. *)
Lemma login_saves cookie r random idRandom w w' resp url :
  st_ok w -> st_find w EmptyString = None ->
  loginHandler env cookie r (inl random) (inl idRandom) w = (w', resp) -> Redirect url 307 ∈ resp ->
  st_ok w' /\ exists d, st_find w' (session_id r idRandom) = Some d /\
    (forall v, SetCookie cookie v 600 ∈ resp ->
       v = session_id r idRandom +:+ ":" +:+ String.string_of_list_ascii (base64_encode random))%string /\
    (rq_backto r <> EmptyString -> d !! "backto"%string = Some (VStr (rq_backto r))).
Proof.
  intros Hok He. unfold loginHandler. destruct (Get r true _ w) as [w1 [p|err]] eqn:Hg; [|intros [= <- <-]; set_solver].
  destruct (Get_session _ _ _ _ _ Hok He Hg) as (Hok1 & s & Hp & Hid). rewrite Hp; cbn.
  set (w2 := if bool_decide _ then w1 else _).
  assert (H2 : st_ok w2 /\ exists s2, w2.1 !! p = Some s2 /\ ss_id s2 = ss_id s /\
      (rq_backto r <> EmptyString -> ss_Data s2 !! "backto"%string = Some (VStr (rq_backto r)))).
  { subst w2. case_bool_decide; [split; [done|]; by exists s|]. destruct (set_data_spec w1 p s "backto" (VStr (rq_backto r)) Hok1 Hp).
    split; [done|]. eexists; split; [done|]. split; [done|]. intros _; cbn. by rewrite lookup_insert_eq. }
  destruct H2 as (Hok2 & s2 & Hp2 & Hid2 & Hb2). clearbody w2.
  set (w3 := match get_data p "backto" w2 with Some (VStr EmptyString) => _ | _ => w2 end).
  assert (H3 : st_ok w3 /\ exists s3, w3.1 !! p = Some s3 /\ ss_id s3 = ss_id s2 /\
      (rq_backto r <> EmptyString -> ss_Data s3 !! "backto"%string = Some (VStr (rq_backto r)))).
  { subst w3. unfold get_data. rewrite Hp2; cbn.
    destruct (ss_Data s2 !! "backto"%string) as [[[|a t]| | | |]|] eqn:Hbt;
      try (split; [done|]; exists s2; by rewrite Hbt).
    destruct (set_data_spec w2 p s2 "backto" (VStr (rq_referer r)) Hok2 Hp2) as [? ?].
    split; [done|]. eexists. split; [done|]. split; [done|]. intros Hne. specialize (Hb2 Hne). congruence. }
  destruct H3 as (Hok3 & s3 & Hp3 & Hid3 & Hb3). clearbody w3.
  destruct (Save p w3) as [[w4 cookies] [err|]] eqn:Hs.
  { intros [= <- <-] Hin. exfalso. apply elem_of_cons in Hin as [[=]|[Hin|Hin]%elem_of_app]; [|set_solver].
    apply Save_cookies in Hs as [->|[i ->]]; set_solver. }
  intros [= <- <-] _. destruct (Save_spec _ _ _ _ _ Hok3 Hp3 Hs) as [Hok4 Hf].
  rewrite Hid3, Hid2, Hid in Hf. split; [done|]. eexists. split; [done|]. rewrite Hid. split.
  { intros v Hin. apply elem_of_cons in Hin as [[= ->]|[Hin|Hin]%elem_of_app]; [done| |set_solver].
    apply Save_cookies in Hs as [->|[i ->]]; set_solver. }
  intros Hne. by rewrite lookup_fmap, (Hb3 Hne); cbn; rewrite norm_string.
Qed.

Lemma split_colon_app id s : ~ (":"%char ∈ String.list_ascii_of_string id) ->
  split_colon (id +:+ ":" +:+ s) = Some (id, s).
Proof.
  induction id as [|a id IH]; [done|]. rewrite (str_app_cons a). cbn [split_colon String.list_ascii_of_string].
  intros Hn. apply not_elem_of_cons in Hn as [Ha Hn].
  destruct (Ascii.ascii_dec a ":"%char) as [->|]; [done|]. by rewrite IH.
Qed.

(** The page a session says to go back to. *)
Definition backto_of (d : data) : string :=
  match d !! "backto"%string with
  | Some (VStr (String a s)) => String a s
  | _ => "/"
  end.

(** What the callback leaves: the profile in the session of the cookie. *)
Lemma callback_saves cookie r w w' resp id d token raw profile :
  st_ok w -> st_find w id = Some d ->
  verified_login cookie r token raw profile ->
  (forall c, rq_cookies r !! cookie = Some c -> fst <$> split_colon c = Some id) ->
  callbackHandler env cookie r w = Handled w' resp -> SetCookie "viam.auth.token" (ot_access token) 0 ∈ resp ->
  st_ok w' /\ WriteBody (callback_page (backto_of d)) ∈ resp /\
  exists d', st_find w' id = Some d' /\ d' !! "profile"%string = Some (st_norm (VGoMap profile)).
Proof.
  intros Hok Hd (id0 & state & c & Hc & Hs & Hst & Hx & Hraw & Hpr & Hver & Hcl) Hid.
  specialize (Hid c Hc). rewrite Hs in Hid. injection Hid as ->.
  destruct (law_get w id Hok) as (w1 & res & Hg & Hok1 & _ & Hres). rewrite Hd in Hres.
  destruct Hres as (p & s & -> & Hp & Hids & Hds). unfold callbackHandler.
  rewrite Hc, Hs, Hg, bool_decide_eq_true_2 by done; cbn [negb]. rewrite Hx.
  unfold verifyAndSaveToken. rewrite Hraw, Hpr, Hver, Hcl.
  destruct (set_data_spec w1 p s "id_token" (VStr raw) Hok1 Hp) as [Hok2 Hp2].
  destruct (set_data_spec _ p _ "access_token" (VStr (ot_access token)) Hok2 Hp2) as [Hok3 Hp3].
  destruct (set_data_spec _ p _ "profile" (VGoMap profile) Hok3 Hp3) as [Hok4 Hp4].
  destruct (set_data_spec _ p _ "backto" (VStr EmptyString) Hok4 Hp4) as [Hok5 Hp5].
  set (w4 := set_data p "profile" _ _) in *. unfold finish_callback.
  assert (Hb : (if bool_decide (get_string p "backto" w4 = EmptyString) then "/"%string else get_string p "backto" w4) = backto_of d).
  { unfold get_string, get_data, backto_of. rewrite Hp4; cbn. rewrite !lookup_insert_ne, Hds by done.
    by destruct (d !! _) as [[[|a t]| | | |]|]. }
  rewrite Hb. destruct (Save p _) as [[w5 cookies] [err|]] eqn:Hsv.
  - intros [= <- <-] Hin. exfalso. apply elem_of_cons in Hin as [[=]|[Hin|Hin]%elem_of_app]; [|set_solver].
    assert (Hf : finish_callback p w4 = (w5, cookies, inr err)) by (unfold finish_callback; by rewrite Hsv).
    by apply (finish_cookies _ _ _ _ _ Hf) in Hin.
  - intros [= <- <-] _. destruct (Save_spec _ _ _ _ _ Hok5 Hp5 Hsv) as [Hok6 Hf]; cbn in Hf. rewrite Hids in Hf.
    split; [done|]. split; [set_solver|]. eexists. split; [exact Hf|].
    by rewrite lookup_fmap, lookup_insert_ne, lookup_insert_eq by done.
Qed.

(** C20: A login from end to end. A browser is sent to the provider by the login
    handler, comes back to the callback with the state and a code that the
    provider confirms, and then presents its session cookie: it is sent back to
    the page it asked for, and [GetLoggedInUserInfo] reports what the store made
    of the profile. The session is the one the client named, if it named one. *)
Theorem login_reaches_user_info cookie r random idRandom w w1 resp1 url r2 w2 resp2 token raw profile r3 :
  st_ok w -> st_find w EmptyString = None ->
  loginHandler env cookie r (inl random) (inl idRandom) w = (w1, resp1) -> Redirect url 307 ∈ resp1 ->
  let id := session_id r idRandom in
  ~ (":"%char ∈ String.list_ascii_of_string id) ->
  SetCookie cookie (default EmptyString (rq_cookies r2 !! cookie)) 600 ∈ resp1 ->
  verified_login cookie r2 token raw profile ->
  callbackHandler env cookie r2 w1 = Handled w2 resp2 -> SetCookie "viam.auth.token" (ot_access token) 0 ∈ resp2 ->
  rq_cookies r3 !! cookieName = Some id ->
  snd (GetLoggedInUserInfo r3 w2) = user_of (st_norm (VGoMap profile)) /\
  (rq_backto r <> EmptyString -> WriteBody (callback_page (rq_backto r)) ∈ resp2).
Proof.
  intros Hok He Hl Hredir id Hid Hcookie Hver Hcb Htok Hc3.
  destruct (login_saves _ _ _ _ _ _ _ _ Hok He Hl Hredir) as (Hok1 & d & Hd & Huniq & Hb).
  apply Huniq in Hcookie.
  assert (Hsplit : forall c, rq_cookies r2 !! cookie = Some c -> (fst <$> split_colon c) = Some id).
  { intros c Hc. rewrite Hc in Hcookie; cbn in Hcookie. subst c. by rewrite split_colon_app. }
  destruct (callback_saves _ _ _ _ _ _ _ _ _ _ Hok1 Hd Hver Hsplit Hcb Htok) as (Hok2 & Hbody & d' & Hd' & Hprof).
  split.
  - unfold GetLoggedInUserInfo.
    destruct (Get_found r3 false (inr errNoSession) w2 id d' Hok2 Hc3 Hd') as (w3 & p & s & -> & _ & Hp & _ & Hs).
    unfold get_data. by rewrite Hp; cbn; rewrite Hs, Hprof.
  - intros Hne. unfold backto_of in Hbody. rewrite (Hb Hne) in Hbody. by destruct (rq_backto r).
Qed.
End Laws.

(** Identifiers that the server makes can be told apart from the state. *)
Lemma fresh_id_has_no_colon (random : bytes) :
  ~ (":"%char ∈ String.list_ascii_of_string (String.string_of_list_ascii (base64_encode random))).
Proof.
  rewrite String.list_ascii_of_string_of_list_ascii. pose proof (encode_chars random) as Hf.
  rewrite Forall_forall in Hf. intros [[z Hz]|Hz]%Hf; vm_compute in Hz; discriminate.
Qed.

(** ** The program with each of its stores *)

Module LoginExample.
Definition env : authEnv := mkAuthEnv (fun _ => None) (fun _ => "error"%string) (fun _ state => state)
  (fun code => if bool_decide (code = "code"%string) then inl (mkToken "access" "refresh" "expiry" (Some "id"%string)) else inr errNoSession)
  None (fun _ => None) (fun _ => inl [("email"%string, VStr "a@b.c")]).
Definition token : oauthToken := mkToken "access" "refresh" "expiry" (Some "id"%string).
Definition bson (v : value) : value := match v with VGoMap f => VBsonM f | _ => v end.
Definition bson_string s : bson (VStr s) = VStr s := eq_refl.
Definition random : bytes := [Byte.x01].

(** A browser whose session cookie somebody else chose. *)
Definition start : request := mkRequest {[ "session-id"%string := "chosen"%string ]} ∅ "/settings" EmptyString.
Definition back : request := mkRequest {[ "state"%string := "chosen:AQ=="%string ]}
  {[ "state"%string := "AQ=="%string; "code"%string := "code"%string ]} EmptyString EmptyString.
Definition later : request := mkRequest {[ "session-id"%string := "chosen"%string ]} ∅ EmptyString EmptyString.
Definition fresh : request := mkRequest ∅ ∅ EmptyString "/page".

(** Both handlers, on an empty store. *)
Definition login {S} `{SessionStore S} (r : request) (s : S) : world S * list respAction :=
  loginHandler env "state" r (inl random) (inl random) ([], s).
Definition callback {S} `{SessionStore S} (w : world S) : world S * list respAction :=
  match callbackHandler env "state" back w with Handled w' resp => (w', resp) | Panicked => (w, []) end.
End LoginExample.
Import LoginExample.

Ltac in_response := match goal with |- ?x ∈ ?l => apply (bool_decide_eq_true_1 (x ∈ l)); vm_compute; reflexivity end.

(** With the Mongo store the user is logged in, under the session that the
    client chose: whoever knows it is logged in, too. *)
Lemma login_reaches_user_info_witness :
  let S := mongo_store bson (fun _ => None) in
  let w1 := (login start ∅).1 in let w2 := (callback w1).1 in
  session_id start random = "chosen"%string /\
  snd (GetLoggedInUserInfo later w2) = (mkUserInfo true [("email"%string, VStr "a@b.c")], None) /\
  WriteBody (callback_page "/settings") ∈ (callback w1).2.
Proof.
  split; [reflexivity|].
  destruct (login_reaches_user_info (St := sessions_coll) (H := mongo_store bson (fun _ => None))
    (Hlaws := mongo_laws bson (fun _ => None) bson_string) env "state" start random random ([], ∅)
    (@login _ (mongo_store bson (fun _ => None)) start ∅).1 (@login _ (mongo_store bson (fun _ => None)) start ∅).2
    "AQ==" back
    (@callback _ (mongo_store bson (fun _ => None)) (@login _ (mongo_store bson (fun _ => None)) start ∅).1).1
    (@callback _ (mongo_store bson (fun _ => None)) (@login _ (mongo_store bson (fun _ => None)) start ∅).1).2
    token "id" [("email"%string, VStr "a@b.c")] later) as [Hui Hb].
  - exact I.
  - reflexivity.
  - vm_compute. reflexivity.
  - in_response.
  - match goal with |- ~ ?P => apply (bool_decide_eq_false_1 P) end. vm_compute. reflexivity.
  - in_response.
  - exists "chosen"%string, "AQ=="%string, "chosen:AQ=="%string. repeat split; vm_compute; reflexivity.
  - vm_compute. reflexivity.
  - in_response.
  - reflexivity.
  - split; [exact Hui|]. apply Hb. discriminate.
Defined.

(** With the memory store the profile is still a plain map: the user is said to
    be logged in, but without a profile and with an error. *)
Lemma memory_store_has_no_profile :
  let w2 := (callback (login start NewMemorySessionStore).1).1 in
  snd (GetLoggedInUserInfo later w2) = (mkUserInfo true [], Some (ENew "expected bson.M")).
Proof. vm_compute. reflexivity. Qed.

(** The memory store answers for a session it does not know without an error:
    the callback uses the nil session. *)
Lemma callback_of_unknown_session_panics :
  callbackHandler env "state" back (([], Some ∅) : world memorySessionStore) = Panicked.
Proof. vm_compute. reflexivity. Qed.

(** The page a first login comes from is not kept: the missing entry is not the
    empty string that the handler looks for. *)
Lemma first_login_ignores_referer :
  get_data 0 "backto" (login fresh NewMemorySessionStore).1 = None.
Proof. vm_compute. reflexivity. Qed.

(** A session of the memory store, and the world it is in. *)
Definition stored : session := mkSession true "chosen" (<["k"%string := VStr "v"]> ∅).
Definition stored_world : world memorySessionStore := ([stored], None).

Lemma session_survives_requests_witness :
  exists w'' q s', Get later true (inl random) (Save 0 stored_world).1.1 = (w'', inl q) /\ w''.1 !! q = Some s' /\
    ss_id s' = "chosen"%string /\ ss_Data s' = st_norm <$> ss_Data stored.
Proof.
  apply (session_survives_requests stored_world 0 stored _ [SetCookie cookieName "chosen" (86400 * 7)]); try reflexivity.
  intros m i p [=].
Defined.

Lemma logout_forgets_session_witness :
  let w' := (logoutHandler env (inl "https://provider/logout"%string) later (Save 0 stored_world).1.1).1 in
  ui_LoggedIn (fst (snd (GetLoggedInUserInfo later w'))) = false.
Proof.
  eapply (logout_forgets_session env (Save 0 stored_world).1.1 later "chosen" "https://provider/logout" _ _ later);
    try reflexivity.
  apply (Save_spec stored_world 0 stored _ [SetCookie cookieName "chosen" (86400 * 7)]); try reflexivity.
  intros m i p [=].
Defined.

Lemma only_verified_logins_take_effect_witness :
  exists token raw profile, verified_login env "state" back token raw profile /\
    forall v, SetCookie "viam.auth.token" v 0 ∈ (callback (login start NewMemorySessionStore).1).2 -> v = ot_access token.
Proof.
  destruct (only_verified_logins_take_effect env "state" back (login start NewMemorySessionStore).1
    (callback (login start NewMemorySessionStore).1).1 (callback (login start NewMemorySessionStore).1).2) as [H|[_ H]];
    [vm_compute; reflexivity|exact H|].
  exfalso. destruct (H "viam.auth.token"%string "access"%string 0%Z) as (H1 & _); [in_response|]. discriminate.
Defined.
