(* ===== verification/MongoSetup.v ===== *)
(** * Setting up MongoDB: [mongo/database.go], [mongo/index.go], [web/sessions.go]

    The options that all databases of a process are opened with, which callers
    pass and get as slices, so that the arrays behind them are a heap; the
    creation of indexes; and how session stores and managers are made. *)

From S2P Require Import Prelude GoError Web.

(** ** Options of databases *)

Section Databases.
(** A [*options.DatabaseOptions]. *)
Context {Opt : Type}.

(** The arrays of slices of options, and the slice [globalDBOpts]; both
    operations hold [globalDBOptsMu]. *)
Record dbOptions := mkDbOptions { db_arrays : list (list Opt); globalDBOpts : nat }.
Definition dbOptions_start : dbOptions := mkDbOptions [[]] 0.
Definition array (a : nat) (s : dbOptions) : list Opt := default [] (db_arrays s !! a).
(** [make] and [copy]. *)
Definition copied (a : nat) (s : dbOptions) : dbOptions * nat := (mkDbOptions (db_arrays s ++ [array a s]) (globalDBOpts s), length (db_arrays s)).

Definition GlobalDatabaseOptions (s : dbOptions) : dbOptions * nat := copied (globalDBOpts s) s.
Definition SetGlobalDatabaseOptions (opts : nat) (s : dbOptions) : dbOptions :=
  let '(s', newOpts) := copied opts s in mkDbOptions (db_arrays s') newOpts.
(** [DatabaseFromClient]: what the client's database is opened with. *)
Definition DatabaseFromClient (opts : nat) (s : dbOptions) : dbOptions * list Opt :=
  let '(s', global) := GlobalDatabaseOptions s in (s', array global s' ++ array opts s').

(** What the program may do: make a slice, write to one that it has, and the
    functions above with slices that it has. *)
Inductive optionsUse := UseMake (opts : list Opt) | UseWrite (a i : nat) (o : Opt) | UseSet (a : nat) | UseGet | UseDatabase (a : nat).
Definition use_options (u : optionsUse) (s : dbOptions) : dbOptions :=
  match u with
  | UseMake opts => mkDbOptions (db_arrays s ++ [opts]) (globalDBOpts s)
  | UseWrite a i o => mkDbOptions (alter (<[i := o]>) a (db_arrays s)) (globalDBOpts s)
  | UseSet a => SetGlobalDatabaseOptions a s
  | UseGet => (GlobalDatabaseOptions s).1
  | UseDatabase a => (DatabaseFromClient a s).1
  end.
End Databases.
Arguments dbOptions : clear implicits.
Arguments optionsUse : clear implicits.

(** ** Indexes and session stores *)

(** [EnsureIndexes]; [CreateMany] is the driver's. *)
Definition EnsureIndexes {Index} (CreateMany : list Index -> list string * option goerror) (indexes : list Index) : option goerror := (CreateMany indexes).2.

(** [webSessionsIndex]: the field and when documents expire, in seconds. *)
Record sessionsIndex := mkSessionsIndex { si_key : string; si_expireAfterSeconds : Z }.
Definition webSessionsIndex : list sessionsIndex := [mkSessionsIndex "lastUpdate" (30 * 24 * 3600)%Z].

(** A store with the manager that it was told of, by number; [coll] is the
    collection as the database has it. *)
Record managedStore (S : Type) := mkManagedStore { ms_store : S; ms_manager : option nat }.
Arguments mkManagedStore {S}. Arguments ms_store {S}. Arguments ms_manager {S}.
Definition NewMongoDBSessionStore (CreateMany : list sessionsIndex -> list string * option goerror) (coll : sessions_coll) : managedStore sessions_coll + goerror :=
  match EnsureIndexes CreateMany webSessionsIndex with
  | Some err => inr (EWrap "Failed to create indexes for webSessionsCollection" err)
  | None => inl (mkManagedStore coll None)
  end.
Definition SetSessionManager {S} (sm : nat) (st : managedStore S) : managedStore S := mkManagedStore (ms_store st) (Some sm).

(** Managers, each with its store by number and the name of its cookie, and the
    stores of the program. *)
Record sessionManager := mkSessionManager { sm_store : nat; sm_cookieName : string }.
Definition NewSessionManager {S} (theStore : nat) (w : list sessionManager * list (managedStore S)) : list sessionManager * list (managedStore S) * nat :=
  let '(managers, stores) := w in
  (managers ++ [mkSessionManager theStore cookieName], alter (SetSessionManager (length managers)) theStore stores, length managers).

(** ** Properties *)

Section Properties.
Context {Opt : Type}.
Implicit Types s : dbOptions Opt.

(** What the program can reach: every array but those that were or are the
    global one. [global_after] tells the options that the last call of
    [SetGlobalDatabaseOptions] was given. *)
Fixpoint global_after (us : list (optionsUse Opt)) s (g : list Opt) : list Opt :=
  match us with
  | [] => g
  | u :: us' => global_after us' (use_options u s) (match u with UseSet a => array a s | _ => g end)
  end.
Fixpoint only_reached (hidden : list nat) (us : list (optionsUse Opt)) s : Prop :=
  match us with
  | [] => True
  | u :: us' =>
      match u with UseWrite a _ _ | UseSet a | UseDatabase a => a ∉ hidden | _ => True end /\
      only_reached (match u with UseSet _ => hidden ++ [length (db_arrays s)] | _ => hidden end) us' (use_options u s)
  end.

Lemma array_app a l s : (a < length (db_arrays s))%nat -> array a (mkDbOptions (db_arrays s ++ l) (globalDBOpts s)) = array a s.
Proof. intros Ha. unfold array. cbn. by rewrite lookup_app_l. Qed.

Lemma array_last l s : array (length (db_arrays s)) (mkDbOptions (db_arrays s ++ [l]) (globalDBOpts s)) = l.
Proof. unfold array. cbn. by rewrite lookup_app_r, Nat.sub_diag. Qed.

(** The global options are those of the last call of [SetGlobalDatabaseOptions],
    as they were at that call: what the program writes to the slice that it
    passed, or to one that it got, changes nothing. *)
Lemma global_options_are_copied us : forall hidden s g,
  globalDBOpts s ∈ hidden -> (globalDBOpts s < length (db_arrays s))%nat -> array (globalDBOpts s) s = g -> only_reached hidden us s ->
  let s' := run_ops use_options us s in
  array (globalDBOpts s') s' = global_after us s g.
Proof.
  induction us as [|u us IH]; intros hidden s g Hh Hlt Hg Hr; [done|]. destruct Hr as [Hu Hr]. cbn [run_ops global_after].
  destruct u as [opts|a i o|a| |a]; cbn [use_options] in *.
  - apply (IH hidden); [done|cbn; rewrite length_app; lia| |done]. cbn [globalDBOpts]. by rewrite array_app.
  - apply (IH hidden); [done|cbn; by rewrite length_alter| |done]. unfold array. cbn. rewrite list_lookup_alter_ne; [done|]. by intros ->.
  - apply (IH (hidden ++ [length (db_arrays s)])); [apply elem_of_app; right; cbn; by left|cbn; rewrite length_app; cbn; lia| |done].
    unfold array. cbn. by rewrite lookup_app_r, Nat.sub_diag.
  - apply (IH hidden); [done|cbn; rewrite length_app; lia| |done]. cbn [GlobalDatabaseOptions copied fst globalDBOpts]. by rewrite array_app.
  - apply (IH hidden); [done|cbn; rewrite length_app; lia| |done]. cbn [DatabaseFromClient GlobalDatabaseOptions copied fst globalDBOpts]. by rewrite array_app.
Qed.

(** From the start of a process on, a database is opened with the options of the
    last call of [SetGlobalDatabaseOptions], as they were at that call, and then
    with its own, which so win over them. *)
Theorem databases_use_global_options us opts : only_reached [0%nat] us dbOptions_start ->
  let s := run_ops use_options us dbOptions_start in
  (opts < length (db_arrays s))%nat ->
  (DatabaseFromClient opts s).2 = global_after us dbOptions_start [] ++ array opts s.
Proof.
  intros Hr s Hlt. unfold s in *. unfold DatabaseFromClient, GlobalDatabaseOptions, copied. cbn [snd]. rewrite array_last, array_app by done. f_equal.
  apply (global_options_are_copied us [0%nat] dbOptions_start []); [by left|cbn; lia|done|done].
Qed.
End Properties.

(** Without indexes there is no store: one that is returned has its index, so
    that the database forgets a session thirty days after it was saved. *)
Lemma session_store_has_index CreateMany coll st : NewMongoDBSessionStore CreateMany coll = inl st ->
  (CreateMany [mkSessionsIndex "lastUpdate" 2592000]).2 = None /\ ms_store st = coll /\ ms_manager st = None.
Proof. unfold NewMongoDBSessionStore, EnsureIndexes. change webSessionsIndex with [mkSessionsIndex "lastUpdate" 2592000]. destruct (CreateMany _).2; [done|]. by intros [= <-]. Qed.

(** A store knows the manager that was made for it last, and its sessions use
    that one's cookie. *)
Lemma last_manager_wins {S} theStore (managers : list sessionManager) (stores : list (managedStore S)) st : stores !! theStore = Some st ->
  let '(managers', stores', sm) := NewSessionManager theStore (managers, stores) in
  managers' !! sm = Some (mkSessionManager theStore "session-id") /\
  stores' !! theStore = Some (mkManagedStore (ms_store st) (Some sm)).
Proof.
  intros Hs. cbn. split.
  - by rewrite lookup_app_r, Nat.sub_diag.
  - by rewrite list_lookup_alter_eq, Hs.
Qed.

(** ** Witnesses *)

Lemma databases_use_global_options_witness :
  let us := [UseMake [1; 2]; UseSet 1; UseWrite 1 0 7; UseGet; UseWrite 3 1 9; UseMake [5]] in
  (DatabaseFromClient 4 (run_ops use_options us dbOptions_start)).2 = [1; 2; 5].
Proof.
  intros us. etrans; [apply databases_use_global_options|reflexivity].
  - cbn. split_and!; try done; set_solver.
  - cbn. lia.
Defined.
