(* ===== verification/ServerOptions.v ===== *)
(** * Options of the RPC server: [rpc/server_options.go]

    The options, each a function that changes a record or fails, and what holds
    of the record after any options were applied. Keys, interceptors, handlers
    of unknown services, statistics and dial options are opaque. *)

From S2P Require Import Prelude GoError ServerAuth.

(** ** Data *)

(** [net.TCPAddr], as far as it is used. *)
Record TCPAddr := mkTCPAddr { ta_loopback : bool; ta_Port : Z; ta_String : string }.

(** [tls.Certificate]: its chain in DER, and [x509.Certificate]. *)
Abbreviation tlsCertificate := (list bytes).
Record x509Certificate := mkX509 { xc_CommonName : string; xc_DNSNames : list string }.

(** [tls.Config]; calling [GetCertificate] with an empty hello gives
    [tc_GetCertificate], or panics when there is no such function. *)
Record tls_Config := mkTLSConfig {
  tc_Certificates : list tlsCertificate;
  tc_GetCertificate : option (tlsCertificate + goerror);
  tc_ClientAuth : Z;
}.
Definition VersionTLS12 : Z := 771.
Definition VerifyClientCertIfGiven : Z := 3.
Definition RequireAndVerifyClientCert : Z := 4.

Section Options.
(** Keys, data of entities, unary and stream interceptors, handlers of unknown
    services, statistics, dial options, hooks, WebRTC configurations. *)
Context {Key PrivKey D UI SI UH SH DOpt Hook Conf : Type} `{Jwt Key PrivKey}.

(** [authKeyData] with its nil parts, and [Validate]. *)
Record authKey := mkAuthKey {
  ak_id : string;
  ak_method : option string;
  ak_privateKey : option PrivKey;
  ak_publicKey : option Key;
}.
Definition Validate (quote : string -> string) (d : authKey) : option goerror :=
  if bool_decide (ak_id d = EmptyString) then Some (ENew "invariant: auth key has no id")
  else if bool_decide (ak_method d = None) then Some (ENew ("invariant: auth key " +:+ quote (ak_id d) +:+ " has no signing method"))
  else if bool_decide (is_Some (ak_privateKey d)) then
    if bool_decide (is_Some (ak_publicKey d)) then None
    else Some (ENew ("invariant: auth key " +:+ quote (ak_id d) +:+ " has no public key"))
  else Some (ENew ("invariant: auth key " +:+ quote (ak_id d) +:+ " has no private key")).

(** [WebRTCServerOptions]. *)
Record WebRTCServerOptions := mkWebRTC {
  wo_Enable : bool;
  wo_ExternalSignalingDialOpts : list DOpt;
  wo_ExternalSignalingAddress : string;
  wo_EnableInternalSignaling : bool;
  wo_ExternalSignalingHosts : list string;
  wo_InternalSignalingHosts : list string;
  wo_Config : option Conf;
  wo_OnPeerAdded : option Hook;
  wo_OnPeerRemoved : option Hook;
}.
Definition no_webrtc : WebRTCServerOptions := mkWebRTC false [] EmptyString false [] [] None None None.

(** [serverOptions]. *)
Record serverOptions := mkServerOptions {
  so_bindAddress : string;
  so_listenerAddress : option TCPAddr;
  so_tlsConfig : option tls_Config;
  so_webrtcOpts : WebRTCServerOptions;
  so_unaryInterceptor : option UI;
  so_streamInterceptor : option SI;
  so_instanceNames : list string;
  so_unauthenticated : bool;
  so_allowUnauthenticatedHealthCheck : bool;
  so_publicMethods : list string;
  so_authKeys : gmap string authKey;
  so_jwtSignerKeyID : string;
  so_debug : bool;
  so_tlsAuthHandler : option (list string -> option goerror);
  so_authHandlersForCreds : gmap string (credAuthHandlers (Key:=Key) (D:=D));
  so_authAudience : list string;
  so_authIssuer : string;
  so_authToHandler : option (string -> gmap string string + goerror);
  so_disableMDNS : bool;
  so_statsHandler : option SH;
  so_ensureAuthedHandler : option (callCtx D -> callCtx D + goerror);
  so_unknownStreamDesc : option UH;
}.
Definition no_options : serverOptions :=
  mkServerOptions EmptyString None None no_webrtc None None [] false false [] ∅ EmptyString false None ∅ [] EmptyString None false None None None.

Definition so_set_bindAddress v (o : serverOptions) : serverOptions :=
  mkServerOptions v (so_listenerAddress o) (so_tlsConfig o) (so_webrtcOpts o) (so_unaryInterceptor o)
    (so_streamInterceptor o) (so_instanceNames o) (so_unauthenticated o) (so_allowUnauthenticatedHealthCheck o)
    (so_publicMethods o) (so_authKeys o) (so_jwtSignerKeyID o) (so_debug o) (so_tlsAuthHandler o)
    (so_authHandlersForCreds o) (so_authAudience o) (so_authIssuer o) (so_authToHandler o) (so_disableMDNS o)
    (so_statsHandler o) (so_ensureAuthedHandler o) (so_unknownStreamDesc o).
Definition so_set_listenerAddress v (o : serverOptions) : serverOptions :=
  mkServerOptions (so_bindAddress o) v (so_tlsConfig o) (so_webrtcOpts o) (so_unaryInterceptor o)
    (so_streamInterceptor o) (so_instanceNames o) (so_unauthenticated o) (so_allowUnauthenticatedHealthCheck o)
    (so_publicMethods o) (so_authKeys o) (so_jwtSignerKeyID o) (so_debug o) (so_tlsAuthHandler o)
    (so_authHandlersForCreds o) (so_authAudience o) (so_authIssuer o) (so_authToHandler o) (so_disableMDNS o)
    (so_statsHandler o) (so_ensureAuthedHandler o) (so_unknownStreamDesc o).
Definition so_set_tlsConfig v (o : serverOptions) : serverOptions :=
  mkServerOptions (so_bindAddress o) (so_listenerAddress o) v (so_webrtcOpts o) (so_unaryInterceptor o)
    (so_streamInterceptor o) (so_instanceNames o) (so_unauthenticated o) (so_allowUnauthenticatedHealthCheck o)
    (so_publicMethods o) (so_authKeys o) (so_jwtSignerKeyID o) (so_debug o) (so_tlsAuthHandler o)
    (so_authHandlersForCreds o) (so_authAudience o) (so_authIssuer o) (so_authToHandler o) (so_disableMDNS o)
    (so_statsHandler o) (so_ensureAuthedHandler o) (so_unknownStreamDesc o).
Definition so_set_webrtcOpts v (o : serverOptions) : serverOptions :=
  mkServerOptions (so_bindAddress o) (so_listenerAddress o) (so_tlsConfig o) v (so_unaryInterceptor o)
    (so_streamInterceptor o) (so_instanceNames o) (so_unauthenticated o) (so_allowUnauthenticatedHealthCheck o)
    (so_publicMethods o) (so_authKeys o) (so_jwtSignerKeyID o) (so_debug o) (so_tlsAuthHandler o)
    (so_authHandlersForCreds o) (so_authAudience o) (so_authIssuer o) (so_authToHandler o) (so_disableMDNS o)
    (so_statsHandler o) (so_ensureAuthedHandler o) (so_unknownStreamDesc o).
Definition so_set_unaryInterceptor v (o : serverOptions) : serverOptions :=
  mkServerOptions (so_bindAddress o) (so_listenerAddress o) (so_tlsConfig o) (so_webrtcOpts o) v
    (so_streamInterceptor o) (so_instanceNames o) (so_unauthenticated o) (so_allowUnauthenticatedHealthCheck o)
    (so_publicMethods o) (so_authKeys o) (so_jwtSignerKeyID o) (so_debug o) (so_tlsAuthHandler o)
    (so_authHandlersForCreds o) (so_authAudience o) (so_authIssuer o) (so_authToHandler o) (so_disableMDNS o)
    (so_statsHandler o) (so_ensureAuthedHandler o) (so_unknownStreamDesc o).
Definition so_set_streamInterceptor v (o : serverOptions) : serverOptions :=
  mkServerOptions (so_bindAddress o) (so_listenerAddress o) (so_tlsConfig o) (so_webrtcOpts o) (so_unaryInterceptor o)
    v (so_instanceNames o) (so_unauthenticated o) (so_allowUnauthenticatedHealthCheck o) (so_publicMethods o)
    (so_authKeys o) (so_jwtSignerKeyID o) (so_debug o) (so_tlsAuthHandler o) (so_authHandlersForCreds o)
    (so_authAudience o) (so_authIssuer o) (so_authToHandler o) (so_disableMDNS o) (so_statsHandler o)
    (so_ensureAuthedHandler o) (so_unknownStreamDesc o).
Definition so_set_instanceNames v (o : serverOptions) : serverOptions :=
  mkServerOptions (so_bindAddress o) (so_listenerAddress o) (so_tlsConfig o) (so_webrtcOpts o) (so_unaryInterceptor o)
    (so_streamInterceptor o) v (so_unauthenticated o) (so_allowUnauthenticatedHealthCheck o) (so_publicMethods o)
    (so_authKeys o) (so_jwtSignerKeyID o) (so_debug o) (so_tlsAuthHandler o) (so_authHandlersForCreds o)
    (so_authAudience o) (so_authIssuer o) (so_authToHandler o) (so_disableMDNS o) (so_statsHandler o)
    (so_ensureAuthedHandler o) (so_unknownStreamDesc o).
Definition so_set_unauthenticated v (o : serverOptions) : serverOptions :=
  mkServerOptions (so_bindAddress o) (so_listenerAddress o) (so_tlsConfig o) (so_webrtcOpts o) (so_unaryInterceptor o)
    (so_streamInterceptor o) (so_instanceNames o) v (so_allowUnauthenticatedHealthCheck o) (so_publicMethods o)
    (so_authKeys o) (so_jwtSignerKeyID o) (so_debug o) (so_tlsAuthHandler o) (so_authHandlersForCreds o)
    (so_authAudience o) (so_authIssuer o) (so_authToHandler o) (so_disableMDNS o) (so_statsHandler o)
    (so_ensureAuthedHandler o) (so_unknownStreamDesc o).
Definition so_set_allowUnauthenticatedHealthCheck v (o : serverOptions) : serverOptions :=
  mkServerOptions (so_bindAddress o) (so_listenerAddress o) (so_tlsConfig o) (so_webrtcOpts o) (so_unaryInterceptor o)
    (so_streamInterceptor o) (so_instanceNames o) (so_unauthenticated o) v (so_publicMethods o) (so_authKeys o)
    (so_jwtSignerKeyID o) (so_debug o) (so_tlsAuthHandler o) (so_authHandlersForCreds o) (so_authAudience o)
    (so_authIssuer o) (so_authToHandler o) (so_disableMDNS o) (so_statsHandler o) (so_ensureAuthedHandler o)
    (so_unknownStreamDesc o).
Definition so_set_publicMethods v (o : serverOptions) : serverOptions :=
  mkServerOptions (so_bindAddress o) (so_listenerAddress o) (so_tlsConfig o) (so_webrtcOpts o) (so_unaryInterceptor o)
    (so_streamInterceptor o) (so_instanceNames o) (so_unauthenticated o) (so_allowUnauthenticatedHealthCheck o) v
    (so_authKeys o) (so_jwtSignerKeyID o) (so_debug o) (so_tlsAuthHandler o) (so_authHandlersForCreds o)
    (so_authAudience o) (so_authIssuer o) (so_authToHandler o) (so_disableMDNS o) (so_statsHandler o)
    (so_ensureAuthedHandler o) (so_unknownStreamDesc o).
Definition so_set_authKeys v (o : serverOptions) : serverOptions :=
  mkServerOptions (so_bindAddress o) (so_listenerAddress o) (so_tlsConfig o) (so_webrtcOpts o) (so_unaryInterceptor o)
    (so_streamInterceptor o) (so_instanceNames o) (so_unauthenticated o) (so_allowUnauthenticatedHealthCheck o)
    (so_publicMethods o) v (so_jwtSignerKeyID o) (so_debug o) (so_tlsAuthHandler o) (so_authHandlersForCreds o)
    (so_authAudience o) (so_authIssuer o) (so_authToHandler o) (so_disableMDNS o) (so_statsHandler o)
    (so_ensureAuthedHandler o) (so_unknownStreamDesc o).
Definition so_set_jwtSignerKeyID v (o : serverOptions) : serverOptions :=
  mkServerOptions (so_bindAddress o) (so_listenerAddress o) (so_tlsConfig o) (so_webrtcOpts o) (so_unaryInterceptor o)
    (so_streamInterceptor o) (so_instanceNames o) (so_unauthenticated o) (so_allowUnauthenticatedHealthCheck o)
    (so_publicMethods o) (so_authKeys o) v (so_debug o) (so_tlsAuthHandler o) (so_authHandlersForCreds o)
    (so_authAudience o) (so_authIssuer o) (so_authToHandler o) (so_disableMDNS o) (so_statsHandler o)
    (so_ensureAuthedHandler o) (so_unknownStreamDesc o).
Definition so_set_debug v (o : serverOptions) : serverOptions :=
  mkServerOptions (so_bindAddress o) (so_listenerAddress o) (so_tlsConfig o) (so_webrtcOpts o) (so_unaryInterceptor o)
    (so_streamInterceptor o) (so_instanceNames o) (so_unauthenticated o) (so_allowUnauthenticatedHealthCheck o)
    (so_publicMethods o) (so_authKeys o) (so_jwtSignerKeyID o) v (so_tlsAuthHandler o) (so_authHandlersForCreds o)
    (so_authAudience o) (so_authIssuer o) (so_authToHandler o) (so_disableMDNS o) (so_statsHandler o)
    (so_ensureAuthedHandler o) (so_unknownStreamDesc o).
Definition so_set_tlsAuthHandler v (o : serverOptions) : serverOptions :=
  mkServerOptions (so_bindAddress o) (so_listenerAddress o) (so_tlsConfig o) (so_webrtcOpts o) (so_unaryInterceptor o)
    (so_streamInterceptor o) (so_instanceNames o) (so_unauthenticated o) (so_allowUnauthenticatedHealthCheck o)
    (so_publicMethods o) (so_authKeys o) (so_jwtSignerKeyID o) (so_debug o) v (so_authHandlersForCreds o)
    (so_authAudience o) (so_authIssuer o) (so_authToHandler o) (so_disableMDNS o) (so_statsHandler o)
    (so_ensureAuthedHandler o) (so_unknownStreamDesc o).
Definition so_set_authHandlersForCreds v (o : serverOptions) : serverOptions :=
  mkServerOptions (so_bindAddress o) (so_listenerAddress o) (so_tlsConfig o) (so_webrtcOpts o) (so_unaryInterceptor o)
    (so_streamInterceptor o) (so_instanceNames o) (so_unauthenticated o) (so_allowUnauthenticatedHealthCheck o)
    (so_publicMethods o) (so_authKeys o) (so_jwtSignerKeyID o) (so_debug o) (so_tlsAuthHandler o) v
    (so_authAudience o) (so_authIssuer o) (so_authToHandler o) (so_disableMDNS o) (so_statsHandler o)
    (so_ensureAuthedHandler o) (so_unknownStreamDesc o).
Definition so_set_authAudience v (o : serverOptions) : serverOptions :=
  mkServerOptions (so_bindAddress o) (so_listenerAddress o) (so_tlsConfig o) (so_webrtcOpts o) (so_unaryInterceptor o)
    (so_streamInterceptor o) (so_instanceNames o) (so_unauthenticated o) (so_allowUnauthenticatedHealthCheck o)
    (so_publicMethods o) (so_authKeys o) (so_jwtSignerKeyID o) (so_debug o) (so_tlsAuthHandler o)
    (so_authHandlersForCreds o) v (so_authIssuer o) (so_authToHandler o) (so_disableMDNS o) (so_statsHandler o)
    (so_ensureAuthedHandler o) (so_unknownStreamDesc o).
Definition so_set_authIssuer v (o : serverOptions) : serverOptions :=
  mkServerOptions (so_bindAddress o) (so_listenerAddress o) (so_tlsConfig o) (so_webrtcOpts o) (so_unaryInterceptor o)
    (so_streamInterceptor o) (so_instanceNames o) (so_unauthenticated o) (so_allowUnauthenticatedHealthCheck o)
    (so_publicMethods o) (so_authKeys o) (so_jwtSignerKeyID o) (so_debug o) (so_tlsAuthHandler o)
    (so_authHandlersForCreds o) (so_authAudience o) v (so_authToHandler o) (so_disableMDNS o) (so_statsHandler o)
    (so_ensureAuthedHandler o) (so_unknownStreamDesc o).
Definition so_set_authToHandler v (o : serverOptions) : serverOptions :=
  mkServerOptions (so_bindAddress o) (so_listenerAddress o) (so_tlsConfig o) (so_webrtcOpts o) (so_unaryInterceptor o)
    (so_streamInterceptor o) (so_instanceNames o) (so_unauthenticated o) (so_allowUnauthenticatedHealthCheck o)
    (so_publicMethods o) (so_authKeys o) (so_jwtSignerKeyID o) (so_debug o) (so_tlsAuthHandler o)
    (so_authHandlersForCreds o) (so_authAudience o) (so_authIssuer o) v (so_disableMDNS o) (so_statsHandler o)
    (so_ensureAuthedHandler o) (so_unknownStreamDesc o).
Definition so_set_disableMDNS v (o : serverOptions) : serverOptions :=
  mkServerOptions (so_bindAddress o) (so_listenerAddress o) (so_tlsConfig o) (so_webrtcOpts o) (so_unaryInterceptor o)
    (so_streamInterceptor o) (so_instanceNames o) (so_unauthenticated o) (so_allowUnauthenticatedHealthCheck o)
    (so_publicMethods o) (so_authKeys o) (so_jwtSignerKeyID o) (so_debug o) (so_tlsAuthHandler o)
    (so_authHandlersForCreds o) (so_authAudience o) (so_authIssuer o) (so_authToHandler o) v (so_statsHandler o)
    (so_ensureAuthedHandler o) (so_unknownStreamDesc o).
Definition so_set_statsHandler v (o : serverOptions) : serverOptions :=
  mkServerOptions (so_bindAddress o) (so_listenerAddress o) (so_tlsConfig o) (so_webrtcOpts o) (so_unaryInterceptor o)
    (so_streamInterceptor o) (so_instanceNames o) (so_unauthenticated o) (so_allowUnauthenticatedHealthCheck o)
    (so_publicMethods o) (so_authKeys o) (so_jwtSignerKeyID o) (so_debug o) (so_tlsAuthHandler o)
    (so_authHandlersForCreds o) (so_authAudience o) (so_authIssuer o) (so_authToHandler o) (so_disableMDNS o) v
    (so_ensureAuthedHandler o) (so_unknownStreamDesc o).
Definition so_set_ensureAuthedHandler v (o : serverOptions) : serverOptions :=
  mkServerOptions (so_bindAddress o) (so_listenerAddress o) (so_tlsConfig o) (so_webrtcOpts o) (so_unaryInterceptor o)
    (so_streamInterceptor o) (so_instanceNames o) (so_unauthenticated o) (so_allowUnauthenticatedHealthCheck o)
    (so_publicMethods o) (so_authKeys o) (so_jwtSignerKeyID o) (so_debug o) (so_tlsAuthHandler o)
    (so_authHandlersForCreds o) (so_authAudience o) (so_authIssuer o) (so_authToHandler o) (so_disableMDNS o)
    (so_statsHandler o) v (so_unknownStreamDesc o).
Definition so_set_unknownStreamDesc v (o : serverOptions) : serverOptions :=
  mkServerOptions (so_bindAddress o) (so_listenerAddress o) (so_tlsConfig o) (so_webrtcOpts o) (so_unaryInterceptor o)
    (so_streamInterceptor o) (so_instanceNames o) (so_unauthenticated o) (so_allowUnauthenticatedHealthCheck o)
    (so_publicMethods o) (so_authKeys o) (so_jwtSignerKeyID o) (so_debug o) (so_tlsAuthHandler o)
    (so_authHandlersForCreds o) (so_authAudience o) (so_authIssuer o) (so_authToHandler o) (so_disableMDNS o)
    (so_statsHandler o) (so_ensureAuthedHandler o) v.

(** ** The options *)

Definition ServerOption : Type := serverOptions -> serverOptions + goerror.

(** The options in turn, as NewServer applies them. *)
Fixpoint apply_options (opts : list ServerOption) (o : serverOptions) : serverOptions + goerror :=
  match opts with
  | [] => inl o
  | opt :: opts' => match opt o with inl o' => apply_options opts' o' | inr err => inr err end
  end.

Definition WithInternalBindAddress (address : string) : ServerOption := fun o => inl (so_set_bindAddress address o).
Definition WithExternalListenerAddress (address : option TCPAddr) : ServerOption :=
  fun o => inl (so_set_listenerAddress address o).
Definition WithInternalTLSConfig (config : tls_Config) : ServerOption := fun o =>
  let set v c := mkTLSConfig (tc_Certificates c) (tc_GetCertificate c) v in
  let c1 := if bool_decide (tc_ClientAuth config = 0%Z) then set VersionTLS12 config else config in
  inl (so_set_tlsConfig (Some (set VerifyClientCertIfGiven c1)) o).
Definition WithWebRTCServerOptions (webrtcOpts : WebRTCServerOptions) : ServerOption :=
  fun o => inl (so_set_webrtcOpts webrtcOpts o).
Definition WithUnaryServerInterceptor (i : option UI) : ServerOption := fun o => inl (so_set_unaryInterceptor i o).
Definition WithStreamServerInterceptor (i : option SI) : ServerOption := fun o => inl (so_set_streamInterceptor i o).
Definition WithInstanceNames (names : list string) : ServerOption := fun o =>
  match names with [] => inr (ENew "expected at least one instance name") | _ => inl (so_set_instanceNames names o) end.
Definition WithUnauthenticated : ServerOption := fun o => inl (so_set_unauthenticated true o).

(** The key options; the thumbprint of the public key is its identifier. *)
Definition add_key (id method : string) (priv : PrivKey) : ServerOption := fun o =>
  inl (so_set_authKeys (<[id := mkAuthKey id (Some method) (Some priv) (Some (public_of priv))]> (so_authKeys o)) o).
Definition WithAuthRSAPrivateKey (thumbprint : Key -> string + goerror) (priv : PrivKey) : (ServerOption * string) + goerror :=
  match thumbprint (public_of priv) with
  | inr err => inr err
  | inl id => inl (add_key id "RS256" priv, id)
  end.
Definition WithAuthED25519PrivateKey (thumbprint : Key -> string) (priv : PrivKey) : ServerOption * string :=
  (add_key (thumbprint (public_of priv)) "EdDSA" priv, thumbprint (public_of priv)).
Definition WithJWTSignerKeyID (keyID : string) : ServerOption := fun o => inl (so_set_jwtSignerKeyID keyID o).
Definition WithAuthAudience (authAudience : list string) : ServerOption := fun o =>
  match authAudience with
  | [] => inr (ENew "expected at least one auth audience member")
  | _ => inl (so_set_authAudience authAudience o)
  end.
Definition WithAuthIssuer (authIssuer : string) : ServerOption := fun o =>
  if bool_decide (authIssuer = EmptyString) then inr (ENew "auth issuer must be non-empty")
  else inl (so_set_authIssuer authIssuer o).
Definition WithDebug : ServerOption := fun o => inl (so_set_debug true o).
Definition WithTLSAuthHandler (entities : list string) : ServerOption := fun o =>
  inl (so_set_tlsAuthHandler
    (Some (fun recvEntities =>
       match MakeEntitiesChecker entities recvEntities with
       | Some _ => Some (EIs errNotTLSAuthed)
       | None => None
       end)) o).
Definition WithAuthenticateToHandler (handler : option (string -> gmap string string + goerror)) : ServerOption :=
  fun o => inl (so_set_authToHandler handler o).
Definition WithDisableMulticastDNS : ServerOption := fun o => inl (so_set_disableMDNS true o).
Definition WithUnknownServiceHandler (h : UH) : ServerOption := fun o => inl (so_set_unknownStreamDesc (Some h) o).
Definition WithStatsHandler (h : option SH) : ServerOption := fun o => inl (so_set_statsHandler h o).
Definition WithEnsureAuthedHandler (eah : option (callCtx D -> callCtx D + goerror)) : ServerOption :=
  fun o => inl (so_set_ensureAuthedHandler eah o).
Definition WithAllowUnauthenticatedHealthCheck : ServerOption :=
  fun o => inl (so_set_allowUnauthenticatedHealthCheck true o).
Definition WithPublicMethods (fullMethods : list string) : ServerOption :=
  fun o => inl (so_set_publicMethods fullMethods o).

(** [withCredAuthHandlers]: every handler of a type may be set once. *)
Definition credentialsTypeInternal : string := "__internal".
Definition no_handlers : credAuthHandlers (Key:=Key) (D:=D) := mkHandlers None None None.
Definition set_once {A} (msg : string) (new old : option A) : option A + goerror :=
  match new, old with
  | None, _ => inl old
  | Some _, Some _ => inr (ENew msg)
  | Some _, None => inl new
  end.
Definition withCredAuthHandlers (quote : string -> string) (forType : string) (handler : credAuthHandlers (Key:=Key) (D:=D))
    : ServerOption := fun o =>
  if bool_decide (forType = credentialsTypeInternal) then inr (ENew ("cannot use " +:+ quote forType +:+ " externally"))
  else if bool_decide (forType = EmptyString) then inr (ENew "type cannot be empty")
  else
    let existing := default no_handlers (so_authHandlersForCreds o !! forType) in
    match set_once (quote forType +:+ " already has an AuthHandler") (ah_AuthHandler handler) (ah_AuthHandler existing) with
    | inr err => inr err
    | inl auth =>
        match set_once (quote forType +:+ " already has an EntityDataLoader") (ah_EntityDataLoader handler) (ah_EntityDataLoader existing) with
        | inr err => inr err
        | inl loader =>
            match set_once (quote forType +:+ " already has an TokenVerificationKeyProvider")
                    (ah_TokenVerificationKeyProvider handler) (ah_TokenVerificationKeyProvider existing) with
            | inr err => inr err
            | inl provider =>
                inl (so_set_authHandlersForCreds (<[forType := mkHandlers auth loader provider]> (so_authHandlersForCreds o)) o)
            end
        end
    end.
Definition WithAuthHandler (quote : string -> string) (forType : string) (h : option AuthHandler) : ServerOption :=
  withCredAuthHandlers quote forType (mkHandlers h None None).
Definition WithEntityDataLoader (quote : string -> string) (forType : string) (l : option (JWTClaims -> D + goerror)) : ServerOption :=
  withCredAuthHandlers quote forType (mkHandlers None l None).
Definition WithTokenVerificationKeyProvider (quote : string -> string) (forType : string)
    (p : option (parsedToken -> Key + goerror)) : ServerOption :=
  withCredAuthHandlers quote forType (mkHandlers None None p).
(** For external tokens: one public key for a family of methods, a fixed key
    set, or any provider. *)
Definition WithExternalAuthPublicKeyTokenVerifier (family : string -> bool) (quote : string -> string) (pubKey : Key)
    : ServerOption := WithTokenVerificationKeyProvider quote CredentialsTypeExternal (Some (MakePublicKeyProvider family quote pubKey)).
Definition WithExternalAuthJWKSetTokenVerifier (quote : string -> string) (lookupKey : string -> string -> Key + goerror)
    : ServerOption := WithTokenVerificationKeyProvider quote CredentialsTypeExternal (Some (oidc_TokenVerificationKey lookupKey)).
Definition WithExternalTokenVerificationKeyProvider (quote : string -> string) (p : option (parsedToken -> Key + goerror))
    : ServerOption := WithTokenVerificationKeyProvider quote CredentialsTypeExternal p.

(** ** What the options leave behind *)

(** The options of the package. *)
Inductive package_option : ServerOption -> Prop :=
  | PoBindAddress a : package_option (WithInternalBindAddress a)
  | PoListenerAddress a : package_option (WithExternalListenerAddress a)
  | PoTLSConfig c : package_option (WithInternalTLSConfig c)
  | PoWebRTC w : package_option (WithWebRTCServerOptions w)
  | PoUnary i : package_option (WithUnaryServerInterceptor i)
  | PoStream i : package_option (WithStreamServerInterceptor i)
  | PoInstanceNames names : package_option (WithInstanceNames names)
  | PoUnauthenticated : package_option WithUnauthenticated
  | PoRSA thumbprint priv opt id : WithAuthRSAPrivateKey thumbprint priv = inl (opt, id) -> package_option opt
  | PoED25519 thumbprint priv : package_option (WithAuthED25519PrivateKey thumbprint priv).1
  | PoSigner id : package_option (WithJWTSignerKeyID id)
  | PoAudience a : package_option (WithAuthAudience a)
  | PoIssuer i : package_option (WithAuthIssuer i)
  | PoDebug : package_option WithDebug
  | PoTLSAuth entities : package_option (WithTLSAuthHandler entities)
  | PoHandlers quote t h : package_option (withCredAuthHandlers quote t h)
  | PoAuthenticateTo h : package_option (WithAuthenticateToHandler h)
  | PoDisableMDNS : package_option WithDisableMulticastDNS
  | PoUnknownService h : package_option (WithUnknownServiceHandler h)
  | PoStats h : package_option (WithStatsHandler h)
  | PoEnsureAuthed h : package_option (WithEnsureAuthedHandler h)
  | PoHealthCheck : package_option WithAllowUnauthenticatedHealthCheck
  | PoPublic ms : package_option (WithPublicMethods ms).

(** The signing methods of keys. *)
Definition key_methods : list string := ["RS256"; "EdDSA"]%string.

(** No handlers for the internal type or no type at all; every key is complete
    and under its identifier; client certificates are verified if given. *)
Record options_ok (o : serverOptions) : Prop := {
  ok_internal : so_authHandlersForCreds o !! credentialsTypeInternal = None;
  ok_untyped : so_authHandlersForCreds o !! EmptyString = None;
  ok_keys : forall id k, so_authKeys o !! id = Some k ->
    exists m priv, k = mkAuthKey id (Some m) (Some priv) (Some (public_of priv)) /\ m ∈ key_methods;
  ok_tls : forall c, so_tlsConfig o = Some c -> tc_ClientAuth c = VerifyClientCertIfGiven;
}.

(** What a handler is set to stays: [h'] extends [h]. *)
Definition extends {A} (old new : option A) : Prop := forall x, old = Some x -> new = Some x.
Definition handlers_extend (h h' : credAuthHandlers (Key:=Key) (D:=D)) : Prop :=
  extends (ah_AuthHandler h) (ah_AuthHandler h') /\ extends (ah_EntityDataLoader h) (ah_EntityDataLoader h') /\
  extends (ah_TokenVerificationKeyProvider h) (ah_TokenVerificationKeyProvider h').
Definition handlers_of (o : serverOptions) (t : string) : credAuthHandlers := default no_handlers (so_authHandlersForCreds o !! t).

Lemma set_once_extends {A} msg (new old res : option A) :
  set_once msg new old = inl res -> extends old res /\ extends new res.
Proof. unfold set_once, extends. destruct new, old; intros [=]; subst; split; congruence. Qed.

(** Either an option leaves the handlers alone, or it sets some that were not
    set, of a type that is neither internal nor empty. *)
Lemma withCredAuthHandlers_inv quote t h o o' : withCredAuthHandlers quote t h o = inl o' ->
  t <> credentialsTypeInternal /\ t <> EmptyString /\
  exists h', o' = so_set_authHandlersForCreds (<[t := h']> (so_authHandlersForCreds o)) o /\
    handlers_extend (handlers_of o t) h' /\ handlers_extend h h'.
Proof.
  unfold withCredAuthHandlers. do 2 (case_bool_decide; [done|]). fold (handlers_of o t).
  destruct (set_once _ (ah_AuthHandler h) _) as [a|] eqn:Ha; [|done].
  destruct (set_once _ (ah_EntityDataLoader h) _) as [l|] eqn:Hl; [|done].
  destruct (set_once _ (ah_TokenVerificationKeyProvider h) _) as [p|] eqn:Hp; [|done].
  intros [= <-]. do 2 (split; [done|]). eexists. split; [done|].
  apply set_once_extends in Ha as [??], Hl as [??], Hp as [??]. done.
Qed.

Lemma package_option_ok opt o o' : package_option opt -> opt o = inl o' -> options_ok o -> options_ok o'.
Proof.
  intros Hpo Ho [Hi Hu Hk Ht].
  assert (Hadd : forall id m priv, m ∈ key_methods -> add_key id m priv o = inl o' -> options_ok o').
  { intros id m priv Hm [= <-]. split; cbn; auto. intros id' k.
    rewrite lookup_insert_Some. intros [[<- <-]|[_ Hl]]; eauto 10. }
  destruct Hpo; try (injection Ho as <-; split; cbn; eauto; fail).
  - injection Ho as <-. split; cbn; eauto. by intros ? [= <-].
  - unfold WithInstanceNames in Ho. destruct names; [done|]. injection Ho as <-. by split.
  - unfold WithAuthRSAPrivateKey in *. destruct (thumbprint (public_of priv)); simplify_eq.
    refine (Hadd _ _ _ _ Ho). set_solver.
  - refine (Hadd _ _ _ _ Ho). set_solver.
  - unfold WithAuthAudience in Ho. destruct a; [done|]. injection Ho as <-. by split.
  - unfold WithAuthIssuer in Ho. case_bool_decide; [done|]. injection Ho as <-. by split.
  - apply withCredAuthHandlers_inv in Ho as (Hti & Hte & h' & -> & _).
    split; cbn; eauto; by rewrite lookup_insert_ne.
Qed.

Lemma package_option_extends opt o o' t : package_option opt -> opt o = inl o' ->
  handlers_extend (handlers_of o t) (handlers_of o' t).
Proof.
  intros Hpo Ho.
  assert (Hsame : so_authHandlersForCreds o' = so_authHandlersForCreds o -> handlers_extend (handlers_of o t) (handlers_of o' t)).
  { intros Heq. unfold handlers_of. rewrite Heq. by split_and!; intros ?. }
  destruct Hpo; try (injection Ho as <-; by apply Hsame).
  - unfold WithInstanceNames in Ho. destruct names; simplify_eq. by apply Hsame.
  - unfold WithAuthRSAPrivateKey in *. destruct (thumbprint (public_of priv)); simplify_eq. injection Ho as <-. by apply Hsame.
  - unfold WithAuthAudience in Ho. destruct a; simplify_eq. by apply Hsame.
  - unfold WithAuthIssuer in Ho. case_bool_decide; simplify_eq. by apply Hsame.
  - apply withCredAuthHandlers_inv in Ho as (_ & _ & h' & -> & Hext & _).
    destruct (decide (t = t0)) as [->|Hne]; [unfold handlers_of at 2; cbn; by rewrite lookup_insert_eq|].
    unfold handlers_of; cbn. rewrite lookup_insert_ne by done. by split_and!; intros ?.
Qed.

Lemma apply_options_ok opts o o' : Forall package_option opts -> apply_options opts o = inl o' -> options_ok o -> options_ok o'.
Proof.
  intros Hall. revert o. induction Hall as [|opt opts Hpo Hall IH]; intros o; cbn; [by intros [= <-]|].
  destruct (opt o) as [o1|] eqn:Ho; [|done]. eauto using package_option_ok.
Qed.
Lemma no_options_ok : options_ok no_options.
Proof. by split. Qed.

(** Whatever options of the package were applied: no handlers exist for the
    internal credentials or for no type, every authentication key is complete
    and of a method the server accepts, and the internal listener verifies client
    certificates if they are given. *)
Theorem options_are_consistent opts o : Forall package_option opts -> apply_options opts no_options = inl o -> options_ok o.
Proof. intros Hall Hap. eauto using apply_options_ok, no_options_ok. Qed.

(** A handler that an option has set for a type of credentials is still the one
    in use after all options: none is ever replaced. *)
Theorem handlers_are_never_replaced quote t h opts1 opts2 o :
  Forall package_option opts2 ->
  apply_options (opts1 ++ withCredAuthHandlers quote t h :: opts2) no_options = inl o ->
  t <> credentialsTypeInternal /\ t <> EmptyString /\ handlers_extend h (handlers_of o t).
Proof.
  intros Hall. generalize no_options. induction opts1 as [|opt opts1 IH]; intros o0; cbn.
  2: { destruct (opt o0); [apply IH|done]. }
  destruct (withCredAuthHandlers quote t h o0) as [o1|] eqn:Ho; [|done].
  destruct (withCredAuthHandlers_inv _ _ _ _ _ Ho) as (Hi & He & h' & -> & _ & Hext). intros Hap.
  do 2 (split; [done|]).
  assert (H1 : handlers_extend h (handlers_of (so_set_authHandlersForCreds (<[t:=h']> (so_authHandlersForCreds o0)) o0) t)).
  { unfold handlers_of; cbn. by rewrite lookup_insert_eq. }
  revert Hap H1. generalize (so_set_authHandlersForCreds (<[t:=h']> (so_authHandlersForCreds o0)) o0). clear Ho Hext h'.
  induction Hall as [|opt opts2 Hpo Hall IH2]; intros o1; cbn; [by intros [= <-]|].
  destruct (opt o1) as [o2|] eqn:Ho2; [|done]. intros Hap (Ha & Hl & Hp). apply (IH2 _ Hap).
  destruct (package_option_extends _ _ _ t Hpo Ho2) as (Ha' & Hl' & Hp').
  repeat split; intros ? ?; eauto.
Qed.
End Options.

(** A configuration that requires client certificates is weakened to one that
    verifies them if they are given. *)
Lemma internal_tls_is_weakened :
  exists o : serverOptions (Key:=nat) (PrivKey:=nat) (D:=nat) (UI:=unit) (SI:=unit) (UH:=unit) (SH:=unit) (DOpt:=unit) (Hook:=unit) (Conf:=unit),
    WithInternalTLSConfig (mkTLSConfig [] None RequireAndVerifyClientCert) no_options = inl o /\
    tc_ClientAuth <$> so_tlsConfig o = Some VerifyClientCertIfGiven.
Proof. eexists. split; reflexivity. Qed.

Module OptionsExample.
Import OneToken.
Abbreviation sampleOption := (ServerOption (Key:=nat) (PrivKey:=nat) (D:=nat) (UI:=unit) (SI:=unit) (UH:=unit) (SH:=unit)
  (DOpt:=unit) (Hook:=unit) (Conf:=unit)).
Definition loader (c : JWTClaims) : nat + goerror := inl 7.
Definition with_login : sampleOption := withCredAuthHandlers id "robot-secret" handlers0.
Definition with_loader : sampleOption := WithEntityDataLoader id "robot-secret" (Some loader).
Definition opts : list sampleOption :=
  [with_login; with_loader; (WithAuthED25519PrivateKey (fun _ => "key1"%string) 3).1; WithAuthIssuer "here"].

(** A second handler for the same type is refused. *)
Lemma second_handler_is_refused : apply_options [with_login; with_loader; with_login] no_options =
  inr (ENew "robot-secret already has an AuthHandler").
Proof. reflexivity. Qed.

Lemma options_are_consistent_witness : exists o, apply_options opts no_options = inl o /\ options_ok o.
Proof.
  eexists. split; [reflexivity|]. apply (options_are_consistent opts); [|reflexivity]. repeat constructor.
Defined.

Lemma handlers_are_never_replaced_witness :
  exists o, apply_options opts no_options = inl o /\ ah_AuthHandler (handlers_of o "robot-secret") = Some login.
Proof.
  eexists. split; [reflexivity|].
  edestruct (handlers_are_never_replaced id "robot-secret" handlers0 [] [with_loader; (WithAuthED25519PrivateKey (fun _ => "key1"%string) 3).1; WithAuthIssuer "here"])
    as (_ & _ & Ha & _); [|reflexivity|apply Ha; reflexivity].
  repeat constructor.
Defined.
End OptionsExample.
