(* ===== verification/ExampleServers.v ===== *)
(** * The servers of the examples: [rpc/examples/echo/server/cmd/main.go] and
      [rpc/examples/fileupload/server/cmd/main.go]

    How the arguments of a command become the options of a server, in the monad
    of [GoRun] over whether the listener is open; the life of a server that runs,
    as a step relation; and the token that the page of the echo server is given. *)

From S2P Require Import Prelude GoError GoStrings GoRun ServerAuth ServerOptions.
Open Scope Z_scope.

(** [Arguments]; the two servers differ in [TLSAuth] and [UseAccessToken]. *)
Record Arguments_ := mkArguments {
  ar_Port : Z; ar_BindAddress : string; ar_InstanceName : string; ar_SignalingAddress : string; ar_TLSCertFile : string; ar_TLSKeyFile : string;
  ar_TLSAuth : bool; ar_AuthPrivateKeyFile : string; ar_AuthPublicKeyFile : string; ar_APIKey : string; ar_ExternalAuthAddr : string;
  ar_ExternalAuth : bool; ar_UseAccessToken : bool }.
Definition defaultPort : Z := 8080.
Definition check_arguments (parsed : Arguments_ + goerror) : Arguments_ + goerror :=
  match parsed with
  | inr err => inr err
  | inl a =>
      let a := if ar_Port a =? 0
               then mkArguments defaultPort (ar_BindAddress a) (ar_InstanceName a) (ar_SignalingAddress a) (ar_TLSCertFile a) (ar_TLSKeyFile a) (ar_TLSAuth a)
                      (ar_AuthPrivateKeyFile a) (ar_AuthPublicKeyFile a) (ar_APIKey a) (ar_ExternalAuthAddr a) (ar_ExternalAuth a) (ar_UseAccessToken a)
               else a in
      if xorb (bool_decide (ar_TLSCertFile a = EmptyString)) (bool_decide (ar_TLSKeyFile a = EmptyString))
      then inr (ENew "must provide both tls-cert and tls-key")
      else inl a
  end.

(** What a file of a key holds: it cannot be read, it has no block of PEM, it
    cannot be parsed, it is a key of another kind, or the key. *)
Inductive keyFile (K : Type) := KfUnreadable (err : goerror) | KfNoPEM | KfUnparsable (err : goerror) | KfOther (kind : string) | KfKey (k : K).
Arguments KfUnreadable {K} err. Arguments KfNoPEM {K}. Arguments KfUnparsable {K} err. Arguments KfOther {K} kind. Arguments KfKey {K} k.

Definition CredentialsTypeAPIKey : string := "api-key".

Section Servers.
Context {Key PrivKey D UI SI UH SH DOpt Hook Conf : Type} `{Jwt Key PrivKey}.
Abbreviation Option_ := (ServerOption (Key:=Key) (PrivKey:=PrivKey) (D:=D) (UI:=UI) (SI:=SI) (UH:=UH) (SH:=SH) (DOpt:=DOpt) (Hook:=Hook) (Conf:=Conf)).
Abbreviation options_ := (serverOptions (Key:=Key) (PrivKey:=PrivKey) (D:=D) (UI:=UI) (SI:=SI) (UH:=UH) (SH:=SH) (DOpt:=DOpt) (Hook:=Hook) (Conf:=Conf)).
(** Naming and hashing of keys, the option for plaintext signaling, and the message
    for a missing private key, which the two servers spell differently. *)
Context (quote : string -> string) (thumbprint : Key -> string) (eddsa : string -> bool) (insecureOpt : DOpt) (missing_key : string).
(** The file system, the network, whose TCP listeners have a TCP address, and the
    names of the certificate. *)
Context (read_private : string -> keyFile PrivKey) (read_public : string -> keyFile Key).
Context (listen : string -> TCPAddr + goerror) (cert_names : string -> string -> list string + goerror).

(** Reading a key: nothing when no file is named; the missing block is
    dereferenced. *)
Definition read_key {K} (expected file : string) (read : string -> keyFile K) : prog bool goerror (option K) :=
  if bool_decide (file = EmptyString) then mret None
  else match read file with
       | KfUnreadable err | KfUnparsable err => fails err
       | KfNoPEM => panics
       | KfOther kind => fails (ENew (expected +:+ " but got " +:+ kind))
       | KfKey k => mret (Some k)
       end.
Definition open_listener (bindAddress : string) : prog bool goerror TCPAddr :=
  match listen bindAddress with
  | inr err => fails err
  | inl addr => modify (fun _ => true) ≫= fun _ => mret addr
  end.
Definition echo_bind_address (a : Arguments_) : string :=
  if bool_decide (ar_BindAddress a = EmptyString) then "localhost:" +:+ FormatInt (ar_Port a) else ar_BindAddress a.
Definition is_secure (a : Arguments_) : bool := negb (bool_decide (ar_TLSCertFile a = EmptyString)).

(** The entities and the option of the API key; [None] where making the handler
    panics. *)
Definition auth_entities (a : Arguments_) (addr : TCPAddr) : list string :=
  [ta_String addr; echo_bind_address a] ++ (if bool_decide (ar_InstanceName a = EmptyString) then [] else [ar_InstanceName a]).
Definition tls_auth_option (a : Arguments_) : prog bool goerror (list Option_) :=
  if is_secure a && ar_TLSAuth a
  then match cert_names (ar_TLSCertFile a) (ar_TLSKeyFile a) with
       | inr err => fails err
       | inl names => mret [WithTLSAuthHandler names]
       end
  else mret [].
Definition auth_options (a : Arguments_) (addr : TCPAddr) (authPublicKey : option Key) : prog bool goerror (list Option_) :=
  if bool_decide (ar_APIKey a = EmptyString) && negb (bool_decide (is_Some authPublicKey)) then mret [WithUnauthenticated]
  else
    tls_auth_option a ≫= fun tls =>
    mret ([WithAuthHandler quote CredentialsTypeAPIKey (MakeSimpleAuthHandler (auth_entities a addr) (ar_APIKey a))] ++ tls ++
          match authPublicKey with Some k => [WithExternalAuthPublicKeyTokenVerifier eddsa quote k] | None => [] end).

Definition echo_webrtc_options (a : Arguments_) : WebRTCServerOptions (DOpt:=DOpt) (Hook:=Hook) (Conf:=Conf) :=
  mkWebRTC true (if negb (bool_decide (ar_SignalingAddress a = EmptyString)) && negb (is_secure a) then [insecureOpt] else [])
    (ar_SignalingAddress a) false [] [] None None None.

(** The options before those of authentication, and after them. *)
Definition leading_options (a : Arguments_) (addr : TCPAddr) (authPrivKey : option PrivKey) : list Option_ :=
  match authPrivKey with Some k => [(WithAuthED25519PrivateKey thumbprint k).1] | None => [] end ++
  [WithExternalListenerAddress (Some addr); WithWebRTCServerOptions (echo_webrtc_options a)] ++
  (if bool_decide (ar_InstanceName a = EmptyString) then [] else [WithInstanceNames [ar_InstanceName a]]).
Definition trailing_options (a : Arguments_) : list Option_ :=
  if ar_ExternalAuth a then [WithAuthenticateToHandler (Some (fun _ => inl ∅))] else [].

(** [runServer] up to the call of NewServer. *)
Definition runServer_options (a : Arguments_) : prog bool goerror (list Option_ * option Key * option PrivKey) :=
  read_key "expected private key to be ed25519" (ar_AuthPrivateKeyFile a) read_private ≫= fun authPrivKey =>
  read_key "expected ed25519.PublicKey" (ar_AuthPublicKeyFile a) read_public ≫= fun authPublicKey =>
  open_listener (echo_bind_address a) ≫= fun addr =>
  auth_options a addr authPublicKey ≫= fun auth =>
  (if ar_ExternalAuth a && negb (bool_decide (is_Some authPrivKey)) then fails (ENew missing_key) else mret tt) ≫= fun _ =>
  mret (leading_options a addr authPrivKey ++ auth ++ trailing_options a, authPublicKey, authPrivKey).

(** [computeAccessToken]; the page of the echo server asks for the subject and
    the credentials below. *)
Definition computeAccessToken (encode : Key -> string) (pubKey : Key) (privKey : PrivKey) (aud sub credType : string) : string + goerror :=
  SignedString "EdDSA" (encode pubKey) (mkClaims sub [aud] EmptyString 0 EmptyString credType {[ "email"%string := sub ]}) privKey.

(** ** What the options do *)

Lemma read_key_state {K} expected file (read : string -> keyFile K) s : (read_key expected file read s).1 = s.
Proof. unfold read_key. case_bool_decide; [done|]. by destruct (read file). Qed.

(** Finding the handler of API keys in the options that were applied. *)
Definition api_handler (o : options_) : option AuthHandler := so_authHandlersForCreds o !! CredentialsTypeAPIKey ≫= ah_AuthHandler.

(** Options that have nothing to do with authentication. *)
Definition keeps_auth (opt : Option_) : Prop := forall o o', opt o = inl o' -> so_authHandlersForCreds o' = so_authHandlersForCreds o /\ so_unauthenticated o' = so_unauthenticated o.
Lemma apply_keeps opts (o o' : options_) : Forall keeps_auth opts -> apply_options opts o = inl o' ->
  so_authHandlersForCreds o' = so_authHandlersForCreds o /\ so_unauthenticated o' = so_unauthenticated o.
Proof.
  intros Hall. revert o. induction Hall as [|opt opts Hk _ IH]; intros o; cbn; [by intros [= <-]|].
  destruct (opt o) as [o1|] eqn:Ho; [|done]. intros Ha%IH. destruct (Hk _ _ Ho) as [<- <-]. done.
Qed.
Lemma leading_keep a addr k : Forall keeps_auth (leading_options a addr k).
Proof.
  unfold leading_options. apply Forall_app_2; [|apply Forall_app_2].
  - destruct k; [apply Forall_singleton; by intros ?? [= <-]|apply Forall_nil_2].
  - apply Forall_cons_2; [|apply Forall_singleton]; by intros ?? [= <-].
  - case_bool_decide; [apply Forall_nil_2|apply Forall_singleton; by intros ?? [= <-]].
Qed.
Lemma trailing_keep a : Forall keeps_auth (trailing_options a).
Proof. unfold trailing_options. destruct (ar_ExternalAuth a); [apply Forall_singleton; by intros ?? [= <-]|apply Forall_nil_2]. Qed.
Lemma apply_options_app opts1 opts2 (o o' : options_) : apply_options (opts1 ++ opts2) o = inl o' ->
  exists o1, apply_options opts1 o = inl o1 /\ apply_options opts2 o1 = inl o'.
Proof.
  revert o. induction opts1 as [|opt opts1 IH]; intros o; cbn; [intros; by exists o|]. destruct (opt o); [apply IH|done].
Qed.

Lemma with_auth_handler_found h (o o' : options_) : WithAuthHandler quote CredentialsTypeAPIKey (Some h) o = inl o' -> api_handler o' = Some h.
Proof.
  unfold WithAuthHandler, withCredAuthHandlers. cbn. set (e := default _ _). destruct (ah_AuthHandler e); [done|]. intros [= <-].
  unfold api_handler. cbn. by rewrite lookup_insert_eq.
Qed.
Lemma public_key_verifier_keeps_api k (o o' : options_) : WithExternalAuthPublicKeyTokenVerifier eddsa quote k o = inl o' -> api_handler o' = api_handler o.
Proof.
  unfold WithExternalAuthPublicKeyTokenVerifier, WithTokenVerificationKeyProvider, withCredAuthHandlers. cbn. set (e := default _ _).
  destruct (ah_TokenVerificationKeyProvider e); [done|]. intros [= <-]. unfold api_handler. cbn. rewrite lookup_insert_ne; [done|]. done.
Qed.

Lemma auth_options_state a addr pub s : (auth_options a addr pub s).1 = s.
Proof.
  unfold auth_options. destruct (_ && _); [done|]. unfold tls_auth_option, mbind, prog_bind. destruct (_ && _); [|done]. by destruct (cert_names _ _).
Qed.

(** The computation, where it succeeds. *)
Lemma runServer_options_ok a s s' opts pub priv : runServer_options a s = (s', Ret (opts, pub, priv)) ->
  exists addr auth s1, listen (echo_bind_address a) = inl addr /\ auth_options a addr pub s1 = (s', Ret auth) /\ s' = true /\
  (pub = None <-> ar_AuthPublicKeyFile a = EmptyString) /\
  opts = leading_options a addr priv ++ auth ++ trailing_options a.
Proof.
  unfold runServer_options, mbind, prog_bind. intros Hr.
  destruct (read_key _ (ar_AuthPrivateKeyFile a) read_private s) as [s1 [priv1|e|]] eqn:H1; [|done|done].
  destruct (read_key _ (ar_AuthPublicKeyFile a) read_public s1) as [s2 [pub1|e|]] eqn:H2; [|done|done].
  destruct (open_listener (echo_bind_address a) s2) as [s3 [addr|e|]] eqn:H3; [|done|done].
  destruct (auth_options a addr pub1 s3) as [s4 [auth|e|]] eqn:H4; [|done|done].
  destruct (ar_ExternalAuth a && negb (bool_decide (is_Some priv1))); [done|]. cbn in Hr. injection Hr as <- <- <- <-.
  unfold open_listener in H3. destruct (listen (echo_bind_address a)) as [addr'|] eqn:Hl; [|done].
  unfold modify, mbind, prog_bind, mret, prog_ret in H3. injection H3 as <- ->. exists addr, auth, true. split_and!; [done|done| | |].
  - pose proof (auth_options_state a addr pub1 true) as Hs. by rewrite H4 in Hs.
  - unfold read_key in H2. case_bool_decide as Hf; [injection H2 as <- <-; done|]. destruct (read_public _); simplify_eq; try done.
    injection H2 as <- <-. done.
  - done.
Qed.

(** What the option of API keys accepts. *)
Lemma simple_handler_spec entities key : exists h, MakeSimpleAuthHandler entities key = Some h /\
  forall entity payload m, h entity payload = inl m <-> entity ∈ entities /\ payload = key /\ m = ∅.
Proof.
  eexists. split; [reflexivity|]. intros entity payload m. cbn. pose proof (MakeEntitiesChecker_one entities entity) as Hc.
  destruct (MakeEntitiesChecker entities [entity]) as [err|].
  - split; [by case_match|]. intros (Hin & _). apply Hc in Hin. done.
  - rewrite orb_false_r. case_bool_decide as Hp; [|split; [done|naive_solver]]. split; [intros [= <-]; naive_solver|naive_solver].
Qed.

(** The servers of the examples accept as an API key for themselves exactly the
    one that they were given - and that is the empty one where only a public key
    for external tokens was given; without either nobody is asked. *)
Theorem example_server_api_key a s s' opts pub priv o : runServer_options a s = (s', Ret (opts, pub, priv)) -> apply_options opts no_options = inl o ->
  if bool_decide (ar_APIKey a = EmptyString) && bool_decide (ar_AuthPublicKeyFile a = EmptyString)
  then so_unauthenticated o = true /\ api_handler o = None
  else exists addr h, listen (echo_bind_address a) = inl addr /\ api_handler o = Some h /\
       forall entity payload m, h entity payload = inl m <-> entity ∈ auth_entities a addr /\ payload = ar_APIKey a /\ m = ∅.
Proof.
  intros (addr & auth & s1 & Hl & Hau & -> & Hpub & ->)%runServer_options_ok Ho.
  apply apply_options_app in Ho as (o1 & Ho1 & Ho). apply apply_options_app in Ho as (o2 & Ho2 & Ho3).
  destruct (apply_keeps _ _ _ (leading_keep _ _ _) Ho1) as [K1 _]. destruct (apply_keeps _ _ _ (trailing_keep _) Ho3) as [K3 U3].
  unfold auth_options in Hau. assert (Hb : negb (bool_decide (is_Some pub)) = bool_decide (ar_AuthPublicKeyFile a = EmptyString)).
  { destruct pub as [k|]; cbn; symmetry; [apply bool_decide_eq_false; intros ?%Hpub; done|apply bool_decide_eq_true; by apply Hpub]. }
  rewrite Hb in Hau. destruct (bool_decide (ar_APIKey a = EmptyString) && bool_decide (ar_AuthPublicKeyFile a = EmptyString)).
  - cbn in Hau. injection Hau as _ <-. cbn in Ho2. injection Ho2 as <-. split; [by rewrite U3|].
    unfold api_handler. rewrite K3. cbn. by rewrite K1.
  - destruct (simple_handler_spec (auth_entities a addr) (ar_APIKey a)) as (h & Hh & Hspec). exists addr, h. split_and!; [done| |done].
    unfold mbind, prog_bind in Hau. destruct (tls_auth_option a s1) as [s2 [tls|e|]] eqn:Htls; [|done|done].
    unfold mret, prog_ret in Hau. injection Hau as _ <-. rewrite Hh in Ho2. cbn [app apply_options] in Ho2.
    destruct (WithAuthHandler quote CredentialsTypeAPIKey (Some h) o1) as [o3|] eqn:H3; [|done]. apply with_auth_handler_found in H3.
    apply apply_options_app in Ho2 as (o4 & Ho4 & Ho5).
    assert (K4 : so_authHandlersForCreds o4 = so_authHandlersForCreds o3).
    { apply (apply_keeps tls o3 o4); [|done]. unfold tls_auth_option in Htls. destruct (is_secure a && ar_TLSAuth a).
      - destruct (cert_names _ _); [|done]. injection Htls as _ <-. apply Forall_singleton. by intros ?? [= <-].
      - injection Htls as _ <-. apply Forall_nil_2. }
    transitivity (api_handler o2); [unfold api_handler; by rewrite K3|]. transitivity (api_handler o4).
    + destruct pub as [k|]; cbn in Ho5; [|by injection Ho5 as <-].
      destruct (WithExternalAuthPublicKeyTokenVerifier eddsa quote k o4) as [o6|] eqn:H6; [|done]. injection Ho5 as <-. by eapply public_key_verifier_keeps_api.
    + unfold api_handler in *. by rewrite K4.
Qed.

(** A failure after the listener was opened leaves it open. *)
Lemma failed_options_leave_listener a addr auth : ar_AuthPrivateKeyFile a = EmptyString -> ar_AuthPublicKeyFile a = EmptyString ->
  listen (echo_bind_address a) = inl addr -> auth_options a addr None true = (true, Ret auth) -> ar_ExternalAuth a = true ->
  runServer_options a false = (true, Err (ENew missing_key)).
Proof.
  intros H1 H2 Hl Hau Hext. unfold runServer_options, read_key, open_listener. rewrite !bool_decide_eq_true_2 by done. rewrite Hl.
  unfold mbind, prog_bind, mret, prog_ret, modify. rewrite Hau, Hext. done.
Qed.
End Servers.

(** ** A server that runs *)

(** The goroutine that shuts down: it waits for the context, shuts the HTTP server
    down, stops the RPC server, and has closed [done]. *)
Inductive shutdownPc := SdWaits | SdShutdown | SdStopping | SdDone.
(** runServer: in Serve, in its deferred calls with the error of Serve, if it is
    one, or returned. *)
Inductive servePc := SvServing | SvWaitsDone (err : option goerror) | SvStopping (err : option goerror) | SvReturned (err : option goerror).
Record runningServer := mkRunningServer { rn_ctxDone : bool; rn_httpClosed : bool; rn_shutdown : shutdownPc; rn_main : servePc; rn_stops : nat }.
Definition runServer_serves : runningServer := mkRunningServer false false SdWaits SvServing 0.

Section Running.
Context `{Multierr goerror}.

(** What the two goroutines do by themselves. A panic of the first, for an error
    of Shutdown or of Stop, is captured after its deferred calls. *)
Inductive serving_internal : runningServer -> runningServer -> Prop :=
  | RnShutdown r : rn_shutdown r = SdWaits -> rn_ctxDone r = true -> serving_internal r (mkRunningServer true true SdShutdown (rn_main r) (rn_stops r))
  | RnShutdownReturns r : rn_shutdown r = SdShutdown -> serving_internal r (mkRunningServer (rn_ctxDone r) (rn_httpClosed r) SdStopping (rn_main r) (rn_stops r))
  | RnStops r : rn_shutdown r = SdStopping -> serving_internal r (mkRunningServer (rn_ctxDone r) (rn_httpClosed r) SdDone (rn_main r) (S (rn_stops r)))
  | RnServeClosed r : rn_main r = SvServing -> rn_httpClosed r = true ->
      serving_internal r (mkRunningServer (rn_ctxDone r) true (rn_shutdown r) (SvWaitsDone None) (rn_stops r))
  | RnDone err r : rn_main r = SvWaitsDone err -> rn_shutdown r = SdDone ->
      serving_internal r (mkRunningServer (rn_ctxDone r) (rn_httpClosed r) SdDone (SvStopping err) (rn_stops r))
  | RnReturns err stopErr r : rn_main r = SvStopping err ->
      serving_internal r (mkRunningServer (rn_ctxDone r) (rn_httpClosed r) (rn_shutdown r) (SvReturned (multierr_Combine (option_list err ++ option_list stopErr)))
                            (S (rn_stops r))).
Inductive serving_step : runningServer -> runningServer -> Prop :=
  | RnInternal r r' : serving_internal r r' -> serving_step r r'
  | RnCancel r : serving_step r (mkRunningServer true (rn_httpClosed r) (rn_shutdown r) (rn_main r) (rn_stops r))
  | RnServeFails err r : rn_main r = SvServing ->
      serving_step r (mkRunningServer (rn_ctxDone r) (rn_httpClosed r) (rn_shutdown r) (SvWaitsDone (Some err)) (rn_stops r)).

Definition serving_inv (r : runningServer) : Prop :=
  (rn_ctxDone r = false -> rn_shutdown r = SdWaits /\ rn_httpClosed r = false) /\
  (rn_shutdown r <> SdWaits -> rn_httpClosed r = true) /\
  match rn_main r with
  | SvStopping _ => rn_shutdown r = SdDone /\ rn_stops r = 1%nat
  | SvReturned _ => rn_shutdown r = SdDone /\ rn_stops r = 2%nat
  | _ => rn_stops r = match rn_shutdown r with SdDone => 1%nat | _ => 0%nat end
  end.

Lemma serving_step_inv r r' : serving_inv r -> serving_step r r' -> serving_inv r'.
Proof.
  intros (Hc & Hh & Hm) Hs. unfold serving_inv. destruct Hs as [r r' Hs|r|err r Hv].
  - destruct Hs as [r H1 H2|r H1|r H1|r H1 H2|err r H1 H2|err e r H1]; destruct r as [c h s v n]; cbn in *; subst; cbn in *.
    + destruct v; naive_solver.
    + destruct v; naive_solver.
    + destruct v; naive_solver.
    + naive_solver.
    + naive_solver.
    + naive_solver.
  - destruct r as [c h s v n]; cbn in *. split; [done|]. by split.
  - destruct r as [c h s v n]; cbn in *; subst. by split.
Qed.

Lemma serving_reachable_inv r : reachable (fun r => r = runServer_serves) serving_step r -> serving_inv r.
Proof. apply invariant_reachable; [|apply serving_step_inv]. by intros ? ->. Qed.

(** A server returns only after its context was canceled, with everything shut
    down and the RPC server stopped, twice; so an error of Serve is kept until
    then. Once the context is canceled it can always return. *)
Theorem example_server_returns_when_canceled r : reachable (fun r => r = runServer_serves) serving_step r ->
  (forall err, rn_main r = SvReturned err -> rn_ctxDone r = true /\ rn_shutdown r = SdDone /\ rn_stops r = 2%nat) /\
  (rn_ctxDone r = true -> exists r' err, rtc serving_internal r r' /\ rn_main r' = SvReturned err).
Proof.
  intros Hr%serving_reachable_inv. split.
  - intros err He. destruct Hr as (Hc & _ & Hm). rewrite He in Hm. destruct Hm as [Hs Hn]. destruct (rn_ctxDone r) eqn:Hd; [done|].
    destruct Hc as [Hc _]; [done|]. congruence.
  - intros Hctx. assert (Hend : forall r, serving_inv r -> rn_shutdown r = SdDone -> exists r' err, rtc serving_internal r r' /\ rn_main r' = SvReturned err).
    { clear. intros r (Hc & Hh & Hm) Hs. assert (Hst : forall err r, rn_main r = SvStopping err -> exists r' err, rtc serving_internal r r' /\ rn_main r' = SvReturned err).
      { clear. intros err r Hr. eexists _, _. split; [by apply rtc_once, (RnReturns err None)|done]. }
      assert (Hw : forall err r, rn_main r = SvWaitsDone err -> rn_shutdown r = SdDone -> exists r' err, rtc serving_internal r r' /\ rn_main r' = SvReturned err).
      { clear -Hst. intros err r Hr Hs. destruct (Hst err (mkRunningServer (rn_ctxDone r) (rn_httpClosed r) SdDone (SvStopping err) (rn_stops r)) eq_refl) as (r' & e & Hrr & He).
        exists r', e. split; [by eapply rtc_l; [apply RnDone|]|done]. }
      destruct (rn_main r) as [|err|err|err] eqn:Hv.
      - destruct (Hw None (mkRunningServer (rn_ctxDone r) true (rn_shutdown r) (SvWaitsDone None) (rn_stops r)) eq_refl Hs) as (r' & e & Hrr & He).
        exists r', e. split; [|done]. eapply rtc_l; [apply RnServeClosed; [done|apply Hh; congruence]|done].
      - by apply (Hw err).
      - by apply (Hst err).
      - exists r, err. split; [apply rtc_refl|done]. }
    assert (Hnext : forall r r', serving_internal r r' -> (exists r2 err, rtc serving_internal r' r2 /\ rn_main r2 = SvReturned err) ->
      exists r2 err, rtc serving_internal r r2 /\ rn_main r2 = SvReturned err).
    { intros r1 r2 Hs (r3 & e & Hrr & He). exists r3, e. split; [by eapply rtc_l|done]. }
    assert (Hinv : forall r r', serving_inv r -> serving_internal r r' -> serving_inv r') by (intros; by eapply serving_step_inv, RnInternal).
    assert (Hstop : forall r, serving_inv r -> rn_shutdown r = SdStopping -> exists r' err, rtc serving_internal r r' /\ rn_main r' = SvReturned err).
    { intros r1 Hi Hs. apply (Hnext _ _ (RnStops _ Hs)). apply Hend; [by eapply Hinv, RnStops|done]. }
    assert (Hshut : forall r, serving_inv r -> rn_shutdown r = SdShutdown -> exists r' err, rtc serving_internal r r' /\ rn_main r' = SvReturned err).
    { intros r1 Hi Hs. apply (Hnext _ _ (RnShutdownReturns _ Hs)). apply Hstop; [by eapply Hinv, RnShutdownReturns|done]. }
    destruct (rn_shutdown r) eqn:Hs; [|by apply Hshut|by apply Hstop|by apply Hend].
    apply (Hnext _ _ (RnShutdown _ Hs Hctx)). apply Hshut; [by eapply Hinv, RnShutdown|done].
Qed.
End Running.

(** ** The file upload server *)

(** It has no authentication by certificates and no token for its page, and its
    listener is secured where a certificate is given; [listen_secure] says so. *)
Definition fileupload_arguments (a : Arguments_) : Arguments_ :=
  mkArguments (ar_Port a) (ar_BindAddress a) (ar_InstanceName a) (ar_SignalingAddress a) (ar_TLSCertFile a) (ar_TLSKeyFile a) false
    (ar_AuthPrivateKeyFile a) (ar_AuthPublicKeyFile a) (ar_APIKey a) (ar_ExternalAuthAddr a) (ar_ExternalAuth a) false.
Definition fileupload_options {Key PrivKey D UI SI UH SH DOpt Hook Conf : Type} `{Jwt Key PrivKey} (quote : string -> string) (thumbprint : Key -> string)
    (eddsa : string -> bool) (insecureOpt : DOpt) (read_private : string -> keyFile PrivKey) (read_public : string -> keyFile Key)
    (listen_secure : string -> string -> string -> TCPAddr * bool + goerror) (a : Arguments_)
    : prog bool goerror (list (ServerOption (Key:=Key) (PrivKey:=PrivKey) (D:=D) (UI:=UI) (SI:=SI) (UH:=UH) (SH:=SH) (DOpt:=DOpt) (Hook:=Hook) (Conf:=Conf)) *
                         option Key * option PrivKey) :=
  runServer_options quote thumbprint eddsa insecureOpt "expected auth-private-key" read_private read_public
    (fun addr => match listen_secure addr (ar_TLSCertFile a) (ar_TLSKeyFile a) with inl (l, _) => inl l | inr err => inr err end)
    (fun _ _ => inl []) (fileupload_arguments a).
