(* ===== verification/RpcServer.v ===== *)
(** * The RPC server: [rpc/server.go]

    Making a server from its options, with what is held when that fails;
    registering services; starting, serving and stopping; the chains of
    interceptors and the routing of requests. gRPC, its gateway, mDNS, TLS, keys
    and the network answer through [serverEnv]. *)

From S2P Require Import Prelude GoError ServerAuth ServerOptions SignalingServer Peer.
From Stdlib Require Import Ascii.

(** ** Making things that may fail or panic *)

(** A name that is announced over mDNS; a proxy announces another host on some
    interfaces. *)
Record iface := mkIface { if_up : bool; if_loopback : bool; if_name : string }.
Record mdnsEntry := mkMdns { md_host : string; md_Port : Z; md_services : list string; md_proxy : option (string * list iface) }.

(** What is open: the listener, the gateway's connection for a service, the
    announcements. *)
Record held := mkHeld { hd_listener : bool; hd_gateway : list string; hd_mdns : list mdnsEntry }.

Inductive outcome (A : Type) := Done (a : A) | Fails (err : goerror) | Panics.
Arguments Done {A} _.
Arguments Fails {A} _.
Arguments Panics {A}.
Definition build (A : Type) : Type := held -> held * outcome A.

#[export] Instance build_ret : MRet build := fun A a h => (h, Done a).
#[export] Instance build_bind : MBind build := fun A B f m h =>
  match m h with
  | (h', Done a) => f a h'
  | (h', Fails err) => (h', Fails err)
  | (h', Panics) => (h', Panics)
  end.
Definition fail {A} (err : goerror) : build A := fun h => (h, Fails err).
Definition panic {A} : build A := fun h => (h, Panics).
Definition announced : build (list mdnsEntry) := fun h => (h, Done (hd_mdns h)).
Definition lift {A} (r : A + goerror) : build A := match r with inl a => mret a | inr err => fail err end.
Definition try_ (e : option goerror) : build unit := match e with None => mret tt | Some err => fail err end.

(** ** Interceptors *)

Inductive interceptor := IntRecovery | IntZap | IntCode | IntTracing | IntAuth | IntUser.
#[export] Instance interceptor_eq_dec : EqDecision interceptor.
Proof. solve_decision. Defined.

(** The chain of both kinds of calls, and the one of calls over WebRTC: without
    the interceptor at the position of authentication. *)
Definition interceptors (unauthenticated user : bool) : list interceptor :=
  [IntRecovery; IntZap; IntCode; IntTracing] ++ (if unauthenticated then [] else [IntAuth]) ++ (if user then [IntUser] else []).
Definition auth_position (unauthenticated : bool) : option nat := if unauthenticated then None else Some 4%nat.
Definition webrtc_interceptors (pos : option nat) (chain : list interceptor) : list interceptor :=
  omap (fun '(idx, i) => if bool_decide (Some idx = pos) then None else Some i) (imap pair chain).

(** [unaryServerCodeInterceptor] and the one of streams on what the rest of the
    chain returns; [status.Err()] is nil for an OK status. *)
Definition code_interceptor {R} (nil_response : R) `{GrpcStatus} (res : R + goerror) : R + goerror :=
  match res with
  | inl resp => inl resp
  | inr err =>
      if snd (status_FromError (Some err)) then inr err
      else match status_FromContextError (Some err) with
           | Some s => match status_Err (Some s) with Some e => inr e | None => inl nil_response end
           | None => inr err
           end
  end.

Section Server.
Context {Key PrivKey D UI SI UH SH DOpt Hook Conf : Type} `{Jwt Key PrivKey} `{Multierr goerror} `{GrpcStatus}.
Abbreviation options := (serverOptions (Key:=Key) (PrivKey:=PrivKey) (D:=D) (UI:=UI) (SI:=SI) (UH:=UH) (SH:=SH)
  (DOpt:=DOpt) (Hook:=Hook) (Conf:=Conf)).
Abbreviation authKeys := (gmap string (authKey (Key:=Key) (PrivKey:=PrivKey))).
Abbreviation authState := (simpleServer (Key:=Key) (PrivKey:=PrivKey) (D:=D)).

(** What is outside, as one call of NewServer meets it. *)
Record serverEnv := mkServerEnv {
  ev_quote : string -> string;
  ev_Listen : string -> option goerror;
  ev_Addr : option TCPAddr;               (* the listener's, if it is one of TCP *)
  ev_AddrString : string;
  ev_ParseCertificate : bytes -> x509Certificate + goerror;
  ev_GenerateKey : PrivKey + goerror;
  ev_Thumbprint : Key -> string;          (* ED25519PublicKeyThumbprint *)
  ev_Read : bytes + goerror;              (* the internal credentials *)
  ev_NewString : string;                  (* the internal UUID *)
  ev_instanceUUID : string;
  ev_gateway : string -> option goerror;  (* a service's registration with the gateway *)
  ev_SplitHostPort : string -> string + goerror;
  ev_ParseIP : string -> bool;
  ev_Hostname : string + goerror;
  ev_Interfaces : list iface + goerror;
  ev_Register : mdnsEntry -> option goerror;
  ev_nilKey : Key;
  ev_nilPrivKey : PrivKey;
}.
Context (env : serverEnv).

(** ** Keys *)

(** The address that the listener is bound to. *)
Definition bind_address (o : options) : string :=
  if bool_decide (so_bindAddress o = EmptyString) then
    match so_tlsConfig o with
    | None => "localhost:0"
    | Some _ => if so_unauthenticated o then "localhost:0" else ":0"
    end
  else so_bindAddress o.

(** The first certificate of the TLS configuration, and its leaf. *)
Definition first_certificate (c : tls_Config) : build tlsCertificate :=
  match tc_Certificates c with
  | cert :: _ => mret cert
  | [] =>
      match tc_GetCertificate c with
      | None => panic
      | Some (inl cert) => mret cert
      | Some (inr _) => fail (ENew "invalid *tls.Config; expected at least 1 certificate")
      end
  end.
Definition certificate_leaf (cert : tlsCertificate) : build x509Certificate :=
  match cert with
  | [] => panic
  | der :: _ => lift (ev_ParseCertificate env der)
  end.
Definition certificate_of (o : options) : build (option x509Certificate) :=
  match so_tlsConfig o with
  | None => mret None
  | Some c => cert ← first_certificate c; leaf ← certificate_leaf cert; mret (Some leaf)
  end.

(** The authentication keys and the identifier of the one that signs. The only
    key is the first one of the map. *)
Definition setup_keys (o : options) : build (authKeys * string) :=
  if bool_decide (size (so_authKeys o) = 0) then
    if negb (bool_decide (so_jwtSignerKeyID o = EmptyString)) then
      fail (ENew "cannot use WithJWTSignerKeyID if no auth keys are set")
    else if so_unauthenticated o then mret (∅, EmptyString)
    else
      privKey ← lift (ev_GenerateKey env);
      let pubKey := public_of privKey in
      let keyID := ev_Thumbprint env pubKey in
      mret ({[ keyID := mkAuthKey keyID (Some "EdDSA"%string) (Some privKey) (Some pubKey) ]}, keyID)
  else if bool_decide (so_jwtSignerKeyID o = EmptyString) then
    match map_to_list (so_authKeys o) with
    | [(_, first)] =>
        if bool_decide (ak_id first = EmptyString) then fail (ENew "invariant: auth key has no id")
        else mret (so_authKeys o, ak_id first)
    | _ => fail (ENew "must use WithJWTSignerKeyID if more than one private key in use")
    end
  else mret (so_authKeys o, so_jwtSignerKeyID o).

(** Every key is complete; the first one that is not is reported. *)
Definition validate_keys (keys : authKeys) : build unit :=
  try_ (head (omap (fun '(_, k) => Validate (ev_quote env) k) (map_to_list keys))).

(** [authKeyForJWTSigning]. *)
Definition signing_key (o : options) (keys : authKeys) (id : string) : build (option (authKey (Key:=Key) (PrivKey:=PrivKey))) :=
  if so_unauthenticated o then mret None
  else match keys !! id with
       | None => fail (ENew ("no auth key data set for key id " +:+ ev_quote env id))
       | Some k => mret (Some k)
       end.

(** [RegisterServiceServer] with a gateway handler, as far as it can fail: the
    handler dials the listener, for the first DNS name of the certificate. *)
Definition register_gateway (tls : bool) (leaf : option x509Certificate) (svc : string) : build unit := fun h =>
  let handler : build unit := fun h =>
    match ev_gateway env svc with
    | Some err => (h, Fails err)
    | None => (mkHeld (hd_listener h) (hd_gateway h ++ [svc]) (hd_mdns h), Done tt)
    end in
  if tls then
    match leaf with
    | Some (mkX509 _ (_ :: _)) => handler h
    | _ => (h, Panics)
    end
  else handler h.

(** ** Names *)

(** [InstanceNameFromAddress]. *)
Definition contains_colon (s : string) : bool := existsb (fun c => bool_decide (c = ":"%char)) (String.list_ascii_of_string s).
Definition InstanceNameFromAddress (addr : string) : string + goerror :=
  match (if contains_colon addr then ev_SplitHostPort env addr else inl addr) with
  | inr err => inr err
  | inl host => inl (if ev_ParseIP env host then ev_instanceUUID env else host)
  end.

(** mDNS: every instance name, as it is and with dashes for dots. A name that
    cannot be announced only ends the inner loop. *)
Definition dashed (s : string) : string :=
  String.string_of_list_ascii ((fun c => if bool_decide (c = "."%char) then "-"%char else c) <$> String.list_ascii_of_string s).
Fixpoint announce (mk : string -> mdnsEntry) (names : list string) : build unit := fun h =>
  match names with
  | [] => (h, Done tt)
  | name :: names' =>
      match ev_Register env (mk name) with
      | Some _ => (h, Done tt)
      | None => announce mk names' (mkHeld (hd_listener h) (hd_gateway h) (hd_mdns h ++ [mk name]))
      end
  end.
Fixpoint announce_all (mk : string -> mdnsEntry) (hosts : list string) : build unit :=
  match hosts with
  | [] => mret tt
  | host :: hosts' => _ ← announce mk [host; dashed host]; announce_all mk hosts'
  end.
Definition setup_mdns (o : options) (addr : TCPAddr) (services instanceNames : list string) : build unit :=
  if so_disableMDNS o then mret tt
  else if ta_loopback addr then
    hostname ← lift (ev_Hostname env);
    ifcs ← lift (ev_Interfaces env);
    let loopback := take 1 (filter (fun i => if_up i = true /\ if_loopback i = true) ifcs) in
    announce_all (fun name => mkMdns name (ta_Port addr) services (Some (hostname, loopback))) instanceNames
  else announce_all (fun name => mkMdns name (ta_Port addr) services None) instanceNames.

(** ** The server *)

(** What an answerer is made with; dial options of the internal one. *)
Inductive dialOption :=
  | DialExternal (opt : DOpt)
  | DialTLS (serverName : string)
  | DialInsecure
  | DialEntityCredentials (entity credType payload : string).
Record answererConf := mkAnswererConf { aa_address : string; aa_hosts : list string; aa_dialOpts : list dialOption; aa_config : option Conf }.

(** The WebRTC server's share: its chains, its handler of unknown streams, its
    hooks. *)
Record webrtcPart := mkWebrtcPart {
  wp_unary : list interceptor; wp_stream : list interceptor; wp_unknown : option UH;
  wp_onPeerAdded : option Hook; wp_onPeerRemoved : option Hook }.

(** [simpleServer] without what [ServerAuth] has of it, which is [rs_auth]. The
    services are those of [serviceServerCancels]; [rs_locked]: [mu] is held and
    will not be released. *)
Record rpcServer := mkRpcServer {
  rs_auth : authState;
  rs_internalUUID : string;
  rs_internalPayload : string;
  rs_instanceNames : list string;
  rs_unary : list interceptor;
  rs_stream : list interceptor;
  rs_unknown : option UH;
  rs_statsHandler : option SH;
  rs_webrtc : option webrtcPart;
  rs_answerers : list answererConf;
  rs_signaling : option signalingServer;   (* with its queue *)
  rs_services : list string;
  rs_mdns : list mdnsEntry;
  rs_stopped : bool;
  rs_locked : bool;
}.

Definition healthCheckMethod : string := "/grpc.health.v1.Health/Check".
Definition healthWatchMethod : string := "/grpc.health.v1.Health/Watch".
Definition authenticateMethod : string := "/proto.rpc.v1.AuthService/Authenticate".
Definition authService : string := "proto.rpc.v1.AuthService".
Definition externalAuthService : string := "proto.rpc.v1.ExternalAuthService".
Definition signalingService : string := "proto.rpc.webrtc.v1.SignalingService".

(** The methods without authentication. *)
Definition exempt_methods (o : options) : gset string :=
  (if so_unauthenticated o then ∅ else {[ authenticateMethod ]}) ∪
  (if so_allowUnauthenticatedHealthCheck o then {[ healthCheckMethod; healthWatchMethod ]} else ∅).

(** The handlers of credentials, with the one of the internal credentials when
    there is authentication. *)
Definition cred_handlers (o : options) (uuid payload : string) : gmap string (credAuthHandlers (Key:=Key) (D:=D)) :=
  if so_unauthenticated o then so_authHandlersForCreds o
  else <[credentialsTypeInternal := mkHandlers (MakeSimpleAuthHandler [uuid] payload) None None]> (so_authHandlersForCreds o).

Definition auth_part (o : options) (keys : authKeys) (key : option (authKey (Key:=Key) (PrivKey:=PrivKey))) (uuid payload : string)
    (audience : list string) (issuer : string) : authState :=
  mkSimpleServer (cred_handlers o uuid payload) audience issuer
    ((fun k => mkKeyData (ak_method k) (default (ev_nilKey env) (ak_publicKey k))) <$> keys)
    (from_option ak_id EmptyString key)
    (default EmptyString (key ≫= ak_method))
    (default (ev_nilPrivKey env) (key ≫= ak_privateKey))
    (exempt_methods o) (list_to_set (so_publicMethods o)) (so_tlsAuthHandler o)
    (default (fun _ => inr (ENew "nil handler")) (so_authToHandler o)) (so_ensureAuthedHandler o).

(** The WebRTC part, with the answerers and the internal signaling service. *)
Definition external_hosts (o : options) (instanceNames : list string) : list string :=
  match wo_ExternalSignalingHosts (so_webrtcOpts o) with [] => instanceNames | hosts => hosts end.
Definition internal_hosts (o : options) (instanceNames : list string) : list string :=
  match wo_InternalSignalingHosts (so_webrtcOpts o) with [] => instanceNames | hosts => hosts end.
Definition runs_internal_signaling (o : options) : bool :=
  wo_EnableInternalSignaling (so_webrtcOpts o) || bool_decide (wo_ExternalSignalingAddress (so_webrtcOpts o) = EmptyString).
Definition external_answerer (o : options) (instanceNames : list string) : list answererConf :=
  if bool_decide (wo_ExternalSignalingAddress (so_webrtcOpts o) = EmptyString) then []
  else [mkAnswererConf (wo_ExternalSignalingAddress (so_webrtcOpts o)) (external_hosts o instanceNames)
          (DialExternal <$> wo_ExternalSignalingDialOpts (so_webrtcOpts o)) (wo_Config (so_webrtcOpts o))].
Definition internal_answerer (o : options) (leaf : option x509Certificate) (uuid payload : string) (instanceNames : list string)
    : answererConf :=
  mkAnswererConf (ev_AddrString env) (internal_hosts o instanceNames)
    ((match so_tlsConfig o with
      | Some _ => [DialTLS (from_option xc_CommonName EmptyString leaf)]
      | None => [DialInsecure]
      end) ++
     if so_unauthenticated o then [] else [DialEntityCredentials uuid credentialsTypeInternal payload])
    (wo_Config (so_webrtcOpts o)).
Definition webrtc_part (o : options) : webrtcPart :=
  let unary := interceptors (so_unauthenticated o) (bool_decide (is_Some (so_unaryInterceptor o))) in
  let stream := interceptors (so_unauthenticated o) (bool_decide (is_Some (so_streamInterceptor o))) in
  mkWebrtcPart (webrtc_interceptors (auth_position (so_unauthenticated o)) unary)
    (webrtc_interceptors (auth_position (so_unauthenticated o)) stream) (so_unknownStreamDesc o)
    (wo_OnPeerAdded (so_webrtcOpts o)) (wo_OnPeerRemoved (so_webrtcOpts o)).

(** Addresses and names of the server. *)
Definition mdns_address (o : options) : build TCPAddr :=
  match so_listenerAddress o with
  | Some a => mret a
  | None => match ev_Addr env with Some a => mret a | None => fail (ENew "expected *net.TCPAddr") end
  end.
Definition instance_names (o : options) (addr : TCPAddr) : build (list string) :=
  match so_instanceNames o with
  | [] => name ← lift (InstanceNameFromAddress (ta_String addr)); mret [name]
  | names => mret names
  end.

Definition errMixedUnauthAndAuth : goerror := ENew "cannot use unauthenticated and auth handlers at same time".

(** What NewServer does once the listener is open. *)
Definition make_server (o : options) : build rpcServer :=
  let tls := bool_decide (is_Some (so_tlsConfig o)) in
  leaf ← certificate_of o;
  '(keys, signer) ← setup_keys o;
  _ ← validate_keys keys;
  key ← signing_key o keys signer;
  credsKey ← lift (ev_Read env);
  let uuid := ev_NewString env in
  let payload := String.string_of_list_ascii (base64_encode credsKey) in
  let auth_services := if so_unauthenticated o then [] else [authService] in
  _ ← (if so_unauthenticated o then mret tt else register_gateway tls leaf authService);
  let to_services := match so_authToHandler o with Some _ => [externalAuthService] | None => [] end in
  _ ← (match so_authToHandler o with Some _ => register_gateway tls leaf externalAuthService | None => mret tt end);
  addr ← mdns_address o;
  instanceNames ← instance_names o addr;
  let audience := match so_authAudience o with [] => instanceNames | a => a end in
  issuer ← (if bool_decide (so_authIssuer o = EmptyString) then
              match audience with [] => panic | first :: _ => mret first end
            else mret (so_authIssuer o));
  let services := "grpc"%string :: (if wo_Enable (so_webrtcOpts o) then ["webrtc"%string] else []) in
  _ ← setup_mdns o addr services instanceNames;
  let webrtc := wo_Enable (so_webrtcOpts o) in
  let internal := webrtc && runs_internal_signaling o in
  _ ← (if internal then register_gateway tls leaf signalingService else mret tt);
  mdns ← announced;
  mret (mkRpcServer (auth_part o keys key uuid payload audience issuer) uuid payload instanceNames
      (interceptors (so_unauthenticated o) (bool_decide (is_Some (so_unaryInterceptor o))))
      (interceptors (so_unauthenticated o) (bool_decide (is_Some (so_streamInterceptor o))))
      (so_unknownStreamDesc o) (so_statsHandler o)
      (if webrtc then Some (webrtc_part o) else None)
      ((if webrtc then external_answerer o instanceNames else []) ++
       (if internal then [internal_answerer o leaf uuid payload instanceNames] else []))
      (if internal then Some (NewWebRTCSignalingServer false (internal_hosts o instanceNames)) else None)
      (auth_services ++ to_services ++ (if internal then [signalingService] else []))
      mdns false false).

(** [NewServer]. *)
Definition NewServer (opts : list (options -> options + goerror)) : held * outcome rpcServer :=
  let nothing := mkHeld false [] [] in
  match apply_options opts no_options with
  | inr err => (nothing, Fails err)
  | inl o =>
      if so_unauthenticated o && (negb (bool_decide (size (so_authHandlersForCreds o) = 0)) || bool_decide (is_Some (so_tlsAuthHandler o)))
      then (nothing, Fails errMixedUnauthAndAuth)
      else
        match ev_Listen env (bind_address o) with
        | Some err => (nothing, Fails err)
        | None => make_server o (mkHeld true [] [])
        end
  end.

(** ** The life of a server *)

Inductive action :=
  | ServeGRPC | ServeHTTPServer (secure : bool) | StartAnswerer (a : answererConf)
  | StopAnswerer (a : answererConf) | CloseSignaling | CloseQueue | CancelService (svc : string)
  | StopWebRTC | ShutdownMDNS (e : mdnsEntry) | ShutdownHTTP | WaitWorkers | StopGRPC.

Definition rs_set_stopped v (s : rpcServer) : rpcServer :=
  mkRpcServer (rs_auth s) (rs_internalUUID s) (rs_internalPayload s) (rs_instanceNames s) (rs_unary s) (rs_stream s)
    (rs_unknown s) (rs_statsHandler s) (rs_webrtc s) (rs_answerers s) (rs_signaling s) (rs_services s) (rs_mdns s) v (rs_locked s).
Definition rs_set_locked v (s : rpcServer) : rpcServer :=
  mkRpcServer (rs_auth s) (rs_internalUUID s) (rs_internalPayload s) (rs_instanceNames s) (rs_unary s) (rs_stream s)
    (rs_unknown s) (rs_statsHandler s) (rs_webrtc s) (rs_answerers s) (rs_signaling s) (rs_services s) (rs_mdns s) (rs_stopped s) v.
Definition rs_add_service svc (s : rpcServer) : rpcServer :=
  mkRpcServer (rs_auth s) (rs_internalUUID s) (rs_internalPayload s) (rs_instanceNames s) (rs_unary s) (rs_stream s)
    (rs_unknown s) (rs_statsHandler s) (rs_webrtc s) (rs_answerers s) (rs_signaling s) (rs_services s ++ [svc]) (rs_mdns s)
    (rs_stopped s) (rs_locked s).

(** [RegisterServiceServer] after the server was made; the handlers are given
    by what they return, the first error ends the loop. *)
Definition RegisterServiceServer (tls : bool) (leaf : option x509Certificate) (svc : string) (handlers : list (option goerror))
    (s : rpcServer) : option (rpcServer * outcome unit) :=
  if rs_locked s then None
  else
    let s' := rs_add_service svc s in
    let run := match omap id handlers with err :: _ => Fails err | [] => Done tt end in
    Some (s', match handlers with
              | [] => Done tt
              | _ => if tls then match leaf with Some (mkX509 _ (_ :: _)) => run | _ => Panics end else run
              end).

(** [Start]; [served] is what the goroutine of the gRPC server has reported when
    Start returns. [None]: the call waits for [mu] for ever. *)
Definition errServerStopped : goerror := ENew "server stopped".
Definition Start (served : option goerror) (s : rpcServer) : option (rpcServer * list action * option goerror) :=
  if rs_locked s then None
  else if rs_stopped s then Some (s, [], Some errServerStopped)
  else Some (s, ServeGRPC :: (StartAnswerer <$> rs_answerers s), served).

(** [serveTLS]; [http2] is the result of NewHTTP2Server, [reported] what the
    goroutine of the HTTP server has reported. *)
Definition combine2 (a b : option goerror) : option goerror := multierr_Combine (omap id [a; b]).
Definition serveTLS (certFile keyFile : string) (http2 reported served : option goerror) (s : rpcServer)
    : option (rpcServer * list action * option goerror) :=
  if rs_locked s then None
  else if rs_stopped s then Some (s, [], Some errServerStopped)
  else
    let secure := negb (bool_decide (certFile = EmptyString) && bool_decide (keyFile = EmptyString)) in
    match (if secure then None else http2) with
    | Some err => Some (rs_set_locked true s, [], Some err)
    | None =>
        match Start served s with
        | None => None
        | Some (s', acts, startErr) => Some (s', ServeHTTPServer secure :: acts, combine2 reported startErr)
        end
    end.
Definition Serve (http2 reported served : option goerror) := serveTLS EmptyString EmptyString http2 reported served.

(** [Stop]: the answerers, the parts between them and the HTTP server, the rest;
    the gRPC server is stopped by a deferred call. *)
Definition stop_parts (s : rpcServer) : list action :=
  (match rs_signaling s with Some _ => [CloseSignaling; CloseQueue] | None => [] end) ++
  (CancelService <$> rs_services s) ++
  (match rs_webrtc s with Some _ => [StopWebRTC] | None => [] end) ++
  (ShutdownMDNS <$> rs_mdns s).
Definition Stop (queueErr httpErr : option goerror) (s : rpcServer) : option (rpcServer * list action * option goerror) :=
  if rs_locked s then None
  else if rs_stopped s then Some (s, [], None)
  else
    Some (rs_set_stopped true s,
      (StopAnswerer <$> rs_answerers s) ++ stop_parts s ++ [ShutdownHTTP; WaitWorkers; StopGRPC],
      combine2 (match rs_signaling s with Some _ => queueErr | None => None end) httpErr).

(** ** Calls through a chain *)

(** What a unary call returns that enters a chain: recovery, logging and
    tracing hand it on; [user] is the configured interceptor, which is given the
    rest of the chain. *)
Fixpoint run_unary {R} (nil_response : R) (quote : string -> string) (ss : authState)
    (user : string -> callCtx D -> (callCtx D -> R + goerror) -> R + goerror) (method : string)
    (handler : callCtx D -> R + goerror) (chain : list interceptor) (ctx : callCtx D) : R + goerror :=
  match chain with
  | [] => handler ctx
  | i :: chain' =>
      let rest := run_unary nil_response quote ss user method handler chain' in
      match i with
      | IntRecovery | IntZap | IntTracing => rest ctx
      | IntCode => code_interceptor nil_response (rest ctx)
      | IntAuth => match authUnaryInterceptor ss quote method ctx with inl ctx' => rest ctx' | inr err => inr err end
      | IntUser => if bool_decide (method ∈ ss_exemptMethods ss) then rest ctx else user method ctx rest
      end
  end.
End Server.

(** ** Requests *)

(** What is looked at in a request; the first two are what grpcweb says. *)
Record httpRequest := mkHttpRequest {
  hr_isCors : bool; hr_isGrpcWeb : bool; hr_ProtoMajor : Z; hr_ContentType : string; hr_Host : string }.
Inductive requestType := requestTypeNone | requestTypeGRPC | requestTypeGRPCWeb.
Definition getRequestType (r : httpRequest) : requestType :=
  if hr_isCors r || hr_isGrpcWeb r then requestTypeGRPCWeb
  else if bool_decide (hr_ProtoMajor r = 2%Z) && String.prefix "application/grpc" (hr_ContentType r) then requestTypeGRPC
  else requestTypeNone.

(** [requestWithHost]: the host that the context gets, if any. *)
Fixpoint before_colon (s : string) : string :=
  match s with
  | EmptyString => EmptyString
  | String c s' => if Ascii.ascii_dec c ":"%char then EmptyString else String c (before_colon s')
  end.
Definition requestWithHost (r : httpRequest) : option string :=
  if bool_decide (hr_Host r = EmptyString) then None else Some (before_colon (hr_Host r)).

(** Who serves a request. *)
Inductive target := ToGRPC | ToGRPCWeb | ToGateway | ToBadRequest.
Definition GRPCHandler (r : httpRequest) : target * option string :=
  (match getRequestType r with requestTypeGRPC => ToGRPC | requestTypeGRPCWeb => ToGRPCWeb | requestTypeNone => ToBadRequest end,
   requestWithHost r).
Definition ServeHTTP (r : httpRequest) : target * option string :=
  (match getRequestType r with requestTypeGRPC => ToGRPC | requestTypeGRPCWeb => ToGRPCWeb | requestTypeNone => ToGateway end,
   requestWithHost r).
Definition GatewayHandler (r : httpRequest) : target * option string := (ToGateway, requestWithHost r).

(** [PeerConnectionInfoFromContext]; the context may have a peer of gRPC and a
    peer connection, of which the selected pair is read. *)
Inductive PeerConnectionType := PeerConnectionTypeUnknown | PeerConnectionTypeGRPC | PeerConnectionTypeWebRTC.
Record PeerConnectionInfo := mkPeerInfo { pi_ConnectionType : PeerConnectionType; pi_LocalAddress : string; pi_RemoteAddress : string }.
Definition PeerConnectionInfoFromContext (peer : option string) (pair : option (option (string * string))) : PeerConnectionInfo :=
  match peer with
  | Some addr => mkPeerInfo PeerConnectionTypeGRPC EmptyString addr
  | None =>
      match pair with
      | Some (Some (local, remote)) => mkPeerInfo PeerConnectionTypeWebRTC local remote
      | _ => mkPeerInfo PeerConnectionTypeUnknown EmptyString EmptyString
      end
  end.

(** ** Making: lemmas *)

Lemma bind_done {A B} (f : A -> build B) (m : build A) h h' b :
  (m ≫= f) h = (h', Done b) -> exists h1 a, m h = (h1, Done a) /\ f a h1 = (h', Done b).
Proof. cbv [mbind build_bind]. destruct (m h) as [h1 [a|err|]]; [|done|done]. eauto. Qed.
Lemma bind_fails {A B} (f : A -> build B) (m : build A) h h' err :
  (m ≫= f) h = (h', Fails err) -> m h = (h', Fails err) \/ exists h1 a, m h = (h1, Done a) /\ f a h1 = (h', Fails err).
Proof. cbv [mbind build_bind]. destruct (m h) as [h1 [a|e|]]; [eauto|intros [= -> ->]; by left|done]. Qed.
Lemma ret_done {A} (a b : A) h h' : (mret a : build A) h = (h', Done b) -> h' = h /\ b = a.
Proof. by intros [= -> ->]. Qed.
Lemma lift_done {A} (r : A + goerror) h h' a : lift r h = (h', Done a) -> h' = h /\ r = inl a.
Proof. destruct r; cbv [lift mret build_ret fail]; by intros [= -> ->]. Qed.
Lemma try_done e h h' u : try_ e h = (h', Done u) -> h' = h /\ e = None.
Proof. destruct e; cbv [try_ mret build_ret fail]; by intros [= -> _]. Qed.

(** Take a successful build apart. *)
Ltac build_inv H :=
  lazymatch type of H with
  | (_ ≫= _) _ = (_, Done _) =>
      let h := fresh "h" in let a := fresh "a" in let H1 := fresh "Hb" in
      apply bind_done in H as (h & a & H1 & H)
  | mret _ _ = (_, Done _) => apply ret_done in H as [-> ->]
  | lift _ _ = (_, Done _) => let H1 := fresh "Hb" in apply lift_done in H as [-> H1]
  | fail _ _ = (_, Done _) => discriminate H
  | panic _ = (_, Done _) => discriminate H
  end.

(** Only the gateway's registrations and the announcements change what is held,
    and they only add to it. *)
Definition grows (h h' : held) : Prop :=
  hd_listener h' = hd_listener h /\ hd_gateway h `prefix_of` hd_gateway h' /\ hd_mdns h `prefix_of` hd_mdns h'.
#[export] Instance grows_preorder : PreOrder grows.
Proof.
  split; [by intros h|]. intros h1 h2 h3 (Hl1 & ? & ?) (Hl2 & ? & ?). split_and!; [congruence|by etrans..].
Qed.
Definition growing {A} (m : build A) : Prop := forall h, grows h (m h).1.

Lemma growing_ret {A} (a : A) : growing (mret a).
Proof. by intros h. Qed.
Lemma growing_fail {A} err : growing (fail (A:=A) err).
Proof. by intros h. Qed.
Lemma growing_panic {A} : growing (panic (A:=A)).
Proof. by intros h. Qed.
Lemma growing_bind {A B} (m : build A) (f : A -> build B) : growing m -> (forall a, growing (f a)) -> growing (m ≫= f).
Proof.
  intros Hm Hf h. cbv [mbind build_bind]. specialize (Hm h). destruct (m h) as [h1 [a|err|]]; cbn in *; [|done|done].
  etrans; [done|apply Hf].
Qed.
Lemma growing_lift {A} (r : A + goerror) : growing (lift r).
Proof. by destruct r; intros h. Qed.
Lemma growing_try e : growing (try_ e).
Proof. by destruct e; intros h. Qed.
#[export] Hint Resolve growing_ret growing_fail growing_panic growing_lift growing_try growing_bind : goutils.

Section ServerLemmas.
Context {Key PrivKey D UI SI UH SH DOpt Hook Conf : Type} `{Jwt Key PrivKey}.
Implicit Types o : serverOptions (Key:=Key) (PrivKey:=PrivKey) (D:=D) (UI:=UI) (SI:=SI) (UH:=UH) (SH:=SH)
  (DOpt:=DOpt) (Hook:=Hook) (Conf:=Conf).
Context (env : serverEnv (Key:=Key) (PrivKey:=PrivKey)).

Lemma growing_register tls leaf svc : growing (register_gateway env tls leaf svc).
Proof.
  assert (Hh : forall h, grows h (match ev_gateway env svc with
    | Some err => (h, Fails (A:=unit) err)
    | None => (mkHeld (hd_listener h) (hd_gateway h ++ [svc]) (hd_mdns h), Done tt) end).1).
  { intros h. destruct (ev_gateway env svc); [done|]. by repeat split; [apply prefix_app_r|]. }
  intros h. unfold register_gateway. destruct tls; [|apply Hh]. destruct leaf as [[cn [|d ds]]|]; [done|apply Hh|done].
Qed.
Lemma growing_announce mk names : growing (announce env mk names).
Proof.
  induction names as [|name names IH]; intros h; [done|]. cbn. destruct (ev_Register env (mk name)); [done|].
  etrans; [|apply IH]. by repeat split; [|apply prefix_app_r].
Qed.
Lemma growing_announce_all mk hosts : growing (announce_all env mk hosts).
Proof. induction hosts as [|host hosts IH]; [apply growing_ret|]. apply growing_bind; [apply growing_announce|done]. Qed.
Lemma growing_certificate o : growing (certificate_of env o).
Proof.
  unfold certificate_of, first_certificate, certificate_leaf. destruct (so_tlsConfig o) as [c|]; [|apply growing_ret].
  apply growing_bind; [repeat case_match; auto with goutils|]. intros cert. apply growing_bind; [|auto with goutils].
  destruct cert; auto with goutils.
Qed.
Lemma growing_keys o : growing (setup_keys env o).
Proof. unfold setup_keys. repeat case_match; auto 6 with goutils. Qed.
Lemma growing_signing o keys id : growing (signing_key env o keys id).
Proof. unfold signing_key. repeat case_match; auto with goutils. Qed.
Lemma growing_mdns o addr services names : growing (setup_mdns env o addr services names).
Proof.
  unfold setup_mdns. repeat case_match; auto using growing_announce_all, growing_ret.
  repeat (apply growing_bind; [apply growing_lift|]; intros ?). apply growing_announce_all.
Qed.

(** NewServer never closes what it has opened. *)
Lemma growing_make o : growing (make_server env o).
Proof.
  unfold make_server. cbv zeta.
  apply growing_bind; [apply growing_certificate|]; intros leaf. apply growing_bind; [apply growing_keys|]; intros [keys signer].
  apply growing_bind; [apply growing_try|]; intros _. apply growing_bind; [apply growing_signing|]; intros key.
  apply growing_bind; [apply growing_lift|]; intros creds.
  apply growing_bind; [case_match; auto using growing_register with goutils|]; intros _.
  apply growing_bind; [case_match; auto using growing_register with goutils|]; intros _.
  apply growing_bind; [unfold mdns_address; repeat case_match; auto with goutils|]; intros addr.
  apply growing_bind; [unfold instance_names; repeat case_match; auto with goutils|]; intros names.
  apply growing_bind; [repeat case_match; auto with goutils|]; intros issuer.
  apply growing_bind; [apply growing_mdns|]; intros _.
  apply growing_bind; [case_match; auto using growing_register with goutils|]; intros _.
  apply growing_bind; [by intros h|]; intros mdns. apply growing_ret.
Qed.

(** What a server was made from. *)
Record made o (leaf : option x509Certificate) (keys : gmap string (authKey (Key:=Key) (PrivKey:=PrivKey)))
    (key : option (authKey (Key:=Key) (PrivKey:=PrivKey))) (names : list string) : Prop := {
  mo_unauth : so_unauthenticated o = true -> so_authHandlersForCreds o = ∅ /\ so_tlsAuthHandler o = None;
  mo_leaf : exists h1 h2, certificate_of env o h1 = (h2, Done leaf);
  mo_keys : exists h1 h2 signer, setup_keys env o h1 = (h2, Done (keys, signer)) /\
    if so_unauthenticated o then key = None else key = keys !! signer /\ is_Some key;
  mo_names : names <> [];
  mo_dns : is_Some (so_tlsConfig o) ->
    so_unauthenticated o = false \/ is_Some (so_authToHandler o) \/ wo_Enable (so_webrtcOpts o) && runs_internal_signaling o = true ->
    from_option xc_DNSNames [] leaf <> [];
}.

Lemma register_done tls leaf svc h h' u : register_gateway env tls leaf svc h = (h', Done u) ->
  tls = true -> from_option xc_DNSNames [] leaf <> [].
Proof. unfold register_gateway. intros Hr ->. by destruct leaf as [[cn [|d ds]]|]. Qed.

Lemma make_server_inv o h h' s :
  (so_unauthenticated o = true -> so_authHandlersForCreds o = ∅ /\ so_tlsAuthHandler o = None) ->
  make_server env o h = (h', Done s) ->
  exists leaf keys key names creds issuer,
    made o leaf keys key names /\
    let audience := match so_authAudience o with [] => names | a => a end in
    let payload := String.string_of_list_ascii (base64_encode creds) in
    let internal := wo_Enable (so_webrtcOpts o) && runs_internal_signaling o in
    issuer = (if bool_decide (so_authIssuer o = EmptyString) then default EmptyString (head audience) else so_authIssuer o) /\
    s = mkRpcServer (auth_part env o keys key (ev_NewString env) payload audience issuer) (ev_NewString env) payload names
      (interceptors (so_unauthenticated o) (bool_decide (is_Some (so_unaryInterceptor o))))
      (interceptors (so_unauthenticated o) (bool_decide (is_Some (so_streamInterceptor o))))
      (so_unknownStreamDesc o) (so_statsHandler o)
      (if wo_Enable (so_webrtcOpts o) then Some (webrtc_part o) else None)
      ((if wo_Enable (so_webrtcOpts o) then external_answerer o names else []) ++
       (if internal then [internal_answerer env o leaf (ev_NewString env) payload names] else []))
      (if internal then Some (NewWebRTCSignalingServer false (internal_hosts o names)) else None)
      ((if so_unauthenticated o then [] else [authService]) ++
       match so_authToHandler o with Some _ => [externalAuthService] | None => [] end ++
       (if internal then [signalingService] else []))
      (hd_mdns h') false false.
Proof.
  intros Hun Hm. unfold make_server in Hm. cbv zeta in Hm.
  apply bind_done in Hm as (h1 & leaf & Hleaf & Hm). apply bind_done in Hm as (h2 & [keys signer] & Hkeys & Hm).
  apply bind_done in Hm as (h3 & [] & _ & Hm). apply bind_done in Hm as (h4 & key & Hkey & Hm).
  apply bind_done in Hm as (h5 & creds & _ & Hm). apply bind_done in Hm as (h6 & [] & Hr1 & Hm).
  apply bind_done in Hm as (h7 & [] & Hr2 & Hm). apply bind_done in Hm as (h8 & addr & _ & Hm).
  apply bind_done in Hm as (h9 & names & Hnames & Hm). apply bind_done in Hm as (h10 & issuer & Hiss & Hm).
  apply bind_done in Hm as (h11 & [] & _ & Hm). apply bind_done in Hm as (h12 & [] & Hr3 & Hm).
  apply bind_done in Hm as (h13 & mdns & [= -> <-] & Hm). apply ret_done in Hm as [-> Hs].
  exists leaf, keys, key, names, creds, issuer. split; [|split].
  - split; [done|..].
    + by eexists _, _.
    + exists h1, h2, signer. split; [done|]. unfold signing_key in Hkey. destruct (so_unauthenticated o).
      * by apply ret_done in Hkey as [_ ->].
      * destruct (keys !! signer) as [k|]; [|done]. apply ret_done in Hkey as [_ ->]. by eexists.
    + unfold instance_names in Hnames. destruct (so_instanceNames o); [|by apply ret_done in Hnames as [_ ->]].
      apply bind_done in Hnames as (? & n & _ & Hn). by apply ret_done in Hn as [_ ->].
    + intros Htls Hany. apply (bool_decide_eq_true_2 _) in Htls.
      destruct Hany as [Hu|[[f Hf]|Hi]]; [rewrite Hu in Hr1; by eapply register_done|
        rewrite Hf in Hr2; by eapply register_done|rewrite Hi in Hr3; by eapply register_done].
  - destruct (bool_decide (so_authIssuer o = EmptyString)); [|by apply ret_done in Hiss as [_ ->]].
    destruct (match so_authAudience o with [] => names | a => a end); [done|]. by apply ret_done in Hiss as [_ ->].
  - done.
Qed.

Lemma NewServer_inv opts h s : NewServer env opts = (h, Done s) ->
  exists o, apply_options opts no_options = inl o /\ ev_Listen env (bind_address o) = None /\
    (so_unauthenticated o = true -> so_authHandlersForCreds o = ∅ /\ so_tlsAuthHandler o = None) /\
    make_server env o (mkHeld true [] []) = (h, Done s).
Proof.
  unfold NewServer. destruct (apply_options opts no_options) as [o|err]; [|done].
  destruct (so_unauthenticated o && _) eqn:Hmix; [done|].
  destruct (ev_Listen env (bind_address o)) eqn:Hl; [done|]. intros Hm. exists o. split_and!; try done.
  intros Hu. rewrite Hu in Hmix. cbn in Hmix. apply orb_false_iff in Hmix as [Hs Ht].
  apply negb_false_iff, bool_decide_eq_true in Hs. apply bool_decide_eq_false in Ht.
  split; [by apply map_size_empty_inv|by apply eq_None_not_Some].
Qed.

(** The key that signs is one of the server's keys, under its identifier, with
    its public half. *)
Lemma setup_keys_ok o h h' keys signer k : options_ok o -> setup_keys env o h = (h', Done (keys, signer)) ->
  keys !! signer = Some k ->
  exists m priv, k = mkAuthKey signer (Some m) (Some priv) (Some (public_of priv)) /\ m ∈ key_methods.
Proof.
  intros Hok Hs Hk. pose proof (ok_keys o Hok) as Hkeys. unfold setup_keys in Hs.
  destruct (bool_decide (size (so_authKeys o) = 0)).
  - destruct (negb _); [by build_inv Hs|]. destruct (so_unauthenticated o).
    + apply ret_done in Hs as [_ [= -> ->]]. by rewrite lookup_empty in Hk.
    + apply bind_done in Hs as (h1 & priv & _ & Hs). apply ret_done in Hs as [_ [= -> ->]].
      rewrite lookup_singleton_eq in Hk. injection Hk as <-. eexists _, priv. split; [done|]. set_solver.
  - assert (Hin : keys = so_authKeys o).
    { destruct (bool_decide (so_jwtSignerKeyID o = EmptyString)); [|by apply ret_done in Hs as [_ [= -> ->]]].
      destruct (map_to_list _) as [|[i f] [|]]; [by build_inv Hs| |by build_inv Hs].
      destruct (bool_decide _); [by build_inv Hs|]. by apply ret_done in Hs as [_ [= -> ->]]. }
    subst keys. eauto.
Qed.
End ServerLemmas.

(** ** Properties *)

Section Properties.
Context {Key PrivKey D UI SI UH SH DOpt Hook Conf : Type} `{Jwt Key PrivKey} `{Multierr goerror} `{GrpcStatus}.
Abbreviation options := (serverOptions (Key:=Key) (PrivKey:=PrivKey) (D:=D) (UI:=UI) (SI:=SI) (UH:=UH) (SH:=SH)
  (DOpt:=DOpt) (Hook:=Hook) (Conf:=Conf)).
Implicit Types (o : options) (opts : list (options -> options + goerror)).
Context (env : serverEnv (Key:=Key) (PrivKey:=PrivKey)).

(** The chain over WebRTC is the other one without authentication. *)
Lemma webrtc_chain unauthenticated user :
  webrtc_interceptors (auth_position unauthenticated) (interceptors unauthenticated user) = interceptors true user.
Proof. destruct unauthenticated, user; vm_compute; reflexivity. Qed.

(** A server that was made has what its operations rely on: names and an
    audience that are not empty, an issuer that is the one of the options or the
    first of the audience, an open listener, and announcements it knows of. The
    internal signaling service runs exactly when WebRTC is enabled and it was
    asked for or no external signaling server was given; then there is an
    answerer for it. *)
Theorem server_is_configured opts h (s : rpcServer) : NewServer env opts = (h, Done s) ->
  exists o, apply_options opts no_options = inl o /\
    rs_instanceNames s <> [] /\ ss_authAudience (rs_auth s) <> [] /\
    ss_authIssuer (rs_auth s) = (if bool_decide (so_authIssuer o = EmptyString)
                                 then default EmptyString (head (ss_authAudience (rs_auth s))) else so_authIssuer o) /\
    hd_listener h = true /\ hd_mdns h = rs_mdns s /\ rs_stopped s = false /\ rs_locked s = false /\
    (is_Some (rs_signaling s) <-> wo_Enable (so_webrtcOpts o) = true /\
       (wo_EnableInternalSignaling (so_webrtcOpts o) = true \/ wo_ExternalSignalingAddress (so_webrtcOpts o) = EmptyString)) /\
    (is_Some (rs_signaling s) -> signalingService ∈ rs_services s /\
       exists a, a ∈ rs_answerers s /\ aa_address a = ev_AddrString env).
Proof.
  intros (o & Ho & _ & Hun & Hm)%NewServer_inv. exists o. split; [done|].
  pose proof (growing_make env o (mkHeld true [] [])) as (Hl & _ & _). rewrite Hm in Hl; cbn in Hl.
  destruct (make_server_inv env o _ _ _ Hun Hm) as (leaf & keys & key & names & creds & issuer & Hmade & Hiss & ->).
  destruct Hmade as [_ _ _ Hne _]. cbn. unfold runs_internal_signaling. split_and!; try done.
  - by destruct (so_authAudience o).
  - destruct (wo_Enable (so_webrtcOpts o)); cbn; [|split; [by intros [? ?]|by intros [? ?]]].
    destruct (wo_EnableInternalSignaling (so_webrtcOpts o)); cbn; [split; [by auto|by eexists]|].
    clear. case_bool_decide; [split; [by auto|by eexists]|]. split; [by intros [? ?]|]. by intros [_ [?|?]].
  - destruct (wo_Enable _ && _); [|by intros [? ?]]. intros _. split; [set_solver|].
    eexists (internal_answerer _ _ _ _ _ _). split; [|done]. apply elem_of_app. right. by apply list_elem_of_singleton.
Qed.


(** The handler of the internal credentials accepts exactly them. *)
Lemma internal_handler uuid payload : exists f : AuthHandler, MakeSimpleAuthHandler [uuid] payload = Some f /\
  f uuid payload = inl ∅ /\ forall e p md, f e p = inl md -> e = uuid /\ p = payload.
Proof.
  eexists. split; [reflexivity|]. cbn. split.
  - unfold MakeEntitiesChecker; cbn. by rewrite !(bool_decide_eq_true_2 (_ = _)) by done.
  - intros e p md. unfold MakeEntitiesChecker; cbn. destruct (bool_decide (e = uuid)) eqn:He; cbn; [|done].
    destruct (bool_decide (p = payload)) eqn:Hp; cbn; [|done]. breflect. done.
Qed.

(** C15: The credentials that the internal answerer is given are accepted by the
    server itself, nobody else is accepted for their type, and the token it gets
    for them authenticates it: the server knows its own key. *)
Theorem internal_answerer_authenticates `{!JwtLaws Key PrivKey} opts h (s : rpcServer) quote now id ctx md :
  Forall package_option opts -> NewServer env opts = (h, Done s) -> authService ∈ rs_services s ->
  let login := fun entity payload =>
    Authenticate (rs_auth s) quote now id ctx entity (Some (credentialsTypeInternal, payload)) in
  (is_Some (rs_signaling s) -> exists a, a ∈ rs_answerers s /\
     DialEntityCredentials (rs_internalUUID s) credentialsTypeInternal (rs_internalPayload s) ∈ aa_dialOpts a) /\
  (cx_md ctx = Some md -> md !! MetadataFieldAuthorization = None ->
     login (rs_internalUUID s) (rs_internalPayload s) =
     signAccessTokenForEntity (rs_auth s) now id credentialsTypeInternal (ss_authAudience (rs_auth s)) (rs_internalUUID s) ∅) /\
  (forall entity payload tok, login entity payload = inl tok -> entity = rs_internalUUID s /\ payload = rs_internalPayload s) /\
  (forall tok ctx2 md2, login (rs_internalUUID s) (rs_internalPayload s) = inl tok ->
     rs_internalUUID s <> EmptyString -> ss_ensureAuthedHandler (rs_auth s) = None ->
     (exists aud, aud ∈ ss_authAudience (rs_auth s) /\ aud <> EmptyString) ->
     (forall c, cl_IssuedAt c = now -> claims_Valid c = None) ->
     cx_md ctx2 = Some md2 -> md2 !! MetadataFieldAuthorization = Some [(AuthorizationValuePrefixBearer +:+ tok)%string] ->
     ensureAuthed (rs_auth s) quote ctx2 = inl (ContextWithAuthEntity (mkEntityInfo (rs_internalUUID s) None) ctx2)).
Proof.
  intros Hpo (o & Ho & _ & Hun & Hm)%NewServer_inv Hsvc.
  pose proof (apply_options_ok _ _ _ Hpo Ho no_options_ok) as Hok.
  destruct (make_server_inv env o _ _ _ Hun Hm) as (leaf & keys & key & names & creds & issuer & Hmade & _ & ->).
  set (payload := String.string_of_list_ascii (base64_encode creds)) in *. set (uuid := ev_NewString env) in *.
  cbn in Hsvc. destruct (so_unauthenticated o) eqn:Hu.
  { exfalso. clear -Hsvc. destruct (so_authToHandler o), (wo_Enable _ && _); set_solver. }
  destruct Hmade as [_ _ (h1 & h2 & signer & Hkeys & Hkey) _ _]. rewrite Hu in Hkey. destruct Hkey as [Hkey [k Hk]].
  subst key. destruct (setup_keys_ok env o _ _ _ _ k Hok Hkeys Hk) as (m & priv & Hkd & Hmeth).
  destruct (internal_handler uuid payload) as (f & Hf & Hyes & Honly). cbn.
  set (ss := auth_part env o keys (keys !! signer) uuid payload _ issuer).
  assert (Hh : ss_authHandlersForCreds ss !! credentialsTypeInternal = Some (mkHandlers (Some f) None None)).
  { cbn. unfold cred_handlers. rewrite Hu, lookup_insert_eq. by rewrite Hf. }
  assert (Hkid : ss_authKeys ss !! ss_signingKeyID ss =
    Some (mkKeyData (Some (ss_signingMethod ss)) (public_of (ss_signingKey ss)))).
  { cbn. rewrite lookup_fmap, Hk, Hkd; cbn. by rewrite Hk, Hkd; cbn. }
  assert (Hlogin : forall entity p, Authenticate ss quote now id ctx entity (Some (credentialsTypeInternal, p)) =
    match cx_md ctx with
    | None => inr (ENew "expected metadata")
    | Some md =>
        match md_Get md MetadataFieldAuthorization with
        | _ :: _ => inr (EStatus InvalidArgument "already authenticated; cannot re-authenticate")
        | [] =>
            match f entity p with
            | inr err => if snd (status_FromError (Some err)) then inr err
                         else inr (EStatus PermissionDenied ("failed to authenticate: " +:+ Error err)%string)
            | inl authMD => signAccessTokenForEntity ss now id credentialsTypeInternal (ss_authAudience ss) entity authMD
            end
        end
    end).
  { intros entity p. unfold Authenticate, authHandlers. by rewrite Hh. }
  split_and!.
  - intros Hsig. destruct (wo_Enable _ && _); [|by destruct Hsig].
    exists (internal_answerer env o leaf uuid payload names). split; [set_solver|]. cbn. rewrite Hu. set_solver.
  - intros Hmd Hno. rewrite Hlogin, Hmd. unfold md_Get. rewrite Hno. cbn. by rewrite Hyes.
  - intros entity p tok. rewrite Hlogin. destruct (cx_md ctx); [|done]. destruct (md_Get _ _); [|done].
    destruct (f entity p) as [md'|err] eqn:Hfe; [|by destruct (snd _)]. intros _. by eapply Honly.
  - intros tok ctx2 md2 Htok Hne He Haud Hval Hmd2 Hb.
    refine (token_authenticates ss quote now id ctx uuid credentialsTypeInternal payload tok _ ctx2 md2 Htok Hne He Hh
      eq_refl eq_refl Hkid _ Haud Hval Hmd2 Hb).
    cbn. rewrite Hk, Hkd; cbn. clear -Hmeth. unfold key_methods in Hmeth. set_solver.
Qed.

(** A server is only made with a TLS configuration whose certificate has a DNS
    name, if it has a service with a gateway handler: otherwise NewServer does
    not return an error, it panics. *)
Theorem tls_server_needs_dns_name opts h (s : rpcServer) :
  NewServer env opts = (h, Done s) -> rs_services s <> [] ->
  exists o, apply_options opts no_options = inl o /\ (is_Some (so_tlsConfig o) ->
    exists h1 h2 leaf, certificate_of env o h1 = (h2, Done (Some leaf)) /\ xc_DNSNames leaf <> []).
Proof.
  intros (o & Ho & _ & Hun & Hm)%NewServer_inv Hsvc. exists o. split; [done|]. intros Htls.
  destruct (make_server_inv env o _ _ _ Hun Hm) as (leaf & keys & key & names & creds & issuer & Hmade & _ & ->).
  destruct Hmade as [_ (h1 & h2 & Hc) _ _ Hdns]. apply Hdns in Htls as Hne.
  - destruct leaf as [leaf|]; [|done]. by exists h1, h2, leaf.
  - cbn in Hsvc. destruct (so_unauthenticated o); [|by left]. right.
    destruct (so_authToHandler o) as [f|]; [left; by eexists|]. right. by destruct (wo_Enable _ && _).
Qed.

(** When NewServer fails after it has opened its listener, the listener stays
    open: only an option, mixed authentication or the listener itself failing
    leaves nothing behind. *)
Theorem failed_server_keeps_listener opts h err :
  NewServer env opts = (h, Fails err) ->
  hd_listener h = true \/
  h = mkHeld false [] [] /\
  (apply_options opts no_options = inr err \/
   exists o, apply_options opts no_options = inl o /\
     (err = errMixedUnauthAndAuth /\ so_unauthenticated o = true \/ ev_Listen env (bind_address o) = Some err)).
Proof.
  unfold NewServer. destruct (apply_options opts no_options) as [o|e] eqn:Ho.
  2: { intros [= <- <-]. auto. }
  destruct (so_unauthenticated o && _) eqn:Hmix.
  { intros [= <- <-]. right. split; [done|]. right. exists o. split; [done|]. left. by apply andb_true_iff in Hmix as [-> _]. }
  destruct (ev_Listen env (bind_address o)) eqn:Hl.
  { intros [= <- <-]. right. split; [done|]. right. exists o. auto. }
  intros Hm. left. pose proof (growing_make env o (mkHeld true [] [])) as (Hgl & _). by rewrite Hm in Hgl.
Qed.

(** ** The life of a server *)

(** Stop releases everything the server has, once, in an order in which nothing
    is used after it is gone: the answerers stop before the signaling service
    they answer through, that before its queue, the services and the WebRTC
    server before the HTTP and the gRPC server. A second Stop does nothing, and
    neither Start nor serving does anything afterwards. *)
Theorem stop_releases_everything `{!MultierrLaws goerror} (s s' : rpcServer (Key:=Key) (PrivKey:=PrivKey) (D:=D) (UH:=UH) (SH:=SH) (DOpt:=DOpt) (Hook:=Hook) (Conf:=Conf))
    queueErr httpErr acts err :
  rs_stopped s = false -> Stop queueErr httpErr s = Some (s', acts, err) ->
  (exists mid, acts = (StopAnswerer <$> rs_answerers s) ++ mid ++ [ShutdownHTTP; WaitWorkers; StopGRPC] /\
     (is_Some (rs_signaling s) -> exists rest, mid = CloseSignaling :: CloseQueue :: rest) /\
     (forall svc, CancelService svc ∈ mid <-> svc ∈ rs_services s) /\
     (StopWebRTC ∈ mid <-> is_Some (rs_webrtc s)) /\
     (forall e, ShutdownMDNS e ∈ mid <-> e ∈ rs_mdns s)) /\
  (queueErr = None -> httpErr = None -> err = None) /\
  Stop queueErr httpErr s' = Some (s', [], None) /\
  (forall served, Start served s' = Some (s', [], Some errServerStopped)) /\
  (forall c k h2 r served, serveTLS c k h2 r served s' = Some (s', [], Some errServerStopped)).
Proof.
  unfold Stop. destruct (rs_locked s) eqn:Hl; [done|]. intros Hs. rewrite Hs. intros [= <- <- <-].
  split; [|split_and!].
  - exists (stop_parts s). split; [done|]. unfold stop_parts.
    repeat setoid_rewrite elem_of_app. repeat setoid_rewrite list_elem_of_fmap. split_and!.
    + intros [x Hx]. rewrite Hx. by eexists.
    + intros svc. destruct (rs_signaling s), (rs_webrtc s); set_solver.
    + destruct (rs_signaling s), (rs_webrtc s) as [w|]; split; try (intros [? ?]; done); try (intros; by eexists); set_solver.
    + intros e. destruct (rs_signaling s), (rs_webrtc s); set_solver.
  - intros -> ->. unfold combine2. destruct (rs_signaling s); apply Combine_nil.
  - cbn. by rewrite Hl.
  - intros served. unfold Start; cbn. by rewrite Hl.
  - intros. unfold serveTLS; cbn. by rewrite Hl.
Qed.

(** Serving in plaintext fails with the lock held when the HTTP/2 server cannot
    be made: no operation of the server returns afterwards, Stop included. *)
Theorem failed_serve_blocks_forever (s s' : rpcServer (Key:=Key) (PrivKey:=PrivKey) (D:=D) (UH:=UH) (SH:=SH) (DOpt:=DOpt) (Hook:=Hook) (Conf:=Conf))
    err reported served acts e :
  rs_stopped s = false -> Serve (Some err) reported served s = Some (s', acts, e) ->
  acts = [] /\ e = Some err /\
  (forall queueErr httpErr, Stop queueErr httpErr s' = None) /\ (forall served, Start served s' = None) /\
  (forall c k h2 r served, serveTLS c k h2 r served s' = None) /\
  (forall tls leaf svc hs, RegisterServiceServer tls leaf svc hs s' = None).
Proof.
  unfold Serve, serveTLS. destruct (rs_locked s) eqn:Hl; [done|]. intros ->. rewrite bool_decide_eq_true_2 by done. cbn.
  by intros [= <- <- <-].
Qed.

(** The code interceptor lets responses and errors with a status through, and
    gives every other error the status of the context error it wraps, or
    Unknown: a caller never sees an error without a code. *)
Theorem code_interceptor_gives_status `{!GrpcStatusLaws} {R} (nil_response : R) (res : R + goerror) :
  match res with
  | inl r => code_interceptor nil_response res = inl r
  | inr err =>
      if snd (status_FromError (Some err)) then code_interceptor nil_response res = inr err
      else exists msg, code_interceptor nil_response res =
        inr (EStatus (if errors_Is err DeadlineExceeded then CodeDeadlineExceeded
                      else if errors_Is err Canceled then CodeCanceled else Unknown) msg)
  end.
Proof.
  destruct res as [r|err]; [done|]. unfold code_interceptor. destruct (snd _); [done|].
  assert (Hcode : status_Code (status_FromContextError (Some err)) =
    if errors_Is err DeadlineExceeded then CodeDeadlineExceeded else if errors_Is err Canceled then CodeCanceled else Unknown).
  { destruct (errors_Is err DeadlineExceeded) eqn:Hd; [by apply FromContextError_deadline|].
    destruct (errors_Is err Canceled) eqn:Hc; [by apply FromContextError_canceled|by apply FromContextError_other]. }
  destruct (status_FromContextError (Some err)) as [[c m]|]; cbn in Hcode.
  - exists m. subst c. cbn. by destruct (errors_Is err DeadlineExceeded), (errors_Is err Canceled).
  - by destruct (errors_Is err DeadlineExceeded), (errors_Is err Canceled).
Qed.
End Properties.

(** ** A server *)

Module ServerExample.
Import SimpleErrors OneToken.

Abbreviation sampleOptions := (serverOptions (Key:=nat) (PrivKey:=nat) (D:=nat) (UI:=unit) (SI:=unit) (UH:=unit) (SH:=unit)
  (DOpt:=unit) (Hook:=unit) (Conf:=unit)).
Abbreviation sampleServer := (rpcServer (Key:=nat) (PrivKey:=nat) (D:=nat) (UH:=unit) (SH:=unit) (DOpt:=unit) (Hook:=unit) (Conf:=unit)).

(** A network in which one name cannot be announced and a service cannot be
    registered, with a certificate without DNS names. *)
Definition network (no_name no_service : string) : serverEnv (Key:=nat) (PrivKey:=nat) :=
  mkServerEnv id (fun _ => None) (Some (mkTCPAddr true 8080 "127.0.0.1:8080")) "127.0.0.1:8080"
    (fun _ => inl (mkX509 "here" [])) (inl 3) (fun _ => "key1"%string) (inl [Byte.x01]) "internal-uuid" "some-uuid"
    (fun svc => if bool_decide (svc = no_service) then Some (ENew "no gateway") else None)
    (fun addr => inl addr) (fun _ => true) (inl "host"%string) (inl [mkIface true true "lo"])
    (fun e => if bool_decide (md_host e = no_name) then Some (ENew "no mdns") else None) 0 0.
Definition webrtc : WebRTCServerOptions (DOpt:=unit) (Hook:=unit) (Conf:=unit) := mkWebRTC true [] EmptyString false [] [] None None None.
Definition opts : list (sampleOptions -> sampleOptions + goerror) :=
  [WithInstanceNames ["a.b"; "c"]; WithWebRTCServerOptions webrtc; WithPublicMethods ["/public"]]%string.
Definition tls_opts : list (sampleOptions -> sampleOptions + goerror) :=
  [WithInternalTLSConfig (mkTLSConfig [[[Byte.x01]]] None 0)].

Definition made_with (no_name no_service : string) : held * outcome sampleServer := NewServer (network no_name no_service) opts.
Definition default_server : sampleServer :=
  match (made_with EmptyString EmptyString).2 with
  | Done s => s
  | _ => mkRpcServer server EmptyString EmptyString [] [] [] None None None [] None [] [] true false
  end.
Definition default_held : held := (made_with EmptyString EmptyString).1.
Lemma default_made : NewServer (network EmptyString EmptyString) opts = (default_held, Done default_server).
Proof. vm_compute. reflexivity. Qed.

Definition user (method : string) (ctx : callCtx nat) (h : callCtx nat -> nat + goerror) : nat + goerror := h ctx.
Definition handler (ctx : callCtx nat) : nat + goerror := inl 5.

(** With a certificate without DNS names NewServer panics. *)
Lemma certificate_without_dns_name_panics : (NewServer (network EmptyString EmptyString) tls_opts).2 = Panics (A:=sampleServer).
Proof. vm_compute. reflexivity. Qed.

(** A name that cannot be announced does not disable mDNS: the names that follow
    are announced. *)
Lemma mdns_goes_on_after_an_error : md_host <$> hd_mdns (made_with "a.b" EmptyString).1 = ["c"; "c"]%string.
Proof. vm_compute. reflexivity. Qed.

(** A server that fails late has its listener and its announcements open. *)
Lemma late_failure_leaks :
  (made_with EmptyString signalingService).2 = Fails (ENew "no gateway") /\
  hd_listener (made_with EmptyString signalingService).1 = true /\
  md_host <$> hd_mdns (made_with EmptyString signalingService).1 = ["a.b"; "a-b"; "c"; "c"]%string.
Proof. vm_compute. by repeat split. Qed.

(** An address without a host gets no UUID for a name. *)
Lemma empty_address_is_its_own_name env :
  ev_ParseIP env EmptyString = false -> InstanceNameFromAddress (Key:=nat) (PrivKey:=nat) env EmptyString = inl EmptyString.
Proof. intros Hp. unfold InstanceNameFromAddress. cbn. by rewrite Hp. Qed.

(** The host of an IPv6 address is cut at its first colon. *)
Lemma ipv6_host_is_cut : requestWithHost (mkHttpRequest false false 2 EmptyString "[::1]:8080") = Some "["%string.
Proof. reflexivity. Qed.

Lemma server_is_configured_witness :
  rs_instanceNames default_server <> [] /\ hd_mdns default_held = rs_mdns default_server.
Proof.
  destruct (server_is_configured (network EmptyString EmptyString) opts default_held default_server default_made)
    as (o & _ & Hn & _ & _ & _ & Hm & _). exact (conj Hn Hm).
Defined.


Lemma internal_answerer_authenticates_witness :
  exists a, a ∈ rs_answerers default_server /\
    DialEntityCredentials (rs_internalUUID default_server) credentialsTypeInternal (rs_internalPayload default_server) ∈ aa_dialOpts a.
Proof.
  destruct (internal_answerer_authenticates (network EmptyString EmptyString) opts default_held default_server id 7 "id" ctx_login ∅)
    as (Ha & _).
  - repeat constructor.
  - exact default_made.
  - apply (bool_decide_eq_true_1 (_ ∈ _)). vm_compute. reflexivity.
  - apply Ha. vm_compute. by eexists.
Defined.

Lemma tls_server_needs_dns_name_witness :
  exists o, apply_options opts no_options = inl o /\ so_tlsConfig o = None.
Proof.
  destruct (tls_server_needs_dns_name (network EmptyString EmptyString) opts default_held default_server default_made) as (o & Ho & _).
  - vm_compute. discriminate.
  - exists o. split; [exact Ho|]. revert Ho. vm_compute. by intros [= <-].
Defined.

Lemma failed_server_keeps_listener_witness : hd_listener (made_with EmptyString signalingService).1 = true.
Proof.
  destruct (failed_server_keeps_listener (network EmptyString signalingService) opts (made_with EmptyString signalingService).1
    (ENew "no gateway")) as [Hl|[Hn _]].
  - vm_compute. reflexivity.
  - exact Hl.
  - vm_compute in Hn. discriminate.
Defined.

Lemma stop_releases_everything_witness :
  exists s' acts err, Stop None None default_server = Some (s', acts, err) /\ err = None /\
    Stop None None s' = Some (s', [], None).
Proof.
  destruct (stop_releases_everything default_server (rs_set_stopped true default_server) None None
    ((StopAnswerer <$> rs_answerers default_server) ++ stop_parts default_server ++ [ShutdownHTTP; WaitWorkers; StopGRPC]) None)
    as (_ & He & Hs & _).
  - reflexivity.
  - vm_compute. reflexivity.
  - eexists _, _, None. split; [|split; [reflexivity|exact Hs]]. vm_compute. reflexivity.
Defined.

Lemma failed_serve_blocks_forever_witness :
  Stop None None (rs_set_locked true default_server) = None.
Proof.
  destruct (failed_serve_blocks_forever default_server (rs_set_locked true default_server) (ENew "http2") None None [] (Some (ENew "http2")))
    as (_ & _ & Hs & _); [vm_compute; reflexivity..|]. apply Hs.
Defined.

Lemma code_interceptor_gives_status_witness :
  exists msg, code_interceptor 0 (inr (EWrap "call" DeadlineExceeded)) = inr (EStatus CodeDeadlineExceeded msg).
Proof. exact (code_interceptor_gives_status 0 (inr (EWrap "call" DeadlineExceeded))). Defined.
End ServerExample.
