(* ===== verification/ProcessConfig.v ===== *)
(** * Configurations of processes: [pexec/process.go] and NewManagedProcess

    Validation with its cache, the JSON form, equality, and the settings that a
    managed process gets. The JSON library fills and reads [configData]; the
    text of a duration is an argument. *)

From S2P Require Import Prelude GoError ManagedProcess.
Open Scope Z_scope.

(** [syscall.Signal.String] on Linux; [itoa] writes a number. *)
Definition signal_names : list string :=
  [EmptyString; "hangup"; "interrupt"; "quit"; "illegal instruction"; "trace/breakpoint trap"; "aborted"; "bus error";
   "floating point exception"; "killed"; "user defined signal 1"; "segmentation fault"; "user defined signal 2";
   "broken pipe"; "alarm clock"; "terminated"]%string.
Definition Signal_String (itoa : Z -> string) (s : Z) : string :=
  match (if bool_decide (0 <= s) then signal_names !! Z.to_nat s else None) with
  | Some (String c name) => String c name
  | _ => "signal " +:+ itoa s
  end.

(** The environment of a managed process: in it the last value of a key counts. *)
Definition process_env (environ : list (string * string)) (order : list (string * string)) : list (string * string) := environ ++ order.
Definition env_lookup (env : list (string * string)) (key : string) : option string :=
  foldl (fun acc kv => if bool_decide (kv.1 = key) then Some kv.2 else acc) None env.

Section Config.
(** Writers and callbacks; whether two writers are deeply equal; the verbs of
    fmt; the text of a duration. *)
Context {Writer Callback : Type} (writer_equal : Writer -> Writer -> bool)
  (quote : string -> string) (itoa : Z -> string)
  (ParseDuration : string -> Z + goerror) (Duration_String : Z -> string).

(** [ProcessConfig]; a slice or map may be nil. Durations in nanoseconds. *)
Record processConfig := mkProcessConfig {
  pc_ID : string; pc_Name : string; pc_Args : option (list string); pc_CWD : string; pc_OneShot : bool; pc_Username : string;
  pc_Environment : option (gmap string string); pc_Log : bool;
  pc_LogWriter : option Writer; pc_StopSignal : Z; pc_StopTimeout : Z; pc_OnUnexpectedExit : option Callback;
  pc_alreadyValidated : bool; pc_cachedErr : option goerror;
}.
Definition pc_set_cache (v : bool) (e : option goerror) (c : processConfig) : processConfig :=
  mkProcessConfig (pc_ID c) (pc_Name c) (pc_Args c) (pc_CWD c) (pc_OneShot c) (pc_Username c) (pc_Environment c) (pc_Log c)
    (pc_LogWriter c) (pc_StopSignal c) (pc_StopTimeout c) (pc_OnUnexpectedExit c) v e.

(** [validate], [Validate]. *)
Definition millisecond : Z := 10 ^ 6.
Definition validate (path : string) (c : processConfig) : option goerror :=
  if bool_decide (pc_ID c = EmptyString) then Some (NewConfigValidationFieldRequiredError quote path "id")
  else if bool_decide (pc_Name c = EmptyString) then Some (NewConfigValidationFieldRequiredError quote path "name")
  else if (pc_StopTimeout c <? 100 * millisecond) && negb (pc_StopTimeout c =? 0) then
    Some (NewConfigValidationError quote path (ENew "stop_timeout should not be less than 100ms"))
  else None.
Definition Validate (path : string) (c : processConfig) : processConfig * option goerror :=
  if pc_alreadyValidated c then (c, pc_cachedErr c)
  else (pc_set_cache true (validate path c) c, validate path c).

(** [configData]. *)
Record configData := mkConfigData {
  cd_ID : string; cd_Name : string; cd_Args : option (list string); cd_CWD : string; cd_OneShot : bool; cd_Username : string;
  cd_Environment : option (gmap string string); cd_Log : bool; cd_StopSignal : string; cd_StopTimeout : string;
}.

(** [UnmarshalJSON] on what the JSON library reads. *)
Definition UnmarshalJSON (temp : configData + goerror) : processConfig + goerror :=
  match temp with
  | inr err => inr err
  | inl t =>
      match (if bool_decide (cd_StopTimeout t = EmptyString) then inl 0 else ParseDuration (cd_StopTimeout t)) with
      | inr err => inr err
      | inl dur =>
          match parseSignal quote (cd_StopSignal t) with
          | inr err => inr err
          | inl sig =>
              inl (mkProcessConfig (cd_ID t) (cd_Name t) (cd_Args t) (cd_CWD t) (cd_OneShot t) (cd_Username t) (cd_Environment t)
                     (cd_Log t) None sig dur None false None)
          end
      end
  end.

(** [MarshalJSON], as what the JSON library is given. *)
Definition MarshalJSON (c : processConfig) : configData :=
  mkConfigData (pc_ID c) (pc_Name c) (pc_Args c) (pc_CWD c) (pc_OneShot c) (pc_Username c) (pc_Environment c) (pc_Log c)
    (if bool_decide (pc_StopSignal c = 0) then EmptyString else Signal_String itoa (pc_StopSignal c))
    (Duration_String (pc_StopTimeout c)).

(** [Equals]: reflect.DeepEqual without the cache; functions are deeply equal
    only when both are nil. *)
Definition writers_equal (a b : option Writer) : bool :=
  match a, b with Some x, Some y => writer_equal x y | None, None => true | _, _ => false end.
Definition Equals (a b : processConfig) : bool :=
  bool_decide (pc_ID a = pc_ID b) && bool_decide (pc_Name a = pc_Name b) && bool_decide (pc_Args a = pc_Args b)
  && bool_decide (pc_CWD a = pc_CWD b) && bool_decide (pc_OneShot a = pc_OneShot b) && bool_decide (pc_Username a = pc_Username b)
  && bool_decide (pc_Environment a = pc_Environment b) && bool_decide (pc_Log a = pc_Log b)
  && writers_equal (pc_LogWriter a) (pc_LogWriter b) && bool_decide (pc_StopSignal a = pc_StopSignal b)
  && bool_decide (pc_StopTimeout a = pc_StopTimeout b)
  && match pc_OnUnexpectedExit a, pc_OnUnexpectedExit b with None, None => true | _, _ => false end.

(** What NewManagedProcess makes of the stop settings: the signal and the wait
    between two stages, where Go divides towards zero. *)
Definition defaultStopTimeout : Z := 10 * 10 ^ 9.
Definition stop_settings (c : processConfig) : Z * Z :=
  (if pc_StopSignal c =? 0 then 15 else pc_StopSignal c,
   Z.quot (if pc_StopTimeout c =? 0 then defaultStopTimeout else pc_StopTimeout c) 3).

(** ** Properties *)

(** A configuration is valid exactly when it has an identifier and a name and its
    timeout is zero or at least 100ms. *)
Lemma validate_spec path c :
  validate path c = None <-> pc_ID c <> EmptyString /\ pc_Name c <> EmptyString /\
    (pc_StopTimeout c = 0 \/ 100 * millisecond <= pc_StopTimeout c).
Proof.
  unfold validate. repeat case_bool_decide; [by split; [|intros (? & ? & ?)]..|].
  destruct (_ <? _) eqn:Hlt, (_ =? 0) eqn:Hz; cbn; split; (done || lia || intros; split_and!; try done; lia).
Qed.

(** The result of the first validation is the result of every later one, at
    whatever path and with whatever changes to the other fields in between; the
    first one is right about the fields of its time. A valid configuration waits
    at least 33ms between two stages of a stop. *)
Theorem first_validation_counts path c c' err :
  pc_alreadyValidated c = false -> Validate path c = (c', err) ->
  (err = None <-> pc_ID c <> EmptyString /\ pc_Name c <> EmptyString /\
     (pc_StopTimeout c = 0 \/ 100 * millisecond <= pc_StopTimeout c)) /\
  (forall path' c'', pc_alreadyValidated c'' = pc_alreadyValidated c' -> pc_cachedErr c'' = pc_cachedErr c' ->
     Validate path' c'' = (c'', err)) /\
  (err = None -> 33 * millisecond <= snd (stop_settings c')).
Proof.
  unfold Validate. intros ->. intros [= <- <-]. split; [apply validate_spec|]. split.
  - cbn. intros path' c'' -> ->. done.
  - intros (_ & _ & Ht)%validate_spec. cbn. unfold defaultStopTimeout, millisecond in *.
    destruct (Z.eqb_spec (pc_StopTimeout c) 0); [by vm_compute|]. destruct Ht as [?|Ht]; [done|].
    rewrite Z.quot_div_nonneg by lia. apply Z.div_le_lower_bound; lia.
Qed.

(** The signals that survive JSON. *)
Definition json_signals : list Z := [0; 1; 2; 3; 6; 9; 15].

Lemma parseSignal_values s v : parseSignal quote s = inl v -> v ∈ json_signals.
Proof. unfold parseSignal. repeat case_match; intros [= <-]; unfold json_signals; set_solver. Qed.

(** What a configuration becomes by being written as JSON and read again. When
    its timeout is read as it was written, it is itself, without its writer,
    its callback and its cache, if its stop signal is none or one of HUP, INT,
    QUIT, ABRT, KILL and TERM, and an error for every other signal of the table. *)
Theorem config_json_roundtrip c :
  ParseDuration (Duration_String (pc_StopTimeout c)) = inl (pc_StopTimeout c) -> Duration_String (pc_StopTimeout c) <> EmptyString ->
  0 <= pc_StopSignal c < 16 ->
  (pc_StopSignal c ∈ json_signals ->
     UnmarshalJSON (inl (MarshalJSON c)) =
     inl (mkProcessConfig (pc_ID c) (pc_Name c) (pc_Args c) (pc_CWD c) (pc_OneShot c) (pc_Username c) (pc_Environment c) (pc_Log c)
            None (pc_StopSignal c) (pc_StopTimeout c) None false None)) /\
  (pc_StopSignal c ∉ json_signals -> exists err, UnmarshalJSON (inl (MarshalJSON c)) = inr err).
Proof.
  intros Hp Hne Hsig.
  assert (Hparse : parseSignal quote (cd_StopSignal (MarshalJSON c)) =
    if bool_decide (pc_StopSignal c ∈ json_signals) then inl (pc_StopSignal c)
    else inr (ENew ("unknown " +:+ quote (cd_StopSignal (MarshalJSON c)) +:+ " name"))).
  { cbn [MarshalJSON cd_StopSignal].
    assert (Hcases : pc_StopSignal c ∈ seqZ 0 16) by (apply elem_of_seqZ; lia). revert Hcases.
    generalize (pc_StopSignal c). change (seqZ 0 16) with [0; 1; 2; 3; 4; 5; 6; 7; 8; 9; 10; 11; 12; 13; 14; 15]. intros z Hcases.
    repeat (apply elem_of_cons in Hcases as [->|Hcases]; [reflexivity|]). by apply elem_of_nil in Hcases. }
  unfold UnmarshalJSON. rewrite Hparse. cbn. rewrite (bool_decide_eq_false_2 (_ = _)) by done. rewrite Hp.
  split; intros Hin; [by rewrite bool_decide_eq_true_2|]. rewrite bool_decide_eq_false_2 by done. by eexists.
Qed.

(** A configuration equals itself exactly when it has no callback. *)
Theorem equals_itself_iff c : (forall w, writer_equal w w = true) ->
  (Equals c c = true <-> pc_OnUnexpectedExit c = None).
Proof.
  intros Hw. unfold Equals. rewrite !bool_decide_eq_true_2 by done.
  replace (writers_equal _ _) with true by (unfold writers_equal; by destruct (pc_LogWriter c)).
  by destruct (pc_OnUnexpectedExit c).
Qed.

End Config.

(** A variable of the configuration replaces the one of the environment. *)
Theorem process_env_overrides (environ order : list (string * string)) key v :
  NoDup order.*1 -> (key, v) ∈ order -> env_lookup (process_env environ order) key = Some v.
Proof.
  intros Hnd Hin. unfold env_lookup, process_env. rewrite foldl_app. generalize (foldl (fun acc kv => if bool_decide (kv.1 = key) then Some kv.2 else acc) None environ).
  apply list_elem_of_split in Hin as (l1 & l2 & ->). intros acc. rewrite fmap_app in Hnd. cbn in Hnd.
  apply NoDup_app in Hnd as (_ & _ & (Hnot & _)%NoDup_cons). rewrite foldl_app. cbn. rewrite bool_decide_eq_true_2 by done.
  induction l2 as [|kv l2 IH] using rev_ind; [done|]. rewrite fmap_app in Hnot. rewrite foldl_app. cbn.
  rewrite bool_decide_eq_false_2; [apply IH|]; set_solver.
Qed.

(** ** Concrete inputs *)

Definition sample_config (signal : Z) : processConfig (Writer:=unit) (Callback:=unit) :=
  mkProcessConfig "id" "name" None EmptyString false EmptyString None false None signal 0 None false None.

(** A signal that a managed process knows, but that is not read back. *)
Lemma usr1_is_not_read_back :
  UnmarshalJSON (Writer:=unit) (Callback:=unit) id (fun _ => inl 0) (inl (MarshalJSON (fun _ => "n"%string) (fun _ => "0s"%string) (sample_config 10)))
  = inr (ENew "unknown user defined signal 1 name").
Proof. reflexivity. Qed.

Lemma first_validation_counts_witness :
  let c := sample_config 0 in
  snd (Validate id "path" c) = None /\ Validate id "other" (fst (Validate id "path" c)) = (fst (Validate id "path" c), None) /\
  33 * millisecond <= snd (stop_settings (fst (Validate id "path" c))).
Proof.
  destruct (first_validation_counts id "path" (sample_config 0) _ None eq_refl eq_refl) as (_ & Hlater & Hwait).
  split; [reflexivity|]. split; [by apply Hlater|by apply Hwait].
Defined.

Lemma config_json_roundtrip_witness :
  UnmarshalJSON id (fun _ => inl 0) (inl (MarshalJSON (fun _ => "n"%string) (fun _ => "0s"%string) (sample_config 2)))
  = inl (sample_config 2).
Proof.
  destruct (config_json_roundtrip (Writer:=unit) (Callback:=unit) id (fun _ => "n"%string) (fun _ => inl 0) (fun _ => "0s"%string) (sample_config 2))
    as [Hyes _]; [reflexivity|discriminate|by cbn|]. apply Hyes. apply (bool_decide_eq_true_1 (_ ∈ _)). reflexivity.
Defined.

Lemma equals_itself_iff_witness : Equals (fun _ _ => true) (sample_config 2) (sample_config 2) = true.
Proof. by apply (equals_itself_iff (fun _ _ => true) (sample_config 2)). Defined.

Lemma process_env_overrides_witness :
  env_lookup (process_env [("A", "old"); ("B", "b")] [("A", "new")])%string "A" = Some "new"%string.
Proof.
  apply process_env_overrides; [cbn; apply NoDup_singleton|by apply list_elem_of_singleton].
Defined.
