(* ===== verification/Flags.v ===== *)
(** * Command line flags: [flag.go]

    A struct says in its tags which flags a program takes. [extractFlags]
    declares them, the flag package of the standard library reads the
    arguments, and [UnmarshalFlags] stores what it found. A flag of a type that
    implements flag.Value is a proxy that writes through to the struct while the
    arguments are read; the other flags have storage of their own.

    Types that implement flag.Value do so by their pointer, as Set demands;
    what their methods do is the class [FlagValues]. *)

From S2P Require Import Prelude GoError GoStrings GoRun.
From Stdlib Require Import Ascii.
Open Scope Z_scope.

(** [reflect.Kind], as far as the code tells kinds apart. *)
Inductive kind := KBool | KString | KInt | KSlice | KPtr | KOther (name : string).

(** The types of flag.Value: their kinds and zero values, Set (which may write
    before it fails), and Get, where the type is a flag.Getter. *)
Class FlagValues (FT V : Type) := {
  fv_kind : FT -> kind;
  fv_zero : FT -> V;
  fv_IsZero : V -> bool;
  fv_Set : FT -> string -> V -> V * option goerror;
  fv_Get : FT -> V -> option V;
}.

Inductive gotype (FT : Type) :=
  | TBool | TString | TInt
  | TFlag (f : FT)
  | TSlice (e : gotype FT)
  | TPtr (e : gotype FT)
  | TOther (name : string).
Arguments TBool {FT}.
Arguments TString {FT}.
Arguments TInt {FT}.
Arguments TFlag {FT} f.
Arguments TSlice {FT} e.
Arguments TPtr {FT} e.
Arguments TOther {FT} name.

Inductive value (V : Type) :=
  | VBool (b : bool) | VString (s : string) | VInt (z : Z)
  | VFlag (v : V)
  | VSlice (vs : list (value V))
  | VPtr (p : option (value V))
  | VOther.
Arguments VBool {V} b.
Arguments VString {V} s.
Arguments VInt {V} z.
Arguments VFlag {V} v.
Arguments VSlice {V} vs.
Arguments VPtr {V} p.
Arguments VOther {V}.

(** The errors, by the messages of the code. *)
Inductive flagError :=
  | EExtract (e : flagError)                     (* error extracing flags: *)
  | ENotStruct                                   (* expected to be an addressable struct *)
  | EDefaultValue (field : string)               (* default must have value *)
  | EDefaultParse (field : string) (e : numError)
  | EDefaultKind (name : string) (k : kind)      (* unsupported default for flag kind *)
  | EUsageValue (field : string)
  | EExtraType (field : string)                  (* extra field must be []string *)
  | EExtraTwice (field first : string)
  | ESliceElem (name : string)
  | EFlagKind (name : string) (k : kind)         (* unsupported flag kind *)
  | EHelp
  | EBadSyntax (arg : string)
  | ENotDefined (name : string)
  | ENeedsArgument (name : string)
  | EInvalidValue (value name : string)
  | ERequired (name : string)                    (* errRequiredFlagUnspecified *)
  | EPositionalParse (pos : Z) (e : numError)
  | EPositionalKind (pos : Z) (name : string) (k : kind)
  | ESet (name : string) (e : goerror)
  | EUnspecified (args : list string).           (* unspecified arguments provided *)

(** An [interface{}] that the code passes along: a default or what Get gave. *)
Inductive fval (V : Type) :=
  | NilVal | BoolVal (b : bool) | StrVal (s : string) | IntVal (z : Z)
  | SliceVal (vs : list (value V)) | GotVal (v : V).
Arguments NilVal {V}.
Arguments BoolVal {V} b.
Arguments StrVal {V} s.
Arguments IntVal {V} z.
Arguments SliceVal {V} vs.
Arguments GotVal {V} v.

Section Flags.
Context {FT V : Type} `{FlagValues FT V} `{EqDecision FT}.

Definition Kind (t : gotype FT) : kind :=
  match t with
  | TBool => KBool | TString => KString | TInt => KInt
  | TFlag f => fv_kind f
  | TSlice _ => KSlice | TPtr _ => KPtr | TOther name => KOther name
  end.
Definition is_strings (t : gotype FT) : bool := match t with TSlice TString => true | _ => false end.
(** The type or its pointer implements flag.Value. *)
Definition implements (t : gotype FT) : bool := match t with TFlag _ | TPtr (TFlag _) => true | _ => false end.

(** [reflect.StructField]: PkgPath is empty for exported fields; the value of
    the tag [flag]. *)
Record structField := mkField { fd_Name : string; fd_exported : bool; fd_Type : gotype FT; fd_flag : option string }.

(** [flagInfo]. *)
Record flagInfo := mkFlagInfo {
  fi_Name : string; fi_Default : string; fi_DefaultIfc : fval V; fi_DefaultSet : bool; fi_Usage : string;
  fi_Required : bool; fi_Positional : bool; fi_Position : Z; fi_IsFlagVal : bool; fi_Extra : bool;
}.

(** [parseFlagInfo]: the loop over the options of a tag. *)
Definition default_value (fieldName : string) (name : string) (t : gotype FT) (d : string) : fval V + flagError :=
  match Kind t with
  | KBool => match ParseBool d with inl b => inl (BoolVal b) | inr e => inr (EDefaultParse fieldName e) end
  | KString => inl (StrVal d)
  | KInt => match ParseInt 10 64 d with inl z => inl (IntVal z) | inr e => inr (EDefaultParse fieldName e) end
  | k => inr (EDefaultKind name k)
  end.
Fixpoint flag_options (fieldName : string) (t : gotype FT) (parts : list string) (info : flagInfo) : flagInfo + flagError :=
  match parts with
  | [] => inl info
  | part :: parts' =>
      let 'mkFlagInfo name def ifc defSet usage req positional pos isFlag extra := info in
      match split2 "=" part with
      | ("required"%string, _) =>
          flag_options fieldName t parts' (mkFlagInfo name def ifc defSet usage true positional pos isFlag extra)
      | ("default"%string, None) => inr (EDefaultValue fieldName)
      | ("default"%string, Some d) =>
          match default_value fieldName name t d with
          | inr e => inr e
          | inl v => flag_options fieldName t parts' (mkFlagInfo name d v true usage req positional pos isFlag extra)
          end
      | ("usage"%string, None) => inr (EUsageValue fieldName)
      | ("usage"%string, Some u) =>
          flag_options fieldName t parts' (mkFlagInfo name def ifc defSet u req positional pos isFlag extra)
      | ("extra"%string, _) =>
          if is_strings t then
            flag_options fieldName t parts' (mkFlagInfo name def ifc defSet usage req positional pos isFlag true)
          else inr (EExtraType fieldName)
      | _ => flag_options fieldName t parts' info
      end
  end.

Definition parseFlagInfo (field : structField) (val : string) : flagInfo + flagError :=
  match split_char "," val with
  | [] => inl (mkFlagInfo (fd_Name field) EmptyString NilVal false EmptyString false false 0 false false)
  | first :: parts =>
      let name := if bool_decide (first = EmptyString) then fd_Name field else first in
      let '(name, positional, pos) :=
        match ParseInt 10 64 name with
        | inl posIdx => ("positional_arg_" +:+ FormatInt posIdx, true, posIdx)
        | inr _ => (name, false, 0)
        end in
      flag_options (fd_Name field) (fd_Type field) parts
        (mkFlagInfo name EmptyString NilVal false EmptyString false positional pos (implements (fd_Type field)) false)
  end.

(** ** The flag set *)

(** What is behind a name: the storage of a flag. A proxy wraps field number
    [target] of the struct, or a value of its own. *)
Inductive entry :=
  | EnBool (b : bool) | EnString (s : string) | EnInt (z : Z)
  | EnSlice (elem : gotype FT) (values : list (value V))    (* [sliceFlag] *)
  | EnProxy (f : FT) (isSet : bool) (target : option nat) (own : V).  (* [flagValueProxy] *)

(** The struct and the flag set. *)
Record fstate := mkFstate { st_values : list (value V); st_formal : gmap string entry; st_args : list string }.
Definition st_set_values vs (s : fstate) := mkFstate vs (st_formal s) (st_args s).
Definition st_set_formal m (s : fstate) := mkFstate (st_values s) m (st_args s).
Definition st_set_args args (s : fstate) := mkFstate (st_values s) (st_formal s) args.
Definition flagM : Type -> Type := prog fstate flagError.

Definition put_entry (name : string) (e : entry) : flagM unit := modify (fun s => st_set_formal (<[name := e]> (st_formal s)) s).
Definition put_value (i : nat) (v : value V) : flagM unit := modify (fun s => st_set_values (<[i := v]> (st_values s)) s).
(** Setting a field by reflection panics for one that is not exported. *)
Definition set_field (i : nat) (fd : structField) (v : value V) : flagM unit :=
  if fd_exported fd then put_value i v else panics.

(** [FlagSet.Var]: panics for a name that is taken or cannot be written. *)
Definition legal_name (name : string) : bool := negb (String.prefix "-" name) && negb (str_mem "=" name).
Definition Var (name : string) (e : entry) : flagM unit :=
  s ← get;
  if legal_name name && bool_decide (st_formal s !! name = None) then put_entry name e else panics.

(** [Value.Set] of a flag. *)
Definition invalid {A} (value name : string) : flagM A := fails (EInvalidValue value name).
Definition set_entry (name val : string) (e : entry) : flagM unit :=
  match e with
  | EnBool _ => match ParseBool val with inl b => put_entry name (EnBool b) | inr _ => invalid val name end
  | EnString _ => put_entry name (EnString val)
  | EnInt _ => match ParseInt 0 64 val with inl z => put_entry name (EnInt z) | inr _ => invalid val name end
  | EnSlice elem vs =>
      match elem with
      | TFlag f =>
          match fv_Set f val (fv_zero f) with
          | (v, None) => put_entry name (EnSlice elem (vs ++ [VFlag v]))
          | (_, Some _) => invalid val name
          end
      | _ => panics   (* the new element is not a flag.Value *)
      end
  | EnProxy f _ None own =>
      let '(v, err) := fv_Set f val own in
      _ ← put_entry name (EnProxy f true None v);
      match err with None => mret tt | Some _ => invalid val name end
  | EnProxy f _ (Some i) own =>
      _ ← put_entry name (EnProxy f true (Some i) own);
      s ← get;
      match st_values s !! i with
      | Some (VFlag v) =>
          let '(v', err) := fv_Set f val v in
          _ ← put_value i (VFlag v');
          match err with None => mret tt | Some _ => invalid val name end
      | _ => panics
      end
  end.
Definition is_bool_flag (e : entry) : bool := match e with EnBool _ => true | _ => false end.

(** [FlagSet.Parse]. *)
Fixpoint Parse (args : list string) : flagM unit :=
  let stop := modify (st_set_args args) in
  match args with
  | [] => stop
  | arg :: rest =>
      match arg with
      | String "-" (String c more) =>
          if Ascii.eqb c "-" && bool_decide (more = EmptyString) then modify (st_set_args rest)
          else
            let name := if Ascii.eqb c "-" then more else String c more in
            if String.prefix "-" name || String.prefix "=" name then fails (EBadSyntax arg)
            else
              let '(name, val) := split2 "=" name in
              s ← get;
              match st_formal s !! name with
              | None => if bool_decide (name = "help"%string \/ name = "h"%string) then fails EHelp else fails (ENotDefined name)
              | Some e =>
                  match val with
                  | Some v => _ ← set_entry name v e; Parse rest
                  | None =>
                      if is_bool_flag e then _ ← set_entry name "true" e; Parse rest
                      else
                        match rest with
                        | [] => fails (ENeedsArgument name)
                        | v :: rest' => _ ← set_entry name v e; Parse rest'
                        end
                  end
              end
      | _ => stop
      end
  end.
Definition Arg (args : list string) (i : Z) : string := if i <? 0 then EmptyString else default EmptyString (args !! Z.to_nat i).

(** ** [extractFlags] *)

Definition deref (t : gotype FT) : gotype FT := match t with TPtr e => e | _ => t end.

Definition extract_field (i : nat) (field : structField) (info : flagInfo) : flagM unit :=
  if fi_IsFlagVal info then
    match fd_Type field with
    | TFlag f => Var (fi_Name info) (EnProxy f false (Some i) (fv_zero f))
    | TPtr (TFlag f) => Var (fi_Name info) (EnProxy f false None (fv_zero f))
    | _ => panics
    end
  else
    match deref (fd_Type field) with
    | TBool =>
        if bool_decide (fi_Default info = EmptyString) then Var (fi_Name info) (EnBool false)
        else match fi_DefaultIfc info with BoolVal b => Var (fi_Name info) (EnBool b) | _ => panics end
    | TString => Var (fi_Name info) (EnString (fi_Default info))
    | TInt =>
        if bool_decide (fi_Default info = EmptyString) then Var (fi_Name info) (EnInt 0)
        else match fi_DefaultIfc info with IntVal z => Var (fi_Name info) (EnInt z) | _ => panics end
    | TSlice e => if implements e then Var (fi_Name info) (EnSlice e []) else fails (ESliceElem (fi_Name info))
    | t => fails (EFlagKind (fi_Name info) (Kind t))
    end.

Fixpoint extract_loop (i : nat) (fields : list structField) (extra : option string) : flagM unit :=
  match fields with
  | [] => mret tt
  | field :: fields' =>
      if negb (fd_exported field) then extract_loop (S i) fields' extra
      else
        match fd_flag field with
        | None => extract_loop (S i) fields' extra
        | Some flagStr =>
            info ← ok_or (parseFlagInfo field flagStr);
            if fi_Extra info then
              match extra with
              | Some first => fails (EExtraTwice (fd_Name field) first)
              | None => extract_loop (S i) fields' (Some (fd_Name field))
              end
            else _ ← extract_field i field info; extract_loop (S i) fields' extra
        end
  end.

(** A struct pointer, an [into] that is nil, or anything else. *)
Inductive target := IntoNil | IntoOther | IntoStruct (fields : list structField).

Definition extractFlags (from : target) : flagM unit :=
  match from with IntoStruct fields => extract_loop 0 fields None | _ => fails ENotStruct end.

(** ** [UnmarshalFlags] *)

(** The value of a positional argument that is not a flag.Value. *)
Definition positional_value (field : structField) (info : flagInfo) (strVal : string) : fval V + flagError :=
  if bool_decide (strVal = EmptyString) then inl (fi_DefaultIfc info)
  else match Kind (fd_Type field) with
       | KString => inl (StrVal strVal)
       | KInt => match ParseInt 10 64 strVal with inl z => inl (IntVal z) | inr e => inr (EPositionalParse (fi_Position info) e) end
       | KBool => match ParseBool strVal with inl b => inl (BoolVal b) | inr e => inr (EPositionalParse (fi_Position info) e) end
       | k => inr (EPositionalKind (fi_Position info) (fi_Name info) k)
       end.

(** [Getter.Get] of a flag that is not a proxy. *)
Definition entry_Get (e : entry) : option (fval V) :=
  match e with
  | EnBool b => Some (BoolVal b) | EnString s => Some (StrVal s) | EnInt z => Some (IntVal z)
  | EnSlice _ vs => Some (SliceVal vs)
  | EnProxy f _ None v => GotVal <$> fv_Get f v
  | EnProxy _ _ (Some _) _ => None
  end.

Definition IsZero (v : fval V) : bool :=
  match v with
  | NilVal => true
  | BoolVal b => negb b | StrVal s => bool_decide (s = EmptyString) | IntVal z => z =? 0
  | SliceVal vs => match vs with [] => true | _ => false end
  | GotVal v => fv_IsZero v
  end.

(** What the switch over the kinds of flags finds: nothing more to do, or a
    value and whether it is one that a proxy was given. *)
Inductive found := Continue | Found (val : fval V) (flagValIsSet : bool).
Definition find_value (field : structField) (info : flagInfo) : flagM found :=
  s ← get;
  if fi_Positional info then
    let strVal := Arg (st_args s) (fi_Position info) in
    if fi_IsFlagVal info then
      mret (Found (StrVal (if bool_decide (strVal = EmptyString) then fi_Default info else strVal)) false)
    else v ← ok_or (positional_value field info strVal); mret (Found v false)
  else
    match st_formal s !! fi_Name info with
    | None =>
        if fi_Required info then fails (ERequired (fi_Name info))
        else mret (Found (if fi_IsFlagVal info then StrVal (fi_Default info) else fi_DefaultIfc info) false)
    | Some e =>
        if fi_IsFlagVal info then
          match e with
          | EnProxy _ isSet _ _ =>
              if isSet then
                match Kind (fd_Type field), entry_Get e with
                | KPtr, Some v => mret (Found v true)
                | KPtr, None => panics
                | _, _ => mret Continue
                end
              else mret (Found (StrVal (fi_Default info)) false)
          | _ => panics
          end
        else match entry_Get e with Some v => mret (Found v false) | None => panics end
    end.

(** Storing a value: assignable or convertible, where the flag set is one of
    extractFlags; [None] where Convert panics. *)
Definition assign (t : gotype FT) (v : fval V) : option (value V) :=
  match t, v with
  | TBool, BoolVal b => Some (VBool b)
  | TString, StrVal s => Some (VString s)
  | TInt, IntVal z => Some (VInt z)
  | TFlag _, GotVal v => Some (VFlag v)
  | _, _ => None
  end.
(** Set on the flag.Value that a field is or points to; one that writes through
    its nil receiver panics. *)
Definition set_flag_value (i : nat) (field : structField) (info : flagInfo) (val : string) : flagM unit :=
  s ← get;
  match fd_Type field, st_values s !! i with
  | TFlag f, Some (VFlag v) =>
      let '(v', err) := fv_Set f val v in
      _ ← set_field i field (VFlag v');
      match err with None => mret tt | Some e => fails (ESet (fi_Name info) e) end
  | TPtr (TFlag f), Some (VPtr (Some (VFlag v))) =>
      let '(v', err) := fv_Set f val v in
      _ ← set_field i field (VPtr (Some (VFlag v')));
      match err with None => mret tt | Some e => fails (ESet (fi_Name info) e) end
  | _, _ => panics
  end.
Definition store_value (i : nat) (field : structField) (info : flagInfo) (val : fval V) (flagValIsSet : bool) : flagM unit :=
  if fi_Required info && IsZero val then fails (ERequired (fi_Name info))
  else
    match val with
    | NilVal => mret tt
    | _ =>
        if negb (fi_DefaultSet info) && IsZero val then mret tt
        else if fi_IsFlagVal info && negb flagValIsSet then
          match val with StrVal s => set_flag_value i field info s | _ => panics end
        else
          s ← get;
          match fd_Type field, st_values s !! i with
          | TSlice _, Some (VSlice old) =>
              match val with SliceVal vs => set_field i field (VSlice (old ++ vs)) | _ => panics end
          | TPtr e, Some _ => match assign e val with Some v => set_field i field (VPtr (Some v)) | None => panics end
          | t, Some _ => match assign t val with Some v => set_field i field v | None => panics end
          | _, None => panics
          end
    end.

Fixpoint unmarshal_loop (i : nat) (fields : list structField) (remaining : gset nat) (extra : option (nat * structField))
    : flagM (gset nat * option (nat * structField)) :=
  match fields with
  | [] => mret (remaining, extra)
  | field :: fields' =>
      match fd_flag field with
      | None => unmarshal_loop (S i) fields' remaining extra
      | Some flagStr =>
          info ← ok_or (parseFlagInfo field flagStr);
          if fi_Extra info then
            match extra with
            | Some (_, first) => fails (EExtraTwice (fd_Name field) (fd_Name first))
            | None => unmarshal_loop (S i) fields' remaining (Some (i, field))
            end
          else
            let remaining := if fi_Positional info && (0 <=? fi_Position info) then remaining ∖ {[ Z.to_nat (fi_Position info) ]} else remaining in
            r ← find_value field info;
            _ ← match r with Continue => mret tt | Found val isSet => store_value i field info val isSet end;
            unmarshal_loop (S i) fields' remaining extra
      end
  end.

(** [order] is the order in which Go iterates over the map of what is left. *)
Definition UnmarshalFlags (order : gset nat -> list nat) (into : target) : flagM unit :=
  s ← get;
  match into with
  | IntoStruct fields =>
      '(remaining, extra) ← unmarshal_loop 0 fields (set_seq 0 (length (st_args s))) None;
      if bool_decide (remaining = ∅) then mret tt
      else
        let remArgs := (fun idx => Arg (st_args s) (Z.of_nat idx)) <$> order remaining in
        match extra with
        | None => fails (EUnspecified remArgs)
        | Some (i, field) => set_field i field (VSlice (VString <$> remArgs))
        end
  | _ => fails ENotStruct
  end.

(** [ParseFlags]; the flag set is a new one. *)
Definition map_err {A} (f : flagError -> flagError) (m : flagM A) : flagM A := fun s =>
  match m s with (s', Err e) => (s', Err (f e)) | r => r end.
Definition ParseFlags (order : gset nat -> list nat) (args : list string) (into : target) : flagM unit :=
  match args, into with
  | [], _ | _, IntoNil => mret tt
  | _ :: args', _ =>
      _ ← modify (fun s => mkFstate (st_values s) ∅ []);
      _ ← map_err EExtract (extractFlags into);
      _ ← Parse args';
      UnmarshalFlags order into
  end.
End Flags.
Arguments structField FT : clear implicits.
Arguments fstate FT V : clear implicits.
Arguments entry FT V : clear implicits.

(** ** [NetPortFlag]: an integer of 16 bits *)

#[export] Instance net_port_flag : FlagValues unit Z := {|
  fv_kind _ := KInt;
  fv_zero _ := 0;
  fv_IsZero p := p =? 0;
  fv_Set _ val npf := match ParseUint 10 16 val with inl portParsed => (portParsed, None) | inr _ => (npf, Some (ENew "strconv.ParseUint")) end;
  fv_Get _ npf := Some npf;
|}.
Definition NetPortFlag_String (npf : Z) : string := FormatInt npf.

(** ** Properties *)

(** A number that is written in decimal is read back in base 0 too: it has no
    leading zero unless it is zero. *)
Lemma format_digits_first fuel n acc c r :
  0 < n < 10 ^ Z.of_nat fuel -> format_digits fuel n acc = String c r -> c <> "0"%char.
Proof.
  revert n acc. induction fuel as [|f IH]; intros n acc Hn; [cbn in Hn; lia|]. cbn [format_digits].
  destruct (Z.ltb_spec n 10) as [Hlt|Hge].
  - intros [= <- _]. assert (n = 1 \/ n = 2 \/ n = 3 \/ n = 4 \/ n = 5 \/ n = 6 \/ n = 7 \/ n = 8 \/ n = 9) as E by lia.
    destruct_or! E; subst n; done.
  - apply IH. split; [apply Z.div_str_pos; lia|]. apply Z.div_lt_upper_bound; [lia|].
    rewrite <-Z.pow_succ_r by lia. rewrite <-Nat2Z.inj_succ. lia.
Qed.

Lemma parse_digits_plain base maxVal s n :
  str_mem "_" s = false -> parse_digits true base maxVal s n = parse_digits false base maxVal s n.
Proof.
  revert n. induction s as [|c s IH]; intros n; [done|]. cbn [str_mem parse_digits]. intros [Hc Hs]%orb_false_iff.
  rewrite Hc. cbn [andb]. destruct (digit_val c); [|done]. repeat (case_match; [done|]). by apply IH.
Qed.

Lemma ParseUint_FormatUint_base0 n : 0 <= n < 2 ^ 64 -> ParseUint 0 64 (FormatUint n) = inl n.
Proof.
  intros Hn. destruct (decide (n = 0)) as [->|Hnz]; [by vm_compute|].
  assert (str_mem "_" (FormatUint n) = false) as Hu.
  { apply (all_chars_mem _ (fun c => negb (Ascii.eqb c "_"))); [done|]. apply FormatUint_chars; [lia|].
    intros d Hd. destruct (digit_char_spec d Hd) as (_ & H & _). by rewrite (proj2 (Ascii.eqb_neq _ _) H). }
  pose proof (ParseUint_FormatUint 64 n Hn ltac:(lia)) as Hp.
  destruct (FormatUint_ne n) as (c & s & Hs). rewrite Hs in *.
  assert (base_of (String c s) = (10, String c s)) as Hb.
  { assert (c <> "0"%char) as Hc.
    { refine (format_digits_first format_fuel n EmptyString c s _ Hs). unfold format_fuel.
      change (10 ^ Z.of_nat 20) with 100000000000000000000. change (2 ^ 64) with 18446744073709551616 in Hn. lia. }
    destruct c as [[] [] [] [] [] [] [] []]; done. }
  unfold ParseUint in Hp |- *. change (0 =? 0) with true. change (10 =? 0) with false in Hp. cbn [andb] in Hp |- *.
  rewrite Hb, parse_digits_plain, Hu by done. cbn [andb]. by destruct (parse_digits _ _ _ _ _).
Qed.

Lemma ParseInt_FormatInt_base0 n : - 2 ^ 63 <= n < 2 ^ 63 -> ParseInt 0 64 (FormatInt n) = inl n.
Proof.
  intros Hn. pose proof (ParseInt_FormatInt 64 n ltac:(lia) Hn) as Hp.
  assert (2 ^ 64 = 2 * 2 ^ 63) as Hpow by done.
  unfold FormatInt in Hp |- *. destruct (Z.ltb_spec n 0).
  - cbn [ParseInt] in Hp |- *. change (Ascii.eqb "-" "+") with false in *. change (Ascii.eqb "-" "-") with true in *. cbv iota beta in *.
    rewrite ParseUint_FormatUint in Hp by lia. rewrite ParseUint_FormatUint_base0 by lia. exact Hp.
  - pose proof (ParseUint_FormatUint 64 n ltac:(lia) ltac:(lia)) as H1.
    pose proof (ParseUint_FormatUint_base0 n ltac:(lia)) as H0.
    destruct (FormatUint_ne n) as (c & s & Hs). rewrite Hs in *. unfold ParseInt in Hp |- *.
    destruct (Ascii.eqb c "+") eqn:E1.
    { apply Ascii.eqb_eq in E1 as ->. unfold ParseUint in H1. by cbn in H1. }
    destruct (Ascii.eqb c "-") eqn:E2.
    { apply Ascii.eqb_eq in E2 as ->. unfold ParseUint in H1. by cbn in H1. }
    rewrite H0. rewrite H1 in Hp. exact Hp.
Qed.

(** ** Flags of basic types *)

Section BasicFlags.
Context {FT V : Type} `{FlagValues FT V} `{EqDecision FT}.
Implicit Types (fd : structField FT) (v : value V).

(** A name that stands for itself in a tag. *)
Definition simple_name (name : string) : Prop :=
  name <> EmptyString /\ str_mem "," name = false /\ legal_name name = true /\ exists e, ParseInt 10 64 name = inr e.
Definition is_basic (t : gotype FT) : bool := match t with TBool | TString | TInt => true | _ => false end.
Definition flag_name fd : string := default EmptyString (fd_flag fd).
Record simple_field fd : Prop := {
  sf_exported : fd_exported fd = true;
  sf_basic : is_basic (fd_Type fd) = true;
  sf_flag : fd_flag fd = Some (flag_name fd);
  sf_name : simple_name (flag_name fd);
}.

(** A value of a basic type, and how it is written on the command line. *)
Definition basic_value (t : gotype FT) v : Prop :=
  match t, v with
  | TBool, VBool _ | TString, VString _ => True
  | TInt, VInt z => - 2 ^ 63 <= z < 2 ^ 63
  | _, _ => False
  end.
Definition value_text v : string :=
  match v with VBool b => FormatBool b | VString s => s | VInt z => FormatInt z | _ => EmptyString end.
Definition render (setting : structField FT * value V) : string :=
  String "-" (flag_name setting.1 +:+ String "=" (value_text setting.2)).

Definition zero_value v : bool :=
  match v with VBool b => negb b | VString s => bool_decide (s = EmptyString) | VInt z => z =? 0 | _ => false end.
(** The last setting of a flag; and what becomes of a field. *)
Fixpoint last_setting (name : string) (settings : list (structField FT * value V)) (cur : option (value V)) : option (value V) :=
  match settings with
  | [] => cur
  | (fd, v) :: rest => last_setting name rest (if bool_decide (flag_name fd = name) then Some v else cur)
  end.
Definition stored (old : value V) (setting : option (value V)) : value V :=
  match setting with Some v => if zero_value v then old else v | None => old end.

(** The entry of a flag that was last set to a value, or never. *)
Definition basic_entry (t : gotype FT) (o : option (value V)) : entry FT V :=
  match t with
  | TBool => EnBool (match o with Some (VBool b) => b | _ => false end)
  | TInt => EnInt (match o with Some (VInt z) => z | _ => 0 end)
  | _ => EnString (match o with Some (VString s) => s | _ => EmptyString end)
  end.

Lemma simple_info fd : simple_field fd ->
  parseFlagInfo fd (flag_name fd) = inl (mkFlagInfo (V:=V) (flag_name fd) EmptyString NilVal false EmptyString false false 0 false false).
Proof.
  intros [_ Hb _ (Hne & Hc & _ & e & He)]. unfold parseFlagInfo. rewrite split_char_none by done.
  rewrite bool_decide_eq_false_2 by done. rewrite He. cbn. by destruct (fd_Type fd).
Qed.

Lemma legal_simple fd : simple_field fd -> legal_name (flag_name fd) = true.
Proof. by intros [_ _ _ (_ & _ & ? & _)]. Qed.

(** Declaring: afterwards every flag has an entry that was never set. *)
Lemma extract_simple fields : forall i s,
  Forall simple_field fields -> NoDup (flag_name <$> fields) ->
  (forall fd, fd ∈ fields -> st_formal s !! flag_name fd = None) ->
  exists m, extract_loop i fields None s = (st_set_formal m s, Ret tt) /\
    (forall fd, fd ∈ fields -> m !! flag_name fd = Some (basic_entry (fd_Type fd) None)) /\
    (forall n, n ∉ flag_name <$> fields -> m !! n = st_formal s !! n).
Proof.
  induction fields as [|fd fields IH]; intros i s Hf Hd Hn.
  { exists (st_formal s). split_and!; [by destruct s| |done]. intros fd Hin. by apply elem_of_nil in Hin. }
  apply Forall_cons in Hf as [Hfd Hf]. rewrite fmap_cons in Hd. apply NoDup_cons in Hd as [Hnew Hd].
  set (s1 := st_set_formal (<[flag_name fd := basic_entry (fd_Type fd) None]> (st_formal s)) s).
  destruct (IH (S i) s1) as (m & Hm & Hin & Hout); [done|done| |].
  { intros fd' Hfd'. cbn. rewrite lookup_insert_ne; [apply Hn; by right|]. intros E. apply Hnew. rewrite E. by apply list_elem_of_fmap_2. }
  exists m. split_and!.
  - cbn [extract_loop]. rewrite (sf_exported _ Hfd). cbn [negb]. rewrite (sf_flag _ Hfd).
    unfold mbind, prog_bind, ok_or. rewrite (simple_info _ Hfd). unfold mret, prog_ret. cbn [fi_Extra].
    assert (extract_field i fd (mkFlagInfo (V:=V) (flag_name fd) EmptyString NilVal false EmptyString false false 0 false false) s
            = (s1, Ret tt)) as ->; [|exact Hm].
    unfold extract_field. cbn [fi_IsFlagVal fi_Default fi_Name]. rewrite bool_decide_eq_true_2 by done.
    assert (forall e, Var (flag_name fd) e s = (st_set_formal (<[flag_name fd := e]> (st_formal s)) s, Ret tt)) as HVar.
    { intros e. unfold Var, mbind, prog_bind, get. rewrite (legal_simple _ Hfd), (Hn fd) by (by left). done. }
    pose proof (sf_basic _ Hfd) as Hb. unfold s1. destruct (fd_Type fd); try discriminate Hb; apply HVar.
  - intros fd' [->|Hin']%elem_of_cons; [|by apply Hin]. rewrite Hout by done. apply lookup_insert_eq.
  - intros n Hnot. rewrite fmap_cons in Hnot. apply not_elem_of_cons in Hnot as [Hne Hnot].
    rewrite Hout by done. cbn. by rewrite lookup_insert_ne.
Qed.

(** Reading the arguments: the entries hold the last settings. *)
Definition holds_settings (fields : list (structField FT)) (settings : list (structField FT * value V))
    (cur : string -> option (value V)) (s : fstate FT V) : Prop :=
  forall fd, fd ∈ fields -> st_formal s !! flag_name fd = Some (basic_entry (fd_Type fd) (last_setting (flag_name fd) settings (cur (flag_name fd)))).

Lemma str_mem_prefix name r : str_mem "=" name = false -> split2 "=" (name +:+ String "=" r)%string = (name, Some r).
Proof. apply split2_app. Qed.

Lemma render_parsed fd v rest s : simple_field fd ->
  Parse (render (fd, v) :: rest) s =
  match st_formal s !! flag_name fd with
  | None => (if bool_decide (flag_name fd = "help"%string \/ flag_name fd = "h"%string) then fails EHelp else fails (ENotDefined (flag_name fd))) s
  | Some e => (set_entry (flag_name fd) (value_text v) e ≫= fun _ => Parse rest) s
  end.
Proof.
  intros [_ _ _ (Hne & _ & Hlegal & _)]. unfold legal_name in Hlegal. breflect. unfold render. cbn [fst snd].
  remember (flag_name fd) as fname eqn:E in *. clear E. destruct fname as [|c name]; [done|]. rewrite str_app_cons.
  assert (Ascii.eqb c "-" = false) as Hdash.
  { apply Ascii.eqb_neq. intros ->. cbn in *. by destruct name. }
  match goal with Hmem : str_mem "=" _ = false |- _ => pose proof Hmem as Heq end.
  cbn [str_mem] in Heq. apply orb_false_iff in Heq as [Hceq Hmem].
  cbn [Parse]. rewrite Hdash. cbn [andb].
  assert (String.prefix "-" (String c (name +:+ String "=" (value_text v))) = false) as ->.
  { cbn [String.prefix]. destruct (Ascii.ascii_dec "-" c) as [<-|]; [by cbn in Hdash|done]. }
  assert (String.prefix "=" (String c (name +:+ String "=" (value_text v))) = false) as ->.
  { cbn [String.prefix]. destruct (Ascii.ascii_dec "=" c) as [<-|]; [by cbn in Hceq|done]. }
  cbn [orb split2]. rewrite Hceq, str_mem_prefix by done. unfold mbind, prog_bind, get.
  by destruct (st_formal s !! String c name).
Qed.

Lemma set_basic name t v o s : is_basic t = true -> basic_value t v ->
  set_entry name (value_text v) (basic_entry t o) s
  = (st_set_formal (<[name := basic_entry t (Some v)]> (st_formal s)) s, Ret tt).
Proof.
  destruct t, v; try done; intros _ Hv; cbn in Hv |- *.
  - by rewrite ParseBool_FormatBool.
  - unfold put_entry. by rewrite ParseInt_FormatInt_base0.
Qed.

Lemma basic_name_inj (fields : list (structField FT)) fd fd' :
  NoDup (flag_name <$> fields) -> fd ∈ fields -> fd' ∈ fields -> flag_name fd = flag_name fd' -> fd = fd'.
Proof.
  intros Hd Hin Hin' E. apply list_elem_of_lookup in Hin as [i Hi]. apply list_elem_of_lookup in Hin' as [j Hj].
  assert (i = j) as ->; [|congruence].
  eapply (NoDup_lookup _ _ _ (flag_name fd) Hd); rewrite list_lookup_fmap; [by rewrite Hi|by rewrite Hj, E].
Qed.

Lemma parse_settings fields settings : forall cur s,
  Forall simple_field fields -> NoDup (flag_name <$> fields) ->
  Forall (fun st => st.1 ∈ fields /\ basic_value (fd_Type st.1) st.2) settings ->
  holds_settings fields [] cur s ->
  exists m, Parse (render <$> settings) s = (st_set_args [] (st_set_formal m s), Ret tt) /\
    holds_settings fields settings cur (st_set_args [] (st_set_formal m s)).
Proof.
  induction settings as [|[fd v] settings IH]; intros cur s Hf Hd Hset Hs.
  { exists (st_formal s). split; [by destruct s|exact Hs]. }
  apply Forall_cons in Hset as [[Hin Hv] Hset]. cbn [fst snd] in Hin, Hv.
  pose proof (proj1 (Forall_forall _ _) Hf fd Hin) as Hfd.
  rewrite fmap_cons, render_parsed, (Hs fd Hin) by done.
  unfold mbind, prog_bind. rewrite set_basic by (try apply sf_basic; done).
  set (s1 := st_set_formal _ s).
  destruct (IH (fun n => if bool_decide (flag_name fd = n) then Some v else cur n) s1) as (m & Hm & Hh); [done..| |].
  { intros fd' Hin'. cbn. case_bool_decide as E.
    - apply (basic_name_inj fields) in E; [|done..]. subst fd'. by rewrite lookup_insert_eq.
    - rewrite lookup_insert_ne by done. apply (Hs fd' Hin'). }
  exists m. split; [exact Hm|]. intros fd' Hin'. exact (Hh fd' Hin').
Qed.

Definition typed_option (t : gotype FT) (o : option (value V)) : Prop := forall v, o = Some v -> basic_value t v.

Lemma last_setting_typed fields fd settings : forall cur,
  NoDup (flag_name <$> fields) -> fd ∈ fields ->
  Forall (fun st => st.1 ∈ fields /\ basic_value (fd_Type st.1) st.2) settings ->
  typed_option (fd_Type fd) cur -> typed_option (fd_Type fd) (last_setting (flag_name fd) settings cur).
Proof.
  induction settings as [|[fd' v] settings IH]; intros cur Hd Hin Hset Hc; [done|].
  apply Forall_cons in Hset as [[Hin' Hv] Hset]. cbn [last_setting]. apply IH; [done..|].
  case_bool_decide as E; [|done]. apply (basic_name_inj fields) in E; [|done..]. subst fd'. by intros v' [= <-].
Qed.

(** Storing what an entry holds. *)
Lemma store_simple i fd s old o :
  simple_field fd -> typed_option (fd_Type fd) o -> st_values s !! i = Some old ->
  st_formal s !! flag_name fd = Some (basic_entry (fd_Type fd) o) ->
  forall (k : unit -> flagM (gset nat * option (nat * structField FT))),
  let info := mkFlagInfo (V:=V) (flag_name fd) EmptyString NilVal false EmptyString false false 0 false false in
  (find_value fd info ≫= fun r => (match r with Continue => mret tt | Found val isSet => store_value i fd info val isSet end) ≫= k) s
  = k tt (st_set_values (<[i := stored old o]> (st_values s)) s).
Proof.
  intros Hfd Ho Hold Hentry k info. unfold find_value, info. cbn [fi_Positional fi_IsFlagVal fi_Name].
  unfold mbind, prog_bind, get. rewrite Hentry.
  assert (entry_Get (basic_entry (fd_Type fd) o) =
          Some (match fd_Type fd, o with
                | TBool, Some (VBool b) => BoolVal b | TBool, _ => BoolVal false
                | TInt, Some (VInt z) => IntVal z | TInt, _ => IntVal 0
                | _, Some (VString x) => StrVal x | _, _ => StrVal EmptyString end)) as ->.
  { pose proof (sf_basic _ Hfd) as Hb. destruct (fd_Type fd); try discriminate Hb; by destruct o as [[]|]. }
  assert (forall w : value V, st_set_values (<[i := old]> (st_values s)) s = s) as Hid.
  { intros _. rewrite list_insert_id by done. by destruct s. }
  unfold store_value, set_field. rewrite (sf_exported _ Hfd).
  pose proof (sf_basic _ Hfd) as Hb.
  destruct (fd_Type fd); try discriminate Hb; destruct o as [v|];
    try (specialize (Ho v eq_refl); destruct v; try done);
    cbn [fi_Required fi_DefaultSet fi_IsFlagVal fi_Name andb negb orb IsZero stored zero_value mret prog_ret put_value modify mbind prog_bind get];
    unfold mret, prog_ret, mbind, prog_bind, get, put_value, modify;
    try (rewrite Hid by exact old; done).
  - destruct b; cbn [negb]; [rewrite Hold; done|]. by rewrite Hid by exact old.
  - case_bool_decide; [by rewrite Hid by exact old|]. rewrite Hold. done.
  - destruct (z =? 0); [by rewrite Hid by exact old|]. rewrite Hold. done.
Qed.

Lemma unmarshal_simple fields (sets : string -> option (value V)) : forall before olds s,
  Forall simple_field fields -> length olds = length fields ->
  st_values s = before ++ olds ->
  (forall fd, fd ∈ fields -> typed_option (fd_Type fd) (sets (flag_name fd))) ->
  (forall fd, fd ∈ fields -> st_formal s !! flag_name fd = Some (basic_entry (fd_Type fd) (sets (flag_name fd)))) ->
  unmarshal_loop (length before) fields ∅ None s =
  (st_set_values (before ++ zip_with (fun fd old => stored old (sets (flag_name fd))) fields olds) s, Ret (∅, None)).
Proof.
  induction fields as [|fd fields IH]; intros before olds s Hf Hlen Hvals Hty Hform.
  { destruct olds; [|done]. cbn [unmarshal_loop zip_with]. unfold mret, prog_ret. rewrite <-Hvals. by destruct s. }
  destruct olds as [|old olds]; [done|]. apply Forall_cons in Hf as [Hfd Hf].
  cbn [unmarshal_loop]. rewrite (sf_flag _ Hfd).
  unfold mbind at 1, prog_bind at 1. unfold ok_or. rewrite (simple_info _ Hfd). unfold mret at 1, prog_ret at 1. cbn [fi_Extra fi_Positional andb].
  assert (st_values s !! length before = Some old) as Hold by (rewrite Hvals; by apply list_lookup_middle).
  rewrite (store_simple (length before) fd s old (sets (flag_name fd)) Hfd (Hty fd ltac:(by left)) Hold (Hform fd ltac:(by left))
             (fun _ => unmarshal_loop (S (length before)) fields ∅ None)).
  set (new := stored old (sets (flag_name fd))).
  assert (<[length before := new]> (st_values s) = (before ++ [new]) ++ olds) as Hins.
  { rewrite Hvals, insert_app_r_alt, Nat.sub_diag by lia. simpl. by rewrite <-app_assoc. }
  rewrite Hins. replace (S (length before)) with (length (before ++ [new])) by (rewrite length_app; simpl; lia).
  rewrite (IH (before ++ [new]) olds).
  - cbn [zip_with]. by rewrite <-app_assoc.
  - done.
  - by injection Hlen.
  - done.
  - intros fd' Hin. apply Hty. by right.
  - intros fd' Hin. apply Hform. by right.
Qed.

End BasicFlags.

(** ** No panics *)

Section SafeFlags.
Context {FT V : Type} `{FlagValues FT V} `{EqDecision FT}.
Implicit Types (fd : structField FT) (v : value V) (info : flagInfo (V:=V)).

(** A value of a type. *)
Fixpoint value_ok (t : gotype FT) v : Prop :=
  match t, v with
  | TBool, VBool _ | TString, VString _ | TInt, VInt _ | TFlag _, VFlag _ | TOther _, VOther => True
  | TSlice e, VSlice vs => Forall (value_ok e) vs
  | TPtr e, VPtr o => match o with Some v => value_ok e v | None => True end
  | _, _ => False
  end.

(** A field with a flag, that is not the one for extra arguments. *)
Definition flagged fd info : Prop :=
  exists str, fd_flag fd = Some str /\ parseFlagInfo fd str = inl info /\ fi_Extra info = false.

(** Types that the code can declare but not store: pointers to slices, slices of
    pointers to flag.Values, and pointers to flag.Values that are positional or
    have no Get. *)
Definition storable info (t : gotype FT) : Prop :=
  match t with
  | TPtr (TSlice e) => implements e = false
  | TSlice (TPtr (TFlag _)) => False
  | TPtr (TFlag f) => fi_Positional info = false /\ forall v : V, is_Some (fv_Get f v)
  | TFlag f => fv_kind f <> KPtr
  | _ => True
  end.
Record well_formed (fields : list (structField FT)) : Prop := {
  wf_exported fd : fd ∈ fields -> is_Some (fd_flag fd) -> fd_exported fd = true;
  wf_extra fd str : fd ∈ fields -> fd_flag fd = Some str -> forall info, parseFlagInfo fd str = inl info ->
    fi_Extra info = true -> fd_Type fd = TSlice TString;
  wf_names fd info : fd ∈ fields -> flagged fd info -> legal_name (fi_Name info) = true /\ storable info (fd_Type fd);
  wf_distinct i j fd1 fd2 info1 info2 : fields !! i = Some fd1 -> fields !! j = Some fd2 ->
    flagged fd1 info1 -> flagged fd2 info2 -> fi_Name info1 = fi_Name info2 -> i = j;
}.

(** What a default is, by the type of its field. *)
Definition default_ok (t : gotype FT) (d : fval V) : Prop :=
  match d with
  | NilVal => True
  | BoolVal _ => t = TBool \/ exists f, t = TFlag f
  | StrVal _ => t = TString \/ exists f, t = TFlag f
  | IntVal _ => t = TInt \/ exists f, t = TFlag f
  | _ => False
  end.
Record info_ok (t : gotype FT) info : Prop := {
  io_flag : fi_IsFlagVal info = implements t;
  io_default : default_ok t (fi_DefaultIfc info);
  io_set : fi_DefaultSet info = true -> fi_DefaultIfc info <> NilVal;
  io_nil : fi_DefaultIfc info = NilVal -> fi_Default info = EmptyString;
}.

Lemma default_value_ok fieldName name t d x :
  (forall f, t = TFlag f -> fv_kind f <> KPtr) -> default_value (V:=V) fieldName name t d = inl x -> default_ok t x /\ x <> NilVal.
Proof.
  intros Hk. unfold default_value. destruct (Kind t) eqn:Hkind; try done.
  - destruct (ParseBool d); [|done]. intros [= <-]. split; [|done]. destruct t; try discriminate Hkind; cbn; eauto.
  - intros [= <-]. split; [|done]. destruct t; try discriminate Hkind; cbn; eauto.
  - destruct (ParseInt 10 64 d); [|done]. intros [= <-]. split; [|done]. destruct t; try discriminate Hkind; cbn; eauto.
Qed.

Lemma flag_options_ok fieldName t parts : forall info info',
  (forall f, t = TFlag f -> fv_kind f <> KPtr) -> info_ok t info -> flag_options fieldName t parts info = inl info' -> info_ok t info'.
Proof.
  induction parts as [|part parts IH]; intros info info' Hk Hi; cbn [flag_options]; [by intros [= <-]|].
  destruct info as [name def ifc defSet usage req positional pos isFlag extra].
  destruct Hi as [H1 H2 H3 H4]. cbn in H1, H2, H3, H4.
  assert (forall req' usage' extra' info'', flag_options fieldName t parts
            (mkFlagInfo name def ifc defSet usage' req' positional pos isFlag extra') = inl info'' -> info_ok t info'') as Hrec.
  { intros req' usage' extra' info''. apply IH; [done|]. by split. }
  destruct (split2 "=" part) as [key [arg|]]; intros Ho; split_match_in Ho; try discriminate Ho; try (by apply Hrec in Ho).
  match goal with Hd : default_value _ _ _ _ = inl _ |- _ => apply default_value_ok in Hd as [Hd1 Hd2]; [|done] end.
  apply IH in Ho; [done|done|]. by split.
Qed.

Lemma parseFlagInfo_ok fd str info :
  (forall f, fd_Type fd = TFlag f -> fv_kind f <> KPtr) -> parseFlagInfo fd str = inl info -> info_ok (fd_Type fd) info.
Proof.
  intros Hk. unfold parseFlagInfo. destruct (split_char "," str) as [|first parts] eqn:Hs; [by apply split_char_ne in Hs|].
  intros Ho. destruct (ParseInt 10 64 _) in Ho; (eapply flag_options_ok; [done| |exact Ho]; by split).
Qed.

(** The entry of a field. *)
Definition entry_for (i : nat) fd (e : entry FT V) : Prop :=
  match fd_Type fd with
  | TFlag f => exists b own, e = EnProxy f b (Some i) own
  | TPtr (TFlag f) => exists b own, e = EnProxy f b None own
  | t =>
      match deref t, e with
      | TBool, EnBool _ | TString, EnString _ | TInt, EnInt _ => True
      | TSlice el, EnSlice el' vs => el' = el /\ Forall (value_ok el) vs /\ exists f, el = TFlag f
      | _, _ => False
      end
  end.

Context (fields : list (structField FT)) (WF : well_formed fields).

Definition values_ok (s : fstate FT V) : Prop := Forall2 (fun fd v => value_ok (fd_Type fd) v) fields (st_values s).
(** Every entry belongs to a field, and the first [k] fields have theirs. *)
Record declared (k : nat) (s : fstate FT V) : Prop := {
  dc_values : values_ok s;
  dc_entries name e : st_formal s !! name = Some e ->
    exists i fd info, (i < k)%nat /\ fields !! i = Some fd /\ flagged fd info /\ fi_Name info = name /\ entry_for i fd e;
  dc_fields i fd info : (i < k)%nat -> fields !! i = Some fd -> fd_exported fd = true -> flagged fd info ->
    is_Some (st_formal s !! fi_Name info);
}.
Definition error_ok (_ : flagError) (s : fstate FT V) : Prop := values_ok s.

Lemma flagged_info fd info : fd ∈ fields -> flagged fd info -> info_ok (fd_Type fd) info.
Proof.
  intros Hin Hfl. destruct (wf_names _ WF _ _ Hin Hfl) as [_ Hst]. destruct Hfl as (str & Hs & Hp & _).
  apply (parseFlagInfo_ok fd str); [|done]. intros f Ht. rewrite Ht in Hst. exact Hst.
Qed.

Lemma field_entry k s i fd info : declared k s -> (i < k)%nat -> fields !! i = Some fd -> fd_exported fd = true -> flagged fd info ->
  exists e, st_formal s !! fi_Name info = Some e /\ entry_for i fd e.
Proof.
  intros Hd Hi Hfd Hex Hfl. destruct (dc_fields _ _ Hd _ _ _ Hi Hfd Hex Hfl) as [e He]. exists e. split; [done|].
  destruct (dc_entries _ _ Hd _ _ He) as (j & fd' & info' & _ & Hj & Hfl' & Hname & Hent).
  assert (j = i) as -> by by apply (wf_distinct _ WF j i fd' fd info' info).
  congruence.
Qed.

Lemma value_at s i fd : values_ok s -> fields !! i = Some fd -> exists v, st_values s !! i = Some v /\ value_ok (fd_Type fd) v.
Proof.
  intros Hv Hfd. destruct (Forall2_lookup_l _ _ _ _ _ Hv Hfd) as (v & ? & ?). by exists v.
Qed.

Lemma values_ok_put s i fd v : values_ok s -> fields !! i = Some fd -> value_ok (fd_Type fd) v ->
  values_ok (st_set_values (<[i := v]> (st_values s)) s).
Proof.
  intros Hs Hfd Hv. unfold values_ok. cbn. rewrite <-(list_insert_id fields i fd) by done. by apply Forall2_insert.
Qed.

Lemma declared_put_value k s i fd v : declared k s -> fields !! i = Some fd -> value_ok (fd_Type fd) v ->
  declared k (st_set_values (<[i := v]> (st_values s)) s).
Proof. intros [Hv He Hf] Hfd Hval. split; [by apply (values_ok_put s i fd)|done|done]. Qed.

Lemma declared_put_entry k s i fd info e :
  declared k s -> (i < k)%nat -> fields !! i = Some fd -> flagged fd info -> entry_for i fd e ->
  declared k (st_set_formal (<[fi_Name info := e]> (st_formal s)) s).
Proof.
  intros [Hv He Hf] Hi Hfd Hfl Hent. split; [done| |].
  - cbn. intros name e' [[<- <-]|[Hne Hl]]%lookup_insert_Some; [by exists i, fd, info|by apply He].
  - cbn. intros j fd' info' Hj Hfd' Hex Hfl'. destruct (decide (fi_Name info = fi_Name info')) as [<-|Hne].
    + rewrite lookup_insert_eq. by eexists.
    + rewrite lookup_insert_ne by done. by apply (Hf j fd').
Qed.

Ltac prog_simpl := unfold put_entry, put_value, invalid, mbind, prog_bind, mret, prog_ret, get, modify, fails, panics in *; cbn beta iota in *.

Lemma slice_snoc f vs (w : V) : Forall (value_ok (TFlag f)) vs -> Forall (value_ok (TFlag f)) (vs ++ [VFlag w]).
Proof. intros Hvs. apply Forall_app. split; [done|]. by constructor; [|constructor]. Qed.

(** Setting a flag. *)
Lemma set_entry_safe k s i fd info val e :
  declared k s -> (i < k)%nat -> fields !! i = Some fd -> flagged fd info -> entry_for i fd e ->
  match set_entry (fi_Name info) val e s with
  | (s', Ret _) => declared k s'
  | (s', Err _) => declared k s'
  | (_, Panicking) => False
  end.
Proof.
  intros Hd Hi Hfd Hfl Hent.
  pose proof (fun e' => declared_put_entry k s i fd info e' Hd Hi Hfd Hfl) as Hput.
  destruct (value_at s i fd (dc_values _ _ Hd) Hfd) as (v & Hv & Hok).
  destruct e as [b|x|z|el vs|f isSet [j|] own]; cbn [set_entry]; prog_simpl.
  - destruct (ParseBool val); [|done]. apply Hput. unfold entry_for in *. destruct (fd_Type fd) as [| | | | |[]|]; try done; naive_solver.
  - apply Hput. unfold entry_for in *. destruct (fd_Type fd) as [| | | | |[]|]; try done; naive_solver.
  - destruct (ParseInt 0 64 val); [|done]. apply Hput. unfold entry_for in *. destruct (fd_Type fd) as [| | | | |[]|]; try done; naive_solver.
  - assert (exists f, el = TFlag f) as [f ->].
    { unfold entry_for in Hent. destruct (fd_Type fd) as [| | | | |[]|]; naive_solver. }
    destruct (fv_Set f val (fv_zero f)) as [w [err|]]; [done|]. apply Hput. unfold entry_for in *.
    destruct (fd_Type fd) as [| | | | |[]|]; cbn in *; try naive_solver;
      (destruct Hent as (<- & Hvs & Hex); split_and!; [done|by apply slice_snoc|done]).
  - assert (j = i /\ fd_Type fd = TFlag f) as [-> Ht].
    { unfold entry_for in Hent. destruct (fd_Type fd) as [| | | | |[]|]; naive_solver. }
    rewrite Ht in Hok. cbn [st_values st_set_formal]. rewrite Hv. destruct v; try done.
    specialize (Hput (EnProxy f true (Some i) own)). unfold entry_for in Hput. rewrite Ht in Hput.
    specialize (Hput (ex_intro _ true (ex_intro _ own eq_refl))).
    destruct (fv_Set f val v) as [w err].
    pose proof (declared_put_value k _ i fd (VFlag w) Hput Hfd) as Hput2. rewrite Ht in Hput2. specialize (Hput2 I).
    by destruct err.
  - assert (fd_Type fd = TPtr (TFlag f)) as Ht.
    { unfold entry_for in Hent. destruct (fd_Type fd) as [| | | | |[]|]; naive_solver. }
    destruct (fv_Set f val own) as [w err]. specialize (Hput (EnProxy f true None w)). unfold entry_for in Hput. rewrite Ht in Hput.
    specialize (Hput (ex_intro _ true (ex_intro _ w eq_refl))). by destruct err.
Qed.

Definition all_declared : fstate FT V -> Prop := declared (length fields).
Definition safe {A} (P : fstate FT V -> Prop) (m : flagM A) (Q : A -> fstate FT V -> Prop) : Prop := triple P m Q error_ok.

Lemma set_named_safe s name e val : all_declared s -> st_formal s !! name = Some e ->
  match set_entry name val e s with
  | (s', Ret _) => all_declared s'
  | (s', Err _) => values_ok s'
  | (_, Panicking) => False
  end.
Proof.
  intros Hd Hn. destruct (dc_entries _ _ Hd _ _ Hn) as (i & fd & info & Hi & Hfd & Hfl & <- & Hent).
  pose proof (set_entry_safe _ s i fd info val e Hd Hi Hfd Hfl Hent) as Hs.
  destruct (set_entry _ _ _ _) as [s' [[]| |]]; [done|by apply dc_values in Hs|done].
Qed.

Lemma Parse_safe n : forall args, (length args <= n)%nat -> safe all_declared (Parse args) (fun _ => all_declared).
Proof.
  assert (forall args, safe all_declared (modify (st_set_args args)) (fun _ => all_declared)) as Hstop.
  { intros args s [H1 H2 H3]. by split. }
  induction n as [|n IH]; intros [|arg rest] Hlen; try (cbn in Hlen; lia); [apply Hstop..|]. cbn in Hlen.
  assert (forall name val e (k : flagM unit), (forall s', all_declared s' -> match k s' with (s2, Ret _) => all_declared s2 | (s2, Err e2) => error_ok e2 s2 | (_, Panicking) => False end) ->
      forall s, all_declared s -> st_formal s !! name = Some e ->
      match (set_entry name val e ≫= fun _ => k) s with (s2, Ret _) => all_declared s2 | (s2, Err e2) => error_ok e2 s2 | (_, Panicking) => False end) as Hset.
  { intros name val e k Hk s Hs He. pose proof (set_named_safe s name e val Hs He) as Hn. unfold mbind, prog_bind.
    destruct (set_entry name val e s) as [s2 [[]| |]]; [by apply Hk|done|done]. }
  intros s Hs. cbn [Parse].
  destruct arg as [|c0 [|c more]]; [by apply Hstop| |].
  { destruct c0 as [[] [] [] [] [] [] [] []]; by apply Hstop. }
  destruct (Ascii.ascii_dec c0 "-") as [->|Hne].
  2: { destruct c0 as [[] [] [] [] [] [] [] []]; (by apply Hstop) || done. }
  destruct (_ && bool_decide _); [by apply Hstop|].
  set (name := if Ascii.eqb c "-" then more else String c more).
  destruct (_ || _); [apply (dc_values _ _ Hs)|].
  destruct (split2 "=" name) as [nm val]. unfold mbind at 1, prog_bind at 1, get at 1.
  destruct (st_formal s !! nm) as [e|] eqn:He.
  2: { case_bool_decide; apply (dc_values _ _ Hs). }
  destruct val as [v|].
  { apply Hset; [|done|done]. intros s' Hs'. apply (IH rest ltac:(lia) s' Hs'). }
  destruct (is_bool_flag e).
  { apply Hset; [|done|done]. intros s' Hs'. apply (IH rest ltac:(lia) s' Hs'). }
  destruct rest as [|v rest']; [apply (dc_values _ _ Hs)|].
  apply Hset; [|done|done]. intros s' Hs'. apply (IH rest' ltac:(cbn in *; lia) s' Hs').
Qed.

(** Declaring. *)
Lemma Var_safe i fd info e :
  fields !! i = Some fd -> fd_exported fd = true -> flagged fd info -> entry_for i fd e ->
  safe (declared i) (Var (fi_Name info) e) (fun _ => declared (S i)).
Proof.
  intros Hfd Hex Hfl Hent s Hd. unfold Var, mbind, prog_bind, get.
  destruct (wf_names _ WF fd info) as [-> _]; [by apply list_elem_of_lookup_2 in Hfd|done|].
  cbn [andb]. assert (st_formal s !! fi_Name info = None) as Hnew.
  { destruct (st_formal s !! fi_Name info) as [e'|] eqn:E; [|done].
    destruct (dc_entries _ _ Hd _ _ E) as (j & fd' & info' & Hj & Hfd' & Hfl' & Hn & _).
    pose proof (wf_distinct _ WF j i fd' fd info' info Hfd' Hfd Hfl' Hfl Hn). lia. }
  rewrite Hnew, bool_decide_eq_true_2 by done. unfold put_entry, modify. destruct Hd as [Hv He Hf]. split; [done| |].
  - cbn. intros name e' [[<- <-]|[Hne Hl]]%lookup_insert_Some; [by exists i, fd, info; eauto 10 with lia|].
    destruct (He _ _ Hl) as (j & fd' & info' & Hj & ?). exists j, fd', info'. split; [lia|done].
  - cbn. intros j fd' info' Hj Hfd' Hex' Hfl'. destruct (decide (fi_Name info = fi_Name info')) as [<-|Hne].
    + rewrite lookup_insert_eq. by eexists.
    + rewrite lookup_insert_ne by done. apply (Hf j fd'); [|done..].
      assert (j <> i); [|lia]. intros ->. apply Hne. assert (fd' = fd) as -> by congruence.
      destruct Hfl as (x & Hx1 & Hx2 & _), Hfl' as (y & Hy1 & Hy2 & _). congruence.
Qed.

Lemma extract_field_safe i fd info :
  fields !! i = Some fd -> fd_exported fd = true -> flagged fd info ->
  safe (declared i) (extract_field i fd info) (fun _ => declared (S i)).
Proof.
  intros Hfd Hex Hfl. assert (fd ∈ fields) as Hin by by apply list_elem_of_lookup_2 in Hfd.
  destruct (flagged_info fd info Hin Hfl) as [Hif Hid His Hin0].
  destruct (wf_names _ WF fd info Hin Hfl) as [_ Hst].
  pose proof (fun e => Var_safe i fd info e Hfd Hex Hfl) as HVar.
  assert (forall e, safe (declared i) (fails (A:=unit) e) (fun _ => declared (S i))) as Hfail.
  { intros e s Hs. apply (dc_values _ _ Hs). }
  unfold extract_field, entry_for in *. rewrite Hif.
  destruct (fd_Type fd) as [| | |f|el|[| | |f|el|el|nm]|nm] eqn:Ht; cbn [implements deref]; cbn in Hst, Hid, HVar;
    try (by apply Hfail); try (by apply HVar; eauto); try done;
    try (case_bool_decide as Hd; [by apply HVar|]; destruct (fi_DefaultIfc info) eqn:E; cbn in Hid;
         try (by destruct Hid as [?|[? ?]]); try (by rewrite Hin0 in Hd); by apply HVar).
  - destruct el as [| | |f|el|el|nm]; cbn [implements]; try (by apply Hfail).
    + apply HVar. split_and!; [done|constructor|eauto].
    + destruct el; cbn [implements]; try (by apply Hfail). done.
  - rewrite Hst. apply Hfail.
Qed.

Lemma declared_skip i fd s : declared i s -> fields !! i = Some fd ->
  (fd_exported fd = false \/ forall info, ~ flagged fd info) -> declared (S i) s.
Proof.
  intros [Hv He Hf] Hfd Hno. split; [done| |].
  - intros name e Hl. destruct (He _ _ Hl) as (j & fd' & info & Hj & ?). exists j, fd', info. split; [lia|done].
  - intros j fd' info Hj Hfd' Hex Hfl. destruct (decide (j = i)) as [->|]; [|apply (Hf j fd'); [lia|done..]].
    assert (fd' = fd) as -> by congruence. destruct Hno as [Hno|Hno]; [congruence|by destruct (Hno info)].
Qed.

Lemma extract_loop_safe rest : forall i extra, fields = take i fields ++ rest -> (i <= length fields)%nat ->
  safe (declared i) (extract_loop i rest extra) (fun _ => all_declared).
Proof.
  induction rest as [|fd rest IH]; intros i extra Hf Hi.
  { intros s Hs. cbn [extract_loop]. unfold mret, prog_ret, all_declared.
    replace (length fields) with i; [done|]. apply (f_equal length) in Hf. rewrite length_app, length_take in Hf. cbn in Hf. lia. }
  assert (fields !! i = Some fd) as Hfd.
  { rewrite Hf. rewrite lookup_app_r by (rewrite length_take; lia). rewrite length_take, Nat.min_l, Nat.sub_diag by lia. done. }
  assert (S i <= length fields)%nat as Hi' by (apply lookup_lt_Some in Hfd; lia).
  assert (fields = take (S i) fields ++ rest) as Hf'.
  { rewrite (take_S_r _ _ fd) by done. rewrite <-app_assoc. exact Hf. }
  assert (fd_exported fd = false \/ (forall info, ~ flagged fd info) -> forall extra',
          safe (declared i) (extract_loop (S i) rest extra') (fun _ => all_declared)) as Hskip.
  { intros Hno extra' s Hs. apply (IH (S i) extra' Hf' Hi'). by apply (declared_skip i fd). }
  cbn [extract_loop]. destruct (fd_exported fd) eqn:Hex; cbn [negb]; [|apply Hskip; by left].
  destruct (fd_flag fd) as [str|] eqn:Hstr.
  2: { apply Hskip. right. intros info (x & Hx & _). congruence. }
  destruct (parseFlagInfo fd str) as [info|e] eqn:Hp.
  2: { intros s Hs. apply (dc_values _ _ Hs). }
  cbn [ok_or]. intros s Hs. unfold mbind at 1, prog_bind at 1, mret at 1, prog_ret at 1.
  destruct (fi_Extra info) eqn:Hx.
  - destruct extra as [first|]; [apply (dc_values _ _ Hs)|]. apply Hskip; [|done].
    right. intros info' (y & Hy1 & Hy2 & Hy3). congruence.
  - assert (flagged fd info) as Hfl by by exists str.
    pose proof (extract_field_safe i fd info Hfd Hex Hfl s Hs) as He. unfold mbind, prog_bind.
    destruct (extract_field i fd info s) as [s1 [[]| |]]; [|done|done]. by apply (IH (S i) extra Hf' Hi').
Qed.

(** What is found for a field that is not a flag.Value. *)
Definition plain_ok (t : gotype FT) (val : fval V) : Prop :=
  match val with
  | NilVal => True
  | BoolVal _ => deref t = TBool
  | StrVal _ => deref t = TString
  | IntVal _ => deref t = TInt
  | SliceVal vs => exists f, t = TSlice (TFlag f) /\ Forall (value_ok (TFlag f)) vs
  | GotVal _ => False
  end.
Definition found_ok fd info (r : found (V:=V)) : Prop :=
  match r with
  | Continue => True
  | Found val isSet =>
      if fi_IsFlagVal info then
        if isSet then exists f (w : V), fd_Type fd = TPtr (TFlag f) /\ val = GotVal w
        else exists x, val = StrVal x /\ forall e, fd_Type fd = TPtr e -> x = EmptyString
      else isSet = false /\ plain_ok (fd_Type fd) val
  end.

Lemma pointer_default fd info e : info_ok (fd_Type fd) info -> fd_Type fd = TPtr e ->
  fi_Default info = EmptyString /\ fi_DefaultSet info = false.
Proof.
  intros [_ Hd Hs Hn] Ht. rewrite Ht in Hd. assert (fi_DefaultIfc info = NilVal) as E.
  { destruct (fi_DefaultIfc info); try done; by destruct Hd as [?|[? ?]]. }
  split; [by apply Hn|]. destruct (fi_DefaultSet info); [by destruct (Hs eq_refl)|done].
Qed.

Lemma default_plain t info : info_ok t info -> implements t = false -> plain_ok t (fi_DefaultIfc info).
Proof.
  intros [_ Hd _ _] Him. unfold default_ok in Hd.
  destruct (fi_DefaultIfc info); try done; cbn; destruct Hd as [->|[f ->]]; done.
Qed.

Lemma find_value_safe s i fd info :
  all_declared s -> fields !! i = Some fd -> flagged fd info ->
  match find_value fd info s with
  | (s', Ret r) => s' = s /\ found_ok fd info r
  | (s', Err _) => s' = s
  | (_, Panicking) => False
  end.
Proof.
  intros Hd Hfd Hfl. assert (fd ∈ fields) as Hin by by apply list_elem_of_lookup_2 in Hfd.
  pose proof (flagged_info fd info Hin Hfl) as Hio. destruct (wf_names _ WF fd info Hin Hfl) as [_ Hst].
  pose proof (io_flag _ _ Hio) as Hif.
  assert (fd_exported fd = true) as Hex.
  { apply (wf_exported _ WF fd Hin). destruct Hfl as (x & -> & _). by eexists. }
  destruct (field_entry (length fields) s i fd info Hd) as (e & He & Hent); [by apply lookup_lt_Some in Hfd|done..|].
  unfold find_value, mbind, prog_bind, get, mret, prog_ret, found_ok. rewrite He, Hif.
  destruct (fi_Positional info) eqn:Hpos.
  - set (strVal := Arg _ _). destruct (implements (fd_Type fd)) eqn:Him.
    + split; [done|]. eexists. split; [done|]. intros e' Ht. exfalso.
      rewrite Ht in Him, Hst. destruct e'; try done. by destruct Hst as [? _]; congruence.
    + unfold ok_or, positional_value. case_bool_decide.
      { split_and!; [done|done|]. by apply default_plain. }
      destruct (Kind (fd_Type fd)) eqn:Hk; try done.
      * destruct (ParseBool strVal); [|done]. split_and!; [done|done|]. destruct (fd_Type fd); try done.
      * split_and!; [done|done|]. destruct (fd_Type fd); try done.
      * destruct (ParseInt 10 64 strVal); [|done]. split_and!; [done|done|]. destruct (fd_Type fd); try done.
  - destruct (implements (fd_Type fd)) eqn:Him.
    + unfold entry_for in Hent. destruct (fd_Type fd) as [| | |f|el|[| | |f|el|el|nm]|nm] eqn:Ht; try done.
      * destruct Hent as (b & own & ->). cbn in Hst. destruct b; cbn [Kind].
        { by destruct (fv_kind f) eqn:Hk. }
        split; [done|]. eexists. split; [done|]. done.
      * destruct Hent as (b & own & ->). destruct b.
        { cbn [Kind entry_Get]. destruct Hst as [_ Hget]. destruct (Hget own) as [w Hw]. rewrite Hw.
          split; [done|]. by exists f, w. }
        split; [done|]. eexists. split; [done|]. intros e' [= <-].
        apply (pointer_default fd info (TFlag f)); [|done]. by rewrite Ht.
    + unfold entry_for in Hent.
      destruct (fd_Type fd) as [| | |f|el|[| | |f|el|el|nm]|nm] eqn:Ht; try done; destruct e; try done; cbn [entry_Get].
      all: try done.
      * destruct Hent as (-> & Hvs & f & ->). split_and!; [done|done|]. by exists f.
      * by destruct Hent as (_ & _ & f & ->).
Qed.

(** The value of a field changes within its type. *)
Definition values_after (r : fstate FT V * ended flagError unit) : Prop :=
  match r with (s', Ret _) => values_ok s' | (s', Err _) => values_ok s' | (_, Panicking) => False end.
Definition only_values (s : fstate FT V) (r : fstate FT V * ended flagError unit) : Prop :=
  st_formal r.1 = st_formal s /\ st_args r.1 = st_args s.

Lemma set_field_safe s i fd v : values_ok s -> fields !! i = Some fd -> fd_exported fd = true -> value_ok (fd_Type fd) v ->
  set_field i fd v s = (st_set_values (<[i := v]> (st_values s)) s, Ret tt) /\
  values_ok (st_set_values (<[i := v]> (st_values s)) s).
Proof. intros Hs Hfd Hex Hv. unfold set_field. rewrite Hex. split; [done|]. by apply (values_ok_put s i fd). Qed.

Lemma store_value_safe s i fd info val isSet :
  values_ok s -> fields !! i = Some fd -> flagged fd info -> found_ok fd info (Found val isSet) ->
  values_after (store_value i fd info val isSet s) /\ only_values s (store_value i fd info val isSet s).
Proof.
  intros Hs Hfd Hfl Hfo. assert (fd ∈ fields) as Hin by by apply list_elem_of_lookup_2 in Hfd.
  pose proof (flagged_info fd info Hin Hfl) as Hio. pose proof (io_flag _ _ Hio) as Hif.
  assert (fd_exported fd = true) as Hex.
  { apply (wf_exported _ WF fd Hin). destruct Hfl as (x & -> & _). by eexists. }
  destruct (value_at s i fd Hs Hfd) as (old & Hold & Hok).
  pose proof (fun v => set_field_safe s i fd v Hs Hfd Hex) as Hput.
  assert (forall v, value_ok (fd_Type fd) v -> values_after (set_field i fd v s) /\ only_values s (set_field i fd v s)) as Hput1.
  { intros v Hv. destruct (Hput v Hv) as [-> ?]. done. }
  unfold store_value. unfold found_ok in Hfo. destruct (fi_Required info && IsZero val); [done|].
  assert (val = NilVal \/ val <> NilVal) as [->|Hnil] by (destruct val; auto); [done|].
  assert (forall X (a b : X), match val with NilVal => a | _ => b end = b) as -> by (intros; by destruct val).
  destruct (negb (fi_DefaultSet info) && IsZero val) eqn:Hz; [done|].
  rewrite Hif in Hfo |- *. destruct (implements (fd_Type fd)) eqn:Him; cbn [andb].
  - destruct isSet; cbn [negb].
    + destruct Hfo as (f & v & Ht & ->). unfold mbind, prog_bind, get. rewrite Ht, Hold in *. cbn [assign].
      apply Hput1. done.
    + destruct Hfo as (x & -> & Hx). unfold set_flag_value, mbind, prog_bind, get. rewrite Hold.
      destruct (fd_Type fd) as [| | |f|el|[| | |f|el|el|nm]|nm] eqn:Ht; try done.
      * destruct old; try done. destruct (fv_Set f x v) as [w err]. destruct (Hput (VFlag w) I) as [-> ?].
        by destruct err.
      * exfalso. rewrite (Hx _ eq_refl) in Hz. destruct (pointer_default fd info (TFlag f)) as [_ Hds]; [by rewrite Ht|done|].
        rewrite Hds in Hz. by cbn in Hz.
  - destruct Hfo as [-> Hpl]. unfold mbind, prog_bind, get. rewrite Hold.
    destruct val as [|b|x|z|vs|w]; try done; cbn [plain_ok] in Hpl.
    4: { destruct Hpl as (f & Ht & Hvs). rewrite Ht in *. destruct old; try done. apply Hput1. apply Forall_app. by split. }
    all: destruct (fd_Type fd) as [| | |f|el|el|nm] eqn:Ht; cbn [deref] in Hpl; subst; try done; by apply Hput1.
Qed.

Definition extra_ok (extra : option (nat * structField FT)) : Prop :=
  match extra with
  | Some (i, fd) => fields !! i = Some fd /\ fd_exported fd = true /\ fd_Type fd = TSlice TString
  | None => True
  end.

Lemma unmarshal_loop_safe rest : forall i remaining extra s,
  fields = take i fields ++ rest -> (i <= length fields)%nat -> all_declared s -> extra_ok extra ->
  match unmarshal_loop i rest remaining extra s with
  | (s', Ret (_, extra')) => all_declared s' /\ extra_ok extra'
  | (s', Err _) => values_ok s'
  | (_, Panicking) => False
  end.
Proof.
  induction rest as [|fd rest IH]; intros i remaining extra s Hf Hi Hs Hx; [done|].
  assert (fields !! i = Some fd) as Hfd.
  { rewrite Hf. rewrite lookup_app_r by (rewrite length_take; lia). rewrite length_take, Nat.min_l, Nat.sub_diag by lia. done. }
  assert (S i <= length fields)%nat as Hi' by (apply lookup_lt_Some in Hfd; lia).
  assert (fields = take (S i) fields ++ rest) as Hf'.
  { rewrite (take_S_r _ _ fd) by done. rewrite <-app_assoc. exact Hf. }
  assert (fd ∈ fields) as Hin by by apply list_elem_of_lookup_2 in Hfd.
  cbn [unmarshal_loop]. destruct (fd_flag fd) as [str|] eqn:Hstr; [|by apply IH].
  destruct (parseFlagInfo fd str) as [info|e] eqn:Hp; [|by apply (dc_values _ _ Hs)].
  cbn [ok_or]. unfold mbind at 1, prog_bind at 1, mret at 1, prog_ret at 1.
  destruct (fi_Extra info) eqn:Hxi.
  { destruct extra as [[j first]|]; [apply (dc_values _ _ Hs)|]. apply IH; [done..|]. split_and!; [done| |].
    - apply (wf_exported _ WF fd Hin). by rewrite Hstr.
    - by apply (wf_extra _ WF fd str Hin Hstr info). }
  assert (flagged fd info) as Hfl by by exists str.
  match goal with |- context [unmarshal_loop (S i) rest ?x extra] => generalize x; intros rem end.
  pose proof (find_value_safe s i fd info Hs Hfd Hfl) as Hfv.
  unfold mbind at 1, prog_bind at 1. destruct (find_value fd info s) as [s1 [r| |]]; [|subst s1; apply (dc_values _ _ Hs)|done].
  destruct Hfv as [-> Hfo]. unfold mbind, prog_bind.
  assert (values_after ((match r with Continue => mret tt | Found val isSet => store_value i fd info val isSet end) s) /\
          only_values s ((match r with Continue => mret tt | Found val isSet => store_value i fd info val isSet end) s)) as [Hva Hov].
  { destruct r as [|val isSet]; [split; [apply (dc_values _ _ Hs)|done]|]. apply store_value_safe; [apply (dc_values _ _ Hs)|done..]. }
  destruct ((match r with Continue => mret tt | Found val isSet => store_value i fd info val isSet end) s) as [s2 [[]| |]]; [|done|done].
  apply IH; [done..| |done]. destruct Hs as [H1 H2 H3], Hov as [Ho1 Ho2]. cbn in Ho1. split; [done| |]; by rewrite Ho1.
Qed.

(** C33: Reading the command line into a struct with well-formed flags never panics,
    whatever the arguments and the order in which Go walks its maps, and however
    it ends every field still has a value of its type. *)
Theorem parse_flags_safe order args (s : fstate FT V) :
  values_ok s ->
  match ParseFlags order args (IntoStruct fields) s with
  | (s', Ret _) => values_ok s'
  | (s', Err _) => values_ok s'
  | (_, Panicking) => False
  end.
Proof.
  intros Hs. destruct args as [|program args]; [done|]. cbn [ParseFlags].
  unfold mbind at 1, prog_bind at 1, modify at 1. set (s1 := mkFstate (st_values s) ∅ [] : fstate FT V).
  assert (declared 0 s1) as H0.
  { split; [done| |intros; lia]. intros name e He. unfold s1 in He. cbn in He. by rewrite lookup_empty in He. }
  pose proof (extract_loop_safe fields 0 None eq_refl ltac:(lia) s1 H0) as Hx.
  unfold mbind at 1, prog_bind at 1, map_err, extractFlags.
  destruct (extract_loop 0 fields None s1) as [s2 [[]| |]]; [|done|done].
  pose proof (Parse_safe (length args) args ltac:(lia) s2 Hx) as Hp.
  unfold mbind at 1, prog_bind at 1. destruct (Parse args s2) as [s3 [[]| |]]; [|done|done].
  unfold UnmarshalFlags, mbind at 1, prog_bind at 1, get.
  pose proof (unmarshal_loop_safe fields 0 (set_seq 0 (length (st_args s3))) None s3 eq_refl ltac:(lia) Hp I) as Hu.
  unfold mbind, prog_bind. destruct (unmarshal_loop _ _ _ _ _) as [s4 [[remaining extra]| |]]; [|done|done].
  destruct Hu as [Hd4 Hex]. case_bool_decide; [apply (dc_values _ _ Hd4)|].
  destruct extra as [[i fd]|]; [|apply (dc_values _ _ Hd4)]. destruct Hex as (Hfd & Hexp & Ht).
  destruct (set_field_safe s4 i fd (VSlice (VString <$> ((fun idx => Arg (st_args s3) (Z.of_nat idx)) <$> order remaining)))) as [-> ?];
    [apply (dc_values _ _ Hd4)|done|done| |done].
  rewrite Ht. cbn. apply Forall_fmap, Forall_true. done.
Qed.
End SafeFlags.

(** ** Examples, and what the code does not seem to mean *)

Module FlagsExample.
Definition field (name : string) (t : gotype unit) (tag : string) : structField unit := mkField name true t (Some tag).
Definition in_order (left : gset nat) : list nat := filter (fun i => i ∈ left) (seq 0 100).
Definition parse (fields : list (structField unit)) (vs : list (value Z)) (args : list string) : list (value Z) * ended flagError unit :=
  let '(s, r) := ParseFlags in_order ("prog"%string :: args) (IntoStruct fields) (mkFstate vs ∅ []) in (st_values s, r).

Definition server_fields : list (structField unit) :=
  [field "Port" (TFlag tt) "port,default=5555"; field "Name" TString "name,required"; field "Count" TInt "0,default=3";
   field "Ports" (TSlice (TFlag tt)) "more"; field "Debug" (TPtr TBool) "debug"; field "Rest" (TSlice TString) ",extra"].
Definition server_zero : list (value Z) := [VFlag 0; VString EmptyString; VInt 0; VSlice []; VPtr None; VSlice []].

Example server_flags :
  parse server_fields server_zero ["-name=x"; "--more"; "80"; "-debug"; "-more=81"; "7"; "8"]%string =
  ([VFlag 5555; VString "x"; VInt 7; VSlice [VFlag 80; VFlag 81]; VPtr (Some (VBool true)); VSlice [VString "8"]], Ret tt).
Proof. vm_compute. reflexivity. Qed.

(** A required number that is given as zero is refused as not specified. *)
Example required_zero_is_refused :
  (parse [field "N" TInt "n,required"] [VInt 0] ["-n=0"%string]).2 = Err (ERequired "n").
Proof. vm_compute. reflexivity. Qed.

(** A zero on the command line does not replace a value that the struct had. *)
Example zero_does_not_replace : parse [field "N" TInt "n"] [VInt 5] ["-n=0"%string] = ([VInt 5], Ret tt).
Proof. vm_compute. reflexivity. Qed.

(** A default ends at its first comma. *)
Example default_ends_at_comma : parse [field "L" TString "l,default=a,b"] [VString EmptyString] [] = ([VString "a"], Ret tt).
Proof. vm_compute. reflexivity. Qed.

(** The extra arguments arrive in the order of a map: any order. *)
Example extra_arguments_in_any_order :
  let '(s, _) := ParseFlags (V:=Z) (fun left => rev (in_order left)) ["prog"; "a"; "b"]%string
                   (IntoStruct [field "Rest" (TSlice TString) ",extra"]) (mkFstate [VSlice []] ∅ []) in
  st_values s = [VSlice [VString "b"; VString "a"]].
Proof. vm_compute. reflexivity. Qed.

(** Structs that make the code panic: a positional argument behind a nil pointer
    to a flag.Value, a flag on a field that is not exported, two flags with one
    name, a pointer to a slice. *)
Example panicking_structs :
  (parse [field "P" (TPtr (TFlag tt)) "0"] [VPtr None] ["80"%string]).2 = Panicking /\
  (parse [mkField "n" false TString (Some "n,default=x"%string)] [VString EmptyString] []).2 = Panicking /\
  (parse [field "A" TString "x"; field "B" TString "x"] [VString EmptyString; VString EmptyString] []).2 = Panicking /\
  (parse [field "S" (TPtr (TSlice (TFlag tt))) "s"] [VPtr None] ["-s=1"%string]).2 = Panicking.
Proof. vm_compute. done. Qed.

Lemma server_well_formed : well_formed (V:=Z) server_fields.
Proof.
  assert (forall fd (info : flagInfo (V:=Z)), fd ∈ server_fields -> flagged fd info ->
    (fd, fi_Name info) ∈ [(field "Port" (TFlag tt) "port,default=5555", "port"); (field "Name" TString "name,required", "name");
      (field "Count" TInt "0,default=3", "positional_arg_0"); (field "Ports" (TSlice (TFlag tt)) "more", "more");
      (field "Debug" (TPtr TBool) "debug", "debug")]%string) as Hnames.
  { intros fd info Hin (str & Hs & Hp & Hx). unfold server_fields in Hin.
    repeat (apply elem_of_cons in Hin as [->|Hin]; [injection Hs as <-; vm_compute in Hp; injection Hp as <-; try discriminate Hx; set_solver|]).
    by apply elem_of_nil in Hin. }
  split.
  - intros fd Hin _. unfold server_fields in Hin. set_unfold in Hin. by destruct_or! Hin; subst.
  - intros fd str Hin Hs info Hp Hx. unfold server_fields in Hin.
    repeat (apply elem_of_cons in Hin as [->|Hin]; [injection Hs as <-; vm_compute in Hp; injection Hp as <-; try discriminate Hx; done|]).
    by apply elem_of_nil in Hin.
  - intros fd info Hin Hfl. pose proof (Hnames fd info Hin Hfl) as Hn. set_unfold in Hn.
    destruct_or! Hn; injection Hn as -> ->; by vm_compute.
  - intros i j fd1 fd2 info1 info2 Hi Hj H1 H2 E.
    pose proof (Hnames fd1 info1 (list_elem_of_lookup_2 _ _ _ Hi) H1) as N1.
    pose proof (Hnames fd2 info2 (list_elem_of_lookup_2 _ _ _ Hj) H2) as N2. rewrite E in N1.
    assert (fd1 = fd2) as ->.
    { set_unfold in N1. set_unfold in N2. destruct_or! N1; destruct_or! N2; injection N1 as -> N1; injection N2 as -> N2; first [done|by rewrite N1 in N2]. }
    unfold server_fields in Hi, Hj.
    do 6 (destruct i as [|i]; [do 6 (destruct j as [|j]; [first [reflexivity | rewrite <-Hj in Hi; discriminate Hi]|]); done|]). done.
Qed.
End FlagsExample.


Lemma parse_flags_safe_witness :
  match ParseFlags FlagsExample.in_order ["prog"; "-port=99999"]%string (IntoStruct FlagsExample.server_fields)
          (mkFstate FlagsExample.server_zero ∅ []) with
  | (s', Ret _) => values_ok FlagsExample.server_fields s'
  | (s', Err _) => values_ok FlagsExample.server_fields s'
  | (_, Panicking) => False
  end.
Proof.
  apply (parse_flags_safe FlagsExample.server_fields FlagsExample.server_well_formed).
  repeat constructor.
Defined.
