(* ===== verification/Runtime.v ===== *)
(** * Goroutines and contexts: [runtime.go], [context.go]

    The helpers that every background goroutine of the packages is started
    with: capturing panics, keeping a function alive, waiting for a context or a
    time, merging two contexts, watching for slow goroutines. Each is cut at its
    waits into steps. *)

From S2P Require Import Prelude GoError.
Open Scope Z_scope.

(** ** [PanicCapturingGoWithCallback] and [ManagedGo] *)

(** How a function that was called ends: it returns, it panics, or it ends its
    goroutine by runtime.Goexit, which runs the deferred functions. *)
Inductive runEnd := RunReturned | RunPanicked | RunExited.

(** What is left of a goroutine of PanicCapturingGoWithCallback after its
    function ended; [Waits] before the callback, in the deferred function. *)
Inductive captured := GoEnded | GoWaitsForCallback.
Definition PanicCapturingGoWithCallback (hasCallback : bool) (e : runEnd) : captured :=
  match e with
  | RunPanicked => if hasCallback then GoWaitsForCallback else GoEnded
  | _ => GoEnded
  end.
Definition PanicCapturingGo (e : runEnd) : captured := PanicCapturingGoWithCallback false e.

(** A managed goroutine, with a counter for the calls of its functions. *)
Inductive managedPc := MgRunning | MgCompleting | MgWaiting | MgEnded.
Record managed := mkManaged { mg_pc : managedPc; mg_runs : nat; mg_normal : nat; mg_completes : nat }.
Definition ManagedGo : managed := mkManaged MgRunning 1 0 0.

(** The function of ManagedGo ended: onComplete is called unless it panicked. *)
Definition managed_run_ends (onComplete : bool) (e : runEnd) (g : managed) : managed :=
  match e with
  | RunPanicked => mkManaged MgWaiting (mg_runs g) (mg_normal g) (mg_completes g)
  | _ => if onComplete then mkManaged MgCompleting (mg_runs g) (S (mg_normal g)) (S (mg_completes g))
         else mkManaged MgEnded (mg_runs g) (S (mg_normal g)) (mg_completes g)
  end.
(** onComplete ended; its panic is captured like one of the function. *)
Definition managed_complete_ends (e : runEnd) (g : managed) : managed :=
  match PanicCapturingGoWithCallback true e with
  | GoWaitsForCallback => mkManaged MgWaiting (mg_runs g) (mg_normal g) (mg_completes g)
  | GoEnded => mkManaged MgEnded (mg_runs g) (mg_normal g) (mg_completes g)
  end.
Inductive managed_step (onComplete : bool) : managed -> managed -> Prop :=
  | MgRunEnds e g : mg_pc g = MgRunning -> managed_step onComplete g (managed_run_ends onComplete e g)
  | MgCompleteEnds e g : mg_pc g = MgCompleting -> managed_step onComplete g (managed_complete_ends e g)
  | MgRestart g : mg_pc g = MgWaiting ->
      managed_step onComplete g (mkManaged MgRunning (S (mg_runs g)) (mg_normal g) (mg_completes g)).

(** The same, where onComplete never panics. *)
Inductive managed_step_ok (onComplete : bool) : managed -> managed -> Prop :=
  | MgRunEnds_ok e g : mg_pc g = MgRunning -> managed_step_ok onComplete g (managed_run_ends onComplete e g)
  | MgCompleteEnds_ok e g : mg_pc g = MgCompleting -> e <> RunPanicked -> managed_step_ok onComplete g (managed_complete_ends e g)
  | MgRestart_ok g : mg_pc g = MgWaiting ->
      managed_step_ok onComplete g (mkManaged MgRunning (S (mg_runs g)) (mg_normal g) (mg_completes g)).

Definition managed_start (g : managed) : Prop := g = ManagedGo.

Record managed_inv (onComplete : bool) (g : managed) : Prop := {
  mi_runs : (1 <= mg_runs g)%nat;
  mi_live : mg_pc g = MgRunning \/ mg_pc g = MgWaiting -> mg_normal g = 0%nat /\ mg_completes g = 0%nat;
  mi_completing : mg_pc g = MgCompleting -> onComplete = true /\ mg_normal g = 1%nat /\ mg_completes g = 1%nat;
  mi_ended : mg_pc g = MgEnded -> mg_normal g = 1%nat /\ mg_completes g = (if onComplete then 1%nat else 0%nat);
}.

Lemma managed_step_inv onComplete g g' : managed_inv onComplete g -> managed_step_ok onComplete g g' -> managed_inv onComplete g'.
Proof.
  intros [Hr Hl Hc He] Hs. destruct Hs as [e g Hpc|e g Hpc Hp|g Hpc].
  - destruct (Hl (or_introl Hpc)) as [Hn Hcs]. destruct e, onComplete; split; cbn; try done; try lia; naive_solver lia.
  - destruct (Hc Hpc) as (-> & Hn & Hcs). destruct e; try done; split; cbn; try done; try lia; naive_solver lia.
  - destruct (Hl (or_intror Hpc)) as [Hn Hcs]. split; cbn; try done; try lia.
Qed.

(** A managed goroutine ends only after its function has terminated normally,
    which it does at most once; onComplete is then called, exactly once, and
    never while the function may still run. Wherever the goroutine is, it can
    still end: after a panic the function is started again. *)
Theorem managed_go_completes_once onComplete g :
  reachable managed_start (managed_step_ok onComplete) g ->
  (mg_completes g <= 1)%nat /\ (mg_completes g = 1%nat -> mg_pc g <> MgRunning /\ mg_pc g <> MgWaiting) /\
  (mg_pc g = MgEnded -> mg_normal g = 1%nat /\ mg_completes g = if onComplete then 1%nat else 0%nat) /\
  exists g', rtc (managed_step_ok onComplete) g g' /\ mg_pc g' = MgEnded.
Proof.
  intros Hr. assert (Hi : managed_inv onComplete g).
  { refine (invariant_reachable _ _ (managed_inv onComplete) _ (managed_step_inv onComplete) g Hr).
    intros ? ->. split; cbn; try done; try lia; naive_solver. }
  assert (Hrun : forall h, mg_pc h = MgRunning -> exists g', rtc (managed_step_ok onComplete) h g' /\ mg_pc g' = MgEnded).
  { intros h Hpc. destruct onComplete eqn:Hoc.
    - eexists. split; [eapply rtc_l; [by apply (MgRunEnds_ok _ RunReturned)|]; apply rtc_once, (MgCompleteEnds_ok _ RunReturned); done|done].
    - eexists. split; [by apply rtc_once, (MgRunEnds_ok _ RunReturned)|done]. }
  destruct Hi as [H1 Hl Hc He]. split_and!.
  - destruct (mg_pc g) eqn:Hpc; [destruct Hl; auto; lia|destruct Hc; auto; lia|destruct Hl; auto; lia|].
    destruct He as [_ ->]; [done|]. destruct onComplete; lia.
  - intros Hone. split; intros Hpc; [destruct Hl; auto; lia|destruct Hl; auto; lia].
  - intros Hpc. by destruct He.
  - destruct (mg_pc g) eqn:Hpc.
    + by apply Hrun.
    + eexists. split; [by apply rtc_once, (MgCompleteEnds_ok _ RunReturned)|done].
    + destruct (Hrun (mkManaged MgRunning (S (mg_runs g)) (mg_normal g) (mg_completes g)) eq_refl) as (g' & Hg & ?).
      exists g'. split; [|done]. eapply rtc_l; [by apply MgRestart_ok|done].
    + exists g. split; [apply rtc_refl|done].
Qed.

(** A panic of onComplete starts the function once more, after it had
    terminated normally, and onComplete is called again. *)
Theorem completing_twice : exists g,
  reachable managed_start (managed_step true) g /\ mg_pc g = MgEnded /\ mg_runs g = 2%nat /\ mg_completes g = 2%nat.
Proof.
  exists (mkManaged MgEnded 2 2 2). split; [|done]. exists ManagedGo. split; [done|].
  eapply rtc_l; [by apply (MgRunEnds _ RunReturned)|]. eapply rtc_l; [by apply (MgCompleteEnds _ RunPanicked)|].
  eapply rtc_l; [by apply MgRestart|]. eapply rtc_l; [by apply (MgRunEnds _ RunReturned)|].
  by apply rtc_once, (MgCompleteEnds _ RunReturned).
Qed.

(** ** [SelectContextOrWaitChan], [SelectContextOrWait] *)

(** What the selects find: whether the context is done at the first, and which
    case the second takes. [None]: neither case is ever ready. *)
Inductive selected := SelCtxDone | SelReceived.
Definition SelectContextOrWaitChan (doneAtFirst : bool) (second : option selected) : option bool :=
  if doneAtFirst then Some false
  else match second with
       | Some SelCtxDone => Some false
       | Some SelReceived => Some true
       | None => None
       end.

(** ** Functions that a context carries *)

(** [ContextWithReadyFunc]: the closed channel of readiness; closing it twice
    would panic. [ContextMainReadyFunc] of a context without one does nothing. *)
Record readyFunc := mkReady { rf_once : bool; rf_closes : nat }.
Definition ContextWithReadyFunc : readyFunc := mkReady false 0.
Definition call_ready (f : readyFunc) : readyFunc := if rf_once f then f else mkReady true (S (rf_closes f)).
Definition ContextMainReadyFunc (ctx : option readyFunc) : option readyFunc := call_ready <$> ctx.

Lemma ready_closes_once n : rf_closes (Nat.iter (S n) call_ready ContextWithReadyFunc) = 1%nat.
Proof.
  assert (Nat.iter (S n) call_ready ContextWithReadyFunc = mkReady true 1) as ->; [|done].
  induction n as [|n IH]; [done|]. cbn [Nat.iter nat_rect] in *. by rewrite IH.
Qed.

(** ** [contextualMain] *)

(** What becomes of the error of a main function: fatal unless it is only that
    the context was canceled. *)
Definition contextualMain `{Multierr goerror} (err : option goerror) : option goerror :=
  default None (FilterOutError filter_fuel err (Some (EIs Canceled))).

(** It is fatal for exactly the other errors. *)
Lemma contextualMain_spec `{MultierrLaws goerror} (err : goerror) :
  errors_of (contextualMain (Some err)) = filter (fun e => matches_target (EIs Canceled) e = false) (multierr_Errors err).
Proof.
  unfold contextualMain. destruct (FilterOutError_spec filter_fuel err (EIs Canceled)) as (r & -> & Hr); [unfold filter_fuel; lia|done].
Qed.

(** The loop around runtime.Stack, which writes at most as many bytes as fit:
    the length of the buffer that is found, and of its contents. *)
Fixpoint dump_stack (fuel : nat) (size buf : Z) : option (Z * Z) :=
  match fuel with
  | O => None
  | S f => let n := Z.min size buf in if n <? buf then Some (buf, n) else dump_stack f size (2 * buf)
  end.

(** The loop ends, and with the whole dump: the buffer doubles until it fits. *)
Theorem dump_is_complete (size : Z) : 0 <= size ->
  exists fuel, forall more, exists buf, dump_stack (fuel + more) size 1024 = Some (buf, size).
Proof.
  intros Hs. assert (forall k buf, 0 < buf -> size < buf * 2 ^ Z.of_nat k ->
    forall more, exists b, dump_stack (S k + more) size buf = Some (b, size)) as H.
  { induction k as [|k IH]; intros buf Hb Hk more.
    - cbn in Hk. exists buf. cbn [dump_stack Nat.add]. rewrite Z.min_l by lia. rewrite (proj2 (Z.ltb_lt _ _)) by lia. done.
    - cbn [dump_stack Nat.add]. destruct (Z.ltb_spec (Z.min size buf) buf) as [Hlt|Hge].
      + exists buf. do 2 f_equal. lia.
      + apply (IH (2 * buf)); [lia|]. rewrite Nat2Z.inj_succ, Z.pow_succ_r in Hk by lia. lia. }
  exists (S (Z.to_nat (Z.log2_up (size + 2)))). intros more. apply H; [lia|].
  rewrite Z2Nat.id by apply Z.log2_up_nonneg.
  assert (size + 2 <= 2 ^ Z.log2_up (size + 2)) by (apply Z.log2_log2_up_spec; lia). nia.
Qed.

(** ** [slowGoroutineWatcher] *)

Inductive watcherPc := WtCtx | WtTiming | WtDumping | WtClosed.
Record watcher := mkWatcher { wt_pc : watcherPc; wt_ctxDone : bool; wt_cancelled : bool; wt_elapsed : bool; wt_dumps : nat }.
(** With a context the wait for it comes first. *)
Definition slowGoroutineWatcher (hasCtx : bool) : watcher := mkWatcher (if hasCtx then WtCtx else WtTiming) (negb hasCtx) false false 0.
Definition SlowGoroutineWatcherAfterContext : watcher := slowGoroutineWatcher true.
Definition SlowGoroutineWatcher : watcher := slowGoroutineWatcher false.
Definition wt_goto (pc : watcherPc) (w : watcher) : watcher := mkWatcher pc (wt_ctxDone w) (wt_cancelled w) (wt_elapsed w) (wt_dumps w).
Inductive watcher_step : watcher -> watcher -> Prop :=
  | WtCtxDone w : watcher_step w (mkWatcher (wt_pc w) true (wt_cancelled w) (wt_elapsed w) (wt_dumps w))
  | WtCancel w : watcher_step w (mkWatcher (wt_pc w) (wt_ctxDone w) true (wt_elapsed w) (wt_dumps w))
  | WtTimer w : wt_pc w = WtTiming -> watcher_step w (mkWatcher WtTiming (wt_ctxDone w) (wt_cancelled w) true (wt_dumps w))
  | WtStart w : wt_pc w = WtCtx -> wt_ctxDone w = true -> watcher_step w (wt_goto WtTiming w)
  | WtNever w : wt_pc w = WtCtx -> wt_cancelled w = true -> watcher_step w (wt_goto WtClosed w)
  | WtStopped w : wt_pc w = WtTiming -> SelectContextOrWaitChan (wt_cancelled w) (if wt_cancelled w then Some SelCtxDone else None) = Some false ->
      watcher_step w (wt_goto WtClosed w)
  | WtSlow w : wt_pc w = WtTiming -> SelectContextOrWaitChan false (if wt_elapsed w then Some SelReceived else None) = Some true ->
      watcher_step w (mkWatcher WtDumping (wt_ctxDone w) (wt_cancelled w) (wt_elapsed w) (S (wt_dumps w)))
  | WtEnd w : wt_pc w = WtDumping -> watcher_step w (wt_goto WtClosed w).

Record watcher_inv (w : watcher) : Prop := {
  wi_before : wt_pc w = WtCtx \/ wt_pc w = WtTiming -> wt_dumps w = 0%nat;
  wi_timing : wt_pc w = WtTiming -> wt_ctxDone w = true;
  wi_elapsed : wt_elapsed w = true -> wt_ctxDone w = true;
  wi_dumps : (wt_dumps w <= 1)%nat /\ (wt_dumps w = 1%nat -> wt_ctxDone w = true /\ wt_elapsed w = true);
}.

Lemma watcher_step_inv w w' : watcher_inv w -> watcher_step w w' -> watcher_inv w'.
Proof.
  intros [Hb Ht He Hd] Hs. destruct Hs as [w|w|w Hpc|w Hpc Hc|w Hpc Hc|w Hpc Hc|w Hpc Hc|w Hpc];
    split; cbn; try (destruct (wt_elapsed w) eqn:?; cbn in *); naive_solver lia.
Qed.

(** A watcher dumps the goroutines at most once, and only after its context was
    done and its time had passed since; once it is cancelled it can always close
    its channel. *)
Theorem watcher_dumps_slow_goroutines hasCtx w :
  reachable (fun w => w = slowGoroutineWatcher hasCtx) watcher_step w ->
  (wt_dumps w <= 1)%nat /\ (wt_dumps w = 1%nat -> wt_ctxDone w = true /\ wt_elapsed w = true) /\
  (wt_cancelled w = true -> exists w', rtc watcher_step w w' /\ wt_pc w' = WtClosed /\ wt_dumps w' = wt_dumps w).
Proof.
  intros Hr. assert (Hi : watcher_inv w).
  { refine (invariant_reachable _ _ watcher_inv _ watcher_step_inv w Hr). intros ? ->. destruct hasCtx; split; cbn; naive_solver lia. }
  destruct Hi as [_ _ _ [Hd1 Hd2]]. split_and!; [done|done|]. intros Hc.
  destruct (wt_pc w) eqn:Hpc.
  - exists (wt_goto WtClosed w). split_and!; [by apply rtc_once, WtNever|done|done].
  - exists (wt_goto WtClosed w). split_and!; [|done|done]. apply rtc_once, WtStopped; [done|by rewrite Hc].
  - exists (wt_goto WtClosed w). split_and!; [by apply rtc_once, WtEnd|done|done].
  - exists w. split_and!; [apply rtc_refl|done|done].
Qed.

(** ** [MergeContext] *)

(** A merged context, the one it derives from and the other one, and whether the
    goroutine that watches them has ended. A deadline ends the merged context
    like a cancellation. *)
Record merged := mkMerged { mc_ctx : bool; mc_other : bool; mc_cancelled : bool; mc_deadline : bool; mc_ended : bool }.
Definition mergeContexs (ctx other : bool) : merged := mkMerged ctx other false false false.
Definition merged_done (m : merged) : bool := mc_ctx m || mc_cancelled m || mc_deadline m.
Inductive merged_step (hasDeadline : bool) : merged -> merged -> Prop :=
  | McCtxDone m : merged_step hasDeadline m (mkMerged true (mc_other m) (mc_cancelled m) (mc_deadline m) (mc_ended m))
  | McOtherDone m : merged_step hasDeadline m (mkMerged (mc_ctx m) true (mc_cancelled m) (mc_deadline m) (mc_ended m))
  | McDeadline m : hasDeadline = true -> merged_step hasDeadline m (mkMerged (mc_ctx m) (mc_other m) (mc_cancelled m) true (mc_ended m))
  | McCancel m : merged_step hasDeadline m (mkMerged (mc_ctx m) (mc_other m) true (mc_deadline m) (mc_ended m))
  | McMergedDone m : mc_ended m = false -> merged_done m = true ->
      merged_step hasDeadline m (mkMerged (mc_ctx m) (mc_other m) (mc_cancelled m) (mc_deadline m) true)
  | McOther m : mc_ended m = false -> mc_other m = true ->
      merged_step hasDeadline m (mkMerged (mc_ctx m) (mc_other m) true (mc_deadline m) true).
(** The cancel function has returned: it cancelled and saw the goroutine end. *)
Definition cancel_returned (m : merged) : Prop := mc_cancelled m = true /\ mc_ended m = true.

(** No goroutine is left behind: as soon as either context is done, the deadline
    passed or the cancel function was called, the merged context is done or can
    be done without anybody's help, the goroutine can end, and the cancel
    function can return; the merged context is not done before. *)
Theorem merged_context_ends hasDeadline ctx other m :
  reachable (fun m => m = mergeContexs ctx other) (merged_step hasDeadline) m ->
  (merged_done m || mc_other m = true -> exists m', rtc (merged_step hasDeadline) m m' /\ merged_done m' = true /\ mc_ended m' = true) /\
  (exists m', rtc (merged_step hasDeadline) m m' /\ cancel_returned m') /\
  (mc_ended m = true -> merged_done m = true).
Proof.
  intros Hr. assert (mc_ended m = true -> merged_done m = true) as Hend.
  { refine (invariant_reachable _ _ (fun m => mc_ended m = true -> merged_done m = true) _ _ m Hr); [by intros ? ->|].
    intros m1 m2 IH Hs. unfold merged_done in *. destruct Hs as [w|w|w Hd|w|w He Hm|w He Ho]; destruct w as [c o x d e]; cbn in *; destruct c, x, d; auto. }
  split_and!; [| |done].
  - intros Hd. destruct (mc_ended m) eqn:He.
    { exists m. split_and!; [apply rtc_refl|auto|done]. }
    destruct (merged_done m) eqn:Hm.
    + eexists. split_and!; [by apply rtc_once, McMergedDone|exact Hm|done].
    + cbn in Hd. eexists. split_and!; [by apply rtc_once, McOther|unfold merged_done; cbn; by rewrite orb_true_r|done].
  - destruct (mc_ended m) eqn:He.
    + eexists. split; [by apply rtc_once, McCancel|]. by split.
    + eexists. split; [eapply rtc_l; [apply McCancel|]; apply rtc_once, McMergedDone; [exact He|unfold merged_done; cbn; by rewrite orb_true_r]|].
      by split.
Qed.

(** ** Witnesses *)

Lemma managed_go_completes_once_witness :
  let g := mkManaged MgCompleting 2 1 1 in (mg_completes g <= 1)%nat /\ mg_pc g <> MgRunning.
Proof.
  intros g. destruct (managed_go_completes_once true g) as (H1 & H2 & _).
  - exists ManagedGo. split; [done|]. eapply rtc_l; [by apply (MgRunEnds_ok _ RunPanicked)|].
    eapply rtc_l; [by apply MgRestart_ok|].
    apply rtc_once. exact (MgRunEnds_ok true RunReturned (mkManaged MgRunning 2 0 0) eq_refl).
  - split; [exact H1|]. by destruct (H2 eq_refl).
Defined.

Lemma dump_is_complete_witness : exists fuel buf, dump_stack fuel 5000 1024 = Some (buf, 5000).
Proof. destruct (dump_is_complete 5000) as [fuel H]; [lia|]. exists (fuel + 0)%nat. apply H. Defined.

Lemma watcher_dumps_slow_goroutines_witness :
  let w := mkWatcher WtDumping true false true 1 in wt_ctxDone w = true /\ wt_elapsed w = true.
Proof.
  intros w. destruct (watcher_dumps_slow_goroutines true w) as (_ & H & _); [|by apply H].
  exists SlowGoroutineWatcherAfterContext. split; [done|]. eapply rtc_l; [apply WtCtxDone|]. eapply rtc_l; [by apply WtStart|].
  eapply rtc_l; [by apply WtTimer|].
  apply rtc_once. exact (WtSlow (mkWatcher WtTiming true false true 0) eq_refl eq_refl).
Defined.

Lemma merged_context_ends_witness :
  let m := mkMerged false true false false false in
  exists m', rtc (merged_step false) m m' /\ merged_done m' = true /\ mc_ended m' = true.
Proof.
  intros m. destruct (merged_context_ends false false false m) as (H & _); [|by apply H].
  exists (mergeContexs false false). split; [done|]. apply rtc_once, McOtherDone.
Defined.
