(* ===== verification/RuntimeMain.v ===== *)
(** * The main function of a program: [runtime.go], [context.go], [leak.go]

    What a context carries to a main function, the life of contextualMain with
    the goroutine that dumps the stacks on a signal, contexts with a deadline,
    and the wait for a duration. The goroutine is the managed one of
    [Runtime]. *)

From S2P Require Import Prelude GoError Runtime.
Open Scope Z_scope.

(** ** Values of a context *)

Inductive ctxKey := ctxKeyQuitSignaler | ctxKeyReadyFunc | ctxKeyIterFunc.
#[export] Instance ctxKey_eq_dec : EqDecision ctxKey.
Proof. solve_decision. Defined.

(** A value of a context: a channel of signals, which may be nil, the readiness
    function of [ContextWithReadyFunc], by number, an iteration function, which
    may be nil. *)
Inductive ctxVal := CtxSignals (c : option nat) | CtxReady (f : nat) | CtxIter (f : option nat).
Definition valueCtx : Type := list (ctxKey * ctxVal).
Definition WithValue (k : ctxKey) (v : ctxVal) (ctx : valueCtx) : valueCtx := (k, v) :: ctx.
Fixpoint Value (k : ctxKey) (ctx : valueCtx) : option ctxVal :=
  match ctx with
  | [] => None
  | (k', v) :: ctx' => if decide (k = k') then Some v else Value k ctx'
  end.

Definition ContextWithQuitSignal (c : option nat) : valueCtx -> valueCtx := WithValue ctxKeyQuitSignaler (CtxSignals c).
Definition attach_ready (f : nat) : valueCtx -> valueCtx := WithValue ctxKeyReadyFunc (CtxReady f).
Definition ContextWithIterFunc (f : option nat) : valueCtx -> valueCtx := WithValue ctxKeyIterFunc (CtxIter f).

(** [None] where the type assertion would panic. *)
Definition ContextMainQuitSignal (ctx : valueCtx) : option (option nat) :=
  match Value ctxKeyQuitSignaler ctx with
  | None => Some None
  | Some (CtxSignals c) => Some c
  | Some _ => None
  end.

(** The function that a main function is given: one that does nothing, or the
    one that was attached; calling a nil function panics. *)
Inductive mainFunc := NoFunc | TheFunc (f : nat) | NilFunc.
Definition main_ready_func (ctx : valueCtx) : option mainFunc :=
  match Value ctxKeyReadyFunc ctx with
  | None => Some NoFunc
  | Some (CtxReady f) => Some (TheFunc f)
  | Some _ => None
  end.
Definition ContextMainIterFunc (ctx : valueCtx) : option mainFunc :=
  match Value ctxKeyIterFunc ctx with
  | None => Some NoFunc
  | Some (CtxIter f) => Some (from_option TheFunc NilFunc f)
  | Some _ => None
  end.

(** ** The wait for a duration, and deadlines *)

(** [SelectContextOrWait] at a time [now]; [doneAt] is when the context is done,
    if ever; of two cases that are ready together [tie] is taken. The result and
    the time at which it is returned. *)
Definition SelectContextOrWait (doneAt : option Z) (tie : selected) (now dur : Z) : bool * Z :=
  let fires := now + Z.max 0 dur in
  match doneAt with
  | None => (default false (SelectContextOrWaitChan false (Some SelReceived)), fires)
  | Some d =>
      let second := if d <? fires then SelCtxDone else if fires <? d then SelReceived else tie in
      (default false (SelectContextOrWaitChan (d <=? now) (Some second)), if d <=? now then now else Z.min d fires)
  end.

(** The deadline of a merged context, which derives from one that may have an
    earlier one; [None] for no deadline. *)
Definition child_deadline (parent : option Z) (deadline : Z) : Z := from_option (Z.min deadline) deadline parent.
(** A deadline that has passed ends the context as it is made. *)
Definition MergeContextWithDeadline (parent : option Z) (ctx other : bool) (now deadline : Z) : merged :=
  mkMerged ctx other false (child_deadline parent deadline <=? now) false.
Definition MergeContextWithTimeout (parent : option Z) (ctx other : bool) (now timeout : Z) : merged :=
  MergeContextWithDeadline parent ctx other now (now + timeout).
Definition MergeContext (ctx other : bool) : merged := mergeContexs ctx other.

(** ** [contextualMain] *)

(** Where the function of the watching goroutine is: before the first select of
    SelectContextOrWaitChan, in the second, or writing a dump. *)
Inductive watchPc := WcTop | WcSelect | WcDump.
(** Where contextualMain is; [MainStopping] and [MainWaiting] are its deferred
    calls, with how the main function ended. *)
Inductive programPc := MainRunning | MainFatal (err : goerror) | MainStopping (e : runEnd) | MainWaiting (e : runEnd) | MainEnded (e : runEnd) | MainKilled.
(** The context, whether the signals that cancel it are still caught, what the
    channels of signals hold, the WaitGroup, and how many signals arrived and
    dumps were written. *)
Record program := mkProgram {
  pg_main : programPc; pg_ctx : bool; pg_notified : bool; pg_usr1 : bool; pg_quit : bool;
  pg_goroutine : managed; pg_watch : watchPc; pg_signalWatcher : nat; pg_signals : nat; pg_dumps : nat }.
Definition main_start : program := mkProgram MainRunning false true false false ManagedGo WcTop 1 0 0.

Definition pg_set_main (m : programPc) (p : program) : program :=
  mkProgram m (pg_ctx p) (pg_notified p) (pg_usr1 p) (pg_quit p) (pg_goroutine p) (pg_watch p) (pg_signalWatcher p) (pg_signals p) (pg_dumps p).
Definition pg_set_watch (w : watchPc) (p : program) : program :=
  mkProgram (pg_main p) (pg_ctx p) (pg_notified p) (pg_usr1 p) (pg_quit p) (pg_goroutine p) w (pg_signalWatcher p) (pg_signals p) (pg_dumps p).
Definition pg_set_goroutine (g : managed) (p : program) : program :=
  mkProgram (pg_main p) (pg_ctx p) (pg_notified p) (pg_usr1 p) (pg_quit p) g (pg_watch p) (pg_signalWatcher p) (pg_signals p) (pg_dumps p).

(** os.Interrupt and SIGTERM: cancel the context while they are caught; after
    [stop] they kill the process. *)
Definition on_terminate (p : program) : program :=
  if pg_notified p
  then mkProgram (pg_main p) true true (pg_usr1 p) (pg_quit p) (pg_goroutine p) (pg_watch p) (pg_signalWatcher p) (pg_signals p) (pg_dumps p)
  else pg_set_main MainKilled p.
(** [notifySignals]: SIGUSR1 where there is one; the channel keeps one. *)
Definition notifySignals (posix : bool) (p : program) : program :=
  if posix
  then mkProgram (pg_main p) (pg_ctx p) (pg_notified p) true (pg_quit p) (pg_goroutine p) (pg_watch p) (pg_signalWatcher p) (S (pg_signals p)) (pg_dumps p)
  else p.
(** SIGQUIT: kept for the main function, or the end of the process. *)
Definition on_quit (quitSignal : bool) (p : program) : program :=
  if quitSignal
  then mkProgram (pg_main p) (pg_ctx p) (pg_notified p) (pg_usr1 p) true (pg_goroutine p) (pg_watch p) (pg_signalWatcher p) (pg_signals p) (pg_dumps p)
  else pg_set_main MainKilled p.

Definition take_quit (p : program) : program :=
  mkProgram (pg_main p) (pg_ctx p) (pg_notified p) (pg_usr1 p) false (pg_goroutine p) (pg_watch p) (pg_signalWatcher p) (pg_signals p) (pg_dumps p).

(** The main function returned: [fatal] ends the process, unless the logger's
    does not. *)
Definition main_returned `{Multierr goerror} (fatalExits : bool) (err : option goerror) (p : program) : program :=
  match contextualMain err with
  | Some e => pg_set_main (if fatalExits then MainFatal e else MainStopping RunReturned) p
  | None => pg_set_main (MainStopping RunReturned) p
  end.
Definition main_stop (e : runEnd) (p : program) : program :=
  mkProgram (MainWaiting e) true false (pg_usr1 p) (pg_quit p) (pg_goroutine p) (pg_watch p) (pg_signalWatcher p) (pg_signals p) (pg_dumps p).

(** [signalWatcher.Done]; it panics below zero. *)
Definition watcher_done (p : program) : program :=
  match pg_signalWatcher p with
  | O => pg_set_goroutine (managed_complete_ends RunPanicked (pg_goroutine p)) p
  | S n => mkProgram (pg_main p) (pg_ctx p) (pg_notified p) (pg_usr1 p) (pg_quit p) (managed_complete_ends RunReturned (pg_goroutine p)) (pg_watch p) n
             (pg_signals p) (pg_dumps p)
  end.
Definition watcher_received (p : program) : program :=
  mkProgram (pg_main p) (pg_ctx p) (pg_notified p) false (pg_quit p) (pg_goroutine p) WcDump (pg_signalWatcher p) (pg_signals p) (pg_dumps p).
Definition watcher_dumped (p : program) : program :=
  mkProgram (pg_main p) (pg_ctx p) (pg_notified p) (pg_usr1 p) (pg_quit p) (pg_goroutine p) WcTop (pg_signalWatcher p) (pg_signals p) (S (pg_dumps p)).
Definition watcher_ends (e : runEnd) (p : program) : program := pg_set_goroutine (managed_run_ends true e (pg_goroutine p)) p.
Definition watcher_restarts (p : program) : program :=
  let g := pg_goroutine p in
  pg_set_watch WcTop (pg_set_goroutine (mkManaged MgRunning (S (mg_runs g)) (mg_normal g) (mg_completes g)) p).
Definition watching (w : watchPc) (p : program) : Prop := mg_pc (pg_goroutine p) = MgRunning /\ pg_watch p = w.

(** What the program does by itself once its main function has ended. *)
Inductive program_internal : program -> program -> Prop :=
  | PgEnter p : watching WcTop p -> pg_ctx p = false -> program_internal p (pg_set_watch WcSelect p)
  | PgFirstDone p : watching WcTop p -> SelectContextOrWaitChan (pg_ctx p) None = Some false -> program_internal p (watcher_ends RunReturned p)
  | PgSecondDone p : watching WcSelect p -> SelectContextOrWaitChan false (if pg_ctx p then Some SelCtxDone else None) = Some false ->
      program_internal p (watcher_ends RunReturned p)
  | PgReceived p : watching WcSelect p -> SelectContextOrWaitChan false (if pg_usr1 p then Some SelReceived else None) = Some true ->
      program_internal p (watcher_received p)
  | PgDumped p : watching WcDump p -> program_internal p (watcher_dumped p)
  | PgDone p : mg_pc (pg_goroutine p) = MgCompleting -> program_internal p (watcher_done p)
  | PgRestarted p : mg_pc (pg_goroutine p) = MgWaiting -> program_internal p (watcher_restarts p)
  | PgStop e p : pg_main p = MainStopping e -> program_internal p (main_stop e p)
  | PgWaited e p : pg_main p = MainWaiting e -> pg_signalWatcher p = O -> program_internal p (pg_set_main (MainEnded e) p).

Inductive program_step `{Multierr goerror} (posix quitSignal fatalExits : bool) : program -> program -> Prop :=
  | PgInternal p p' : program_internal p p' -> program_step posix quitSignal fatalExits p p'
  | PgTerminate p : program_step posix quitSignal fatalExits p (on_terminate p)
  | PgUsr1 p : program_step posix quitSignal fatalExits p (notifySignals posix p)
  | PgQuit p : program_step posix quitSignal fatalExits p (on_quit quitSignal p)
  | PgTakesQuit p : pg_main p = MainRunning -> pg_quit p = true -> program_step posix quitSignal fatalExits p (take_quit p)
  | PgDumpPanics p : watching WcDump p -> program_step posix quitSignal fatalExits p (watcher_ends RunPanicked p)
  | PgMainReturns err p : pg_main p = MainRunning -> program_step posix quitSignal fatalExits p (main_returned fatalExits err p)
  | PgMainFails e p : pg_main p = MainRunning -> e <> RunReturned -> program_step posix quitSignal fatalExits p (pg_set_main (MainStopping e) p).

(** [FindGoroutineLeaks] with goleak's options, and what [ContextualMain] prints
    after contextualMain has ended other than by killing the process. *)
Inductive goleakOption := IgnoreTopFunction (f : string) | OtherLeakOption (n : nat).
Definition FindGoroutineLeaks (Find : list goleakOption -> option goerror) (options : list goleakOption) : option goerror :=
  Find (options ++ [IgnoreTopFunction "go.opencensus.io/stats/view.(*worker).start"; IgnoreTopFunction "github.com/desertbit/timer.timerRoutine";
                    IgnoreTopFunction "github.com/letsencrypt/pebble/va.VAImpl.processTasks"]).
Definition ContextualMain (Find : list goleakOption -> option goerror) (p : program) : option (option goerror) :=
  match pg_main p with MainEnded _ => Some (FindGoroutineLeaks Find []) | _ => None end.
Definition ContextualMainQuit `{Multierr goerror} (posix fatalExits : bool) : program -> program -> Prop := program_step posix true fatalExits.

(** ** Properties *)

(** What may be attached to a context, in the order of the calls. *)
Inductive attachment := AtQuit (c : option nat) | AtReady (f : nat) | AtIter (f : option nat).
Definition attach (a : attachment) (ctx : valueCtx) : valueCtx :=
  match a with AtQuit c => ContextWithQuitSignal c ctx | AtReady f => attach_ready f ctx | AtIter f => ContextWithIterFunc f ctx end.
Definition quit_of (a : attachment) : option (option nat) := match a with AtQuit c => Some c | _ => None end.
Definition ready_of (a : attachment) : option nat := match a with AtReady f => Some f | _ => None end.
Definition iter_of (a : attachment) : option (option nat) := match a with AtIter f => Some f | _ => None end.

Lemma last_omap_snoc {A B} (f : A -> option B) l a : last (omap f (l ++ [a])) = match f a with Some b => Some b | None => last (omap f l) end.
Proof.
  rewrite omap_app. cbn. destruct (f a); [by rewrite last_snoc|by rewrite app_nil_r].
Qed.

Lemma attached_values l :
  Value ctxKeyQuitSignaler (run_ops attach l []) = CtxSignals <$> last (omap quit_of l) /\
  Value ctxKeyReadyFunc (run_ops attach l []) = CtxReady <$> last (omap ready_of l) /\
  Value ctxKeyIterFunc (run_ops attach l []) = CtxIter <$> last (omap iter_of l).
Proof.
  induction l as [|a l IH] using rev_ind; [done|]. destruct IH as (IH1 & IH2 & IH3).
  rewrite run_ops_snoc, !last_omap_snoc. destruct a; cbn; by rewrite ?IH1, ?IH2, ?IH3.
Qed.

(** Whatever was attached to a context, and in whichever order, its main
    function gets the last channel of signals, readiness function and iteration
    function, each of its own kind and without a panic; where none was attached
    the channel is nil and the functions do nothing. *)
Theorem main_function_gets_last_attached (l : list attachment) :
  let ctx := run_ops attach l [] in
  ContextMainQuitSignal ctx = Some (default None (last (omap quit_of l))) /\
  main_ready_func ctx = Some (from_option TheFunc NoFunc (last (omap ready_of l))) /\
  ContextMainIterFunc ctx = Some (match last (omap iter_of l) with Some f => from_option TheFunc NilFunc f | None => NoFunc end).
Proof.
  intros ctx. unfold ContextMainQuitSignal, main_ready_func, ContextMainIterFunc, ctx. destruct (attached_values l) as (-> & -> & ->).
  by destruct (last (omap quit_of l)), (last (omap ready_of l)), (last (omap iter_of l)).
Qed.

(** The wait for a duration always returns, at the latest when the duration has
    elapsed, and true only then, with a context that was not done before. *)
Theorem wait_is_bounded (doneAt : option Z) (tie : selected) (now dur : Z) :
  let '(elapsed, at_) := SelectContextOrWait doneAt tie now dur in
  now <= at_ <= now + Z.max 0 dur /\
  (elapsed = true -> at_ = now + Z.max 0 dur /\ forall d, doneAt = Some d -> now < d /\ at_ <= d) /\
  (elapsed = false -> exists d, doneAt = Some d /\ d <= at_).
Proof.
  unfold SelectContextOrWait. destruct doneAt as [d|].
  2:{ cbn. split_and!; [lia|lia|intros _; by split|done]. }
  destruct (Z.leb_spec d now) as [Hd|Hd]; cbn.
  - split_and!; [lia|lia|done|]. intros _. by exists d.
  - destruct (Z.ltb_spec d (now + Z.max 0 dur)) as [H1|H1]; cbn.
    { split_and!; [lia|lia|done|]. intros _. exists d. split; [done|lia]. }
    destruct (Z.ltb_spec (now + Z.max 0 dur) d) as [H2|H2]; cbn.
    { split_and!; [lia|lia| |done]. intros _. split; [lia|]. intros d' [= <-]. lia. }
    destruct tie; cbn; (split_and!; [lia|lia| |]); try done; intros _.
    + exists d. split; [done|lia].
    + split; [lia|]. intros d' [= <-]. lia.
Qed.

(** A merged context with a deadline starts as one that is merged without, unless
    the deadline, its own or that of the first context, has passed: then it is
    done at once. *)
Lemma merge_with_deadline_spec parent ctx other now deadline :
  let m := MergeContextWithDeadline parent ctx other now deadline in
  (merged_done m = true <-> ctx = true \/ deadline <= now \/ exists d, parent = Some d /\ d <= now) /\
  (now < child_deadline parent deadline -> m = MergeContext ctx other).
Proof.
  intros m. unfold m, MergeContextWithDeadline, merged_done, child_deadline. cbn.
  split; [|intros H; by rewrite (proj2 (Z.leb_gt _ _))]. rewrite orb_false_r, orb_true_iff, Z.leb_le.
  destruct parent as [d|]; cbn; [|naive_solver]. split; [intros [?|?]; [by left|]|naive_solver lia].
  destruct (Z.le_gt_cases deadline now); [naive_solver|]. right. right. exists d. split; [done|lia].
Qed.

(** *** The life of a program *)

Record program_inv (posix quitSignal : bool) (p : program) : Prop := {
  pi_live : mg_pc (pg_goroutine p) = MgRunning \/ mg_pc (pg_goroutine p) = MgWaiting ->
            mg_completes (pg_goroutine p) = 0%nat /\ pg_signalWatcher p = 1%nat;
  pi_completing : mg_pc (pg_goroutine p) = MgCompleting -> mg_completes (pg_goroutine p) = 1%nat /\ pg_signalWatcher p = 1%nat;
  pi_gone : mg_pc (pg_goroutine p) = MgEnded -> mg_completes (pg_goroutine p) = 1%nat /\ pg_signalWatcher p = 0%nat;
  pi_stopped : forall e, pg_main p = MainWaiting e \/ pg_main p = MainEnded e -> pg_ctx p = true;
  pi_ended : forall e, pg_main p = MainEnded e -> pg_signalWatcher p = 0%nat;
  pi_dumps : (pg_dumps p + (if pg_usr1 p then 1 else 0) + (match pg_watch p with WcDump => 1 | _ => 0 end) <= pg_signals p)%nat;
  pi_windows : posix = false -> pg_signals p = 0%nat;
  pi_quit : quitSignal = false -> pg_quit p = false;
}.

Lemma program_internal_inv posix quitSignal p p' :
  program_inv posix quitSignal p -> program_internal p p' -> program_inv posix quitSignal p'.
Proof.
  intros [H1 H2 H3 H4 H5 H6 H7 H8] Hs.
  destruct Hs as [p [Hg Hw] Hc|p [Hg Hw] Hc|p [Hg Hw] Hc|p [Hg Hw] Hc|p [Hg Hw]|p Hg|p Hg|e p Hm|e p Hm Hz];
    destruct p as [m c n u q [gp gr gn gc] w z sg d]; cbn in *; subst.
  - split; cbn; try done; lia.
  - destruct H1 as [-> ->]; [auto|]. split; cbn; try done; naive_solver lia.
  - destruct H1 as [-> ->]; [auto|]. split; cbn; try done; naive_solver lia.
  - destruct u; [|done]. split; cbn; try done; lia.
  - split; cbn; try done; lia.
  - destruct H2 as [-> ->]; [done|]. split; cbn; try done; naive_solver lia.
  - destruct H1 as [-> ->]; [auto|]. split; cbn; try done; destruct w; naive_solver lia.
  - split; cbn; try done; naive_solver.
  - split; cbn; try done; naive_solver.
Qed.

Lemma program_step_inv `{Multierr goerror} posix quitSignal fatalExits p p' :
  program_inv posix quitSignal p -> program_step posix quitSignal fatalExits p p' -> program_inv posix quitSignal p'.
Proof.
  intros Hi Hs. destruct Hs as [p p' Hs|p|p|p|p Hm Hq|p [Hg Hw]|err p Hm|e p Hm He]; [by eapply program_internal_inv|..];
    destruct Hi as [H1 H2 H3 H4 H5 H6 H7 H8].
  - unfold on_terminate. destruct (pg_notified p); split; cbn; try done; naive_solver.
  - unfold notifySignals. destruct posix; [|by split]. split; cbn; try done; destruct (pg_usr1 p); lia.
  - unfold on_quit. destruct quitSignal; split; cbn; try done; naive_solver.
  - split; cbn; done.
  - destruct p as [m c n u q [gp gr gn gc] w z sg d]; cbn in *; subst. destruct H1 as [-> ->]; [auto|].
    split; cbn; try done; naive_solver lia.
  - unfold main_returned. destruct (contextualMain err); [destruct fatalExits|]; split; cbn; try done; naive_solver.
  - split; cbn; try done; naive_solver.
Qed.

Lemma program_reachable_inv `{Multierr goerror} posix quitSignal fatalExits p :
  reachable (fun p => p = main_start) (program_step posix quitSignal fatalExits) p -> program_inv posix quitSignal p.
Proof.
  apply (invariant_reachable _ _ (program_inv posix quitSignal)); [|intros *; apply program_step_inv].
  intros ? ->. split; cbn; try done; naive_solver lia.
Qed.

(** Once the deferred calls run, the goroutine ends by itself, wherever it is. *)
Lemma watcher_goroutine_ends posix quitSignal p e : program_inv posix quitSignal p -> pg_main p = MainWaiting e ->
  exists p', rtc program_internal p p' /\ pg_main p' = MainEnded e.
Proof.
  intros Hi Hm. assert (Hc : pg_ctx p = true) by (apply (pi_stopped _ _ _ Hi e); auto).
  assert (Hcompl : forall q, program_inv posix quitSignal q -> pg_main q = MainWaiting e -> mg_pc (pg_goroutine q) = MgCompleting ->
    exists p', rtc program_internal q p' /\ pg_main p' = MainEnded e).
  { intros q Hq Hqm Hg. destruct (pi_completing _ _ _ Hq Hg) as [_ Hz]. eexists. split.
    - eapply rtc_l; [by apply PgDone|]. apply rtc_once, (PgWaited e); unfold watcher_done; rewrite Hz; [exact Hqm|done].
    - done. }
  assert (Htop : forall q, program_inv posix quitSignal q -> pg_main q = MainWaiting e -> pg_ctx q = true -> watching WcTop q ->
    exists p', rtc program_internal q p' /\ pg_main p' = MainEnded e).
  { intros q Hq Hqm Hqc Hw. assert (Hs : program_internal q (watcher_ends RunReturned q)) by (apply PgFirstDone; [done|by rewrite Hqc]).
    destruct (Hcompl _ (program_internal_inv _ _ _ _ Hq Hs) Hqm eq_refl) as (p' & Hr & He).
    exists p'. split; [by eapply rtc_l|done]. }
  destruct (mg_pc (pg_goroutine p)) eqn:Hg.
  - destruct (pg_watch p) eqn:Hw; [by apply Htop| |].
    + assert (Hs : program_internal p (watcher_ends RunReturned p)) by (apply PgSecondDone; [done|by rewrite Hc]).
      destruct (Hcompl _ (program_internal_inv _ _ _ _ Hi Hs) Hm eq_refl) as (p' & Hr & He).
      exists p'. split; [by eapply rtc_l|done].
    + assert (Hs : program_internal p (watcher_dumped p)) by (by apply PgDumped).
      destruct (Htop _ (program_internal_inv _ _ _ _ Hi Hs)) as (p' & Hr & He); [done..|]. exists p'. split; [by eapply rtc_l|done].
  - by apply Hcompl.
  - assert (Hs : program_internal p (watcher_restarts p)) by (by apply PgRestarted).
    destruct (Htop _ (program_internal_inv _ _ _ _ Hi Hs)) as (p' & Hr & He); [done..|]. exists p'. split; [by eapply rtc_l|done].
  - destruct (pi_gone _ _ _ Hi Hg) as [_ Hz]. eexists. split; [by apply rtc_once, (PgWaited e)|done].
Qed.

(** When contextualMain returns, its context is done and the goroutine that
    watches for SIGUSR1 has signed off exactly once and is gone, also when dumps
    panicked and it was started again. As soon as the main function has ended,
    other than by a fatal error, contextualMain can return without another
    signal. There are at most as many dumps as signals, and none on Windows. *)
Theorem contextual_main_waits_for_watcher `{Multierr goerror} posix quitSignal fatalExits p :
  reachable (fun p => p = main_start) (program_step posix quitSignal fatalExits) p ->
  (forall e, pg_main p = MainEnded e -> pg_ctx p = true /\ mg_pc (pg_goroutine p) = MgEnded /\ mg_completes (pg_goroutine p) = 1%nat) /\
  (forall e, pg_main p = MainStopping e \/ pg_main p = MainWaiting e -> exists p', rtc program_internal p p' /\ pg_main p' = MainEnded e) /\
  (pg_dumps p <= pg_signals p)%nat /\ (posix = false -> pg_dumps p = 0%nat) /\ (quitSignal = false -> pg_quit p = false).
Proof.
  intros Hr%program_reachable_inv. split_and!.
  - intros e He. assert (Hz := pi_ended _ _ _ Hr e He). split; [by apply (pi_stopped _ _ _ Hr e); auto|].
    destruct Hr as [H1 H2 H3 _ _ _ _ _]. destruct (mg_pc (pg_goroutine p)) eqn:Hg.
    + destruct H1 as [_ ?]; [auto|lia].
    + destruct H2 as [_ ?]; [auto|lia].
    + destruct H1 as [_ ?]; [auto|lia].
    + split; [done|]. by destruct H3.
  - intros e [Hm|Hm]; [|by apply (watcher_goroutine_ends posix quitSignal)].
    assert (Hs : program_internal p (main_stop e p)) by (by apply PgStop).
    destruct (watcher_goroutine_ends _ _ _ e (program_internal_inv _ _ _ _ Hr Hs)) as (p' & Hp & He); [done|].
    exists p'. split; [by eapply rtc_l|done].
  - destruct Hr as [_ _ _ _ _ Hd _ _]. lia.
  - intros ->. destruct Hr as [_ _ _ _ _ Hd Hw _]. rewrite Hw in Hd by done. lia.
  - by destruct Hr.
Qed.

(** The signals that cancel the context do so and nothing more until the deferred
    calls have run: however often they come, the main function goes on. *)
Lemma terminating_cancels n p : pg_notified p = true -> pg_main p = MainRunning ->
  pg_main (Nat.iter (S n) on_terminate p) = MainRunning /\ pg_ctx (Nat.iter (S n) on_terminate p) = true.
Proof.
  intros Hn Hm. assert (Hstep : forall q, pg_notified q = true -> pg_main q = MainRunning ->
    pg_notified (on_terminate q) = true /\ pg_main (on_terminate q) = MainRunning /\ pg_ctx (on_terminate q) = true).
  { intros q Hq Hqm. unfold on_terminate. by rewrite Hq. }
  assert (H : pg_notified (Nat.iter n on_terminate p) = true /\ pg_main (Nat.iter n on_terminate p) = MainRunning).
  { induction n as [|n [IH1 IH2]]; [done|]. destruct (Hstep _ IH1 IH2) as (? & ? & _). by split. }
  destruct H as [H1 H2]. destruct (Hstep _ H1 H2) as (_ & ? & ?). by split.
Qed.

(** The search for leaks does run after a main function that panicked. *)
Lemma leaks_are_searched_after_a_panic `{Multierr goerror} Find : exists p,
  reachable (fun p => p = main_start) (program_step true false true) p /\ pg_main p = MainEnded RunPanicked /\
  ContextualMain Find p = Some (FindGoroutineLeaks Find []).
Proof.
  eexists. split.
  - exists main_start. split; [done|]. eapply rtc_l; [by apply (PgMainFails _ _ _ RunPanicked)|].
    eapply rtc_l; [by apply PgInternal, (PgStop RunPanicked)|]. eapply rtc_l; [by apply PgInternal, PgFirstDone|].
    eapply rtc_l; [by apply PgInternal, PgDone|]. by apply rtc_once, PgInternal, (PgWaited RunPanicked).
  - done.
Qed.

(** ** Witnesses *)

Lemma contextual_main_waits_for_watcher_witness :
  exists p', rtc program_internal (pg_set_main (MainStopping RunReturned) main_start) p' /\ pg_main p' = MainEnded RunReturned.
Proof.
  destruct (@contextual_main_waits_for_watcher SimpleErrors.simple_multierr true false true (pg_set_main (MainStopping RunReturned) main_start)) as (_ & H & _).
  - exists main_start. split; [done|]. apply rtc_once. exact (@PgMainReturns SimpleErrors.simple_multierr true false true None main_start eq_refl).
  - apply H. by left.
Defined.
