(* ===== verification/TestUtils.v ===== *)
(** * Test support: [testutils/runtime.go], [wait.go], [mongodb.go], [env.go]

    Running a main function under a test: the counting of its iterations and a
    whole test case with its goroutines, as two step relations; waiting for an
    assertion; and the client of MongoDB that tests share. The main functions
    and assertions under test are chosen by the steps or given as arguments. *)

From S2P Require Import Prelude GoError Runtime.
Open Scope Z_scope.

(** ** Iterations: [ExpectIters] and [WaitIters] *)

(** The goroutine that throws iterations away: it runs; it was told to stop; it
    ended with the main function. *)
Inductive discardPc := DiscRunning | DiscStopped | DiscMainDone.
(** [ex_expect] is the goroutine of ExpectIters with what it has counted and
    expects; while it runs [expectMu] is held. [ex_closeDiscard] says whether the
    channel [closeDiscard] is closed, [ex_wait] whether [waitIters] is, unless it
    is nil; [ex_total] is what was counted last, for which amount. *)
Record iters := mkIters {
  ex_mainDone : bool; ex_discard : discardPc; ex_closeDiscard : bool; ex_expect : option (Z * Z);
  ex_wait : option bool; ex_total : Z * Z; ex_early : nat; ex_panic : bool }.
Definition iters_start : iters := mkIters false DiscRunning false None None (0, 0) 0 false.

(** An iteration of the main function waits for a receiver. *)
Definition iter (s : iters) : option iters :=
  match ex_expect s with
  | Some (totalIters, expectingIters) =>
      let totalIters := totalIters + 1 in
      if totalIters <? expectingIters
      then Some (mkIters (ex_mainDone s) (ex_discard s) (ex_closeDiscard s) (Some (totalIters, expectingIters)) (ex_wait s) (totalIters, expectingIters)
                   (ex_early s) (ex_panic s))
      else Some (mkIters (ex_mainDone s) DiscRunning false None (Some true) (totalIters, expectingIters) (ex_early s) (ex_panic s))
  | None =>
      match ex_discard s with
      | DiscRunning => Some s
      | _ => None
      end
  end.
(** [ExpectIters], with the mutex free: closing [closeDiscard] again panics. *)
Definition ExpectIters (amount : Z) (s : iters) : iters :=
  if ex_closeDiscard s then mkIters (ex_mainDone s) (ex_discard s) true None (ex_wait s) (ex_total s) (ex_early s) true
  else mkIters (ex_mainDone s) (match ex_discard s with DiscRunning => DiscStopped | d => d end) true (Some (0, amount)) (Some false) (0, amount)
         (ex_early s) (ex_panic s).
(** [WaitIters] returns. *)
Definition WaitIters_returns (s : iters) : Prop := ex_wait s = Some true.

Inductive iters_step : iters -> iters -> Prop :=
  | ItIter s s' : ex_mainDone s = false -> iter s = Some s' -> iters_step s s'
  | ItMainDone s : iters_step s (mkIters true (ex_discard s) (ex_closeDiscard s) (ex_expect s) (ex_wait s) (ex_total s) (ex_early s) (ex_panic s))
  | ItDiscardEnds s : ex_discard s = DiscRunning -> ex_mainDone s = true ->
      iters_step s (mkIters true DiscMainDone (ex_closeDiscard s) (ex_expect s) (ex_wait s) (ex_total s) (ex_early s) (ex_panic s))
  | ItExpect amount s : ex_expect s = None -> ex_panic s = false -> iters_step s (ExpectIters amount s)
  | ItEarlyDone s e : ex_expect s = Some e -> ex_mainDone s = true ->
      iters_step s (mkIters true (ex_discard s) (ex_closeDiscard s) None (ex_wait s) (ex_total s) (S (ex_early s)) (ex_panic s)).

(** What is expected is at least one: the first iteration is counted before the
    amount is looked at. *)
Definition at_least_one (amount : Z) : Z := Z.max 1 amount.
Record iters_inv (s : iters) : Prop := {
  xi_expect : forall t a, ex_expect s = Some (t, a) -> 0 <= t < at_least_one a /\ ex_total s = (t, a) /\ ex_wait s = Some false /\ ex_closeDiscard s = true;
  xi_wait : ex_wait s = Some true -> (ex_total s).1 = at_least_one (ex_total s).2 /\ ex_closeDiscard s = false;
  xi_free : ex_wait s = Some false -> ex_expect s = None -> ex_closeDiscard s = true;
  xi_idle : ex_wait s = None -> ex_closeDiscard s = false;
}.

Lemma iters_step_inv s s' : iters_inv s -> iters_step s s' -> iters_inv s'.
Proof.
  intros [H1 H2 H3 H4] Hs. destruct Hs as [s s' Hm Hi|s|s Hd Hm|amount s He Hp|s [t a] He Hm].
  - unfold iter in Hi. destruct (ex_expect s) as [[t a]|] eqn:He.
    + destruct (H1 t a eq_refl) as (Ht & Htot & Hw & Hc). destruct (Z.ltb_spec (t + 1) a) as [Hlt|Hge]; injection Hi as <-.
      * split; cbn; [|by rewrite Hw|done|by rewrite Hw]. intros ?? [= <- <-]. unfold at_least_one in *. split_and!; [lia|lia|done|done|done].
      * split; cbn; [done| |done|done]. unfold at_least_one in *. intros _. split; [lia|done].
    + destruct (ex_discard s); [|done|done]. injection Hi as <-. split; rewrite ?He; done.
  - by split.
  - by split.
  - unfold ExpectIters. destruct (ex_closeDiscard s) eqn:Hc.
    + split; cbn; [done| |done|]; intros Hw; [by destruct (H2 Hw)|by specialize (H4 Hw)].
    + split; cbn; [|done..]. intros ?? [= <- <-]. unfold at_least_one. split_and!; [lia|lia|done..].
  - destruct (H1 t a He) as (_ & _ & Hw & Hc). split; cbn; [done| |done|]; by rewrite Hw.
Qed.

Lemma iters_reachable_inv s : reachable (fun s => s = iters_start) iters_step s -> iters_inv s.
Proof. apply invariant_reachable; [|apply iters_step_inv]. intros ? ->. by split. Qed.

(** [WaitIters] returns only after as many iterations as were expected last have
    been counted since, exactly so many, and always one. *)
Theorem wait_iters_counts s : reachable (fun s => s = iters_start) iters_step s -> WaitIters_returns s ->
  (ex_total s).1 = at_least_one (ex_total s).2.
Proof. intros Hr%iters_reachable_inv Hw. by apply (xi_wait _ Hr). Qed.

(** A main function that ends while iterations are expected leaves [WaitIters]
    waiting for ever, and the next [ExpectIters] panics. *)
Theorem early_main_hangs_WaitIters s s' : reachable (fun s => s = iters_start) iters_step s ->
  ex_wait s = Some false -> ex_expect s = None -> rtc iters_step s s' ->
  ~ WaitIters_returns s' /\ ex_expect s' = None /\ forall amount, ex_panic (ExpectIters amount s') = true.
Proof.
  intros Hr Hw He Hs. assert (Hc := xi_free _ (iters_reachable_inv _ Hr) Hw He).
  assert (H : ex_wait s' = Some false /\ ex_expect s' = None /\ ex_closeDiscard s' = true).
  { revert Hw He Hc. clear Hr. induction Hs as [|x y z Hxy Hyz IH]; [done|]. intros Hw He Hc.
    destruct Hxy as [x x' Hm Hi|x|x Hd Hm|amount x _ Hp|x e Hx Hm].
    - apply IH; unfold iter in Hi; rewrite He in Hi; destruct (ex_discard x); congruence.
    - by apply IH.
    - by apply IH.
    - apply IH; unfold ExpectIters; by rewrite Hc.
    - congruence. }
  destruct H as (Hw' & He' & Hc'). unfold WaitIters_returns, ExpectIters. rewrite Hc', Hw'. split_and!; [done|done|done].
Qed.

(** ** A test case: [TestMain] *)

(** The goroutine that [Start] makes: the main function runs; it returned and its
    error is being sent; [mainDone] is closed next; the readiness function is
    called next; it ended. *)
Inductive execPc := ExNotStarted | ExRunning | ExReturned (err : option goerror) | ExClosing | ExReadying | ExEnded.
(** The goroutine that waits for the main function: it receives; it has filtered
    the error; it sends it on [done]; it ended. *)
Inductive waiterPc := WtrNone | WtrWaiting | WtrGot (err : option goerror) | WtrSending (err : option goerror) | WtrEnded.
(** How a case ends: the main function completed too early, what it returned was
    compared, or an assertion of [During] ended the test's goroutine. *)
Inductive caseEnd := CompletedBefore (err : option goerror) | Compared (passes : bool) | DuringFailed.
Inductive testerPc := TsBefore | TsReady | TsDuring | TsFailing | TsStop | TsWaiting | TsEnded (e : caseEnd).
Record testCase := mkCase {
  tc_exec : execPc; tc_err : option (option goerror); tc_doneC : option (option goerror); tc_readyC : bool; tc_stopped : bool;
  tc_waiter : waiterPc; tc_tester : testerPc; tc_waitingInDuring : bool; tc_waitingInDuringFailed : bool; tc_errors : nat }.
Definition case_start : testCase := mkCase ExNotStarted None None false false WtrNone TsBefore false false 0.

(** The fields in groups: the main function's goroutine, and the test. *)
Definition set_exec (x : execPc) (ready : bool) (c : testCase) : testCase :=
  mkCase x (tc_err c) (tc_doneC c) ready (tc_stopped c) (tc_waiter c) (tc_tester c) (tc_waitingInDuring c) (tc_waitingInDuringFailed c) (tc_errors c).
Definition set_tester (t : testerPc) (c : testCase) : testCase :=
  mkCase (tc_exec c) (tc_err c) (tc_doneC c) (tc_readyC c) (tc_stopped c) (tc_waiter c) t (tc_waitingInDuring c) (tc_waitingInDuringFailed c) (tc_errors c).
Definition set_waiter (w : waiterPc) (c : testCase) : testCase :=
  mkCase (tc_exec c) (tc_err c) (tc_doneC c) (tc_readyC c) (tc_stopped c) w (tc_tester c) (tc_waitingInDuring c) (tc_waitingInDuringFailed c) (tc_errors c).
Definition exec_Stop (c : testCase) : testCase :=
  mkCase (tc_exec c) (tc_err c) (tc_doneC c) (tc_readyC c) true (tc_waiter c) (tc_tester c) (tc_waitingInDuring c) (tc_waitingInDuringFailed c) (tc_errors c).

Definition main_case_returns (err : option goerror) (c : testCase) : testCase :=
  mkCase (ExReturned err) (Some err) (tc_doneC c) (tc_readyC c) (tc_stopped c) (tc_waiter c) (tc_tester c) (tc_waitingInDuring c) (tc_waitingInDuringFailed c)
    (tc_errors c).
Definition main_case_sends (err : option goerror) (c : testCase) : testCase :=
  mkCase ExClosing (tc_err c) (Some err) (tc_readyC c) (tc_stopped c) (tc_waiter c) (tc_tester c) (tc_waitingInDuring c) (tc_waitingInDuringFailed c)
    (tc_errors c).
(** The test goes on when the main function is ready. *)
Definition test_goes_on (hasDuring : bool) (c : testCase) : testCase :=
  mkCase (tc_exec c) (tc_err c) (tc_doneC c) (tc_readyC c) (tc_stopped c) WtrWaiting (if hasDuring then TsDuring else TsStop) hasDuring
    (tc_waitingInDuringFailed c) (tc_errors c).
(** [During] returned; the sections that hold [waitMu] are this and the next. *)
Definition during_ends (c : testCase) : testCase :=
  if tc_waitingInDuringFailed c then set_tester TsFailing c
  else mkCase (tc_exec c) (tc_err c) (tc_doneC c) (tc_readyC c) (tc_stopped c) (tc_waiter c) TsStop false false (tc_errors c).
Definition waiter_locks (err : option goerror) (c : testCase) : testCase :=
  mkCase (tc_exec c) (tc_err c) (tc_doneC c) (tc_readyC c) (tc_stopped c) (WtrSending err) (tc_tester c) (tc_waitingInDuring c)
    (tc_waitingInDuring c || tc_waitingInDuringFailed c) (tc_errors c + if tc_waitingInDuring c then 1 else 0)%nat.

Section TestMain.
Context `{Multierr goerror} (hasDuring : bool) (expected : string).

(** The comparison with [tc.Err]. *)
Definition case_passes (err : option goerror) : bool :=
  if bool_decide (expected = EmptyString) then bool_decide (err = None)
  else match err with None => false | Some e => str_contains (Error e) expected end.
(** [FilterOutError] of what was received. *)
Definition waiter_receives (err : option goerror) (c : testCase) : testCase :=
  mkCase (tc_exec c) (tc_err c) None (tc_readyC c) (tc_stopped c) (WtrGot (Runtime.contextualMain err)) (tc_tester c) (tc_waitingInDuring c)
    (tc_waitingInDuringFailed c) (tc_errors c).
Definition tester_receives (err : option goerror) (c : testCase) : testCase :=
  set_waiter WtrEnded (set_tester (TsEnded (match tc_tester c with TsFailing => CompletedBefore err | _ => Compared (case_passes err) end)) c).

(** What the test does by itself, other than what the main function and [During]
    decide. *)
Inductive case_internal : testCase -> testCase -> Prop :=
  | CsSends err c : tc_exec c = ExReturned err -> case_internal c (main_case_sends err c)
  | CsCloses c : tc_exec c = ExClosing -> case_internal c (set_exec ExReadying (tc_readyC c) c)
  | CsReady c : tc_exec c = ExReadying -> case_internal c (set_exec ExEnded true c)
  | CsStart c : tc_tester c = TsBefore -> case_internal c (set_tester TsReady (set_exec ExRunning (tc_readyC c) c))
  | CsGoesOn c : tc_tester c = TsReady -> tc_readyC c = true -> case_internal c (test_goes_on hasDuring c)
  | CsStop c : tc_tester c = TsStop -> case_internal c (set_tester TsWaiting (exec_Stop c))
  | CsReceives err c : tc_waiter c = WtrWaiting -> tc_doneC c = Some err -> case_internal c (waiter_receives err c)
  | CsLocks err c : tc_waiter c = WtrGot err -> tc_tester c <> TsFailing -> case_internal c (waiter_locks err c)
  | CsDone err c : tc_waiter c = WtrSending err -> tc_tester c = TsFailing \/ tc_tester c = TsWaiting -> case_internal c (tester_receives err c).
Inductive case_step : testCase -> testCase -> Prop :=
  | CsInternal c c' : case_internal c c' -> case_step c c'
  | CsMainReady c : tc_exec c = ExRunning -> case_step c (set_exec ExRunning true c)
  | CsMainReturns err c : tc_exec c = ExRunning -> case_step c (main_case_returns err c)
  | CsMainPanics c : tc_exec c = ExRunning -> case_step c (set_exec ExClosing (tc_readyC c) c)
  | CsDuringStops c : tc_tester c = TsDuring -> case_step c (exec_Stop c)
  | CsDuringEnds c : tc_tester c = TsDuring -> case_step c (during_ends c)
  | CsDuringFails c : tc_tester c = TsDuring -> case_step c (set_tester (TsEnded DuringFailed) c).

(** *** What holds on the way *)

Definition exec_over (c : testCase) : bool := match tc_exec c with ExClosing | ExReadying | ExEnded => true | _ => false end.
Definition waits (w : waiterPc) : bool := match w with WtrNone | WtrWaiting => true | _ => false end.
(** Where the error of the main function is: nowhere yet, or never after a panic;
    in the channel; with the goroutine that waits; or received. *)
Definition error_place (c : testCase) : Prop :=
  match tc_exec c, tc_err c with
  | (ExNotStarted | ExRunning), err => err = None /\ tc_doneC c = None /\ waits (tc_waiter c) = true
  | ExReturned e, err => err = Some e /\ tc_doneC c = None /\ waits (tc_waiter c) = true
  | _, None => tc_doneC c = None /\ waits (tc_waiter c) = true
  | _, Some e =>
      match tc_waiter c with
      | WtrNone | WtrWaiting => tc_doneC c = Some e
      | WtrGot f | WtrSending f => f = Runtime.contextualMain e /\ tc_doneC c = None
      | WtrEnded => tc_doneC c = None
      end
  end.
(** Where the test is. *)
Definition test_place (c : testCase) : Prop :=
  match tc_tester c with
  | TsBefore => tc_exec c = ExNotStarted /\ tc_waiter c = WtrNone /\ tc_waitingInDuringFailed c = false
  | TsReady => tc_exec c <> ExNotStarted /\ tc_waiter c = WtrNone /\ tc_waitingInDuringFailed c = false
  | TsDuring => tc_exec c <> ExNotStarted /\ hasDuring = true /\ tc_waitingInDuring c = true /\
      match tc_waiter c with WtrSending _ => tc_waitingInDuringFailed c = true | WtrWaiting | WtrGot _ => tc_waitingInDuringFailed c = false | _ => False end
  | TsFailing => tc_exec c <> ExNotStarted /\ hasDuring = true /\ match tc_waiter c with WtrSending _ => True | _ => False end
  | TsStop | TsWaiting => tc_exec c <> ExNotStarted /\ tc_waitingInDuring c = false /\ tc_waitingInDuringFailed c = false /\
      match tc_waiter c with WtrNone | WtrEnded => False | _ => True end
  | TsEnded DuringFailed => tc_exec c <> ExNotStarted
  | TsEnded o => exec_over c = true /\ tc_waiter c = WtrEnded /\ exists e, tc_err c = Some e /\
      match o with CompletedBefore f => f = Runtime.contextualMain e /\ hasDuring = true | Compared b => b = case_passes (Runtime.contextualMain e) | DuringFailed => False end
  end.
Definition case_inv (c : testCase) : Prop := error_place c /\ test_place c /\ (tc_exec c = ExEnded -> tc_readyC c = true).

Lemma case_internal_inv c c' : case_inv c -> case_internal c c' -> case_inv c'.
Proof.
  intros (He & Ht & Hrd) Hs. unfold case_inv. apply and_assoc. split.
  2: { by destruct Hs. }
  unfold error_place, test_place, exec_over in *. clear Hrd.
  destruct Hs as [err c Hx|c Hx|c Hx|c Hx|c Hx Hr|c Hx|err c Hx Hd|err c Hx Hn|err c Hx Hn]; destruct c as [x er d r st w t wd wf n]; cbn in *; subst.
  - destruct He as (-> & -> & Hw). destruct w; try done; (split; [done|]); destruct t as [| | | | | |[]]; naive_solver.
  - split; [by destruct er|]. destruct t as [| | | | | |[]]; naive_solver.
  - split; [by destruct er|]. destruct t as [| | | | | |[]]; naive_solver.
  - naive_solver.
  - destruct Ht as (Hx & -> & ->). split; [by destruct x, er|]. destruct hasDuring; naive_solver.
  - destruct Ht as (Hx & -> & -> & Hw). by split.
  - destruct x, er; cbn in *; try naive_solver; (split; [naive_solver|]); destruct t as [| | | | | |[]]; naive_solver.
  - destruct x, er; cbn in *; try naive_solver; (split; [naive_solver|]); destruct t as [| | | | | |[]], wd; cbn in *; naive_solver.
  - destruct x, er; cbn in *; try naive_solver; (split; [naive_solver|]); destruct Hn as [->| ->]; naive_solver.
Qed.

Lemma case_step_inv c c' : case_inv c -> case_step c c' -> case_inv c'.
Proof.
  intros Hi Hs. destruct Hs as [c c' Hs|c Hx|err c Hx|c Hx|c Hx|c Hx|c Hx]; [by eapply case_internal_inv|..]; destruct Hi as (He & Ht & Hrd); apply and_assoc;
    (split; [clear Hrd|by unfold during_ends; try destruct (tc_waitingInDuringFailed c); cbn; try done; intros; congruence]);
    unfold case_inv, error_place, test_place, exec_over, during_ends in *; destruct c as [x er d r st w t wd wf n]; cbn in *; subst.
  - split; [done|]. destruct t as [| | | | | |[]]; naive_solver.
  - split; [naive_solver|]. destruct t as [| | | | | |[]]; naive_solver.
  - destruct He as (-> & -> & Hw). split; [done|]. destruct t as [| | | | | |[]]; naive_solver.
  - by split.
  - destruct wf; (split; [done|]); cbn; destruct w; naive_solver.
  - split; [done|]. naive_solver.
Qed.

Lemma case_reachable_inv c : reachable (fun c => c = case_start) case_step c -> case_inv c.
Proof. apply invariant_reachable; [|apply case_step_inv]. intros ? ->. by repeat split. Qed.

(** *** What a test case promises *)

(** A case that ends has waited for its main function: its error was filtered and
    compared, or it came while [During] still ran. *)
Theorem test_case_waits_for_main c o : reachable (fun c => c = case_start) case_step c -> tc_tester c = TsEnded o -> o <> DuringFailed ->
  exec_over c = true /\ tc_waiter c = WtrEnded /\ exists e, tc_err c = Some e /\
  match o with CompletedBefore f => f = Runtime.contextualMain e /\ hasDuring = true | Compared b => b = case_passes (Runtime.contextualMain e) | DuringFailed => False end.
Proof. intros (_ & Ht & _)%case_reachable_inv Ho Hne. unfold test_place in Ht. rewrite Ho in Ht. by destruct o. Qed.

Definition can_end (c : testCase) : Prop := exists c' o, rtc case_step c c' /\ tc_tester c' = TsEnded o /\ o <> DuringFailed.
Lemma can_end_step c c' : case_step c c' -> can_end c' -> can_end c.
Proof. intros Hs (c2 & o & Hr & Ho). exists c2, o. split; [by eapply rtc_l|done]. Qed.
Lemma can_end_internal c c' : case_internal c c' -> can_end c' -> can_end c.
Proof. intros Hs. by apply can_end_step, CsInternal. Qed.

Lemma can_end_sending err c : tc_waiter c = WtrSending err -> tc_tester c = TsFailing \/ tc_tester c = TsWaiting -> can_end c.
Proof.
  intros Hw Ht. apply (can_end_internal _ _ (CsDone err c Hw Ht)). unfold can_end.
  destruct Ht as [Ht|Ht]; eexists _, _; (split; [apply rtc_refl|]); cbn; rewrite Ht; (split; [reflexivity|discriminate]).
Qed.

Lemma can_end_failing c : case_inv c -> tc_tester c = TsFailing -> can_end c.
Proof.
  intros (_ & Ht & _) Htc. unfold test_place in Ht. rewrite Htc in Ht. destruct Ht as (_ & _ & Hw).
  destruct (tc_waiter c) as [| | |f|] eqn:Hwc; try done. apply (can_end_sending f); auto.
Qed.

Lemma can_end_waiting c e : case_inv c -> tc_exec c = ExEnded -> tc_err c = Some e -> tc_tester c = TsWaiting -> can_end c.
Proof.
  intros (Hp & Ht & _) Hx He Htc. unfold error_place, test_place in Hp, Ht. rewrite Hx, He in Hp. rewrite Htc in Ht. destruct Ht as (_ & _ & _ & Hw).
  assert (Hgot : forall f c, tc_waiter c = WtrGot f -> tc_tester c = TsWaiting -> can_end c).
  { clear. intros f c Hw Htc. eapply can_end_internal; [apply (CsLocks f); [done|by rewrite Htc]|]. apply (can_end_sending f); cbn; auto. }
  destruct (tc_waiter c) as [| |f|f|] eqn:Hwc; try done; [|by apply (Hgot f)|apply (can_end_sending f); auto].
  apply (can_end_internal _ _ (CsReceives e c Hwc Hp)). by apply (Hgot (Runtime.contextualMain e)).
Qed.

Lemma can_end_stop c e : case_inv c -> tc_exec c = ExEnded -> tc_err c = Some e -> tc_tester c = TsStop -> can_end c.
Proof.
  intros Hi Hx He Htc. assert (Hs := CsStop c Htc). apply (can_end_internal _ _ Hs). apply (can_end_waiting _ e); [by eapply case_internal_inv|done..].
Qed.

Lemma can_end_during c e : case_inv c -> tc_exec c = ExEnded -> tc_err c = Some e -> tc_tester c = TsDuring -> can_end c.
Proof.
  intros Hi Hx He Htc. assert (Hs := CsDuringEnds c Htc). apply (can_end_step _ _ Hs). apply (case_step_inv _ _ Hi) in Hs. revert Hs.
  unfold during_ends. destruct (tc_waitingInDuringFailed c); intros Hs; [by apply can_end_failing|by apply (can_end_stop _ e)].
Qed.

Lemma can_end_ended c e : case_inv c -> tc_exec c = ExEnded -> tc_err c = Some e -> (forall o, tc_tester c <> TsEnded o) -> can_end c.
Proof.
  intros Hi Hx He Hno. destruct (tc_tester c) as [| | | | | |o] eqn:Htc; [..|by destruct (Hno o)].
  - destruct Hi as (_ & Ht & _). unfold test_place in Ht. rewrite Htc in Ht. destruct Ht; congruence.
  - assert (Hs : case_internal c (test_goes_on hasDuring c)) by (apply CsGoesOn; [done|by apply Hi]).
    apply (can_end_internal _ _ Hs). apply (case_internal_inv _ _ Hi) in Hs. destruct hasDuring eqn:Hd; [apply (can_end_during _ e)|apply (can_end_stop _ e)]; done.
  - by apply (can_end_during c e).
  - by apply can_end_failing.
  - by apply (can_end_stop c e).
  - by apply (can_end_waiting c e).
Qed.

(** When the main function has returned and [During] has not ended the test, the
    case can always end, as soon as [During] returns. *)
Theorem test_case_can_end c e : reachable (fun c => c = case_start) case_step c -> tc_err c = Some e ->
  (forall o, tc_tester c <> TsEnded o) -> can_end c.
Proof.
  intros Hr He Hno. assert (Hi := case_reachable_inv _ Hr). clear Hr.
  assert (Hreadying : forall c, case_inv c -> tc_err c = Some e -> (forall o, tc_tester c <> TsEnded o) -> tc_exec c = ExReadying -> can_end c).
  { intros c1 Hi1 He1 Hno1 Hx. assert (Hs := CsReady _ Hx). apply (can_end_internal _ _ Hs). apply (can_end_ended _ e); [by eapply case_internal_inv|done..]. }
  assert (Hclosing : forall c, case_inv c -> tc_err c = Some e -> (forall o, tc_tester c <> TsEnded o) -> tc_exec c = ExClosing -> can_end c).
  { intros c1 Hi1 He1 Hno1 Hx. assert (Hs := CsCloses _ Hx). apply (can_end_internal _ _ Hs). apply Hreadying; [by eapply case_internal_inv|done..]. }
  destruct (tc_exec c) as [| |err| | |] eqn:Hx; [..|by apply Hclosing|by apply Hreadying|by apply (can_end_ended c e)].
  - destruct Hi as (Hp & _). unfold error_place in Hp. rewrite Hx in Hp. destruct Hp; congruence.
  - destruct Hi as (Hp & _). unfold error_place in Hp. rewrite Hx in Hp. destruct Hp; congruence.
  - assert (Hs := CsSends _ _ Hx). apply (can_end_internal _ _ Hs). apply Hclosing; [by eapply case_internal_inv|done..].
Qed.

(** A main function that panics hangs the case: nothing is ever sent for it. *)
Theorem panicking_main_hangs_case c c' : reachable (fun c => c = case_start) case_step c -> exec_over c = true -> tc_err c = None ->
  rtc case_step c c' -> forall o, tc_tester c' = TsEnded o -> o = DuringFailed.
Proof.
  intros Hr Hx He Hs o Ho.
  assert (H' : case_inv c' /\ exec_over c' = true /\ tc_err c' = None).
  { refine (rtc_invariant case_step (fun c => case_inv c /\ exec_over c = true /\ tc_err c = None) _ c c' Hs _); [|by split; [apply case_reachable_inv|]].
    intros x y (Hi & Hx1 & He1) Hxy. split; [by eapply case_step_inv|]. destruct Hxy as [x y Hin|x H1|err x H1|x H1|x H1|x H1|x H1];
      unfold exec_over in *; try (by rewrite H1 in Hx1); try done.
    - destruct Hin as [err x H1|x H1|x H1|x H1|x H1 H2|x H1|err x H1 H2|err x H1 H2|err x H1 H2]; cbn; try done.
      destruct Hi as (_ & Ht & _). unfold test_place in Ht. rewrite H1 in Ht. destruct Ht as [Hns _]. by rewrite Hns in Hx1.
    - unfold during_ends. by destruct (tc_waitingInDuringFailed x). }
  destruct H' as ((_ & Ht & _) & _ & He'). unfold test_place in Ht. rewrite Ho in Ht. destruct o as [f|b|]; [| |done];
    destruct Ht as (_ & _ & e & Hee & _); congruence.
Qed.

(** An assertion of [During] that fails ends the test while its main function
    runs and is not told to stop. *)
Theorem failed_during_leaves_main : hasDuring = true -> exists c,
  reachable (fun c => c = case_start) case_step c /\ tc_tester c = TsEnded DuringFailed /\ tc_exec c = ExRunning /\ tc_stopped c = false.
Proof.
  intros Hd. eexists. split.
  - exists case_start. split; [done|]. eapply rtc_l; [by apply CsInternal, CsStart|]. eapply rtc_l; [by apply CsMainReady|].
    eapply rtc_l; [by apply CsInternal, CsGoesOn|]. apply rtc_once, CsDuringFails. cbn. by rewrite Hd.
  - done.
Qed.
End TestMain.

(** ** Waiting for an assertion: [wait.go] *)

(** What an assertion calls on its [testing.TB]: to fail and go on, to fail and
    stop, what has no effect, and a method that [testingTBNoFail] does not have
    itself. *)
Inductive tbCall := TbError | TbFatal | TbLog | TbSetenv.
(** An assertion with a [testingTBNoFail]: it goes on after it has failed; [None]
    where the nil TB that is embedded panics. *)
Fixpoint run_no_fail (calls : list tbCall) (failed : bool) : option bool :=
  match calls with
  | [] => Some failed
  | (TbError | TbFatal) :: calls' => run_no_fail calls' true
  | TbLog :: calls' => run_no_fail calls' failed
  | TbSetenv :: _ => None
  end.
(** With the test's own TB it stops. *)
Fixpoint run_test (calls : list tbCall) (failed : bool) : bool :=
  match calls with
  | [] => failed
  | TbError :: calls' => run_test calls' true
  | TbFatal :: _ => true
  | (TbLog | TbSetenv) :: calls' => run_test calls' failed
  end.

(** [WaitForAssertionWithSleep]: the loop with what is left of [maxAttempts]; the
    number of sleeps and whether the test failed. The assertion may behave
    differently at each attempt. *)
Fixpoint wait_loop (assertion : nat -> list tbCall) (left_ attempts : nat) : option (nat * bool) :=
  match left_ with
  | O => Some (attempts, run_test (assertion attempts) false)
  | S left' =>
      match run_no_fail (assertion attempts) false with
      | None => None
      | Some false => Some (attempts, false)
      | Some true => wait_loop assertion left' (S attempts)
      end
  end.
Definition WaitForAssertionWithSleep (maxAttempts : Z) (assertion : nat -> list tbCall) : option (nat * bool) := wait_loop assertion (Z.to_nat maxAttempts) 0.
Definition WaitForAssertion (assertion : nat -> list tbCall) : option (nat * bool) := WaitForAssertionWithSleep 100 assertion.

Definition attempt_fails (calls : list tbCall) : bool := existsb (fun c => match c with TbError | TbFatal => true | _ => false end) calls.
Lemma run_no_fail_spec calls failed r : run_no_fail calls failed = Some r -> r = failed || attempt_fails calls.
Proof.
  revert failed. induction calls as [|c calls IH]; intros failed; cbn; [intros [= <-]; by rewrite orb_false_r|].
  destruct c; try done; intros Hr%IH; rewrite Hr; cbn; by rewrite ?orb_true_r.
Qed.

Lemma wait_loop_spec assertion l : forall a n failed, wait_loop assertion l a = Some (n, failed) ->
  (a <= n <= a + l)%nat /\ (forall i, (a <= i < n)%nat -> attempt_fails (assertion i) = true) /\
  (if failed then n = (a + l)%nat /\ run_test (assertion n) false = true else (n < a + l)%nat -> attempt_fails (assertion n) = false).
Proof.
  induction l as [|l IH]; intros a n failed; cbn [wait_loop].
  - intros [= <- <-]. split; [lia|]. split; [lia|]. destruct (run_test (assertion a) false) eqn:Hr; [split; [lia|done]|lia].
  - destruct (run_no_fail (assertion a) false) as [[|]|] eqn:Hr; [| |done].
    + intros Hw. destruct (IH _ _ _ Hw) as (Hn & Hb & Hf). apply run_no_fail_spec in Hr. cbn in Hr. split; [lia|]. split.
      * intros i Hi. destruct (decide (i = a)) as [->|]; [done|]. apply Hb. lia.
      * destruct failed; [split; [lia|tauto]|]. intros Hlt. apply Hf. lia.
    + intros [= <- <-]. apply run_no_fail_spec in Hr. cbn in Hr. split; [lia|]. split; [lia|]. done.
Qed.

(** Waiting sleeps at most [maxAttempts] times, once after each attempt that
    fails; it fails the test only if all of these failed and the assertion then
    fails once more. *)
Theorem waiting_fails_last maxAttempts assertion n failed : WaitForAssertionWithSleep maxAttempts assertion = Some (n, failed) ->
  Z.of_nat n <= Z.max 0 maxAttempts /\ (forall i, (i < n)%nat -> attempt_fails (assertion i) = true) /\
  (failed = true -> Z.of_nat n = Z.max 0 maxAttempts /\ run_test (assertion n) false = true) /\
  (failed = false -> Z.of_nat n < maxAttempts -> attempt_fails (assertion n) = false).
Proof.
  intros Hw. destruct (wait_loop_spec _ _ _ _ _ Hw) as (Hn & Hb & Hf). split_and!.
  - lia.
  - intros i Hi. apply Hb. lia.
  - intros ->. destruct Hf as [Hf1 Hf2]. split; [lia|done].
  - intros -> Hlt. apply Hf. lia.
Qed.

(** ** The shared client: [mongodb.go], [env.go] *)

(** The variables of the package, and the clients that are connected. *)
Record mongoTests := mkMongoTests {
  mt_client : option nat; mt_connected : bool; mt_err : option goerror; mt_usingMongoDB : bool; mt_live : list nat; mt_made : nat }.
Definition mongo_tests_start : mongoTests := mkMongoTests None false None false [] 0.
(** What the environment and the driver answer to a connection: the URI, the
    client, connecting, the ping, the status of the replica set, and a
    disconnection. *)
Record mongoAnswers := mkMongoAnswers {
  ma_uri : option string; ma_new : option goerror; ma_connect : option goerror; ma_ping : option goerror; ma_status : option goerror; ma_disconnect : option goerror }.

Section MongoClient.
Context `{Multierr goerror}.

(** [backingMongoDBURI]; with a URI the tests are set up for MongoDB. *)
Definition backingMongoDBURI (a : mongoAnswers) (s : mongoTests) : mongoTests * (string + goerror) :=
  match ma_uri a with
  | None => (s, inr (ENew "no MongoDB URI found"))
  | Some uri =>
      if bool_decide (uri = EmptyString) then (s, inr (ENew "no MongoDB URI found"))
      else (mkMongoTests (mt_client s) (mt_connected s) (mt_err s) true (mt_live s) (mt_made s), inl uri)
  end.
Definition keep_error (err : goerror) (s : mongoTests) : mongoTests * (nat + goerror) :=
  (mkMongoTests (mt_client s) (mt_connected s) (Some err) (mt_usingMongoDB s) (mt_live s) (mt_made s), inr err).
(** [multierr.Combine] of an error with that of the disconnection. *)
Definition with_disconnect (a : mongoAnswers) (err : goerror) : goerror := default err (multierr_Combine (err :: option_list (ma_disconnect a))).

(** [backingMongoDBClientWithOptions]; the options only matter for a client that
    is made. *)
Definition backingMongoDBClient (a : mongoAnswers) (s : mongoTests) : mongoTests * (nat + goerror) :=
  match mt_client s, mt_connected s with
  | Some c, true => (s, inl c)
  | _, _ =>
      match mt_err s with
      | Some err => (s, inr err)
      | None =>
          match backingMongoDBURI a s with
          | (s, inr err) => (s, inr err)
          | (s, inl _) =>
              match ma_new a with
              | Some err => keep_error err s
              | None =>
                  let made := mkMongoTests (mt_client s) (mt_connected s) (mt_err s) (mt_usingMongoDB s) (mt_live s) (S (mt_made s)) in
                  match ma_connect a with
                  | Some err => keep_error err made
                  | None =>
                      match ma_ping a with
                      | Some err => keep_error (with_disconnect a err) made
                      | None =>
                          match ma_status a with
                          | Some err => keep_error (with_disconnect a err) made
                          | None =>
                              let c := mt_made s in
                              (mkMongoTests (Some c) true None (mt_usingMongoDB s) (mt_live s ++ [c]) (S c), inl c)
                          end
                      end
                  end
              end
          end
      end
  end.

(** [teardownMongoDB]: the namespaces are dropped through a client, which is then
    disconnected; both take the shared one or make it. *)
Definition teardownMongoDB (a : mongoAnswers) (s : mongoTests) : mongoTests :=
  if negb (mt_usingMongoDB s) then s
  else
    let '(s, _) := backingMongoDBClient a s in
    match backingMongoDBClient a s with
    | (s, inr _) => s
    | (s, inl c) => mkMongoTests (mt_client s) false (mt_err s) (mt_usingMongoDB s) (filter (fun d => d <> c) (mt_live s)) (mt_made s)
    end.

(** [BackingMongoDBClient] of a test: a client, or the test is skipped, unless
    [noSkip] makes that a failure. *)
Inductive backing := GotClient (c : nat) | Skipped (err : goerror) | Failing (err : goerror).
Definition skipWithError (noSkip : bool) (err : goerror) : backing := if noSkip then Failing err else Skipped err.
Definition BackingMongoDBClient (noSkip : bool) (a : mongoAnswers) (s : mongoTests) : mongoTests * backing :=
  match backingMongoDBClient a s with
  | (s, inl c) => (s, GotClient c)
  | (s, inr err) => (s, skipWithError noSkip err)
  end.

Inductive mongoTestsUse := MtUse (noSkip : bool) (a : mongoAnswers) | MtTeardown (a : mongoAnswers).
Definition use_mongo_tests (u : mongoTestsUse) (s : mongoTests) : mongoTests :=
  match u with MtUse noSkip a => (BackingMongoDBClient noSkip a s).1 | MtTeardown a => teardownMongoDB a s end.

(** The clients that are connected are the shared one, while it is. *)
Record mongo_tests_inv (s : mongoTests) : Prop := {
  mi_live_client : mt_live s = if mt_connected s then option_list (mt_client s) else [];
  mi_connected : mt_connected s = true -> is_Some (mt_client s);
}.

Lemma backing_client_inv a s : mongo_tests_inv s ->
  let '(s', r) := backingMongoDBClient a s in
  mongo_tests_inv s' /\ match r with inl c => mt_client s' = Some c /\ mt_connected s' = true /\ mt_live s' = [c] | inr _ => mt_connected s' = false end.
Proof.
  intros [H1 H2]. unfold backingMongoDBClient, backingMongoDBURI, keep_error. destruct s as [cl cn er us li md]; cbn in *. subst li.
  destruct cn; [destruct cl as [c|]; [by split|by destruct (H2 eq_refl)]|].
  assert (Hno : forall r, match cl with Some c => r | None => r end = (r : mongoTests * (nat + goerror))) by (by destruct cl).
  rewrite Hno. clear Hno. destruct er; [by split|]. destruct (ma_uri a); [|by split]. case_bool_decide; [by split|].
  destruct (ma_new a); [by split|]. destruct (ma_connect a); [by split|]. destruct (ma_ping a); [by split|]. destruct (ma_status a); by split.
Qed.

(** However tests take the shared client and tear down, at most one client is
    connected, every test that gets a client gets that one, and after a teardown
    none is left. *)
Theorem one_client_is_connected us u :
  let s := run_ops use_mongo_tests us mongo_tests_start in
  (length (mt_live s) <= 1)%nat /\
  match u with
  | MtUse noSkip a => match BackingMongoDBClient noSkip a s with (s', GotClient c) => mt_live s' = [c] | _ => True end
  | MtTeardown a => mt_usingMongoDB s = true -> mt_live (teardownMongoDB a s) = []
  end.
Proof.
  intros s. assert (Hi : mongo_tests_inv s).
  { apply run_ops_invariant; [|by split]. intros o t Ht. destruct o as [noSkip a|a]; cbn.
    - unfold BackingMongoDBClient. pose proof (backing_client_inv a t Ht) as Hb. destruct (backingMongoDBClient a t) as [t' [c|e]]; by destruct Hb.
    - unfold teardownMongoDB. destruct (mt_usingMongoDB t); [|done]. cbn. pose proof (backing_client_inv a t Ht) as Hb.
      destruct (backingMongoDBClient a t) as [t1 r1]. destruct Hb as [Ht1 _]. pose proof (backing_client_inv a t1 Ht1) as Hb.
      destruct (backingMongoDBClient a t1) as [t2 [c|e]]; [|by destruct Hb]. destruct Hb as (_ & _ & _ & Hl). split; cbn; [|done].
      rewrite Hl. rewrite filter_cons_False; [done|]. tauto. }
  split.
  { destruct Hi as [-> _]. destruct (mt_connected s); [|cbn; lia]. destruct (mt_client s); cbn; lia. }
  destruct u as [noSkip a|a].
  - unfold BackingMongoDBClient. pose proof (backing_client_inv a s Hi) as Hb. destruct (backingMongoDBClient a s) as [s' [c|e]]; [by destruct Hb as (_ & _ & _ & Hl)|].
    by destruct noSkip.
  - intros Hu. unfold teardownMongoDB. rewrite Hu. cbn. pose proof (backing_client_inv a s Hi) as Hb.
    destruct (backingMongoDBClient a s) as [t1 r1]. destruct Hb as [Ht1 _]. pose proof (backing_client_inv a t1 Ht1) as Hb.
    destruct (backingMongoDBClient a t1) as [t2 [c|e]].
    + destruct Hb as (_ & _ & _ & Hl). cbn. rewrite Hl, filter_cons_False; [done|]. tauto.
    + destruct Hb as [[Hl _] Hc]. by rewrite Hl, Hc.
Qed.

(** An error of the driver is kept: nothing is tried again. A missing URI is
    not. *)
Lemma driver_error_is_kept a a' s s' err : mt_connected s = false -> backingMongoDBClient a s = (s', inr err) -> ma_uri a <> None -> ma_uri a <> Some EmptyString ->
  backingMongoDBClient a' s' = (s', inr err).
Proof.
  intros Hc Hb Hu1 Hu2. unfold backingMongoDBClient, backingMongoDBURI, keep_error in *. destruct s as [cl cn er us li md]; cbn in *. subst cn.
  destruct (ma_uri a) as [uri|]; [|done]. rewrite bool_decide_eq_false_2 in Hb by congruence.
  destruct cl, er, (ma_new a), (ma_connect a), (ma_ping a), (ma_status a); cbn in *; by simplify_eq.
Qed.
End MongoClient.
