(* ===== verification/Helpers.v ===== *)
(** * Small helpers: [string.go], [io.go], [net.go], [http2.go]

    Slices that share storage with what they were cut from, reading a given
    number of bytes, and the settings of listeners and HTTP servers. The
    operating system answers through arguments. *)

From S2P Require Import Prelude GoError GoStrings GoRun.
From Stdlib Require Import Ascii.
Open Scope Z_scope.

(** ** [string.go] *)

Definition alphaLowers : string := "abcdefghijklmnopqrstuvwxyz".
Definition ToUpper (c : ascii) : ascii := if between "a" "z" c then ascii_of_nat (nat_of_ascii c - 32) else c.
Definition nth_char (s : string) (n : nat) : ascii := default "000"%char (String.get n s).

(** [RandomAlphaString]: the random numbers are a number below 2^31 - 1 and a
    coin for each character. A negative size is the empty string. *)
Definition alpha_char (val chance : Z) : ascii :=
  let c := nth_char alphaLowers (Z.to_nat (val mod 26)) in if chance =? 0 then c else ToUpper c.
Fixpoint alpha_string (size : nat) (random : nat -> Z * Z) : string :=
  match size with
  | O => EmptyString
  | S n => String (alpha_char (random O).1 (random O).2) (alpha_string n (fun i => random (S i)))
  end.
Definition RandomAlphaString (size : Z) (random : nat -> Z * Z) : string := alpha_string (Z.to_nat size) random.

(** Every character of a random string is a letter, and it has the length asked
    for. *)
Lemma random_alpha_spec size random : (forall i, 0 <= (random i).1) ->
  all_chars (fun c => between "a" "z" (lower c)) (RandomAlphaString size random) = true /\
  Z.of_nat (String.length (RandomAlphaString size random)) = Z.max 0 size.
Proof.
  intros Hr. unfold RandomAlphaString. replace (Z.max 0 size) with (Z.of_nat (Z.to_nat size)) by lia.
  generalize (Z.to_nat size). clear size. intros n. revert random Hr.
  induction n as [|n IH]; intros random Hr; [done|]. cbn [alpha_string all_chars String.length].
  destruct (IH (fun i => random (S i))) as [H1 H2]; [auto|]. rewrite H1, andb_true_r. split; [|lia].
  unfold alpha_char. pose proof (Z.mod_pos_bound (random O).1 26 ltac:(lia)) as Hm.
  set (k := Z.to_nat ((random O).1 mod 26)). assert (k < 26)%nat as Hk by (unfold k; lia). clearbody k.
  do 26 (destruct k as [|k]; [by destruct (_ =? 0)|]). lia.
Qed.

(** [StringSet]. *)
Definition StringSet : Type := gset string.
Definition NewStringSet (values : list string) : StringSet := foldl (fun set val => {[ val ]} ∪ set) ∅ values.
Definition StringSet_Add (value : string) (ss : StringSet) : StringSet := {[ value ]} ∪ ss.
Definition StringSet_Remove (value : string) (ss : StringSet) : StringSet := ss ∖ {[ value ]}.
(** [ToList], in the order in which Go walks the map. *)
Definition StringSet_ToList (order : StringSet -> list string) (ss : StringSet) : list string := order ss.

Lemma NewStringSet_elem values v : v ∈ NewStringSet values <-> v ∈ values.
Proof.
  unfold NewStringSet. enough (forall s : gset string, v ∈ foldl (fun (set : gset string) val => {[ val ]} ∪ set) s values <-> v ∈ values \/ v ∈ s) as H.
  { rewrite H. set_solver. }
  induction values as [|x xs IH]; intros s; cbn [foldl]; [set_solver|]. rewrite IH. set_solver.
Qed.

(** [StringSliceRemove]: the slice that is returned, and what the caller's slice
    holds afterwards, since append moves the tail within the shared array. *)
Definition StringSliceRemove (from : list string) (at_ : Z) : ended unit (list string * list string) :=
  if Z.of_nat (length from) <=? at_ then Ret (from, from)
  else if at_ <? 0 then Panicking
  else
    let i := Z.to_nat at_ in
    let removed := take i from ++ drop (S i) from in
    Ret (removed, removed ++ drop (length removed) from).

(** Removing a position that exists removes just it from the result, and leaves
    the slice it was given with the tail moved and its last element twice. *)
Theorem slice_remove_spec (from : list string) at_ :
  0 <= at_ < Z.of_nat (length from) ->
  exists x before after last,
    from = before ++ x :: after /\ length before = Z.to_nat at_ /\
    StringSliceRemove from at_ = Ret (before ++ after, before ++ after ++ [last]) /\ from !! pred (length from) = Some last.
Proof.
  intros Hat. destruct (lookup_lt_is_Some_2 from (Z.to_nat at_)) as [x Hx]; [lia|].
  destruct (lookup_lt_is_Some_2 from (pred (length from))) as [last Hlast]; [lia|].
  exists x, (take (Z.to_nat at_) from), (drop (S (Z.to_nat at_)) from), last. split_and!.
  - by rewrite take_drop_middle.
  - rewrite length_take. lia.
  - unfold StringSliceRemove. rewrite (proj2 (Z.leb_gt _ _)) by lia. rewrite (proj2 (Z.ltb_ge _ _)) by lia.
    rewrite <-!app_assoc. do 4 f_equal.
    rewrite length_app, length_take, length_drop. replace (_ + _)%nat with (pred (length from)) by lia.
    apply (drop_S _ _ _) in Hlast. rewrite Hlast. rewrite drop_ge; [done|lia].
  - done.
Qed.

(** ** [io.go] *)

(** [ReadBytes]: the state of the context before each Read, and what the Read
    gives, the bytes it wrote and its error. [None]: it still waits. *)
Fixpoint read_loop (toRead : nat) (buf : bytes) (inputs : list (option goerror * (bytes * option goerror)))
    : option (bytes + goerror) :=
  if (length buf <? toRead)%nat then
    match inputs with
    | [] => None
    | (Some ctxErr, _) :: _ => Some (inr ctxErr)
    | (None, (_, Some err)) :: _ => Some (inr err)
    | (None, (n, None)) :: inputs' => read_loop toRead (buf ++ n) inputs'
    end
  else Some (inl buf).
Definition ReadBytes (toRead : Z) (inputs : list (option goerror * (bytes * option goerror))) : ended unit (option (bytes + goerror)) :=
  if toRead <? 0 then Panicking else Ret (read_loop (Z.to_nat toRead) [] inputs).

(** No Read gives more than what is asked of it. *)
Fixpoint reader_ok (room : nat) (inputs : list (option goerror * (bytes * option goerror))) : Prop :=
  match inputs with
  | [] => True
  | (_, (n, _)) :: inputs' => (length n <= room)%nat /\ reader_ok (room - length n) inputs'
  end.

(** What is read is what the reader gave, in order, and exactly as many bytes as
    were asked for; it is returned as soon as they are there. *)
Theorem read_bytes_spec (toRead : Z) inputs b :
  reader_ok (Z.to_nat toRead) inputs -> ReadBytes toRead inputs = Ret (Some (inl b)) ->
  Z.of_nat (length b) = toRead /\ exists rest, concat ((fun i => i.2.1) <$> inputs) = b ++ rest.
Proof.
  intros Hr. unfold ReadBytes. destruct (Z.ltb_spec toRead 0) as [|Hge]; [done|]. intros [= Hl].
  enough (length b = Z.to_nat toRead /\ exists rest, [] ++ concat ((fun i => i.2.1) <$> inputs) = b ++ rest) as [? ?].
  { split; [lia|done]. }
  replace (Z.to_nat toRead) with (Z.to_nat toRead - length (@nil Byte.byte))%nat in Hr by (cbn; lia).
  assert (length (@nil Byte.byte) <= Z.to_nat toRead)%nat as Hlen by (cbn; lia).
  revert Hr Hl Hlen. generalize (@nil Byte.byte) as buf. induction inputs as [|[ctxErr [n err]] inputs IH]; intros buf Hr Hl Hlen.
  - cbn [read_loop] in Hl. destruct (Nat.ltb_spec (length buf) (Z.to_nat toRead)); [done|]. injection Hl as <-.
    split; [lia|]. by exists [].
  - cbn [read_loop] in Hl. destruct (Nat.ltb_spec (length buf) (Z.to_nat toRead)).
    + destruct ctxErr; [done|]. destruct err; [done|]. cbn [reader_ok] in Hr. destruct Hr as [Hn Hr].
      destruct (IH (buf ++ n)) as [H1 [rest H2]]; [|done| |].
      * rewrite length_app. by replace (Z.to_nat toRead - (length buf + length n))%nat with (Z.to_nat toRead - length buf - length n)%nat by lia.
      * rewrite length_app. lia.
      * split; [done|]. exists rest. rewrite <-H2. cbn. by rewrite app_assoc.
    + injection Hl as <-. split; [lia|]. by eexists.
Qed.

(** A Read that gives the last bytes together with io.EOF, as it may: everything
    was read, and ReadBytes fails. *)
Theorem bytes_with_eof_are_lost (b : bytes) : b <> [] ->
  ReadBytes (Z.of_nat (length b)) [(None, (b, Some (EIs EOF)))] = Ret (Some (inr (EIs EOF))).
Proof.
  intros Hb. unfold ReadBytes. rewrite (proj2 (Z.ltb_ge _ _)) by lia. rewrite Nat2Z.id.
  destruct b; [done|]. reflexivity.
Qed.

(** ** [net.go] *)

(** [TryReserveRandomPort]: the port the listener got, and what closing it gave. *)
Definition TryReserveRandomPort `{Multierr goerror} (listen : Z + goerror) (close : option goerror) : Z * option goerror :=
  match listen with
  | inr err => (0, Some err)
  | inl port => (port, match close with Some err => multierr_Combine [err] | None => None end)
  end.

(** An address of an interface: a network with its mask, or another type. *)
Inductive ifaceAddr := IPNet (loopback : bool) (ones bits : Z) (ip : string) | OtherAddr (type : string).
Definition localIPv4 (a : ifaceAddr) : option string :=
  match a with
  | IPNet loopback ones bits ip => if negb loopback && (bits =? 32) && negb (ones =? bits) then Some ip else None
  | OtherAddr _ => None
  end.
Fixpoint addrs_loop (addrs : list ifaceAddr) (all : list string) : list string + goerror :=
  match addrs with
  | [] => inl all
  | addr :: addrs' =>
      match addr with
      | IPNet loopback ones bits ip =>
          if loopback then addrs_loop addrs' all
          else if negb (bits =? 32) then addrs_loop addrs' all
          else if ones =? bits then addrs_loop addrs' all
          else addrs_loop addrs' (all ++ [ip])
      | OtherAddr type => inr (ENew ("unknow address type: " +:+ type))
      end
  end.
Fixpoint interfaces_loop (ifaces : list (list ifaceAddr + goerror)) (all : list string) : list string + goerror :=
  match ifaces with
  | [] => inl all
  | inr err :: _ => inr err
  | inl addrs :: ifaces' =>
      match addrs_loop addrs all with
      | inr err => inr err
      | inl all' => interfaces_loop ifaces' all'
      end
  end.
Definition GetAllLocalIPv4s (interfaces : list (list ifaceAddr + goerror) + goerror) : list string + goerror :=
  match interfaces with
  | inr err => inr err
  | inl ifaces => interfaces_loop ifaces []
  end.

Definition is_net (a : ifaceAddr) : bool := match a with IPNet _ _ _ _ => true | _ => false end.

Lemma addrs_loop_spec addrs : forall all,
  match addrs_loop addrs all with
  | inl r => r = all ++ omap localIPv4 addrs /\ Forall (fun a => is_net a = true) addrs
  | inr _ => ~ Forall (fun a => is_net a = true) addrs
  end.
Proof.
  induction addrs as [|a addrs IH]; intros all; cbn [addrs_loop].
  { cbn. rewrite app_nil_r. done. }
  destruct a as [loopback ones bits ip|type]; [|intros Hf; apply Forall_cons in Hf as [Hf _]; done].
  assert (forall r o, match addrs_loop addrs r with
            | inl r' => r' = r ++ omap localIPv4 addrs /\ Forall (fun a => is_net a = true) addrs
            | inr _ => ~ Forall (fun a => is_net a = true) addrs end ->
          r = all ++ option_list o -> localIPv4 (IPNet loopback ones bits ip) = o ->
          match addrs_loop addrs r with
            | inl r' => r' = all ++ omap localIPv4 (IPNet loopback ones bits ip :: addrs) /\ Forall (fun a => is_net a = true) (IPNet loopback ones bits ip :: addrs)
            | inr _ => ~ Forall (fun a => is_net a = true) (IPNet loopback ones bits ip :: addrs) end) as Hstep.
  { intros r o Hr -> Ho. destruct (addrs_loop addrs _).
    - destruct Hr as [-> Hf]. split; [|by constructor]. cbn [omap list_omap]. rewrite Ho, <-app_assoc. by destruct o.
    - intros Hf. apply Forall_cons in Hf as [_ Hf]. done. }
  unfold localIPv4 in Hstep. destruct loopback; cbn [negb andb] in *.
  { apply (Hstep _ None); [apply IH|by rewrite app_nil_r|done]. }
  destruct (bits =? 32); cbn [negb andb] in *.
  2: { apply (Hstep _ None); [apply IH|by rewrite app_nil_r|done]. }
  destruct (ones =? bits); cbn [negb andb] in *.
  { apply (Hstep _ None); [apply IH|by rewrite app_nil_r|done]. }
  apply (Hstep _ (Some ip)); [apply IH|done|done].
Qed.

(** The loops compute what a filter over all addresses does: the IPv4 networks
    that are no loopback and larger than one address, of all interfaces, in
    order; they fail where an interface or an address cannot be read. *)
Theorem local_ips_are_filtered ifaces :
  match GetAllLocalIPv4s (inl ifaces) with
  | inl ips => exists addrs, ifaces = inl <$> addrs /\ Forall (fun a => is_net a = true) (concat addrs) /\
                 ips = omap localIPv4 (concat addrs)
  | inr err => inr err ∈ ifaces \/ exists addrs, inl addrs ∈ ifaces /\ ~ Forall (fun a => is_net a = true) addrs
  end.
Proof.
  cbn [GetAllLocalIPv4s]. enough (forall all, match interfaces_loop ifaces all with
    | inl ips => exists addrs, ifaces = inl <$> addrs /\ Forall (fun a => is_net a = true) (concat addrs) /\ ips = all ++ omap localIPv4 (concat addrs)
    | inr err => inr err ∈ ifaces \/ exists addrs, inl addrs ∈ ifaces /\ ~ Forall (fun a => is_net a = true) addrs end) as H.
  { specialize (H []). destruct (interfaces_loop ifaces []); [|done]. destruct H as (addrs & ? & ? & ->). by exists addrs. }
  induction ifaces as [|[addrs|err] ifaces IH]; intros all; cbn [interfaces_loop].
  - exists []. cbn. rewrite app_nil_r. done.
  - pose proof (addrs_loop_spec addrs all) as Ha. destruct (addrs_loop addrs all) as [all'|err].
    + destruct Ha as [-> Hf]. specialize (IH (all ++ omap localIPv4 addrs)). destruct (interfaces_loop _ _).
      * destruct IH as (more & -> & Hm & ->). exists (addrs :: more). split_and!; [done| |].
        { cbn. by apply Forall_app. }
        { cbn. by rewrite omap_app, app_assoc. }
      * destruct IH as [?|(more & ? & ?)]; [left; by right|right; exists more; split; [by right|done]].
    + right. exists addrs. split; [by left|done].
  - left. by left.
Qed.

(** Listeners: an address and the TLS configuration, if any. *)
Record tlsConf (Cert : Type) := mkTlsConf {
  tc_MinVersion : Z; tc_Certificates : list Cert;
  tc_GetCertificate : option bool;   (* the function, and whether it finds a certificate *)
}.
Arguments mkTlsConf {Cert}.
Arguments tc_MinVersion {Cert}.
Arguments tc_Certificates {Cert}.
Arguments tc_GetCertificate {Cert}.

Section Listeners.
Context {Cert : Type} (Listen : string -> option goerror).
(** A listener at an address, with a configuration where it is a TLS one. *)
Inductive netListener := NetListener (address : string) | TLSListener (address : string) (config : tlsConf Cert).
Definition listened : Type := (netListener * bool) + goerror.

Definition VersionTLS12 : Z := 771.
Definition ErrInsufficientX509KeyPair : goerror := ENew "must provide both cert and key of an X509 key pair, not just one part".
Definition defaultListenAddress : string := "localhost:".

Definition newTLSListener (address : string) (config : tlsConf Cert) : listened :=
  let cloned := if tc_MinVersion config =? 0 then mkTlsConf VersionTLS12 (tc_Certificates config) (tc_GetCertificate config) else config in
  match Listen address with
  | Some err => inr err
  | None => inl (TLSListener address cloned, true)
  end.
Definition insecure_listener (address : string) : listened :=
  match Listen address with Some err => inr err | None => inl (NetListener address, false) end.
Definition listen_address (address : string) : string := if bool_decide (address = EmptyString) then defaultListenAddress else address.

(** The certificate and key as file names or as texts; [load] reads the pair. *)
Definition possibly_secure (address : string) (cert key : string) (load : Cert + goerror) : listened :=
  if xorb (bool_decide (cert = EmptyString)) (bool_decide (key = EmptyString)) then inr ErrInsufficientX509KeyPair
  else if bool_decide (cert = EmptyString) || bool_decide (key = EmptyString) then insecure_listener (listen_address address)
  else match load with
       | inr err => inr err
       | inl c => newTLSListener (listen_address address) (mkTlsConf VersionTLS12 [c] None)
       end.
Definition NewPossiblySecureTCPListenerFromFile := possibly_secure.
Definition NewPossiblySecureTCPListenerFromMemory := possibly_secure.

(** Calling the GetCertificate of a configuration that has none panics. *)
Definition NewPossiblySecureTCPListenerFromConfig (address : string) (config : tlsConf Cert) : ended goerror (netListener * bool) :=
  let run (r : listened) := match r with inl l => Ret l | inr err => Err err end in
  match tc_Certificates config with
  | [] =>
      match tc_GetCertificate config with
      | None => Panicking
      | Some false => run (insecure_listener (listen_address address))
      | Some true => run (newTLSListener (listen_address address) config)
      end
  | _ => run (newTLSListener (listen_address address) config)
  end.

(** A listener is said to be secure exactly when it is a TLS one, it is one
    exactly when both a certificate and a key were given, it then speaks TLS 1.2
    or later with that certificate, and without an address it is on localhost. *)
Theorem listener_is_secure_iff address cert key load l secure :
  NewPossiblySecureTCPListenerFromFile address cert key load = inl (l, secure) ->
  (secure = true <-> cert <> EmptyString /\ key <> EmptyString) /\
  (secure = true <-> exists a config, l = TLSListener a config /\ VersionTLS12 <= tc_MinVersion config /\
                       exists c, load = inl c /\ tc_Certificates config = [c]) /\
  (address = EmptyString -> l = NetListener defaultListenAddress \/ exists config, l = TLSListener defaultListenAddress config).
Proof.
  unfold NewPossiblySecureTCPListenerFromFile, possibly_secure. set (addr := listen_address address).
  assert (address = EmptyString -> addr = defaultListenAddress) as Haddr by (intros ->; done). clearbody addr.
  assert (forall s : string, s = EmptyString \/ s <> EmptyString) as Hdec by (intros []; auto).
  destruct (Hdec cert) as [->|Hc], (Hdec key) as [->|Hk]; rewrite ?(bool_decide_eq_true_2 (EmptyString = EmptyString)) by done;
    rewrite ?(bool_decide_eq_false_2 (cert = EmptyString)), ?(bool_decide_eq_false_2 (key = EmptyString)) by done; cbn [xorb orb]; [|done..|].
  - unfold insecure_listener. destruct (Listen addr); [done|]. intros [= <- <-].
    split_and!; [split; [done|by intros []]|split; [done|by intros (a & c & ? & _)]|intros Ha; left; by rewrite Haddr].
  - unfold newTLSListener. destruct load as [c|]; [|done]. cbn [tc_MinVersion]. change (VersionTLS12 =? 0) with false. cbv iota.
    destruct (Listen addr); [done|]. intros [= <- <-]. split_and!; [done| |intros Ha; right; rewrite Haddr by done; eauto].
    split; [|done]. intros _. do 2 eexists. split; [done|]. cbn. split; [unfold VersionTLS12; lia|eauto].
Qed.

(** A configuration with neither certificates nor a way to get one, which is to
    give an insecure listener, panics. *)
Lemma empty_config_panics address minVersion :
  NewPossiblySecureTCPListenerFromConfig address (mkTlsConf minVersion [] None) = Panicking.
Proof. done. Qed.
End Listeners.

(** ** [http2.go] *)

Inductive httpHandler := PlainHandler | H2CHandler.
Record HTTPServerOptions := mkHTTPServerOptions { ho_Secure : bool; ho_TLSAuth : bool; ho_MaxHeaderBytes : Z; ho_Addr : string }.
Record httpServer := mkHttpServer {
  hs_ReadTimeout : Z; hs_MaxHeaderBytes : Z; hs_Handler : httpHandler; hs_Addr : string;
  hs_TLS : option (Z * list string * bool);   (* minimal version, cipher suites, VerifyClientCertIfGiven *)
  hs_OnShutdown : bool;                        (* closes the HTTP/2 server *)
}.
Definition cipher_suites : list string :=
  ["TLS_ECDHE_ECDSA_WITH_AES_128_GCM_SHA256"; "TLS_ECDHE_RSA_WITH_AES_128_GCM_SHA256"; "TLS_ECDHE_ECDSA_WITH_AES_256_GCM_SHA384";
   "TLS_ECDHE_RSA_WITH_AES_256_GCM_SHA384"; "TLS_ECDHE_ECDSA_WITH_CHACHA20_POLY1305"; "TLS_ECDHE_RSA_WITH_CHACHA20_POLY1305"]%string.
Definition default_header_bytes : Z := 2 ^ 20.
Definition read_timeout : Z := 10 * 10 ^ 9.

(** [configure]: what http2.ConfigureServer gives. *)
Definition NewHTTP2Server (configure : option goerror) : unit + goerror := match configure with Some err => inr err | None => inl tt end.
Definition NewPlainTextHTTP2Server (configure : option goerror) : httpServer + goerror :=
  match NewHTTP2Server configure with
  | inr err => inr err
  | inl _ => inl (mkHttpServer read_timeout default_header_bytes H2CHandler EmptyString None true)
  end.
Definition NewPossiblySecureHTTPServer (configure : option goerror) (opts : HTTPServerOptions) : httpServer + goerror :=
  let max := if ho_MaxHeaderBytes opts =? 0 then default_header_bytes else ho_MaxHeaderBytes opts in
  match (if ho_Secure opts then
           inl (mkHttpServer read_timeout max PlainHandler EmptyString
                  (if ho_TLSAuth opts then Some (771, cipher_suites, true) else None) false)
         else NewPlainTextHTTP2Server configure) with
  | inr err => inr err
  | inl s => inl (mkHttpServer (hs_ReadTimeout s) max (hs_Handler s) (ho_Addr opts) (hs_TLS s) (hs_OnShutdown s))
  end.

(** A plaintext server speaks HTTP/2 in clear and closes its HTTP/2 side when it
    shuts down; a secure one checks client certificates exactly when it is to
    authenticate by TLS; both have the address and header limit of the options. *)
Lemma http_server_spec configure opts s : NewPossiblySecureHTTPServer configure opts = inl s ->
  (hs_Handler s = H2CHandler <-> ho_Secure opts = false) /\ (hs_OnShutdown s = true <-> ho_Secure opts = false) /\
  (is_Some (hs_TLS s) <-> ho_Secure opts = true /\ ho_TLSAuth opts = true) /\
  hs_Addr s = ho_Addr opts /\ hs_MaxHeaderBytes s <> 0.
Proof.
  unfold NewPossiblySecureHTTPServer, NewPlainTextHTTP2Server, NewHTTP2Server, default_header_bytes.
  destruct opts as [[] auth max addr], configure; cbn; intros [= <-]; cbn; destruct auth, (Z.eqb_spec max 0);
    (split_and!; try done; naive_solver lia).
Qed.

(** ** Witnesses *)

Lemma slice_remove_spec_witness : exists x before after last,
  ["a"; "b"; "c"]%string = before ++ x :: after /\ length before = 1%nat /\
  StringSliceRemove ["a"; "b"; "c"]%string 1 = Ret (before ++ after, before ++ after ++ [last]) /\
  ["a"; "b"; "c"]%string !! 2%nat = Some last.
Proof. apply (slice_remove_spec ["a"; "b"; "c"]%string 1). cbn. lia. Defined.

Lemma read_bytes_spec_witness :
  Z.of_nat (length [Byte.x00; Byte.x01; Byte.x02]) = 3 /\
  exists rest, [Byte.x00; Byte.x01; Byte.x02] = [Byte.x00; Byte.x01; Byte.x02] ++ rest.
Proof.
  apply (read_bytes_spec 3 [(None, ([Byte.x00; Byte.x01], None)); (None, ([], None)); (None, ([Byte.x02], None)); (None, ([], None))] _).
  - cbn. lia.
  - vm_compute. reflexivity.
Defined.
