(* ===== verification/Protoutils.v ===== *)
(** * Go values as structs of protobuf: [protoutils/protoutils.go]

    A struct or map is turned by reflection into what structpb.NewStruct takes:
    maps with string keys, lists, strings and numbers. Values carry what
    reflection sees of their types. Maps are lists in the order in which Go
    walks them; a map that is built has each key once. *)

From S2P Require Import Prelude GoError GoStrings GoRun.
From Stdlib Require Import Ascii.
Open Scope Z_scope.

(** The kinds that the code tells apart. The kind of syscall.Errno is Uintptr,
    which is one of the others. *)
Inductive gkind := GkStruct | GkMap | GkSlice | GkString | GkUint | GkInt | GkPtr | GkOther.

(** The tag [json] of a field, its name, and whether it is exported. *)
Record fieldInfo := mkFieldInfo { fl_Name : string; fl_json : string; fl_exported : bool }.

(** A key of a map: a string, a value with a String method, or another one. *)
Inductive mapKey := KeyString (s : string) | KeyStringer (s : string) | KeyOther.

Inductive goval :=
  | GNil                                   (* a nil interface *)
  | GErrno (errno : Z)                     (* syscall.Errno *)
  | GBool (b : bool) | GString (s : string) | GInt (z : Z) | GUint (z : Z)
  | GFloat (isZero : bool)
  | GStruct (fields : list (fieldInfo * goval))
  | GMap (entries : list (mapKey * goval))
  | GSlice (elems : list goval)
  | GArray (elems : list goval)
  | GPtr (elem : gkind) (p : option goval) (* a nil pointer has a type *)
  | GOther.                                (* functions, channels, ... *)

(** What is made of a value. [IRaw] is the value itself. *)
Inductive iface :=
  | INil | IString (s : string) | IInt (z : Z) | IUint (z : Z)
  | IMap (m : list (string * iface)) | IList (l : list iface) | IRaw (v : goval).

Inductive protoError := ENoData | ENotStructOrMap | ENotAMap | ENotASlice | EMapKey | ENewStruct (e : goerror).

Definition kind_of (v : goval) : gkind :=
  match v with
  | GString _ => GkString | GInt _ => GkInt | GUint _ => GkUint
  | GStruct _ => GkStruct | GMap _ => GkMap | GSlice _ => GkSlice | GPtr _ _ => GkPtr
  | _ => GkOther
  end.

(** [isEmptyValue]; the Value of a nil interface is invalid, not empty. *)
Definition isEmptyValue (v : goval) : bool :=
  match v with
  | GArray l | GSlice l => match l with [] => true | _ => false end
  | GMap l => match l with [] => true | _ => false end
  | GString s => bool_decide (s = EmptyString)
  | GBool b => negb b
  | GInt z | GUint z | GErrno z => z =? 0
  | GFloat isZero => isZero
  | GPtr _ None => true
  | _ => false
  end.

(** The key of a field. *)
Definition field_key (f : fieldInfo) : string :=
  match split_char "," (fl_json f) with
  | EmptyString :: _ | [] => fl_Name f
  | tagName :: _ => tagName
  end.
(** Whether the loop goes on to the next field: the tag "-", a field that is
    not exported, an empty value that may be omitted. *)
Definition field_skipped (ignoreOmitEmpty : bool) (f : fieldInfo) (v : goval) : bool :=
  bool_decide (fl_json f = "-"%string) || negb (fl_exported f)
  || (negb ignoreOmitEmpty && str_contains (fl_json f) "omitempty" && isEmptyValue v).

(** [res[key] = data]. *)
Fixpoint map_put (k : string) (d : iface) (m : list (string * iface)) : list (string * iface) :=
  match m with
  | [] => [(k, d)]
  | (k', d') :: m' => if bool_decide (k' = k) then (k, d) :: m' else (k', d') :: map_put k d m'
  end.

Definition result (A : Type) : Type := ended protoError A.

(** The loops of structToMap, marshalMap and marshalSlice, over what
    toInterface makes of a value. *)
Section Loops.
Variables (toInterface : goval -> result iface) (ignoreOmitEmpty : bool).
Definition struct_loop : list (fieldInfo * goval) -> list (string * iface) -> result (list (string * iface)) :=
  fix loop fields res :=
  match fields with
  | [] => Ret res
  | (f, v) :: fields' =>
      if field_skipped ignoreOmitEmpty f v then loop fields' res
      else match toInterface v with
           | Ret d => loop fields' (map_put (field_key f) d res)
           | Err e => Err e
           | Panicking => Panicking
           end
  end.
Definition map_loop : list (mapKey * goval) -> list (string * iface) -> result (list (string * iface)) :=
  fix loop entries res :=
  match entries with
  | [] => Ret res
  | (KeyOther, _) :: _ => Err EMapKey
  | (KeyString k, v) :: entries' | (KeyStringer k, v) :: entries' =>
      match toInterface v with
      | Ret d => loop entries' (map_put k d res)
      | Err e => Err e
      | Panicking => Panicking
      end
  end.
Definition slice_loop : list goval -> list iface -> result (list iface) :=
  fix loop elems res :=
  match elems with
  | [] => Ret res
  | v :: elems' =>
      match toInterface v with
      | Ret d => loop elems' (res ++ [d])
      | Err e => Err e
      | Panicking => Panicking
      end
  end.
End Loops.

Definition fmap_result {A B} (f : A -> B) (r : result A) : result B :=
  match r with Ret a => Ret (f a) | Err e => Err e | Panicking => Panicking end.

(** [toInterface]. Behind a pointer only the kind is looked at: maps and slices
    are then refused, and the Value of a nil pointer is invalid, whose String is
    a text and whose Int and Uint panic. *)
Fixpoint toInterface (ignoreOmitEmpty : bool) (data : goval) : result iface :=
  match data with
  | GNil => Ret INil
  | GErrno errno => Ret (IInt errno)
  | GString s => Ret (IString s)
  | GUint z => Ret (IUint z)
  | GInt z => Ret (IInt z)
  | GStruct fields => fmap_result IMap (struct_loop (toInterface ignoreOmitEmpty) ignoreOmitEmpty fields [])
  | GMap entries => fmap_result IMap (map_loop (toInterface ignoreOmitEmpty) entries [])
  | GSlice elems => fmap_result IList (slice_loop (toInterface ignoreOmitEmpty) elems [])
  | GPtr elem p =>
      match elem with
      | GkStruct =>
          match p with
          | Some (GStruct fields) => fmap_result IMap (struct_loop (toInterface ignoreOmitEmpty) ignoreOmitEmpty fields [])
          | _ => Ret (IMap [])
          end
      | GkMap => Err ENotAMap
      | GkSlice => Err ENotASlice
      | GkString => match p with Some (GString s) => Ret (IString s) | _ => Ret (IString "<invalid Value>") end
      | GkUint => match p with Some (GUint z) => Ret (IUint z) | _ => Panicking end
      | GkInt => match p with Some (GInt z) => Ret (IInt z) | _ => Panicking end
      | GkPtr | GkOther => Ret (IRaw data)
      end
  | GBool _ | GFloat _ | GArray _ | GOther => Ret (IRaw data)
  end.

(** [structToMap], [marshalMap] and [marshalSlice] on whole values. *)
Definition structToMap (data : goval) (ignoreOmitEmpty : bool) : result (list (string * iface)) :=
  match data with
  | GStruct fields | GPtr GkStruct (Some (GStruct fields)) => struct_loop (toInterface ignoreOmitEmpty) ignoreOmitEmpty fields []
  | GPtr GkStruct _ => Ret []
  | _ => Err ENotStructOrMap
  end.
Definition marshalMap (data : goval) (ignoreOmitEmpty : bool) : result (list (string * iface)) :=
  match data with GMap entries => map_loop (toInterface ignoreOmitEmpty) entries [] | _ => Err ENotAMap end.
Definition marshalSlice (data : goval) (ignoreOmitEmpty : bool) : result (list iface) :=
  match data with GSlice elems => slice_loop (toInterface ignoreOmitEmpty) elems [] | _ => Err ENotASlice end.

(** [interfaceToMapHelper], [InterfaceToMap]. *)
Definition interfaceToMapHelper (data : goval) (ignoreOmitEmpty : bool) : result (list (string * iface)) :=
  match data with
  | GNil => Err ENoData
  | _ =>
      match (match data with GPtr elem _ => elem | _ => kind_of data end) with
      | GkStruct => structToMap data ignoreOmitEmpty
      | GkMap => marshalMap data ignoreOmitEmpty
      | _ => Err ENotStructOrMap
      end
  end.
Definition InterfaceToMap (data : goval) : result (list (string * iface)) := interfaceToMapHelper data false.

(** [StructToStructPb] and [StructToStructPbIgnoreOmitEmpty]; [NewStruct] is the
    one of structpb. *)
Section StructPb.
Context {Struct : Type} (NewStruct : list (string * iface) -> Struct + goerror).
Definition new_struct (encoded : result (list (string * iface))) : result Struct :=
  match encoded with
  | Ret m => match NewStruct m with inl s => Ret s | inr err => Err (ENewStruct err) end
  | Err e => Err e
  | Panicking => Panicking
  end.
Definition StructToStructPb (i : goval) : result Struct := new_struct (InterfaceToMap i).
Definition StructToStructPbIgnoreOmitEmpty (i : goval) : result Struct := new_struct (interfaceToMapHelper i true).
End StructPb.

(** ** Properties *)

(** Induction over a value and what it contains. *)
Section GovalInd.
Variable P : goval -> Prop.
Hypothesis (HNil : P GNil) (HErrno : forall z, P (GErrno z)) (HBool : forall b, P (GBool b)) (HString : forall s, P (GString s))
  (HInt : forall z, P (GInt z)) (HUint : forall z, P (GUint z)) (HFloat : forall b, P (GFloat b)) (HOther : P GOther)
  (HStruct : forall fs, Forall (fun f => P f.2) fs -> P (GStruct fs)) (HMap : forall es, Forall (fun e => P e.2) es -> P (GMap es))
  (HSlice : forall l, Forall P l -> P (GSlice l)) (HArray : forall l, Forall P l -> P (GArray l))
  (HPtr : forall k p, (forall v, p = Some v -> P v) -> P (GPtr k p)).
Fixpoint goval_tree_ind (v : goval) : P v :=
  match v with
  | GNil => HNil | GErrno z => HErrno z | GBool b => HBool b | GString s => HString s | GInt z => HInt z | GUint z => HUint z
  | GFloat b => HFloat b | GOther => HOther
  | GStruct fs => HStruct fs ((fix go fs := match fs return Forall (fun f => P f.2) fs with
                                            | [] => Forall_nil_2 _
                                            | f :: fs' => Forall_cons_2 _ f fs' (goval_tree_ind f.2) (go fs') end) fs)
  | GMap es => HMap es ((fix go es := match es return Forall (fun e => P e.2) es with
                                      | [] => Forall_nil_2 _
                                      | e :: es' => Forall_cons_2 _ e es' (goval_tree_ind e.2) (go es') end) es)
  | GSlice l => HSlice l ((fix go l := match l return Forall P l with
                                       | [] => Forall_nil_2 _
                                       | x :: l' => Forall_cons_2 _ x l' (goval_tree_ind x) (go l') end) l)
  | GArray l => HArray l ((fix go l := match l return Forall P l with
                                       | [] => Forall_nil_2 _
                                       | x :: l' => Forall_cons_2 _ x l' (goval_tree_ind x) (go l') end) l)
  | GPtr k p => HPtr k p (match p return forall v, p = Some v -> P v with
                          | Some x => fun v E => match E in _ = o return match o with Some w => P w | None => True end with
                                                 | eq_refl => goval_tree_ind x end
                          | None => fun v E => match E with end
                          end)
  end.
End GovalInd.

(** What structpb.NewValue takes: nil, booleans, numbers, strings, and lists
    and maps with string keys of those. *)
Fixpoint acceptable (i : iface) : bool :=
  match i with
  | INil | IString _ | IInt _ | IUint _ => true
  | IMap m => forallb (fun e => acceptable e.2) m
  | IList l => forallb acceptable l
  | IRaw (GBool _) | IRaw (GFloat _) => true
  | IRaw _ => false
  end.

(** Values that are turned into something acceptable: everywhere in them keys
    of maps are strings or have a String method, a pointer leads to a struct
    (which may be nil), a string or a number, and nothing is an array or a
    function. Fields that are skipped do not matter. *)
Fixpoint representable (ignoreOmitEmpty : bool) (v : goval) : bool :=
  match v with
  | GNil | GErrno _ | GBool _ | GString _ | GInt _ | GUint _ | GFloat _ => true
  | GStruct fs => forallb (fun f => field_skipped ignoreOmitEmpty f.1 f.2 || representable ignoreOmitEmpty f.2) fs
  | GMap es => forallb (fun e => match e.1 with KeyOther => false | _ => true end && representable ignoreOmitEmpty e.2) es
  | GSlice l => forallb (representable ignoreOmitEmpty) l
  | GPtr GkStruct None => true
  | GPtr GkStruct (Some (GStruct fs)) => forallb (fun f => field_skipped ignoreOmitEmpty f.1 f.2 || representable ignoreOmitEmpty f.2) fs
  | GPtr GkString (Some (GString _)) | GPtr GkInt (Some (GInt _)) | GPtr GkUint (Some (GUint _)) => true
  | _ => false
  end.

Lemma map_put_acceptable k d m :
  acceptable d = true -> forallb (fun e => acceptable e.2) m = true -> forallb (fun e => acceptable e.2) (map_put k d m) = true.
Proof.
  intros Hd. induction m as [|[k' d'] m IH]; cbn [map_put forallb snd]; [by rewrite Hd|].
  intros [H1 H2]%andb_true_iff. case_bool_decide; cbn [forallb snd]; [by rewrite Hd, H2|by rewrite H1, (IH H2)].
Qed.

Definition is_acceptable (r : result iface) : Prop := exists i, r = Ret i /\ acceptable i = true.

Lemma struct_loop_acceptable g fs : forall res,
  Forall (fun f => representable g f.2 = true -> is_acceptable (toInterface g f.2)) fs ->
  forallb (fun f => field_skipped g f.1 f.2 || representable g f.2) fs = true ->
  forallb (fun e => acceptable e.2) res = true ->
  exists m, struct_loop (toInterface g) g fs res = Ret m /\ forallb (fun e => acceptable e.2) m = true.
Proof.
  induction fs as [|[f v] fs IH]; intros res Hf Hr Hres; [by exists res|].
  apply Forall_cons in Hf as [Hv Hf]. cbn [forallb fst snd] in Hr. apply andb_true_iff in Hr as [Hr1 Hr2].
  cbn [struct_loop]. destruct (field_skipped g f v); [by apply IH|]. cbn [orb] in Hr1.
  destruct (Hv Hr1) as (d & Hd & Ha). cbn [snd] in Hd. rewrite Hd. apply IH; [done..|]. by apply map_put_acceptable.
Qed.

Lemma map_loop_acceptable g es : forall res,
  Forall (fun e => representable g e.2 = true -> is_acceptable (toInterface g e.2)) es ->
  forallb (fun e => match e.1 with KeyOther => false | _ => true end && representable g e.2) es = true ->
  forallb (fun e => acceptable e.2) res = true ->
  exists m, map_loop (toInterface g) es res = Ret m /\ forallb (fun e => acceptable e.2) m = true.
Proof.
  induction es as [|[k v] es IH]; intros res Hf Hr Hres; [by exists res|].
  apply Forall_cons in Hf as [Hv Hf]. cbn [forallb fst snd] in Hr. apply andb_true_iff in Hr as [[Hk Hr1]%andb_true_iff Hr2].
  destruct (Hv Hr1) as (d & Hd & Ha). cbn [snd] in Hd.
  destruct k; [| |done]; cbn [map_loop]; rewrite Hd; (apply IH; [done..|]; by apply map_put_acceptable).
Qed.

Lemma slice_loop_acceptable g l : forall res,
  Forall (fun v => representable g v = true -> is_acceptable (toInterface g v)) l ->
  forallb (representable g) l = true -> forallb acceptable res = true ->
  exists r, slice_loop (toInterface g) l res = Ret r /\ forallb acceptable r = true.
Proof.
  induction l as [|v l IH]; intros res Hf Hr Hres; [by exists res|].
  apply Forall_cons in Hf as [Hv Hf]. cbn [forallb] in Hr. apply andb_true_iff in Hr as [Hr1 Hr2].
  destruct (Hv Hr1) as (d & Hd & Ha). cbn [slice_loop]. rewrite Hd. apply IH; [done..|].
  rewrite forallb_app, Hres. cbn. by rewrite Ha.
Qed.

Lemma ret_acceptable i : acceptable i = true -> is_acceptable (Ret i).
Proof. intros Hi. by exists i. Qed.

Lemma toInterface_acceptable g v : representable g v = true -> is_acceptable (toInterface g v).
Proof.
  induction v as [| | | | | | | |fs IH|es IH|l IH|l IH|k p IH] using goval_tree_ind; intros Hr;
    try (by apply ret_acceptable); try discriminate Hr.
  - destruct (struct_loop_acceptable g fs [] IH Hr eq_refl) as (m & Hm & Ha). exists (IMap m). cbn [toInterface]. by rewrite Hm.
  - destruct (map_loop_acceptable g es [] IH Hr eq_refl) as (m & Hm & Ha). exists (IMap m). cbn [toInterface]. by rewrite Hm.
  - destruct (slice_loop_acceptable g l [] IH Hr eq_refl) as (m & Hm & Ha). exists (IList m). cbn [toInterface]. by rewrite Hm.
  - destruct k; try discriminate Hr; destruct p as [v|]; try discriminate Hr; try (by apply ret_acceptable);
      destruct v; try discriminate Hr; try (by apply ret_acceptable).
    exact (IH _ eq_refl Hr).
Qed.

(** The keys of a map. *)
Definition keys (m : list (string * iface)) : list string := fst <$> m.

Lemma map_put_in k d m x : x ∈ keys (map_put k d m) <-> x = k \/ x ∈ keys m.
Proof.
  induction m as [|[k' d'] m IH]; cbn [map_put keys fmap list_fmap fst]; [by rewrite elem_of_cons|].
  case_bool_decide as E; cbn [keys fmap list_fmap fst]; rewrite !elem_of_cons; [subst k'; tauto|].
  fold (keys (map_put k d m)) (keys m). rewrite IH. tauto.
Qed.

Lemma map_put_keys k d m : NoDup (keys m) -> NoDup (keys (map_put k d m)).
Proof.
  induction m as [|[k' d'] m IH]; intros Hd; cbn [map_put]; [by apply NoDup_singleton|].
  apply NoDup_cons in Hd as [Hn Hd]. case_bool_decide as E; [subst k'; by constructor|].
  constructor; [|by apply IH]. fold (keys (map_put k d m)). rewrite map_put_in. intros [?|?]; done.
Qed.

Lemma struct_loop_keys rec g fs : forall res m,
  struct_loop rec g fs res = Ret m -> NoDup (keys res) ->
  NoDup (keys m) /\ forall k, k ∈ keys m <-> k ∈ keys res \/ exists f v, (f, v) ∈ fs /\ field_skipped g f v = false /\ field_key f = k.
Proof.
  induction fs as [|[f v] fs IH]; intros res m; cbn [struct_loop].
  { intros [= <-] Hd. split; [done|]. intros k. split; [auto|]. intros [?|(f & v & Hin & _)]; [done|by apply elem_of_nil in Hin]. }
  destruct (field_skipped g f v) eqn:Hs.
  - intros Hm Hd. destruct (IH _ _ Hm Hd) as [H1 H2]. split; [done|]. intros k. rewrite H2. split.
    + intros [?|(f' & v' & Hin & ?)]; [auto|]. right. exists f', v'. split; [by right|done].
    + intros [?|(f' & v' & [E|Hin]%elem_of_cons & Hs' & ?)]; [auto| |right; by exists f', v'].
      injection E as -> ->. congruence.
  - destruct (rec v) as [d| |]; [|done..]. intros Hm Hd. pose proof (map_put_keys (field_key f) d res Hd) as Hd'.
    destruct (IH _ _ Hm Hd') as [H1 H2]. split; [done|]. intros k. rewrite H2, map_put_in. split.
    + intros [[->|?]|(f' & v' & Hin & ?)]; [|auto|]; right; [exists f, v; split; [by left|done]|exists f', v'; split; [by right|done]].
    + intros [?|(f' & v' & [E|Hin]%elem_of_cons & Hs' & Hk')]; [auto| |right; by exists f', v'].
      injection E as -> ->. left. left. done.
Qed.

(** A representable struct (or a pointer to one) becomes a map that
    structpb.NewStruct takes: each key once, and they are exactly the keys of
    the exported fields that are not excluded by their tag and not omitted for
    being empty. With omitempty ignored no key is lost. *)
Theorem struct_to_map_spec fields ignoreOmitEmpty :
  representable ignoreOmitEmpty (GStruct fields) = true ->
  exists m, interfaceToMapHelper (GStruct fields) ignoreOmitEmpty = Ret m /\
    interfaceToMapHelper (GPtr GkStruct (Some (GStruct fields))) ignoreOmitEmpty = Ret m /\
    acceptable (IMap m) = true /\ NoDup (keys m) /\
    (forall k, k ∈ keys m <-> exists f v, (f, v) ∈ fields /\ fl_json f <> "-"%string /\ fl_exported f = true /\
       (ignoreOmitEmpty = false -> str_contains (fl_json f) "omitempty" = true -> isEmptyValue v = false) /\ field_key f = k) /\
    (forall m', interfaceToMapHelper (GStruct fields) true = Ret m' -> keys m ⊆ keys m').
Proof.
  intros Hr. destruct (struct_loop_acceptable ignoreOmitEmpty fields []) as (m & Hm & Ha); [|done|done|].
  { apply Forall_true. intros f. apply toInterface_acceptable. }
  destruct (struct_loop_keys _ _ _ _ _ Hm (NoDup_nil_2)) as [Hd Hk].
  exists m. split_and!; [exact Hm|exact Hm|exact Ha|exact Hd| |].
  - intros k. rewrite Hk. unfold field_skipped. split.
    + intros [Hin|(f & v & Hin & Hs & Hkey)]; [by apply elem_of_nil in Hin|]. exists f, v.
      apply orb_false_iff in Hs as [[Hs1 Hs2]%orb_false_iff Hs3]. breflect. split_and!; try done.
      intros -> Hc. cbn [negb andb] in Hs3. by rewrite Hc in Hs3.
    + intros (f & v & Hin & H1 & H2 & H3 & H4). right. exists f, v. split_and!; try done.
      rewrite bool_decide_eq_false_2, H2 by done. cbn [orb negb]. destruct ignoreOmitEmpty; [done|]. cbn [negb andb].
      destruct (str_contains (fl_json f) "omitempty"); [|done]. cbn [andb]. by apply H3.
  - intros m' Hm'. cbn in Hm'. destruct (struct_loop_keys _ _ _ _ _ Hm' (NoDup_nil_2)) as [_ Hk'].
    intros k Hin. apply Hk in Hin as [Hin|(f & v & Hin & Hs & Hkey)]; [by apply elem_of_nil in Hin|].
    apply Hk'. right. exists f, v. split_and!; try done. unfold field_skipped in *. cbn [negb andb].
    apply orb_false_iff in Hs as [-> _]. done.
Qed.

(** Pointers that are not handled: a nil pointer to a string becomes a text, to
    a number it panics, and a pointer to a map or slice is refused. A nil
    interface is kept in spite of omitempty. *)
Theorem pointers_not_handled g :
  toInterface g (GPtr GkString None) = Ret (IString "<invalid Value>") /\
  toInterface g (GPtr GkInt None) = Panicking /\ toInterface g (GPtr GkUint None) = Panicking /\
  (forall p, toInterface g (GPtr GkMap p) = Err ENotAMap) /\ (forall p, toInterface g (GPtr GkSlice p) = Err ENotASlice) /\
  interfaceToMapHelper (GStruct [(mkFieldInfo "A" "a,omitempty" true, GNil)]) false = Ret [("a"%string, INil)].
Proof. split_and!; try done. Qed.

Definition sample_struct : list (fieldInfo * goval) :=
  [(mkFieldInfo "Name" "name" true, GString "x"); (mkFieldInfo "Count" "" true, GInt 3); (mkFieldInfo "secret" "" false, GOther);
   (mkFieldInfo "Skip" "-" true, GOther); (mkFieldInfo "Empty" "empty,omitempty" true, GSlice []);
   (mkFieldInfo "Inner" "inner" true, GPtr GkStruct (Some (GStruct [(mkFieldInfo "Tags" "tags" true, GSlice [GBool true; GErrno 2])])))].

Lemma struct_to_map_spec_witness :
  exists m, interfaceToMapHelper (GStruct sample_struct) false = Ret m /\ acceptable (IMap m) = true /\
    m = [("name"%string, IString "x"); ("Count"%string, IInt 3); ("inner"%string, IMap [("tags"%string, IList [IRaw (GBool true); IInt 2])])].
Proof.
  destruct (struct_to_map_spec sample_struct false) as (m & H1 & _ & H3 & _); [vm_compute; reflexivity|].
  exists m. split_and!; [exact H1|exact H3|]. vm_compute in H1. by injection H1.
Defined.
