(* ===== verification/Statz.v ===== *)
(** * Metrics: [perf/statz]

    Counters, summations, gauges and distributions over OpenCensus. A metric is
    registered once, under a name and with labels that are checked; what is
    recorded goes to the measurements of its labels. OpenCensus is behind the
    interface [OpenCensus]: what it makes of measurements is documented. *)

From S2P Require Import Prelude GoError GoStrings GoRun.
From Stdlib Require Import Ascii.
Open Scope Z_scope.

(** ** Labels: [lables.go] *)

Record Label := mkLabel { lb_Name : string; lb_Description : string }.
Record MetricConfig := mkMetricConfig { mt_Description : string; mt_Unit : string; mt_Labels : list Label }.

(** A value of a label; the constraint also admits types that are declared
    over these. *)
Inductive labelValue := LString (s : string) | LInt (z : Z) | LUint (z : Z) | LBool (b : bool) | LNamed (v : labelValue).
#[export] Instance labelValue_eq_dec : EqDecision labelValue.
Proof. solve_decision. Defined.

Definition boolValueTrue : string := "true".
Definition boolValueFalse : string := "false".

(** [labelToString]; [None]: Fatalf ends the process. *)
Definition labelToString (v : labelValue) : option string :=
  match v with
  | LString p => Some p
  | LInt p => Some (FormatInt p)
  | LUint p => Some (FormatUint p)
  | LBool p => Some (if p then boolValueTrue else boolValueFalse)
  | LNamed _ => None
  end.
Definition labelsToStringSlice (vList : list labelValue) : option (list string) := mapM labelToString vList.

(** ** Names: [statz.go] *)

Definition maxNameLength : nat := 150.
Definition maxLabelNameLength : nat := 100.
Definition letter (c : ascii) : bool := between "a" "z" c || between "A" "Z" c.
Definition name_char (c : ascii) : bool := letter c || between "0" "9" c || (c =? "/")%char || (c =? ".")%char || (c =? "_")%char.

Fixpoint has_char (p : ascii -> bool) (s : string) : bool :=
  match s with EmptyString => false | String c s' => p c || has_char p s' end.

(** MatchString finds the expressions [[a-zA-Z0-9/\._]+] and
    [[a-zA-Z][a-zA-Z0-9_]*] anywhere in a text: one character is enough. *)
Definition matches_name (name : string) : bool := has_char name_char name.
Definition matches_label (name : string) : bool := has_char letter name.

Definition validateMetricName (name : string) : option goerror :=
  if (maxNameLength <? String.length name)%nat then Some (ENew ("metric names must be less than " +:+ "150" +:+ " characters"))
  else if negb (matches_name name) then Some (ENew ("metric name '" +:+ name +:+ "' must be valud regex '[a-zA-Z0-9/\._]+'"))
  else None.
Definition validateMetricLabel (l : Label) : option goerror :=
  if (maxLabelNameLength <? String.length (lb_Name l))%nat then Some (ENew ("label names must be less than " +:+ "150" +:+ " characters"))
  else if negb (matches_label (lb_Name l)) then Some (ENew ("label name '" +:+ lb_Name l +:+ "' must be valud regex '[a-zA-Z][a-zA-Z0-9_]*'"))
  else None.

(** [internal.RegisterMetric]: the names that are taken; it panics for one that
    is. *)
Definition RegisterMetric (name : string) (metrics : gset string) : option (gset string) :=
  if bool_decide (name ∈ metrics) then None else Some ({[ name ]} ∪ metrics).

(** ** OpenCensus *)

Inductive aggregation (F : Type) := AggCount | AggSum | AggLastValue | AggDistribution (bounds : list F).
Arguments AggCount {F}.
Arguments AggSum {F}.
Arguments AggLastValue {F}.
Arguments AggDistribution {F} bounds.
Inductive measurement (F : Type) := MInt (z : Z) | MFloat (f : F).
Arguments MInt {F} z.
Arguments MFloat {F} f.

(** A key of a tag is its name. *)
Record ocView (F : Type) := mkView { vw_Name : string; vw_Description : string; vw_Unit : string; vw_Aggregation : aggregation F; vw_TagKeys : list string }.
Arguments mkView {F}.
Arguments vw_Name {F}.
Arguments vw_Description {F}.
Arguments vw_Unit {F}.
Arguments vw_Aggregation {F}.
Arguments vw_TagKeys {F}.

(** What is used of OpenCensus, over its state: making the key of a tag,
    registering a view, recording a measurement of a measure with tags; and what
    was recorded of a measure with given tags. *)
Class OpenCensus (F OC : Type) := {
  tag_NewKey : string -> option goerror;
  view_Register : ocView F -> OC -> OC + goerror;
  RecordWithTags : list (string * string) -> string -> measurement F -> OC -> OC * option goerror;
  measurements : OC -> string -> gmap string string -> list (measurement F);
}.

(** The tags that a list of mutators leaves: Upsert inserts or replaces. *)
Definition upserts (mutations : list (string * string)) : gmap string string :=
  foldl (fun m kv => <[kv.1 := kv.2]> m) ∅ mutations.

(** Documented behaviour: a measurement that is recorded without error is added
    to those of its measure and tags, and one that is refused changes nothing. *)
Class OpenCensusLaws (F OC : Type) `{OpenCensus F OC} := {
  record_ok mutations measure v oc oc' : RecordWithTags mutations measure v oc = (oc', None) ->
    forall measure' tags, measurements oc' measure' tags =
      measurements oc measure' tags ++ (if bool_decide (measure' = measure /\ tags = upserts mutations) then [v] else []);
  record_error mutations measure v oc oc' err : RecordWithTags mutations measure v oc = (oc', Some err) ->
    forall measure' tags, measurements oc' measure' tags = measurements oc measure' tags;
}.

(** ** Metrics *)

Section Metrics.
Context {F OC : Type} `{OpenCensus F OC}.

(** How a call ends: the process may also end, in Fatalf. *)
Inductive statzEnd (A : Type) := Done (a : A) | Panics (msg : goerror) | Fatal (err : goerror).
Arguments Done {A} a.
Arguments Panics {A} msg.
Arguments Fatal {A} err.

(** [opencensusStatsData], with the name of its measure. *)
Record opencensusStatsData := mkStatsData { sd_View : ocView F; sd_labelKeys : list string }.

(** [tagKeysFromConfig]. *)
Fixpoint tagKeys (labels : list Label) : list string + goerror :=
  match labels with
  | [] => inl []
  | l :: labels' =>
      match tag_NewKey (lb_Name l) with
      | Some err => inr err
      | None => match tagKeys labels' with inl ks => inl (lb_Name l :: ks) | inr err => inr err end
      end
  end.
Definition tagKeysFromConfig (cfg : MetricConfig) : list string + goerror := tagKeys (mt_Labels cfg).

Fixpoint invalid_label (labels : list Label) : option goerror :=
  match labels with
  | [] => None
  | l :: labels' => match validateMetricLabel l with Some err => Some err | None => invalid_label labels' end
  end.

(** [createAndRegisterOpenCensusMetric]; the name stays taken when it panics. *)
Definition createAndRegisterOpenCensusMetric (name : string) (agg : aggregation F) (cfg : MetricConfig) (st : gset string * OC)
    : (gset string * OC) * statzEnd opencensusStatsData :=
  let '(metrics, oc) := st in
  match RegisterMetric name metrics with
  | None => (st, Panics (ENew ("Metric " +:+ name +:+ " was already defined and is trying to register again.")))
  | Some metrics' =>
      match validateMetricName name with
      | Some err => ((metrics', oc), Panics err)
      | None =>
          match invalid_label (mt_Labels cfg) with
          | Some err => ((metrics', oc), Panics err)
          | None =>
              match tagKeysFromConfig cfg with
              | inr err => ((metrics', oc), Fatal err)
              | inl keys =>
                  let v := mkView name (mt_Description cfg) (mt_Unit cfg) agg keys in
                  match view_Register v oc with
                  | inr err => ((metrics', oc), Fatal err)
                  | inl oc' => ((metrics', oc'), Done (mkStatsData v keys))
                  end
              end
          end
      end
  end.

Definition createCounterWrapper (name : string) (cfg : MetricConfig) := createAndRegisterOpenCensusMetric name AggCount cfg.
Definition createSummationWrapper (name : string) (cfg : MetricConfig) := createAndRegisterOpenCensusMetric name AggSum cfg.
Definition createGaugeWrapper (name : string) (cfg : MetricConfig) := createAndRegisterOpenCensusMetric name AggLastValue cfg.
Definition createocDistributionWrapper (name : string) (buckets : list F) (cfg : MetricConfig) :=
  createAndRegisterOpenCensusMetric name (AggDistribution buckets) cfg.

(** [labelsToMutations]; [None]: it panics. *)
Definition labelsToMutations (sd : opencensusStatsData) (labels : list string) : option (list (string * string)) :=
  if bool_decide (length labels = length (sd_labelKeys sd)) then Some (zip (sd_labelKeys sd) labels) else None.

(** Recording once; an error is only logged. *)
Definition record_one (sd : opencensusStatsData) (mutations : list (string * string)) (v : measurement F) (oc : OC) : OC :=
  fst (RecordWithTags mutations (vw_Name (sd_View sd)) v oc).

(** The methods of the wrappers, with the texts of the labels. *)
Definition with_labels (sd : opencensusStatsData) (vList : list labelValue) (f : list (string * string) -> OC -> OC) (oc : OC) : statzEnd OC :=
  match labelsToStringSlice vList with
  | None => Fatal (ENew "Invalid type to string, should never happen with the type contraints defined.")
  | Some labels =>
      match labelsToMutations sd labels with
      | None => Panics (ENew "Should never happen where the label lengths do not match")
      | Some mutations => Done (f mutations oc)
      end
  end.
Definition counter_incBy (sd : opencensusStatsData) (vList : list labelValue) (by_ : Z) : OC -> statzEnd OC :=
  with_labels sd vList (fun mutations => Nat.iter (Z.to_nat by_) (record_one sd mutations (MInt 1))).
Definition summation_incBy (sd : opencensusStatsData) (vList : list labelValue) (by_ : Z) : OC -> statzEnd OC :=
  with_labels sd vList (fun mutations => record_one sd mutations (MInt by_)).
Definition gauge_set (sd : opencensusStatsData) (vList : list labelValue) (to : Z) : OC -> statzEnd OC :=
  with_labels sd vList (fun mutations => record_one sd mutations (MInt to)).
Definition distribution_observe (sd : opencensusStatsData) (vList : list labelValue) (value : F) : OC -> statzEnd OC :=
  with_labels sd vList (fun mutations => record_one sd mutations (MFloat value)).

(** The metrics by their number of labels. *)
Definition NewCounter0 := createCounterWrapper.
Definition NewCounter1 := createCounterWrapper.
Definition NewCounter2 := createCounterWrapper.
Definition NewCounter3 := createCounterWrapper.
Definition NewCounter4 := createCounterWrapper.
Definition NewCounter5 := createCounterWrapper.
Definition Counter0_IncBy sd by_ := counter_incBy sd [] by_.
Definition Counter1_IncBy sd v1 by_ := counter_incBy sd [v1] by_.
Definition Counter2_IncBy sd v1 v2 by_ := counter_incBy sd [v1; v2] by_.
Definition Counter3_IncBy sd v1 v2 v3 by_ := counter_incBy sd [v1; v2; v3] by_.
Definition Counter4_IncBy sd v1 v2 v3 v4 by_ := counter_incBy sd [v1; v2; v3; v4] by_.
Definition Counter5_IncBy sd v1 v2 v3 v4 v5 by_ := counter_incBy sd [v1; v2; v3; v4; v5] by_.
Definition Counter0_Inc sd := Counter0_IncBy sd 1.
Definition Counter1_Inc sd v1 := Counter1_IncBy sd v1 1.
Definition Counter2_Inc sd v1 v2 := Counter2_IncBy sd v1 v2 1.
Definition Counter3_Inc sd v1 v2 v3 := Counter3_IncBy sd v1 v2 v3 1.
Definition Counter4_Inc sd v1 v2 v3 v4 := Counter4_IncBy sd v1 v2 v3 v4 1.
Definition Counter5_Inc sd v1 v2 v3 v4 v5 := Counter5_IncBy sd v1 v2 v3 v4 v5 1.
Definition NewSummation0 := createSummationWrapper.
Definition NewSummation1 := createSummationWrapper.
Definition NewSummation2 := createSummationWrapper.
Definition NewSummation3 := createSummationWrapper.
Definition NewSummation4 := createSummationWrapper.
Definition Summation0_IncBy sd by_ := summation_incBy sd [] by_.
Definition Summation1_IncBy sd v1 by_ := summation_incBy sd [v1] by_.
Definition Summation2_IncBy sd v1 v2 by_ := summation_incBy sd [v1; v2] by_.
Definition Summation3_IncBy sd v1 v2 v3 by_ := summation_incBy sd [v1; v2; v3] by_.
Definition Summation4_IncBy sd v1 v2 v3 v4 by_ := summation_incBy sd [v1; v2; v3; v4] by_.
Definition Summation0_Inc sd := Summation0_IncBy sd 1.
Definition Summation1_Inc sd v1 := Summation1_IncBy sd v1 1.
Definition Summation2_Inc sd v1 v2 := Summation2_IncBy sd v1 v2 1.
Definition Summation3_Inc sd v1 v2 v3 := Summation3_IncBy sd v1 v2 v3 1.
Definition Summation4_Inc sd v1 v2 v3 v4 := Summation4_IncBy sd v1 v2 v3 v4 1.
Definition NewGauge0 := createGaugeWrapper.
Definition NewGauge1 := createGaugeWrapper.
Definition NewGauge2 := createGaugeWrapper.
Definition NewGauge3 := createGaugeWrapper.
Definition NewGauge4 := createGaugeWrapper.
Definition Gauge0_Set sd to := gauge_set sd [] to.
Definition Gauge1_Set sd v1 to := gauge_set sd [v1] to.
Definition Gauge2_Set sd v1 v2 to := gauge_set sd [v1; v2] to.
Definition Gauge3_Set sd v1 v2 v3 to := gauge_set sd [v1; v2; v3] to.
Definition Gauge4_Set sd v1 v2 v3 v4 to := gauge_set sd [v1; v2; v3; v4] to.
Definition NewDistribution0 (name : string) (cfg : MetricConfig) (distribution : list F) := createocDistributionWrapper name distribution cfg.
Definition NewDistribution1 (name : string) (cfg : MetricConfig) (distribution : list F) := createocDistributionWrapper name distribution cfg.
Definition NewDistribution2 (name : string) (cfg : MetricConfig) (distribution : list F) := createocDistributionWrapper name distribution cfg.
Definition NewDistribution3 (name : string) (cfg : MetricConfig) (distribution : list F) := createocDistributionWrapper name distribution cfg.
Definition NewDistribution4 (name : string) (cfg : MetricConfig) (distribution : list F) := createocDistributionWrapper name distribution cfg.
Definition Distribution0_Observe sd v := distribution_observe sd [] v.
Definition Distribution1_Observe sd v l1 := distribution_observe sd [l1] v.
Definition Distribution2_Observe sd v l1 l2 := distribution_observe sd [l1; l2] v.
Definition Distribution3_Observe sd v l1 l2 l3 := distribution_observe sd [l1; l2; l3] v.
Definition Distribution4_Observe sd v l1 l2 l3 l4 := distribution_observe sd [l1; l2; l3; l4] v.

(** What a view shows for tags: the number, the sum or the last one of the
    measurements. *)
Definition int_of (v : measurement F) : Z := match v with MInt z => z | MFloat _ => 0 end.
Definition view_value (v : ocView F) (oc : OC) (tags : gmap string string) : option Z :=
  let ms := measurements oc (vw_Name v) tags in
  match vw_Aggregation v with
  | AggCount => Some (Z.of_nat (length ms))
  | AggSum => Some (foldr Z.add 0 (int_of <$> ms))
  | AggLastValue => int_of <$> last ms
  | AggDistribution _ => None
  end.
End Metrics.
Arguments Done {A} a.
Arguments Panics {A} msg.
Arguments Fatal {A} err.

(** ** Properties *)

(** Label values by their type, within the range of the type. *)
Inductive labelType := TString | TInt | TUint | TBool.
Definition has_type (t : labelType) (v : labelValue) : Prop :=
  match t, v with
  | TString, LString _ | TBool, LBool _ => True
  | TInt, LInt z => - 2 ^ 63 <= z < 2 ^ 63
  | TUint, LUint z => 0 <= z < 2 ^ 64
  | _, _ => False
  end.

Lemma labelToString_typed t v : has_type t v -> is_Some (labelToString v).
Proof. by destruct t, v; cbn; eauto. Qed.

Lemma labelToString_inj t v v' : has_type t v -> has_type t v' -> labelToString v = labelToString v' -> v = v'.
Proof.
  destruct t, v, v'; cbn [has_type labelToString]; try done.
  - by intros _ _ [= ->].
  - intros Hz Hz' [= E]. pose proof (ParseInt_FormatInt 64 z ltac:(lia) Hz) as H1. pose proof (ParseInt_FormatInt 64 z0 ltac:(lia) Hz') as H2. congruence.
  - intros Hz Hz' [= E]. pose proof (ParseUint_FormatUint 64 z Hz ltac:(lia)) as H1. pose proof (ParseUint_FormatUint 64 z0 Hz' ltac:(lia)) as H2. congruence.
  - intros _ _. by destruct b, b0.
Qed.

Lemma labelsToStringSlice_typed ts vs : Forall2 has_type ts vs ->
  exists texts, labelsToStringSlice vs = Some texts /\ length texts = length ts.
Proof.
  unfold labelsToStringSlice. induction 1 as [|t v ts vs Ht _ (texts & IH & Hl)]; [by exists []|].
  destruct (labelToString_typed _ _ Ht) as [s Hs]. exists (s :: texts). cbn. rewrite Hs, IH. cbn. by rewrite Hl.
Qed.

Lemma labelsToStringSlice_inj ts vs : Forall2 has_type ts vs -> forall vs', Forall2 has_type ts vs' ->
  labelsToStringSlice vs = labelsToStringSlice vs' -> vs = vs'.
Proof.
  unfold labelsToStringSlice. induction 1 as [|t v ts vs Ht Hts IH]; intros vs' Hvs'; [by apply Forall2_nil_inv_l in Hvs' as ->|].
  apply Forall2_cons_inv_l in Hvs' as (v' & vs'' & Ht' & Hts' & ->). cbn.
  destruct (labelToString_typed _ _ Ht) as [s Hs], (labelToString_typed _ _ Ht') as [s' Hs']. rewrite Hs, Hs'. cbn.
  destruct (labelsToStringSlice_typed _ _ Hts) as (x & Hx & _), (labelsToStringSlice_typed _ _ Hts') as (x' & Hx' & _).
  unfold labelsToStringSlice in Hx, Hx'. rewrite Hx, Hx'. cbn. intros [= <- <-]. f_equal.
  - apply (labelToString_inj t); [done..|]. by rewrite Hs, Hs'.
  - apply IH; [done|]. by rewrite Hx, Hx'.
Qed.

(** Each key has its text. *)
Lemma upserts_lookup keys : forall texts (m : gmap string string), NoDup keys -> length texts = length keys ->
  let m' := foldl (fun m kv => <[kv.1 := kv.2]> m) m (zip keys texts) in
  (forall i k, keys !! i = Some k -> m' !! k = texts !! i) /\ (forall k, k ∉ keys -> m' !! k = m !! k).
Proof.
  induction keys as [|k0 keys IH]; intros texts m Hd Hl m'; [by split|].
  destruct texts as [|t texts]; [done|]. apply NoDup_cons in Hd as [Hn Hd]. injection Hl as Hl.
  destruct (IH texts (<[k0 := t]> m) Hd Hl) as [H1 H2]. split.
  - intros [|i] k; cbn; [|by apply H1]. intros [= <-]. unfold m'. cbn. rewrite H2 by done. by rewrite lookup_insert_eq.
  - intros k Hk. unfold m'. cbn. apply not_elem_of_cons in Hk as [Hne Hk]. rewrite H2 by done. by rewrite lookup_insert_ne.
Qed.

Lemma upserts_inj keys texts texts' : NoDup keys -> length texts = length keys -> length texts' = length keys ->
  upserts (zip keys texts) = upserts (zip keys texts') -> texts = texts'.
Proof.
  intros Hd Hl Hl' E. apply list_eq. intros i. destruct (keys !! i) as [k|] eqn:Hk.
  - destruct (upserts_lookup keys texts ∅ Hd Hl) as [H1 _], (upserts_lookup keys texts' ∅ Hd Hl') as [H1' _].
    rewrite <-(H1 i k Hk), <-(H1' i k Hk). unfold upserts in E. by rewrite E.
  - apply lookup_ge_None in Hk. rewrite !(proj2 (lookup_ge_None _ _)); [done|lia..].
Qed.

Section Values.
Context {F OC : Type} `{OpenCensusLaws F OC}.

(** The tags of a series of a metric. *)
Definition series (sd : @opencensusStatsData F) (vs : list labelValue) : gmap string string :=
  upserts (zip (sd_labelKeys sd) (default [] (labelsToStringSlice vs))).
(** OpenCensus records with the labels; it refuses texts that are too long or
    not printable. *)
Definition accepted (sd : @opencensusStatsData F) (vs : list labelValue) : Prop :=
  forall (v : measurement F) (oc : OC),
    (RecordWithTags (zip (sd_labelKeys sd) (default [] (labelsToStringSlice vs))) (vw_Name (sd_View sd)) v oc).2 = None.

Lemma record_one_measurements (sd : @opencensusStatsData F) vs v (oc : OC) m tags : accepted sd vs ->
  measurements (record_one sd (zip (sd_labelKeys sd) (default [] (labelsToStringSlice vs))) v oc) m tags =
  measurements oc m tags ++ (if bool_decide (m = vw_Name (sd_View sd) /\ tags = series sd vs) then [v] else []).
Proof.
  intros Ha. unfold record_one. specialize (Ha v oc). destruct (RecordWithTags _ _ v oc) as [oc' e] eqn:E. cbn in Ha |- *. subst e.
  by rewrite (record_ok _ _ _ _ _ E).
Qed.

Lemma iter_measurements (sd : @opencensusStatsData F) vs v n (oc : OC) m tags : accepted sd vs ->
  measurements (Nat.iter n (record_one sd (zip (sd_labelKeys sd) (default [] (labelsToStringSlice vs))) v) oc) m tags =
  measurements oc m tags ++ (if bool_decide (m = vw_Name (sd_View sd) /\ tags = series sd vs) then replicate n v else []).
Proof.
  intros Ha. induction n as [|n IH]; cbn [Nat.iter nat_rect].
  - case_bool_decide; by rewrite app_nil_r.
  - unfold Nat.iter in IH. rewrite record_one_measurements, IH by done. case_bool_decide; [|by rewrite !app_nil_r].
    by rewrite <-app_assoc, <-replicate_S_end.
Qed.

(** A metric's data: the keys are different and as many as the types. *)
Definition typed_metric (sd : @opencensusStatsData F) (ts : list labelType) : Prop :=
  NoDup (sd_labelKeys sd) /\ length (sd_labelKeys sd) = length ts.

Lemma series_inj (sd : @opencensusStatsData F) ts vs vs' : typed_metric sd ts -> Forall2 has_type ts vs -> Forall2 has_type ts vs' ->
  series sd vs = series sd vs' <-> vs = vs'.
Proof.
  intros [Hd Hl] Hv Hv'. split; [|by intros ->]. unfold series.
  destruct (labelsToStringSlice_typed _ _ Hv) as (x & Hx & Hlx), (labelsToStringSlice_typed _ _ Hv') as (x' & Hx' & Hlx').
  rewrite Hx, Hx'. cbn. intros E. apply upserts_inj in E; [|done|congruence..]. apply (labelsToStringSlice_inj ts); [done..|]. congruence.
Qed.

Lemma with_labels_typed (sd : @opencensusStatsData F) ts vs f (oc : OC) : typed_metric sd ts -> Forall2 has_type ts vs ->
  with_labels sd vs f oc = Done (f (zip (sd_labelKeys sd) (default [] (labelsToStringSlice vs))) oc).
Proof.
  intros [Hd Hl] Hv. unfold with_labels. destruct (labelsToStringSlice_typed _ _ Hv) as (x & Hx & Hlx). rewrite Hx. cbn.
  unfold labelsToMutations. by rewrite bool_decide_eq_true_2 by congruence.
Qed.

(** A sequence of calls with their labels. *)
Fixpoint calls (op : list labelValue -> Z -> OC -> statzEnd OC) (l : list (list labelValue * Z)) (oc : OC) : statzEnd OC :=
  match l with
  | [] => Done oc
  | (vs, z) :: l' => match op vs z oc with Done oc' => calls op l' oc' | Panics m => Panics m | Fatal e => Fatal e end
  end.
Definition of_series (vs : list labelValue) (l : list (list labelValue * Z)) : list Z := (filter (fun c => c.1 = vs) l).*2.

Lemma calls_measurements op g (sd : @opencensusStatsData F) ts l : typed_metric sd ts ->
  (forall vs z oc, Forall2 has_type ts vs -> accepted sd vs -> exists oc', op vs z oc = Done oc' /\
     forall m tags, measurements oc' m tags = measurements oc m tags ++ (if bool_decide (m = vw_Name (sd_View sd) /\ tags = series sd vs) then g z else [])) ->
  Forall (fun c => Forall2 has_type ts c.1 /\ accepted sd c.1) l -> forall oc,
  exists oc', calls op l oc = Done oc' /\
    forall vs, Forall2 has_type ts vs ->
      measurements oc' (vw_Name (sd_View sd)) (series sd vs) =
      measurements oc (vw_Name (sd_View sd)) (series sd vs) ++ (of_series vs l ≫= g).
Proof.
  intros Ht Hop. induction 1 as [|[vs0 z] l [Hv0 Ha0] Hl IH]; intros oc; cbn [calls].
  - exists oc. split; [done|]. intros vs _. cbn. by rewrite app_nil_r.
  - destruct (Hop vs0 z oc Hv0 Ha0) as (oc1 & -> & H1). destruct (IH oc1) as (oc2 & -> & H2). exists oc2. split; [done|].
    intros vs Hv. rewrite H2, H1 by done. unfold of_series. cbn [fst] in *.
    destruct (decide (vs0 = vs)) as [->|Hne].
    + rewrite bool_decide_eq_true_2 by done. rewrite filter_cons_True by done. cbn. by rewrite <-app_assoc.
    + rewrite bool_decide_eq_false_2; [|intros [_ E]; apply Hne; symmetry; by apply (series_inj sd ts) in E].
      rewrite filter_cons_False by done. by rewrite app_nil_r.
Qed.

(** The values of metrics. *)
Definition sum_of (l : list Z) : Z := foldr Z.add 0 l.

Lemma sum_app l l' : foldr Z.add 0 (l ++ l') = foldr Z.add 0 l + foldr Z.add 0 l'.
Proof. induction l; cbn; lia. Qed.

(** Whatever the order of the calls and with whatever labels, a counter shows
    for a series how often it was incremented, that is the sum of the positive
    increments with exactly these labels, and a summation shows the sum of all
    of theirs; no other series is touched, and no call panics or ends the
    process. *)
Theorem metrics_count_increments (sd : @opencensusStatsData F) ts l (oc : OC) vs :
  typed_metric sd ts -> Forall (fun c => Forall2 has_type ts c.1 /\ accepted sd c.1) l -> Forall2 has_type ts vs ->
  (vw_Aggregation (sd_View sd) = AggCount -> exists oc', calls (counter_incBy sd) l oc = Done oc' /\
     forall n, view_value (sd_View sd) oc (series sd vs) = Some n ->
       view_value (sd_View sd) oc' (series sd vs) = Some (n + sum_of (Z.max 0 <$> of_series vs l))) /\
  (vw_Aggregation (sd_View sd) = AggSum -> exists oc', calls (summation_incBy sd) l oc = Done oc' /\
     forall n, view_value (sd_View sd) oc (series sd vs) = Some n ->
       view_value (sd_View sd) oc' (series sd vs) = Some (n + sum_of (of_series vs l))) /\
  (vw_Aggregation (sd_View sd) = AggLastValue -> exists oc', calls (gauge_set sd) l oc = Done oc' /\
     view_value (sd_View sd) oc' (series sd vs) =
       match last (of_series vs l) with Some z => Some z | None => view_value (sd_View sd) oc (series sd vs) end).
Proof.
  intros Ht Hl Hv. split_and!; intros Hagg.
  - destruct (calls_measurements (counter_incBy sd) (fun z => replicate (Z.to_nat z) (MInt 1)) sd ts l Ht) with (oc := oc) as (oc' & Hc & Hm); [|done|].
    { intros vs' z oc0 Hv' Ha. unfold counter_incBy. rewrite (with_labels_typed sd ts) by done. eexists. split; [done|].
      intros m tags. by apply iter_measurements. }
    exists oc'. split; [done|]. intros n. unfold view_value. rewrite Hagg, Hm by done. intros [= <-]. f_equal.
    rewrite length_app. enough (Z.of_nat (length (of_series vs l ≫= fun z => replicate (Z.to_nat z) (@MInt F 1))) = sum_of (Z.max 0 <$> of_series vs l)) by lia.
    induction (of_series vs l) as [|z zs IH]; [done|]. cbn [mbind list_bind fmap list_fmap sum_of foldr] in *. unfold sum_of in *. rewrite length_app, length_replicate. lia.
  - destruct (calls_measurements (summation_incBy sd) (fun z => [MInt z]) sd ts l Ht) with (oc := oc) as (oc' & Hc & Hm); [|done|].
    { intros vs' z oc0 Hv' Ha. unfold summation_incBy. rewrite (with_labels_typed sd ts) by done. eexists. split; [done|].
      intros m tags. by apply record_one_measurements. }
    exists oc'. split; [done|]. intros n. unfold view_value. rewrite Hagg, Hm by done. intros [= <-]. f_equal.
    rewrite fmap_app, sum_app. unfold sum_of. do 2 f_equal. induction (of_series vs l) as [|z zs IH]; [done|]. cbn. f_equal. exact IH.
  - destruct (calls_measurements (gauge_set sd) (fun z => [MInt z]) sd ts l Ht) with (oc := oc) as (oc' & Hc & Hm); [|done|].
    { intros vs' z oc0 Hv' Ha. unfold gauge_set. rewrite (with_labels_typed sd ts) by done. eexists. split; [done|].
      intros m tags. by apply record_one_measurements. }
    exists oc'. split; [done|]. unfold view_value. rewrite Hagg, Hm by done. rewrite last_app.
    assert ((of_series vs l ≫= fun z => [@MInt F z]) = MInt <$> of_series vs l) as ->.
    { induction (of_series vs l) as [|z zs IH]; [done|]. cbn. by f_equal. }
    rewrite fmap_last. by destruct (last (of_series vs l)).
Qed.

(** A metric that is registered has a name that was not taken, and its labels
    become its keys in their order; its name can never be registered again,
    however it is tried. *)
Theorem metric_names_are_unique name (agg : aggregation F) cfg metrics (oc : OC) st' (sd : opencensusStatsData) :
  createAndRegisterOpenCensusMetric name agg cfg (metrics, oc) = (st', Done sd) ->
  (name ∉ metrics) /\ sd_labelKeys sd = lb_Name <$> mt_Labels cfg /\ vw_Name (sd_View sd) = name /\ vw_Aggregation (sd_View sd) = agg /\
  validateMetricName name = None /\ Forall (fun l => validateMetricLabel l = None) (mt_Labels cfg) /\
  forall agg' cfg' metrics' (oc' : OC), st'.1 ⊆ metrics' -> exists msg,
    createAndRegisterOpenCensusMetric name agg' cfg' (metrics', oc') = ((metrics', oc'), Panics msg).
Proof.
  assert (Hkeys : forall labels ks, tagKeys (F:=F) (OC:=OC) labels = inl ks -> ks = lb_Name <$> labels).
  { induction labels as [|lb labels IH]; intros ks; cbn [tagKeys]; [by intros [= <-]|]. destruct (tag_NewKey _); [done|].
    destruct (tagKeys labels); [|done]. intros [= <-]. cbn. f_equal. by apply IH. }
  assert (Hlabels : forall labels, invalid_label labels = None -> Forall (fun l => validateMetricLabel l = None) labels).
  { induction labels as [|lb labels IH]; cbn [invalid_label]; [constructor|]. destruct (validateMetricLabel lb) eqn:E; [done|]. constructor; auto. }
  unfold createAndRegisterOpenCensusMetric, RegisterMetric. case_bool_decide as Hn; [done|].
  destruct (validateMetricName name) eqn:Hvn; [done|]. destruct (invalid_label _) eqn:Hil; [done|].
  unfold tagKeysFromConfig. destruct (tagKeys _) as [ks|] eqn:Hk; [|done]. destruct (view_Register _ oc); [|done].
  intros [= <- <-]. cbn [sd_labelKeys sd_View vw_Name vw_Aggregation fst]. split_and!; try done; [by apply Hkeys|by apply Hlabels|].
  intros agg' cfg' metrics' oc' Hsub. rewrite bool_decide_eq_true_2 by set_solver. by eexists.
Qed.
End Values.

(** The expressions are not anchored: one allowed character makes a name valid,
    one letter a label. *)
Theorem names_are_hardly_checked (name : string) (l : Label) :
  (validateMetricName name = None <-> (String.length name <= 150)%nat /\ exists before c after, name = (before +:+ String c after)%string /\ name_char c = true) /\
  (validateMetricLabel l = None <-> (String.length (lb_Name l) <= 100)%nat /\ exists before c after, lb_Name l = (before +:+ String c after)%string /\ letter c = true).
Proof.
  assert (Hhas : forall p s, has_char p s = true <-> exists before c after, s = (before +:+ String c after)%string /\ p c = true).
  { intros p s. induction s as [|c s IH]; cbn [has_char].
    - split; [done|]. intros ([] & c & after & E & _); done.
    - rewrite orb_true_iff, IH. split.
      + intros [Hc|(b & c' & a & -> & Hc)]; [by exists EmptyString, c, s|by exists (String c b), c', a].
      + intros ([|c0 b] & c' & a & [= -> ->] & Hc); [by left|right; by exists b, c', a]. }
  unfold validateMetricName, validateMetricLabel, maxNameLength, maxLabelNameLength, matches_name, matches_label. split.
  - rewrite <-Hhas. destruct (Nat.ltb_spec 150 (String.length name)); [split; [done|lia]|]. destruct (has_char name_char name); cbn; naive_solver.
  - rewrite <-Hhas. destruct (Nat.ltb_spec 100 (String.length (lb_Name l))); [split; [done|lia]|]. destruct (has_char letter (lb_Name l)); cbn; naive_solver.
Qed.

(** A label of a type that is declared over a string, which the constraint
    admits, ends the process. *)
Theorem named_label_is_fatal {F OC : Type} `{OpenCensus F OC} (sd : @opencensusStatsData F) v by_ (oc : OC) :
  exists err, Counter1_IncBy sd (LNamed v) by_ oc = Fatal err.
Proof. by eexists. Qed.

(** ** Witnesses *)

(** An OpenCensus that keeps a log. *)
Module LogCensus.
Definition log : Type := list (string * gmap string string * measurement Z).
#[export] Instance log_census : OpenCensus Z log := {
  tag_NewKey _ := None;
  view_Register _ oc := inl oc;
  RecordWithTags mutations measure v oc := (oc ++ [(measure, upserts mutations, v)], None);
  measurements oc measure tags := (filter (fun e => e.1 = (measure, tags)) oc).*2;
}.
#[export] Instance log_census_laws : OpenCensusLaws Z log.
Proof.
  split; [|done]. intros mutations measure v oc oc' [= <-] measure' tags. unfold measurements, log_census. unfold log in *. rewrite filter_app, fmap_app. f_equal.
  case_bool_decide as E.
  - destruct E as [-> ->]. by rewrite filter_cons_True.
  - rewrite filter_cons_False; [done|]. cbn. intros [= <- <-]. by apply E.
Qed.
End LogCensus.
Import LogCensus.

Definition sample_metric : @opencensusStatsData Z :=
  mkStatsData (mkView "calls" "Calls." "1" AggCount ["host"; "ok"]%string) ["host"; "ok"]%string.
Definition sample_calls : list (list labelValue * Z) :=
  [([LString "a"; LBool true], 2); ([LString "b"; LBool true], 5); ([LString "a"; LBool true], -1); ([LString "a"; LBool false], 1); ([LString "a"; LBool true], 1)].

Lemma metrics_count_increments_witness :
  exists oc', calls (counter_incBy sample_metric) sample_calls ([] : LogCensus.log) = Done oc' /\
    view_value (sd_View sample_metric) oc' (series sample_metric [LString "a"; LBool true]) = Some 3.
Proof.
  destruct (metrics_count_increments sample_metric [TString; TBool] sample_calls ([] : LogCensus.log) [LString "a"; LBool true])
    as (H1 & _ & _).
  - split; [|reflexivity]. cbn. repeat constructor; set_solver.
  - repeat constructor.
  - repeat constructor.
  - destruct (H1 eq_refl) as (oc' & Hc & Hv). exists oc'. split; [exact Hc|]. rewrite (Hv 0 eq_refl). reflexivity.
Defined.

Lemma metric_names_are_unique_witness :
  ("calls"%string ∉ (∅ : gset string)) /\ ["host"; "ok"]%string = lb_Name <$> [mkLabel "host" "h"; mkLabel "ok" "o"].
Proof.
  destruct (metric_names_are_unique "calls" AggCount (mkMetricConfig "Calls." "1" [mkLabel "host" "h"; mkLabel "ok" "o"]) ∅ ([] : LogCensus.log)
              ({[ "calls"%string ]} ∪ ∅, []) sample_metric) as (H1 & H2 & _); [reflexivity|].
  split; [exact H1|exact H2].
Defined.
