(* ===== verification/Perf.v ===== *)
(** * Exporters and monitors: [perf/]

    The monitors of MongoDB commands and connections, the exporter that prints
    spans and metrics in development, and the options of the one for the cloud.
    Spans, views and the environment are arguments; gauges are those of
    [Statz]. *)

From S2P Require Import Prelude GoError GoStrings GoRun Statz.
From Stdlib Require Import Ascii.
Open Scope Z_scope.

(** ** Commands: [mongodb.go] *)

(** [CommandStartedEvent]; the collection is there when the command names one. *)
Record commandStarted := mkStarted { st_ConnectionID : string; st_RequestID : Z; st_DatabaseName : string; st_CommandName : string; st_Collection : option string }.

Definition connectionString (connectionID : string) : string :=
  let hostname := fst (split2 "[" connectionID) in
  match split2 ":" hostname with
  | (host, Some port) => host +:+ ":" +:+ port
  | (host, None) => host +:+ ":" +:+ "27017"
  end.

(** A span: its name, its attributes and whether it was ended. *)
Record span := mkSpan { sp_Name : string; sp_Attributes : list (string * string); sp_ends : nat }.

(** [monitor]: the spans by connection and request; all spans, by number. *)
Record monitor := mkMonitor { mn_spans : gmap (string * Z) nat; mn_all : list span }.
Definition NewMongoDBMonitor : monitor := mkMonitor ∅ [].

Definition span_of (evt : commandStarted) : span :=
  let collStr := default EmptyString (st_Collection evt) in
  mkSpan (if bool_decide (collStr = EmptyString) then st_DatabaseName evt +:+ "::" +:+ st_CommandName evt
          else st_DatabaseName evt +:+ "::" +:+ collStr +:+ "::" +:+ st_CommandName evt)
    ([("db.system", "mongodb"); ("db.name", st_DatabaseName evt); ("db.operation", st_CommandName evt);
      ("db.connection_string", connectionString (st_ConnectionID evt))]%string
     ++ match st_Collection evt with Some c => [("db.mongodb.collection"%string, c)] | None => [] end) 0.

Definition Started (evt : commandStarted) (m : monitor) : monitor :=
  mkMonitor (<[(st_ConnectionID evt, st_RequestID evt) := length (mn_all m)]> (mn_spans m)) (mn_all m ++ [span_of evt]).

Definition end_span (err : option string) (s : span) : span :=
  mkSpan (sp_Name s) (sp_Attributes s ++ match err with Some e => [("error.msg"%string, e)] | None => [] end) (S (sp_ends s)).
Definition Finished (key : string * Z) (err : option string) (m : monitor) : monitor :=
  match mn_spans m !! key with
  | Some n => mkMonitor (delete key (mn_spans m)) (alter (end_span err) n (mn_all m))
  | None => m
  end.
Definition Succeeded (key : string * Z) : monitor -> monitor := Finished key None.
Definition Failed (key : string * Z) (failure : string) : monitor -> monitor := Finished key (Some failure).

Inductive commandEvent := EvStarted (evt : commandStarted) | EvSucceeded (key : string * Z) | EvFailed (key : string * Z) (failure : string).
Definition monitor_event (e : commandEvent) (m : monitor) : monitor :=
  match e with EvStarted evt => Started evt m | EvSucceeded key => Succeeded key m | EvFailed key failure => Failed key failure m end.

(** ** Connections *)

Inductive poolEventType := GetStarted | GetSucceeded | GetFailed | ConnectionReturned | ConnectionCreated | ConnectionClosed | OtherPoolEvent.
Record poolEvent := mkPoolEvent { pe_Type : poolEventType; pe_Address : string }.
(** The counters of [NewMongoDBPoolMonitor], and what the gauge
    [mongodbConnectionPoolStates] was set to, with its labels. *)
Record poolMonitor := mkPool { pm_waiting : Z; pm_checkedOut : Z; pm_created : Z; pm_sets : list (list labelValue * Z) }.
Definition NewMongoDBPoolMonitor : poolMonitor := mkPool 0 0 0 [].
Definition pool_labels (address state : string) : list labelValue := [LString address; LString state].
Definition set_waiting (address : string) (p : poolMonitor) : poolMonitor :=
  mkPool (pm_waiting p) (pm_checkedOut p) (pm_created p) (pm_sets p ++ [(pool_labels address "total_waiting_to_check_out", pm_waiting p)]).
Definition set_checked_out (address : string) (p : poolMonitor) : poolMonitor :=
  mkPool (pm_waiting p) (pm_checkedOut p) (pm_created p) (pm_sets p ++ [(pool_labels address "total_checked_out", pm_checkedOut p)]).
Definition set_created (address : string) (p : poolMonitor) : poolMonitor :=
  mkPool (pm_waiting p) (pm_checkedOut p) (pm_created p) (pm_sets p ++ [(pool_labels address "total_created", pm_created p)]).
Definition pool_add (waiting checkedOut created : Z) (p : poolMonitor) : poolMonitor :=
  mkPool (pm_waiting p + waiting) (pm_checkedOut p + checkedOut) (pm_created p + created) (pm_sets p).
Definition pool_event (e : poolEvent) (p : poolMonitor) : poolMonitor :=
  let a := pe_Address e in
  match pe_Type e with
  | GetStarted => set_waiting a (pool_add 1 0 0 p)
  | GetSucceeded => set_waiting a (set_checked_out a (pool_add (-1) 1 0 p))
  | GetFailed => set_waiting a (pool_add (-1) 0 0 p)
  | ConnectionReturned => set_checked_out a (pool_add 0 (-1) 0 p)
  | ConnectionCreated => set_created a (pool_add 0 0 1 p)
  | ConnectionClosed => set_created a (pool_add 0 0 (-1) p)
  | OtherPoolEvent => p
  end.

(** ** The development exporter: [dev_exporter.go] *)

Record mySpanInfo := mkSpanInfo { si_toPrint : string; si_id : string }.
Abbreviation childMap := (gmap string (list mySpanInfo)).

(** [reZero]. *)
Definition reZero (s : string) : bool := negb (bool_decide (s = EmptyString)) && all_chars (fun c => (c =? "0")%char) s.

(** A finished span; times in nanoseconds, identifiers in hexadecimal. *)
Record spanData := mkSpanData { sd_Name : string; sd_StartTime : Z; sd_EndTime : Z; sd_Annotations : list string; sd_SpanID : string; sd_ParentSpanID : string }.

(** [printTree]: the children that are left and the lines, unless the fuel is
    not enough for the depth. *)
Definition print_children (print : childMap -> string -> option (childMap * list string)) (padding : string)
    : list mySpanInfo -> childMap -> option (childMap * list string) :=
  fix loop l children :=
  match l with
  | [] => Some (children, [])
  | s :: l' =>
      '(children1, lines1) ← print children (si_id s);
      '(children2, lines2) ← loop l' children1;
      Some (children2, (padding +:+ " " +:+ si_toPrint s) :: lines1 ++ lines2)
  end.
Fixpoint printTree (fuel : nat) (children : childMap) (root padding : string) : option (childMap * list string) :=
  match fuel with
  | O => None
  | S fuel' =>
      '(children', lines) ← print_children (fun c id => printTree fuel' c id (padding +:+ "  ")) padding (default [] (children !! root)) children;
      Some (delete root children', lines)
  end.

Definition span_info (sd : spanData) : string :=
  foldl (fun info a => info +:+ " " +:+ a) (sd_Name sd +:+ " " +:+ FormatInt (Z.quot (sd_EndTime sd - sd_StartTime sd) (1000 * 1000)) +:+ " ms") (sd_Annotations sd).

(** [ExportSpan]. *)
Definition ExportSpan (fuel : nat) (sd : spanData) (children : childMap) : option (childMap * list string) :=
  if reZero (sd_ParentSpanID sd) then
    '(children', lines) ← printTree fuel children (sd_SpanID sd) "  ";
    Some (children', span_info sd :: lines)
  else Some (<[sd_ParentSpanID sd := default [] (children !! sd_ParentSpanID sd) ++ [mkSpanInfo (span_info sd) (sd_SpanID sd)]]> children, []).

Fixpoint ExportSpans (fuel : nat) (sds : list spanData) (children : childMap) : option (childMap * list string) :=
  match sds with
  | [] => Some (children, [])
  | sd :: sds' =>
      '(children1, lines1) ← ExportSpan fuel sd children;
      '(children2, lines2) ← ExportSpans fuel sds' children1;
      Some (children2, lines1 ++ lines2)
  end.

(** [ExportMetrics]: the value of a point, a series with the values of its
    labels, a metric, and what is made of them as JSON. *)
Inductive pointValue := PInt (z : Z) | PDistribution (count sum sum_sq_dev : Z) | POther.
Inductive pointOut := OutValue (v : pointValue) | OutDistribution (count sum sum_sq_dev : Z).
Record timeSeries := mkSeries { ts_LabelValues : list string; ts_Points : list pointValue }.
Record metricData := mkMetric { me_Name : string; me_LabelKeys : list string; me_TimeSeries : list timeSeries }.
Inductive metricOut := OutPoint (p : pointOut) | OutList (l : list (list (string * string) * pointOut)).

Definition transformPoint (v : pointValue) : pointOut :=
  match v with PDistribution c s d => OutDistribution c s d | _ => OutValue v end.
(** The labels of a series; an index past its values panics. *)
Fixpoint zip_labels (ks vs : list string) : option (list (string * string)) :=
  match ks, vs with
  | [], _ => Some []
  | k :: ks', v :: vs' => l ← zip_labels ks' vs'; Some ((k, v) :: l)
  | _ :: _, [] => None
  end.
Fixpoint point_vals (ks : list string) (series : list timeSeries) : option (list (list (string * string) * pointOut)) :=
  match series with
  | [] => Some []
  | ts :: series' =>
      match ts_Points ts with
      | [] => point_vals ks series'
      | p :: _ =>
          labels ← zip_labels ks (ts_LabelValues ts);
          rest ← point_vals ks series';
          Some ((labels, transformPoint p) :: rest)
      end
  end.
Definition metric_out (m : metricData) : option (option metricOut) :=
  match me_TimeSeries m with
  | [] => Some None
  | ts :: _ =>
      match me_LabelKeys m with
      | [] => Some (match ts_Points ts with [] => None | p :: _ => Some (OutPoint (transformPoint p)) end)
      | ks => l ← point_vals ks (me_TimeSeries m); Some (Some (OutList l))
      end
  end.
Fixpoint ExportMetrics (metrics : list metricData) (metricsTransform : gmap string metricOut) : option (gmap string metricOut) :=
  match metrics with
  | [] => Some metricsTransform
  | m :: metrics' =>
      match metric_out m with
      | None => None
      | Some None => ExportMetrics metrics' metricsTransform
      | Some (Some out) => ExportMetrics metrics' (<[me_Name m := out]> metricsTransform)
      end
  end.

(** ** The exporter for the cloud: [exporters.go], [metrics.go], [http.go] *)

Record gaeResource := mkGae { ga_projectID : string; ga_module : string; ga_version : string; ga_instanceID : string; ga_location : string }.
Definition MonitoredResource (r : gaeResource) : string * list (string * string) :=
  ("gae_instance", [("project_id", ga_projectID r); ("module_id", ga_module r); ("version_id", ga_version r); ("instance_id", ga_instanceID r);
                    ("location", ga_location r)])%string.

(** The options given to stackdriver; intervals in seconds. *)
Record sdOptions := mkSdOptions { so_ReportingInterval : Z; so_MetricPrefix : string; so_ProjectID : string; so_Resource : option gaeResource; so_NoDefaultLabels : bool }.

Section Cloud.
Context (Getenv : string -> string) (Zone InstanceID : string + goerror).
(** A variable of the environment, or what the metadata server says. *)
Definition env_or (name : string) (from_metadata : string + goerror) : string + goerror :=
  if bool_decide (Getenv name = EmptyString) then from_metadata else inl (Getenv name).
Definition NewCloudExporter (MetricPrefix : string) (NewExporter : sdOptions -> option goerror) : sdOptions + goerror :=
  let project := Getenv "STACKDRIVER_PROJECT_ID" in
  let made (opts : sdOptions) : sdOptions + goerror := match NewExporter opts with Some err => inr err | None => inl opts end in
  if bool_decide (Getenv "K_SERVICE" = EmptyString) then made (mkSdOptions 60 MetricPrefix project None false)
  else match env_or "GCP_COMPUTE_ZONE" Zone with
       | inr err => inr err
       | inl zone =>
           match env_or "GCP_INSTANCE_ID" InstanceID with
           | inr err => inr err
           | inl instanceID =>
               made (mkSdOptions 60 MetricPrefix project (Some (mkGae project (Getenv "K_SERVICE") (Getenv "K_REVISION") instanceID zone)) true)
           end
       end.
End Cloud.

Definition registerHTTPViews (server client : option goerror) : option goerror := match server with Some err => Some err | None => client end.
Definition registerApplicationViews `{Multierr goerror} (grpc server client : option goerror) : option goerror :=
  multierr_Combine (option_list grpc ++ option_list (registerHTTPViews server client)).
(** [sdExporter.Start]: whether traces are exported afterwards. *)
Definition sd_Start `{Multierr goerror} (grpc server client startMetrics : option goerror) : bool * option goerror :=
  match registerApplicationViews grpc server client with
  | Some err => (false, Some err)
  | None => match startMetrics with Some err => (false, Some err) | None => (true, None) end
  end.

(** ** Properties *)

Definition run_monitor (es : list commandEvent) : monitor := run_ops monitor_event es NewMongoDBMonitor.
(** No command is started under a key whose command has not finished. *)
Fixpoint fresh_keys (es : list commandEvent) (m : monitor) : Prop :=
  match es with
  | [] => True
  | e :: es' =>
      match e with EvStarted evt => mn_spans m !! (st_ConnectionID evt, st_RequestID evt) = None | _ => True end /\
      fresh_keys es' (monitor_event e m)
  end.

(** [strict]: spans that are in no entry were ended. *)
Record monitor_inv (strict : bool) (m : monitor) : Prop := {
  mo_open : forall key n, mn_spans m !! key = Some n -> exists s, mn_all m !! n = Some s /\ sp_ends s = O;
  mo_inj : forall key key' n, mn_spans m !! key = Some n -> mn_spans m !! key' = Some n -> key = key';
  mo_once : forall n s, mn_all m !! n = Some s -> (sp_ends s <= 1)%nat;
  mo_closed : strict = true -> forall n s, mn_all m !! n = Some s -> (forall key, mn_spans m !! key <> Some n) -> sp_ends s = 1%nat;
}.

Lemma finished_inv strict key err m : monitor_inv strict m -> monitor_inv strict (Finished key err m).
Proof.
  intros [H1 H2 H3 H4]. unfold Finished. destruct (mn_spans m !! key) as [n0|] eqn:Hk; [|by split].
  destruct (H1 _ _ Hk) as (s0 & Hs0 & He0). split; cbn.
  - intros key' n Hl. apply lookup_delete_Some in Hl as [Hne Hl]. destruct (H1 _ _ Hl) as (s & Hs & He). exists s. split; [|done].
    rewrite list_lookup_alter_ne; [done|]. intros <-. apply Hne. by apply (H2 key key' n0).
  - intros key1 key2 n Hl1 Hl2. apply lookup_delete_Some in Hl1 as [_ Hl1]. apply lookup_delete_Some in Hl2 as [_ Hl2]. by eapply H2.
  - intros n s. destruct (decide (n = n0)) as [->|Hne].
    + rewrite list_lookup_alter_eq, Hs0. cbn. intros [= <-]. cbn. lia.
    + rewrite list_lookup_alter_ne by done. apply H3.
  - intros Hst n s. destruct (decide (n = n0)) as [->|Hne].
    + rewrite list_lookup_alter_eq, Hs0. cbn. intros [= <-] _. cbn. lia.
    + rewrite list_lookup_alter_ne by done. intros Hs Hno. apply (H4 Hst n s Hs). intros key' Hl. apply (Hno key').
      apply lookup_delete_Some. split; [|done]. intros ->. congruence.
Qed.

Lemma spans_started_inv strict evt m : monitor_inv strict m -> (strict = true -> mn_spans m !! (st_ConnectionID evt, st_RequestID evt) = None) ->
  monitor_inv strict (Started evt m).
Proof.
  intros [H1 H2 H3 H4] Hf. assert (Hlt : forall key n, mn_spans m !! key = Some n -> (n < length (mn_all m))%nat).
  { intros key n Hl. destruct (H1 _ _ Hl) as (s & Hs & _). by apply lookup_lt_Some in Hs. }
  split; cbn.
  - intros key n Hl. apply lookup_insert_Some in Hl as [[<- <-]|[Hne Hl]].
    + exists (span_of evt). split; [|done]. by rewrite lookup_app_r, Nat.sub_diag.
    + destruct (H1 _ _ Hl) as (s & Hs & He). exists s. split; [|done]. by apply lookup_app_l_Some.
  - intros key key' n Hl Hl'. apply lookup_insert_Some in Hl, Hl'. destruct Hl as [[<- <-]|[Hne Hl]], Hl' as [[<- E]|[Hne' Hl']]; try done.
    + apply Hlt in Hl'. lia.
    + subst n. apply Hlt in Hl. lia.
    + by eapply H2.
  - intros n s Hl. apply lookup_app_Some in Hl as [Hl|[_ Hl]]; [by eapply H3|]. apply list_lookup_singleton_Some in Hl as [_ <-]. cbn. lia.
  - intros Hst n s Hl Hno. apply lookup_app_Some in Hl as [Hl|[Hge Hl]].
    + apply (H4 Hst n s Hl). intros key Hk. apply (Hno key). rewrite lookup_insert_ne; [done|]. intros <-. rewrite Hf in Hk; done.
    + apply list_lookup_singleton_Some in Hl as [Hz <-]. destruct (Hno (st_ConnectionID evt, st_RequestID evt)). rewrite lookup_insert_eq. f_equal. lia.
Qed.

Lemma new_monitor_inv strict : monitor_inv strict NewMongoDBMonitor.
Proof. split; cbn; intros *; try (by rewrite lookup_empty); try (by rewrite lookup_nil). intros _ s. by rewrite lookup_nil. Qed.

Lemma run_monitor_inv strict es : forall m, monitor_inv strict m -> (strict = true -> fresh_keys es m) -> monitor_inv strict (run_ops monitor_event es m).
Proof.
  induction es as [|e es IH]; intros m Hi Hf; [done|]. cbn [run_ops]. apply IH; [|intros Hst; by apply (Hf Hst)].
  destruct e; cbn [monitor_event]; [apply spans_started_inv; [done|intros Hst; by apply (Hf Hst)]|by apply finished_inv..].
Qed.

(** No span of a command is ever ended twice. As long as the driver does not
    reuse the number of a request that is running, each span is either kept for
    its command and open, or was ended exactly once: when every command has
    finished, every span has been ended. *)
Theorem command_spans_end_once (es : list commandEvent) :
  (forall n s, mn_all (run_monitor es) !! n = Some s -> (sp_ends s <= 1)%nat) /\
  (fresh_keys es NewMongoDBMonitor -> forall n s, mn_all (run_monitor es) !! n = Some s ->
     (sp_ends s = O <-> exists key, mn_spans (run_monitor es) !! key = Some n) /\
     (mn_spans (run_monitor es) = ∅ -> sp_ends s = 1%nat)).
Proof.
  split.
  - apply (mo_once false). apply run_monitor_inv; [apply new_monitor_inv|done].
  - intros Hf. assert (Hi : monitor_inv true (run_monitor es)) by (apply run_monitor_inv; [apply new_monitor_inv|done]).
    destruct Hi as [H1 H2 H3 H4]. intros n s Hn. split.
    + split.
      * intros He. destruct (decide (map_Exists (fun _ v => v = n) (mn_spans (run_monitor es)))) as [(key & v & Hk & ->)|Hno]; [by exists key|].
        rewrite (H4 eq_refl n s Hn) in He; [done|]. intros key Hk. apply Hno. exists key, n. done.
      * intros [key Hk]. destruct (H1 _ _ Hk) as (s' & Hs' & He). congruence.
    + intros Hempty. apply (H4 eq_refl n s Hn). intros key. by rewrite Hempty, lookup_empty.
Qed.

(** A request number that is used again while its command runs loses the first
    span, which is never ended. *)
Lemma reused_request_loses_span evt key : key = (st_ConnectionID evt, st_RequestID evt) ->
  mn_all (run_monitor [EvStarted evt; EvStarted evt; EvSucceeded key; EvSucceeded key]) = [span_of evt; end_span None (span_of evt)].
Proof.
  intros ->. unfold run_monitor. cbn [run_ops monitor_event]. unfold Succeeded. set (key := (st_ConnectionID evt, st_RequestID evt)).
  assert (Started evt (Started evt NewMongoDBMonitor) = mkMonitor (<[key := 1%nat]> (<[key := 0%nat]> ∅)) [span_of evt; span_of evt]) as -> by done.
  unfold Finished. cbn [mn_spans mn_all]. rewrite lookup_insert_eq. cbn [mn_spans]. by rewrite lookup_delete_eq.
Qed.

(** The address without the driver's suffix, with the port it names or 27017. *)
Theorem connection_string_spec (host port suffix : string) :
  str_mem "[" host = false -> str_mem ":" host = false -> str_mem "[" port = false ->
  connectionString (host +:+ String "[" suffix) = host +:+ ":" +:+ "27017" /\
  connectionString ((host +:+ String ":" port) +:+ String "[" suffix) = host +:+ ":" +:+ port.
Proof.
  intros H1 H2 H3. unfold connectionString. split.
  - rewrite split2_app by done. cbn [fst]. by rewrite split2_none.
  - rewrite split2_app; [|rewrite str_mem_app; cbn; by rewrite H1, H3]. cbn [fst]. by rewrite split2_app.
Qed.

(** The address of a server in IPv6 is lost. *)
Lemma ipv6_connection_string : connectionString "[::1]:27017[-3]" = ":27017".
Proof. reflexivity. Qed.

(** ** Gauges of the connections *)

Definition run_pool (es : list poolEvent) : poolMonitor := run_ops pool_event es NewMongoDBPoolMonitor.
Definition pe_type_eqb (t t' : poolEventType) : bool :=
  match t, t' with
  | GetStarted, GetStarted | GetSucceeded, GetSucceeded | GetFailed, GetFailed | ConnectionReturned, ConnectionReturned
  | ConnectionCreated, ConnectionCreated | ConnectionClosed, ConnectionClosed | OtherPoolEvent, OtherPoolEvent => true
  | _, _ => false
  end.
Definition count_events (t : poolEventType) (es : list poolEvent) : Z := Z.of_nat (length (filter (fun e => pe_type_eqb t (pe_Type e) = true) es)).
(** What the gauge shows for an address and a state. *)
Definition pool_gauge (address state : string) (p : poolMonitor) : option Z := last (of_series (pool_labels address state) (pm_sets p)).

Lemma count_events_snoc t es e : count_events t (es ++ [e]) = count_events t es + (if pe_type_eqb t (pe_Type e) then 1 else 0).
Proof.
  unfold count_events. rewrite filter_app, length_app. destruct (pe_type_eqb t (pe_Type e)) eqn:E.
  - rewrite filter_cons_True by done. cbn. lia.
  - rewrite filter_cons_False by congruence. cbn. lia.
Qed.

Lemma of_series_snoc vs l c : of_series vs (l ++ [c]) = of_series vs l ++ (if decide (c.1 = vs) then [c.2] else []).
Proof.
  unfold of_series. rewrite filter_app, fmap_app. f_equal. destruct (decide (c.1 = vs)).
  - by rewrite filter_cons_True.
  - by rewrite filter_cons_False.
Qed.

Lemma run_pool_snoc es e : run_pool (es ++ [e]) = pool_event e (run_pool es).
Proof.
  unfold run_pool. generalize NewMongoDBPoolMonitor. induction es as [|e0 es IH]; intros p; [done|]. cbn [app run_ops]. apply IH.
Qed.

Lemma run_pool_counts es :
  pm_checkedOut (run_pool es) = count_events GetSucceeded es - count_events ConnectionReturned es /\
  pm_created (run_pool es) = count_events ConnectionCreated es - count_events ConnectionClosed es /\
  pm_waiting (run_pool es) = count_events GetStarted es - count_events GetSucceeded es - count_events GetFailed es.
Proof.
  induction es as [|e es IH] using rev_ind; [done|]. rewrite run_pool_snoc, !count_events_snoc. destruct IH as (H1 & H2 & H3).
  unfold pool_event. destruct (pe_Type e); cbn [pool_add set_waiting set_checked_out set_created pm_waiting pm_checkedOut pm_created pe_type_eqb]; lia.
Qed.

(** The gauge of connections that are checked out shows, after each event that
    concerns it, how many are checked out - over all servers, though it is
    labelled with the server of the event; likewise the other two. *)
Theorem pool_gauges_count_all_servers es e :
  let p := run_pool (es ++ [e]) in
  (pe_Type e = GetSucceeded \/ pe_Type e = ConnectionReturned ->
     pool_gauge (pe_Address e) "total_checked_out" p =
     Some (count_events GetSucceeded (es ++ [e]) - count_events ConnectionReturned (es ++ [e]))) /\
  (pe_Type e = ConnectionCreated \/ pe_Type e = ConnectionClosed ->
     pool_gauge (pe_Address e) "total_created" p =
     Some (count_events ConnectionCreated (es ++ [e]) - count_events ConnectionClosed (es ++ [e]))) /\
  (pe_Type e = GetStarted \/ pe_Type e = GetSucceeded \/ pe_Type e = GetFailed ->
     pool_gauge (pe_Address e) "total_waiting_to_check_out" p =
     Some (count_events GetStarted (es ++ [e]) - count_events GetSucceeded (es ++ [e]) - count_events GetFailed (es ++ [e]))).
Proof.
  intros p. destruct (run_pool_counts (es ++ [e])) as (H1 & H2 & H3). unfold p. rewrite <-H1, <-H2, <-H3, run_pool_snoc.
  unfold pool_event, pool_gauge.
  split_and!; intros Ht; destruct (pe_Type e); try (by naive_solver); cbn [pool_add set_waiting set_checked_out set_created pm_sets pm_waiting pm_checkedOut pm_created];
    rewrite !of_series_snoc; cbn [fst snd]; unfold pool_labels;
    repeat case_decide; try done; rewrite ?app_nil_r; by rewrite last_snoc.
Qed.

(** Two servers: one connection to each is counted as two for the second. *)
Lemma pool_gauge_mixes_servers :
  pool_gauge "b" "total_checked_out" (run_pool [mkPoolEvent GetSucceeded "a"; mkPoolEvent GetSucceeded "b"]) = Some 2.
Proof. reflexivity. Qed.

(** ** The tree of spans *)

(** Spans with their children. *)
Inductive spanTree := SpanNode (sd : spanData) (subs : list spanTree).
Definition tree_root (t : spanTree) : spanData := let '(SpanNode sd _) := t in sd.
Definition tree_id (t : spanTree) : string := sd_SpanID (tree_root t).
Definition tree_info (t : spanTree) : mySpanInfo := mkSpanInfo (span_info (tree_root t)) (tree_id t).
Fixpoint tree_depth (t : spanTree) : nat := let '(SpanNode _ subs) := t in S (foldr Nat.max 0%nat (tree_depth <$> subs)).
(** The identifiers, the spans with children first, the lines below a span. *)
Fixpoint tree_ids (t : spanTree) : list string := let '(SpanNode sd subs) := t in sd_SpanID sd :: concat (tree_ids <$> subs).
Fixpoint tree_spans (t : spanTree) : list spanData := let '(SpanNode sd subs) := t in concat (tree_spans <$> subs) ++ [sd].
Fixpoint tree_lines (padding : string) (t : spanTree) : list string :=
  let '(SpanNode sd subs) := t in (padding +:+ " " +:+ span_info sd) :: concat (tree_lines (padding +:+ "  ") <$> subs).
(** Children name their parent, and only the root has none. *)
Fixpoint tree_linked (t : spanTree) : Prop :=
  let '(SpanNode sd subs) := t in
  (fix all (l : list spanTree) : Prop :=
     match l with [] => True | t' :: l' => sd_ParentSpanID (tree_root t') = sd_SpanID sd /\ reZero (sd_ParentSpanID (tree_root t')) = false /\ tree_linked t' /\ all l' end) subs.

Section SpanTreeInd.
Variable P : spanTree -> Prop.
Hypothesis HNode : forall sd subs, Forall P subs -> P (SpanNode sd subs).
Fixpoint spanTree_ind' (t : spanTree) : P t :=
  match t with
  | SpanNode sd subs => HNode sd subs ((fix go l := match l return Forall P l with [] => Forall_nil_2 _ | t' :: l' => Forall_cons_2 _ t' l' (spanTree_ind' t') (go l') end) subs)
  end.
End SpanTreeInd.

Lemma tree_linked_Forall sd subs : tree_linked (SpanNode sd subs) <->
  Forall (fun t' => sd_ParentSpanID (tree_root t') = sd_SpanID sd /\ reZero (sd_ParentSpanID (tree_root t')) = false /\ tree_linked t') subs.
Proof. induction subs as [|t subs IH]; [done|]. rewrite Forall_cons, <-IH. cbn. tauto. Qed.

(** The children map holds what is below a tree. *)
Fixpoint holds (children : childMap) (t : spanTree) : Prop :=
  let '(SpanNode sd subs) := t in
  default [] (children !! sd_SpanID sd) = (tree_info <$> subs) /\
  (fix all (l : list spanTree) : Prop := match l with [] => True | t' :: l' => holds children t' /\ all l' end) subs.

Lemma holds_Forall children sd subs : holds children (SpanNode sd subs) <->
  default [] (children !! sd_SpanID sd) = (tree_info <$> subs) /\ Forall (holds children) subs.
Proof.
  assert (forall l, (fix all (l : list spanTree) : Prop := match l with [] => True | t' :: l' => holds children t' /\ all l' end) l <-> Forall (holds children) l) as H.
  { induction l as [|t l IH]; [done|]. rewrite Forall_cons, <-IH. done. }
  cbn [holds]. by rewrite H.
Qed.

Lemma elem_of_concat {A} (x : A) (ls : list (list A)) : x ∈ concat ls <-> exists l, l ∈ ls /\ x ∈ l.
Proof.
  induction ls as [|l ls IH]; cbn [concat].
  - split; [by intros ?%elem_of_nil|by intros (l & Hl%elem_of_nil & _)].
  - rewrite elem_of_app, IH. setoid_rewrite elem_of_cons. naive_solver.
Qed.

Lemma span_holds_ext t : forall children children' : childMap, (forall k, k ∈ tree_ids t -> children' !! k = children !! k) -> holds children t -> holds children' t.
Proof.
  induction t as [sd subs IH] using spanTree_ind'. intros children children' He. rewrite !holds_Forall. intros [H1 H2]. split.
  - rewrite He; [done|]. cbn. by left.
  - apply Forall_forall. intros t Ht. rewrite Forall_forall in IH, H2. apply (IH t Ht children); [|by apply H2].
    intros k Hk. apply He. cbn. right. apply elem_of_concat. exists (tree_ids t). split; [|done]. apply list_elem_of_fmap. by exists t.
Qed.

(** Printing what is below a span: the lines of its children, depth first, and
    nothing of the tree is kept. *)
Lemma printTree_holds t : forall fuel children padding,
  holds children t -> NoDup (tree_ids t) -> (tree_depth t <= fuel)%nat ->
  exists children', printTree fuel children (tree_id t) padding = Some (children', concat (tree_lines padding <$> let '(SpanNode _ subs) := t in subs)) /\
    (forall k, k ∈ tree_ids t -> children' !! k = None) /\ (forall k, k ∉ tree_ids t -> children' !! k = children !! k).
Proof.
  induction t as [sd subs IH] using spanTree_ind'. intros [|fuel] children padding Hh Hd Hf; [cbn in Hf; lia|].
  apply holds_Forall in Hh as [Hroot Hsubs]. cbn [tree_ids] in Hd. apply NoDup_cons in Hd as [Hnot Hd].
  cbn [tree_depth] in Hf. cbn [printTree tree_id tree_root]. change (tree_id (SpanNode sd subs)) with (sd_SpanID sd). rewrite Hroot.
  assert (Hloop : exists children1,
    print_children (fun c id => printTree fuel c id (padding +:+ "  ")) padding (tree_info <$> subs) children = Some (children1, concat (tree_lines padding <$> subs)) /\
    (forall k, k ∈ concat (tree_ids <$> subs) -> children1 !! k = None) /\
    (forall k, k ∉ concat (tree_ids <$> subs) -> children1 !! k = children !! k)).
  { clear Hroot Hnot. revert children Hsubs. induction subs as [|t subs IHs]; intros children Hsubs.
    { exists children. split_and!; [done| |done]. by intros k ?%elem_of_nil. }
    apply Forall_cons in IH as [IHt IH], Hsubs as [Ht Hsubs]. cbn [fmap list_fmap concat] in Hd. apply NoDup_app in Hd as (Hdt & Hdisj & Hd).
    cbn [fmap list_fmap foldr] in Hf.
    destruct (IHt fuel children (padding +:+ "  ") Ht Hdt) as (c1 & E1 & Hn1 & Hs1); [lia|].
    destruct (IHs IH Hd ltac:(lia) c1) as (c2 & E2 & Hn2 & Hs2).
    { apply Forall_forall. intros t' Ht'. apply (span_holds_ext t' children); [|rewrite Forall_forall in Hsubs; by apply Hsubs].
      intros k Hk. apply Hs1. intros Hin. apply (Hdisj k Hin). apply elem_of_concat. exists (tree_ids t'). split; [|done]. apply list_elem_of_fmap. by exists t'. }
    exists c2. cbn [fmap list_fmap concat]. split_and!.
    - cbn [print_children]. change (si_id (tree_info t)) with (tree_id t). rewrite E1. cbn [mbind option_bind]. rewrite E2. cbn [mbind option_bind]. do 2 f_equal.
      by destruct t as [sdt subst'].
    - intros k. rewrite elem_of_app. intros Hk. destruct (decide (k ∈ concat (tree_ids <$> subs))) as [Hin|Hnin]; [by apply Hn2|].
      rewrite Hs2 by done. apply Hn1. destruct Hk; done.
    - intros k. rewrite not_elem_of_app. intros [Hk1 Hk2]. rewrite Hs2 by done. by apply Hs1. }
  destruct Hloop as (c1 & E1 & Hn1 & Hs1). rewrite E1. cbn [mbind option_bind]. eexists. split; [reflexivity|]. split.
  - intros k [->|Hk]%elem_of_cons; [by rewrite lookup_delete_eq|]. destruct (decide (k = sd_SpanID sd)) as [->|Hne]; [by rewrite lookup_delete_eq|].
    rewrite lookup_delete_ne by done. by apply Hn1.
  - intros k [Hne Hk]%not_elem_of_cons. rewrite lookup_delete_ne by done. by apply Hs1.
Qed.

Lemma ExportSpans_app fuel l l' : forall children,
  ExportSpans fuel (l ++ l') children =
  ('(c1, lines1) ← ExportSpans fuel l children; '(c2, lines2) ← ExportSpans fuel l' c1; Some (c2, lines1 ++ lines2)).
Proof.
  induction l as [|sd l IH]; intros children; cbn [app ExportSpans].
  - cbn. by destruct (ExportSpans fuel l' children) as [[c2 lines2]|].
  - destruct (ExportSpan fuel sd children) as [[c1 lines1]|]; [|done]. cbn [mbind option_bind]. rewrite IH.
    destruct (ExportSpans fuel l c1) as [[c2 lines2]|]; [|done]. cbn [mbind option_bind].
    destruct (ExportSpans fuel l' c2) as [[c3 lines3]|]; [|done]. cbn. by rewrite app_assoc.
Qed.

(** What exporting a tree whose root has a parent leaves in the map. *)
Definition exported (children children' : childMap) (parent : string) (ts : list spanTree) : Prop :=
  Forall (holds children') ts /\
  default [] (children' !! parent) = default [] (children !! parent) ++ (tree_info <$> ts) /\
  forall k, k ∉ concat (tree_ids <$> ts) -> k <> parent -> children' !! k = children !! k.
Definition exports_well (t : spanTree) : Prop := forall fuel (children : childMap),
  tree_linked t -> NoDup (tree_ids t) -> reZero (sd_ParentSpanID (tree_root t)) = false -> (sd_ParentSpanID (tree_root t) ∉ tree_ids t) ->
  (forall k, k ∈ tree_ids t -> children !! k = None) ->
  exists children', ExportSpans fuel (tree_spans t) children = Some (children', []) /\ exported children children' (sd_ParentSpanID (tree_root t)) [t].

Lemma export_forest parent ts : Forall exports_well ts -> forall fuel (children : childMap),
  Forall (fun t => sd_ParentSpanID (tree_root t) = parent /\ reZero (sd_ParentSpanID (tree_root t)) = false /\ tree_linked t) ts ->
  NoDup (concat (tree_ids <$> ts)) -> (parent ∉ concat (tree_ids <$> ts)) -> (forall k, k ∈ concat (tree_ids <$> ts) -> children !! k = None) ->
  exists children', ExportSpans fuel (concat (tree_spans <$> ts)) children = Some (children', []) /\ exported children children' parent ts.
Proof.
  intros Hw fuel. induction Hw as [|t ts Ht Hts IH]; intros children Hl Hd Hp Hnone.
  { exists children. split; [done|]. split; [constructor|]. split; [|done]. cbn. by rewrite app_nil_r. }
  apply Forall_cons in Hl as [(Hpar & Hz & Hlt) Hl]. cbn [fmap list_fmap concat] in *. apply NoDup_app in Hd as (Hdt & Hdisj & Hd).
  apply not_elem_of_app in Hp as [Hpt Hp]. rewrite <-Hpar in Hpt.
  destruct (Ht fuel children Hlt Hdt Hz Hpt) as (c1 & E1 & H1 & H2 & H3); [intros k Hk; apply Hnone, elem_of_app; by left|].
  rewrite Hpar in *. cbn [fmap list_fmap concat] in H2, H3. rewrite app_nil_r in H3.
  destruct (IH c1 Hl Hd Hp) as (c2 & E2 & F1 & F2 & F3).
  { intros k Hk. rewrite H3; [apply Hnone, elem_of_app; by right| |intros ->; by apply Hp]. intros Hin. by apply (Hdisj k). }
  exists c2. rewrite ExportSpans_app, E1. cbn [mbind option_bind]. rewrite E2. cbn [mbind option_bind app]. split; [done|]. split_and!.
  - constructor; [|done]. apply Forall_cons in H1 as [H1 _]. apply (span_holds_ext t c1); [|done]. intros k Hk. apply F3.
    + intros Hin. by apply (Hdisj k).
    + intros ->. by apply Hpt.
  - rewrite F2, H2. cbn. by rewrite <-app_assoc.
  - cbn [fmap list_fmap concat]. intros k [Hk1 Hk2]%not_elem_of_app Hne. rewrite F3, H3; done.
Qed.

Lemma export_tree t : exports_well t.
Proof.
  induction t as [sd subs IH] using spanTree_ind'. intros fuel children Hl Hd Hz Hp Hnone.
  apply tree_linked_Forall in Hl. cbn [tree_ids tree_root tree_spans] in *. apply NoDup_cons in Hd as [Hnot Hd].
  destruct (export_forest (sd_SpanID sd) subs IH fuel children Hl Hd Hnot) as (c1 & E1 & H1 & H2 & H3).
  { intros k Hk. apply Hnone. by right. }
  rewrite ExportSpans_app, E1. cbn [mbind option_bind ExportSpans]. unfold ExportSpan at 1. rewrite Hz. cbn [mbind option_bind app].
  apply not_elem_of_cons in Hp as [Hpne Hp]. rewrite Hnone in H2 by (by left). cbn in H2.
  eexists. split; [reflexivity|]. split_and!.
  - constructor; [|constructor]. apply holds_Forall. split; [by rewrite lookup_insert_ne|].
    apply Forall_forall. intros t Ht. apply (span_holds_ext t c1); [|rewrite Forall_forall in H1; by apply H1].
    intros k Hk. rewrite lookup_insert_ne; [done|]. intros <-. apply Hp, elem_of_concat. exists (tree_ids t). split; [|done]. apply list_elem_of_fmap. by exists t.
  - rewrite lookup_insert_eq. cbn. by rewrite H3.
  - intros k Hk Hne. cbn [fmap list_fmap concat tree_ids] in Hk. rewrite app_nil_r in Hk. apply not_elem_of_cons in Hk as [Hk1 Hk2].
    rewrite lookup_insert_ne by done. by apply H3.
Qed.

(** The spans of a tree arrive, each after those below it, the root last: they
    are kept until then, and then printed as the tree they form, in depth-first
    order and indented by depth. Nothing of the tree is kept afterwards and
    other trees are not touched; the recursion ends, within the depth. *)
Theorem exported_tree_is_printed t (children : childMap) fuel :
  tree_linked t -> NoDup (tree_ids t) -> reZero (sd_ParentSpanID (tree_root t)) = true ->
  (forall k, k ∈ tree_ids t -> children !! k = None) -> (tree_depth t <= fuel)%nat ->
  ExportSpans fuel (tree_spans t) children =
  Some (children, span_info (tree_root t) :: concat (tree_lines "  " <$> let '(SpanNode _ subs) := t in subs)).
Proof.
  destruct t as [sd subs]. intros Hl Hd Hz Hnone Hf. pose proof Hd as Hd'. apply tree_linked_Forall in Hl.
  cbn [tree_ids tree_root tree_spans] in *. apply NoDup_cons in Hd as [Hnot Hd].
  destruct (export_forest (sd_SpanID sd) subs) with (fuel := fuel) (children := children) as (c1 & E1 & H1 & H2 & H3); try done.
  { apply Forall_true, export_tree. }
  { intros k Hk. apply Hnone. by right. }
  rewrite ExportSpans_app, E1. cbn [mbind option_bind ExportSpans]. unfold ExportSpan. rewrite Hz. rewrite Hnone in H2 by (by left).
  destruct (printTree_holds (SpanNode sd subs) fuel c1 "  ") as (c2 & E2 & F1 & F2); [by apply holds_Forall|done|done|].
  change (tree_id (SpanNode sd subs)) with (sd_SpanID sd) in E2. rewrite E2. cbn [mbind option_bind app]. rewrite app_nil_r. do 2 f_equal.
  apply map_eq. intros k. destruct (decide (k ∈ tree_ids (SpanNode sd subs))) as [Hin|Hnin].
  - rewrite F1 by done. symmetry. by apply Hnone.
  - rewrite F2 by done. cbn [tree_ids] in Hnin. apply not_elem_of_cons in Hnin as [? ?]. by apply H3.
Qed.

(** Spans whose root has its parent elsewhere, as those of a server that
    continues the trace of its client, are never printed and stay for ever. *)
Theorem remote_spans_are_kept fuel sds : forall (children : childMap),
  Forall (fun sd => reZero (sd_ParentSpanID sd) = false) sds ->
  exists children', ExportSpans fuel sds children = Some (children', []) /\
    forall sd, sd ∈ sds -> exists infos, children' !! sd_ParentSpanID sd = Some infos /\ mkSpanInfo (span_info sd) (sd_SpanID sd) ∈ infos.
Proof.
  assert (Hkeep : forall sds (children : childMap), Forall (fun sd => reZero (sd_ParentSpanID sd) = false) sds ->
    exists children', ExportSpans fuel sds children = Some (children', []) /\
      (forall sd, sd ∈ sds -> exists infos, children' !! sd_ParentSpanID sd = Some infos /\ mkSpanInfo (span_info sd) (sd_SpanID sd) ∈ infos) /\
      (forall k infos i, children !! k = Some infos -> i ∈ infos -> exists infos', children' !! k = Some infos' /\ i ∈ infos')).
  { clear sds. intros sds. induction sds as [|sd sds IH]; intros children Hf.
    - exists children. split_and!; [done|by intros ? ?%elem_of_nil|]. eauto.
    - apply Forall_cons in Hf as [Hz Hf]. cbn [ExportSpans]. unfold ExportSpan. rewrite Hz. cbn [mbind option_bind].
      set (c1 := <[_ := _]> children). destruct (IH c1 Hf) as (c2 & E2 & H1 & H2). rewrite E2. cbn [mbind option_bind app].
      exists c2. split_and!; [done| |].
      + intros sd' [->|Hin]%elem_of_cons; [|by apply H1]. eapply H2; [unfold c1; by rewrite lookup_insert_eq|]. apply elem_of_app. right. by left.
      + intros k infos i Hk Hi. destruct (decide (k = sd_ParentSpanID sd)) as [->|Hne].
        * eapply H2; [unfold c1; by rewrite lookup_insert_eq|]. rewrite Hk. cbn. apply elem_of_app. by left.
        * eapply H2; [unfold c1; by rewrite lookup_insert_ne|done]. }
  intros children Hf. destruct (Hkeep sds children Hf) as (c & E & H1 & _). by exists c.
Qed.

(** On Cloud Run the resource names the service and its revision, with the zone
    and instance of the environment or else of the metadata server, which is not
    asked otherwise; elsewhere there is none. *)
Theorem cloud_exporter_resource Getenv Zone InstanceID prefix NewExporter opts :
  NewCloudExporter Getenv Zone InstanceID prefix NewExporter = inl opts ->
  NewExporter opts = None /\ so_ProjectID opts = Getenv "STACKDRIVER_PROJECT_ID"%string /\
  (so_Resource opts = None <-> Getenv "K_SERVICE"%string = EmptyString) /\
  forall r, so_Resource opts = Some r ->
    ga_module r = Getenv "K_SERVICE"%string /\ ga_version r = Getenv "K_REVISION"%string /\
    (Getenv "GCP_COMPUTE_ZONE"%string <> EmptyString -> ga_location r = Getenv "GCP_COMPUTE_ZONE"%string) /\
    (Getenv "GCP_COMPUTE_ZONE"%string = EmptyString -> Zone = inl (ga_location r)) /\
    (Getenv "GCP_INSTANCE_ID"%string = EmptyString -> InstanceID = inl (ga_instanceID r)).
Proof.
  unfold NewCloudExporter, env_or. cbn zeta. case_bool_decide as Hk.
  - destruct (NewExporter _) eqn:Hn; [done|]. intros [= <-]. by rewrite Hk.
  - intros Hm. assert (exists z, (if bool_decide (Getenv "GCP_COMPUTE_ZONE"%string = EmptyString) then Zone else inl (Getenv "GCP_COMPUTE_ZONE"%string)) = inl z) as [z Hz].
    { destruct (if bool_decide _ then Zone else _); [by eexists|done]. }
    rewrite Hz in Hm.
    assert (exists i, (if bool_decide (Getenv "GCP_INSTANCE_ID"%string = EmptyString) then InstanceID else inl (Getenv "GCP_INSTANCE_ID"%string)) = inl i) as [i Hi].
    { destruct (if bool_decide _ then InstanceID else _); [by eexists|done]. }
    rewrite Hi in Hm. destruct (NewExporter _) eqn:Hn; [done|]. injection Hm as <-. cbn.
    split_and!; [done|done|by split|]. intros r [= <-]. cbn. split_and!; [done|done| | |].
    + intros Hne. rewrite bool_decide_eq_false_2 in Hz by done. by injection Hz.
    + intros He. by rewrite bool_decide_eq_true_2 in Hz.
    + intros He. by rewrite bool_decide_eq_true_2 in Hi.
Qed.

(** ** Witnesses *)

Definition sample_command (req : Z) : commandStarted := mkStarted "db1:27018[-4]" req "app" "find" (Some "users"%string).
Definition sample_commands : list commandEvent :=
  [EvStarted (sample_command 1); EvStarted (sample_command 2); EvFailed ("db1:27018[-4]"%string, 1) "down"; EvSucceeded ("db1:27018[-4]"%string, 2)].

Lemma command_spans_end_once_witness :
  fresh_keys sample_commands NewMongoDBMonitor /\ exists s, mn_all (run_monitor sample_commands) !! 0%nat = Some s /\ sp_ends s = 1%nat.
Proof.
  assert (fresh_keys sample_commands NewMongoDBMonitor) as Hf by (repeat split; vm_compute; reflexivity).
  split; [exact Hf|]. eexists. split; [vm_compute; reflexivity|].
  refine (proj2 (proj2 (command_spans_end_once sample_commands) Hf 0%nat _ _) _); vm_compute; reflexivity.
Defined.

Lemma connection_string_spec_witness : connectionString "db1:27018[-4]" = "db1:27018"%string.
Proof. exact (proj2 (connection_string_spec "db1" "27018" "-4]" eq_refl eq_refl eq_refl)). Defined.

Lemma pool_gauges_count_all_servers_witness :
  pool_gauge "b" "total_checked_out" (run_pool ([mkPoolEvent GetSucceeded "a"] ++ [mkPoolEvent GetSucceeded "b"])) = Some 2.
Proof. exact (proj1 (pool_gauges_count_all_servers [mkPoolEvent GetSucceeded "a"] (mkPoolEvent GetSucceeded "b")) (or_introl eq_refl)). Defined.

Definition sample_span (id parent : string) : spanData := mkSpanData id 0 (3 * 10 ^ 6) [] id parent.
Definition sample_tree : spanTree :=
  SpanNode (sample_span "a" "0000") [SpanNode (sample_span "b" "a") [SpanNode (sample_span "c" "b") []]; SpanNode (sample_span "d" "a") []].

Lemma exported_tree_is_printed_witness :
  ExportSpans 3 (tree_spans sample_tree) ∅ = Some (∅, ["a 3 ms"; "   b 3 ms"; "     c 3 ms"; "   d 3 ms"]%string).
Proof.
  refine (exported_tree_is_printed sample_tree ∅ 3 _ _ _ _ _).
  - repeat split.
  - apply (bool_decide_eq_true_1 (NoDup (tree_ids sample_tree))). vm_compute. reflexivity.
  - reflexivity.
  - intros k _. apply lookup_empty.
  - cbn. lia.
Defined.

Lemma remote_spans_are_kept_witness :
  exists children', ExportSpans 5 [sample_span "b" "a"] ∅ = Some (children', []).
Proof.
  destruct (remote_spans_are_kept 5 [sample_span "b" "a"] ∅) as (c & E & _); [repeat constructor|]. exists c. exact E.
Defined.

Lemma cloud_exporter_resource_witness :
  forallb (fun l => negb (bool_decide (l = EmptyString)))
    (match NewCloudExporter (fun _ => "x"%string) (inr (EIs EOF)) (inr (EIs EOF)) "" (fun _ => None) with
     | inl opts => match so_Resource opts with Some r => [ga_location r] | None => [] end | inr _ => [] end) = true /\
  "x"%string = "x"%string.
Proof.
  split; [reflexivity|].
  destruct (cloud_exporter_resource (fun _ => "x"%string) (inr (EIs EOF)) (inr (EIs EOF)) EmptyString (fun _ => None) _ eq_refl) as (_ & H & _). exact H.
Defined.
