(* ===== verification/Exporters.v ===== *)
(** * The life of an exporter: [perf/exporters.go], [perf/dev_exporter.go]

    Starting and stopping the exporter of development and the one for the cloud.
    What OpenCensus keeps for the process is the record [opencensus]; what its
    functions answer is an argument. Both exporters are instances of the class
    [Exporter], the interface of the package, with the laws [ExporterLaws]; the
    theorems are proved against these. *)

From S2P Require Import Prelude GoError Perf.
Open Scope Z_scope.

(** What OpenCensus keeps: the exporters that are given the spans and those that
    a reader of metrics works for, by number, whether every span is sampled, and
    how often spans were flushed to each. *)
Record opencensus := mkOpencensus { oc_traces : gset nat; oc_metrics : gset nat; oc_always : bool; oc_flushes : list nat }.
Definition RegisterExporter (id : nat) (oc : opencensus) : opencensus := mkOpencensus ({[id]} ∪ oc_traces oc) (oc_metrics oc) (oc_always oc) (oc_flushes oc).
Definition UnregisterExporter (id : nat) (oc : opencensus) : opencensus := mkOpencensus (oc_traces oc ∖ {[id]}) (oc_metrics oc) (oc_always oc) (oc_flushes oc).
Definition ApplyConfig_AlwaysSample (oc : opencensus) : opencensus := mkOpencensus (oc_traces oc) (oc_metrics oc) true (oc_flushes oc).
Definition start_reader (id : nat) (oc : opencensus) : opencensus := mkOpencensus (oc_traces oc) ({[id]} ∪ oc_metrics oc) (oc_always oc) (oc_flushes oc).
Definition stop_reader (id : nat) (oc : opencensus) : opencensus := mkOpencensus (oc_traces oc) (oc_metrics oc ∖ {[id]}) (oc_always oc) (oc_flushes oc).
Definition Flush (id : nat) (oc : opencensus) : opencensus := mkOpencensus (oc_traces oc) (oc_metrics oc) (oc_always oc) (oc_flushes oc ++ [id]).

(** What the library answers to a start: the registrations of views, the making
    of the reader of metrics, and its start. *)
Record startAnswers := mkAnswers { sa_grpc : option goerror; sa_server : option goerror; sa_client : option goerror; sa_reader : option goerror; sa_metrics : option goerror }.
(** [StartPanics]: a nil reader is given its interval. *)
Inductive startResult := StartReturns (err : option goerror) | StartPanics.

(** The interface [Exporter]. *)
Class Exporter (E : Type) := {
  exporter_id : E -> nat;
  Start : startAnswers -> E -> opencensus -> startResult * E * opencensus;
  Stop : E -> opencensus -> opencensus;
}.

Section Exporters.
Context `{Multierr goerror}.

(** ** [sdExporter] *)

Record sdExporter := mkSdExporter { sd_id : nat }.
Definition sdExporter_Start (a : startAnswers) (e : sdExporter) (oc : opencensus) : startResult * sdExporter * opencensus :=
  match registerApplicationViews (sa_grpc a) (sa_server a) (sa_client a) with
  | Some err => (StartReturns (Some err), e, oc)
  | None =>
      match sa_metrics a with
      | Some err => (StartReturns (Some err), e, oc)
      | None => (StartReturns None, e, ApplyConfig_AlwaysSample (RegisterExporter (sd_id e) (start_reader (sd_id e) oc)))
      end
  end.
Definition sdExporter_Stop (e : sdExporter) (oc : opencensus) : opencensus :=
  Flush (sd_id e) (UnregisterExporter (sd_id e) (stop_reader (sd_id e) oc)).
#[export] Instance sdExporter_Exporter : Exporter sdExporter := { exporter_id := sd_id; Start := sdExporter_Start; Stop := sdExporter_Stop }.

(** ** [developmentExporter] *)

(** Intervals in nanoseconds. *)
Record DevelopmentExporterOptions := mkDevOptions { ReportingInterval : Z; MetricsDisabled : bool; TracesDisabled : bool }.
(** [de_ir]: the interval of the reader, when there is one; [de_once]: whether
    [initReaderOnce] was used. *)
Record developmentExporter := mkDevExporter { de_id : nat; de_ir : option Z; de_once : bool; de_o : DevelopmentExporterOptions }.
Definition NewDevelopmentExporterWithOptions (id : nat) (options : DevelopmentExporterOptions) : developmentExporter := mkDevExporter id None false options.
Definition NewDevelopmentExporter (id : nat) : developmentExporter :=
  NewDevelopmentExporterWithOptions id (mkDevOptions (10 * 1000 * 1000 * 1000) false false).

(** The reader is made once; a new one has no interval yet. *)
Definition init_reader (a : startAnswers) (e : developmentExporter) : developmentExporter :=
  if de_once e then e
  else mkDevExporter (de_id e) (match sa_reader a with Some _ => None | None => Some 0 end) true (de_o e).
Definition dev_start_metrics (a : startAnswers) (e : developmentExporter) (oc : opencensus) : startResult * developmentExporter * opencensus :=
  let e := init_reader a e in
  match de_ir e with
  | None => (StartPanics, e, oc)
  | Some _ =>
      let e := mkDevExporter (de_id e) (Some (ReportingInterval (de_o e))) (de_once e) (de_o e) in
      match sa_metrics a with
      | Some err => (StartReturns (Some err), e, oc)
      | None => (StartReturns None, e, start_reader (de_id e) oc)
      end
  end.
Definition developmentExporter_Start (a : startAnswers) (e : developmentExporter) (oc : opencensus) : startResult * developmentExporter * opencensus :=
  match registerApplicationViews (sa_grpc a) (sa_server a) (sa_client a) with
  | Some err => (StartReturns (Some err), e, oc)
  | None =>
      let oc := if TracesDisabled (de_o e) then oc else ApplyConfig_AlwaysSample (RegisterExporter (de_id e) oc) in
      if MetricsDisabled (de_o e) then (StartReturns None, e, oc) else dev_start_metrics a e oc
  end.
(** The reader's [Stop] does nothing for a nil reader. *)
Definition developmentExporter_Stop (e : developmentExporter) (oc : opencensus) : opencensus :=
  let oc := if TracesDisabled (de_o e) then oc else UnregisterExporter (de_id e) oc in
  if MetricsDisabled (de_o e) then oc else match de_ir e with Some _ => stop_reader (de_id e) oc | None => oc end.
#[export] Instance developmentExporter_Exporter : Exporter developmentExporter :=
  { exporter_id := de_id; Start := developmentExporter_Start; Stop := developmentExporter_Stop }.

End Exporters.

(** ** The contract of an exporter *)

(** Two states agree about every exporter but one. *)
Definition same_but (id : nat) (oc oc' : opencensus) : Prop :=
  oc_traces oc ∖ {[id]} = oc_traces oc' ∖ {[id]} /\ oc_metrics oc ∖ {[id]} = oc_metrics oc' ∖ {[id]}.

#[export] Instance same_but_equiv id : Equivalence (same_but id).
Proof. split; [by split|intros ?? [??]; by split|]. intros ??? [H1 H2] [H3 H4]. split; congruence. Qed.

(** [exporter_new]: an exporter as its constructor makes it. [exporter_wf]: what
    OpenCensus does for an exporter that was used only by its
    own operations. *)
Class ExporterLaws (E : Type) `{Exporter E} := {
  exporter_new : E -> Prop;
  exporter_wf : E -> opencensus -> Prop;
  start_wf a e oc r e' oc' : Start a e oc = (r, e', oc') -> exporter_wf e oc -> exporter_wf e' oc';
  start_frame a e oc r e' oc' : Start a e oc = (r, e', oc') -> exporter_id e' = exporter_id e /\ same_but (exporter_id e) oc oc';
  stop_wf e oc : exporter_wf e oc -> exporter_wf e (Stop e oc);
  stop_frame e oc : same_but (exporter_id e) oc (Stop e oc);
  stop_off e oc : exporter_wf e oc -> (exporter_id e ∉ oc_traces (Stop e oc)) /\ (exporter_id e ∉ oc_metrics (Stop e oc));
  new_wf e oc : exporter_new e -> exporter_id e ∉ oc_traces oc -> exporter_id e ∉ oc_metrics oc -> exporter_wf e oc;
}.

Lemma same_but_register id oc : same_but id oc (RegisterExporter id oc).
Proof. split; cbn; set_solver. Qed.
Lemma same_but_unregister id oc : same_but id oc (UnregisterExporter id oc).
Proof. split; cbn; set_solver. Qed.
Lemma same_but_start_reader id oc : same_but id oc (start_reader id oc).
Proof. split; cbn; set_solver. Qed.
Lemma same_but_stop_reader id oc : same_but id oc (stop_reader id oc).
Proof. split; cbn; set_solver. Qed.
Lemma same_but_sample id oc oc' : same_but id oc oc' -> same_but id oc (ApplyConfig_AlwaysSample oc').
Proof. by intros []. Qed.
Lemma same_but_flush id oc oc' : same_but id oc oc' -> same_but id oc (Flush id oc').
Proof. by intros []. Qed.

Section Laws.
Context `{Multierr goerror}.

Lemma sd_start_cases a e oc r e' oc' : sdExporter_Start a e oc = (r, e', oc') ->
  e' = e /\ (r <> StartReturns None /\ oc' = oc \/ r = StartReturns None /\ oc' = ApplyConfig_AlwaysSample (RegisterExporter (sd_id e) (start_reader (sd_id e) oc))).
Proof. unfold sdExporter_Start. destruct (registerApplicationViews _ _ _); [intros [= <- <- <-]; auto|]. destruct (sa_metrics a); intros [= <- <- <-]; auto. Qed.

#[export] Instance sdExporter_laws : ExporterLaws sdExporter.
Proof.
  refine {| exporter_new := fun _ => True; exporter_wf := fun _ _ => True |}; try done.
  - intros a e oc r e' oc' Hs. apply sd_start_cases in Hs as [-> [[_ ->]|[_ ->]]]; [done|]. split; [done|]. apply same_but_sample.
    etrans; [apply same_but_start_reader|apply same_but_register].
  - intros e oc. apply same_but_flush. etrans; [apply same_but_stop_reader|apply same_but_unregister].
  - intros e oc _. cbn. set_solver.
Defined.

(** What the exporter of development has with OpenCensus. *)
Definition dev_wf (e : developmentExporter) (oc : opencensus) : Prop :=
  (TracesDisabled (de_o e) = true -> de_id e ∉ oc_traces oc) /\
  (MetricsDisabled (de_o e) = true \/ de_ir e = None -> de_id e ∉ oc_metrics oc) /\
  (de_once e = false -> de_ir e = None).

(** A start either stops at the views, or registers for traces and then goes on
    with the metrics. *)
Definition dev_traced (e : developmentExporter) (oc : opencensus) : opencensus :=
  if TracesDisabled (de_o e) then oc else ApplyConfig_AlwaysSample (RegisterExporter (de_id e) oc).
Lemma dev_start_cases a e oc r e' oc' : developmentExporter_Start a e oc = (r, e', oc') ->
  (exists err, r = StartReturns (Some err) /\ e' = e /\ oc' = oc) \/
  (MetricsDisabled (de_o e) = true /\ r = StartReturns None /\ e' = e /\ oc' = dev_traced e oc) \/
  (MetricsDisabled (de_o e) = false /\ dev_start_metrics a e (dev_traced e oc) = (r, e', oc')).
Proof.
  unfold developmentExporter_Start. fold (dev_traced e oc). destruct (registerApplicationViews _ _ _) as [err|].
  - intros [= <- <- <-]. left. by exists err.
  - cbn zeta. destruct (MetricsDisabled (de_o e)); [intros [= <- <- <-]|intros Hs]; right; [by left|by right].
Qed.

Lemma dev_metrics_cases a e oc r e' oc' : dev_start_metrics a e oc = (r, e', oc') ->
  de_id e' = de_id e /\ de_o e' = de_o e /\ de_once e' = true /\ (de_once e = true -> de_ir e = None -> de_ir e' = None) /\
  (de_once e = true -> is_Some (de_ir e) -> is_Some (de_ir e')) /\
  (r <> StartReturns None /\ oc' = oc \/ r = StartReturns None /\ is_Some (de_ir e') /\ oc' = start_reader (de_id e) oc).
Proof.
  unfold dev_start_metrics, init_reader.
  destruct e as [id [z|] [|] o], (sa_reader a); cbn; try destruct (sa_metrics a); intros [= <- <- <-]; cbn;
    split_and!; try done; try (intros; by eexists); first [left; split; [congruence|reflexivity]|right; split_and!; [reflexivity|by eexists|reflexivity]].
Qed.

Lemma dev_traced_same e oc : same_but (de_id e) oc (dev_traced e oc).
Proof. unfold dev_traced. destruct (TracesDisabled (de_o e)); [done|]. apply same_but_sample, same_but_register. Qed.

Lemma dev_traced_wf e oc : dev_wf e oc -> dev_wf e (dev_traced e oc).
Proof. unfold dev_traced. destruct (TracesDisabled (de_o e)) eqn:Ht; [done|]. intros (H1 & H2 & H3). split_and!; cbn; [congruence|done..]. Qed.

#[export] Instance developmentExporter_laws : ExporterLaws developmentExporter.
Proof.
  refine {| exporter_new := fun e => e = NewDevelopmentExporterWithOptions (de_id e) (de_o e); exporter_wf := dev_wf |}.
  - intros a e oc r e' oc' Hs Hw. apply dev_start_cases in Hs as [(err & _ & -> & ->)|[(_ & _ & -> & ->)|[Hm Hs]]]; [done|by apply dev_traced_wf|].
    apply dev_traced_wf in Hw. revert Hs Hw. generalize (dev_traced e oc) as oc1. intros oc1 Hs (H1 & H2 & H3).
    apply dev_metrics_cases in Hs as (Hid & Ho & Honce & Hnil & Hsome & Hr). unfold dev_wf. rewrite Hid, Ho, Hm.
    destruct Hr as [[_ ->]|(_ & [z Hz] & ->)]; split_and!; cbn; try done; try congruence; [|naive_solver].
    intros [?|He]; [done|]. apply H2. right. destruct (de_ir e) eqn:Hir; [|done]. destruct (de_once e) eqn:Hon; [|by apply H3].
    destruct Hsome as [? Hs]; [done|by eexists|]. congruence.
  - intros a e oc r e' oc' Hs. apply dev_start_cases in Hs as [(err & _ & -> & ->)|[(_ & _ & -> & ->)|[Hm Hs]]]; [by split|split; [done|apply dev_traced_same]|].
    apply dev_metrics_cases in Hs as (Hid & Ho & _ & _ & _ & Hr). split; [done|]. cbn. destruct Hr as [[_ ->]|(_ & _ & ->)]; [apply dev_traced_same|].
    etrans; [apply dev_traced_same|apply same_but_start_reader].
  - intros e oc (H1 & H2 & H3). cbn. unfold developmentExporter_Stop, dev_wf.
    destruct (TracesDisabled (de_o e)) eqn:Ht, (MetricsDisabled (de_o e)) eqn:Hm, (de_ir e) eqn:Hir; cbn; split_and!; try done; try set_solver; naive_solver.
  - intros e oc. cbn. unfold developmentExporter_Stop. destruct (TracesDisabled (de_o e)), (MetricsDisabled (de_o e)), (de_ir e);
      try done; try apply same_but_unregister; try apply same_but_stop_reader;
      (etrans; [apply same_but_unregister|apply same_but_stop_reader]).
  - intros e oc (H1 & H2 & H3). cbn. unfold developmentExporter_Stop.
    destruct (TracesDisabled (de_o e)) eqn:Ht, (MetricsDisabled (de_o e)) eqn:Hm, (de_ir e) eqn:Hir; cbn; split; try set_solver; naive_solver.
  - intros e oc -> H1 H2. by split_and!.
Defined.
End Laws.

(** ** Properties *)

(** How a program uses an exporter: it is started, with answers of the library, or
    stopped. *)
Inductive exporterUse := UseStart (a : startAnswers) | UseStop.
Definition use_exporter `{Exporter E} (u : exporterUse) (s : E * opencensus) : E * opencensus :=
  match u with
  | UseStart a => let '(_, e', oc') := Start a s.1 s.2 in (e', oc')
  | UseStop => (s.1, Stop s.1 s.2)
  end.

Section Use.
Context `{ExporterLaws E}.

Lemma use_exporter_inv us (e : E) oc : exporter_wf e oc ->
  let s := run_ops use_exporter us (e, oc) in exporter_wf s.1 s.2 /\ exporter_id s.1 = exporter_id e /\ same_but (exporter_id e) oc s.2.
Proof.
  intros Hw. cbn zeta. apply (run_ops_invariant use_exporter (fun s => exporter_wf s.1 s.2 /\ exporter_id s.1 = exporter_id e /\ same_but (exporter_id e) oc s.2)); [|done].
  intros u [e1 oc1] (Hw1 & Hid & Hsame). cbn [fst snd] in *. destruct u as [a|]; cbn [use_exporter fst snd].
  - destruct (Start a e1 oc1) as [[r e2] oc2] eqn:Hs. destruct (start_frame _ _ _ _ _ _ Hs) as [Hid2 Hsame2]. cbn. split_and!.
    + by eapply start_wf.
    + congruence.
    + etrans; [done|]. by rewrite <-Hid.
  - split_and!; [by apply stop_wf|done|]. etrans; [done|]. rewrite <-Hid. apply stop_frame.
Qed.

(** However a new exporter was started and stopped, whatever the library answered
    and even where a start failed or panicked: after a stop the process exports to
    the same exporters as before, no span and no metric goes to this one. *)
Theorem stopped_exporter_leaves_nothing us (e : E) oc : exporter_new e -> exporter_id e ∉ oc_traces oc -> exporter_id e ∉ oc_metrics oc ->
  let s := run_ops use_exporter us (e, oc) in
  oc_traces (Stop s.1 s.2) = oc_traces oc /\ oc_metrics (Stop s.1 s.2) = oc_metrics oc.
Proof.
  intros Hn Ht Hm s. destruct (use_exporter_inv us e oc) as (Hw & Hid & Hsame); [by apply new_wf|]. fold s in Hw, Hid, Hsame.
  destruct (stop_off _ _ Hw) as [Ht' Hm']. destruct (stop_frame s.1 s.2) as [Hf1 Hf2]. destruct Hsame as [Hs1 Hs2]. rewrite Hid in *.
  split.
  - transitivity (oc_traces oc ∖ {[exporter_id e]}); [|set_solver]. rewrite Hs1, Hf1. set_solver.
  - transitivity (oc_metrics oc ∖ {[exporter_id e]}); [|set_solver]. rewrite Hs2, Hf2. set_solver.
Qed.
End Use.

Section Starts.
Context `{Multierr goerror}.

(** A start of the exporter of development that succeeds exports what its options
    do not disable, and both by default. *)
Lemma dev_start_exports a e oc e' oc' : developmentExporter_Start a e oc = (StartReturns None, e', oc') ->
  (TracesDisabled (de_o e) = false -> de_id e ∈ oc_traces oc' /\ oc_always oc' = true) /\
  (MetricsDisabled (de_o e) = false -> de_id e ∈ oc_metrics oc').
Proof.
  intros Hs. apply dev_start_cases in Hs as [(err & [=] & _)|[(Hm & _ & -> & ->)|[Hm Hs]]].
  - rewrite Hm. split; [|done]. intros Ht. unfold dev_traced. rewrite Ht. cbn. split; [set_solver|done].
  - apply dev_metrics_cases in Hs as (_ & _ & _ & _ & _ & [[? _]|(_ & _ & ->)]); [done|]. split; [|cbn; set_solver].
    intros Ht. unfold dev_traced. rewrite Ht. cbn. split; [set_solver|done].
Qed.

(** A start of the exporter for the cloud that fails changes nothing. *)
Lemma sd_failed_start_changes_nothing a e oc r e' oc' : sdExporter_Start a e oc = (r, e', oc') -> r <> StartReturns None -> e' = e /\ oc' = oc.
Proof. intros Hs Hr. by apply sd_start_cases in Hs as [-> [[_ ->]|[-> _]]]. Qed.
End Starts.

(** The one of development does not undo the registration for traces when the
    reader of metrics does not start: the caller sees an error and the spans are
    exported. *)
Lemma dev_failed_start_exports_spans err :
  let '(r, _, oc) := @developmentExporter_Start SimpleErrors.simple_multierr (mkAnswers None None None None (Some err)) (NewDevelopmentExporter 0) (mkOpencensus ∅ ∅ false []) in
  r = StartReturns (Some err) /\ 0%nat ∈ oc_traces oc /\ 0%nat ∉ oc_metrics oc.
Proof. cbn. split_and!; [done|set_solver..]. Qed.

(** ** Witnesses *)

Lemma stopped_exporter_leaves_nothing_witness :
  let oc := mkOpencensus {[7%nat]} {[7%nat]} true [] in
  let s := run_ops (@use_exporter _ (@developmentExporter_Exporter SimpleErrors.simple_multierr))
             [UseStart (mkAnswers None None None None (Some (ENew "no reader"))); UseStart (mkAnswers None None None None None)] (NewDevelopmentExporter 3, oc) in
  3%nat ∈ oc_traces s.2 /\ oc_traces (developmentExporter_Stop s.1 s.2) = {[7%nat]} /\ oc_metrics (developmentExporter_Stop s.1 s.2) = {[7%nat]}.
Proof.
  intros oc s. split; [cbn; set_solver|].
  apply (@stopped_exporter_leaves_nothing _ _ (@developmentExporter_laws SimpleErrors.simple_multierr)); [reflexivity|cbn; set_solver|cbn; set_solver].
Defined.
