(* ===== verification/Tracing.v ===== *)
(** * Traces across calls, and values of contexts

    [rpc/client_interceptors.go] and [rpc/server_interceptors.go], as far as they
    trace: the span of the caller is sent as metadata and continued by the
    server. [rpc/context.go]: the values that contexts of calls carry; and how a
    WebRTC channel runs the interceptors of a client
    ([rpc/wrtc_client_channel.go]). OpenCensus starts spans; it is an argument. *)

From S2P Require Import Prelude GoError GoStrings GoRun BaseStream ClientStream Channels.
From Stdlib Require Import Ascii.
Open Scope Z_scope.

(** ** Hexadecimal text: encoding/hex *)

Definition hex_char (v : Z) : ascii := ascii_of_nat (Z.to_nat (if v <? 10 then 48 + v else 87 + v)).
Definition byte_hi (b : Byte.byte) : Z := Z.of_N (Byte.to_N b) / 16.
Definition byte_lo (b : Byte.byte) : Z := Z.of_N (Byte.to_N b) mod 16.
Fixpoint EncodeToString (bs : bytes) : string :=
  match bs with
  | [] => EmptyString
  | b :: bs' => String (hex_char (byte_hi b)) (String (hex_char (byte_lo b)) (EncodeToString bs'))
  end.
Definition hex_val (c : ascii) : option Z :=
  if between "0" "9" c then Some (code_of c - 48)
  else if between "a" "f" c then Some (code_of c - 87)
  else if between "A" "F" c then Some (code_of c - 55)
  else None.
Definition byte_of (v : Z) : Byte.byte := default Byte.x00 (Byte.of_N (Z.to_N v)).
Definition errHex : goerror := ENew "encoding/hex".
Fixpoint DecodeString (s : string) : bytes + goerror :=
  match s with
  | EmptyString => inl []
  | String _ EmptyString => inr errHex
  | String c (String d s') =>
      match hex_val c, hex_val d with
      | Some h, Some l => match DecodeString s' with inl bs => inl (byte_of (16 * h + l) :: bs) | inr e => inr e end
      | _, _ => inr errHex
      end
  end.
(** [copy] into an array of [n] bytes. *)
Definition copy_into (n : nat) (bs : bytes) : bytes := take n bs ++ replicate (n - length bs) Byte.x00.

(** ** Contexts: [rpc/context.go] *)

(** [trace.SpanContext], without a state. *)
Record SpanContext := mkSpanContext { TraceID : bytes; SpanID : bytes; TraceOptions : Z }.

(** What the contexts of calls carry; dialers and connections are numbered. *)
Record goContext := mkGoContext {
  gx_outgoing : MD;
  gx_incoming : MD;
  gx_span : option SpanContext;
  gx_host : option string;
  gx_dialer : option nat;
  gx_peerConnection : option nat;
}.
Definition Background : goContext := mkGoContext None None None None None None.
Definition with_outgoing md c := mkGoContext md (gx_incoming c) (gx_span c) (gx_host c) (gx_dialer c) (gx_peerConnection c).
Definition with_incoming md c := mkGoContext (gx_outgoing c) md (gx_span c) (gx_host c) (gx_dialer c) (gx_peerConnection c).
Definition with_span s c := mkGoContext (gx_outgoing c) (gx_incoming c) s (gx_host c) (gx_dialer c) (gx_peerConnection c).

Definition contextWithHost (host : string) (c : goContext) : goContext :=
  mkGoContext (gx_outgoing c) (gx_incoming c) (gx_span c) (Some host) (gx_dialer c) (gx_peerConnection c).
Definition contextHost (c : goContext) : string := match gx_host c with None => EmptyString | Some host => host end.
Definition ContextWithDialer (d : nat) (c : goContext) : goContext :=
  mkGoContext (gx_outgoing c) (gx_incoming c) (gx_span c) (gx_host c) (Some d) (gx_peerConnection c).
Definition contextDialer (c : goContext) : option nat := gx_dialer c.
Definition contextWithPeerConnection (pc : nat) (c : goContext) : goContext :=
  mkGoContext (gx_outgoing c) (gx_incoming c) (gx_span c) (gx_host c) (gx_dialer c) (Some pc).
Definition ContextPeerConnection (c : goContext) : option nat := gx_peerConnection c.

(** ** The client: [contextWithSpanMetadata] *)

(** [metadata.AppendToOutgoingContext]: a value is added to those of its key. *)
Definition append_md (md : gmap string (list string)) (kv : string * string) : gmap string (list string) :=
  <[kv.1 := default [] (md !! kv.1) ++ [kv.2]]> md.
Definition AppendToOutgoingContext (kvs : list (string * string)) (c : goContext) : goContext :=
  with_outgoing (Some (foldl append_md (default ∅ (gx_outgoing c)) kvs)) c.

Definition contextWithSpanMetadata (c : goContext) : goContext :=
  match gx_span c with
  | None => c
  | Some span =>
      AppendToOutgoingContext
        [("trace-id"%string, EncodeToString (TraceID span)); ("span-id"%string, EncodeToString (SpanID span));
         ("trace-options"%string, FormatUint (TraceOptions span))] c
  end.

(** The interceptors, around what they call. *)
Definition UnaryClientTracingInterceptor {A} (invoker : goContext -> A) (c : goContext) : A := invoker (contextWithSpanMetadata c).
Definition StreamClientTracingInterceptor {A} (streamer : goContext -> A) (c : goContext) : A := streamer (contextWithSpanMetadata c).

(** The calls of a WebRTC channel with the interceptor of the channel, if any:
    [invokeWithInterceptor] and [streamWithInterceptor]. *)
Definition invokeWithInterceptor {A} (unaryInterceptor : option ((goContext -> A) -> goContext -> A)) (invoke : goContext -> A) (c : goContext) : A :=
  match unaryInterceptor with None => invoke c | Some interceptor => interceptor invoke c end.
(** The interceptor gets the description of the stream; the channel has none to
    give, whatever NewStream was called with. *)
Definition streamWithInterceptor {A D} (streamInterceptor : option (option D -> (goContext -> A) -> goContext -> A)) (desc : option D)
    (newClientStream : goContext -> A) (c : goContext) : A :=
  match streamInterceptor with None => newClientStream c | Some interceptor => interceptor None newClientStream c end.

(** ** The server: [remoteSpanContextFromContext] *)

(** [md.Get(key)[0]] of a key; a missing value panics. *)
Definition md_Get (md : gmap string (list string)) (key : string) : list string := default [] (md !! key).

Definition remoteSpanContextFromContext (c : goContext) : ended goerror SpanContext :=
  match gx_incoming c with
  | None => Err (ENew "no metadata in context")
  | Some md =>
      match md_Get md "trace-id" with
      | [] => Err (ENew "trace-id is missing from metadata")
      | traceIDMetadata :: _ =>
          match DecodeString traceIDMetadata with
          | inr err => Err (EWrap "trace-id could not be decoded" err)
          | inl traceIDBytes =>
              match md_Get md "span-id" with
              | [] => Panicking
              | spanIDMetadata :: _ =>
                  match DecodeString spanIDMetadata with
                  | inr err => Err (EWrap "span-id could not be decoded" err)
                  | inl spanIDBytes =>
                      match md_Get md "trace-options" with
                      | [] => Err (ENew "trace-options is missing from metadata")
                      | traceOptionsMetadata :: _ =>
                          match ParseUint 10 32 traceOptionsMetadata with
                          | inr _ => Err (EWrap "trace-options could not be parsed as uint" (ENew traceOptionsMetadata))
                          | inl traceOptionsUint => Ret (mkSpanContext (copy_into 16 traceIDBytes) (copy_into 8 spanIDBytes) traceOptionsUint)
                          end
                      end
                  end
              end
          end
      end
  end.

Section Server.
Context `{GrpcStatus} (StartSpanWithRemoteParent : SpanContext -> SpanContext).

(** The context of the handler, and whether a span is ended afterwards. *)
Definition traced_context (c : goContext) : ended goerror (goContext * bool) :=
  match remoteSpanContextFromContext c with
  | Ret remote => Ret (with_span (Some (StartSpanWithRemoteParent remote)) c, true)
  | Err _ => Ret (c, false)
  | Panicking => Panicking
  end.

(** What becomes of the error of a handler. *)
Definition handler_error (err : goerror) : option goerror :=
  if snd (status_FromError (Some err)) then Some err
  else match status_FromContextError (Some err) with
       | Some s => status_Err (Some s)
       | None => Some err
       end.
Definition UnaryServerTracingInterceptor {Resp} (handler : goContext -> option Resp * option goerror) (c : goContext)
    : ended goerror (option Resp * option goerror) :=
  match traced_context c with
  | Ret (ctx, _) =>
      match handler ctx with
      | (resp, None) => Ret (resp, None)
      | (resp, Some err) => Ret (resp, handler_error err)
      end
  | Err e => Err e
  | Panicking => Panicking
  end.
(** [wrapServerStream]: the stream with another context. *)
Record serverStreamWrapper (S : Type) := mkWrapper { wr_ServerStream : S; wr_ctx : goContext }.
Arguments mkWrapper {S}.
Arguments wr_ctx {S}.
Definition StreamServerTracingInterceptor {S} (handler : serverStreamWrapper S -> option goerror) (stream : serverStreamWrapper S)
    : ended goerror (option goerror) :=
  match traced_context (wr_ctx stream) with
  | Ret (ctx, _) => Ret (err ← handler (mkWrapper (wr_ServerStream _ stream) ctx); handler_error err)
  | Err e => Err e
  | Panicking => Panicking
  end.
End Server.

(** The context of a call's handler on a WebRTC channel: metadata.NewIncomingContext
    of what the headers carry, a nil map being an empty one. *)
Definition channel_context (hdr : requestHeaders) (c : goContext) : goContext :=
  with_incoming (Some (default ∅ (metadataFromProto (rh_metadata hdr)))) c.

(** ** Properties *)

Lemma byte_nibbles b : 0 <= byte_hi b < 16 /\ 0 <= byte_lo b < 16 /\ byte_of (16 * byte_hi b + byte_lo b) = b.
Proof.
  unfold byte_hi, byte_lo, byte_of. pose proof (Byte.to_N_bounded b) as Hb.
  rewrite <-Z.div_mod by lia. rewrite N2Z.id, Byte.of_to_N. split_and!; [apply Z.div_pos; lia|apply Z.div_lt_upper_bound; lia|apply Z.mod_pos_bound; lia|apply Z.mod_pos_bound; lia|done].
Qed.

Lemma hex_val_char v : 0 <= v < 16 -> hex_val (hex_char v) = Some v.
Proof.
  intros Hv. assert (v = 0 \/ v = 1 \/ v = 2 \/ v = 3 \/ v = 4 \/ v = 5 \/ v = 6 \/ v = 7 \/ v = 8 \/ v = 9 \/ v = 10 \/ v = 11 \/ v = 12 \/ v = 13 \/ v = 14 \/ v = 15) as H by lia.
  repeat (destruct H as [->|H]; [reflexivity|]). by subst v.
Qed.

Lemma DecodeString_EncodeToString bs : DecodeString (EncodeToString bs) = inl bs.
Proof.
  induction bs as [|b bs IH]; [done|]. cbn [EncodeToString DecodeString]. destruct (byte_nibbles b) as (Hh & Hl & Hb).
  rewrite !hex_val_char by done. by rewrite IH, Hb.
Qed.

Lemma copy_into_exact n bs : length bs = n -> copy_into n bs = bs.
Proof. intros <-. unfold copy_into. rewrite firstn_all, Nat.sub_diag. cbn. by rewrite app_nil_r. Qed.

Lemma metadata_travels (md : gmap string (list string)) : md <> ∅ -> metadataFromProto (metadataToProto (Some md)) = Some md.
Proof.
  intros Hne. assert (size md <> 0%nat) as Hs by (intros E; by apply map_size_empty_inv in E).
  unfold metadataToProto. rewrite decide_False by done. unfold metadataFromProto. by rewrite decide_False.
Qed.

(** A span context as OpenCensus makes them. *)
Definition valid_span (span : SpanContext) : Prop :=
  length (TraceID span) = 16%nat /\ length (SpanID span) = 8%nat /\ 0 <= TraceOptions span < 2 ^ 32.

(** C29: The span of a caller continues on the server: a call through a WebRTC
    channel with the tracing interceptor sends headers from which the server's
    interceptor reads back exactly the caller's span context, and the other
    metadata of the call arrives as it was. *)
Theorem trace_crosses_channel (c : goContext) span deadline now method (received : goContext) :
  gx_span c = Some span -> valid_span span ->
  (forall key, key ∈ ["trace-id"; "span-id"; "trace-options"]%string -> default ∅ (gx_outgoing c) !! key = None) ->
  let hdr := invokeWithInterceptor (Some UnaryClientTracingInterceptor)
               (fun ctx => ClientChannel.makeRequestHeaders (gx_outgoing ctx) deadline now method) c in
  remoteSpanContextFromContext (channel_context hdr received) = Ret span /\
  forall key, key ∉ ["trace-id"; "span-id"; "trace-options"]%string ->
    default ∅ (gx_incoming (channel_context hdr received)) !! key = default ∅ (gx_outgoing c) !! key.
Proof.
  intros Hs (Ht & Hsp & Ho) Hnone hdr. set (md0 := default ∅ (gx_outgoing c)) in *.
  set (md := foldl append_md md0 [("trace-id"%string, EncodeToString (TraceID span)); ("span-id"%string, EncodeToString (SpanID span));
                                   ("trace-options"%string, FormatUint (TraceOptions span))]).
  assert (gx_outgoing (contextWithSpanMetadata c) = Some md) as Hout by (unfold contextWithSpanMetadata; by rewrite Hs).
  assert (md !! "trace-id"%string = Some [EncodeToString (TraceID span)] /\ md !! "span-id"%string = Some [EncodeToString (SpanID span)] /\
          md !! "trace-options"%string = Some [FormatUint (TraceOptions span)] /\
          forall key, key ∉ ["trace-id"; "span-id"; "trace-options"]%string -> md !! key = md0 !! key) as (H1 & H2 & H3 & H4).
  { pose proof (Hnone "trace-id"%string ltac:(by left)) as N1. pose proof (Hnone "span-id"%string ltac:(by right; left)) as N2.
    pose proof (Hnone "trace-options"%string ltac:(by right; right; left)) as N3.
    unfold md, append_md. cbn [foldl fst snd]. split_and!.
    - rewrite !(lookup_insert_ne _ "trace-options"%string), (lookup_insert_ne _ "span-id"%string), lookup_insert_eq by done. by rewrite N1.
    - rewrite (lookup_insert_ne _ "trace-options"%string), lookup_insert_eq by done. by rewrite lookup_insert_ne, N2.
    - rewrite lookup_insert_eq. by rewrite !lookup_insert_ne, N3.
    - intros key Hk. rewrite !not_elem_of_cons in Hk. destruct Hk as (K1 & K2 & K3 & _). by rewrite !lookup_insert_ne. }
  assert (md <> ∅) as Hne by (intros E; rewrite E, lookup_empty in H1; done).
  assert (channel_context hdr received = with_incoming (Some md) received) as Hc.
  { unfold channel_context, hdr, invokeWithInterceptor, UnaryClientTracingInterceptor, ClientChannel.makeRequestHeaders. cbn [rh_metadata].
    rewrite Hout, metadata_travels by done. done. }
  rewrite Hc. split; [|done].
  unfold remoteSpanContextFromContext, md_Get. cbn [gx_incoming with_incoming]. rewrite H1. cbn [default from_option id].
  rewrite DecodeString_EncodeToString, H2. cbn [default from_option id]. rewrite DecodeString_EncodeToString, H3. cbn [default from_option id].
  rewrite ParseUint_FormatUint by lia. rewrite !copy_into_exact by done. by destruct span.
Qed.

(** A client that sends a trace without a span panics the server's interceptor,
    before the handler runs. *)
Theorem missing_span_id_panics `{GrpcStatus} start {Resp} (handler : goContext -> option Resp * option goerror) c md traceID bs :
  gx_incoming c = Some md -> md !! "trace-id"%string = Some [traceID] -> DecodeString traceID = inl bs -> md !! "span-id"%string = None ->
  UnaryServerTracingInterceptor start handler c = Panicking.
Proof.
  intros Hin H1 H2 H3. unfold UnaryServerTracingInterceptor, traced_context, remoteSpanContextFromContext, md_Get.
  rewrite Hin, H1. cbn [default from_option id]. by rewrite H2, H3.
Qed.

(** Unless it panics, the interceptor is transparent but for two things: the
    handler runs once, in the context of the call or with a span whose parent is
    the remote one, its response is returned, it fails exactly when the handler
    did, and then with an error that has a status. *)
Theorem tracing_is_transparent `{GrpcStatusLaws} start {Resp} (handler : goContext -> option Resp * option goerror) c resp err :
  (forall e s, status_FromContextError (Some e) = s -> exists c m, s = Some (c, m)) ->
  UnaryServerTracingInterceptor start handler c = Ret (resp, err) ->
  exists ctx, resp = fst (handler ctx) /\ (err = None <-> snd (handler ctx) = None) /\
    (ctx = c \/ exists remote, remoteSpanContextFromContext c = Ret remote /\ ctx = with_span (Some (start remote)) c) /\
    (forall e, err = Some e -> snd (status_FromError (Some e)) = true).
Proof.
  intros Hshape. unfold UnaryServerTracingInterceptor, traced_context.
  assert (Herr : forall e, exists e', handler_error e = Some e' /\ snd (status_FromError (Some e')) = true).
  { intros e. unfold handler_error. destruct (snd (status_FromError (Some e))) eqn:E; [by exists e|].
    destruct (Hshape e _ eq_refl) as (cd & m & Hs). rewrite Hs.
    assert (cd <> OK) as Hne.
    { intros ->. assert (status_Code (status_FromContextError (Some e)) = OK) as Hok by (by rewrite Hs).
      destruct (errors_Is e DeadlineExceeded) eqn:E1; [by rewrite FromContextError_deadline in Hok|].
      destruct (errors_Is e Canceled) eqn:E2; [by rewrite FromContextError_canceled in Hok|by rewrite FromContextError_other in Hok]. }
    exists (EStatus cd m). split; [by destruct cd|]. by rewrite FromError_status. }
  assert (Hrun : forall ctx, match handler ctx with (r, None) => Ret (r, None) | (r, Some e) => Ret (r, handler_error e) end = @Ret goerror _ (resp, err) ->
    resp = fst (handler ctx) /\ (err = None <-> snd (handler ctx) = None) /\ (forall e, err = Some e -> snd (status_FromError (Some e)) = true)).
  { intros ctx. destruct (handler ctx) as [r [e|]]; cbn; [|by intros [= <- <-]].
    destruct (Herr e) as (e' & -> & He'). intros [= <- <-]. split_and!; [done|done|]. by intros ? [= <-]. }
  destruct (remoteSpanContextFromContext c) as [remote|e|] eqn:Hr; [| |done]; intros Hh.
  - exists (with_span (Some (start remote)) c). destruct (Hrun _ Hh) as (? & ? & ?). split_and!; try done. right. by exists remote.
  - exists c. destruct (Hrun _ Hh) as (? & ? & ?). split_and!; try done. by left.
Qed.

(** ** Witnesses *)

Definition sample_sc : SpanContext := mkSpanContext (replicate 16 Byte.xab) (replicate 8 Byte.x0f) 1.
Definition sample_ctx : goContext := with_outgoing (Some {[ "user"%string := ["u"%string] ]}) (with_span (Some sample_sc) Background).

Lemma trace_crosses_channel_witness :
  remoteSpanContextFromContext (channel_context (ClientChannel.makeRequestHeaders (gx_outgoing (contextWithSpanMetadata sample_ctx)) None 0 "/m") Background) = Ret sample_sc.
Proof.
  refine (proj1 (trace_crosses_channel sample_ctx sample_sc None 0 "/m" Background eq_refl _ _)).
  - split; [reflexivity|]. split; [reflexivity|]. cbn. lia.
  - intros key Hk. cbn. apply lookup_singleton_ne. intros <-. apply (bool_decide_eq_true_2 (_ ∈ _)) in Hk. vm_compute in Hk. discriminate Hk.
Defined.

Lemma missing_span_id_panics_witness :
  @UnaryServerTracingInterceptor SimpleErrors.simple_status id unit (fun _ => (None, None))
    (with_incoming (Some {[ "trace-id"%string := ["00"%string] ]}) Background) = Panicking.
Proof.
  refine (@missing_span_id_panics SimpleErrors.simple_status id unit _ _ {[ "trace-id"%string := ["00"%string] ]} "00" [Byte.x00] _ _ _ _); reflexivity.
Defined.

Lemma tracing_is_transparent_witness :
  exists ctx, Some tt = fst ((fun _ : goContext => (Some tt, Some (EIs Canceled))) ctx) /\ (Some (EStatus CodeCanceled "context canceled") = None <-> False).
Proof.
  destruct (@tracing_is_transparent SimpleErrors.simple_status SimpleErrors.simple_status_laws id unit (fun _ => (Some tt, Some (EIs Canceled))) Background
    (Some tt) (Some (EStatus CodeCanceled "context canceled"))) as (ctx & H1 & H2 & _).
  - intros e s <-. cbn. unfold SimpleErrors.from_context_error. repeat case_match; eauto.
  - reflexivity.
  - exists ctx. split; [exact H1|]. split; [discriminate|intros []].
Defined.
