(* ===== verification/WebServing.v ===== *)
(** * Serving pages and data: [web/templates.go], [web/api.go],
      [web/panic_capture.go] and [web/protojson/]

    A response is built by calls on the response writer of net/http: the first
    status counts, and headers that are set after it are not sent. Handlers are
    given by the calls that they make and what they return; the middlewares are
    programs over the writer that may panic. The template engine, the JSON
    encoders and the file system are arguments. *)

From S2P Require Import Prelude GoError GoStrings GoRun.
From Stdlib Require Import Ascii.

Local Open Scope Z_scope.

(** ** The response writer of net/http *)

(** [rw_header] is what Header() gives to change, [rw_sent] the status line and
    headers once they are written. *)
Record responseWriter := mkWriter {
  rw_header : gmap string string;
  rw_sent : option (Z * gmap string string);
  rw_body : string;
}.
Definition newWriter : responseWriter := mkWriter ∅ None EmptyString.

(** Nothing that uses the writer returns an error that the code looks at. *)
Abbreviation httpM := (prog responseWriter Empty_set).

Definition set_header (k v : string) : httpM unit :=
  modify (fun w => mkWriter (<[k := v]> (rw_header w)) (rw_sent w) (rw_body w)).

(** [WriteHeader]: a second one is ignored, an impossible one panics, and an
    informational one is sent besides. *)
Definition informational (code : Z) : bool := (100 <=? code) && (code <=? 199) && negb (code =? 101).
Definition write_header (code : Z) : httpM unit := fun w =>
  match rw_sent w with
  | Some _ => (w, Ret tt)
  | None =>
      if (code <? 100) || (999 <? code) then (w, Panicking)
      else if informational code then (w, Ret tt)
      else (mkWriter (rw_header w) (Some (code, rw_header w)) (rw_body w), Ret tt)
  end.

(** [Write]: it writes the status 200 first when there is none, and nothing for
    a status that has no body. *)
Definition body_allowed (code : Z) : bool := negb ((code <=? 199) || (code =? 204) || (code =? 304)).
Definition write_body (text : string) : httpM unit :=
  _ ← write_header 200;
  modify (fun w =>
    match rw_sent w with
    | Some (code, _) => if body_allowed code then mkWriter (rw_header w) (rw_sent w) (rw_body w +:+ text) else w
    | None => w
    end).

(** What the client gets when the handler is done. *)
Definition response (w : responseWriter) : Z * gmap string string * string :=
  (default (200, rw_header w) (rw_sent w), rw_body w).

(** ** Handlers *)

(** A handler as the calls it makes on its writer and its end: what it returns,
    or [None] when it panics. *)
Inductive writerCall :=
  | CallSetHeader (k v : string)
  | CallWriteHeader (code : Z)
  | CallWrite (text : string).
Definition writer_call (c : writerCall) : httpM unit :=
  match c with
  | CallSetHeader k v => set_header k v
  | CallWriteHeader code => write_header code
  | CallWrite text => write_body text
  end.
Record handler (A : Type) := mkHandler { hd_calls : list writerCall; hd_end : option A }.
Arguments mkHandler {A}. Arguments hd_calls {A}. Arguments hd_end {A}.
Definition serve {A} (h : handler A) : httpM A :=
  _ ← for_each writer_call (hd_calls h);
  match hd_end h with Some a => mret a | None => panics end.

(** The deferred [Recover] of [PanicCapture]. *)
Definition contentType : string := "Content-Type".
Definition Recover : httpM unit :=
  _ ← set_header contentType "text/plain";
  _ ← write_header 500;
  write_body "internal server error".
Definition recovering (m : httpM unit) : httpM unit := fun w =>
  match m w with
  | (w', Panicking) => Recover w'
  | r => r
  end.

(** ** JSON of protobuf messages: [web/protojson/] *)

Record JSONOptions := mkJSONOptions { jo_UseProtoNames : bool; jo_AllowPartial : bool }.
Record MarshalingOptions := mkMarshalingOptions { mo_EnableProtoJSON : bool; mo_JSONOptions : JSONOptions }.
Definition DefaultMarshalingOptions : MarshalingOptions := mkMarshalingOptions false (mkJSONOptions true true).

(** Values of type interface{}, as far as the code tells them apart: nil, a
    proto.Message, a slice or array whose elements are of a type that implements
    proto.Message (nil ones are interfaces), and others. *)
Inductive anyval (M O : Type) :=
  | ANil
  | AMsg (m : M)
  | ASeq (items : list (option M))
  | AOther (o : O).
Arguments ANil {M O}. Arguments AMsg {M O}. Arguments ASeq {M O}. Arguments AOther {M O}.

Section Protojson.
Context {M O J : Type}.
Context (proto_Marshal : JSONOptions -> M -> string + goerror).
Context (json_Marshal : anyval M O -> string + goerror) (json_Unmarshal : string -> J + goerror).

Definition isProtoMessage (input : anyval M O) : bool := match input with AMsg _ => true | _ => false end.

(** [isSliceOfProtoMessage]; the type of nil has no kind. *)
Definition isSliceOfProtoMessage (input : anyval M O) : option bool :=
  match input with ANil => None | ASeq _ => Some true | _ => Some false end.

(** The loop of [marshalSliceOfProtos] over what is left of the slice. *)
Fixpoint marshal_items (opts : JSONOptions) (items : list (option M)) (b : string) : ended goerror string :=
  match items with
  | [] => Ret b
  | None :: _ => Panicking
  | Some m :: rest =>
      match proto_Marshal opts m with
      | inr err => Err err
      | inl js => marshal_items opts rest (b +:+ js +:+ match rest with [] => EmptyString | _ => ","%string end)
      end
  end.
Definition marshalSliceOfProtos (opts : JSONOptions) (items : list (option M)) : ended goerror string :=
  match items with
  | [] => Ret "[]"%string
  | _ =>
      match marshal_items opts items "[" with
      | Ret b => Ret (b +:+ "]")
      | r => r
      end
  end.

Definition of_sum {A} (r : A + goerror) : ended goerror A := match r with inl a => Ret a | inr e => Err e end.

(** [Marshaler.Marshal]. *)
Definition Marshal (opts : MarshalingOptions) (input : anyval M O) : ended goerror string :=
  if mo_EnableProtoJSON opts then
    match input with
    | AMsg m => of_sum (proto_Marshal (mo_JSONOptions opts) m)
    | _ =>
        match isSliceOfProtoMessage input with
        | None => Panicking
        | Some true => match input with ASeq items => marshalSliceOfProtos (mo_JSONOptions opts) items | _ => Panicking end
        | Some false => of_sum (json_Marshal input)
        end
    end
  else of_sum (json_Marshal input).

(** [Marshaler.MarshalToInterface]. *)
Definition MarshalToInterface (opts : MarshalingOptions) (input : anyval M O) : ended goerror J :=
  match Marshal opts input with
  | Ret out => of_sum (json_Unmarshal out)
  | Err err => Err err
  | Panicking => Panicking
  end.
Definition MarshalDefault : anyval M O -> ended goerror string := Marshal DefaultMarshalingOptions.
Definition MarshalToInterfaceDefault : anyval M O -> ended goerror J := MarshalToInterface DefaultMarshalingOptions.

(** [createToProtoJSON]: an error is logged and the result is nil; a panic is
    left to the template engine. *)
Definition createToProtoJSON (opts : MarshalingOptions) (input : anyval M O) : option (option J) :=
  match MarshalToInterface opts input with
  | Ret out => Some (Some out)
  | Err _ => Some None
  | Panicking => None
  end.
End Protojson.

(** ** Errors and data: [web/api.go], [web/error.go] *)

Section Api.
Context {M O : Type}.
(** How an error becomes a status ([errors.As] of an ErrorResponse) and a text. *)
Context (error_status : goerror -> option Z) (error_text : goerror -> string).
(** The JSON of an error's text with data, and the text of that map when it has
    no JSON. *)
Context (error_json : string -> anyval M O -> string + goerror) (fallback_text : goerror -> anyval M O -> string).
Context (marshal : MarshalingOptions -> anyval M O -> ended goerror string).

(** [HandleError], for an error that may be nil. *)
Definition newline : string := String (ascii_of_nat 10) EmptyString.
Definition handleError (err : option goerror) (context : list string) : httpM bool :=
  match err with
  | None => mret false
  | Some err =>
      _ ← write_header (default 500 (error_status err));
      _ ← write_body (foldr (fun x b => x +:+ newline +:+ b) (error_text err +:+ newline) context);
      mret true
  end.

Definition handleAPIError (err : option goerror) (extra : anyval M O) : httpM bool :=
  match err with
  | None => mret false
  | Some err =>
      match error_json (error_text err) extra with
      | inr _ =>
          _ ← write_header 500;
          _ ← write_body (fallback_text err extra);
          mret true
      | inl js =>
          _ ← set_header contentType "application/json";
          _ ← write_header (default 500 (error_status err));
          _ ← write_body js;
          mret true
      end
  end.

(** [APIMiddleware.ServeHTTP]. *)
Definition api_body (opts : MarshalingOptions) (h : handler (anyval M O * option goerror)) : httpM unit :=
  '(d, err) ← serve h;
  handled ← handleAPIError err d;
  if handled : bool then mret tt
  else
    match d with
    | ANil => mret tt
    | _ =>
        js ← (fun w => match marshal opts d with
                       | Ret js => (w, Ret (inl js))
                       | Err err => (w, Ret (inr err))
                       | Panicking => (w, Panicking)
                       end);
        match js with
        | inr err => _ ← handleAPIError (Some err) ANil; mret tt
        | inl js => _ ← set_header contentType "application/json"; write_body js
        end
    end.
Definition api_ServeHTTP (opts : MarshalingOptions) (h : handler (anyval M O * option goerror)) : httpM unit :=
  recovering (api_body opts h).
End Api.

(** ** Templates: [web/templates.go] *)

(** [fixFiles] leaves the files of editors out. *)
Definition fixFiles (Join : string -> string -> string) (files : list string) (root : string) : list string :=
  (fun x => Join root x) <$> filter (fun x => str_mem "#" x || str_mem "~" x = false) files.

(** A set of templates by name; one that exists without a content is [None].
    A new set has its own, empty template. *)
Abbreviation templateSet T := (gmap string (option T)).
Definition baseTemplate {T} : templateSet T := {["app"%string := None]}.

Definition lookupTemplate {T} (main : templateSet T) (name : string) : option T + goerror :=
  match main !! name with
  | None => inr (ENew ("cannot find template " +:+ name))
  | Some t => inl t
  end.

Section Templates.
Context {T : Type}.
(** The directory, the files and their paths; [parse_text] is what parsing a
    text under a name defines, in order, the template of the name included. *)
Context (ReadDir : string -> list string + goerror) (ReadFile : string -> string + goerror).
Context (Glob : string -> list string + goerror) (Join : string -> string -> string) (Base : string -> string).
Context (parse_text : string -> string -> list (string * T) + goerror) (is_empty : T -> bool).

(** What a parsed template does to the set: one with a content is not replaced
    by one without. *)
Definition add_template (ts : templateSet T) (p : string * T) : templateSet T :=
  match ts !! p.1 with
  | Some (Some _) => if is_empty p.2 then ts else <[p.1 := Some p.2]> ts
  | _ => <[p.1 := Some p.2]> ts
  end.

(** [template.ParseFiles]: a template per file under its base name, which
    replaces one of that name. *)
Fixpoint parse_files (ts : templateSet T) (filenames : list string) : templateSet T + goerror :=
  match filenames with
  | [] => inl ts
  | filename :: rest =>
      match ReadFile filename with
      | inr err => inr err
      | inl text =>
          match parse_text (Base filename) text with
          | inr err => inr err
          | inl defs => parse_files (foldl add_template (<[Base filename := None]> ts) defs) rest
          end
      end
  end.
Definition ParseFiles (ts : templateSet T) (filenames : list string) : templateSet T + goerror :=
  match filenames with
  | [] => inr (ENew "html/template: no files named in call to ParseFiles")
  | _ => parse_files ts filenames
  end.

(** [template.ParseFS] takes patterns, each of which has to match. *)
Fixpoint glob_all (patterns : list string) : list string + goerror :=
  match patterns with
  | [] => inl []
  | pattern :: rest =>
      match Glob pattern with
      | inr err => inr err
      | inl [] => inr (ENew ("template: pattern matches no files: " +:+ pattern))
      | inl l => match glob_all rest with inl ls => inl (l ++ ls) | inr err => inr err end
      end
  end.
Definition ParseFS (ts : templateSet T) (patterns : list string) : templateSet T + goerror :=
  match glob_all patterns with
  | inr err => inr err
  | inl files => ParseFiles ts files
  end.

(** [TemplateManager] and its two implementations: [embedTM] parses once,
    [fsTM] for every lookup. *)
Record TemplateManager := mkTemplateManager { LookupTemplate : string -> option T + goerror }.

Definition NewTemplateManagerEmbedWithOptions (srcDir : string) : TemplateManager + goerror :=
  match ReadDir srcDir with
  | inr err => inr err
  | inl files =>
      match ParseFS baseTemplate (fixFiles Join files srcDir) with
      | inr err => inr (EWrap "error initializing templates from embedded filesystem" err)
      | inl ts => inl (mkTemplateManager (lookupTemplate ts))
      end
  end.
Definition fsTM_LookupTemplate (srcDir : string) (name : string) : option T + goerror :=
  match ReadDir srcDir with
  | inr err => inr err
  | inl files =>
      match ParseFiles baseTemplate (fixFiles Join files srcDir) with
      | inr err => inr err
      | inl main => lookupTemplate main name
      end
  end.
Definition NewTemplateManagerFSWithOptions (srcDir : string) : TemplateManager + goerror :=
  inl (mkTemplateManager (fsTM_LookupTemplate srcDir)).

(** [Template]: [tp_direct] is nil for a named one. *)
Record Template := mkTemplate { tp_named : string; tp_direct : option (option T) }.
Definition NamedTemplate (called : string) : Template := mkTemplate called None.
Definition DirectTemplate (t : option T) : Template := mkTemplate EmptyString (Some t).

(** [responseWriterCapturer]: the status that the handler has written through
    it, 0 before. *)
Definition capture_call (c : writerCall) : prog (responseWriter * Z) Empty_set unit := fun '(w, statusCode) =>
  let statusCode' := match c with CallWriteHeader code => code | _ => statusCode end in
  let '(w', r) := writer_call c w in ((w', statusCode'), r).

(** The data a template is executed with, what that writes, and its error. *)
Context {D : Type} (Execute : option T -> D -> list string * option goerror).
Context (error_status : goerror -> option Z) (error_text : goerror -> string).

Definition execute (t : option T) (d : D) : httpM (option goerror) :=
  _ ← for_each write_body (Execute t d).1;
  mret (Execute t d).2.

(** [TemplateMiddleware.ServeHTTP]; a handler may return a nil template. *)
Definition template_body (tm : TemplateManager) (h : handler (option Template * D * option goerror)) : httpM unit := fun w =>
  let '((w1, statusCode), r) := for_each capture_call (hd_calls h) (w, 0) in
  match r with
  | Ret _ =>
      match hd_end h with
      | None => (w1, Panicking)
      | Some (t, d, err) =>
          (handled ← handleError error_status error_text err [];
           if handled : bool then mret tt
           else if negb (statusCode =? 0) then mret tt
           else
             match t with
             | None => panics
             | Some t =>
                 gt ← match tp_direct t with
                      | Some gt => mret (Some gt)
                      | None =>
                          match LookupTemplate tm (tp_named t) with
                          | inl gt => mret (Some gt)
                          | inr err => _ ← handleError error_status error_text (Some err) []; mret None
                          end
                      end;
                 match gt with
                 | None => mret tt
                 | Some gt =>
                     err ← execute gt d;
                     _ ← handleError error_status error_text err [];
                     mret tt
                 end
             end) w1
      end
  | Err e => (w1, Err e)
  | Panicking => (w1, Panicking)
  end.
Definition template_ServeHTTP (tm : TemplateManager) (h : handler (option Template * D * option goerror)) : httpM unit :=
  recovering (template_body tm h).
End Templates.

(** ** What a response keeps *)

(** A call keeps the status line that is sent and what was written. *)
Definition keeps (w w' : responseWriter) : Prop :=
  (forall s, rw_sent w = Some s -> rw_sent w' = Some s) /\ exists t, rw_body w' = rw_body w +:+ t.
Definition careful {A} (m : httpM A) : Prop := forall w, keeps w (m w).1.

#[export] Instance keeps_preorder : PreOrder keeps.
Proof.
  split.
  - intros w. split; [done|]. exists EmptyString. by rewrite str_app_nil_r.
  - intros w1 w2 w3 [H1 [t1 Ht1]] [H2 [t2 Ht2]]. split; [auto|]. exists (t1 +:+ t2). by rewrite Ht2, Ht1, str_app_assoc.
Qed.

Lemma careful_ret {A} (a : A) : careful (mret a).
Proof. intros w. cbn. reflexivity. Qed.
Lemma careful_panics {A} : careful (@panics responseWriter Empty_set A).
Proof. intros w. cbn. reflexivity. Qed.
Lemma careful_bind {A B} (m : httpM A) (k : A -> httpM B) : careful m -> (forall a, careful (k a)) -> careful (m ≫= k).
Proof.
  intros Hm Hk w. specialize (Hm w). unfold mbind, prog_bind. destruct (m w) as [w1 [a|e|]]; [|done..].
  etransitivity; [exact Hm|apply Hk].
Qed.
Lemma careful_set_header k v : careful (set_header k v).
Proof. intros w. split; [done|]. exists EmptyString. cbn. by rewrite str_app_nil_r. Qed.
Lemma careful_write_header code : careful (write_header code).
Proof.
  intros w. unfold write_header. destruct (rw_sent w) eqn:Hs; [reflexivity|].
  repeat case_match; cbn; split; cbn; try congruence; exists EmptyString; by rewrite str_app_nil_r.
Qed.
Lemma careful_write_body text : careful (write_body text).
Proof.
  apply careful_bind; [apply careful_write_header|]. intros _ w. cbn. destruct (rw_sent w) as [[code h]|] eqn:Hs; [|reflexivity].
  destruct (body_allowed code); [|reflexivity]. split; cbn; [by intros s [= <-]|eauto].
Qed.
#[export] Hint Resolve careful_ret careful_panics careful_set_header careful_write_header careful_write_body : goutils.
Ltac careful := repeat first [progress eauto with goutils | apply careful_bind; [|intros ?] | case_match].

Lemma careful_for_each {X} (f : X -> httpM unit) xs : (forall x, careful (f x)) -> careful (for_each f xs).
Proof. intros Hf. induction xs as [|x xs IH]; cbn [for_each]; careful. Qed.
Lemma careful_writer_call c : careful (writer_call c).
Proof. destruct c; cbn; careful. Qed.
Lemma careful_serve {A} (h : handler A) : careful (serve h).
Proof. unfold serve. apply careful_bind; [apply careful_for_each, careful_writer_call|intros _]. careful. Qed.
Lemma careful_Recover : careful Recover.
Proof. unfold Recover. careful. Qed.
#[export] Hint Resolve careful_serve careful_Recover careful_writer_call : goutils.

(** Recover cannot panic itself, so a recovered program does not. *)
Lemma write_header_ok code w : 200 <= code <= 999 -> (write_header code w).2 = Ret tt.
Proof.
  intros H. unfold write_header. destruct (rw_sent w); [done|].
  replace ((code <? 100) || (999 <? code)) with false by (symmetry; apply orb_false_iff; split; apply Z.ltb_ge; lia).
  by destruct (informational code).
Qed.
Lemma write_body_ok text w : (write_body text w).2 = Ret tt.
Proof.
  unfold write_body, mbind, prog_bind. pose proof (write_header_ok 200 w ltac:(lia)) as H.
  destruct (write_header 200 w) as [w1 r]. cbn in H. by subst r.
Qed.
Lemma Recover_ok w : (Recover w).2 = Ret tt.
Proof.
  unfold Recover. unfold mbind at 1, prog_bind at 1. cbn [set_header modify].
  unfold mbind, prog_bind. match goal with |- context [write_header 500 ?x] => pose proof (write_header_ok 500 x ltac:(lia)) as H; destruct (write_header 500 x) as [w1 r] end.
  cbn in H. subst r. apply write_body_ok.
Qed.
Lemma recovering_ok (m : httpM unit) w : careful m -> exists w', recovering m w = (w', Ret tt) /\ keeps w w'.
Proof.
  intros Hm. specialize (Hm w). unfold recovering. destruct (m w) as [w1 [[]|[]|]]; cbn in Hm; [by exists w1|].
  pose proof (Recover_ok w1) as H. pose proof (careful_Recover w1) as Hk. destruct (Recover w1) as [w2 r]. cbn in H, Hk.
  subst r. exists w2. split; [done|]. by etransitivity.
Qed.

(** ** The responses of the API *)

Section ApiFacts.
Context {M O : Type} (error_status : goerror -> option Z) (error_text : goerror -> string).
Context (error_json : string -> anyval M O -> string + goerror) (fallback_text : goerror -> anyval M O -> string).
Context (marshal : MarshalingOptions -> anyval M O -> ended goerror string).
Abbreviation run_api := (api_ServeHTTP error_status error_text error_json fallback_text marshal).

Lemma careful_handleError err context : careful (handleError error_status error_text err context).
Proof. unfold handleError. careful. Qed.
Lemma careful_handleAPIError err extra : careful (handleAPIError error_status error_text error_json fallback_text err extra).
Proof. unfold handleAPIError. careful. Qed.
#[local] Hint Resolve careful_handleAPIError : goutils.
Lemma careful_api_body opts h : careful (api_body error_status error_text error_json fallback_text marshal opts h).
Proof.
  unfold api_body. apply careful_bind; [careful|]. intros [d err]. apply careful_bind; [careful|]. intros [].
  { careful. }
  destruct d; [careful|..]; (apply careful_bind; [intros w; destruct (marshal _ _); reflexivity|intros [?|?]; careful]).
Qed.

(** Answers. [answer code h text] is the response with a status that an error
    asks for: one that is impossible is a panic, an informational one is not a
    status at all. *)
Definition answer_panic (h : gmap string string) : Z * gmap string string * string :=
  ((500, <[contentType := "text/plain"%string]> h), "internal server error"%string).
Definition answer (code : Z) (h : gmap string string) (text : string) : Z * gmap string string * string :=
  if (code <? 100) || (999 <? code) then answer_panic h
  else if informational code then ((200, h), text)
  else ((code, h), if body_allowed code then text else EmptyString).
Definition json_header (h : gmap string string) : gmap string string := <[contentType := "application/json"%string]> h.

(** The reference: the response to a handler that leaves the headers [h] and has
    sent nothing. *)
Definition answer_error (h : gmap string string) (err : goerror) (extra : anyval M O) : Z * gmap string string * string :=
  match error_json (error_text err) extra with
  | inl js => answer (default 500 (error_status err)) (json_header h) js
  | inr _ => ((500, h), fallback_text err extra)
  end.
Definition api_answer (opts : MarshalingOptions) (h : gmap string string) (r : option (anyval M O * option goerror))
    : Z * gmap string string * string :=
  match r with
  | None => answer_panic h
  | Some (d, Some err) => answer_error h err d
  | Some (ANil, None) => ((200, h), EmptyString)
  | Some (d, None) =>
      match marshal opts d with
      | Ret js => ((200, json_header h), js)
      | Err err => answer_error h err ANil
      | Panicking => answer_panic h
      end
  end.

Abbreviation unsent h := (mkWriter h None EmptyString).

Lemma Recover_unsent h : response (Recover (unsent h)).1 = answer_panic h.
Proof. done. Qed.
Lemma write_header_unsent code h :
  write_header code (unsent h) =
  if (code <? 100) || (999 <? code) then (unsent h, Panicking)
  else if informational code then (unsent h, Ret tt) else (mkWriter h (Some (code, h)) EmptyString, Ret tt).
Proof. done. Qed.
Lemma write_body_unsent text h : write_body text (unsent h) = (mkWriter h (Some (200, h)) text, Ret tt).
Proof. done. Qed.

(** A status with a text, then whatever changes nothing. *)
Lemma status_and_text {A} code text h (a : A) (k : A -> httpM unit) :
  (forall w, k a w = (w, Ret tt)) ->
  response (recovering (_ ← write_header code; _ ← write_body text; k a) (unsent h)).1 = answer code h text.
Proof.
  intros Hk. unfold recovering, answer. unfold mbind at 1, prog_bind at 1. rewrite write_header_unsent.
  destruct ((code <? 100) || (999 <? code)) eqn:Hc; [apply Recover_unsent|].
  destruct (informational code) eqn:Hi.
  - unfold mbind, prog_bind. rewrite write_body_unsent, Hk. done.
  - unfold mbind, prog_bind. unfold write_body, mbind, prog_bind. cbn [write_header rw_sent modify rw_header rw_body].
    rewrite Hk. by destruct (body_allowed code).
Qed.

(** Recovering what continues after a step that does not panic. *)
Lemma recovering_bind {A} (m : httpM A) (k : A -> httpM unit) w w1 a :
  m w = (w1, Ret a) -> recovering (m ≫= k) w = recovering (k a) w1.
Proof. intros Hm. unfold recovering, mbind, prog_bind. by rewrite Hm. Qed.
Lemma recovering_panic {A} (m : httpM A) (k : A -> httpM unit) w w1 :
  m w = (w1, Panicking) -> recovering (m ≫= k) w = Recover w1.
Proof. intros Hm. unfold recovering, mbind, prog_bind. by rewrite Hm. Qed.

Lemma recovering_ext (m m' : httpM unit) w : m w = m' w -> recovering m w = recovering m' w.
Proof. intros H. unfold recovering. by rewrite H. Qed.
Lemma bind_assoc {A B C} (m : httpM A) (f : A -> httpM B) (g : B -> httpM C) w :
  ((m ≫= f) ≫= g) w = (m ≫= fun a => f a ≫= g) w.
Proof. unfold mbind, prog_bind. by destruct (m w) as [w1 [a|[]|]]. Qed.

Lemma bind_ext {A B} (m : httpM A) (f g : A -> httpM B) w : (forall a w', f a w' = g a w') -> (m ≫= f) w = (m ≫= g) w.
Proof. intros H. unfold mbind, prog_bind. by destruct (m w) as [w1 [a|[]|]]. Qed.

Lemma api_error_answer err extra h (k : bool -> httpM unit) :
  (forall w, k true w = (w, Ret tt)) ->
  response (recovering (handleAPIError error_status error_text error_json fallback_text (Some err) extra ≫= k) (unsent h)).1 =
  answer_error h err extra.
Proof.
  intros Hk. unfold answer_error, handleAPIError. destruct (error_json (error_text err) extra) as [js|e].
  - rewrite (recovering_ext _ (_ ← set_header contentType "application/json"; _ ← write_header (default 500 (error_status err)); _ ← write_body js; k true)).
    + rewrite (recovering_bind _ _ _ (unsent (json_header h)) tt) by done. by rewrite (status_and_text _ _ _ true k).
    + by do 3 (rewrite bind_assoc; apply bind_ext; intros ? ?).
  - rewrite (recovering_ext _ (_ ← write_header 500; _ ← write_body (fallback_text err extra); k true)).
    + by rewrite (status_and_text _ _ _ true k).
    + by do 2 (rewrite bind_assoc; apply bind_ext; intros ? ?).
Qed.

(** What a handler has written is nothing as long as no status is sent. *)
Definition unsent_empty (w : responseWriter) : Prop := rw_sent w = None -> rw_body w = EmptyString.
Lemma writer_call_unsent c w : unsent_empty w -> unsent_empty (writer_call c w).1.
Proof.
  unfold unsent_empty. intros Hw. destruct c as [k v|code|text]; cbn [writer_call]; [done|..].
  - unfold write_header. destruct (rw_sent w) eqn:Hs; [cbn; congruence|]. repeat case_match; cbn; auto.
  - unfold write_body, mbind, prog_bind, write_header. destruct (rw_sent w) as [[code h]|] eqn:Hs; cbn; rewrite ?Hs; [|done].
    destruct (body_allowed code); cbn; congruence.
Qed.
Lemma calls_unsent calls w : unsent_empty w -> unsent_empty (for_each writer_call calls w).1.
Proof.
  revert w. induction calls as [|c calls IH]; intros w Hw; cbn [for_each]; [done|].
  pose proof (writer_call_unsent c w Hw) as Hc. unfold mbind, prog_bind. destruct (writer_call c w) as [w1 [[]|[]|]]; [by apply IH|done].
Qed.

Lemma recovering_keeps {A} (m : httpM A) (k : A -> httpM unit) w : (forall a, careful (k a)) ->
  exists w', recovering (m ≫= k) w = (w', Ret tt) /\ keeps (m w).1 w'.
Proof.
  intros Hk. destruct (m w) as [w1 [a|[]|]] eqn:Hm.
  - rewrite (recovering_bind _ _ _ _ _ Hm). by apply recovering_ok.
  - rewrite (recovering_panic _ _ _ _ Hm). pose proof (Recover_ok w1). pose proof (careful_Recover w1).
    destruct (Recover w1) as [w2 r]. cbn in *. subst r. by exists w2.
Qed.

(** The API middleware always returns, whatever the handler and its error do,
    and keeps the status and the text that the handler has sent. *)
Theorem api_keeps_answer opts h w :
  exists w', run_api opts h w = (w', Ret tt) /\ keeps (for_each writer_call (hd_calls h) w).1 w'.
Proof.
  unfold api_ServeHTTP, api_body, serve. erewrite recovering_ext by apply bind_assoc.
  apply recovering_keeps. intros _. apply careful_bind; [careful|]. intros [d err]. apply careful_bind; [careful|].
  intros []; [careful|]. destruct d; [careful|..]; (apply careful_bind; [intros w1; destruct (marshal _ _); reflexivity|intros [?|?]; careful]).
Qed.

Lemma api_answers_end opts r h :
  response (recovering
    ('(d, err) ← (match r with Some a => mret a | None => panics end : httpM _);
     handled ← handleAPIError error_status error_text error_json fallback_text err d;
     if handled : bool then mret tt
     else match d with
          | ANil => mret tt
          | _ =>
              js ← (fun w => match marshal opts d with
                             | Ret js => (w, Ret (inl js))
                             | Err err => (w, Ret (inr err))
                             | Panicking => (w, Panicking)
                             end);
              match js with
              | inr err => _ ← handleAPIError error_status error_text error_json fallback_text (Some err) ANil; mret tt
              | inl js => _ ← set_header contentType "application/json"; write_body js
              end
          end) (unsent h)).1 = api_answer opts h r.
Proof.
  destruct r as [[d [err|]]|]; [| |done].
  - rewrite (recovering_bind _ _ _ (unsent h) (d, Some err)) by done. rewrite (api_error_answer err d h) by done. by destruct d.
  - rewrite (recovering_bind _ _ _ (unsent h) (d, None)) by done. rewrite (recovering_bind _ _ _ (unsent h) false) by done.
    destruct d; [done|..]; cbn [api_answer];
      (destruct (marshal opts _) as [js|err|] eqn:Hm;
       [ rewrite (recovering_bind _ _ _ (unsent h) (inl js)) by done; done
       | rewrite (recovering_bind _ _ _ (unsent h) (inr err)) by done; by apply (api_error_answer err ANil h)
       | erewrite recovering_panic by done; apply Recover_unsent ]).
Qed.

(** C34: The response to a handler that has not sent anything itself is that of the
    reference: the JSON of the data or of the error under the error's status,
    and a plain 500 after a panic. *)
Theorem api_answers opts hd w1 r :
  for_each writer_call (hd_calls hd) newWriter = (w1, r) -> rw_sent w1 = None ->
  response (run_api opts hd newWriter).1 =
  api_answer opts (rw_header w1) (match r with Ret _ => hd_end hd | _ => None end).
Proof.
  intros Hc Hs. pose proof (calls_unsent (hd_calls hd) newWriter (fun _ => eq_refl)) as Hu. rewrite Hc in Hu. specialize (Hu Hs).
  destruct w1 as [h s b]. cbn in *. subst s b. unfold api_ServeHTTP, api_body, serve.
  erewrite recovering_ext by apply bind_assoc. destruct r as [[]|[]|].
  - erewrite recovering_bind by exact Hc. apply api_answers_end.
  - erewrite recovering_panic by exact Hc. apply Recover_unsent.
Qed.

(** An error whose status is informational is answered with 200. *)
Theorem informational_error_is_ok opts hd err extra code js :
  hd_calls hd = [] -> hd_end hd = Some (extra, Some err) -> error_status err = Some code -> informational code = true ->
  error_json (error_text err) extra = inl js ->
  response (run_api opts hd newWriter).1 = ((200, json_header ∅), js).
Proof.
  intros Hc He Hs Hi Hj. unfold api_ServeHTTP, api_body, serve. rewrite Hc, He.
  erewrite recovering_ext by apply bind_assoc. rewrite (recovering_bind _ _ _ newWriter tt) by done.
  transitivity (api_answer opts ∅ (Some (extra, Some err))); [exact (api_answers_end opts (Some (extra, Some err)) ∅)|].
  unfold api_answer, answer_error. rewrite Hj, Hs. cbn [default from_option id]. unfold answer.
  rewrite Hi. unfold informational in Hi. destruct ((code <? 100) || (999 <? code)) eqn:Hr; [|by destruct extra].
  apply andb_true_iff in Hi as [Hi _]. apply andb_true_iff in Hi as [H1%Z.leb_le H2%Z.leb_le].
  apply orb_true_iff in Hr as [?%Z.ltb_lt|?%Z.ltb_lt]; lia.
Qed.
End ApiFacts.

(** ** Slices of messages *)

Section ProtojsonFacts.
Context {M O J : Type} (proto_Marshal : JSONOptions -> M -> string + goerror).
Context (json_Marshal : anyval M O -> string + goerror) (json_Unmarshal : string -> J + goerror).
Definition marshals (opts : JSONOptions) : list M -> list string -> Prop :=
  Forall2 (fun m js => proto_Marshal opts m = inl js).

Lemma marshal_items_all opts ms jss b :
  marshals opts ms jss -> marshal_items proto_Marshal opts (Some <$> ms) b = Ret (b +:+ String.concat "," jss).
Proof.
  intros Hm. revert b. induction Hm as [|m js ms jss Hj Hm IH]; intros b; cbn [fmap list_fmap marshal_items String.concat].
  - by rewrite str_app_nil_r.
  - rewrite Hj, IH. destruct Hm as [|m' js' ms jss]; cbn [fmap list_fmap].
    + cbn [String.concat]. by rewrite !str_app_nil_r.
    + by rewrite <-!str_app_assoc.
Qed.
Lemma marshal_items_stops opts ms jss x rest b :
  marshals opts ms jss ->
  marshal_items proto_Marshal opts ((Some <$> ms) ++ x :: rest) b =
  match x with
  | None => Panicking
  | Some m =>
      match proto_Marshal opts m with
      | inr err => Err err
      | inl js => marshal_items proto_Marshal opts rest
                    (b +:+ String.concat EmptyString ((fun j => j +:+ ",") <$> jss) +:+ js +:+ match rest with [] => EmptyString | _ => ","%string end)
      end
  end.
Proof.
  intros Hm. revert b. induction Hm as [|m js ms jss Hj Hm IH]; intros b; cbn [fmap list_fmap marshal_items app String.concat].
  - destruct x as [m|]; [|done]. by destruct (proto_Marshal opts m).
  - rewrite Hj. replace (match (Some <$> ms) ++ x :: rest with [] => EmptyString | _ => ","%string end) with ","%string by (by destruct ms).
    rewrite IH. destruct x as [m'|]; [|done]. destruct (proto_Marshal opts m'); [|done]. f_equal.
    destruct jss; cbn [fmap list_fmap String.concat]; by rewrite <-!str_app_assoc.
Qed.

(** With protobuf JSON enabled, a slice of messages becomes the array of their
    JSON; the first message that fails gives its error and the first nil element
    panics; nil itself has no kind and panics. Without it everything is left to
    encoding/json. *)
Theorem slices_become_arrays opts ms jss : marshals opts ms jss ->
  let enabled := mkMarshalingOptions true opts in
  Marshal proto_Marshal json_Marshal enabled (ASeq (Some <$> ms)) = Ret ("[" +:+ String.concat "," jss +:+ "]") /\
  (forall m err rest, proto_Marshal opts m = inr err ->
     Marshal proto_Marshal json_Marshal enabled (ASeq ((Some <$> ms) ++ Some m :: rest)) = Err err) /\
  (forall rest, Marshal proto_Marshal json_Marshal enabled (ASeq ((Some <$> ms) ++ None :: rest)) = Panicking) /\
  Marshal proto_Marshal json_Marshal enabled ANil = Panicking /\
  (forall v, Marshal proto_Marshal json_Marshal (mkMarshalingOptions false opts) v = of_sum (json_Marshal v)).
Proof.
  intros Hm enabled. unfold Marshal, enabled. cbn [mo_EnableProtoJSON mo_JSONOptions isSliceOfProtoMessage].
  assert (Hne : forall x rest, marshalSliceOfProtos proto_Marshal opts ((Some <$> ms) ++ x :: rest) =
                 match marshal_items proto_Marshal opts ((Some <$> ms) ++ x :: rest) "[" with Ret b => Ret (b +:+ "]") | r => r end)
    by (by destruct ms).
  split_and!; [|intros m err rest He|intros rest|done|done].
  - unfold marshalSliceOfProtos. rewrite (marshal_items_all _ _ _ _ Hm). destruct Hm; [done|]. cbn [fmap list_fmap]. by rewrite str_app_assoc.
  - by rewrite Hne, (marshal_items_stops _ _ _ _ _ _ Hm), He.
  - by rewrite Hne, (marshal_items_stops _ _ _ _ _ _ Hm).
Qed.
End ProtojsonFacts.

(** ** Pages *)

Section TemplateFacts.
Context {T D : Type} (Execute : option T -> D -> list string * option goerror).
Context (error_status : goerror -> option Z) (error_text : goerror -> string).
Abbreviation run := (template_ServeHTTP Execute error_status error_text).

(** The capturing writer only listens. *)
Lemma capture_is_writer calls w statusCode :
  exists c', for_each capture_call calls (w, statusCode) = let '(w', r) := for_each writer_call calls w in ((w', c'), r) .
Proof.
  revert w statusCode. induction calls as [|c calls IH]; intros w statusCode; cbn [for_each]; [by eexists|].
  unfold mbind, prog_bind. cbn [capture_call]. destruct (writer_call c w) as [w1 [[]|[]|]]; [|by eexists].
  destruct (IH w1 (match c with CallWriteHeader code => code | _ => statusCode end)) as [c' Hc]. exists c'. exact Hc.
Qed.
Lemma capture_silent calls w :
  (forall code, CallWriteHeader code ∉ calls) ->
  for_each capture_call calls (w, 0) = let '(w', r) := for_each writer_call calls w in ((w', 0), r).
Proof.
  revert w. induction calls as [|c calls IH]; intros w Hs; cbn [for_each]; [done|].
  unfold mbind, prog_bind. cbn [capture_call].
  replace (match c with CallWriteHeader code => code | _ => 0 end) with 0
    by (destruct c as [| code|]; [done| |done]; exfalso; apply (Hs code); by left).
  destruct (writer_call c w) as [w1 [[]|[]|]]; [|done]. apply IH. intros code Hc. apply (Hs code). by right.
Qed.
Lemma capture_last calls code w w1 :
  for_each writer_call (calls ++ [CallWriteHeader code]) w = (w1, Ret tt) ->
  for_each capture_call (calls ++ [CallWriteHeader code]) (w, 0) = ((w1, code), Ret tt).
Proof.
  generalize 0. revert w. induction calls as [|c calls IH]; intros w z; cbn [app for_each].
  - unfold mbind, prog_bind. cbn [capture_call writer_call]. destruct (write_header code w) as [w2 [[]|[]|]]; [|done..]. by intros [= ->].
  - unfold mbind, prog_bind. cbn [capture_call]. destruct (writer_call c w) as [w2 [[]|[]|]]; [|done..]. apply IH.
Qed.

Lemma careful_execute t d : careful (execute Execute t d).
Proof. unfold execute. apply careful_bind; [apply careful_for_each; careful|]. careful. Qed.

(** Also the template middleware always returns and keeps what the handler has
    sent. *)
Theorem template_keeps_answer tm h w :
  exists w', run tm h w = (w', Ret tt) /\ keeps (for_each writer_call (hd_calls h) w).1 w'.
Proof.
  assert (Hrec : forall w1, exists w', recovering panics w1 = (w', Ret tt) /\ keeps w1 w').
  { intros w1. apply (recovering_ok panics w1). careful. }
  unfold template_ServeHTTP. destruct (capture_is_writer (hd_calls h) w 0) as [c' Hc].
  destruct (for_each writer_call (hd_calls h) w) as [w1 r] eqn:Hw. cbn [fst].
  match goal with |- context [recovering ?m w] => assert (Hm : exists m', careful m' /\ recovering m w = recovering m' w1) end.
  2: { destruct Hm as (m' & Hm & ->). by apply recovering_ok. }
  unfold recovering, template_body. rewrite Hc. destruct r as [[]|[]|]; [|by exists panics; split; [careful|]].
  destruct (hd_end h) as [[[t d] err]|]; [|by exists panics; split; [careful|]].
  eexists. split; [|reflexivity]. apply careful_bind; [apply careful_handleError|]. intros []; [careful|].
  destruct (negb (c' =? 0)); [careful|]. destruct t as [t|]; [|careful]. apply careful_bind.
  - destruct (tp_direct t); [careful|]. destruct (LookupTemplate tm (tp_named t)); [careful|].
    apply careful_bind; [apply careful_handleError|careful].
  - intros [gt|]; [|careful]. apply careful_bind; [apply careful_execute|]. intros e. apply careful_bind; [apply careful_handleError|careful].
Qed.

Definition error_page (h : gmap string string) (err : goerror) : Z * gmap string string * string :=
  answer (default 500 (error_status err)) h (error_text err +:+ newline).
Definition found_template (tm : TemplateManager (T:=T)) (t : Template) : option T + goerror :=
  match tp_direct t with Some gt => inl gt | None => LookupTemplate tm (tp_named t) end.

(** The reference for a handler that has sent nothing and leaves the headers
    [h]. *)
Definition page (tm : TemplateManager) (h : gmap string string) (t : Template) (d : D) (err : option goerror)
    : Z * gmap string string * string :=
  match err with
  | Some err => error_page h err
  | None =>
      match found_template tm t with
      | inr err => error_page h err
      | inl gt =>
          match Execute gt d with
          | (chunks, None) => ((200, h), String.concat EmptyString chunks)
          | ([], Some err) => error_page h err
          | (chunks, Some err) => ((200, h), String.concat EmptyString chunks +:+ error_text err +:+ newline)
          end
      end
  end.

Lemma write_body_sent text h h' b : write_body text (mkWriter h (Some (200, h')) b) = (mkWriter h (Some (200, h')) (b +:+ text), Ret tt).
Proof. done. Qed.
Lemma concat_cons c cs : String.concat EmptyString (c :: cs) = c +:+ String.concat EmptyString cs.
Proof. destruct cs; [by rewrite str_app_nil_r|done]. Qed.
Lemma write_chunks chunks h h' b :
  for_each write_body chunks (mkWriter h (Some (200, h')) b) = (mkWriter h (Some (200, h')) (b +:+ String.concat EmptyString chunks), Ret tt).
Proof.
  revert b. induction chunks as [|c chunks IH]; intros b; cbn [for_each]; [by rewrite str_app_nil_r|].
  unfold mbind, prog_bind. rewrite write_body_sent, IH. by rewrite <-str_app_assoc, <-concat_cons.
Qed.
Lemma page_error err h (k : bool -> httpM unit) : (forall w, k true w = (w, Ret tt)) ->
  response (recovering (handleError error_status error_text (Some err) [] ≫= k) (mkWriter h None EmptyString)).1 = error_page h err.
Proof.
  intros Hk. unfold error_page. rewrite <-(status_and_text _ _ h true k Hk). do 2 f_equal. apply recovering_ext.
  unfold handleError. by do 2 (rewrite bind_assoc; apply bind_ext; intros ? ?).
Qed.
Lemma page_error_sent err h h' b :
  handleError error_status error_text (Some err) [] (mkWriter h (Some (200, h')) b) =
  (mkWriter h (Some (200, h')) (b +:+ error_text err +:+ newline), Ret true).
Proof. done. Qed.

(** What executing a template and reporting its error gives. *)
Definition rest_of_page (gt : option T) (d : D) : httpM unit :=
  err ← execute Execute gt d;
  _ ← handleError error_status error_text err [];
  mret tt.
Lemma rest_of_page_sent gt d h h' b :
  rest_of_page gt d (mkWriter h (Some (200, h')) b) =
  (mkWriter h (Some (200, h')) (b +:+ String.concat EmptyString (Execute gt d).1 +:+
     match (Execute gt d).2 with Some err => error_text err +:+ newline | None => EmptyString end), Ret tt).
Proof.
  unfold rest_of_page, execute, mbind, prog_bind. rewrite write_chunks. cbn [mret prog_ret].
  destruct (Execute gt d).2 as [err|]; [rewrite page_error_sent; by rewrite <-str_app_assoc|]. cbn. by rewrite str_app_nil_r.
Qed.
Lemma rest_of_page_unsent gt d h :
  response (recovering (rest_of_page gt d) (mkWriter h None EmptyString)).1 =
  match Execute gt d with
  | (chunks, None) => ((200, h), String.concat EmptyString chunks)
  | ([], Some err) => error_page h err
  | (chunks, Some err) => ((200, h), String.concat EmptyString chunks +:+ error_text err +:+ newline)
  end.
Proof.
  destruct (Execute gt d) as [[|c chunks] err] eqn:He.
  - unfold rest_of_page. rewrite (recovering_bind _ _ _ (mkWriter h None EmptyString) err) by (unfold execute; by rewrite He).
    destruct err as [err|]; [by apply page_error|done].
  - unfold rest_of_page, execute. rewrite He. cbn [fst snd for_each].
    rewrite (recovering_bind _ _ _ (mkWriter h (Some (200, h)) (String.concat EmptyString (c :: chunks))) err).
    + unfold recovering, mbind, prog_bind. destruct err as [err|]; [rewrite page_error_sent|]; done.
    + unfold mbind, prog_bind. rewrite write_body_unsent, write_chunks. by rewrite concat_cons.
Qed.

Lemma template_end tm h t d err w1 statusCode :
  for_each capture_call (hd_calls h) (newWriter, 0) = ((w1, statusCode), Ret tt) -> hd_end h = Some (Some t, d, err) ->
  run tm h newWriter =
  recovering
    (handled ← handleError error_status error_text err [];
     if handled : bool then mret tt
     else if negb (statusCode =? 0) then mret tt
     else
       gt ← match tp_direct t with
            | Some gt => mret (Some gt)
            | None =>
                match LookupTemplate tm (tp_named t) with
                | inl gt => mret (Some gt)
                | inr err => _ ← handleError error_status error_text (Some err) []; mret None
                end
            end;
       match gt with None => mret tt | Some gt => rest_of_page gt d end) w1.
Proof.
  intros Hc He. unfold template_ServeHTTP, recovering, template_body. rewrite Hc, He. reflexivity.
Qed.

(** A handler that leaves the response to the middleware gets its page: the
    template that it names or brings, executed with its data under status 200,
    or its error, or that of the lookup, under the error's own status. An error
    of the template itself only has a status when nothing was written before. *)
Theorem pages_are_rendered tm h w1 t d err :
  for_each writer_call (hd_calls h) newWriter = (w1, Ret tt) -> (forall code, CallWriteHeader code ∉ hd_calls h) ->
  rw_sent w1 = None -> hd_end h = Some (Some t, d, err) ->
  response (run tm h newWriter).1 = page tm (rw_header w1) t d err.
Proof.
  intros Hc Hs Hu He. pose proof (calls_unsent (hd_calls h) newWriter (fun _ => eq_refl)) as Hb. rewrite Hc in Hb. specialize (Hb Hu).
  destruct w1 as [hd s b]. cbn in *. subst s b. pose proof (capture_silent _ newWriter Hs) as Hcap. rewrite Hc in Hcap.
  rewrite (template_end _ _ _ _ _ _ _ Hcap He). unfold page. destruct err as [err|]; [by apply page_error|].
  rewrite (recovering_bind _ _ _ (mkWriter hd None EmptyString) false) by done. cbn [negb Z.eqb]. unfold found_template.
  destruct (tp_direct t) as [gt|].
  { rewrite (recovering_bind _ _ _ (mkWriter hd None EmptyString) (Some gt)) by done. apply rest_of_page_unsent. }
  destruct (LookupTemplate tm (tp_named t)) as [gt|err].
  { rewrite (recovering_bind _ _ _ (mkWriter hd None EmptyString) (Some gt)) by done. apply rest_of_page_unsent. }
  erewrite recovering_ext by apply bind_assoc. by apply page_error.
Qed.

(** A handler that ends with a status of its own is left alone, unless it
    returns an error. *)
Theorem own_status_is_kept tm h calls code t d w1 :
  hd_calls h = calls ++ [CallWriteHeader code] -> hd_end h = Some (Some t, d, None) -> code <> 0 ->
  for_each writer_call (hd_calls h) newWriter = (w1, Ret tt) ->
  run tm h newWriter = (w1, Ret tt).
Proof.
  intros Hcalls He Hcode Hc. rewrite Hcalls in Hc. pose proof (capture_last _ _ _ _ Hc) as Hcap.
  rewrite <-Hcalls in Hcap. rewrite (template_end _ _ _ _ _ _ _ Hcap He). unfold recovering, mbind, prog_bind. cbn [handleError mret prog_ret].
  by apply Z.eqb_neq in Hcode as ->.
Qed.

(** Only WriteHeader is listened to: a handler that has written its response
    without it gets the page appended. *)
Theorem written_response_gets_page tm h text gt d chunks :
  hd_calls h = [CallWrite text] -> hd_end h = Some (Some (DirectTemplate gt), d, None) -> Execute gt d = (chunks, None) ->
  response (run tm h newWriter).1 = ((200, ∅), text +:+ String.concat EmptyString chunks).
Proof.
  intros Hc He Hx. rewrite (template_end tm h (DirectTemplate gt) d None (mkWriter ∅ (Some (200, ∅)) text) 0) by (by rewrite ?Hc).
  unfold recovering, mbind, prog_bind. cbn [handleError mret prog_ret Z.eqb negb tp_direct DirectTemplate].
  rewrite rest_of_page_sent, Hx. cbn [fst snd]. by rewrite str_app_nil_r.
Qed.
End TemplateFacts.

Section ManagerFacts.
Context {T : Type} (ReadDir : string -> list string + goerror) (ReadFile : string -> string + goerror).
Context (Glob : string -> list string + goerror) (Join : string -> string -> string) (Base : string -> string).
Context (parse_text : string -> string -> list (string * T) + goerror) (is_empty : T -> bool).
Context (srcDir : string) (files : list string).
Hypothesis HReadDir : ReadDir srcDir = inl files.
(** The base name of a file's path is its name. *)
Hypothesis HBase : forall x, x ∈ files -> Base (Join srcDir x) = x.

Definition kept (x : string) : Prop := x ∈ files /\ str_mem "#" x = false /\ str_mem "~" x = false.
Lemma elem_of_fixFiles p : p ∈ fixFiles Join files srcDir <-> exists x, kept x /\ p = Join srcDir x.
Proof.
  unfold fixFiles, kept. rewrite list_elem_of_fmap. split.
  - intros (x & -> & [[H1 H2]%orb_false_iff Hx]%list_elem_of_filter). eauto.
  - intros (x & (Hx & H1 & H2) & ->). exists x. split; [done|]. apply list_elem_of_filter. split; [by apply orb_false_iff|done].
Qed.

(** What a file defines. *)
Definition parsed (p : string) (defs : list (string * T)) : Prop :=
  exists text, ReadFile p = inl text /\ parse_text (Base p) text = inl defs.

Lemma add_templates_dom defs (ts : templateSet T) name :
  is_Some (foldl (add_template is_empty) ts defs !! name) <-> is_Some (ts !! name) \/ name ∈ defs.*1.
Proof.
  revert ts. induction defs as [|[n t] defs IH]; intros ts; cbn [foldl fmap list_fmap fst].
  { rewrite elem_of_nil. tauto. }
  rewrite IH, elem_of_cons. unfold add_template. cbn [fst snd].
  destruct (decide (n = name)) as [->|Hn].
  - split; [by auto|]. intros _. left. destruct (ts !! name) as [[x|]|] eqn:Hts; [destruct (is_empty t)|..]; rewrite ?lookup_insert_eq; eauto.
  - assert (Hi : <[n := Some t]> ts !! name = ts !! name) by (by apply lookup_insert_ne).
    destruct (ts !! n) as [[x|]|]; [destruct (is_empty t)|..]; rewrite ?Hi; split; intros [?|?]; auto; destruct H; auto; congruence.
Qed.

Lemma parse_files_dom paths (ts ts' : templateSet T) name :
  parse_files ReadFile Base parse_text is_empty ts paths = inl ts' ->
  is_Some (ts' !! name) <-> is_Some (ts !! name) \/ exists p defs, p ∈ paths /\ parsed p defs /\ (name = Base p \/ name ∈ defs.*1).
Proof.
  revert ts. induction paths as [|p paths IH]; intros ts; cbn [parse_files].
  { intros [= ->]. split; [auto|]. intros [?|(p & defs & Hp & _)]; [done|]. by apply elem_of_nil in Hp. }
  destruct (ReadFile p) as [text|] eqn:Hr; [|done]. destruct (parse_text (Base p) text) as [defs|] eqn:Hpt; [|done].
  intros H. rewrite (IH _ H), add_templates_dom, lookup_insert_is_Some. split.
  - intros [[[<-|[_ ?]]|?]|(p' & defs' & Hp' & Hd)]; [|by left| |].
    + right. exists p, defs. split; [by left|]. split; [by exists text|by left].
    + right. exists p, defs. split; [by left|]. split; [by exists text|by right].
    + right. exists p', defs'. split; [by right|done].
  - intros [?|(p' & defs' & [->|Hp']%elem_of_cons & (text' & Hr' & Hpt') & Hn)].
    + left. left. destruct (decide (Base p = name)); auto.
    + left. assert (text' = text) as -> by congruence. assert (defs' = defs) as -> by congruence. destruct Hn as [->|?]; auto.
    + right. exists p', defs'. split; [done|]. split; [by exists text'|done].
Qed.

(** Looking a template up by reading the directory: when every file that is not
    an editor's can be read and parsed, exactly the names of these files, what
    they define, and the set's own template are found; one that cannot be parsed
    fails every lookup. *)
Theorem lookup_finds_files :
  (exists x, kept x) ->
  let lookup := fsTM_LookupTemplate ReadDir ReadFile Join Base parse_text is_empty srcDir in
  ((forall x, kept x -> exists defs, parsed (Join srcDir x) defs) ->
   forall name, (exists t, lookup name = inl t) <->
     name = "app"%string \/ kept name \/ exists x defs, kept x /\ parsed (Join srcDir x) defs /\ name ∈ defs.*1) /\
  (forall x, kept x -> (forall defs, ~ parsed (Join srcDir x) defs) -> forall name, exists err, lookup name = inr err).
Proof.
  intros [x0 Hx0] lookup.
  assert (HP : forall ts, ParseFiles ReadFile Base parse_text is_empty ts (fixFiles Join files srcDir) =
                          parse_files ReadFile Base parse_text is_empty ts (fixFiles Join files srcDir)).
  { intros ts. unfold ParseFiles. destruct (fixFiles Join files srcDir) eqn:Hf; [|done].
    assert (Join srcDir x0 ∈ fixFiles Join files srcDir) as Hin by (apply elem_of_fixFiles; eauto). rewrite Hf in Hin. by apply elem_of_nil in Hin. }
  split.
  - intros Hall name. unfold lookup, fsTM_LookupTemplate. rewrite HReadDir, HP.
    assert (Hok : forall ts paths, paths ⊆ fixFiles Join files srcDir -> exists ts', parse_files ReadFile Base parse_text is_empty ts paths = inl ts').
    { intros ts paths. revert ts. induction paths as [|p paths IH]; intros ts Hsub; [by eexists|]. cbn [parse_files].
      destruct (proj1 (elem_of_fixFiles p) (Hsub p (list_elem_of_here _ _))) as (x & Hx & ->).
      destruct (Hall x Hx) as (defs & text & -> & ->). apply IH. intros q Hq. apply Hsub. by right. }
    destruct (Hok baseTemplate _ (reflexivity _)) as [ts' Hts']. rewrite Hts'.
    assert (Hl : (exists t, lookupTemplate ts' name = inl t) <-> is_Some (ts' !! name)).
    { unfold lookupTemplate. destruct (ts' !! name); split; [eauto..|by intros [? ?]|by intros [? ?]]. }
    rewrite Hl, (parse_files_dom _ _ _ name Hts'). unfold baseTemplate. rewrite lookup_singleton_is_Some. split.
    + intros [<-|(p & defs & (x & Hx & ->)%elem_of_fixFiles & Hd & Hn)]; [by left|]. right.
      destruct Hn as [->|Hn]; [left; destruct Hx as [? ?]; by rewrite HBase|right; eauto].
    + intros [->|[Hk|(x & defs & Hk & Hd & Hn)]]; [by left| |].
      * right. destruct (Hall name Hk) as [defs Hd]. exists (Join srcDir name), defs. split; [apply elem_of_fixFiles; eauto|].
        split; [done|]. left. destruct Hk as [? ?]. by rewrite HBase.
      * right. exists (Join srcDir x), defs. split; [apply elem_of_fixFiles; eauto|]. eauto.
  - intros x Hx Hbad name. unfold lookup, fsTM_LookupTemplate. rewrite HReadDir, HP.
    assert (Hin : Join srcDir x ∈ fixFiles Join files srcDir) by (apply elem_of_fixFiles; eauto).
    assert (Herr : forall ts paths, Join srcDir x ∈ paths -> exists err, parse_files ReadFile Base parse_text is_empty ts paths = inr err).
    { intros ts paths. revert ts. induction paths as [|p paths IH]; intros ts; [by intros ?%elem_of_nil|]. cbn [parse_files]. intros Hp.
      destruct (ReadFile p) as [text|] eqn:Hr; [|by eexists]. destruct (parse_text (Base p) text) as [defs|] eqn:Hpt; [|by eexists].
      apply elem_of_cons in Hp as [<-|Hp]; [exfalso; apply (Hbad defs); by exists text|by apply IH]. }
    destruct (Herr baseTemplate _ Hin) as [err ->]. by exists err.
Qed.

(** The embedded templates are found like those of a directory that does not
    change, if every path stands for itself as a pattern. *)
Theorem embedded_is_directory : (forall x, kept x -> Glob (Join srcDir x) = inl [Join srcDir x]) ->
  match NewTemplateManagerEmbedWithOptions ReadDir ReadFile Glob Join Base parse_text is_empty srcDir with
  | inl tm => forall name, LookupTemplate tm name = fsTM_LookupTemplate ReadDir ReadFile Join Base parse_text is_empty srcDir name
  | inr _ => forall name, exists err, fsTM_LookupTemplate ReadDir ReadFile Join Base parse_text is_empty srcDir name = inr err
  end.
Proof.
  intros Hg. unfold NewTemplateManagerEmbedWithOptions, fsTM_LookupTemplate, ParseFS. rewrite HReadDir.
  assert (Hall : forall paths, paths ⊆ fixFiles Join files srcDir -> glob_all Glob paths = inl paths).
  { induction paths as [|p paths IH]; intros Hsub; [done|]. cbn [glob_all].
    destruct (proj1 (elem_of_fixFiles p) (Hsub p (list_elem_of_here _ _))) as (x & Hx & ->). rewrite (Hg x Hx).
    rewrite IH; [done|]. intros q Hq. apply Hsub. by right. }
  rewrite (Hall _ (reflexivity _)). destruct (ParseFiles _ _ _ _ _ _) as [ts|err]; [done|]. intros name. by exists err.
Qed.
End ManagerFacts.

(** ** Examples *)

Module ServingExample.
Definition status (e : goerror) : option Z := match e with ENew "not found" => Some 404 | ENew "early" => Some 103 | ENew "odd" => Some 7 | _ => None end.
Definition text (e : goerror) : string := match e with ENew s => s | _ => "error" end.
Definition json (s : string) (extra : anyval string unit) : string + goerror :=
  match extra with AOther _ => inr (ENew "unsupported type") | _ => inl ("{err:" +:+ s +:+ "}") end.
Definition fallback (e : goerror) (extra : anyval string unit) : string := "no json: " +:+ text e.
Definition marshal (opts : MarshalingOptions) : anyval string unit -> ended goerror string :=
  Marshal (fun _ m => inl ("<" +:+ m +:+ ">")) (fun v => match v with AMsg m => inl m | _ => inr (ENew "unsupported type") end) opts.
Definition api (opts : MarshalingOptions) calls r : Z * gmap string string * string :=
  response (api_ServeHTTP status text json fallback marshal opts (mkHandler calls r) newWriter).1.
Definition proto : MarshalingOptions := mkMarshalingOptions true (mkJSONOptions true true).

Example slice_of_messages : api proto [] (Some (ASeq [Some "a"; Some "b"], None)) = ((200, json_header ∅), "[<a>,<b>]")%string.
Proof. vm_compute. reflexivity. Qed.
Example error_after_write : api proto [CallWrite "half"] (Some (ANil, Some (ENew "not found"))) = ((200, ∅), "half{err:not found}")%string.
Proof. vm_compute. reflexivity. Qed.
Example impossible_status : (api proto [] (Some (ANil, Some (ENew "odd")))).1.1 = 500.
Proof. vm_compute. reflexivity. Qed.

Lemma api_answers_witness :
  api proto [CallSetHeader "X" "1"] (Some (ANil, Some (ENew "not found"))) = ((404, json_header {["X"%string := "1"%string]}), "{err:not found}"%string) /\
  api proto [CallSetHeader "X" "1"] None = answer_panic {["X"%string := "1"%string]}.
Proof.
  split.
  - etransitivity; [apply (api_answers status text json fallback marshal proto _ (mkWriter {["X"%string := "1"%string]} None EmptyString) (Ret tt)); reflexivity|].
    vm_compute. reflexivity.
  - etransitivity; [apply (api_answers status text json fallback marshal proto _ (mkWriter {["X"%string := "1"%string]} None EmptyString) (Ret tt)); reflexivity|].
    reflexivity.
Defined.

Lemma informational_error_is_ok_witness : api proto [] (Some (ANil, Some (ENew "early"))) = ((200, json_header ∅), "{err:early}"%string).
Proof. by apply (informational_error_is_ok status text json fallback marshal proto _ (ENew "early") ANil 103). Defined.

Lemma slices_become_arrays_witness :
  Marshal (fun _ m => inl ("<" +:+ m +:+ ">")) (fun _ => inl EmptyString) proto (ASeq (O:=unit) (Some <$> ["a"; "b"]%string)) = Ret "[<a>,<b>]"%string.
Proof.
  etransitivity; [apply (slices_become_arrays (O:=unit) _ (fun _ => inl EmptyString) (mkJSONOptions true true) ["a"; "b"]%string ["<a>"; "<b>"]%string)|reflexivity].
  repeat constructor.
Defined.

(** A directory with one template and the lock of an editor. *)
Definition ReadDir (d : string) : list string + goerror := inl ["page.html"; ".#page.html"]%string.
Definition ReadFile (p : string) : string + goerror := if bool_decide (p = "t/page.html"%string) then inl "body"%string else inr (ENew "missing").
Definition Join (a b : string) : string := a +:+ "/" +:+ b.
Definition Base (p : string) : string := default p (split2 "/" p).2.
Definition parse (name s : string) : list (string * string) + goerror := inl [("footer"%string, "f"%string); (name, s)].
Definition tmpls : TemplateManager := mkTemplateManager (fsTM_LookupTemplate ReadDir ReadFile Join Base parse (fun s => bool_decide (s = EmptyString)) "t").
Definition exec (t : option string) (d : unit) : list string * option goerror :=
  match t with Some s => ([s; "!"%string], None) | None => ([], Some (ENew "incomplete")) end.
Definition serve_page calls name : Z * gmap string string * string :=
  response (template_ServeHTTP exec status text tmpls (mkHandler calls (Some (Some (NamedTemplate name), tt, None))) newWriter).1.

Lemma pages_are_rendered_witness :
  serve_page [] "footer" = ((200, ∅), "f!"%string) /\ (serve_page [] "other").1.1 = 500 /\ (serve_page [] "app").1.1 = 500.
Proof.
  split_and!.
  - etransitivity; [apply (pages_are_rendered exec status text tmpls _ newWriter (NamedTemplate "footer") tt None); try reflexivity; by intros code ?%elem_of_nil|].
    vm_compute. reflexivity.
  - vm_compute. reflexivity.
  - vm_compute. reflexivity.
Defined.

Lemma lookup_finds_files_witness :
  (exists t, LookupTemplate tmpls "page.html" = inl t) /\ (exists t, LookupTemplate tmpls "footer" = inl t).
Proof.
  assert (Hk : kept ["page.html"; ".#page.html"]%string "page.html") by (split_and!; [by left|done|done]).
  assert (Hp : parsed ReadFile Base parse (Join "t" "page.html") [("footer"%string, "f"%string); ("page.html"%string, "body"%string)])
    by (exists "body"%string; done).
  pose proof (lookup_finds_files ReadDir ReadFile (fun p => inl [p]) Join Base parse (fun s => bool_decide (s = EmptyString)) "t"
    ["page.html"; ".#page.html"]%string eq_refl) as H.
  destruct H as [H _].
  - intros x Hx. apply elem_of_cons in Hx as [->|Hx]; [done|]. by apply list_elem_of_singleton in Hx as ->.
  - by exists "page.html"%string.
  - assert (Hall : forall x, kept ["page.html"; ".#page.html"]%string x -> exists defs, parsed ReadFile Base parse (Join "t" x) defs).
    { intros x (Hx & H1 & H2). apply elem_of_cons in Hx as [->|Hx]; [by eexists|]. apply list_elem_of_singleton in Hx as ->. done. }
    split; apply (H Hall); [by right; left|]. right. right. do 2 eexists. split; [exact Hk|]. split; [exact Hp|]. by left.
Defined.
End ServingExample.
