(* ===== verification/Devices.v ===== *)
(** * USB and serial devices: [usb/], [serial/]

    The searches of Linux and macOS, with a filter of products that is not nil.
    What the file system and ioreg answer are
    arguments; the text of a uevent file is given by the lines that its reader
    returns. *)

From S2P Require Import Prelude GoStrings.
From Stdlib Require Import Ascii.

Local Open Scope Z_scope.

(** [usb.Identifier] and [usb.Description]. *)
Record Identifier := mkIdentifier { id_Vendor : Z; id_Product : Z }.
Record usbDescription := mkUsbDescription { ud_ID : Identifier; ud_Path : string }.
#[export] Instance Identifier_eqdec : EqDecision Identifier.
Proof. solve_decision. Defined.
#[export] Instance usbDescription_eqdec : EqDecision usbDescription.
Proof. solve_decision. Defined.

(** ** Linux: [usb/search_linux.go] *)

(** The lines "PRODUCT=vendor/product/version" of a uevent file. *)
Definition productPrefix : string := "PRODUCT=".
Definition parse_product (line : string) : option (Z * Z) :=
  if String.prefix productPrefix line then
    match split_char "/" (trim_prefix productPrefix line) with
    | vendor :: product :: _ =>
        match ParseInt 16 64 vendor, ParseInt 16 64 product with
        | inl vendorID, inl productID => Some (vendorID, productID)
        | _, _ => None
        end
    | _ => None
    end
  else None.

(** What the search reads: the names in a directory, the target of a link, and
    the lines of a file; [None] where that fails. *)
Record sysfs := mkSysfs {
  fs_Readdir : string -> option (list string);
  fs_Readlink : string -> option string;
  fs_lines : string -> option (list string);
}.

Section Linux.
Context (Join : string -> string -> string) (IsAbs : string -> bool).
Context (fs : sysfs) (includeDevice : Z -> Z -> bool).

(** The loop [searchProduct] over the lines. *)
Definition products (lines : list string) : list (Z * Z) :=
  filter (fun p => includeDevice p.1 p.2 = true) (omap parse_product lines).

(** One entry of the directory of devices. *)
Definition search_device (sysPath device : string) : list usbDescription :=
  match fs_Readlink fs (Join sysPath device) with
  | None => []
  | Some linkedFile =>
      let linkedFile := if IsAbs linkedFile then linkedFile else Join sysPath linkedFile in
      match fs_lines fs (Join linkedFile "../uevent") with
      | None => []
      | Some lines =>
          match fs_Readdir fs (Join linkedFile "./tty") with
          | None | Some [] => []
          | Some (tty :: _) =>
              (fun p => mkUsbDescription (mkIdentifier p.1 p.2) (Join "/dev" tty)) <$> products lines
          end
      end
  end.
Definition searchPath (sysPath : string) : list usbDescription :=
  match fs_Readdir fs sysPath with
  | None => []
  | Some devices => concat (search_device sysPath <$> devices)
  end.
Definition SysPaths : list string := ["/sys/bus/usb-serial/devices"; "/sys/bus/usb/drivers/cdc_acm"]%string.
Definition usb_Search (sysPaths : list string) : list usbDescription := concat (searchPath <$> sysPaths).
End Linux.

(** ** macOS: [usb/search_darwin.go] *)

(** The values of a property list, as far as the code tells them apart. *)
Inductive plistValue :=
  | PString (s : string)
  | PUint (n : Z)
  | PArray (vs : list plistValue)
  | PDict (fields : list (string * plistValue))
  | POther.
Definition dict_get (fields : list (string * plistValue)) (k : string) : option plistValue :=
  snd <$> list_find (fun f => f.1 = k) fields ≫= fun f => Some f.2.

(** [int] of a uint64. *)
Definition int_of_uint64 (n : Z) : Z := if n <? 2 ^ 63 then n else n - 2 ^ 64.

(** [SearchFilter]. *)
Record SearchFilter := mkSearchFilter { sf_ioObjectClass : string; sf_ioTTYBaseName : string }.
Definition NewSearchFilter : string -> string -> SearchFilter := mkSearchFilter.

(** The loop over the children: it ends with the first path that is not empty. *)
Fixpoint dialin_device (children : list plistValue) (dialinDevice : string) : string :=
  match children with
  | [] => dialinDevice
  | PDict fields :: rest =>
      match dict_get fields "IODialinDevice" with
      | Some (PString s) => if bool_decide (s = EmptyString) then dialin_device rest s else s
      | _ => dialin_device rest EmptyString
      end
  | _ :: rest => dialin_device rest dialinDevice
  end.

Section Darwin.
Context (SearchCmd : string -> string) (Unmarshal : string -> option (list (list (string * plistValue)))).
Context (includeDevice : Z -> Z -> bool).

Definition darwin_device (flt : SearchFilter) (device : list (string * plistValue)) : option usbDescription :=
  match dict_get device "IOTTYBaseName" with
  | Some (PString base) =>
      if bool_decide (base = sf_ioTTYBaseName flt) then
        match dict_get device "idVendor", dict_get device "idProduct" with
        | Some (PUint idVendor), Some (PUint idProduct) =>
            let vendorID := int_of_uint64 idVendor in
            let productID := int_of_uint64 idProduct in
            if includeDevice vendorID productID then
              match dict_get device "IORegistryEntryChildren" with
              | Some (PArray children) =>
                  let dialinDevice := dialin_device children EmptyString in
                  if bool_decide (dialinDevice = EmptyString) then None
                  else Some (mkUsbDescription (mkIdentifier vendorID productID) dialinDevice)
              | _ => None
              end
            else None
        | _, _ => None
        end
      else None
  | _ => None
  end.
Definition darwin_Search (flt : SearchFilter) : list usbDescription :=
  match SearchCmd (sf_ioObjectClass flt) with
  | EmptyString => []
  | out => match Unmarshal out with None => [] | Some d => omap (darwin_device flt) d end
  end.
End Darwin.

(** ** Serial devices: [serial/] *)

(** [Type]; the empty one, in a filter, is any type. *)
Abbreviation Type_ := string (only parsing).
Definition TypeUnknown : Type_ := "unknown".
Definition TypeArduino : Type_ := "arduino".
Definition TypeJetson : Type_ := "nvidia-jetson".
Definition TypeNumatoGPIO : Type_ := "numato-gpio".
Record serialDescription := mkSerialDescription { sd_Type : Type_; sd_Path : string }.

Definition checkProductDeviceIDs (vendorID productID : Z) : Type_ :=
  if vendorID =? 9025 then TypeArduino
  else if (vendorID =? 10777) && ((productID =? 2050) || (productID =? 2053) || (productID =? 2048) || (productID =? 3077))
  then TypeNumatoGPIO
  else TypeUnknown.
Definition includeSerial (vendorID productID : Z) : bool :=
  negb (bool_decide (checkProductDeviceIDs vendorID productID = TypeUnknown)).

(** The loop over the USB devices, the same on both systems. *)
Definition serial_devices (filterType : Type_) (usbDevices : list usbDescription) : list serialDescription :=
  omap (fun dev =>
    let devType := checkProductDeviceIDs (id_Vendor (ud_ID dev)) (id_Product (ud_ID dev)) in
    if negb (bool_decide (filterType = EmptyString)) && negb (bool_decide (filterType = devType)) then None
    else Some (mkSerialDescription devType (ud_Path dev))) usbDevices.

Section Serial.
Context (Join : string -> string -> string) (IsAbs : string -> bool) (fs : sysfs).
Definition devPath : string := "/dev".

Definition searchUSB (filterType : Type_) : list serialDescription :=
  serial_devices filterType (usb_Search Join IsAbs fs includeSerial SysPaths).
Definition serial_Search (filterType : Type_) : list serialDescription :=
  let serialDeviceDescs := searchUSB filterType in
  if negb (bool_decide (filterType = EmptyString)) && negb (bool_decide (filterType = TypeJetson)) then serialDeviceDescs
  else
    match fs_Readdir fs devPath with
    | None => serialDeviceDescs
    | Some devices =>
        serialDeviceDescs ++
        ((fun name => mkSerialDescription TypeJetson (Join devPath name)) <$>
         filter (fun name => String.prefix "ttyTHS" name = true) devices)
    end.
End Serial.

Section SerialDarwin.
Context (SearchCmd : string -> string) (Unmarshal : string -> option (list (list (string * plistValue)))).
Definition serial_Search_darwin (filterType : Type_) : list serialDescription :=
  serial_devices filterType (darwin_Search SearchCmd Unmarshal includeSerial (NewSearchFilter "AppleUSBACMData" "usbmodem")).
End SerialDarwin.

(** ** What is found *)

Section LinuxFacts.
Context (Join : string -> string -> string) (IsAbs : string -> bool) (fs : sysfs) (includeDevice : Z -> Z -> bool).

(** The directory of a device behind its link, and its first terminal. *)
Definition device_dir (sysPath device dir : string) : Prop :=
  exists linkedFile, fs_Readlink fs (Join sysPath device) = Some linkedFile /\
    dir = if IsAbs linkedFile then linkedFile else Join sysPath linkedFile.

(** A device is found exactly when it is listed, its link can be read, it has a
    terminal, and a line of its uevent file names a wanted product; it is
    described with this product and its first terminal. *)
Theorem found_devices sysPaths d :
  d ∈ usb_Search Join IsAbs fs includeDevice sysPaths <->
  exists sysPath devices device dir lines tty ttys line,
    sysPath ∈ sysPaths /\ fs_Readdir fs sysPath = Some devices /\ device ∈ devices /\ device_dir sysPath device dir /\
    fs_lines fs (Join dir "../uevent") = Some lines /\ fs_Readdir fs (Join dir "./tty") = Some (tty :: ttys) /\
    line ∈ lines /\ parse_product line = Some (id_Vendor (ud_ID d), id_Product (ud_ID d)) /\
    includeDevice (id_Vendor (ud_ID d)) (id_Product (ud_ID d)) = true /\ ud_Path d = Join "/dev" tty.
Proof.
  unfold usb_Search. rewrite list_elem_of_In, in_concat. split.
  - intros (l & Hl & Hd). apply list_elem_of_In, list_elem_of_fmap in Hl as (sysPath & -> & Hp).
    unfold searchPath in Hd. destruct (fs_Readdir fs sysPath) as [devices|] eqn:Hdir; [|done].
    apply in_concat in Hd as (l & Hl & Hd). apply list_elem_of_In, list_elem_of_fmap in Hl as (device & -> & Hdev).
    unfold search_device in Hd. destruct (fs_Readlink fs (Join sysPath device)) as [linked|] eqn:Hlink; [|done].
    cbv zeta in Hd. set (dir := if IsAbs linked then linked else Join sysPath linked) in *.
    destruct (fs_lines fs _) as [lines|] eqn:Hlines; [|done]. destruct (fs_Readdir fs (Join dir "./tty")) as [[|tty ttys]|] eqn:Htty; [done| |done].
    apply list_elem_of_In, list_elem_of_fmap in Hd as ([v p] & -> & Hvp). unfold products in Hvp.
    apply list_elem_of_filter in Hvp as [Hinc (line & Hline & Hparse)%list_elem_of_omap].
    exists sysPath, devices, device, dir, lines, tty, ttys, line. split_and!; try done. by exists linked.
  - intros (sysPath & devices & device & dir & lines & tty & ttys & line & Hp & Hdir & Hdev & (linked & Hlink & ->) & Hlines & Htty & Hline & Hparse & Hinc & Hpath).
    exists (searchPath Join IsAbs fs includeDevice sysPath). split; [by apply list_elem_of_In, list_elem_of_fmap; eexists|].
    unfold searchPath. rewrite Hdir. apply in_concat. exists (search_device Join IsAbs fs includeDevice sysPath device).
    split; [by apply list_elem_of_In, list_elem_of_fmap; eexists|]. unfold search_device. rewrite Hlink. cbv zeta. rewrite Hlines, Htty.
    apply list_elem_of_In, list_elem_of_fmap. exists (id_Vendor (ud_ID d), id_Product (ud_ID d)). split.
    + destruct d as [[v p] path]. cbn in *. by subst path.
    + apply list_elem_of_filter. split; [done|]. apply list_elem_of_omap. by exists line.
Qed.
End LinuxFacts.

(** [PRODUCT=] as the kernel writes it: hexadecimal digits without leading
    zeros. *)
Definition hex_char (d : Z) : ascii := ascii_of_nat (if d <? 10 then 48 + Z.to_nat d else 87 + Z.to_nat d).
Fixpoint hex_digits (fuel : nat) (n : Z) (acc : string) : string :=
  match fuel with
  | O => acc
  | S f => if n <? 16 then String (hex_char n) acc else hex_digits f (n / 16) (String (hex_char (n mod 16)) acc)
  end.
(** Sixteen bits have at most four digits. *)
Definition hex16 (n : Z) : string := hex_digits 4 n EmptyString.

(** Every identifier of a vendor and a product is read back from the line that
    the kernel writes for it. *)
Lemma hex_char_spec d : 0 <= d < 16 ->
  digit_val (hex_char d) = Some d /\ hex_char d <> "+"%char /\ hex_char d <> "-"%char /\ hex_char d <> "/"%char.
Proof.
  intros Hd. assert (Hin : d ∈ seqZ 0 16) by (apply elem_of_seqZ; lia). clear Hd. revert d Hin. apply Forall_forall.
  change (seqZ 0 16) with [0; 1; 2; 3; 4; 5; 6; 7; 8; 9; 10; 11; 12; 13; 14; 15]. repeat constructor; by vm_compute.
Qed.
(** Reading the digits of [n] after those of [k] gives the digits of both. *)
Lemma parse_hex_digits fuel : forall n k acc maxVal,
  0 <= n < 16 ^ Z.of_nat fuel -> 0 <= k ->
  exists w, 16 ^ w > n /\ 0 <= w <= Z.of_nat fuel /\ (k * 16 ^ w + n <= maxVal ->
    parse_digits false 16 maxVal (hex_digits fuel n acc) k = parse_digits false 16 maxVal acc (k * 16 ^ w + n)).
Proof.
  induction fuel as [|f IH]; intros n k acc maxVal Hn Hk.
  { cbn in Hn. exists 0. split_and!; [lia..|]. intros _. simpl. do 2 f_equal; lia. }
  cbn [hex_digits]. destruct (Z.ltb_spec n 16) as [Hlt|Hge].
  - exists 1. split_and!; [lia..|]. intros Hmax. cbn [parse_digits andb]. destruct (hex_char_spec n) as (-> & _); [lia|].
    rewrite (proj2 (Z.leb_gt _ _)), (proj2 (Z.ltb_ge _ _)) by lia. f_equal; lia.
  - pose proof (Z.mod_pos_bound n 16). pose proof (Z.div_mod n 16).
    destruct (IH (n / 16) k (String (hex_char (n mod 16)) acc) maxVal) as (w & Hw & Hw0 & Hp); [|done|].
    { split; [apply Z.div_pos; lia|]. apply Z.div_lt_upper_bound; [lia|]. rewrite Nat2Z.inj_succ, Z.pow_succ_r in Hn by lia. lia. }
    exists (w + 1). rewrite Z.pow_add_r by lia. change (16 ^ 1) with 16.
    split_and!; [lia..|]. intros Hmax. rewrite Hp by nia. cbn [parse_digits andb]. destruct (hex_char_spec (n mod 16)) as (-> & _); [lia|].
    rewrite (proj2 (Z.leb_gt _ _)) by lia. rewrite (proj2 (Z.ltb_ge _ _)) by nia. f_equal; lia.
Qed.
Definition hex_string (s : string) : Prop := match s with String c s' => c <> "+"%char /\ c <> "-"%char | EmptyString => False end /\ str_mem "/" s = false.
Lemma hex_digits_chars fuel n acc : 0 <= n -> (acc = EmptyString -> fuel <> O) -> (acc = EmptyString \/ hex_string acc) -> hex_string (hex_digits fuel n acc).
Proof.
  revert n acc. induction fuel as [|f IH]; intros n acc Hn Hf Hacc; cbn [hex_digits]; [destruct Hacc; [naive_solver|done]|].
  assert (Hcons : forall d, 0 <= d < 16 -> hex_string (String (hex_char d) acc)).
  { intros d Hd. destruct (hex_char_spec d Hd) as (_ & H1 & H2 & H3). split; [done|]. cbn [str_mem].
    apply orb_false_iff. split; [by apply Ascii.eqb_neq; congruence|]. destruct Hacc as [->|[_ ?]]; done. }
  destruct (Z.ltb_spec n 16); [apply Hcons; lia|]. apply IH; [apply Z.div_pos; lia|done|]. right. apply Hcons, Z.mod_pos_bound. lia.
Qed.
Lemma hex16_spec n : 0 <= n < 65536 -> ParseInt 16 64 (hex16 n) = inl n /\ str_mem "/" (hex16 n) = false.
Proof.
  intros Hn. destruct (hex_digits_chars 4 n EmptyString) as [Hc Hm]; [lia|done|by left|]. fold (hex16 n) in *. split; [|done].
  destruct (parse_hex_digits 4 n 0 EmptyString (2 ^ 64 - 1)) as (w & _ & Hw & Hp); [done|done|]. fold (hex16 n) in Hp.
  rewrite Z.mul_0_l in Hp. cbn [parse_digits] in Hp. specialize (Hp ltac:(lia)).
  unfold ParseInt. destruct (hex16 n) as [|c s]; [by destruct Hc|]. destruct Hc as [H1%Ascii.eqb_neq H2%Ascii.eqb_neq]. rewrite H1, H2.
  unfold ParseUint. cbn [Z.eqb]. rewrite Hp. cbn [andb negb]. rewrite (proj2 (Z.leb_gt _ _)) by lia. done.
Qed.
Lemma prefix_app p s : String.prefix p (p +:+ s) = true.
Proof. induction p as [|c p IH]; [by destruct s|]. simpl. destruct (ascii_dec c c); [exact IH|done]. Qed.
Lemma drop_prefix p s : drop_str (String.length p) (p +:+ s) = s.
Proof. induction p as [|c p IH]; cbn; [done|exact IH]. Qed.

Theorem product_line_roundtrip vendor product version : 0 <= vendor < 65536 -> 0 <= product < 65536 ->
  parse_product (productPrefix +:+ hex16 vendor +:+ "/" +:+ hex16 product +:+ "/" +:+ version) = Some (vendor, product).
Proof.
  intros [H1 H3]%hex16_spec [H2 H4]%hex16_spec. unfold parse_product, trim_prefix. rewrite !prefix_app, drop_prefix.
  change ("/" +:+ ?x) with (String "/" x).
  rewrite split_char_app by done. change ("/" +:+ version) with (String "/" version). rewrite split_char_app by done.
  by rewrite H1, H2.
Qed.

(** ** Serial devices by type *)

Lemma check_types v p : checkProductDeviceIDs v p ∈ [TypeArduino; TypeNumatoGPIO; TypeUnknown].
Proof. unfold checkProductDeviceIDs. repeat case_match; rewrite !elem_of_cons; auto. Qed.

Lemma serial_devices_filter t devs : t <> EmptyString ->
  serial_devices t devs = filter (fun d => sd_Type d = t) (serial_devices EmptyString devs).
Proof.
  intros Ht. unfold serial_devices. induction devs as [|dev devs IH]; [done|]. cbn [omap list_omap]. rewrite IH.
  rewrite (bool_decide_eq_false_2 (t = EmptyString)) by done. cbn [negb andb].
  change (bool_decide (EmptyString = EmptyString)) with true. cbn [negb andb]. rewrite filter_cons. cbn [sd_Type].
  set (ty := checkProductDeviceIDs _ _). destruct (decide (ty = t)) as [->|Hne].
  - rewrite bool_decide_eq_true_2 by done. done.
  - rewrite bool_decide_eq_false_2 by congruence. done.
Qed.

Lemma serial_devices_type t devs d :
  d ∈ serial_devices t devs -> exists dev, dev ∈ devs /\ ud_Path dev = sd_Path d /\
    sd_Type d = checkProductDeviceIDs (id_Vendor (ud_ID dev)) (id_Product (ud_ID dev)) /\ (t = EmptyString \/ t = sd_Type d).
Proof.
  unfold serial_devices. intros (dev & Hdev & Hd)%list_elem_of_omap. exists dev. split; [done|].
  destruct (bool_decide_reflect (t = EmptyString)) as [->|Ht]; cbn [negb andb] in Hd; [by injection Hd as <-; auto|].
  destruct (bool_decide_reflect (t = checkProductDeviceIDs (id_Vendor (ud_ID dev)) (id_Product (ud_ID dev)))) as [->|]; [|done].
  cbn in Hd. injection Hd as <-. auto.
Qed.

Section SerialFacts.
Context (Join : string -> string -> string) (IsAbs : string -> bool) (fs : sysfs).

(** Searching for one type finds what searching for all types finds of it, in
    the same order. *)
Theorem search_by_type t : t <> EmptyString ->
  serial_Search Join IsAbs fs t = filter (fun d => sd_Type d = t) (serial_Search Join IsAbs fs EmptyString).
Proof.
  intros Ht. unfold serial_Search, searchUSB. rewrite (serial_devices_filter t) by done.
  rewrite (bool_decide_eq_false_2 (t = EmptyString)) by done. cbn [negb andb].
  change (bool_decide (EmptyString = EmptyString)) with true. cbn [negb andb].
  set (usb := serial_devices EmptyString _).
  assert (Hths : forall l : list string, filter (fun d => sd_Type d = t) ((fun name => mkSerialDescription TypeJetson (Join devPath name)) <$> l) =
                   if bool_decide (t = TypeJetson) then (fun name => mkSerialDescription TypeJetson (Join devPath name)) <$> l else []).
  { induction l as [|x l IH]; cbn [fmap list_fmap]; [by case_bool_decide|]. rewrite filter_cons. cbn [sd_Type]. rewrite IH.
    destruct (decide (TypeJetson = t)) as [<-|Hne]; [by rewrite bool_decide_eq_true_2|by rewrite bool_decide_eq_false_2]. }
  destruct (bool_decide_reflect (t = TypeJetson)) as [->|Hj]; cbn [negb].
  - destruct (fs_Readdir fs devPath) as [devices|]; [|done]. rewrite filter_app, Hths. done.
  - destruct (fs_Readdir fs devPath) as [devices|]; [|done]. rewrite filter_app, Hths.
    by rewrite app_nil_r.
Qed.

(** Every device that is found has a known type. *)
Theorem found_types_are_known t d : d ∈ serial_Search Join IsAbs fs t -> sd_Type d ∈ [TypeArduino; TypeNumatoGPIO; TypeJetson].
Proof.
  assert (Husb : d ∈ searchUSB Join IsAbs fs t -> sd_Type d ∈ [TypeArduino; TypeNumatoGPIO; TypeJetson]).
  { intros (dev & Hdev & _ & Hty & _)%serial_devices_type.
    apply found_devices in Hdev as (? & ? & ? & ? & ? & ? & ? & ? & _ & _ & _ & _ & _ & _ & _ & _ & Hinc & _).
    unfold includeSerial in Hinc. apply negb_true_iff, bool_decide_eq_false in Hinc. rewrite <-Hty in Hinc.
    pose proof (check_types (id_Vendor (ud_ID dev)) (id_Product (ud_ID dev))) as Hc. rewrite <-Hty in Hc.
    rewrite !elem_of_cons in *. destruct Hc as [?|[?|[?|?%elem_of_nil]]]; auto; done. }
  unfold serial_Search. destruct (_ && _); [done|]. destruct (fs_Readdir fs devPath) as [devices|]; [|done].
  rewrite elem_of_app. intros [?|(name & -> & _)%list_elem_of_fmap]; [auto|]. rewrite !elem_of_cons. auto.
Qed.
End SerialFacts.

(** ** macOS *)

(** The path of a device is the first that a child has, and not empty. *)
Lemma dialin_device_spec children d :
  dialin_device children d <> EmptyString -> d = EmptyString ->
  exists before fields after, children = before ++ PDict fields :: after /\
    dict_get fields "IODialinDevice" = Some (PString (dialin_device children d)) /\
    forall fs s, PDict fs ∈ before -> dict_get fs "IODialinDevice" = Some (PString s) -> s = EmptyString.
Proof.
  intros Hne ->. revert Hne. induction children as [|c children IH]; [done|]. intros Hne.
  assert (Hskip : dialin_device (c :: children) EmptyString = dialin_device children EmptyString ->
                  (forall fs s, c = PDict fs -> dict_get fs "IODialinDevice" = Some (PString s) -> s = EmptyString) ->
                  exists before fields after, c :: children = before ++ PDict fields :: after /\
                    dict_get fields "IODialinDevice" = Some (PString (dialin_device (c :: children) EmptyString)) /\
                    forall fs s, PDict fs ∈ before -> dict_get fs "IODialinDevice" = Some (PString s) -> s = EmptyString).
  { intros He Hc. rewrite He in Hne |- *. destruct (IH Hne) as (before & fields & after & Heq & Hg & Hb).
    exists (c :: before), fields, after. split; [by rewrite Heq|]. split; [by rewrite Heq in Hg |- *|].
    intros fs s [<-|Hin]%elem_of_cons; [by apply Hc|by apply Hb]. }
  destruct c as [s|n|vs|fields|]; try (apply Hskip; done).
  destruct (dict_get fields "IODialinDevice") as [[s|n|vs|fs|]|] eqn:Hg;
    try (apply Hskip; [cbn [dialin_device]; by rewrite Hg|intros fs' s' [= <-]; congruence]).
  destruct (bool_decide_reflect (s = EmptyString)) as [->|Hs].
  - apply Hskip; [cbn [dialin_device]; by rewrite Hg|intros fs' s' [= <-]; congruence].
  - exists [], fields, children. split; [done|]. cbn [dialin_device]. rewrite Hg, bool_decide_eq_false_2 by done.
    split; [done|]. by intros fs s' ?%elem_of_nil.
Qed.

Lemma product_line_roundtrip_witness : parse_product "PRODUCT=2341/43/1" = Some (9025, 67).
Proof. by apply (product_line_roundtrip 9025 67 "1"). Defined.

(** An Arduino behind a relative link, and a terminal of a Jetson. *)
Definition sample_fs : sysfs := mkSysfs
  (fun d => if bool_decide (d = "/sys/bus/usb/drivers/cdc_acm"%string) then Some ["1-1:1.0"%string]
            else if bool_decide (d = "/sys/bus/usb/drivers/cdc_acm/../x/./tty"%string) then Some ["ttyACM0"%string]
            else if bool_decide (d = "/dev"%string) then Some ["null"; "ttyTHS1"]%string else None)
  (fun p => if bool_decide (p = "/sys/bus/usb/drivers/cdc_acm/1-1:1.0"%string) then Some "../x"%string else None)
  (fun p => if bool_decide (p = "/sys/bus/usb/drivers/cdc_acm/../x/../uevent"%string) then Some ["DEVTYPE=usb"; "PRODUCT=2341/43/1"]%string else None).
Definition sample_Join (a b : string) : string := a +:+ "/" +:+ b.
Lemma search_by_type_witness :
  serial_Search sample_Join (String.prefix "/") sample_fs TypeArduino = [mkSerialDescription TypeArduino "/dev/ttyACM0"] /\
  length (serial_Search sample_Join (String.prefix "/") sample_fs EmptyString) = 2%nat.
Proof. split; [rewrite search_by_type by done|]; vm_compute; reflexivity. Defined.
