(* ===== verification/ArtifactConfig.v ===== *)
(** * Configuration and stores of artifacts: [artifact/config.go],
      [artifact/config_load.go], [artifact/store.go], the constructors of
      [artifact/cache.go] and [artifact/google_storage_store.go]

    How a configuration is found, read and turned into a cache, the cache of a
    program without a configuration, and the store in a bucket. Absolute paths
    are lists of names from the root; what the operating system and the bucket
    answer are arguments. *)

From S2P Require Import Prelude ArtifactTree ArtifactCache.

Local Open Scope Z_scope.

(** ** The configuration file *)

Definition DotDir : string := ".artifact".
Definition ConfigName : string := "config.json".
Definition TreeName : string := "tree.json".
Definition DefaultCachePath : string := "cache".
Definition DefaultSourcePullSizeLimitBytes : Z := 2 ^ 22.

(** What os.Stat says about a path. *)
Inductive statResult := StatOk | StatNotExist | StatFails (err : artifactErr).
Definition configNotFoundMsg : string := "config.json not found on system".
Definition ErrConfigNotFound : artifactErr := OSErr configNotFoundMsg.

Definition candidate (dir : list string) : list string := dir ++ [DotDir; ConfigName].

Section Search.
Context (Stat : list string -> statResult).

(** The closure of [searchConfig], which goes up until the root; the path is
    given from its last name to its first. *)
Fixpoint search_up (rpath : list string) : option (list string) + artifactErr :=
  match Stat (candidate (reverse rpath)) with
  | StatOk => inl (Some (candidate (reverse rpath)))
  | StatFails err => inr err
  | StatNotExist =>
      match rpath with
      | [] => inl None
      | _ :: next => search_up next
      end
  end.
Definition searchConfig (wd : list string + artifactErr) : list string + artifactErr :=
  match wd with
  | inr err => inr err
  | inl wdAbs =>
      match search_up (reverse wdAbs) with
      | inr err => inr err
      | inl None => inr ErrConfigNotFound
      | inl (Some location) => inl location
      end
  end.
End Search.

(** [StoreConfig] and its two types. *)
Inductive StoreConfig :=
  | FileSystemStoreConfig (path : string)
  | GoogleStorageStoreConfig (bucket : string).
Definition StoreTypeFileSystem : string := "fs".
Definition StoreTypeGoogleStorage : string := "google_storage".
Definition sc_Type (c : StoreConfig) : string :=
  match c with FileSystemStoreConfig _ => StoreTypeFileSystem | GoogleStorageStoreConfig _ => StoreTypeGoogleStorage end.

(** Decoding an object into a struct, field by field: null leaves a string as
    it is, and a value of another type is an error. *)
Definition decode_string (name : string) (fields : list (string * json)) (init : string) : option string :=
  foldl (fun acc kv =>
    s ← acc;
    if is_field name kv.1 then match kv.2 with JStr s' => Some s' | JNull => Some s | _ => None end else Some s) (Some init) fields.
Definition string_elements (l : list json) : option (list string) :=
  mapM (fun j => match j with JStr s => Some s | JNull => Some EmptyString | _ => None end) l.

(** Pointers and slices are nil after null. *)
Definition decode_strings (name : string) (fields : list (string * json)) : option (option (list string)) :=
  foldl (fun acc kv =>
    l ← acc;
    if is_field name kv.1 then
      match kv.2 with JArr l' => Some <$> string_elements l' | JNull => Some None | _ => None end
    else Some l) (Some None) fields.
Definition decode_int (name : string) (fields : list (string * json)) : option (option Z) :=
  foldl (fun acc kv =>
    n ← acc;
    if is_field name kv.1 then
      match kv.2 with JNum z => if is_int z then Some (Some z) else None | JNull => Some None | _ => None end
    else Some n) (Some None) fields.
Definition raw_message (name : string) (fields : list (string * json)) : option json :=
  foldl (fun acc kv => if is_field name kv.1 then match kv.2 with JNull => None | j => Some j end else acc) None fields.

(** [unmarshalJSONToStoreConfig]. *)
Definition unmarshalJSONToStoreConfig (data : json) : option StoreConfig :=
  match data with
  | JObj fields =>
      type ← decode_string "type" fields EmptyString;
      if bool_decide (type = StoreTypeFileSystem) then FileSystemStoreConfig <$> decode_string "path" fields EmptyString
      else if bool_decide (type = StoreTypeGoogleStorage) then GoogleStorageStoreConfig <$> decode_string "bucket" fields EmptyString
      else None
  | _ => None
  end.

(** [Config]; its directory and tree are set when it is loaded. *)
Record Config := mkConfig {
  cf_Cache : string;
  cf_Root : string;
  cf_SourceStore : option StoreConfig;
  cf_SourcePullSizeLimit : Z;
  cf_Ignore : option (list string);
  cf_ignoreSet : gset string;
  cf_tree : TreeNodeTree;
  cf_configDir : option (list string);  (* None when it was not loaded from a file *)
}.

(** [Config.UnmarshalJSON]. *)
Definition config_UnmarshalJSON (data : json) : option Config :=
  fields ← match data with JObj fields => Some fields | JNull => Some [] | _ => None end;
  cache ← decode_string "cache" fields EmptyString;
  root ← decode_string "root" fields EmptyString;
  limit ← decode_int "source_pull_size_limit" fields;
  ignore ← decode_strings "ignore" fields;
  store ← match raw_message "source_store" fields with
          | None => Some None
          | Some data => Some <$> unmarshalJSONToStoreConfig data
          end;
  Some (mkConfig cache root store (default DefaultSourcePullSizeLimitBytes limit) ignore
          (list_to_set (default [] ignore)) None None).

(** [LoadConfigFromFile] on the files that can be opened: the configuration,
    and the tree beside it; a file that is no JSON is [Some None]. *)
Definition LoadConfigFromFile (files : list string -> option (option json)) (path : list string) : Config + artifactErr :=
  match files path with
  | None => inr (OSErr "open")
  | Some content =>
      match content ≫= config_UnmarshalJSON with
      | None => inr (OSErr "decode")
      | Some config =>
          let pathDir := reverse (tail (reverse path)) in
          match files (pathDir ++ [TreeName]) with
          | Some None => inr (OSErr "decode")
          | Some (Some treeFile) =>
              match decode_tree treeFile with
              | None => inr (OSErr "decode")
              | Some tree =>
                  inl (mkConfig (cf_Cache config) (cf_Root config) (cf_SourceStore config) (cf_SourcePullSizeLimit config)
                         (cf_Ignore config) (cf_ignoreSet config) tree (Some pathDir))
              end
          | None =>
              inl (mkConfig (cf_Cache config) (cf_Root config) (cf_SourceStore config) (cf_SourcePullSizeLimit config)
                     (cf_Ignore config) (cf_ignoreSet config) (Some ∅) (Some pathDir))
          end
      end
  end.
Definition LoadConfig (Stat : list string -> statResult) (files : list string -> option (option json))
    (wd : list string + artifactErr) : Config + artifactErr :=
  match searchConfig Stat wd with
  | inr err => inr err
  | inl configPath => LoadConfigFromFile files configPath
  end.

(** ** The cache of a configuration *)

(** A path as the configuration gives it: absolute or relative. *)
Inductive cfgPath := Abs (p : list string) | Rel (p : list string).

Section NewCache.
(** Reading a path, making a directory with its parents, and the source store
    of a configuration. *)
Context {Src : Type} (parse_path : string -> cfgPath) (MkdirAll : list string -> option artifactErr).
Context (IsDir : list string -> option bool) (google : string -> Src + artifactErr) (fs_source : list string -> Src).
(** The working directory, to which relative paths of the process refer. *)
Context (cwd : list string).

Definition absolute (base : list string) (p : cfgPath) : list string :=
  match p with
  | Abs p => p
  | Rel p => foldl (fun d name => if bool_decide (name = ".."%string) then reverse (tail (reverse d)) else d ++ [name]) base p
  end.

(** [newFileSystemStore]. *)
Definition newFileSystemStore (dir : list string) : list string + artifactErr :=
  match IsDir dir with
  | Some true => inl dir
  | Some false => inr (OSErr "expected path to be directory")
  | None => match MkdirAll dir with Some err => inr err | None => inl dir end
  end.
Definition NewStore (config : StoreConfig) : Src + artifactErr :=
  match config with
  | FileSystemStoreConfig path =>
      match newFileSystemStore (absolute cwd (parse_path path)) with inl dir => inl (fs_source dir) | inr err => inr err end
  | GoogleStorageStoreConfig bucket => google bucket
  end.

(** Where the cache and the user's files of a configuration are. *)
Definition cache_dir (config : Config) : list string :=
  let p := parse_path (if bool_decide (cf_Cache config = EmptyString) then DefaultCachePath else cf_Cache config) in
  absolute (default cwd (cf_configDir config)) p.
Definition artifacts_root (config : Config) : list string :=
  if bool_decide (cf_Root config = EmptyString) then cache_dir config ++ ["data"%string]
  else absolute (default cwd (cf_configDir config)) (parse_path (cf_Root config)).

(** [NewCache]: the directory of the cache, that of the user, and the source,
    the cache itself by default. *)
Record newCache := mkNewCache { nc_cache : list string; nc_root : list string; nc_source : option Src }.
Definition NewCache (config : Config) : newCache + artifactErr :=
  let cacheDir := cache_dir config in
  match MkdirAll cacheDir with
  | Some err => inr err
  | None =>
      let artifactsRoot := artifacts_root config in
      match MkdirAll artifactsRoot with
      | Some err => inr err
      | None =>
          match newFileSystemStore cacheDir with
          | inr err => inr err
          | inl fsStore =>
              match cf_SourceStore config with
              | None => inl (mkNewCache fsStore artifactsRoot None)
              | Some sc =>
                  match NewStore sc with
                  | inr err => inr err
                  | inl sourceStore => inl (mkNewCache fsStore artifactsRoot (Some sourceStore))
                  end
              end
          end
      end
  end.

(** [GlobalCache] with its singleton; without a configuration there is a cache
    that has nothing, and it is not kept. *)
Inductive globalCache := NoopCache | RealCache (c : newCache).
Definition GlobalCache (load : Config + artifactErr) (singleton : option newCache) : option newCache * (globalCache + artifactErr) :=
  match singleton with
  | Some c => (singleton, inl (RealCache c))
  | None =>
      match load with
      | inr (OSErr msg as err) =>
          if bool_decide (msg = configNotFoundMsg) then (None, inl NoopCache) else (None, inr err)
      | inr err => (None, inr err)
      | inl config =>
          match NewCache config with
          | inr err => (None, inr err)
          | inl c => (Some c, inl (RealCache c))
          end
      end
  end.
End NewCache.

(** [noopCache]: it contains nothing, forgets what it is given, and its status
    is clean. *)
#[export] Instance noop_store : Store unit := {|
  st_Contains hash _ := Some (NotFoundHash hash);
  st_Load hash _ := inr (NotFoundHash hash);
  st_Store _ _ s := (s, None);
|}.
Definition noop_NewPath (to : string) : string := EmptyString.
Definition noop_Ensure (path : string) (ignoreLimit : bool) : bool + artifactErr := inr (NotFoundPath path).
Definition noop_Status : Status + artifactErr := inl (mkStatus [] []).

(** ** The store in a bucket *)

(** The objects of a bucket. What is written to an object appears when its
    writer is closed; the client's errors are chosen by the call. *)
Abbreviation bucket := (gmap string bytes).
Inductive copyResult := Copied | CopyFailed (written : bytes) (err : artifactErr).

Definition google_Contains (fails : option artifactErr) (hash : string) (b : bucket) : option artifactErr :=
  match fails with
  | Some err => Some err
  | None => match b !! hash with Some _ => None | None => Some (NotFoundHash hash) end
  end.
Definition google_Load (fails : option artifactErr) (hash : string) (b : bucket) : bytes + artifactErr :=
  match fails with
  | Some err => inr err
  | None => match b !! hash with Some d => inl d | None => inr (NotFoundHash hash) end
  end.

(** [googleStorageStore.Store]: nothing to do when the object can be loaded;
    otherwise the reader is copied into a writer that is closed in any case. *)
Definition combine_err (a b : option artifactErr) : option artifactErr := match a with Some _ => a | None => b end.
Definition google_Store (loadFails closeFails : option artifactErr) (copied : copyResult) (hash : string) (d : bytes) (b : bucket)
    : bucket * option artifactErr :=
  match google_Load loadFails hash b with
  | inl _ => (b, None)
  | inr _ =>
      let '(written, err) := match copied with Copied => (d, None) | CopyFailed w err => (w, Some err) end in
      match closeFails with
      | Some cerr => (b, combine_err err (Some cerr))
      | None => (<[hash := written]> b, err)
      end
  end.

(** Without failures it is a store. *)
Definition google_store : Store bucket := {|
  st_Contains := google_Contains None;
  st_Load := google_Load None;
  st_Store := google_Store None None Copied;
|}.

(** ** The store in a directory *)

(** [AtomicStore]: how far it gets, with the name of its temporary file. *)
Inductive atomicResult :=
  | AtomicOk
  | CreateTempFails (err : artifactErr)
  | ChmodFails (err : artifactErr)
  | AtomicCopyFails (written : bytes) (err : artifactErr)
  | CloseFails (err : artifactErr)
  | RenameFails (err : artifactErr).

(** The directory after every call that changes it, the last one first, and the
    error. *)
Definition AtomicStore (r : atomicResult) (temp hash : string) (d : bytes) (dir : fileSystemStore)
    : list fileSystemStore * option artifactErr :=
  let created := <[temp := []]> dir in
  let copied w := <[temp := w]> dir in
  let removed := delete temp in
  match r with
  | CreateTempFails err => ([dir], Some err)
  | ChmodFails err => ([removed created; created; dir], Some err)
  | AtomicCopyFails w err => ([removed (copied w); copied w; created; dir], Some err)
  | CloseFails err | RenameFails err => ([removed (copied d); copied d; created; dir], Some err)
  | AtomicOk => ([<[hash := d]> (removed (copied d)); copied d; created; dir], None)
  end.

(** ** What they promise *)

(** The search finds the configuration of the nearest directory that has one,
    going up from the working directory, and ends. *)
Theorem search_finds_nearest Stat wd :
  match searchConfig Stat (inl wd) with
  | inl p => exists dir rest, wd = dir ++ rest /\ p = candidate dir /\ Stat p = StatOk /\
      forall r1 r2, rest = r1 ++ r2 -> r1 <> [] -> Stat (candidate (dir ++ r1)) = StatNotExist
  | inr err =>
      (err = ErrConfigNotFound /\ forall dir rest, wd = dir ++ rest -> Stat (candidate dir) = StatNotExist) \/
      exists dir rest, wd = dir ++ rest /\ Stat (candidate dir) = StatFails err /\
        forall r1 r2, rest = r1 ++ r2 -> r1 <> [] -> Stat (candidate (dir ++ r1)) = StatNotExist
  end.
Proof.
  unfold searchConfig. pose proof (reverse_involutive wd) as Hwd. revert Hwd. generalize (reverse wd). intros rwd Hwd. subst wd.
  assert (Hup : match search_up Stat rwd with
    | inl (Some p) => exists dir rest, reverse rwd = dir ++ rest /\ p = candidate dir /\ Stat p = StatOk /\
        forall r1 r2, rest = r1 ++ r2 -> r1 <> [] -> Stat (candidate (dir ++ r1)) = StatNotExist
    | inl None => forall dir rest, reverse rwd = dir ++ rest -> Stat (candidate dir) = StatNotExist
    | inr err => exists dir rest, reverse rwd = dir ++ rest /\ Stat (candidate dir) = StatFails err /\
        forall r1 r2, rest = r1 ++ r2 -> r1 <> [] -> Stat (candidate (dir ++ r1)) = StatNotExist
    end).
  { induction rwd as [|x rwd IH]; cbn [search_up].
    - destruct (Stat (candidate (reverse []))) as [| |err] eqn:Hs; cbn in Hs.
      + exists [], []. split_and!; try done. by intros [|] ? ?.
      + intros [|] ? ?; done.
      + exists [], []. split_and!; try done. by intros [|] ? ?.
    - destruct (Stat (candidate (reverse (x :: rwd)))) as [| |err] eqn:Hs.
      + exists (reverse (x :: rwd)), []. split_and!; [by rewrite app_nil_r|done|done|by intros [|] ? ?].
      + assert (Hlast : forall (dir rest r1 r2 : list string), reverse rwd = dir ++ rest -> rest ++ [x] = r1 ++ r2 -> r1 <> [] ->
                  (forall q1 q2, rest = q1 ++ q2 -> q1 <> [] -> Stat (candidate (dir ++ q1)) = StatNotExist) ->
                  Stat (candidate (dir ++ r1)) = StatNotExist).
        { intros dir rest r1 r2 Hd Hr Hne Hq. destruct (decide (r2 = [])) as [->|Hr2].
          - rewrite app_nil_r in Hr. rewrite <-Hr, app_assoc, <-Hd, <-reverse_cons. done.
          - destruct (exists_last Hr2) as (r2' & y & ->). rewrite app_assoc in Hr. apply app_inj_tail in Hr as [Hr _]. by apply (Hq r1 r2'). }
        destruct (search_up Stat rwd) as [[p|]|err].
        * destruct IH as (dir & rest & Hd & -> & Hok & Hq). exists dir, (rest ++ [x]). split_and!; [by rewrite reverse_cons, Hd, app_assoc|done|done|].
          intros r1 r2 Hr Hne. by apply (Hlast dir rest r1 r2).
        * intros dir rest Hd. rewrite reverse_cons in Hd. destruct (decide (rest = [])) as [->|Hr].
          -- rewrite app_nil_r in Hd. by rewrite <-Hd, <-reverse_cons.
          -- destruct (exists_last Hr) as (rest' & y & ->). rewrite app_assoc in Hd. apply app_inj_tail in Hd as [Hd _]. by apply (IH dir rest').
        * destruct IH as (dir & rest & Hd & Hok & Hq). exists dir, (rest ++ [x]). split_and!; [by rewrite reverse_cons, Hd, app_assoc|done|].
          intros r1 r2 Hr Hne. by apply (Hlast dir rest r1 r2).
      + exists (reverse (x :: rwd)), []. split_and!; [by rewrite app_nil_r|done|by intros [|] ? ?]. }
  destruct (search_up Stat rwd) as [[p|]|err]; auto.
Qed.

(** Loading a configuration again after its tree was committed gives the tree;
    without a tree file it is empty. *)
Theorem committed_tree_is_loaded files path config tree :
  files path = Some (Some config) -> sizes_ok tree -> is_Some (config_UnmarshalJSON config) ->
  let treePath := reverse (tail (reverse path)) ++ [TreeName] in
  files treePath = Some (Some (encode_tree tree)) ->
  exists c, LoadConfigFromFile files path = inl c /\ cf_tree c = tree /\ cf_configDir c = Some (reverse (tail (reverse path))).
Proof.
  intros Hf Hs [c Hc] treePath Ht. unfold LoadConfigFromFile. rewrite Hf. cbn [mbind option_bind]. rewrite Hc.
  unfold treePath in Ht. rewrite Ht, (decode_encode _ Hs). by eexists.
Qed.

(** What the configuration leaves out has its default, and it has a source
    exactly when it names one, of a known type. *)
Theorem config_defaults :
  config_UnmarshalJSON (JObj []) = Some (mkConfig EmptyString EmptyString None DefaultSourcePullSizeLimitBytes None ∅ None None) /\
  (forall bucket, config_UnmarshalJSON (JObj [("source_store", JObj [("type", JStr "google_storage"); ("bucket", JStr bucket)])])%string =
     Some (mkConfig EmptyString EmptyString (Some (GoogleStorageStoreConfig bucket)) DefaultSourcePullSizeLimitBytes None ∅ None None)) /\
  (forall type rest, type <> StoreTypeFileSystem -> type <> StoreTypeGoogleStorage -> decode_string "type" rest type = Some type ->
     unmarshalJSONToStoreConfig (JObj (("type"%string, JStr type) :: rest)) = None).
Proof.
  split_and!; [reflexivity|reflexivity|]. intros type rest H1 H2 H3. unfold unmarshalJSONToStoreConfig.
  assert (Hd : decode_string "type" (("type"%string, JStr type) :: rest) EmptyString = Some type) by exact H3.
  rewrite Hd. cbn [mbind option_bind]. rewrite !bool_decide_eq_false_2 by done. done.
Qed.

Section CacheFacts.
Context {Src : Type} (parse_path : string -> cfgPath) (MkdirAll : list string -> option artifactErr).
Context (IsDir : list string -> option bool) (google : string -> Src + artifactErr) (fs_source : list string -> Src) (cwd : list string).
Abbreviation mkCache := (NewCache parse_path MkdirAll IsDir google fs_source cwd).
Abbreviation global := (GlobalCache parse_path MkdirAll IsDir google fs_source cwd).

(** The global cache is made once: when it is there, it stays, whatever the
    configuration says then. The one that has nothing is not kept, so a
    configuration that appears later is used. *)
Theorem global_cache_is_made_once load singleton singleton' r :
  global load singleton = (singleton', r) ->
  (forall c, singleton = Some c -> singleton' = Some c /\ r = inl (RealCache c)) /\
  (forall c, singleton = None -> r = inl (RealCache c) -> singleton' = Some c /\ exists config, load = inl config /\ mkCache config = inl c) /\
  (singleton = None -> r = inl NoopCache <-> load = inr ErrConfigNotFound) /\
  (forall c, r = inl (RealCache c) -> forall load', global load' singleton' = (singleton', inl (RealCache c))).
Proof.
  unfold GlobalCache. intros Hg. destruct singleton as [c|].
  { injection Hg as <- <-. split_and!; try done; intros c' [= ->]; done. }
  destruct load as [config|err].
  - destruct (mkCache config) as [c|err] eqn:Hc; injection Hg as <- <-; split_and!; try done; intros; simplify_eq; eauto.
  - destruct err as [h|p|msg|msg e|]; try (injection Hg as <- <-; split_and!; done).
    case_bool_decide as Hm; injection Hg as <- <-; split_and!; try done.
    + intros _. split; [by subst msg|done].
    + intros _. split; [done|]. by intros [= ->].
Qed.

(** The directory of the user's files is in the cache unless it is given, and a
    path of the configuration is taken from the directory that it was loaded
    from, also when the program runs in another one. *)
Theorem cache_paths config c :
  mkCache config = inl c ->
  nc_cache c = cache_dir parse_path cwd config /\
  (cf_Root config = EmptyString -> nc_root c = nc_cache c ++ ["data"%string]) /\
  (forall p, cf_Root config <> EmptyString -> parse_path (cf_Root config) = Abs p -> nc_root c = p) /\
  (forall dir cwd', cf_configDir config = Some dir ->
     cache_dir parse_path cwd' config = cache_dir parse_path cwd config /\ artifacts_root parse_path cwd' config = artifacts_root parse_path cwd config) /\
  (cf_SourceStore config = None <-> nc_source c = None).
Proof.
  intros H. assert (Hc : nc_cache c = cache_dir parse_path cwd config /\ nc_root c = artifacts_root parse_path cwd config /\
                         (cf_SourceStore config = None <-> nc_source c = None)).
  { unfold NewCache in H. destruct (MkdirAll _); [done|]. destruct (MkdirAll _); [done|].
    assert (Hn : forall x, newFileSystemStore MkdirAll IsDir (cache_dir parse_path cwd config) = inl x -> x = cache_dir parse_path cwd config).
    { intros x. unfold newFileSystemStore. destruct (IsDir _) as [[|]|]; [by intros [= ->]|done|destruct (MkdirAll _); [done|by intros [= ->]]]. }
    destruct (newFileSystemStore MkdirAll IsDir (cache_dir parse_path cwd config)) as [x|]; [|done]. rewrite (Hn x eq_refl) in H.
    destruct (cf_SourceStore config) as [sc|]; [|by injection H as <-]. destruct (NewStore parse_path MkdirAll IsDir google fs_source cwd sc); [|done]. by injection H as <-. }
  destruct Hc as (Hc & Hr & Hs). split_and!; [done| | | |done].
  - intros He. rewrite Hr, Hc. unfold artifacts_root. by rewrite He.
  - intros p Hne Hp. rewrite Hr. unfold artifacts_root. by rewrite bool_decide_eq_false_2, Hp.
  - intros dir cwd' Hd. unfold artifacts_root, cache_dir. by rewrite Hd.
Qed.
End CacheFacts.

(** Storing in a directory is all or nothing: at every moment what is stored
    under the hash is what was there before or the whole new content, it is the
    new one exactly when there is no error, and afterwards everything else is as
    it was. *)
Theorem atomic_store_all_or_nothing r temp hash d dir trace err :
  dir !! temp = None -> temp <> hash -> AtomicStore r temp hash d dir = (trace, err) ->
  (forall dir', dir' ∈ trace -> dir' !! hash = dir !! hash \/ dir' !! hash = Some d) /\
  exists final rest, trace = final :: rest /\
    (err = None -> final = <[hash := d]> dir) /\ (err <> None -> final = dir).
Proof.
  intros Ht Hne HA.
  assert (Hd : forall w : bytes, delete temp (<[temp := w]> dir) = dir) by (intros w; by rewrite delete_insert_id).
  assert (Hl : forall w : bytes, <[temp := w]> dir !! hash = dir !! hash) by (intros w; by rewrite lookup_insert_ne).
  destruct r; injection HA as <- <-; rewrite ?Hd;
    (split; [intros dir'; rewrite !elem_of_cons, elem_of_nil; intros Hin; destruct_or! Hin; subst; rewrite ?lookup_insert_eq, ?Hl; auto; done|]);
    do 2 eexists; split_and!; done.
Qed.

(** The bucket is not: when copying into it fails, the part that was written is
    stored under the hash; it is what is loaded from then on, and storing the
    right content afterwards succeeds and does nothing. *)
Theorem failed_copy_is_kept hash d written err b :
  b !! hash = None ->
  let '(b1, e1) := google_Store None None (CopyFailed written err) hash d b in
  e1 = Some err /\ google_Contains None hash b1 = None /\ google_Load None hash b1 = inl written /\
  google_Store None None Copied hash d b1 = (b1, None).
Proof.
  intros Hb. unfold google_Store, google_Load, google_Contains. rewrite Hb. cbv beta iota zeta. rewrite lookup_insert_eq. done.
Qed.

(** As long as copying never fails, a bucket keeps contents under their hashes,
    whatever else the client reports; what is stored without an error is then
    loaded again, if its hash has no other content. *)
Definition content_addressed (b : bucket) : Prop := forall h d, b !! h = Some d -> h = computeHash d.
Theorem bucket_stays_content_addressed loadFails closeFails d b b' e :
  content_addressed b -> google_Store loadFails closeFails Copied (computeHash d) d b = (b', e) ->
  content_addressed b' /\
  (forall h, h <> computeHash d -> b' !! h = b !! h) /\
  (e = None -> (forall d', computeHash d' = computeHash d -> d' = d) -> google_Load None (computeHash d) b' = inl d).
Proof.
  intros Hca. unfold google_Store. destruct (google_Load loadFails (computeHash d) b) as [d0|err] eqn:Hload.
  - intros [= <- <-]. split_and!; [done|done|]. intros _ Hinj. unfold google_Load in *. destruct loadFails; [done|].
    destruct (b !! computeHash d) as [d1|] eqn:Hb; [|done]. by rewrite (Hinj d1) by (by rewrite (Hca _ _ Hb)).
  - destruct closeFails as [cerr|]; intros [= <- <-]; [done|]. split_and!.
    + intros h d'. rewrite lookup_insert_Some. intros [[<- <-]|[_ ?]]; [done|by apply Hca].
    + intros h Hne. by rewrite lookup_insert_ne.
    + intros _ _. unfold google_Load. by rewrite lookup_insert_eq.
Qed.

(** ** Examples *)

Module ArtifactConfigExample.
Definition Stat (p : list string) : statResult :=
  if bool_decide (p = ["home"; "me"; ".artifact"; "config.json"]%string) then StatOk else StatNotExist.
Example found_above : searchConfig Stat (inl ["home"; "me"; "src"; "pkg"]%string) = inl ["home"; "me"; ".artifact"; "config.json"]%string.
Proof. reflexivity. Qed.
Example not_found : searchConfig Stat (inl ["tmp"]%string) = inr ErrConfigNotFound.
Proof. reflexivity. Qed.

Definition tree : TreeNodeTree := Some sample_tree.
Definition files (p : list string) : option (option json) :=
  if bool_decide (p = ["d"; "config.json"]%string) then Some (Some (JObj []))
  else if bool_decide (p = ["d"; "tree.json"]%string) then Some (Some (encode_tree tree)) else None.
Lemma committed_tree_is_loaded_witness : exists c, LoadConfigFromFile files ["d"; "config.json"]%string = inl c /\ cf_tree c = tree.
Proof.
  destruct (committed_tree_is_loaded files ["d"; "config.json"]%string (JObj []) tree) as (c & H1 & H2 & _).
  - reflexivity.
  - exact sample_sizes_ok.
  - by eexists.
  - reflexivity.
  - exists c; exact (conj H1 H2).
Defined.

Lemma atomic_store_all_or_nothing_witness :
  (AtomicStore (AtomicCopyFails [] (OSErr "disk full")) "h1" "h" [] ∅).1 = [∅; {["h1"%string := []]}; {["h1"%string := []]}; ∅] /\
  exists final rest, (AtomicStore AtomicOk "h1" "h" [Byte.x00] ∅).1 = final :: rest /\ final = <["h"%string := [Byte.x00]]> ∅.
Proof.
  split; [vm_compute; reflexivity|].
  destruct (atomic_store_all_or_nothing AtomicOk "h1" "h" [Byte.x00] ∅ _ None (lookup_empty _) ltac:(done) eq_refl) as [_ (f & rest & H1 & H2 & _)].
  exists f, rest. split; [exact H1|by apply H2].
Defined.

Lemma failed_copy_is_kept_witness :
  google_Load None "h" (google_Store None None (CopyFailed [] (OSErr "reset")) "h" [Byte.x00] ∅).1 = inl [].
Proof.
  pose proof (failed_copy_is_kept "h" [Byte.x00] [] (OSErr "reset") ∅ (lookup_empty _)) as H.
  destruct (google_Store _ _ _ _ _ _) as [b1 e1]. exact (proj1 (proj2 (proj2 H))).
Defined.
End ArtifactConfigExample.
