(* ===== verification/Keys.v ===== *)
(** * Keys, secrets and the identity provider: [jwks/jwks.go], the key
      providers of [rpc/auth.go], [secrets/], and the installation of
      [web/auth0.go]

    The key set library, the discovery of OpenID Connect, the secret manager and
    the environment are arguments. What a component acquires before it can fail
    is returned with its error, so that a leak shows. *)

From S2P Require Import Prelude GoError GoStrings ServerAuth ServerOptions.

(** ** Key sets *)

(** A key of a set: its algorithm and the public key in it. *)
Record jwkKey (Key : Type) := mkJwkKey { jk_Algorithm : string; jk_Raw : Key + goerror }.
Arguments mkJwkKey {Key}. Arguments jk_Algorithm {Key}. Arguments jk_Raw {Key}.

Section KeySets.
Context {Key KeySet : Type} (LookupKeyID : KeySet -> string -> option (jwkKey Key)).

Definition publicKeyFromKeySet (keyset : KeySet) (kid alg : string) : Key + goerror :=
  match LookupKeyID keyset kid with
  | None => inr (ENew "kid header does not exist in keyset")
  | Some key =>
      if negb (bool_decide (jk_Algorithm key = alg)) then inr (ENew "key from kid has different signing alg")
      else match jk_Raw key with
           | inr err => inr (EWrap "error getting raw key" err)
           | inl pubKey => inl pubKey
           end
  end.

(** The interface [KeyProvider]; key sets are shared by pointer, into a heap. *)
Class KeyProvider (P : Type) := {
  kp_LookupKey : P -> list KeySet -> string -> string -> Key + goerror;
  kp_Fetch : P -> list KeySet -> list KeySet * (nat + goerror);
  kp_Close : P -> P;
}.

(** [staticKeySet]. *)
Record staticKeySet := mkStaticKeySet { sk_keyset : nat }.
Definition NewStaticJWKKeyProvider : nat -> staticKeySet := mkStaticKeySet.
(** [Clone] of a key set: a new one with the same keys. *)
Definition clone_keys (p : nat) (heap : list KeySet) : list KeySet * (nat + goerror) :=
  match heap !! p with
  | Some ks => (heap ++ [ks], inl (length heap))
  | None => (heap, inr (ENew "nil key set"))
  end.
#[export] Instance static_provider : KeyProvider staticKeySet := {|
  kp_LookupKey p heap kid alg :=
    match heap !! sk_keyset p with
    | Some ks => publicKeyFromKeySet ks kid alg
    | None => inr (ENew "nil key set")
    end;
  kp_Fetch p heap := clone_keys (sk_keyset p) heap;
  kp_Close p := p;
|}.

(** [cachingKeyProvider]: what its auto refresh has for the URI at the moment,
    and whether the refresh was cancelled. *)
Record cachingKeyProvider := mkCaching { cp_cancelled : bool; cp_cached : nat + goerror; cp_jwksURI : string }.
#[export] Instance caching_provider : KeyProvider cachingKeyProvider := {|
  kp_LookupKey p heap kid alg :=
    match cp_cached p with
    | inr err => inr err
    | inl ks => match heap !! ks with Some keyset => publicKeyFromKeySet keyset kid alg | None => inr (ENew "nil key set") end
    end;
  kp_Fetch p heap := match cp_cached p with inr err => (heap, inr err) | inl ks => clone_keys ks heap end;
  kp_Close p := mkCaching true (cp_cached p) (cp_jwksURI p);
|}.

(** [NewCachingOIDCJWKKeyProvider]: the discovery document of the issuer, as
    issuer and URI of its keys, and the first refresh of these. The result says
    whether an auto refresh was left running. *)
Definition DiscoveryEndpoint : string := "/.well-known/openid-configuration".
Definition ErrIssuerInvalid : goerror := ENew "issuer does not match".
Definition NewCachingOIDCJWKKeyProvider (get : string -> string * string + goerror) (Refresh : string -> nat + goerror)
    (issuer : string) : (cachingKeyProvider + goerror) * bool :=
  let wellKnown := trim_suffix "/" issuer +:+ DiscoveryEndpoint in
  match get wellKnown with
  | inr err => (inr err, false)
  | inl (discoveredIssuer, jwksURI) =>
      if negb (bool_decide (discoveredIssuer = issuer)) then (inr ErrIssuerInvalid, false)
      else
        match Refresh jwksURI with
        | inr err => (inr err, false)   (* cancel() *)
        | inl keyset => (inl (mkCaching false (inl keyset) jwksURI), true)
        end
  end.

(** [MakeJWKSKeyProvider] and [MakeOIDCKeyProvider], as the key function of a
    token. *)
Definition MakeJWKSKeyProvider {P} `{KeyProvider P} (p : P) (heap : list KeySet) : parsedToken -> Key + goerror :=
  oidc_TokenVerificationKey (kp_LookupKey p heap).
Definition MakeOIDCKeyProvider (get : string -> string * string + goerror) (Refresh : string -> nat + goerror) (issuer : string)
    (heap : list KeySet) : (parsedToken -> Key + goerror) + goerror :=
  match fst (NewCachingOIDCJWKKeyProvider get Refresh issuer) with
  | inr err => inr err
  | inl provider => inl (MakeJWKSKeyProvider provider heap)
  end.

(** [WithExternalAuthOIDCTokenVerifier]: the option, and the provider that its
    second result closes. *)
Definition WithExternalAuthOIDCTokenVerifier {PrivKey D UI SI UH SH DOpt Hook Conf} `{Jwt Key PrivKey} (quote : string -> string) (get : string -> string * string + goerror)
    (Refresh : string -> nat + goerror) (issuer : string) (heap : list KeySet)
    : ServerOption (Key:=Key) (PrivKey:=PrivKey) (D:=D) (UI:=UI) (SI:=SI) (UH:=UH) (SH:=SH) (DOpt:=DOpt) (Hook:=Hook) (Conf:=Conf) * cachingKeyProvider + goerror :=
  match fst (NewCachingOIDCJWKKeyProvider get Refresh issuer) with
  | inr err => inr err
  | inl provider => inl (WithExternalTokenVerificationKeyProvider quote (Some (MakeJWKSKeyProvider provider heap)), provider)
  end.

(** ** What they promise *)

(** With the option for an issuer external tokens are verified by the keys that
    were discovered for it, which the returned function closes; it is refused
    where another provider was set. *)
Lemma oidc_option_verifies {PrivKey D UI SI UH SH DOpt Hook Conf} `{Jwt Key PrivKey} quote get Refresh issuer heap opt provider o o' :
  WithExternalAuthOIDCTokenVerifier (PrivKey:=PrivKey) (D:=D) (UI:=UI) (SI:=SI) (UH:=UH) (SH:=SH) (DOpt:=DOpt) (Hook:=Hook) (Conf:=Conf)
    quote get Refresh issuer heap = inl (opt, provider) -> opt o = inl o' ->
  ah_TokenVerificationKeyProvider <$> (so_authHandlersForCreds o' !! CredentialsTypeExternal) = Some (Some (MakeJWKSKeyProvider provider heap)).
Proof.
  unfold WithExternalAuthOIDCTokenVerifier. destruct (NewCachingOIDCJWKKeyProvider get Refresh issuer).1 as [pr|]; [|done]. intros [= <- <-].
  unfold WithExternalTokenVerificationKeyProvider, WithTokenVerificationKeyProvider, withCredAuthHandlers. cbn.
  set (h := default _ _). destruct (ah_TokenVerificationKeyProvider h); [done|]. intros [= <-]. cbn. by rewrite lookup_insert_eq.
Qed.

(** A key that is looked up has the identifier and the algorithm of the token. *)
Lemma publicKey_spec keyset kid alg k :
  publicKeyFromKeySet keyset kid alg = inl k <->
  exists key, LookupKeyID keyset kid = Some key /\ jk_Algorithm key = alg /\ jk_Raw key = inl k.
Proof.
  unfold publicKeyFromKeySet. destruct (LookupKeyID keyset kid) as [key|]; [|split; [done|by intros (? & ? & _)]].
  case_bool_decide as Ha; cbn [negb].
  - destruct (jk_Raw key) as [k'|err] eqn:Hr; (split; [intros; simplify_eq; by exists key|intros (? & ? & ? & ?); simplify_eq; congruence]).
  - split; [done|]. intros (? & ? & ? & ?). by simplify_eq.
Qed.

(** What a consumer does to a key set that it fetched does not change what the
    provider looks up, nor what it gives the next one. *)
Theorem fetched_keys_are_copies p heap heap1 q changed kid alg :
  (sk_keyset p < length heap)%nat -> kp_Fetch p heap = (heap1, inl q) ->
  let heap2 := <[q := changed]> heap1 in
  kp_LookupKey p heap2 kid alg = kp_LookupKey p heap kid alg /\
  exists heap3 q', kp_Fetch p heap2 = (heap3, inl q') /\ heap3 !! q' = heap !! sk_keyset p /\ q' <> q.
Proof.
  intros Hp. cbn. unfold clone_keys. destruct (heap !! sk_keyset p) as [ks|] eqn:Hk; [|done]. intros [= <- <-].
  assert (H1 : <[length heap := changed]> (heap ++ [ks]) !! sk_keyset p = Some ks).
  { rewrite list_lookup_insert_ne by lia. by rewrite lookup_app_l. }
  rewrite H1. split; [done|]. do 2 eexists. split; [done|]. split; [|rewrite length_insert, length_app; cbn; lia].
  by rewrite lookup_app_r, Nat.sub_diag.
Qed.

(** A provider from an issuer exists only when the issuer's own document names
    it, and has its keys; otherwise no refresh is left running. *)
Theorem oidc_provider_spec get Refresh issuer :
  match NewCachingOIDCJWKKeyProvider get Refresh issuer with
  | (inl p, running) => running = true /\ cp_cancelled p = false /\
      get (trim_suffix "/" issuer +:+ DiscoveryEndpoint) = inl (issuer, cp_jwksURI p) /\
      exists ks, Refresh (cp_jwksURI p) = inl ks /\ cp_cached p = inl ks
  | (inr _, running) => running = false
  end.
Proof.
  unfold NewCachingOIDCJWKKeyProvider. destruct (get _) as [[i uri]|err] eqn:Hg; [|done].
  case_bool_decide as Hi; [|done]. cbn [negb]. destruct (Refresh uri) as [ks|err] eqn:Hr; [|done]. subst i. cbn. split_and!; try done. by exists ks.
Qed.

(** C35: With the keys of a key set, a token is only accepted for a key of its own
    identifier and algorithm: the algorithm of the token's header cannot be
    exchanged for another one. *)
Theorem key_set_tokens_are_verified {PrivKey D : Type} `{Jwt Key PrivKey} `{!JwtLaws Key PrivKey} `{Multierr goerror} `{GrpcStatus}
    (ss : simpleServer (Key:=Key) (PrivKey:=PrivKey) (D:=D)) quote (p : staticKeySet) (heap : list KeySet) tokenString handlers claims :
  parse_token ss quote tokenString = inl (handlers, claims) ->
  ah_TokenVerificationKeyProvider handlers = Some (MakeJWKSKeyProvider p heap) ->
  exists t kid keyset key k, claims = pt_claims t /\ pt_kid t = Some kid /\ heap !! sk_keyset p = Some keyset /\
    LookupKeyID keyset kid = Some key /\ jk_Algorithm key = pt_method t /\ jk_Raw key = inl k /\
    pt_method t ∈ validSigningMethods /\ GoodSignature tokenString t k.
Proof.
  intros Hp Hprov. destruct (parse_token_spec _ _ _ _ _ Hp) as (t & k & -> & Hm & Hk & Hg & _).
  unfold verification_key in Hk. destruct (authHandlers _ _ _) as [h|]; [|done].
  assert (h = handlers) as ->.
  { destruct (ah_TokenVerificationKeyProvider h) as [pr|]; [destruct (pr t); congruence|]. repeat case_match; congruence. }
  rewrite Hprov in Hk. unfold MakeJWKSKeyProvider, oidc_TokenVerificationKey in Hk. destruct (pt_kid t) as [kid|] eqn:Hkid; [|done].
  cbn in Hk. destruct (heap !! sk_keyset p) as [keyset|] eqn:Hh; [|done].
  destruct (publicKeyFromKeySet keyset kid (pt_method t)) as [k'|] eqn:Hpk; [|done]. injection Hk as ->.
  apply publicKey_spec in Hpk as (key & ? & ? & ?). exists t, kid, keyset, key, k. done.
Qed.
End KeySets.

(** ** Secrets: [secrets/] *)

Definition ErrNotFound : goerror := ENew "secret not found".

(** [Source]: its type, looking a secret up, and closing. *)
Record Source := mkSource { so_Type : string; so_Get : string -> string + goerror; so_Close : option goerror }.
Definition SourceTypeEnv : string := "env".
Definition SourceTypeGCP : string := "gcp".

Section Secrets.
Context `{GrpcStatus}.
(** The environment, and of the secret manager: the client, the project, the
    answers, and closing the client. *)
Context (LookupEnv : string -> option string) (NewClient : option goerror) (getProjectID : string + goerror).
Context (AccessSecretVersion : string -> string + goerror) (closeClient : option goerror).

Definition EnvSource : Source :=
  mkSource SourceTypeEnv (fun name => match LookupEnv name with None => inr ErrNotFound | Some secret => inl secret end) None.

(** [errors.Unwrap]. *)
Definition Unwrap (err : goerror) : option goerror := match err with EWrap _ e => Some e | _ => None end.
Definition gcp_secret_name (id name : string) : string := "projects/" +:+ id +:+ "/secrets/" +:+ name +:+ "/versions/latest".
Definition gcp_Get (id name : string) : string + goerror :=
  match AccessSecretVersion (gcp_secret_name id name) with
  | inl secret => inl secret
  | inr err =>
      match status_Convert (Unwrap err) with
      | Some (NotFound, _) => inr ErrNotFound
      | _ => inr (EWrap "failed to access secret version" err)
      end
  end.

(** [NewGCPSource]; the number of clients that are left open. *)
Definition NewGCPSource : (Source + goerror) * nat :=
  match NewClient with
  | Some err => (inr err, 0%nat)
  | None =>
      match getProjectID with
      | inr err => (inr err, 1%nat)
      | inl id => (inl (mkSource SourceTypeGCP (gcp_Get id) closeClient), 1%nat)
      end
  end.
Definition NewSource (sourceType : string) : (Source + goerror) * nat :=
  if bool_decide (sourceType = SourceTypeGCP) then NewGCPSource
  else if bool_decide (sourceType = EmptyString \/ sourceType = SourceTypeEnv) then (inl EnvSource, 0%nat)
  else (inr (ENew ("unknown secret source type " +:+ sourceType)), 0%nat).

(** [MustGet]; [None] is a panic. *)
Definition MustGet (source : Source) (name : string) : option string :=
  match so_Get source name with inl v => Some v | inr _ => None end.

(** A source has the type that was asked for, the environment by default. *)
Theorem sources_have_their_type sourceType s n :
  NewSource sourceType = (inl s, n) ->
  so_Type s = (if bool_decide (sourceType = EmptyString) then SourceTypeEnv else sourceType) /\
  (so_Type s = SourceTypeEnv -> forall name, so_Get s name = match LookupEnv name with None => inr ErrNotFound | Some v => inl v end).
Proof.
  unfold NewSource, NewGCPSource. case_bool_decide as Hgcp.
  - destruct NewClient; [done|]. destruct getProjectID; [|done]. intros [= <- <-]. by subst sourceType.
  - case_bool_decide as Henv; [|done]. intros [= <- <-]. split; [|done]. destruct Henv as [->| ->]; done.
Qed.

(** A client is left open when the project cannot be found. *)
Theorem gcp_client_is_leaked err : NewClient = None -> getProjectID = inr err -> NewSource SourceTypeGCP = (inr err, 1%nat).
Proof. intros Hc Hid. unfold NewSource, NewGCPSource. by rewrite Hc, Hid. Qed.
End Secrets.

(** ** Installing an identity provider: [web/auth0.go] *)

Record AuthProviderConfig := mkAuthProviderConfig {
  ac_Domain : string; ac_ClientID : string; ac_Secret : string; ac_BaseURL : string;
  ac_PostLogoutRedirectURL : string; ac_EnableTest : bool;
}.
Record AuthProvider := mkAuthProvider {
  ap_config : AuthProviderConfig; ap_redirectURL : string; ap_stateCookieName : string; ap_stateCookieMaxAge : Z;
  ap_RedirectURL : string;           (* of the OAuth configuration *)
  ap_Scopes : list string;
}.

(** The handlers of [installAuthProviderRoutes]. *)
Inductive authRoute :=
  | LoginHandler (cookie : string) (maxAge : Z)
  | CallbackHandler (cookie : string)
  | LogoutHandler (providerLogoutURL : string)
  | TokenHandler
  | TokenCallbackHandler.

(** [installAuthProvider]; [provider] is the provider of a domain. *)
Definition installAuthProvider (provider : string -> option goerror) (haveSessions : bool) (config : AuthProviderConfig)
    (redirectURL providerCookieName : string) : AuthProvider + goerror :=
  if bool_decide (ac_Domain config = EmptyString) then inr (ENew "need a domain for auth provider")
  else if bool_decide (ac_BaseURL config = EmptyString) then inr (ENew "need a base URL for auth provider")
  else if negb haveSessions then inr (ENew "sessions needed for auth provider")
  else if bool_decide (ac_PostLogoutRedirectURL config = EmptyString) then inr (ENew "need a post logout redirect url")
  else
    match provider (ac_Domain config) with
    | Some err => inr (EWrap "failed to get provider" err)
    | None =>
        inl (mkAuthProvider config redirectURL providerCookieName 600 (ac_BaseURL config +:+ redirectURL) ["openid"; "profile"; "email"]%string)
    end.
Definition installAuthProviderRoutes (p : AuthProvider) (providerLogoutURL redirectURL cookie : string) (maxAge : Z) : list (string * authRoute) :=
  [("/login", LoginHandler cookie maxAge); (redirectURL, CallbackHandler cookie);
   ("/logout", LogoutHandler providerLogoutURL); ("/token", TokenHandler)]%string ++
  (if ac_EnableTest (ap_config p) then [("/token-callback"%string, TokenCallbackHandler)] else []).
Definition with_logout (url : string) (c : AuthProviderConfig) : AuthProviderConfig :=
  mkAuthProviderConfig (ac_Domain c) (ac_ClientID c) (ac_Secret c) (ac_BaseURL c) url (ac_EnableTest c).
Definition install_with (logoutParam cookieName logoutURL : string) (provider : string -> option goerror) (haveSessions : bool)
    (config : AuthProviderConfig) : (AuthProvider * list (string * authRoute)) + goerror :=
  match installAuthProvider provider haveSessions (with_logout logoutParam config) "/callback" cookieName with
  | inr err => inr err
  | inl p => inl (p, installAuthProviderRoutes p logoutURL (ap_redirectURL p) (ap_stateCookieName p) (ap_stateCookieMaxAge p))
  end.
Definition InstallAuth0 := install_with "returnTo" "auth0_redirect_state" "/v2/logout".
Definition InstallFusionAuth := install_with "post_logout_redirect_uri" "fa_redirect_state" "/oauth2/logout".

(** The login and the callback of an installed provider share the cookie that
    holds the state, which no other kind of provider uses; the provider is told
    to come back to the callback that is installed; the way around the provider
    exists only when it is asked for. *)
Theorem installed_routes_fit provider haveSessions config p routes :
  (InstallAuth0 provider haveSessions config = inl (p, routes) \/ InstallFusionAuth provider haveSessions config = inl (p, routes)) ->
  haveSessions = true /\ ac_Domain config <> EmptyString /\ ac_BaseURL config <> EmptyString /\ provider (ac_Domain config) = None /\
  ("/login"%string, LoginHandler (ap_stateCookieName p) 600) ∈ routes /\
  (ap_redirectURL p, CallbackHandler (ap_stateCookieName p)) ∈ routes /\
  ap_RedirectURL p = ac_BaseURL config +:+ ap_redirectURL p /\
  ((exists path, (path, TokenCallbackHandler) ∈ routes) <-> ac_EnableTest config = true) /\
  (InstallAuth0 provider haveSessions config = inl (p, routes) -> InstallFusionAuth provider haveSessions config <> inl (p, routes)).
Proof.
  unfold InstallAuth0, InstallFusionAuth, install_with, installAuthProvider. cbn [ac_Domain ac_BaseURL ac_PostLogoutRedirectURL with_logout].
  repeat case_bool_decide; try (by intros [|]). destruct haveSessions; cbn [negb]; [|by intros [|]].
  destruct (provider (ac_Domain config)) as [err|] eqn:Hp; [by intros [|]|].
  intros [[= <- <-]|[= <- <-]]; cbn [ap_stateCookieName ap_redirectURL ap_stateCookieMaxAge ap_RedirectURL];
    split_and!; try done; unfold installAuthProviderRoutes; cbn; try (by repeat constructor); try (by right; left);
    destruct (ac_EnableTest config); (split; [|done || by exists "/token-callback"%string; repeat constructor]); try done;
    by intros [path Hin]; rewrite !elem_of_cons, elem_of_nil in Hin; destruct_or! Hin.
Qed.

(** ** Concrete inputs *)

Module KeysExample.
Local Open Scope nat_scope.
Import SimpleErrors OneToken.

(** A set with one key, and a server that verifies with it. *)
Definition Lookup (ks : string) (kid : string) : option (jwkKey nat) :=
  if bool_decide (kid = "key1"%string) then Some (mkJwkKey "EdDSA" (inl 4)) else None.
Definition provider : parsedToken -> nat + goerror :=
  MakeJWKSKeyProvider (KeySet:=string) (P:=staticKeySet) (H:=static_provider Lookup) (NewStaticJWKKeyProvider 0) ["keys"%string].
Definition jwks_server : simpleServer (Key:=nat) (PrivKey:=nat) (D:=nat) :=
  mkSimpleServer {[ "robot-secret"%string := mkHandlers None None (Some provider) ]} ["here"%string] "here" ∅ "other" "EdDSA" 9
    ∅ ∅ None (fun _ => inr (ENew "no")) None.

Lemma key_set_tokens_are_verified_witness :
  exists handlers, parse_token jwks_server id "tok" = inl (handlers, claims0) /\ exists kid key, Lookup "keys" kid = Some key /\ jk_Algorithm key = "EdDSA"%string.
Proof.
  assert (Hp : parse_token jwks_server id "tok" = inl (mkHandlers None None (Some provider), claims0)) by (vm_compute; reflexivity).
  exists (mkHandlers None None (Some provider)). split; [exact Hp|].
  destruct (key_set_tokens_are_verified Lookup jwks_server id (NewStaticJWKKeyProvider 0) ["keys"%string] "tok" _ _ Hp eq_refl)
    as (t & kid & ks & key & k & _ & Hkid & Hks & Hl & Ha & Hr & _ & Hg).
  exists kid, key. destruct ks as [|]; [done|]. injection Hks as <- <-. split; [exact Hl|]. rewrite Ha. destruct Hg as (_ & -> & _). reflexivity.
Defined.

Lemma fetched_keys_are_copies_witness :
  kp_LookupKey (KeyProvider:=static_provider Lookup) (mkStaticKeySet 0) (<[1 := "changed"%string]> ["keys"; "keys"]%string) "key1" "EdDSA" = inl 4.
Proof.
  destruct (fetched_keys_are_copies Lookup (mkStaticKeySet 0) ["keys"%string] ["keys"; "keys"]%string 1 "changed"%string "key1" "EdDSA") as [H _];
    [cbn; lia|reflexivity|]. etransitivity; [exact H|reflexivity].
Defined.

Definition cfg : AuthProviderConfig := mkAuthProviderConfig "dom" "id" "s" "https://x" EmptyString false.
Lemma installed_routes_fit_witness : exists p routes, InstallAuth0 (fun _ => None) true cfg = inl (p, routes) /\ ap_RedirectURL p = "https://x/callback"%string.
Proof.
  do 2 eexists. split; [reflexivity|].
  pose proof (installed_routes_fit (fun _ => None) true cfg _ _ (or_introl eq_refl)) as H. exact (proj1 (proj2 (proj2 (proj2 (proj2 (proj2 (proj2 H))))))).
Defined.
End KeysExample.
