(* ===== verification/ProcessKill.v ===== *)
(** * Stopping a process: [pexec/managed_process_unix.go] and
      [pexec/managed_process_windows.go]

    [kill] with its escalation from a signal to the process over one to its
    group to SIGKILL, against the time at which the process ceases to be managed.
    Times count from the call; whether signals can be sent is an argument. The
    last section places the outcomes in the step relation of [ManagedProcess]. *)

From S2P Require Import Prelude GoError GoStrings BaseStream ManagedProcess.
From Stdlib Require Import Ascii.

Local Open Scope Z_scope.

(** ** Signals and attributes *)

Definition SIGHUP : Z := 1.
Definition SIGINT : Z := 2.
Definition SIGQUIT : Z := 3.
Definition SIGABRT : Z := 6.
Definition SIGKILL : Z := 9.
Definition SIGUSR1 : Z := 10.
Definition SIGUSR2 : Z := 12.
Definition SIGTERM : Z := 15.
Definition knownSignals : list Z := [SIGHUP; SIGINT; SIGQUIT; SIGABRT; SIGUSR1; SIGUSR2; SIGTERM].
Definition sigStr (sig : Z) : string :=
  if sig =? SIGHUP then "SIGHUP" else if sig =? SIGINT then "SIGINT" else if sig =? SIGQUIT then "SIGQUIT"
  else if sig =? SIGABRT then "SIGABRT" else if sig =? SIGUSR1 then "SIGUSR1" else if sig =? SIGUSR2 then "SIGUSR2"
  else if sig =? SIGTERM then "SIGTERM" else "<UNKNOWN>".

(** The attributes of a new process: its own process group, and the user to run
    as. *)
Record SysProcAttr := mkSysProcAttr { sp_Setpgid : bool; sp_Credential : option (Z * Z) }.
Inductive attrError := LookupError (e : goerror) | NumError (e : numError).

(** [sysProcAttr]; [Lookup] gives the identifiers of a user and its group. *)
Definition sysProcAttr (Lookup : string -> string * string + goerror) (username : string) : SysProcAttr + attrError :=
  match username with
  | EmptyString => inl (mkSysProcAttr true None)
  | _ =>
      match Lookup username with
      | inr err => inr (LookupError err)
      | inl (Uid, Gid) =>
          match ParseUint 10 32 Uid with
          | inr err => inr (NumError err)
          | inl uid =>
              match ParseUint 10 32 Gid with
              | inr err => inr (NumError err)
              | inl gid => inl (mkSysProcAttr true (Some (uid mod 2 ^ 32, gid mod 2 ^ 32)))
              end
          end
      end
  end.

(** ** Killing *)

(** What the system says to a signal. [Process.Signal] reports a process that is
    gone as os.ErrProcessDone, [syscall.Kill] as ESRCH. *)
Inductive sysErr := ErrProcessDone | ESRCH | OtherErr (msg : string).
#[export] Instance sysErr_eqdec : EqDecision sysErr.
Proof. solve_decision. Defined.
Inductive killTarget := TheProcess | ItsGroup.
#[export] Instance killTarget_eqdec : EqDecision killTarget.
Proof. solve_decision. Defined.
Record sent := mkSent { sn_time : Z; sn_target : killTarget; sn_signal : Z }.
#[export] Instance sent_eqdec : EqDecision sent.
Proof. solve_decision. Defined.

(** [err != nil && !errors.Is(err, os.ErrProcessDone)]. *)
Definition fatal_err (r : option sysErr) : option sysErr :=
  match r with Some e => if bool_decide (e = ErrProcessDone) then None else Some e | None => None end.

(** The results of one call: the signals that were sent (or tried), when it
    returned, and what. *)
Record killed := mkKilled { kl_sent : list sent; kl_time : Z; kl_result : bool + sysErr }.

Section Kill.
(** The interval, when the process ceases to be managed, if it does, and which
    of two events of the same time a select takes. *)
Context (stopWaitInterval : Z) (managed : option Z) (tie : bool).

(** A select between a timer that fires at [deadline] and managingCh, from the
    time [now]: the time, and whether it was the timer. *)
Definition select_timer (now deadline : Z) : Z * bool :=
  match managed with
  | Some m =>
      if (m <? deadline) || ((m =? deadline) && tie) then (Z.max now m, false) else (deadline, true)
  | None => (deadline, true)
  end.

Definition kill (stopSig : Z) (signalErr groupErr killErr : option sysErr) : killed :=
  let s0 := [mkSent 0 TheProcess stopSig] in
  match fatal_err signalErr with
  | Some e => mkKilled s0 0 (inr e)
  | None =>
      let '(t1, fired1) := select_timer 0 stopWaitInterval in
      let s1 := if fired1 then s0 ++ [mkSent t1 ItsGroup stopSig] else s0 in
      match (if fired1 then fatal_err groupErr else None) with
      | Some e => mkKilled s1 t1 (inr e)
      | None =>
          let '(t2, fired2) := select_timer t1 (t1 + stopWaitInterval * 2) in
          if fired2 then
            let s2 := s1 ++ [mkSent t2 ItsGroup SIGKILL] in
            match fatal_err killErr with
            | Some e => mkKilled s2 t2 (inr e)
            | None => mkKilled s2 t2 (inl true)
            end
          else mkKilled s1 t2 (inl false)
      end
  end.

(** ** Windows *)

(** What taskkill answers, as far as its output is looked at. *)
Inductive taskkill := TkOk | TkMustForce | TkNotFound | TkOther (msg : string).
Record tkCall := mkTkCall { tk_time : Z; tk_tree : bool; tk_force : bool }.
#[export] Instance tkCall_eqdec : EqDecision tkCall.
Proof. solve_decision. Defined.
Record winKilled := mkWinKilled { wk_calls : list tkCall; wk_time : Z; wk_result : bool + string }.

Definition win_force (calls : list tkCall) (now : Z) (r : option string) : winKilled :=
  let calls := calls ++ [mkTkCall now true true] in
  match r with Some e => mkWinKilled calls now (inr e) | None => mkWinKilled calls now (inl true) end.
Definition win_wait_force (calls : list tkCall) (now : Z) (force : option string) : winKilled :=
  let '(t2, fired2) := select_timer now (now + stopWaitInterval * 2) in
  if fired2 then win_force calls t2 force else mkWinKilled calls t2 (inl false).
Definition win_kill (ask askTree : taskkill) (force : option string) : winKilled :=
  let c0 := [mkTkCall 0 false false] in
  match ask with
  | TkNotFound => mkWinKilled c0 0 (inl false)
  | TkOther e => mkWinKilled c0 0 (inr e)
  | TkMustForce => win_force c0 0 force
  | TkOk =>
      let '(t1, fired1) := select_timer 0 stopWaitInterval in
      if fired1 then
        let c1 := c0 ++ [mkTkCall t1 true false] in
        match askTree with
        | TkNotFound => mkWinKilled c1 t1 (inl false)
        | TkOther e => mkWinKilled c1 t1 (inr e)
        | TkMustForce => win_force c1 t1 force
        | TkOk => win_wait_force c1 t1 force
        end
      else win_wait_force c0 t1 force
  end.
End Kill.

(** [sysProcAttr], [parseSignal] and [isWaitErrUnknown] of Windows. *)
Definition win_sysProcAttr (username : string) : unit + goerror :=
  match username with
  | EmptyString => inl tt
  | _ => inr (ENew ("can't run as user " +:+ username +:+ ", not supported yet on windows"))
  end.
Definition win_parseSignal (sigStr : string) : Z + goerror :=
  match sigStr with EmptyString => inl 0 | _ => inr (ENew "signals not supported on Windows") end.
Definition win_isWaitErrUnknown (err : string) (forceKilled : bool) : bool :=
  forceKilled && bool_decide (err = "exit status 1"%string).

(** ** How long and how hard *)

Lemma select_timer_spec managed tie now deadline t fired :
  now <= deadline -> select_timer managed tie now deadline = (t, fired) ->
  now <= t <= deadline /\
  (if fired then t = deadline /\ forall m, managed = Some m -> deadline <= m
   else exists m, managed = Some m /\ m <= deadline /\ t = Z.max now m).
Proof.
  intros Hn. unfold select_timer. destruct managed as [m|].
  - destruct (Z.ltb_spec m deadline); cbn [orb]; [|destruct (Z.eqb_spec m deadline), tie; cbn [andb]]; intros [= <- <-];
      (split; [lia|]); first [by exists m; split_and!; [done|lia|lia]|by split; [done|intros ? [= <-]; lia]].
  - intros [= <- <-]. split; [lia|]. by split.
Qed.

(** How long a managed process is still watched, as a bound: it ceases to be
    managed before, or after, a time. *)
Definition managed_until (managed : option Z) (from : Z) : Prop := forall m, managed = Some m -> from <= m.


(** A process group that is already gone is an error, although the code means to
    ignore that: syscall.Kill says ESRCH, which is not os.ErrProcessDone. The call
    returns before the process ceases to be managed, and nothing is forced. *)
Theorem gone_group_is_an_error w tie stopSig killErr :
  0 < w -> forall managed, managed_until managed (w + 1) ->
  kill w managed tie stopSig None (Some ESRCH) killErr =
  mkKilled [mkSent 0 TheProcess stopSig; mkSent w ItsGroup stopSig] w (inr ESRCH).
Proof.
  intros Hw managed Hm. unfold kill. cbn [fatal_err]. destruct (select_timer managed tie 0 w) as [t1 fired1] eqn:H1.
  apply select_timer_spec in H1 as [Ht1 H1]; [|lia]. destruct fired1; [by destruct H1 as [-> _]|].
  destruct H1 as (m & Hme & Hle & _). specialize (Hm m Hme). lia.
Qed.

(** On Windows, too, a call returns within three intervals; it says that it has
    forced exactly when its last request was a forced one that succeeded, and
    after an answer "not found" it asks for nothing more. *)
Theorem win_killing_escalates w managed tie ask askTree force :
  0 < w -> (forall m, managed = Some m -> 0 <= m) ->
  let r := win_kill w managed tie ask askTree force in
  0 <= wk_time r <= 3 * w /\
  (wk_result r = inl true <-> force = None /\ exists calls, wk_calls r = calls ++ [mkTkCall (wk_time r) true true]) /\
  (ask = TkNotFound -> r = mkWinKilled [mkTkCall 0 false false] 0 (inl false)) /\
  (ask = TkMustForce -> wk_calls r = [mkTkCall 0 false false; mkTkCall 0 true true]).
Proof.
  intros Hw Hm r. subst r.
  assert (Hlast : forall (calls calls' : list tkCall) x y, calls ++ [x] = calls' ++ [y] -> x = y) by (intros ???? [_ ?]%app_inj_tail; done).
  assert (Hforce : forall calls t, 0 <= t <= 3 * w -> let r := win_force calls t force in
    0 <= wk_time r <= 3 * w /\ (wk_result r = inl true <-> force = None /\ exists c, wk_calls r = c ++ [mkTkCall (wk_time r) true true])).
  { intros calls t Ht. unfold win_force. destruct force; cbn; (split; [done|]); split; [done|by intros [? _]|eauto|done]. }
  assert (Hunforced : forall calls x t, 0 <= t <= 3 * w -> tk_force x = false -> let r := mkWinKilled (calls ++ [x]) t (inl false) in
    0 <= wk_time r <= 3 * w /\ (wk_result r = inl true <-> force = None /\ exists c, wk_calls r = c ++ [mkTkCall (wk_time r) true true])).
  { intros calls x t Ht Hx. cbn. split; [done|]. split; [done|]. intros [_ [c Hc]]. apply Hlast in Hc. by subst x. }
  assert (Hwait : forall calls x now, 0 <= now <= w -> tk_force x = false -> let r := win_wait_force w managed tie (calls ++ [x]) now force in
    0 <= wk_time r <= 3 * w /\ (wk_result r = inl true <-> force = None /\ exists c, wk_calls r = c ++ [mkTkCall (wk_time r) true true])).
  { intros calls x now Hn Hx. unfold win_wait_force. destruct (select_timer managed tie now (now + w * 2)) as [t2 fired2] eqn:H2.
    apply select_timer_spec in H2 as [Ht2 _]; [|lia]. destruct fired2; [apply Hforce; lia|apply Hunforced; [lia|done]]. }
  assert (Herr : forall calls x t e, 0 <= t <= 3 * w -> tk_force x = false -> let r := mkWinKilled (calls ++ [x]) t (inr e) in
    0 <= wk_time r <= 3 * w /\ (wk_result r = inl true <-> force = None /\ exists c, wk_calls r = c ++ [mkTkCall (wk_time r) true true])).
  { intros calls x t e Ht Hx. cbn. split; [done|]. split; [done|]. intros [_ [c Hc]]. apply Hlast in Hc. by subst x. }
  rewrite (and_assoc (0 <= _ <= _)). split; [|split; [by intros ->|intros ->; cbn; unfold win_force; by destruct force]].
  unfold win_kill. destruct ask; [|apply Hforce; lia|apply (Hunforced []); [lia|done]|apply (Herr []); [lia|done]].
  destruct (select_timer managed tie 0 w) as [t1 fired1] eqn:H1. apply select_timer_spec in H1 as [Ht1 _]; [|lia].
  destruct fired1; [|apply (Hwait []); [lia|done]].
  destruct askTree; [apply (Hwait [_]); [lia|done]|apply Hforce; lia|apply (Hunforced [_]); [lia|done]|apply (Herr [_]); [lia|done]].
Qed.

(** ** In the step relation *)

(** Every outcome of [kill] is one that the goroutine of Stop has in
    [ManagedProcess]: it fails, it forces, or it saw that the process is no longer
    managed. *)
Theorem kill_is_a_stop `{Multierr goerror} isECHILD showInt quotedName w managed tie stopSig signalErr groupErr killErr (text : sysErr -> goerror) p :
  mp_stop p = SSignal -> (managed <> None -> mp_managingClosed p = true) ->
  rtc (mstep isECHILD showInt quotedName UserStop) p
    (mp_set_stop (match kl_result (kill w managed tie stopSig signalErr groupErr killErr) with
                  | inl forced => SManaging forced
                  | inr e => SReturned (Some (text e))
                  end) p).
Proof.
  intros Hs Hc. set (R := mstep isECHILD showInt quotedName UserStop).
  assert (H1 : R p (mp_set_stop SWait1 p)) by (by apply ms_signal).
  assert (H2 : R (mp_set_stop SWait1 p) (mp_set_stop SWait2 p)).
  { change (mp_set_stop SWait2 p) with (mp_set_stop SWait2 (mp_set_stop SWait1 p)). by apply ms_wait1. }
  unfold kill. destruct (fatal_err signalErr) as [e|]; [by apply rtc_once, ms_signal_err|].
  destruct (select_timer managed tie 0 w) as [t1 fired1].
  destruct (if fired1 then fatal_err groupErr else None) as [e|].
  { eapply rtc_l; [exact H1|]. apply rtc_once. cbn [kl_result].
    change (mp_set_stop ?v p) with (mp_set_stop v (mp_set_stop SWait1 p)) at 2. by apply ms_wait1_err. }
  destruct (select_timer managed tie t1 (t1 + w * 2)) as [t2 fired2] eqn:Hsel.
  eapply rtc_l; [exact H1|]. eapply rtc_l; [exact H2|]. apply rtc_once. destruct fired2.
  - destruct (fatal_err killErr) as [e|]; cbn [kl_result]; change (mp_set_stop ?v p) with (mp_set_stop v (mp_set_stop SWait2 p)) at 2;
      [by apply ms_wait2_err|by apply ms_wait2_kill].
  - cbn [kl_result]. change (mp_set_stop ?v p) with (mp_set_stop v (mp_set_stop SWait2 p)) at 2.
    apply ms_wait2; [done|]. apply Hc. unfold select_timer in Hsel. by destruct managed.
Qed.

(** ** Attributes and names *)

(** A process always gets its own group; a user's process runs as that user, with
    identifiers of 32 bits that are the decimal ones of the user database. *)
Theorem process_attributes Lookup username :
  match sysProcAttr Lookup username with
  | inl a => sp_Setpgid a = true /\
      match sp_Credential a with
      | None => username = EmptyString
      | Some (uid, gid) => 0 <= uid < 2 ^ 32 /\ 0 <= gid < 2 ^ 32 /\
          exists u g, Lookup username = inl (u, g) /\ ParseUint 10 32 u = inl uid /\ ParseUint 10 32 g = inl gid
      end
  | inr _ => username <> EmptyString
  end.
Proof.
  unfold sysProcAttr. destruct username as [|c s]; [done|]. destruct (Lookup _) as [[u g]|]; [|done].
  destruct (ParseUint 10 32 u) as [uid|] eqn:Hu; [|done]. destruct (ParseUint 10 32 g) as [gid|] eqn:Hg; [|done]. cbn. split; [done|].
  pose proof (ParseUint_range 10 32 _ _ ltac:(lia) ltac:(lia) Hu) as Hu'. pose proof (ParseUint_range 10 32 _ _ ltac:(lia) ltac:(lia) Hg) as Hg'.
  rewrite !Z.mod_small by lia. eauto 10.
Qed.

(** The names of the known signals are parsed back, but for the user signals,
    which have no name that is parsed. *)
Theorem signal_names quote sig : sig ∈ knownSignals ->
  parseSignal quote (sigStr sig) = inl sig \/ (sig ∈ [SIGUSR1; SIGUSR2] /\ exists err, parseSignal quote (sigStr sig) = inr err).
Proof.
  unfold knownSignals. rewrite !elem_of_cons, elem_of_nil. intros Hs. destruct_or! Hs; subst sig; try (left; reflexivity).
  all: right; split; [auto|eexists; reflexivity].
Qed.

Lemma gone_group_is_an_error_witness :
  kl_result (kill 10 (Some 25) false SIGTERM None (Some ESRCH) None) = inr ESRCH.
Proof. rewrite (gone_group_is_an_error 10 false SIGTERM None) by (try lia; intros m [= <-]; lia). reflexivity. Defined.
