(* ===== verification/Coverage.v ===== *)
(** * The coverage analyzer: [etc/analyzecoverage/main.go]

    The tool that computes the coverage of every package from Go cover
    profiles, compares it with that of the merge base, stores it and writes a
    report. Parsing profiles and Go files, [go list], git and the database are
    arguments; so is the formatting of numbers. Percentages are exact rationals
    where the code has float64: the rounding of the division is left out. *)

From S2P Require Import Prelude GoError GoStrings GoRun.
From stdpp Require Import sorting.
From Stdlib Require Import QArith Qabs Sorting.Sorted.
Local Open Scope go_scope.
Local Open Scope Z_scope.

(** ** The coverage of a function *)

(** cover.ProfileBlock. *)
Record ProfileBlock := mkBlock {
  StartLine : Z; StartCol : Z; EndLine : Z; EndCol : Z; NumStmt : Z; Count : Z;
}.

Record FuncExtent := mkExtent {
  fe_name : string; startLine : Z; startCol : Z; endLine : Z; endCol : Z;
}.

(** The two tests of the loop of [coverage]. *)
Definition past (f : FuncExtent) (b : ProfileBlock) : bool :=
  (StartLine b >? endLine f) || ((StartLine b =? endLine f) && (StartCol b >=? endCol f)).
Definition before (f : FuncExtent) (b : ProfileBlock) : bool :=
  (EndLine b <? startLine f) || ((EndLine b =? startLine f) && (EndCol b <=? startCol f)).

Fixpoint coverage_loop (f : FuncExtent) (blocks : list ProfileBlock) (covered total : Z) : Z * Z :=
  match blocks with
  | [] => (covered, total)
  | b :: blocks' =>
      if past f b then (covered, total)
      else if before f b then coverage_loop f blocks' covered total
      else coverage_loop f blocks' (if Count b >? 0 then covered + NumStmt b else covered) (total + NumStmt b)
  end.

(** [FuncExtent.coverage]. *)
Definition coverage (f : FuncExtent) (blocks : list ProfileBlock) : Z * Z := coverage_loop f blocks 0 0.

(** [FuncVisitor.Visit] on the declarations of a file, in their order: those
    of functions with a body are collected. *)
Inductive astNode := FuncDecl (hasBody : bool) (extent : FuncExtent) | OtherNode.
Definition Visit (funcs : list FuncExtent) (n : astNode) : list FuncExtent :=
  match n with FuncDecl true fe => funcs ++ [fe] | _ => funcs end.

(** ** Packages *)

(** A cover.Profile; [Pkg] is what [go list] says of a package. *)
Record Profile := mkProfile { FileName : string; Blocks : list ProfileBlock }.
Record Pkg := mkPkg { ImportPath : string; pkg_Dir : string; pkg_Error : option string }.

Record funcOutputResult := mkFuncOutputResult { fo_covered : Z; fo_total : Z }.

Section Files.
Context (Dir Base : string -> string) (Join : string -> string -> string) (IsAbs : string -> bool).
Context (go_list : list string -> list Pkg + goerror) (parse : string -> list astNode + goerror).

Definition relative_or_absolute (file : string) : bool := String.prefix "." file || IsAbs file.

(** [findPkgs]: nil for every package of a profile, then what [go list] found. *)
Definition findPkgs (profiles : list Profile) : gmap string (option Pkg) + goerror :=
  let '(pkgs, names) :=
    foldl (fun '(pkgs, names) p =>
      if relative_or_absolute (FileName p) then (pkgs, names)
      else
        let pkg := Dir (FileName p) in
        match pkgs !! pkg with
        | Some _ => (pkgs, names)
        | None => (<[pkg := None]> pkgs, names ++ [pkg])
        end) (∅ : gmap string (option Pkg), []) profiles in
  match names with
  | [] => inl pkgs
  | _ =>
      match go_list names with
      | inr e => inr e
      | inl decoded => inl (foldl (fun m p => <[ImportPath p := Some p]> m) pkgs decoded)
      end
  end.

(** [findFile]. *)
Definition findFile (pkgs : gmap string (option Pkg)) (file : string) : string + goerror :=
  let missing := inr (ENew ("did not find package for " +:+ file +:+ " in go list output")) in
  if relative_or_absolute file then inl file
  else
    match pkgs !! Dir file with
    | Some (Some pkg) =>
        if negb (bool_decide (pkg_Dir pkg = EmptyString)) then inl (Join (pkg_Dir pkg) (Base file))
        else match pkg_Error pkg with Some e => inr (ENew e) | None => missing end
    | _ => missing
    end.

(** [findFuncs]. *)
Definition findFuncs (name : string) : list FuncExtent + goerror :=
  match parse name with inl nodes => inl (foldl Visit [] nodes) | inr e => inr e end.

Abbreviation resultsM := (prog (gmap string funcOutputResult) goerror).

(** A function of a file is added to its package: a package that is not there is a nil
    pointer. *)
Definition add_func (pkgs : gmap string (option Pkg)) (p : Profile) (f : FuncExtent) : resultsM unit :=
  let '(c, t) := coverage f (Blocks p) in
  match pkgs !! Dir (FileName p) with
  | Some (Some pkg) =>
      modify (fun results =>
        let r := default (mkFuncOutputResult 0 0) (results !! ImportPath pkg) in
        <[ImportPath pkg := mkFuncOutputResult (fo_covered r + c) (fo_total r + t)]> results)
  | _ => panics
  end.

(** [funcOutput] on the parsed profiles. *)
Definition funcOutput (profiles : list Profile) : ended goerror (gmap string funcOutputResult) :=
  match findPkgs profiles with
  | inr e => Err e
  | inl pkgs =>
      match for_each (fun p =>
              file ← ok_or (findFile pkgs (FileName p));
              funcs ← ok_or (findFuncs file);
              for_each (add_func pkgs p) funcs) profiles ∅ with
      | (results, Ret _) => Ret results
      | (_, Err e) => Err e
      | (_, Panicking) => Panicking
      end
  end.
End Files.

(** ** Percentages *)

Definition percent (covered total : Z) : Q :=
  let total := if total =? 0 then 1 else total in
  (inject_Z (100 * covered) / inject_Z total)%Q.

(** What is the same in all results of a run: when it was made and the values
    of the environment. *)
Record runInfo := mkRunInfo {
  CreatedAt : Z; GitSHA : string; GitBranch : string; GitHubRepository : string;
  GitHubRunID : Z; GitHubRunNumber : Z; GitHubRunAttempt : Z; GitHubIsPullRequest : bool;
}.

Record coverageResult := mkCoverageResult {
  cv_run : runInfo;
  LineCoveragePct : Q;
  LinesCovered : Z;
  LinesTotal : Z;
  Package : string;     (* empty in a summary *)
}.

(** ** Merging the profiles *)

Record profilesMerged := mkProfilesMerged {
  covResults : gmap string coverageResult;
  rawResults : gmap string funcOutputResult;
}.

(** The body of the loop over the results of one profile. *)
Definition merge_result (run : runInfo) (m : profilesMerged) (pkgName : string) (result : funcOutputResult) : profilesMerged :=
  let pctCovered := percent (fo_covered result) (fo_total result) in
  let put pct := mkProfilesMerged
    (<[pkgName := mkCoverageResult run pct (fo_covered result) (fo_total result) pkgName]> (covResults m))
    (<[pkgName := result]> (rawResults m)) in
  match covResults m !! pkgName with
  | None => put pctCovered
  | Some prev =>
      if (pctCovered ?= LineCoveragePct prev)%Q is Lt then put (LineCoveragePct prev)
      else if (pctCovered ?= LineCoveragePct prev)%Q is Eq then m
      else put pctCovered
  end.

(** All profiles; the first that fails ends the run. *)
Fixpoint merge_profiles (run : runInfo) (profiles : list (ended goerror (gmap string funcOutputResult))) (m : profilesMerged)
    : ended goerror profilesMerged :=
  match profiles with
  | [] => Ret m
  | Ret results :: profiles' =>
      merge_profiles run profiles' (foldl (fun m '(k, r) => merge_result run m k r) m (map_to_list results))
  | Err e :: _ => Err e
  | Panicking :: _ => Panicking
  end.

(** The summary over the raw results. *)
Definition summary (run : runInfo) (raw : gmap string funcOutputResult) : coverageResult :=
  let '(c, t) := foldl (fun '(c, t) '(_, r) => (c + fo_covered r, t + fo_total r)) (0, 0) (map_to_list raw) in
  mkCoverageResult run (percent c t) c t EmptyString.

(** ** The report *)

Definition lowerThreshold : Q := 50.
Definition upperThreshold : Q := 70.
Definition Qltb (a b : Q) : bool := if (a ?= b)%Q is Lt then true else false.

Record overallResults := mkOverall { or_packages : gmap string coverageResult; or_summary : coverageResult }.
Record closetMergeBaseResults := mkClosest { cm_base : string; cm_results : overallResults }.

Section Report.
(** %.0f and %.2f of fmt. *)
Context (fmt0 fmt2 : Q -> string).

Definition generateBadge (s : coverageResult) : string :=
  let color := if Qltb (LineCoveragePct s) lowerThreshold then "critical"
               else if Qltb (LineCoveragePct s) upperThreshold then "yellow" else "success" in
  "https://img.shields.io/badge/Code%20Coverage-" +:+ fmt0 (LineCoveragePct s) +:+ "%25-" +:+ color +:+ "?style=flat".

Definition generateHealthIndicator (rate : Q) : string :=
  if Qltb rate lowerThreshold then "❌" else if Qltb rate upperThreshold then "➖" else "✅".

(** The closure [getDelta]. *)
Definition getDelta (now past : coverageResult) : string :=
  let delta := (LineCoveragePct now - LineCoveragePct past)%Q in
  let delta := if Qltb (Qabs delta) (1 # 100) then 0%Q else delta in
  let deltaSign := if Qeq_bool delta 0 || Qltb delta 0 then EmptyString else "+" in
  let deltaStr := deltaSign +:+ fmt2 delta +:+ "%" in
  if Qltb 5 (Qabs delta) then "**" +:+ deltaStr +:+ "**" else deltaStr.

Definition newline : string := String (Ascii.ascii_of_nat 10) EmptyString.
Definition concat_strings (l : list string) : string := foldr String.append EmptyString l.

(** The row of a package. *)
Definition package_row (canDelta : bool) (past : gmap string coverageResult) (pkgName : string) (result : coverageResult) : string :=
  pkgName +:+ " | " +:+ fmt0 (LineCoveragePct result) +:+ "%" +:+
  (if canDelta then
     match past !! pkgName with
     | Some pastResult => " | " +:+ getDelta result pastResult
     | None => " | N/A"
     end
   else EmptyString) +:+
  " | " +:+ generateHealthIndicator (LineCoveragePct result) +:+ newline.

(** [sort.Strings] on the names of the packages. *)
Definition sorted_names {A} (m : gmap string A) : list string := merge_sort String.le (map_to_list m).*1.

Definition generateMarkdownOutput (results : overallResults) (badgeURL : string)
    (closest : option closetMergeBaseResults) (closestErr : option string) : string :=
  let canDelta := match closest with
                  | Some c => negb (bool_decide (or_packages (cm_results c) = ∅))
                  | None => false
                  end in
  let past := match closest with Some c => or_packages (cm_results c) | None => ∅ end in
  "![Code Coverage](" +:+ badgeURL +:+ ")" +:+ newline +:+ newline +:+
  match closestErr with Some e => "**Note: " +:+ e +:+ "**" +:+ newline | None => EmptyString end +:+
  match closest with
  | Some _ => if canDelta then EmptyString
              else "**Note: no suitable past coverage found to compare against**" +:+ newline
  | None => EmptyString
  end +:+
  "Package | Line Rate" +:+ (if canDelta then " | Delta" else EmptyString) +:+ " | Health" +:+ newline +:+
  "-------- | ---------" +:+ (if canDelta then " | ------" else EmptyString) +:+ " | ------" +:+ newline +:+
  concat_strings (omap (fun name => package_row canDelta past name <$> or_packages results !! name)
                    (sorted_names (or_packages results))) +:+
  "**Summary** | **" +:+ fmt0 (LineCoveragePct (or_summary results)) +:+ "%** (" +:+
  FormatInt (LinesCovered (or_summary results)) +:+ " / " +:+ FormatInt (LinesTotal (or_summary results)) +:+ ")" +:+
  match closest with
  | Some c => if canDelta then " | " +:+ getDelta (or_summary results) (or_summary (cm_results c)) else EmptyString
  | None => EmptyString
  end +:+
  " | " +:+ generateHealthIndicator (LineCoveragePct (or_summary results)) +:+ newline.
End Report.

(** ** The merge base *)

(** What the collection answers about a commit: the count, and the cursor, which is nil when
    Find fails, with what reading all of it gives. *)
Class CoverageColl := {
  CountDocuments : string -> Z + goerror;
  Find : string -> option (list coverageResult * option goerror);
}.

Section MergeBase.
Context `{CoverageColl} (merge_base : string -> string -> string + goerror) (rev_parse : string -> nat -> string + goerror).

(** [checkForResults]: errors are only logged, and then a nil cursor is read. *)
Definition checkForResults (gitSha : string) : ended goerror (list coverageResult) :=
  match CountDocuments gitSha with
  | inr _ | inl 0 => Ret []
  | inl _ =>
      match Find gitSha with
      | None => Panicking
      | Some (results, _) => Ret results
      end
  end.

(** The loop over the merge base and what is before it: how far back the
    results are, their commit and themselves. *)
Fixpoint look_back (root : string) (n i : nat) : ended goerror (option (nat * string * list coverageResult)) :=
  match n with
  | O => Ret None
  | S n' =>
      match (if decide (i = O) then inl root else rev_parse root i) with
      | inr e => Err e
      | inl curr =>
          match checkForResults curr with
          | Panicking => Panicking
          | Err e => Err e
          | Ret [] => look_back root n' (S i)
          | Ret results => Ret (Some (i, curr, results))
          end
      end
  end.

Definition look_back_limit : nat := 5.

(** The last loop: the results by their package, the last of each, and the last summary. *)
Definition zero_result : coverageResult :=
  mkCoverageResult (mkRunInfo 0 EmptyString EmptyString EmptyString 0 0 0 false) 0 0 0 EmptyString.
Definition dedupe (results : list coverageResult) : overallResults :=
  foldl (fun o r =>
    if bool_decide (Package r = EmptyString) then mkOverall (or_packages o) r
    else mkOverall (<[Package r := r]> (or_packages o)) (or_summary o))
    (mkOverall ∅ zero_result) results.

Definition before_note (root : string) (i : nat) (base : string) : string :=
  "merge base coverage results not available, comparing against closest " +:+ root +:+ "~" +:+
  FormatInt (Z.of_nat i) +:+ "=(" +:+ base +:+ ") instead".
Definition head_note (baseRef base : string) : string :=
  "merge base coverage results not available, using HEAD(" +:+ baseRef +:+ ")=" +:+ base +:+
  " as no other closest candidate was found".

(** [findClosestMergeBaseResults]: the results and a note for the report, or an error. *)
Definition findClosestMergeBaseResults (branchSha baseRef baseSha : string)
    : ended goerror (closetMergeBaseResults * option string) :=
  match merge_base branchSha baseSha with
  | inr e => Err e
  | inl root =>
      match look_back root look_back_limit 0 with
      | Panicking => Panicking
      | Err e => Err e
      | Ret (Some (i, base, results)) =>
          Ret (mkClosest base (dedupe results), if decide (i = O) then None else Some (before_note root i base))
      | Ret None =>
          match checkForResults baseSha with
          | Panicking => Panicking
          | Err e => Err e
          | Ret [] => Err (ENew "failed to find any suitable merge base to compare against")
          | Ret results => Ret (mkClosest baseSha (dedupe results), Some (head_note baseRef baseSha))
          end
      end
  end.
End MergeBase.

(** ** The program *)

(** [mainWithArgs] once the environment is read: without the address of a database or without
    results nothing is done; otherwise the documents that are stored (which
    may fail, and is then only logged) and the report. *)
Definition analyze (fmt0 fmt2 : Q -> string) (error_text : goerror -> string) (run : runInfo) (mongoURI : string)
    (connectErr : option goerror) (closest : ended goerror (closetMergeBaseResults * option string))
    (profiles : list (ended goerror (gmap string funcOutputResult)))
    : ended goerror (option (list coverageResult * string)) :=
  if bool_decide (mongoURI = EmptyString) then Ret None
  else
    match connectErr with
    | Some e => Err e
    | None =>
        match (if GitHubIsPullRequest run
               then match closest with
                    | Panicking => Panicking
                    | Err e => Ret (None, Some (error_text e))
                    | Ret (c, note) => Ret (Some c, note)
                    end
               else Ret (None, None)) with
        | Panicking => Panicking
        | Err e => Err e
        | Ret (past, note) =>
            match merge_profiles run profiles (mkProfilesMerged ∅ ∅) with
            | Panicking => Panicking
            | Err e => Err e
            | Ret m =>
                if bool_decide (covResults m = ∅) then Ret None
                else
                  let s := summary run (rawResults m) in
                  Ret (Some ((map_to_list (covResults m)).*2 ++ [s],
                             generateMarkdownOutput fmt0 fmt2 (mkOverall (covResults m) s)
                               (generateBadge fmt0 s) past note))
            end
        end
    end.

(** One of the variables with a number. *)
Definition env_number (v : option string) : Z + numError :=
  match v with None => inl 0 | Some s => ParseInt 10 64 s end.

(** ** What they promise *)

(** Where a block begins, compared. *)
Definition starts_before (a b : ProfileBlock) : Prop :=
  StartLine a < StartLine b \/ (StartLine a = StartLine b /\ StartCol a <= StartCol b).

Lemma past_later f a b : starts_before a b -> past f a = true -> past f b = true.
Proof.
  unfold starts_before, past. intros Hs [Ha|[Ha Hc]%andb_true_iff]%orb_true_iff; apply orb_true_iff.
  - apply Z.gtb_lt in Ha. left. apply Z.gtb_lt. lia.
  - apply Z.eqb_eq in Ha. apply Z.geb_le in Hc.
    destruct (decide (StartLine b = endLine f)) as [E|E].
    + right. apply andb_true_iff. split; [by apply Z.eqb_eq | apply Z.geb_le; lia].
    + left. apply Z.gtb_lt. lia.
Qed.

(** The reference: every block that is neither past the function nor before
    it counts, wherever it is in the profile. *)
Definition overlaps (f : FuncExtent) (b : ProfileBlock) : bool := negb (past f b) && negb (before f b).
Definition statements (counts : ProfileBlock -> bool) (bs : list ProfileBlock) : Z :=
  foldr (fun b n => if counts b then NumStmt b + n else n) 0 bs.

Lemma statements_none counts bs : Forall (fun b => counts b = false) bs -> statements counts bs = 0.
Proof. induction 1 as [|b bs Hb _ IH]; cbn [statements foldr]; [done|]. by rewrite Hb. Qed.

Lemma coverage_loop_spec f bs c t :
  StronglySorted starts_before bs ->
  coverage_loop f bs c t =
  (c + statements (fun b => overlaps f b && (Count b >? 0)) bs, t + statements (overlaps f) bs).
Proof.
  intros Hs. revert c t. induction Hs as [|b bs Hs IH Hb]; intros c t; cbn [coverage_loop statements foldr].
  { f_equal; lia. }
  fold (statements (fun b => overlaps f b && (Count b >? 0)) bs) (statements (overlaps f) bs).
  destruct (past f b) eqn:Hp.
  - assert (Hnone : Forall (fun b' => overlaps f b' = false) (b :: bs)).
    { constructor; [unfold overlaps; by rewrite Hp|]. eapply Forall_impl; [exact Hb|].
      intros b' Hb'. unfold overlaps. by rewrite (past_later f b b' Hb' Hp). }
    apply Forall_cons in Hnone as [-> Hnone]. cbn [andb].
    rewrite (statements_none (overlaps f)) by done.
    rewrite statements_none; [f_equal; lia|]. eapply Forall_impl; [exact Hnone|].
    intros b' Hb'. cbn beta. by rewrite Hb'.
  - assert (overlaps f b = negb (before f b)) as -> by (unfold overlaps; by rewrite Hp).
    destruct (before f b); cbn [negb andb]; [by rewrite IH|].
    rewrite IH. destruct (Count b >? 0); f_equal; lia.
Qed.

(** On a profile whose blocks are in the order of their beginnings, as cover sorts them,
    stopping at the first block past the function gives the same counts as looking
    at all blocks: the statements of the blocks that overlap the function, and of
    those among them that ran. *)
Theorem coverage_counts_overlapping f bs (Hsorted : StronglySorted starts_before bs) :
  coverage f bs = (statements (fun b => overlaps f b && (Count b >? 0)) bs, statements (overlaps f) bs).
Proof. unfold coverage. by rewrite coverage_loop_spec. Qed.

Lemma coverage_loop_bounds f bs c t :
  Forall (fun b => 0 <= NumStmt b) bs -> 0 <= c <= t ->
  let '(c', t') := coverage_loop f bs c t in 0 <= c' <= t'.
Proof.
  intros Hb. revert c t. induction Hb as [|b bs Hn Hb IH]; intros c t Hct; cbn [coverage_loop]; [done|].
  destruct (past f b); [done|]. destruct (before f b); [by apply IH|]. apply IH. destruct (Count b >? 0); lia.
Qed.

(** A percentage of counts lies between 0 and 100, also without statements. *)
Theorem percent_bounds c t (H : 0 <= c <= t) : (0 <= percent c t <= 100)%Q.
Proof.
  unfold percent. destruct (Z.eqb_spec t 0) as [->|Ht].
  - replace c with 0 by lia. by split.
  - assert (Hp : (0 < inject_Z t)%Q) by (unfold Qlt, inject_Z; simpl; lia). split.
    + apply Qle_shift_div_l; [done|]. unfold Qle, Qmult, inject_Z. simpl. lia.
    + apply Qle_shift_div_r; [done|]. unfold Qle, Qmult, inject_Z. simpl. lia.
Qed.

(** ** Merging *)

Definition merge_all (run : runInfo) (evs : list (string * funcOutputResult)) (m : profilesMerged) : profilesMerged :=
  foldl (fun m '(k, r) => merge_result run m k r) m evs.

Definition result_percent (r : funcOutputResult) : Q := percent (fo_covered r) (fo_total r).

(** The percentage of a package is the highest among the given results of it. *)
Definition highest (evs : list (string * funcOutputResult)) (m : profilesMerged) : Prop :=
  forall pkg, match covResults m !! pkg with
         | None => forall r, (pkg, r) ∉ evs
         | Some c => (exists r, (pkg, r) ∈ evs /\ LineCoveragePct c = result_percent r) /\
                     forall r, (pkg, r) ∈ evs -> (result_percent r <= LineCoveragePct c)%Q
         end.

Lemma merge_result_highest run evs m pkg r :
  highest evs m -> highest (evs ++ [(pkg, r)]) (merge_result run m pkg r).
Proof.
  intros Hm pkg'. specialize (Hm pkg'). unfold merge_result. fold (result_percent r).
  assert (Hin : forall r', (pkg', r') ∈ evs ++ [(pkg, r)] <-> (pkg', r') ∈ evs \/ (pkg' = pkg /\ r' = r)).
  { intros r'. rewrite elem_of_app, list_elem_of_singleton. naive_solver. }
  destruct (decide (pkg' = pkg)) as [->|Hne].
  - destruct (covResults m !! pkg) as [prev|] eqn:Hp.
    + destruct Hm as [(r0 & Hr0 & Heq) Hall]. destruct (Qcompare_spec (result_percent r) (LineCoveragePct prev)) as [E|E|E].
      * rewrite Hp. split; [exists r0; rewrite Hin; auto|]. intros r' [H|[_ ->]]%Hin; [auto|]. rewrite E. apply Qle_refl.
      * cbn [covResults]. rewrite lookup_insert_eq. cbn [LineCoveragePct].
        split; [exists r0; rewrite Hin; auto|]. intros r' [H|[_ ->]]%Hin; [auto|]. by apply Qlt_le_weak.
      * cbn [covResults]. rewrite lookup_insert_eq. cbn [LineCoveragePct].
        split; [exists r; rewrite Hin; auto|]. intros r' [H|[_ ->]]%Hin; [|apply Qle_refl].
        apply Qlt_le_weak. eapply Qle_lt_trans; [by apply Hall|done].
    + cbn [covResults]. rewrite lookup_insert_eq. cbn [LineCoveragePct].
      split; [exists r; rewrite Hin; auto|]. intros r' [H|[_ ->]]%Hin; [by apply Hm in H|apply Qle_refl].
  - assert (Hother : forall m', covResults m' !! pkg' = covResults m !! pkg' ->
      match covResults m' !! pkg' with
      | None => forall r', (pkg', r') ∉ evs ++ [(pkg, r)]
      | Some c => (exists r', (pkg', r') ∈ evs ++ [(pkg, r)] /\ LineCoveragePct c = result_percent r') /\
                  forall r', (pkg', r') ∈ evs ++ [(pkg, r)] -> (result_percent r' <= LineCoveragePct c)%Q
      end).
    { intros m' ->. destruct (covResults m !! pkg') as [c|].
      - destruct Hm as [(r0 & Hr0 & Heq) Hall]. split; [exists r0; rewrite Hin; auto|]. intros r' [H|[? _]]%Hin; [auto|done].
      - intros r' [H|[? _]]%Hin; [by apply Hm in H|done]. }
    destruct (covResults m !! pkg) as [prev|]; [destruct (_ ?= _)%Q|]; apply Hother; cbn [covResults];
      try done; by rewrite lookup_insert_ne.
Qed.

Lemma merge_profiles_all run profiles m :
  merge_profiles run (Ret <$> profiles) m = Ret (merge_all run (profiles ≫= map_to_list) m).
Proof.
  revert m. induction profiles as [|p ps IH]; intros m; [done|].
  change (Ret <$> p :: ps) with (@Ret goerror _ p :: (Ret <$> ps)). cbn [merge_profiles]. rewrite IH.
  unfold merge_all. cbn [mbind list_bind]. by rewrite foldl_app.
Qed.

(** Merging profiles that can all be read gives every package the highest
    percentage that some profile has for it. *)
Theorem merged_percentage_is_highest run profiles :
  exists m, merge_profiles run (Ret <$> profiles) (mkProfilesMerged ∅ ∅) = Ret m /\ highest (profiles ≫= map_to_list) m.
Proof.
  rewrite merge_profiles_all. eexists. split; [done|].
  generalize (profiles ≫= map_to_list). intros evs. induction evs as [|[k r] evs IH] using rev_ind.
  { intros pkg. cbn. rewrite lookup_empty. intros r. apply not_elem_of_nil. }
  unfold merge_all in *. rewrite foldl_app. cbn [foldl]. by apply merge_result_highest.
Qed.

Definition sample_run : runInfo := mkRunInfo 0 EmptyString EmptyString EmptyString 0 0 0 false.

(** But the lines are those of the last profile that did not have the same
    percentage: with 8 of 10 lines and then 1 of 10, the package has 80 percent
    and 1 of 10 lines, and the summary 10 percent. *)
Theorem lower_profile_replaces_lines :
  let m := merge_result sample_run
             (merge_result sample_run (mkProfilesMerged ∅ ∅) "p" (mkFuncOutputResult 8 10)) "p" (mkFuncOutputResult 1 10) in
  (exists c, covResults m !! "p"%string = Some c /\ (LineCoveragePct c == 80)%Q /\ LinesCovered c = 1 /\ LinesTotal c = 10) /\
  (LineCoveragePct (summary sample_run (rawResults m)) == 10)%Q.
Proof. vm_compute. split; [|done]. eexists. by split. Qed.

(** ** Files *)

Section FileFacts.
Context (Dir Base : string -> string) (Join : string -> string -> string) (IsAbs : string -> bool).
Context (go_list : list string -> list Pkg + goerror) (parse : string -> list astNode + goerror).

(** The functions of a file are its declarations with a body, in order. *)
Lemma findFuncs_spec name nodes :
  parse name = inl nodes ->
  findFuncs parse name = inl (omap (fun n => match n with FuncDecl true fe => Some fe | _ => None end) nodes).
Proof using Type.
  intros Hp. unfold findFuncs. rewrite Hp. f_equal.
  enough (Hg : forall acc, foldl Visit acc nodes =
    acc ++ omap (fun n => match n with FuncDecl true fe => Some fe | _ => None end) nodes) by apply Hg.
  clear Hp. induction nodes as [|n nodes IH]; intros acc; cbn [foldl omap list_omap]; [by rewrite app_nil_r|].
  rewrite IH. destruct n as [[] fe|]; cbn [Visit]; [by rewrite <- app_assoc|done|done].
Qed.

(** A profile of a file that is named by a relative or absolute path, alone,
    panics as soon as the file has a function, although such files are found. *)
Theorem local_file_panics p fe nodes :
  relative_or_absolute IsAbs (FileName p) = true -> parse (FileName p) = inl (FuncDecl true fe :: nodes) ->
  findFile Dir Base Join IsAbs ∅ (FileName p) = inl (FileName p) /\
  funcOutput Dir Base Join IsAbs go_list parse [p] = Panicking.
Proof using Type.
  intros Hr Hp. assert (Hf : forall pkgs, findFile Dir Base Join IsAbs pkgs (FileName p) = inl (FileName p)).
  { intros pkgs. unfold findFile. by rewrite Hr. }
  split; [done|]. unfold funcOutput, findPkgs. cbn [foldl]. rewrite Hr. cbn [for_each]. rewrite Hf.
  cbn [ok_or]. unfold mbind, mret, prog_bind, prog_ret. rewrite (findFuncs_spec _ _ Hp). cbn [ok_or omap list_omap].
  unfold mret, prog_ret. cbn [for_each]. unfold add_func.
  destruct (coverage fe (Blocks p)) as [c t]. by rewrite lookup_empty.
Qed.
End FileFacts.

(** ** The report and the merge base *)

(** The rows of the report are those of all packages, once each, in the order of
    their names. *)
Theorem rows_are_sorted {A} (m : gmap string A) :
  StronglySorted String.le (sorted_names m) /\ NoDup (sorted_names m) /\ forall name, name ∈ sorted_names m <-> is_Some (m !! name).
Proof.
  unfold sorted_names. pose proof (merge_sort_Permutation String.le (map_to_list m).*1) as Hp. split_and!.
  - apply (StronglySorted_merge_sort String.le).
  - rewrite Hp. apply NoDup_fst_map_to_list.
  - intros name. rewrite Hp, list_elem_of_fmap. split.
    + intros ([k a] & -> & Hin). apply elem_of_map_to_list in Hin. by exists a.
    + intros [a Ha]. exists (name, a). split; [done|]. by apply elem_of_map_to_list.
Qed.

Section MergeBaseFacts.
Context `{CoverageColl} (merge_base : string -> string -> string + goerror) (rev_parse : string -> nat -> string + goerror).

Definition ancestor (root : string) (i : nat) : string + goerror :=
  if decide (i = O) then inl root else rev_parse root i.

(** Nothing is stored for the commits in between. *)
Definition none_stored (root : string) (i j : nat) : Prop :=
  forall k, (i <= k < j)%nat -> exists c, ancestor root k = inl c /\ checkForResults c = Ret [].

Lemma look_back_spec root n i :
  match look_back rev_parse root n i with
  | Ret (Some (j, base, results)) =>
      (i <= j < i + n)%nat /\ ancestor root j = inl base /\ checkForResults base = Ret results /\ results <> [] /\
      none_stored root i j
  | Ret None => none_stored root i (i + n)
  | _ => True
  end.
Proof using Type.
  revert i. induction n as [|n IH]; intros i; cbn [look_back].
  { intros k Hk. lia. }
  fold (ancestor root i). destruct (ancestor root i) as [c|e] eqn:Ha; [|done].
  destruct (checkForResults c) as [[|r rs]|e|] eqn:Hc; [|split_and!; try done; [lia|intros k Hk; lia]|done|done].
  specialize (IH (S i)). assert (Hi : forall j, none_stored root (S i) j -> none_stored root i j).
  { intros j Hj k Hk. destruct (decide (k = i)) as [->|]; [by exists c|]. apply Hj. lia. }
  destruct (look_back rev_parse root n (S i)) as [[[[j base] results]|]|e|]; [| |done|done].
  - destruct IH as (? & ? & ? & ? & ?). split_and!; try done; [lia..|]. by apply Hi.
  - apply Hi. by replace (i + S n)%nat with (S i + n)%nat by lia.
Qed.

(** The comparison is with the nearest commit, from the merge base four commits
    back, that has results, with a note unless it is the merge base itself; with
    the head of the base when none of them has any; and otherwise there is an
    error. *)
Theorem closest_results_are_found branchSha baseRef baseSha :
  match findClosestMergeBaseResults merge_base rev_parse branchSha baseRef baseSha with
  | Ret (c, note) => exists root results, merge_base branchSha baseSha = inl root /\ results <> [] /\
      checkForResults (cm_base c) = Ret results /\ cm_results c = dedupe results /\
      ((exists i, (i < 5)%nat /\ ancestor root i = inl (cm_base c) /\ none_stored root 0 i /\ (note = None <-> i = O)) \/
       (cm_base c = baseSha /\ none_stored root 0 5 /\ note <> None))
  | _ => True
  end.
Proof using Type.
  unfold findClosestMergeBaseResults. destruct (merge_base branchSha baseSha) as [root|e]; [|done].
  pose proof (look_back_spec root look_back_limit 0) as Hl. unfold look_back_limit in *.
  destruct (look_back rev_parse root 5 0) as [[[[i base] results]|]|e|]; [| |done|done].
  - destruct Hl as (Hi & Ha & Hc & Hne & Hn). exists root, results. split_and!; try done. left. exists i.
    split_and!; try done; [lia|]. by case_decide.
  - destruct (checkForResults baseSha) as [[|r rs]|e|] eqn:Hc; [done| |done|done].
    exists root, (r :: rs). split_and!; try done. by right.
Qed.
End MergeBaseFacts.
