(* ===== verification/TestResults.v ===== *)
(** * The analyzer of tests: [etc/analyzetests]

    What it makes of a run of tests, which gotestsum has parsed, and of the
    environment, and when it writes to the database. The environment, the driver
    and the splitting of names are arguments. *)

From S2P Require Import Prelude GoError GoStrings.
Open Scope Z_scope.

(** A test as gotestsum has it: its package, its name and how long it took, in
    milliseconds; and a package with its results. *)
Record TestCase := mkTestCase { ts_Package : string; ts_Test : string; ts_Elapsed : Z }.
Record testPackage := mkTestPackage { tk_Passed : list TestCase; tk_Skipped : list TestCase; tk_Failed : list TestCase }.

(** [testResult]. *)
Record testResult := mkTestResult {
  tr_CreatedAt : Z; tr_GitSHA : string; tr_GitBranch : string; tr_GitHubRepository : string;
  tr_GitHubRunID : Z; tr_GitHubRunNumber : Z; tr_GitHubRunAttempt : Z; tr_GitHubIsPullRequest : bool;
  tr_Status : string; tr_Package : string; tr_Test : string; tr_RootTest : string; tr_SubTest : string; tr_Elapsed : Z }.

(** What is done with the database. *)
Inductive resultsEvent := RvConnect | RvDisconnect | RvInsertMany (results : list testResult).
(** What its driver answers. *)
Record resultsAnswers := mkResultsAnswers { ra_new : option goerror; ra_connect : option goerror; ra_ping : option goerror; ra_disconnect : option goerror; ra_insert : option goerror }.

Section Analyzer.
Context `{Multierr goerror} (LookupEnv : string -> option string) (parse_error : string -> numError -> goerror).
Context (Split : string -> string * string) (Name : string -> string) (FilterFailedUnique : list TestCase -> list TestCase).

Definition env_int (name : string) : Z + goerror :=
  match LookupEnv name with
  | None => inl 0
  | Some v => match ParseInt 10 64 v with inl n => inl n | inr e => inr (parse_error v e) end
  end.
Definition env_string (name : string) : string := default EmptyString (LookupEnv name).
Definition isPullRequest : bool := negb (bool_decide (env_string "GITHUB_X_PR_BASE_REF" = EmptyString)).

(** The part of a result that is that of the run. *)
Definition parseTest (createdAt runID runNumber runAttempt : Z) (status : string) (tc : TestCase) : testResult :=
  let '(root, sub) := Split (ts_Test tc) in
  mkTestResult createdAt (env_string "GITHUB_X_HEAD_SHA") (env_string "GITHUB_X_HEAD_REF") (env_string "GITHUB_REPOSITORY")
    runID runNumber runAttempt isPullRequest status (ts_Package tc) (Name (ts_Test tc)) root sub (ts_Elapsed tc).
Definition parseTests (createdAt runID runNumber runAttempt : Z) (status : string) (tcs : list TestCase) : list testResult :=
  parseTest createdAt runID runNumber runAttempt status <$> tcs.
Fixpoint all_results (createdAt runID runNumber runAttempt : Z) (pkgs : list testPackage) : list testResult :=
  match pkgs with
  | [] => []
  | pkg :: pkgs' =>
      parseTests createdAt runID runNumber runAttempt "passed" (tk_Passed pkg) ++
      parseTests createdAt runID runNumber runAttempt "skipped" (tk_Skipped pkg) ++
      parseTests createdAt runID runNumber runAttempt "failed" (FilterFailedUnique (tk_Failed pkg)) ++
      all_results createdAt runID runNumber runAttempt pkgs'
  end.

(** [mainWithArgs] after the client is connected. *)
Definition publish (createdAt : Z) (pkgs : list testPackage) (a : resultsAnswers) : list resultsEvent * option goerror :=
  match env_int "GITHUB_RUN_ID" with
  | inr err => ([], Some err)
  | inl runID =>
      match env_int "GITHUB_RUN_NUMBER" with
      | inr err => ([], Some err)
      | inl runNumber =>
          match env_int "GITHUB_RUN_ATTEMPT" with
          | inr err => ([], Some err)
          | inl runAttempt =>
              match all_results createdAt runID runNumber runAttempt pkgs with
              | [] => ([], None)
              | results => ([RvInsertMany results], ra_insert a)
              end
          end
      end
  end.
(** [mainWithArgs]; an error of the last disconnection is only logged. *)
Definition analyze_tests (scanned : list testPackage + goerror) (createdAt : Z) (a : resultsAnswers) : list resultsEvent * option goerror :=
  match scanned with
  | inr err => ([], Some err)
  | inl pkgs =>
      if bool_decide (env_string "MONGODB_TEST_OUTPUT_URI" = EmptyString) then ([], None)
      else
        match ra_new a with
        | Some err => ([], Some err)
        | None =>
            match ra_connect a with
            | Some err => ([RvConnect], Some err)
            | None =>
                match ra_ping a with
                | Some err => ([RvConnect; RvDisconnect], multierr_Combine (err :: option_list (ra_disconnect a)))
                | None => let '(ev, err) := publish createdAt pkgs a in (RvConnect :: ev ++ [RvDisconnect], err)
                end
            end
        end
  end.

(** ** Properties *)

(** The tests of a package with their status, each failed one once. *)
Definition package_tests (pkg : testPackage) : list (string * TestCase) :=
  (pair "passed"%string <$> tk_Passed pkg) ++ (pair "skipped"%string <$> tk_Skipped pkg) ++ (pair "failed"%string <$> FilterFailedUnique (tk_Failed pkg)).

Lemma all_results_spec createdAt runID runNumber runAttempt pkgs :
  all_results createdAt runID runNumber runAttempt pkgs =
  (fun t => parseTest createdAt runID runNumber runAttempt t.1 t.2) <$> concat (package_tests <$> pkgs).
Proof.
  induction pkgs as [|pkg pkgs IH]; [done|]. cbn [all_results fmap list_fmap concat]. rewrite IH. unfold package_tests, parseTests.
  rewrite !fmap_app, <-!list_fmap_compose. by rewrite <-!app_assoc.
Qed.

Definition inserted (ev : list resultsEvent) : list (list testResult) := omap (fun e => match e with RvInsertMany r => Some r | _ => None end) ev.

(** The results are written at most once, and then they are those of every test
    of every package, in order, each with its status and under the run of the
    environment; nothing is written when the run has no test or a number of the
    environment is malformed. *)
Theorem results_are_written_once scanned createdAt a :
  let '(ev, err) := analyze_tests scanned createdAt a in
  inserted ev = [] \/
  exists pkgs runID runNumber runAttempt, scanned = inl pkgs /\
    env_int "GITHUB_RUN_ID" = inl runID /\ env_int "GITHUB_RUN_NUMBER" = inl runNumber /\ env_int "GITHUB_RUN_ATTEMPT" = inl runAttempt /\
    err = ra_insert a /\ concat (package_tests <$> pkgs) <> [] /\
    inserted ev = [(fun t => parseTest createdAt runID runNumber runAttempt t.1 t.2) <$> concat (package_tests <$> pkgs)].
Proof.
  unfold analyze_tests. destruct scanned as [pkgs|e]; [|by left]. case_bool_decide; [by left|].
  destruct (ra_new a); [by left|]. destruct (ra_connect a); [by left|]. destruct (ra_ping a); [by left|]. unfold publish.
  destruct (env_int "GITHUB_RUN_ID") as [n1|] eqn:H1; [|by left]. destruct (env_int "GITHUB_RUN_NUMBER") as [n2|] eqn:H2; [|by left].
  destruct (env_int "GITHUB_RUN_ATTEMPT") as [n3|] eqn:H3; [|by left].
  rewrite all_results_spec. destruct (concat (package_tests <$> pkgs)) as [|t ts] eqn:Hc; [by left|]. right.
  exists pkgs, n1, n2, n3. cbn. by rewrite Hc.
Qed.

(** A client that was connected is disconnected, last and once. *)
Theorem client_is_disconnected scanned createdAt a :
  let ev := (analyze_tests scanned createdAt a).1 in
  ra_connect a = None -> RvConnect ∈ ev -> exists rest, ev = RvConnect :: rest ++ [RvDisconnect] /\ RvDisconnect ∉ rest.
Proof.
  cbn zeta. unfold analyze_tests. destruct scanned as [pkgs|e]; [|by intros _ ?%elem_of_nil]. case_bool_decide; [by intros _ ?%elem_of_nil|].
  destruct (ra_new a); [by intros _ ?%elem_of_nil|]. intros ->. destruct (ra_ping a).
  - intros _. exists []. split; [done|]. apply not_elem_of_nil.
  - destruct (publish createdAt pkgs a) as [ev err] eqn:Hp. intros _. exists ev. split; [done|].
    assert (ev = [] \/ exists r, ev = [RvInsertMany r]) as [->|[r ->]].
    { unfold publish in Hp. repeat case_match; injection Hp as <- <-; eauto. }
    + apply not_elem_of_nil.
    + by intros ?%list_elem_of_singleton.
Qed.
End Analyzer.
